(* ===== verification/_CoqProject ===== *)
-Q . S2P
Prelude.v
Message.v
Env.v
Backend.v
BackendFacts.v
NetUtils.v
Postoffice.v
Codec.v
Resender.v
Van.v
VanFacts.v
Registration.v
Recovery.v
VanLoop.v
Lifecycle.v
NetFacts.v
Process.v
Barrier.v
Customer.v
Slicer.v
KVApp.v
KVFacts.v
CustomerFacts.v
KVServerFacts.v
Pull.v
Queue.v
Spsc.v
Parallel.v
SharedArray.v
SharedArrayFacts.v
HashMap.v
HashChains.v
HashMapFacts.v
HashMapInsert.v
HashMapOps.v
HashMapErase.v
HashMapSpec.v
HashMapBulk.v
AFTensor.v
AFServer.v
AFWorker.v
AFBatch.v
AFResponse.v
RdmaMemory.v
RdmaTransport.v
RdmaConnect.v
RdmaLifecycle.v
RdmaStop.v
RdmaVan.v
IpcTransport.v
IpcFacts.v
RdmaFacts.v
RdmaSystem.v
RdmaSafety.v
RdmaWrites.v
RdmaDelivery.v
RdmaLimits.v
RdmaExample.v
ZmqVan.v
ZmqFacts.v
MultiVan.v
MultiFacts.v
TpVan.v
TpFacts.v
UcxPool.v
UcxTags.v
UcxVan.v
UcxFacts.v
UcxDelivery.v
UcxBuffers.v
