(* ===== verification/Prelude.v ===== *)
(** * StepMesh: a verified model

    StepMesh (src/) is a communication library for attention-FFN disaggregation,
    built on the parameter server ps-lite.  This library models its C++ sources
    as executable functions and proves what they do.

    ** The program and its parts

    A cluster has a scheduler, workers and servers.  In every process a
    [Postoffice] knows the sizes of the cluster, numbers the nodes and keeps the
    groups, the customers, the barriers and the heartbeats; a [Van] registers
    with the scheduler, sends and receives messages, answers control messages
    and gives data messages to a [Customer], which counts the responses of a
    request and calls the application.  Applications are [SimpleApp], the
    key-value store [KVWorker]/[KVServer] and, on top of it, the tensor
    application [AFTensorWorker]/[AFTensorServer].  A van sends its messages
    over a transport (RDMA, ZeroMQ, ...); its meta data travel in the format of
    src/meta.h.

    ** Conventions

    Source names are kept.  [Z] stands for the integers of C++; where a value is
    computed at a machine width the wrap-around is written out ([i32], [u32],
    [u64], see below).  [result] has the value of a call or its fault: a failed
    [PS_CHECK] or [PS_LOG(FATAL)] ([CheckFailed]), undefined behaviour
    ([Undefined]) or a wait for something that has not happened ([Blocked]).
    Objects are records; a method takes the object and returns the new one.
    Messages that leave a component are returned or recorded in a log.  Code
    outside src/ (the C library's allocator, the verbs library, the transport
    below the van, user callbacks, clocks, random numbers) is an argument of the
    definitions that use it, or a class ([Libc] for empty copies, [Verbs] for the
    work requests the verbs library accepts, [Platform] for [assert] and
    [posix_memalign]), with what is relied on as a named hypothesis.  What
    runs concurrently is a system of steps that interleave freely.

    ** Files

    The runtime:
    - Message.v: [Node], [Control], [Meta], [Message], [SArray] as values
      (include/ps/internal/message.h, include/ps/sarray.h).
    - Env.v: [Environment] (include/ps/internal/env.h).
    - Backend.v: [Backend], [CpuBackend], [GpuBackend] (src/backend) and
      [TensorEvent]; BackendFacts.v has their theorems.
    - NetUtils.v: interfaces, adapters and ports of a machine
      (src/network_utils.h, .cc); NetFacts.v: the address of a node.
    - Postoffice.v: [Postoffice] (src/postoffice.cc and its header): ids, ranks,
      groups, key ranges, customers, barrier flags, heartbeats.
    - Codec.v: [PackMeta], [UnpackMeta], [GetPackMetaLen] (src/van.cc) on the
      structs of src/meta.h with the layout rules of the C ABI.
    - Resender.v: [Resender] (src/resender.h).
    - Van.v: the handlers of src/van.cc, one definition each, and the loop
      [Receiving]; VanFacts.v, Registration.v, Recovery.v and VanLoop.v have the
      theorems on barriers and heartbeats, on the ids the scheduler gives, on
      nodes that come back and on time stamps.
    - Lifecycle.v: [Van::Create], [Start], [Stop], [Postoffice::Start],
      [DoBarrier], [Finalize]; Barrier.v: the nodes and the scheduler together,
      as a transition system; Process.v: [StartPS] and [Finalize] of ps.h.
    - Customer.v, CustomerFacts.v: [Customer] (src/customer.cc).
    - Queue.v: [ThreadsafeQueue] with its lock-free ring, step by step; Spsc.v:
      [SPSCQueue] on raw slots; Parallel.v: the thread function of
      [ParallelSort] (its entry cannot be instantiated); SharedArray.v,
      SharedArrayFacts.v: [SArray] in memory, with capacity and sharing.

    Applications:
    - Slicer.v, KVApp.v: [KVPairs], [DefaultSlicer], [KVWorker], [KVServer],
      [SimpleApp] (include/ps/kv_app.h, simple_app.h); KVFacts.v,
      KVServerFacts.v and Pull.v have their theorems.
    - HashMap.v: [emhash8::HashMap] (include/ps/hash_table8.hpp), the index of
      buckets and the dense array of pairs with every index checked;
      HashChains.v, HashMapFacts.v, HashMapInsert.v, HashMapOps.v,
      HashMapErase.v, HashMapSpec.v and HashMapBulk.v have the invariant, the
      lemmas on each routine, the refinement and the whole-table operations.
    - AFTensor.v: [AFTensorWorker] and [AFTensorServer]
      (include/ps/af_tensor_app.h); AFServer.v, AFWorker.v, AFBatch.v and
      AFResponse.v have their theorems.

    The RDMA transport, in the build with STEPMESH_USE_GDR:
    - RdmaMemory.v: allocators, memory regions, [AddressPool]
      (src/van_common.h, src/rdma_utils.h).
    - RdmaTransport.v: [Endpoint] and [RDMATransport] (src/rdma_transport.h);
      RdmaVan.v: [SendMsg], [RecvMsg], [PollCQ] and the registration of memory
      (src/rdma_van.h); RdmaConnect.v: [Connect], [Bind] and the events of the
      connection manager.
    - RdmaSystem.v: nodes with network adapters, as a transition system;
      RdmaFacts.v, RdmaSafety.v, RdmaWrites.v, RdmaDelivery.v and RdmaLimits.v
      have the theorems, RdmaExample.v two concrete nodes.
    - RdmaLifecycle.v, RdmaStop.v: the objects of the verbs library from
      [RDMAVan::Start] to [Stop].
    - IpcTransport.v, IpcFacts.v: [IPCTransport], values in shared memory.

    Other transports:
    - ZmqVan.v, ZmqFacts.v: [ZMQVan] (src/zmq_van.h); MultiVan.v, MultiFacts.v:
      [MultiVan] (src/multi_van.h), several of them.
    - TpVan.v, TpFacts.v: [TPVan] (src/tp_van.h).
    - UcxPool.v: tags, endpoints and receive buffers; UcxVan.v: [UCXVan]
      (src/ucx_van.h); UcxTags.v, UcxFacts.v, UcxDelivery.v and UcxBuffers.v have
      the theorems.

    ** What the theorems show

    - Barriers (Barrier.v): for every interleaving no node leaves a barrier
      before all nodes have entered it; once all have entered, the steps that are
      left are bounded in number, can always be taken, and end with all nodes out
      of it.
    - Wire format (Codec.v): unpacking what was packed gives the meta data back.
    - Registration, recovery, heartbeats (Registration.v, Recovery.v,
      VanFacts.v): the ids are those of the roles and of the places in the
      scheduler's order, the first restarted node takes the place of a dead one of
      its role, dead nodes are exactly those without a recent heartbeat.
    - Resending (Resender.v): duplicates are filtered; a message is sent again
      exactly at the times of the back-off until it is acknowledged, and the
      process gives up after the last one.
    - Queue (Queue.v): with one producer and one consumer every interleaving of
      the ring delivers the values in order, without loss, and makes progress; the
      size it reports is right when nothing happens between its two loads.
    - Key-value store (Slicer.v, KVFacts.v, KVServerFacts.v, Pull.v): the slicer
      agrees with the owner of every key; a request reaches the owners and
      completes with their responses; a pull returns what was pushed.
    - Hash map (HashMapSpec.v, HashMapBulk.v): every sequence of operations gives
      the answers of a finite map, all accesses are inside the arrays and all
      loops end; the operations for which this is false are shown to fail.
    - Tensor batches (AFServer.v, AFWorker.v, AFBatch.v, AFResponse.v): a batch
      reaches every server, overlapping batches are put together again, the
      handle of a batch waits for it, every pull is answered.
    - RDMA (RdmaWrites.v, RdmaDelivery.v, RdmaConnect.v, RdmaLimits.v): no work
      request of any reachable state leaves registered memory, the answers to
      pulls included, which go where a request of their receiver said; a push arrives
      byte for byte; the orders of events for which [Connect] ends; the use of
      the address pool.  [Stop] destroys every object the van has made, in an
      order the library accepts (RdmaStop.v).
    - Shared memory (IpcFacts.v): a push is read from the place of its key, an
      answer is copied there, is announced once and leaves other keys alone.
    - ZeroMQ, several vans, TensorPipe, UCX (ZmqFacts.v, MultiFacts.v, TpFacts.v,
      UcxDelivery.v): what is sent arrives with its meta data and its bytes.
      UCX also: messages of a sender are delivered in order (UcxFacts.v), tags
      name their sender and connections end (UcxTags.v), buffers are given back
      (UcxBuffers.v).
    - Events (BackendFacts.v): a wait that ends well ends when the work recorded
      before is done, and only a failing query ends it earlier; all memory of a process is on its GPU.
    - Start of a process (Process.v, NetFacts.v): which instances start, with
      which address.
    - Arrays, sorting, queues (SharedArrayFacts.v, Parallel.v, Spsc.v): a shared
      array behaves as a vector where the C library accepts an empty copy from any
      pointer, and is well-formed where it does not; the thread function of the
      parallel sort sorts; the two locks of the queue are enough for any number of
      threads.

    Theorems about behaviour the sources do not intend (a queue with two
    producers, a hash map built from a list, a second recovery, a lost callback,
    a connection that never ends, an announcement with the wrong index, a second
    start) are proved in the same way, on concrete inputs
    or for all of them.

    ** Bounds and fuel

    Recursion is structural except in the following places.  The loops of the
    hash map over a chain have the number of buckets plus one as fuel, and the invariant
    gives chains without repetition, so that the theorems prove an [Ok] result
    and never rely on the fuel; without the invariant running out of fuel is
    [Blocked].  [bisect] (the binary search of the slicer) and [hosts_list] have
    the length of their list as fuel, more than the steps they make.  [release]
    of the UCX van has the size of its buffer, and its theorem shows that all
    messages that can be released are; [hex_go] has the 16 digits of a 64-bit
    number; [prefix_len] the bound 512 of the loop itself.  [ParallelSort] is
    defined by well-founded recursion on the number of elements.  Cluster
    sizes, keys, messages and interleavings are not bounded; bounds in the
    theorems (2 ^ 31 for lengths kept in an [int], 2 ^ 32 for lengths in a work
    request) are those of the machine types.

    ** Not modelled

    Code compiled only with STEPMESH_ENABLE_TRACE; the RDMA transport without
    STEPMESH_USE_GDR; code for Windows; log output and debug strings; locks (a
    method that holds one is one step); weak memory (Queue.v interleaves the
    atomic accesses of one producer and one consumer, which their release and
    acquire order); the bindings to PyTorch and the CUDA kernels; the set-up of
    UCX workers and of the channels of TensorPipe and the loading of the mlx5
    symbols, which are only calls of other libraries; launchers and tests.
    fabric_van.h and parallel_kv_match.h do not compile and have no behaviour. *)

From stdpp Require Export base gmap strings list pretty sorting.
From Stdlib Require Export Strings.Byte.
From Stdlib Require Strings.Ascii Strings.String.
From coqutil Require Export Byte Datatypes.RecordSettersUsingExistingGetters.
From coqutil Require Import Word.LittleEndianList.

Open Scope string_scope.
Open Scope list_scope.
Open Scope Z_scope.

(** ** Outcomes

    [PS_CHECK*] and [PS_LOG(FATAL)] (include/dmlc/logging.h) end the process;
    reading or writing outside an object is undefined behaviour; a call can wait
    for something that has not happened.  All three are values of the model, so
    that an error path is part of a statement. *)
Inductive fault : Type :=
| CheckFailed (what : string)
| Undefined (what : string)
| Blocked (what : string).

Inductive result (A : Type) : Type :=
| Ok (a : A)
| Err (f : fault).
Arguments Ok {A} a.
Arguments Err {A} f.

#[export] Instance fault_eq_dec : EqDecision fault.
Proof. solve_decision. Defined.
#[export] Instance result_eq_dec `{EqDecision A} : EqDecision (result A).
Proof. solve_decision. Defined.

#[export] Instance result_ret : MRet result := @Ok.
#[export] Instance result_bind : MBind result := λ A B f r,
  match r with Ok a => f a | Err e => Err e end.
#[export] Instance result_fmap : FMap result := λ A B f r,
  match r with Ok a => Ok (f a) | Err e => Err e end.

Declare Scope mesh_scope.
Delimit Scope mesh_scope with mesh.
Open Scope mesh_scope.

(** [PS_CHECK(b) << what; k] *)
Notation "'check!' b 'or' what ; k" :=
  (if (b : bool) then k else Err (CheckFailed what))
  (at level 100, b at level 99, what at level 0, k at level 200,
   format "'check!'  b  'or'  what ;  '/' k") : mesh_scope.

(** An access that must stay inside its object: [k] runs when it does. *)
Notation "'inside!' b 'or' what ; k" :=
  (if (b : bool) then k else Err (Undefined what))
  (at level 100, b at level 99, what at level 0, k at level 200,
   format "'inside!'  b  'or'  what ;  '/' k") : mesh_scope.

Definition from_option_or {A} (e : fault) (o : option A) : result A :=
  match o with Some a => Ok a | None => Err e end.

Definition is_ok {A} (r : result A) : bool :=
  match r with Ok _ => true | Err _ => false end.

Lemma bind_Ok {A B} (f : A → result B) r b :
  r ≫= f = Ok b ↔ ∃ a, r = Ok a ∧ f a = Ok b.
Proof.
  destruct r as [a|e]; simpl; split.
  - eauto.
  - by intros (? & [= ->] & ?).
  - done.
  - by intros (? & ? & ?).
Qed.

Lemma bind_eq {A B} (f : A → result B) r a : r = Ok a → r ≫= f = f a.
Proof. by intros ->. Qed.

#[export] Instance Ok_inj {A} : Inj (=) (=) (@Ok A).
Proof. by intros a b [= ->]. Qed.

Lemma from_option_or_Ok {A} e (o : option A) a :
  from_option_or e o = Ok a ↔ o = Some a.
Proof. destruct o; naive_solver. Qed.

#[export] Instance byte_eq_dec : EqDecision byte := Byte.byte_eq_dec.
#[export] Instance byte_countable : Countable byte.
Proof. apply (inj_countable Byte.to_N Byte.of_N). apply Byte.of_to_N. Defined.

(** The bytes of a C++ string literal. *)
Definition bytes_of (s : string) : list byte :=
  map Ascii.byte_of_ascii (String.list_ascii_of_string s).

(** ** Machine integers

    A w-bit integer is a [Z]; the conversions below are the wrap-around of the
    C++ conversions to the fixed-width types. *)
Definition uwrap (w : Z) (z : Z) : Z := z mod 2 ^ w.
Definition swrap (w : Z) (z : Z) : Z :=
  (z + 2 ^ (w - 1)) mod 2 ^ w - 2 ^ (w - 1).

Arguments uwrap : simpl never.
Arguments swrap : simpl never.

Abbreviation u8 := (uwrap 8).
Abbreviation u16 := (uwrap 16).
Abbreviation u32 := (uwrap 32).
Abbreviation u64 := (uwrap 64).
Abbreviation i8 := (swrap 8).
Abbreviation i32 := (swrap 32).
Abbreviation i64 := (swrap 64).

Definition in_u (w : Z) (z : Z) : Prop := 0 ≤ z < 2 ^ w.
Definition in_s (w : Z) (z : Z) : Prop := - 2 ^ (w - 1) ≤ z < 2 ^ (w - 1).

#[export] Instance in_u_dec w z : Decision (in_u w z).
Proof. unfold in_u. apply _. Defined.
#[export] Instance in_s_dec w z : Decision (in_s w z).
Proof. unfold in_s. apply _. Defined.

Lemma uwrap_small w z : in_u w z → uwrap w z = z.
Proof. unfold in_u, uwrap. intros. by rewrite Z.mod_small. Qed.

Lemma pow2_double w : 0 < w → 2 ^ w = 2 * 2 ^ (w - 1).
Proof. intros. rewrite <- Z.pow_succ_r by lia. f_equal. lia. Qed.

Lemma swrap_small w z : 0 < w → in_s w z → swrap w z = z.
Proof.
  unfold in_s, swrap. intros Hw Hz. pose proof (pow2_double w Hw).
  rewrite Z.mod_small; lia.
Qed.

Lemma uwrap_range w z : 0 ≤ w → in_u w (uwrap w z).
Proof. unfold in_u, uwrap. intros. apply Z.mod_pos_bound. by apply Z.pow_pos_nonneg. Qed.

Lemma swrap_range w z : 0 < w → in_s w (swrap w z).
Proof.
  unfold in_s, swrap. intros Hw. pose proof (pow2_double w Hw).
  pose proof (Z.mod_pos_bound (z + 2 ^ (w - 1)) (2 ^ w) ltac:(lia)). lia.
Qed.

(** A signed value survives a trip through its unsigned representation. *)
Lemma swrap_uwrap w z : 0 < w → swrap w (uwrap w z) = swrap w z.
Proof.
  unfold swrap, uwrap. intros Hw. f_equal.
  by rewrite Z.add_mod_idemp_l by (apply Z.pow_nonzero; lia).
Qed.

(** Sums of signed values wrap once. *)
Lemma uwrap_swrap w z : 0 < w → uwrap w (swrap w z) = uwrap w z.
Proof.
  unfold swrap, uwrap. intros Hw. rewrite Zminus_mod_idemp_l. f_equal. lia.
Qed.

Lemma swrap_add_l w a b : 0 < w → swrap w (swrap w a + b) = swrap w (a + b).
Proof.
  unfold swrap. intros Hw. f_equal. replace ((a + 2 ^ (w - 1)) mod 2 ^ w - 2 ^ (w - 1) + b + 2 ^ (w - 1))
    with ((a + 2 ^ (w - 1)) mod 2 ^ w + b) by lia.
  rewrite Z.add_mod_idemp_l by (apply Z.pow_nonzero; lia). f_equal. lia.
Qed.
Lemma swrap_add_r w a b : 0 < w → swrap w (a + swrap w b) = swrap w (a + b).
Proof. intros. by rewrite Z.add_comm, swrap_add_l, Z.add_comm. Qed.

Create HintDb mesh.
#[export] Hint Resolve uwrap_range swrap_range : mesh.

(** Evaluate the closed powers of two that [lia] would otherwise treat as
    atoms. *)
Ltac pow2 :=
  repeat match goal with
  | |- context [2 ^ ?w] =>
      let v := eval vm_compute in (2 ^ w) in
      lazymatch v with Zpos _ => change (2 ^ w) with v end
  | H : context [2 ^ ?w] |- _ =>
      let v := eval vm_compute in (2 ^ w) in
      lazymatch v with Zpos _ => change (2 ^ w) with v in H end
  end.

(** Side conditions on machine integers: unfold the ranges, then [lia]. *)
Ltac word_lia :=
  repeat match goal with
  | H : in_u _ _ |- _ => unfold in_u in H
  | H : in_s _ _ |- _ => unfold in_s in H
  end;
  unfold in_u, in_s; cbn [Z.sub Z.opp Z.add Z.pos_sub Pos.pred_double Pos.sub] in *;
  pow2; lia.

(** Linear arithmetic with quotients and remainders by constants. *)
Ltac div_lia := Z.to_euclidean_division_equations; lia.

(** ** Lists *)
Lemma filter_true {A} (P : A → Prop) `{!∀ x, Decision (P x)} (l : list A) :
  (∀ x, x ∈ l → P x) → filter P l = l.
Proof.
  induction l as [|x l IH]; intros HP; [done|].
  rewrite filter_cons_True by (apply HP; left). f_equal. apply IH. intros; apply HP; by right.
Qed.

Lemma filter_false {A} (P : A → Prop) `{!∀ x, Decision (P x)} (l : list A) :
  (∀ x, x ∈ l → ¬ P x) → filter P l = [].
Proof.
  induction l as [|x l IH]; intros HP; [done|].
  rewrite filter_cons_False by (apply HP; left). apply IH. intros; apply HP; by right.
Qed.

Lemma filter_concat {A B} (P : B → Prop) `{∀ x, Decision (P x)} (f : A → list B) g l :
  (∀ x, x ∈ l → filter P (f x) = [g x]) → filter P (concat (map f l)) = map g l.
Proof.
  intros Hf. induction l as [|x l IH]; [done|]. cbn [map concat]. rewrite filter_app, Hf by left.
  rewrite IH; [done|]. intros. apply Hf. by right.
Qed.

Lemma filter_concat_imap {A B} (P : B → Prop) `{∀ x, Decision (P x)} (f : nat → A → list B) g l :
  (∀ k x, (k < length l)%nat → filter P (f k x) = [g k x]) → filter P (concat (imap f l)) = imap g l.
Proof.
  revert f g. induction l as [|x l IH]; intros f g Hf; [done|]. rewrite !imap_cons. cbn [concat].
  rewrite filter_app, Hf by (simpl; lia). cbn [app]. f_equal. apply IH. intros. simpl. apply Hf. simpl. lia.
Qed.

Lemma filter_forall2 {A B} (R : A → B → Prop) (P : A → Prop) (Q : B → Prop)
    `{∀ x, Decision (P x)} `{∀ x, Decision (Q x)} l l' :
  Forall2 R l l' → (∀ x y, R x y → P x ↔ Q y) → Forall2 R (filter P l) (filter Q l').
Proof.
  intros HF HPQ. induction HF as [|x y l l' Hxy HF IH]; [constructor|]. rewrite !filter_cons.
  pose proof (HPQ x y Hxy). repeat case_decide; try tauto. by constructor.
Qed.

Lemma map_imap_const {A B C} (h : B → C) (f : nat → A → B) (g : A → C) l :
  (∀ k x, h (f k x) = g x) → map h (imap f l) = map g l.
Proof.
  revert f. induction l as [|x l IH]; intros f Hf; [done|]. rewrite imap_cons. cbn [map].
  rewrite Hf. f_equal. apply IH. intros. apply Hf.
Qed.

(** ** Comparisons *)

(** What [std::sort] needs of a comparison. *)
Record strict_weak {A} (lt : A → A → bool) : Prop := {
  sw_irrefl : ∀ a, lt a a = false;
  sw_trans : ∀ a b c, lt a b = true → lt b c = true → lt a c = true;
  sw_incomparable : ∀ a b c, lt a b = false → lt b a = false → lt b c = false → lt c b = false →
    lt a c = false ∧ lt c a = false
}.

Lemma strict_weak_key {A} (f : A → Z) : strict_weak (λ a b, f a <? f b).
Proof.
  constructor; [intros a; apply Z.ltb_irrefl| |]; intros a b c; rewrite ?Z.ltb_lt, ?Z.ltb_ge; lia.
Qed.

(** ** Functions changed at one place *)
Definition upd {I A} `{EqDecision I} (f : I → A) (i : I) (a : A) : I → A :=
  λ j, if decide (j = i) then a else f j.

Lemma upd_eq {I A} `{EqDecision I} (f : I → A) i a : upd f i a i = a.
Proof. unfold upd. by rewrite decide_True. Qed.
Lemma upd_ne {I A} `{EqDecision I} (f : I → A) i a j : j ≠ i → upd f i a j = f j.
Proof. intros. unfold upd. by rewrite decide_False. Qed.
