(* ===== verification/Message.v ===== *)
(** * Messages (include/ps/internal/message.h, include/ps/sarray.h, include/ps/base.h)

    The data that travels between nodes: node descriptions, control
    information, message meta data and payload arrays, with the constructors
    and default values of the source. *)

From S2P Require Import Prelude.

(** ** Constants of include/ps/base.h *)
Definition kMaxKey : Z := 2 ^ 64 - 1.
Definition kScheduler : Z := 1.
Definition kServerGroup : Z := 2.
Definition kWorkerGroup : Z := 4.

(** [Node::kEmpty] and [Meta::kEmpty] (src/customer.cc): the largest int16_t. *)
Definition kEmpty : Z := 2 ^ 15 - 1.

(** ** Enumerations *)
Module DeviceType.
Inductive t : Type := UNK | CPU | GPU.

Definition to_Z (d : t) : Z :=
  match d with UNK => 0 | CPU => 1 | GPU => 2 end.
Definition of_Z (z : Z) : option t :=
  match z with 0 => Some UNK | 1 => Some CPU | 2 => Some GPU | _ => None end.

#[global] Instance device_eq_dec : EqDecision t.
Proof. solve_decision. Defined.
Lemma device_of_to d : of_Z (to_Z d) = Some d.
Proof. by destruct d. Qed.
End DeviceType.

Module DataType.
Inductive t : Type :=
| CHAR | INT8 | INT16 | INT32 | INT64
| UINT8 | UINT16 | UINT32 | UINT64
| FLOAT | DOUBLE | OTHER.

Definition to_Z (d : t) : Z :=
  match d with
  | CHAR => 0 | INT8 => 1 | INT16 => 2 | INT32 => 3 | INT64 => 4
  | UINT8 => 5 | UINT16 => 6 | UINT32 => 7 | UINT64 => 8
  | FLOAT => 9 | DOUBLE => 10 | OTHER => 11
  end.
Definition of_Z (z : Z) : option t :=
  match z with
  | 0 => Some CHAR | 1 => Some INT8 | 2 => Some INT16 | 3 => Some INT32
  | 4 => Some INT64 | 5 => Some UINT8 | 6 => Some UINT16 | 7 => Some UINT32
  | 8 => Some UINT64 | 9 => Some FLOAT | 10 => Some DOUBLE | 11 => Some OTHER
  | _ => None
  end.

#[global] Instance datatype_eq_dec : EqDecision t.
Proof. solve_decision. Defined.
Lemma datatype_of_to d : of_Z (to_Z d) = Some d.
Proof. by destruct d. Qed.
End DataType.

(** ** Shared arrays, as values

    An [SArray<V>] of a message: the address of its first element, the
    elements it gives access to, and the devices the data lives on and goes
    to. *)
Module SArray.
Record t (V : Type) : Type := mk {
  ptr_ : Z;
  elems : list V;
  src_device_type_ : DeviceType.t;
  src_device_id_ : Z;
  dst_device_type_ : DeviceType.t;
  dst_device_id_ : Z
}.
Arguments mk {V}.
Arguments ptr_ {V}.
Arguments elems {V}.
Arguments src_device_type_ {V}.
Arguments src_device_id_ {V}.
Arguments dst_device_type_ {V}.
Arguments dst_device_id_ {V}.

Definition size {V} (a : t V) : Z := Z.of_nat (length (elems a)).
Definition empty {V} (a : t V) : bool := size a =? 0.
Definition reset {V} (data : Z) (xs : list V) (src_type : DeviceType.t) (src_id : Z)
    (dst_type : DeviceType.t) (dst_id : Z) : t V :=
  mk data xs src_type src_id dst_type dst_id.
(** [clear]: [reset] with its default devices. *)
Definition clear {V} (a : t V) : t V := reset 0 [] DeviceType.CPU 0 DeviceType.CPU 0.
End SArray.

(** ** Nodes *)
Module Node.
Inductive Role : Type := SERVER | WORKER | SCHEDULER | JOINT.

#[global] Instance role_eq_dec : EqDecision Role.
Proof. solve_decision. Defined.

Definition role_to_Z (r : Role) : Z :=
  match r with SERVER => 0 | WORKER => 1 | SCHEDULER => 2 | JOINT => 3 end.
Definition role_of_Z (z : Z) : option Role :=
  match z with
  | 0 => Some SERVER | 1 => Some WORKER | 2 => Some SCHEDULER
  | 3 => Some JOINT | _ => None
  end.
Lemma role_of_to r : role_of_Z (role_to_Z r) = Some r.
Proof. by destruct r. Qed.

Record t : Type := mk {
  role : Role;
  id : Z;
  customer_id : Z;
  hostname : list byte;
  num_ports : Z;
  ports : list Z;        (* std::array<int, 32> *)
  dev_types : list Z;    (* std::array<int, 32> *)
  dev_ids : list Z;      (* std::array<int, 32> *)
  port : Z;
  is_recovery : bool;
  endpoint_name : list byte;   (* char[64] *)
  endpoint_name_len : Z;
  aux_id : Z
}.

#[global] Instance node_eq_dec : EqDecision t.
Proof. solve_decision. Defined.
End Node.

(** ** Control information *)
Module Control.
Inductive Command : Type :=
| EMPTY | TERMINATE | ADD_NODE | BARRIER | ACK | HEARTBEAT
| BOOTSTRAP | ADDR_REQUEST | ADDR_RESOLVED | INSTANCE_BARRIER.

#[global] Instance command_eq_dec : EqDecision Command.
Proof. solve_decision. Defined.

Definition cmd_to_Z (c : Command) : Z :=
  match c with
  | EMPTY => 0 | TERMINATE => 1 | ADD_NODE => 2 | BARRIER => 3 | ACK => 4
  | HEARTBEAT => 5 | BOOTSTRAP => 6 | ADDR_REQUEST => 7 | ADDR_RESOLVED => 8
  | INSTANCE_BARRIER => 9
  end.
Definition cmd_of_Z (z : Z) : option Command :=
  match z with
  | 0 => Some EMPTY | 1 => Some TERMINATE | 2 => Some ADD_NODE
  | 3 => Some BARRIER | 4 => Some ACK | 5 => Some HEARTBEAT
  | 6 => Some BOOTSTRAP | 7 => Some ADDR_REQUEST | 8 => Some ADDR_RESOLVED
  | 9 => Some INSTANCE_BARRIER | _ => None
  end.
Lemma cmd_of_to c : cmd_of_Z (cmd_to_Z c) = Some c.
Proof. by destruct c. Qed.

Record t : Type := mk {
  cmd : Command;
  node : list Node.t;
  barrier_group : Z;
  msg_sig : Z
}.

Definition default : t := mk EMPTY [] 0 0.
Definition empty (c : t) : bool := bool_decide (cmd c = EMPTY).

#[global] Instance control_eq_dec : EqDecision t.
Proof. solve_decision. Defined.
End Control.

(** ** Traces (include/ps/internal/trace.h) *)
Module Trace.
Record t : Type := mk {
  pre_start : Z; start : Z; postsend : Z; postrecv : Z; process : Z
}.
Definition default : t := mk 0 0 0 0 0.
#[global] Instance trace_eq_dec : EqDecision t.
Proof. solve_decision. Defined.
End Trace.

(** ** Message meta data *)
Definition QP_MAX_NUM : nat := 2.

Module Meta.
Record t : Type := mk {
  head : Z;
  app_id : Z;
  customer_id : Z;
  timestamp : Z;
  sender : Z;
  recver : Z;
  request : bool;
  push : bool;
  simple_app : bool;
  body : list byte;
  data_type : list DataType.t;
  src_dev_type : DeviceType.t;
  src_dev_id : Z;
  dst_dev_type : DeviceType.t;
  dst_dev_id : Z;
  control : Control.t;
  data_size : Z;
  key : Z;
  addr : Z;
  val_len : Z;
  option_ : Z;
  sid : Z;
  is_tensor : Z;
  dtype : Z;
  shape : list Z;
  tensor_ev : option nat;
  request_trace : Trace.t;
  response_trace : Trace.t;
  slave_qp_counter : list Z;
  slave_qp_num : Z
}.

(** [Meta()]: every identifier empty, no request, no payload. *)
Definition default : t :=
  {| head := kEmpty; app_id := kEmpty; customer_id := kEmpty;
     timestamp := kEmpty; sender := kEmpty; recver := kEmpty;
     request := false; push := false; simple_app := false;
     body := []; data_type := [];
     src_dev_type := DeviceType.UNK; src_dev_id := -1;
     dst_dev_type := DeviceType.UNK; dst_dev_id := -1;
     control := Control.default; data_size := 0; key := 0; addr := 0;
     val_len := 0; option_ := 0; sid := 0; is_tensor := 0; dtype := 0;
     shape := []; tensor_ev := None;
     request_trace := Trace.default; response_trace := Trace.default;
     slave_qp_counter := replicate QP_MAX_NUM 0; slave_qp_num := 0 |}.

#[global] Instance meta_eq_dec : EqDecision t.
Proof. solve_decision. Defined.
End Meta.

(** ** Messages *)
Module Message.
Record t : Type := mk {
  meta : Meta.t;
  data : list (SArray.t byte)
}.

Definition default : t := mk Meta.default [].

(** [AddData]: the array joins the payload, its bytes are counted, and the
    second array, the values, fixes the message's devices. *)
Definition AddData (dt : DataType.t) (bytes : SArray.t byte) (m : t) : result t :=
  check! bool_decide (length (data m) = length (Meta.data_type (meta m))) or "AddData";
  let meta1 := (meta m)
    <| Meta.data_type ::= (λ l, l ++ [dt]) |>
    <| Meta.data_size ::= (λ n, i32 (n + SArray.size bytes)) |> in
  let data1 := data m ++ [bytes] in
  let meta2 :=
    if bool_decide (length data1 = 2%nat) then
      meta1 <| Meta.src_dev_type := SArray.src_device_type_ bytes |>
            <| Meta.src_dev_id := SArray.src_device_id_ bytes |>
            <| Meta.dst_dev_type := SArray.dst_device_type_ bytes |>
            <| Meta.dst_dev_id := SArray.dst_device_id_ bytes |>
    else meta1 in
  Ok (mk meta2 data1).

(** [Van::IsValidPushpull]: a data message that is not a [SimpleApp] one. *)
Definition IsValidPushpull (m : t) : bool :=
  if negb (Control.empty (Meta.control (meta m))) then false
  else if Meta.simple_app (meta m) then false
  else true.
End Message.

(** The size of the payload as the sum of the arrays' sizes: what
    [data_size] counts. *)
Definition payload_size (l : list (SArray.t byte)) : Z :=
  foldr (λ a n, SArray.size a + n) 0 l.

Lemma payload_size_app l1 l2 :
  payload_size (l1 ++ l2) = payload_size l1 + payload_size l2.
Proof. induction l1; simpl; lia. Qed.

(** A message whose bookkeeping agrees with its payload. *)
Definition data_wf (m : Message.t) : Prop :=
  length (Message.data m) = length (Meta.data_type (Message.meta m)) ∧
  Meta.data_size (Message.meta m) = payload_size (Message.data m).

Lemma AddData_Ok dt a m :
  data_wf m →
  in_s 32 (payload_size (Message.data m) + SArray.size a) →
  ∃ m', Message.AddData dt a m = Ok m' ∧ data_wf m' ∧
        Message.data m' = Message.data m ++ [a] ∧
        Meta.control (Message.meta m') = Meta.control (Message.meta m) ∧
        Meta.simple_app (Message.meta m') = Meta.simple_app (Message.meta m).
Proof.
  intros [Hl Hs] Hr. unfold Message.AddData.
  rewrite bool_decide_eq_true_2 by done.
  eexists; split; [reflexivity|].
  case_bool_decide; (split; [|done]); split; cbn -[i32];
    rewrite ?length_app, ?Hl, ?payload_size_app, ?Hs; simpl;
    try (rewrite swrap_small by done); lia.
Qed.
