(* ===== verification/Env.v ===== *)
(** * Environment (include/ps/internal/env.h, include/ps/internal/utils.h)

    Configuration variables: those given by the user in the process shadow the
    ones of the operating system.  [atoi] is the C library's, for strings that
    denote an [int]. *)

From Stdlib Require Import Strings.Ascii.
From S2P Require Import Prelude.

(** ** [atoi]: leading white space, an optional sign, then decimal digits *)
Definition isspace (c : ascii) : bool :=
  let n := Z.of_nat (nat_of_ascii c) in
  (n =? 32) || ((9 <=? n) && (n <=? 13)).

Definition digit_of (c : ascii) : option Z :=
  let n := Z.of_nat (nat_of_ascii c) in
  if (48 <=? n) && (n <=? 57) then Some (n - 48) else None.

Fixpoint skip_spaces (s : string) : string :=
  match s with
  | String c s' => if isspace c then skip_spaces s' else s
  | EmptyString => s
  end.

Fixpoint digits (acc : Z) (s : string) : Z :=
  match s with
  | String c s' =>
      match digit_of c with Some d => digits (acc * 10 + d) s' | None => acc end
  | EmptyString => acc
  end.

Definition atoi (s : string) : Z :=
  match skip_spaces s with
  | String "-"%char s' => - digits 0 s'
  | String "+"%char s' => digits 0 s'
  | s' => digits 0 s'
  end.

(** ** The environment object *)
Record Environment : Type := mkEnv {
  kvs : gmap string string;
  getenv : string → option string
}.

Definition find (e : Environment) (k : string) : option string :=
  match kvs e !! k with
  | Some v => Some v
  | None => getenv e k
  end.

Definition env_set (e : Environment) (k v : string) : Environment :=
  e <| kvs ::= (λ m, <[k := v]> m) |>.

(** [Init]: the singleton's map is replaced by the given one. *)
Definition env_init (e : Environment) (envs : gmap string string) : Environment :=
  e <| kvs := envs |>.

(** [int find(k, int* val, default)]: the value written to [*val], and the
    return code. *)
Definition find_int (e : Environment) (k : string) (default_val : Z) : Z * Z :=
  match find e k with
  | None => (default_val, -1)
  | Some s => (atoi s, 0)
  end.

(** [std::string find(k, default)]. *)
Definition find_str (e : Environment) (k default_value : string) : string :=
  match kvs e !! k with
  | Some v => v
  | None => match getenv e k with None => default_value | Some v => v end
  end.

Definition GetEnv (e : Environment) (k default_val : string) : string :=
  match find e k with None => default_val | Some v => v end.

Definition GetEnv_int (e : Environment) (k : string) (default_val : Z) : Z :=
  match find e k with None => default_val | Some v => atoi v end.

(** [BindCpuCore]: the cores whose mask is given to [sched_setaffinity], [None]
    when binding is off.  [cores_per_gpu], [cores_per_socket] and
    [start_offset] default to 5, 48 and 10. *)
Definition BindCpuCore (e : Environment) (offset core_count : Z) : option (list Z) :=
  let gpu := fst (find_int e "STEPMESH_GPU" (-1)) in
  let bind_enable := fst (find_int e "STEPMESH_BIND_CPU_CORE" 0) in
  if (gpu <=? -1) || (bind_enable =? 0) then None
  else
    let cores_per_socket := fst (find_int e "STEPMESH_CPU_CORES_PER_SOCKET" 48) in
    let cores_per_gpu := fst (find_int e "STEPMESH_CPU_CORES_PER_GPU" 5) in
    let start_offset := fst (find_int e "STEPMESH_CPU_START_OFFSET" 10) in
    let offset := if cores_per_gpu <=? offset then cores_per_gpu - 1 else offset in
    let basic_core_id := gpu * cores_per_gpu + start_offset + offset in
    let cpu_core :=
      if gpu <? 2 then basic_core_id
      else if gpu <? 4 then
        basic_core_id + Z.quot cores_per_socket 2 - cores_per_gpu * 2
      else if gpu <? 6 then
        basic_core_id + cores_per_socket - cores_per_gpu * 4
      else
        basic_core_id + Z.quot cores_per_socket 2 * 3 - cores_per_gpu * 6 in
    Some (map (λ i, cpu_core + i) (seqZ 0 core_count)).

(** A variable set in the process is what every lookup sees, whatever the
    operating system says. *)
Lemma find_set e k v k' :
  find (env_set e k v) k' = if decide (k = k') then Some v else find e k'.
Proof.
  unfold find, env_set; simpl. case_decide; subst.
  - by rewrite lookup_insert_eq.
  - by rewrite lookup_insert_ne.
Qed.

(** CPU binding: two processes of one machine that differ in the GPU
    (0 to 7) or two threads that differ in the offset are bound to different
    cores, when the cores of two GPUs fit in half a socket. *)
Theorem bind_cores_disjoint (e1 e2 : Environment) off1 off2 gpu1 gpu2 cpg cps start :
  let configured e gpu :=
    fst (find_int e "STEPMESH_GPU" (-1)) = gpu ∧
    fst (find_int e "STEPMESH_BIND_CPU_CORE" 0) ≠ 0 ∧
    fst (find_int e "STEPMESH_CPU_CORES_PER_SOCKET" 48) = cps ∧
    fst (find_int e "STEPMESH_CPU_CORES_PER_GPU" 5) = cpg ∧
    fst (find_int e "STEPMESH_CPU_START_OFFSET" 10) = start in
  configured e1 gpu1 → configured e2 gpu2 →
  0 ≤ gpu1 < 8 → 0 ≤ gpu2 < 8 → 0 ≤ off1 < cpg → 0 ≤ off2 < cpg →
  0 ≤ cps → Z.rem cps 2 = 0 → 2 * cpg ≤ Z.quot cps 2 →
  ∃ c1 c2, BindCpuCore e1 off1 1 = Some [c1] ∧ BindCpuCore e2 off2 1 = Some [c2] ∧
           (c1 = c2 → gpu1 = gpu2 ∧ off1 = off2).
Proof.
  intros configured (G1 & B1 & S1 & C1 & O1) (G2 & B2 & S2 & C2 & O2) Hg1 Hg2 Ho1 Ho2 Hs Hev Hfit.
  unfold BindCpuCore. rewrite G1, G2, S1, S2, C1, C2, O1, O2.
  rewrite !(proj2 (Z.leb_gt _ _)) by lia. rewrite !(proj2 (Z.eqb_neq _ 0)) by done.
  simpl orb. cbv iota zeta. simpl map.
  eexists _, _; split; [reflexivity|]; split; [reflexivity|].
  pose proof (Z.quot_rem' cps 2).
  destruct (gpu1 <? 2) eqn:?, (gpu1 <? 4) eqn:?, (gpu1 <? 6) eqn:?,
    (gpu2 <? 2) eqn:?, (gpu2 <? 4) eqn:?, (gpu2 <? 6) eqn:?; try lia; intros;
    assert (gpu1 = gpu2) by nia; nia.
Qed.

Definition env_of (l : list (string * string)) : Environment :=
  mkEnv (list_to_map l) (λ _, None).

Lemma bind_cores_disjoint_witness :
  ∃ c1 c2,
    BindCpuCore (env_of [("STEPMESH_GPU", "2"); ("STEPMESH_BIND_CPU_CORE", "1")]) 1 1 = Some [c1] ∧
    BindCpuCore (env_of [("STEPMESH_GPU", "6"); ("STEPMESH_BIND_CPU_CORE", "1")]) 3 1 = Some [c2] ∧
    (c1 = c2 → 2 = 6 ∧ 1 = 3).
Proof.
  eapply (bind_cores_disjoint _ _ 1 3 2 6 5 48 10); try lia; try done;
    vm_compute; split_and!; done.
Defined.
