(* ===== verification/Backend.v ===== *)
(** * Memory back ends and events (include/ps/internal/backend.h, src/backend,
      include/ps/internal/message.h)

    The interface [Backend] with its two implementations and the registry, and
    [TensorEvent], which the tensor application uses to wait for the GPU.

    The CUDA runtime is not part of the sources.  A device is the list of the
    operations that were issued and are not complete; the runtime completes
    those of one stream in the order they were issued, which [complete]
    checks.  The results of its calls are parameters. *)

From S2P Require Import Prelude Env.

Definition BACKEND_OK : Z := 0.
Definition BACKEND_FAILED : Z := -1.

(** ** [Backend]: what the two implementations provide; [th] is the calling
       thread and addresses are numbers, 0 the null pointer *)
Class Backend (B : Type) : Type := {
  SetDevice : Z → Z → B → result (Z * B);
  GetDeviceId : Z → B → result (Z * B);
  Alloc : Z → Z → B → result (Z * B);
  Free : Z → Z → B → result B;
  CreateEvent : Z → B → result (Z * B);
  FreeEvent : Z → Z → B → result (Z * B);
  RecordEvent : Z → Z → Z → B → result (Z * B);
  SyncEvent : Z → Z → B → result (Z * B)
}.

(** ** [CpuBackend]: the device is a NUMA node, events do nothing *)
Module CpuBackend.
Record t : Type := mk { numa_id_ : Z; heap : gmap Z Z }.
End CpuBackend.

Section cpu.
Context (malloc : gmap Z Z → Z → Z).
Implicit Type b : CpuBackend.t.

Definition cpu_SetDevice (dev : Z) b : result (Z * CpuBackend.t) :=
  check! (0 <=? dev) or "cannot set dev for cpu backend";
  Ok (BACKEND_OK, b <| CpuBackend.numa_id_ := dev |>).
Definition cpu_Alloc (size : Z) b : Z * CpuBackend.t :=
  let p := malloc (CpuBackend.heap b) size in
  (p, if p =? 0 then b else b <| CpuBackend.heap ::= <[p := size]> |>).
Definition cpu_Free (m : Z) b : result CpuBackend.t :=
  check! negb (m =? 0) or "cpu backend cannot free null memory";
  inside! bool_decide (is_Some (CpuBackend.heap b !! m)) or "free";
  Ok (b <| CpuBackend.heap ::= delete m |>).

#[export] Instance CpuBackend_ops : Backend CpuBackend.t := {
  SetDevice _ dev b := cpu_SetDevice dev b;
  GetDeviceId _ b := Ok (CpuBackend.numa_id_ b, b);
  Alloc _ size b := Ok (cpu_Alloc size b);
  Free _ m b := cpu_Free m b;
  CreateEvent _ b := Ok (0, b);
  FreeEvent _ _ b := Ok (BACKEND_OK, b);
  RecordEvent _ _ _ b := Ok (BACKEND_OK, b);
  SyncEvent _ _ b := Ok (BACKEND_OK, b)
}.
End cpu.

(** ** The device *)
Inductive op_kind : Type :=
| Kernel                       (* work of the application *)
| CopyFlag (event : Z)         (* [cudaMemcpyAsync] of the GPU's flag to the CPU's *)
| Marker (event : Z).          (* [cudaEventRecord] *)
Record op : Type := mkOp { op_id : Z; op_stream : Z; op_what : op_kind }.

Record device : Type := mkDevice {
  pending : list op;
  next_id : Z;
  cpu_flags : gmap Z Z;        (* [*ev->cpu_flag] of an event *)
  markers : gmap Z Z;          (* the latest marker of a CUDA event, -1 for none *)
  current : gmap Z Z;          (* the GPU a thread works with, 0 if it never chose *)
  owner : gmap Z Z             (* the GPU of a block of memory *)
}.

Definition issue (stream : Z) (k : op_kind) (d : device) : device :=
  d <| pending ::= (λ l, l ++ [mkOp (next_id d) stream k]) |> <| next_id ::= Z.succ |>.

(** An operation completes when it is the first of its stream. *)
Definition complete (id : Z) (d : device) : option device :=
  o ← List.find (λ o, op_id o =? id) (pending d);
  if forallb (λ o', negb (op_stream o' =? op_stream o) || (op_id o <=? op_id o')) (pending d) then
    let d := d <| pending ::= filter (λ o', op_id o' ≠ id) |> in
    Some (match op_what o with CopyFlag ev => d <| cpu_flags ::= <[ev := 0]> |> | _ => d end)
  else None.

(** ** [GpuBackend] *)
Module GpuBackend.
Record t : Type := mk {
  gpu_idx_ : Z;
  mem_sync_ : Z;
  set_idx : gmap Z Z;          (* the thread-local variable of [SetDevice], -1 at first *)
  init_idx : gmap Z Z;         (* that of [DoInitGpu] *)
  get_idx : gmap Z Z;          (* that of [GetDeviceId] *)
  gpu : device
}.
End GpuBackend.
Import GpuBackend.

Definition new_gpu (e : Environment) : GpuBackend.t :=
  GpuBackend.mk (-1) (fst (find_int e "STEPMESH_MEM_SYNC" 1)) ∅ ∅ ∅ (mkDevice [] 0 ∅ ∅ ∅ ∅).

Section gpu.
Context (cudaSetDevice_ok : Z → bool) (cudaMalloc : device → Z → option Z).
(** The stream PyTorch works with in a thread, and the outcome of [cudaEventRecord]
    and of the copy of a flag.  [query_fails]: in this state of the device
    [cudaEventQuery] of the event is neither success nor "not ready"; it may also
    return the error of earlier work, whether the event is ready or not. *)
Context (current_stream : Z → Z) (record_ok : Z → bool) (query_fails : device → Z → bool).
Implicit Type b : GpuBackend.t.

Definition gpu_SetDevice (th dev : Z) b : result (Z * GpuBackend.t) :=
  check! (0 <=? dev) or "cannot set dev for gpu backend";
  check! (dev <=? 7) or "cannot set dev for gpu backend";
  let b := b <| gpu_idx_ := dev |> in
  let idx := default (-1) (set_idx b !! th) in
  Ok (BACKEND_OK,
      if (idx =? -1) || negb (idx =? gpu_idx_ b) then
        let b := b <| set_idx ::= <[th := gpu_idx_ b]> |> in
        if cudaSetDevice_ok (gpu_idx_ b) then b <| gpu ::= (λ d, d <| current ::= <[th := gpu_idx_ b]> |>) |> else b
      else b).

Definition cudaGetDevice (th : Z) (d : device) : Z := default 0 (current d !! th).

Definition gpu_GetDeviceId (th : Z) b : result (Z * GpuBackend.t) :=
  let idx := default (-1) (get_idx b !! th) in
  if negb (idx =? -1) then
    let idx := cudaGetDevice th (gpu b) in
    Ok (idx, b <| get_idx ::= <[th := idx]> |>)
  else Ok (idx, b).

(** [GetDevice]: the index of the torch device. *)
Definition GetDevice b : result Z :=
  check! (0 <=? gpu_idx_ b) or "device index is not initialized for gpu backend";
  Ok (i8 (gpu_idx_ b)).

Definition DoInitGpu (th : Z) b : result GpuBackend.t :=
  if default (-1) (init_idx b !! th) =? -1 then
    check! (0 <=? gpu_idx_ b) or "cannot set device for gpu backend";
    x ← gpu_SetDevice th (gpu_idx_ b) b;
    Ok (x.2 <| init_idx ::= <[th := gpu_idx_ x.2]> |>)
  else Ok b.

Definition gpu_Alloc (th size : Z) b : result (Z * GpuBackend.t) :=
  b ← DoInitGpu th b;
  p ← from_option_or (CheckFailed "cudaMalloc failed") (cudaMalloc (gpu b) size);
  Ok (p, b <| gpu ::= (λ d, d <| owner ::= <[p := cudaGetDevice th d]> |>) |>).

Definition gpu_Free (m : Z) b : result GpuBackend.t :=
  check! negb (m =? 0) or "backend cannot free null memory";
  check! bool_decide (is_Some (owner (gpu b) !! m)) or "cudaFree failed";
  Ok (b <| gpu ::= (λ d, d <| owner ::= delete m |>) |>).

(** The address of an event comes from [cudaMallocHost]. *)
Definition CreateCudaEvent b : result (Z * GpuBackend.t) :=
  ev ← from_option_or (CheckFailed "cudaEventCreateWithFlags failed") (cudaMalloc (gpu b) 8);
  Ok (ev, b <| gpu ::= (λ d, d <| markers ::= <[ev := -1]> |>) |>).
Definition CreateMemEvent b : result (Z * GpuBackend.t) :=
  ev ← from_option_or (CheckFailed "AT_CUDA_CHECK") (cudaMalloc (gpu b) 16);
  Ok (ev, b <| gpu ::= (λ d, d <| cpu_flags ::= <[ev := 0]> |>) |>).
Definition gpu_CreateEvent (th : Z) b : result (Z * GpuBackend.t) :=
  b ← DoInitGpu th b;
  if mem_sync_ b =? 0 then CreateCudaEvent b else CreateMemEvent b.

Definition FreeCudaEvent (ev : Z) b : result (Z * GpuBackend.t) :=
  inside! bool_decide (is_Some (markers (gpu b) !! ev)) or "*ev";
  Ok (BACKEND_OK, b <| gpu ::= (λ d, d <| markers ::= delete ev |>) |>).
Definition FreeMemEvent (ev : Z) b : result (Z * GpuBackend.t) :=
  inside! bool_decide (is_Some (cpu_flags (gpu b) !! ev)) or "ev->gpu_flag";
  Ok (BACKEND_OK, b <| gpu ::= (λ d, d <| cpu_flags ::= delete ev |>) |>).
Definition gpu_FreeEvent (th ev : Z) b : result (Z * GpuBackend.t) :=
  b ← DoInitGpu th b;
  check! negb (ev =? 0) or "backend cannot free null event";
  if mem_sync_ b =? 0 then FreeCudaEvent ev b else FreeMemEvent ev b.

Definition stream_of (th stream : Z) : Z := if stream =? 0 then current_stream th else stream.

Definition RecordCudaEvent (th ev stream : Z) b : result (Z * GpuBackend.t) :=
  inside! bool_decide (is_Some (markers (gpu b) !! ev)) or "*ev";
  if record_ok ev then
    Ok (BACKEND_OK, b <| gpu ::= (λ d, issue (stream_of th stream) (Marker ev) (d <| markers ::= <[ev := next_id d]> |>)) |>)
  else Ok (BACKEND_FAILED, b).

Definition RecordMemEvent (th ev stream : Z) b : result (Z * GpuBackend.t) :=
  inside! bool_decide (is_Some (cpu_flags (gpu b) !! ev)) or "ev->cpu_flag";
  check! record_ok ev or "AT_CUDA_CHECK";
  Ok (BACKEND_OK, b <| gpu ::= (λ d, issue (stream_of th stream) (CopyFlag ev) (d <| cpu_flags ::= <[ev := 1]> |>)) |>).

Definition gpu_RecordEvent (th ev stream : Z) b : result (Z * GpuBackend.t) :=
  b ← DoInitGpu th b;
  check! negb (ev =? 0) or "backend cannot record null event";
  if mem_sync_ b =? 0 then RecordCudaEvent th ev stream b else RecordMemEvent th ev stream b.

(** [cudaEventQuery] without an error: not ready as long as the latest marker is pending. *)
Definition marker_pending (ev : Z) (d : device) : bool :=
  match markers d !! ev with
  | Some id => existsb (λ o, op_id o =? id) (pending d)
  | None => false
  end.

(** The loops over the query and the flag wait for the device; any status but
    "not ready" ends the first one. *)
Definition SyncCudaEvent (ev : Z) b : result (Z * GpuBackend.t) :=
  inside! bool_decide (is_Some (markers (gpu b) !! ev)) or "*ev";
  if query_fails (gpu b) ev then Ok (BACKEND_FAILED, b)
  else if marker_pending ev (gpu b) then Err (Blocked "cudaEventQuery")
  else Ok (BACKEND_OK, b).

Definition SyncMemEvent (ev : Z) b : result (Z * GpuBackend.t) :=
  flag ← from_option_or (Undefined "ev->cpu_flag") (cpu_flags (gpu b) !! ev);
  if flag =? 1 then Err (Blocked "*ev->cpu_flag") else Ok (BACKEND_OK, b).

Definition gpu_SyncEvent (th ev : Z) b : result (Z * GpuBackend.t) :=
  b ← DoInitGpu th b;
  check! negb (ev =? 0) or "backend cannot sync null event";
  if mem_sync_ b =? 0 then SyncCudaEvent ev b else SyncMemEvent ev b.

#[export] Instance GpuBackend_ops : Backend GpuBackend.t := {
  SetDevice := gpu_SetDevice;
  GetDeviceId := gpu_GetDeviceId;
  Alloc := gpu_Alloc;
  Free _ m b := gpu_Free m b;
  CreateEvent := gpu_CreateEvent;
  FreeEvent := gpu_FreeEvent;
  RecordEvent := gpu_RecordEvent;
  SyncEvent := gpu_SyncEvent
}.
End gpu.

(** ** The registry *)
Record registry (B : Type) : Type := mkRegistry { backends_ : gmap string B; backend_impl : option B }.
Arguments mkRegistry {B}.
Arguments backends_ {B}.
Arguments backend_impl {B}.

Definition RegisterImpl {B} (name : string) (b : B) (r : registry B) : registry B :=
  mkRegistry (<[name := b]> (backends_ r)) (backend_impl r).

(** [GetImpl]: the first call chooses the back end. *)
Definition GetImpl {B} (e : Environment) (r : registry B) : result (B * registry B) :=
  match backend_impl r with
  | Some b => Ok (b, r)
  | None =>
      b ← from_option_or (CheckFailed "failed to get backend impl") (backends_ r !! find_str e "STEPMESH_BAKCEND" "GPU");
      Ok (b, mkRegistry (backends_ r) (Some b))
  end.

(** ** [TensorEvent], over any back end *)
Module TensorEvent.
Record t : Type := mk { is_recorded_ : bool; is_released_ : bool; ev_ : Z }.
End TensorEvent.
Import TensorEvent.

Section events.
Context `{!Backend B}.
Implicit Types (e : TensorEvent.t) (b : B).

Definition new_event (th : Z) b : result (TensorEvent.t * B) :=
  x ← CreateEvent th b;
  Ok (TensorEvent.mk false true x.1, x.2).
Definition Record_ (th stream : Z) e b : result (TensorEvent.t * B) :=
  x ← RecordEvent th (ev_ e) stream b;
  Ok (e <| is_recorded_ := (x.1 =? BACKEND_OK) |>, x.2).
Definition Sync (th : Z) e b : result (TensorEvent.t * B) :=
  b ← (if is_recorded_ e then x ← SyncEvent th (ev_ e) b; Ok x.2 else Ok b);
  Ok (e <| is_recorded_ := false |>, b).
Definition Release_event e : TensorEvent.t := e <| is_released_ := true |>.
Definition OccupyEvent e : bool * TensorEvent.t :=
  if is_released_ e then (true, e <| is_released_ := false |>) else (false, e).

(** [GetEvent] of the worker and the server: the first event that can be
    occupied, or a new one. *)
Fixpoint occupy_first (l : list TensorEvent.t) : option nat * list TensorEvent.t :=
  match l with
  | [] => (None, [])
  | e :: l' =>
      let '(ok, e') := OccupyEvent e in
      if ok then (Some O, e' :: l')
      else let '(o, l'') := occupy_first l' in (S <$> o, e' :: l'')
  end.
Definition GetTensorEvent (th : Z) (events_ : list TensorEvent.t) b : result (nat * list TensorEvent.t * B) :=
  match occupy_first events_ with
  | (Some i, l) => Ok (i, l, b)
  | (None, l) =>
      x ← new_event th b;
      Ok (length l, l ++ [(OccupyEvent x.1).2], x.2)
  end.
End events.
