(* ===== verification/BackendFacts.v ===== *)
(** * Waiting for the GPU (src/backend/gpu_backend.cc, include/ps/internal/message.h)

    An event that was recorded on a stream and then waited for: all work that
    was on the stream at the time of the recording is done, and the event can
    be used again.  Which GPU the calls of a thread go to. *)

From S2P Require Import Prelude Env Backend.
Import GpuBackend TensorEvent.

(** Operations have numbers of their own, below the next one. *)
Definition ids_ok (d : device) : Prop :=
  (∀ o, o ∈ pending d → op_id o < next_id d) ∧
  (∀ o o', o ∈ pending d → o' ∈ pending d → op_id o = op_id o' → o = o').

(** Operation [k] is pending on stream [s], or everything before it on the
    stream is done. *)
Definition waits (k s : Z) (w : op_kind) (d : device) : Prop :=
  mkOp k s w ∈ pending d ∨ ∀ o, o ∈ pending d → op_stream o = s → k < op_id o.

Lemma ids_ok_issue s w d : ids_ok d → ids_ok (issue s w d).
Proof.
  intros [Hlt Huniq]. unfold issue. split; cbn.
  - intros o [Ho|Ho%list_elem_of_singleton]%elem_of_app; [specialize (Hlt o Ho); lia|subst o; cbn; lia].
  - intros o o' Ho Ho' Heq. rewrite elem_of_app, list_elem_of_singleton in Ho, Ho'.
    destruct Ho as [Ho| ->], Ho' as [Ho'| ->]; [by apply Huniq| | |done].
    + specialize (Hlt o Ho). cbn in Heq. lia.
    + specialize (Hlt o' Ho'). cbn in Heq. lia.
Qed.

Lemma complete_inv id d d' :
  complete id d = Some d' →
  ∃ o, o ∈ pending d ∧ op_id o = id ∧ pending d' = filter (λ o', op_id o' ≠ id) (pending d) ∧
    next_id d' = next_id d ∧ markers d' = markers d ∧
    cpu_flags d' = (match op_what o with CopyFlag ev => <[ev := 0]> (cpu_flags d) | _ => cpu_flags d end) ∧
    ∀ o', o' ∈ pending d → op_stream o' = op_stream o → id ≤ op_id o'.
Proof.
  unfold complete. destruct (List.find _ _) as [o|] eqn:Ef; [|done]. cbn.
  apply List.find_some in Ef as [Ho Hid%Z.eqb_eq]. apply list_elem_of_In in Ho.
  destruct (forallb _ _) eqn:Eall; [|done]. intros [= <-]. exists o.
  split_and!; [done|done| | | | |].
  1-4: by destruct (op_what o).
  intros o' Ho' Hs. rewrite forallb_forall in Eall. specialize (Eall o' (proj1 (list_elem_of_In _ _) Ho')).
  apply orb_prop in Eall as [Hne|Hle]; [|lia]. rewrite Hs, Z.eqb_refl in Hne. done.
Qed.

Lemma ids_ok_complete id d d' : ids_ok d → complete id d = Some d' → ids_ok d'.
Proof.
  intros Hok Hc. destruct (complete_inv _ _ _ Hc) as (o & _ & _ & Hp & Hn & _). destruct Hok as [Hlt Hu].
  unfold ids_ok. rewrite Hp, Hn. split.
  - intros o' [_ Ho']%list_elem_of_filter. by apply Hlt.
  - intros o1 o2 [_ H1]%list_elem_of_filter [_ H2]%list_elem_of_filter. by apply Hu.
Qed.

Lemma waits_issue k s w s' w' d : k < next_id d → waits k s w d → waits k s w (issue s' w' d).
Proof.
  intros Hk [Hin|Hall]; [left|right]; cbn.
  - apply elem_of_app. by left.
  - intros o [Ho|Ho%list_elem_of_singleton]%elem_of_app Hs; [by apply Hall|by subst o].
Qed.

(** When operation [k] completes, what is left on its stream is later. *)
Lemma waits_complete k s w id d d' :
  ids_ok d → waits k s w d → complete id d = Some d' → waits k s w d'.
Proof.
  intros Hok Hw Hc. destruct (complete_inv _ _ _ Hc) as (o & Ho & Hid & Hp & _ & _ & _ & Hfirst).
  unfold waits. rewrite Hp. destruct Hw as [Hin|Hall].
  - destruct (decide (k = id)) as [->|Hne].
    + right. intros o' [Hne Ho']%list_elem_of_filter Hs.
      assert (o = mkOp id s w) as -> by (apply (proj2 Hok); [done|done|by rewrite Hid]).
      specialize (Hfirst o' Ho' Hs). lia.
    + left. apply list_elem_of_filter. done.
  - right. intros o' [_ Ho']%list_elem_of_filter. by apply Hall.
Qed.

(** ** The back end under the calls of other threads *)
Section gpu.
Context (cudaSetDevice_ok : Z → bool) (cudaMalloc : device → Z → option Z).
Context (current_stream : Z → Z) (record_ok : Z → bool) (query_fails : device → Z → bool).
#[local] Instance ops : Backend GpuBackend.t :=
  GpuBackend_ops cudaSetDevice_ok cudaMalloc current_stream record_ok query_fails.

(** What happens between the recording of an event and the wait for it: work is
    issued, work completes, other events are recorded. *)
Inductive act : Type :=
| Launch (stream : Z)
| Complete (id : Z)
| RecordOther (th ev stream : Z).

Definition act_step (b : GpuBackend.t) (a : act) : option GpuBackend.t :=
  match a with
  | Launch s => Some (b <| gpu ::= issue s Kernel |>)
  | Complete id => d ← complete id (gpu b); Some (b <| gpu := d |>)
  | RecordOther th ev s => match RecordEvent th ev s b with Ok x => Some x.2 | Err _ => None end
  end.
Fixpoint acts (b : GpuBackend.t) (l : list act) : option GpuBackend.t :=
  match l with [] => Some b | a :: l' => b ← act_step b a; acts b l' end.

Definition spares (ev : Z) (a : act) : Prop :=
  match a with RecordOther _ ev' _ => ev' ≠ ev | _ => True end.

(** The parts of the device the events depend on. *)
Definition same_work (d d' : device) : Prop :=
  pending d' = pending d ∧ next_id d' = next_id d ∧ cpu_flags d' = cpu_flags d ∧ markers d' = markers d.

Lemma DoInitGpu_work th b b' :
  DoInitGpu cudaSetDevice_ok th b = Ok b' → same_work (gpu b) (gpu b') ∧ mem_sync_ b' = mem_sync_ b.
Proof.
  unfold DoInitGpu. destruct (_ =? -1); [|by intros [= <-]]. destruct (0 <=? _); [|done].
  intros (x & E & [= <-])%bind_Ok. unfold gpu_SetDevice in E.
  destruct (0 <=? _); [|done]. destruct (_ <=? 7); [|done]. injection E as <-. cbn.
  destruct (_ || _); [|done]. cbn. by destruct (cudaSetDevice_ok _).
Qed.

(** The event is free: nothing that was recorded with it is pending. *)
Definition settled (ev : Z) (b : GpuBackend.t) : Prop :=
  mem_sync_ b = 0 ∨
  (cpu_flags (gpu b) !! ev = Some 0 ∧ ∀ o, o ∈ pending (gpu b) → op_what o ≠ CopyFlag ev).

(** The event was recorded as operation [k] of stream [s]. *)
Definition recorded (ev k s : Z) (b : GpuBackend.t) : Prop :=
  ids_ok (gpu b) ∧ k < next_id (gpu b) ∧
  if mem_sync_ b =? 0 then
    markers (gpu b) !! ev = Some k ∧ waits k s (Marker ev) (gpu b)
  else
    (∀ o, o ∈ pending (gpu b) → op_what o = CopyFlag ev → o = mkOp k s (CopyFlag ev)) ∧
    ((cpu_flags (gpu b) !! ev = Some 1 ∧ mkOp k s (CopyFlag ev) ∈ pending (gpu b)) ∨
     (cpu_flags (gpu b) !! ev = Some 0 ∧ ∀ o, o ∈ pending (gpu b) → op_stream o = s → k < op_id o)).

Lemma same_work_ids d d' : same_work d d' → ids_ok d → ids_ok d'.
Proof. unfold same_work, ids_ok. intros (-> & -> & _) H. exact H. Qed.

Lemma recorded_same ev k s b b' :
  same_work (gpu b) (gpu b') → mem_sync_ b' = mem_sync_ b → recorded ev k s b → recorded ev k s b'.
Proof.
  intros Hs Hm (Hid & Hk & H). split; [by eapply same_work_ids|]. destruct Hs as (Hp & Hn & Hf & Hmk).
  unfold waits in *. rewrite Hn, Hm. split; [done|]. unfold waits. by rewrite Hp, Hf, Hmk.
Qed.

(** Issuing an operation that is not of the event. *)
Lemma recorded_issue ev k s s' w b :
  w ≠ CopyFlag ev → recorded ev k s b → recorded ev k s (b <| gpu ::= issue s' w |>).
Proof.
  intros Hw (Hid & Hk & H). split; [by apply ids_ok_issue|]. split; [cbn; lia|]. cbn.
  destruct (mem_sync_ b =? 0).
  - destruct H as [H1 H2]. split; [done|]. by apply waits_issue.
  - destruct H as [Hu H]. split.
    + intros o [Ho|Ho%list_elem_of_singleton]%elem_of_app Hwo; [by apply Hu|]. by subst o.
    + destruct H as [[Hf Hin]|[Hf Hall]]; [left|right]; (split; [done|]).
      * apply elem_of_app. by left.
      * intros o [Ho|Ho%list_elem_of_singleton]%elem_of_app Hs; [by apply Hall|]. by subst o.
Qed.

Lemma recorded_complete ev k s id b d :
  recorded ev k s b → complete id (gpu b) = Some d → recorded ev k s (b <| gpu := d |>).
Proof.
  intros (Hid & Hk & H) Hc. change (gpu (b <| gpu := d |>)) with d.
  unfold recorded. change (gpu (b <| gpu := d |>)) with d. change (mem_sync_ (b <| gpu := d |>)) with (mem_sync_ b).
  split; [by eapply ids_ok_complete|].
  destruct (complete_inv _ _ _ Hc) as (o & Ho & Hoid & Hp & Hn & Hm & Hf & Hfirst). rewrite Hn. split; [done|].
  destruct (mem_sync_ b =? 0).
  - destruct H as [H1 H2]. rewrite Hm. split; [done|]. by eapply waits_complete.
  - destruct H as [Hu H]. rewrite Hp. split.
    { intros o' [_ Ho']%list_elem_of_filter. by apply Hu. }
    destruct (decide (id = k)) as [->|Hne].
    + right. destruct H as [[Hfl Hin]|[Hfl Hall]].
      * assert (o = mkOp k s (CopyFlag ev)) as -> by (apply (proj2 Hid); done).
        rewrite Hf. cbn. rewrite lookup_insert_eq. split; [done|].
        intros o' [Hne Ho']%list_elem_of_filter Hs. specialize (Hfirst o' Ho' Hs). lia.
      * split.
        -- rewrite Hf. destruct (op_what o) as [|ev'|] eqn:Ew; [done| |done].
           destruct (decide (ev' = ev)) as [->|Hev]; [by rewrite lookup_insert_eq|by rewrite lookup_insert_ne].
        -- intros o' [_ Ho']%list_elem_of_filter. by apply Hall.
    + assert (cpu_flags d !! ev = cpu_flags (gpu b) !! ev) as ->.
      { rewrite Hf. destruct (op_what o) as [|ev'|] eqn:Ew; [done| |done]. apply lookup_insert_ne.
        intros ->. specialize (Hu o Ho Ew). subst o. by cbn in Hoid. }
      destruct H as [[Hfl Hin]|[Hfl Hall]]; [left|right]; (split; [done|]).
      * by apply list_elem_of_filter.
      * intros o' [_ Ho']%list_elem_of_filter. by apply Hall.
Qed.

Lemma recorded_step ev k s a b b' :
  spares ev a → recorded ev k s b → act_step b a = Some b' → recorded ev k s b'.
Proof.
  intros Hsp Hr. destruct a as [s'|id|th ev' s']; cbn [act_step].
  - intros [= <-]. by apply recorded_issue.
  - destruct (complete id (gpu b)) as [d|] eqn:E; [|done]. intros [= <-]. by eapply recorded_complete.
  - destruct (RecordEvent th ev' s' b) as [x|] eqn:E; [|done]. intros [= <-]. cbn in E, Hsp. unfold gpu_RecordEvent in E.
    apply bind_Ok in E as (b1 & Ei & E). destruct (DoInitGpu_work _ _ _ Ei) as [Hw Hm].
    apply (recorded_same _ _ _ b b1 Hw Hm) in Hr. destruct (negb _); [|done].
    destruct (mem_sync_ b1 =? 0) eqn:Em.
    + unfold RecordCudaEvent in E. destruct (bool_decide _); [|done]. destruct (record_ok ev'); [|by injection E as <-].
      injection E as <-.
      refine (recorded_issue ev k s (stream_of current_stream th s') (Marker ev')
                (b1 <| gpu ::= λ d, d <| markers ::= <[ev' := next_id d]> |> |>) _ _); [done|].
      destruct Hr as (H1 & H2 & H3). split; [done|]. split; [done|]. rewrite Em in H3. cbn. rewrite Em.
      destruct H3 as [H3 H4]. split; [by rewrite lookup_insert_ne|done].
    + unfold RecordMemEvent in E. destruct (bool_decide _); [|done]. destruct (record_ok _); [|done]. injection E as <-.
      refine (recorded_issue ev k s (stream_of current_stream th s') (CopyFlag ev')
                (b1 <| gpu ::= λ d, d <| cpu_flags ::= <[ev' := 1]> |> |>) _ _); [congruence|].
      destruct Hr as (H1 & H2 & H3). split; [done|]. split; [done|]. rewrite Em in H3. cbn. rewrite Em.
      by rewrite lookup_insert_ne.
Qed.

Lemma recorded_acts ev k s l b b' :
  Forall (spares ev) l → recorded ev k s b → acts b l = Some b' → recorded ev k s b'.
Proof.
  intros Hl. revert b. induction Hl as [|a l Ha Hl IH]; intros b Hr; cbn [acts]; [by intros [= <-]|].
  destruct (act_step b a) as [b1|] eqn:E; [|done]. cbn. apply IH. by eapply recorded_step.
Qed.

Lemma recorded_start th ev stream b b1 :
  ids_ok (gpu b) → settled ev b → RecordEvent th ev stream b = Ok (BACKEND_OK, b1) →
  recorded ev (next_id (gpu b)) (stream_of current_stream th stream) b1.
Proof.
  intros Hid Hset E. cbn in E. unfold gpu_RecordEvent in E. apply bind_Ok in E as (b0 & Ei & E).
  destruct (DoInitGpu_work _ _ _ Ei) as [Hw Hm]. pose proof (same_work_ids _ _ Hw Hid) as Hid0.
  destruct Hw as (Hp & Hn & Hf & Hmk). destruct (negb _); [|done]. destruct (mem_sync_ b0 =? 0) eqn:Em.
  - unfold RecordCudaEvent in E. destruct (bool_decide _); [|done]. destruct (record_ok ev); [|done]. injection E as <-.
    split; [by apply ids_ok_issue|]. rewrite <- Hn. split; [cbn; lia|]. cbn. rewrite Em, lookup_insert_eq.
    split; [done|]. left. cbn. apply elem_of_app. right. by apply list_elem_of_singleton.
  - unfold RecordMemEvent in E. destruct (bool_decide _); [|done]. destruct (record_ok _); [|done]. injection E as <-.
    destruct Hset as [Hset|[Hfl Hno]]; [lia|].
    split; [by apply ids_ok_issue|]. rewrite <- Hn. split; [cbn; lia|]. cbn. rewrite Em. split.
    + intros o [Ho|Ho%list_elem_of_singleton]%elem_of_app Hwo; [|by subst o]. rewrite Hp in Ho. by destruct (Hno o Ho).
    + left. rewrite lookup_insert_eq. split; [done|]. apply elem_of_app. right. by apply list_elem_of_singleton.
Qed.

Lemma synced th ev k s b r b' :
  recorded ev k s b → SyncEvent th ev b = Ok (r, b') →
  (r = BACKEND_OK → ∀ o, o ∈ pending (gpu b') → op_stream o = s → k < op_id o) ∧
  (r ≠ BACKEND_OK → mem_sync_ b = 0 ∧ query_fails (gpu b') ev = true) ∧
  settled ev b' ∧ pending (gpu b') = pending (gpu b).
Proof.
  intros Hr E. cbn in E. unfold gpu_SyncEvent in E. apply bind_Ok in E as (b0 & Ei & E).
  destruct (DoInitGpu_work _ _ _ Ei) as [Hw Hm]. rewrite <- (proj1 Hw), <- Hm.
  apply (recorded_same _ _ _ b b0 Hw Hm) in Hr. destruct Hr as (Hid & _ & H). destruct (negb _); [|done].
  unfold settled. destruct (mem_sync_ b0 =? 0) eqn:Em.
  - unfold SyncCudaEvent in E. destruct (bool_decide _); [|done]. apply Z.eqb_eq in Em.
    destruct (query_fails (gpu b0) ev) eqn:Eq; [injection E as <- <-; split_and!; [done|done|by left|done]|].
    destruct (marker_pending ev (gpu b0)) eqn:Ep; [done|].
    injection E as <- <-. split_and!; [|done|by left|done]. intros _. destruct H as [Hmk [Hin|Hall]]; [|done].
    exfalso. unfold marker_pending in Ep. rewrite Hmk in Ep. apply not_true_iff_false in Ep. apply Ep.
    apply existsb_exists. eexists. split; [by apply list_elem_of_In|]. cbn. lia.
  - unfold SyncMemEvent in E. apply bind_Ok in E as (fl & Hfl & E). apply from_option_or_Ok in Hfl.
    destruct (fl =? 1) eqn:Efl; [done|]. injection E as <- <-. destruct H as [Hu [[Hf1 _]|[Hf0 Hall]]].
    + rewrite Hfl in Hf1. injection Hf1 as ->. done.
    + split_and!; [done|done| |done]. right. split; [done|]. intros o Ho Hwo.
      rewrite (Hu o Ho Hwo) in Ho. specialize (Hall _ Ho eq_refl). cbn in Hall. lia.
Qed.

Lemma RecordEvent_mem_sync th ev s b r b1 : RecordEvent th ev s b = Ok (r, b1) → mem_sync_ b1 = mem_sync_ b.
Proof.
  intros E. cbn in E. unfold gpu_RecordEvent in E. apply bind_Ok in E as (b0 & Ei & E).
  destruct (DoInitGpu_work _ _ _ Ei) as [_ <-]. destruct (negb _); [|done]. destruct (mem_sync_ b0 =? 0).
  - unfold RecordCudaEvent in E. destruct (bool_decide _); [|done]. by destruct (record_ok ev); injection E as _ <-.
  - unfold RecordMemEvent in E. destruct (bool_decide _); [|done]. destruct (record_ok ev); [|done]. by injection E as _ <-.
Qed.

Lemma acts_mem_sync l b b' : acts b l = Some b' → mem_sync_ b' = mem_sync_ b.
Proof.
  revert b. induction l as [|a l IH]; intros b; cbn [acts]; [by intros [= <-]|].
  destruct (act_step b a) as [b1|] eqn:E; [|done]. cbn. intros H. rewrite (IH _ H). clear H.
  destruct a as [s|id|th ev s]; cbn [act_step] in E.
  - by injection E as <-.
  - destruct (complete id (gpu b)); [|done]. by injection E as <-.
  - destruct (RecordEvent th ev s b) as [[r x]|] eqn:Er; [|done]. injection E as <-. by eapply RecordEvent_mem_sync.
Qed.

(** C23. Waiting for an event waits for the stream: when an event that is
    not in use is recorded on a stream and [Sync] returns, the back end reported
    success and all work that was on the stream at the time of the recording is
    done, whatever was issued, completed and recorded in between; or it reported a
    failure, which only happens with CUDA events and when the query of the event
    failed.  With flags in memory the first is always the case.  The event can be
    recorded again. *)
Theorem event_waits_for_stream th th' stream e e1 e2 b b1 b2 b3 l :
  ids_ok (gpu b) → settled (ev_ e) b →
  Record_ th stream e b = Ok (e1, b1) → is_recorded_ e1 = true →
  Forall (spares (ev_ e)) l → acts b1 l = Some b2 →
  Sync th' e1 b2 = Ok (e2, b3) →
  ∃ r, SyncEvent th' (ev_ e) b2 = Ok (r, b3) ∧
  (r = BACKEND_OK →
     ∀ o, o ∈ pending (gpu b) → op_stream o = stream_of current_stream th stream → o ∉ pending (gpu b3)) ∧
  (r ≠ BACKEND_OK → mem_sync_ b = 0 ∧ query_fails (gpu b3) (ev_ e) = true) ∧
  settled (ev_ e2) b3 ∧ ev_ e2 = ev_ e ∧ is_recorded_ e2 = false.
Proof.
  intros Hid Hset Hrec Hr Hl Ha Hsync. unfold Record_ in Hrec. apply bind_Ok in Hrec as ([r b1'] & E & Hrec).
  injection Hrec as <- <-. cbn in Hr. apply Z.eqb_eq in Hr. cbn in Hr. subst r.
  pose proof (recorded_acts _ _ _ _ _ _ Hl (recorded_start _ _ _ _ _ Hid Hset E) Ha) as Hrec.
  unfold Sync in Hsync. cbn in Hsync. apply bind_Ok in Hsync as (b3' & Es & Hsync). injection Hsync as <- <-.
  apply bind_Ok in Es as ([r b3''] & Es & [= <-]). destruct (synced _ _ _ _ _ _ _ Hrec Es) as (Hall & Hfail & Hset' & _).
  exists r. split_and!; [exact Es| | |done|done|done].
  - intros Hok o Ho Hs Ho'. specialize (Hall Hok o Ho' Hs). pose proof (proj1 Hid o Ho). lia.
  - intros Hbad. destruct (Hfail Hbad) as [Hm Hq]. split; [|done].
    by rewrite <- (RecordEvent_mem_sync _ _ _ _ _ _ E), <- (acts_mem_sync _ _ _ Ha).
Qed.

(** [Sync] returns once the device has nothing left to do. *)
Lemma sync_ends th ev k s b :
  recorded ev k s b → pending (gpu b) = [] → ev ≠ 0 → 0 ≤ gpu_idx_ b ≤ 7 →
  is_ok (SyncEvent th ev b) = true.
Proof.
  intros Hr Hnil Hev Hg. cbn. unfold gpu_SyncEvent.
  assert (∃ b', DoInitGpu cudaSetDevice_ok th b = Ok b') as [b0 E].
  { unfold DoInitGpu. destruct (_ =? -1); [|by eexists]. unfold gpu_SetDevice.
    rewrite !(proj2 (Z.leb_le _ _)) by lia. by eexists. }
  rewrite (bind_eq _ _ _ E). rewrite (proj2 (Z.eqb_neq _ _) Hev). cbn [negb].
  destruct (DoInitGpu_work _ _ _ E) as [Hw Hm]. pose proof (recorded_same _ _ _ _ _ Hw Hm Hr) as (_ & _ & H).
  destruct Hw as (Hp & _). rewrite Hnil in Hp. destruct (mem_sync_ b0 =? 0).
  - destruct H as [Hmk _]. unfold SyncCudaEvent. rewrite bool_decide_eq_true_2 by by eexists.
    unfold marker_pending. rewrite Hmk, Hp. by destruct (query_fails _ _).
  - destruct H as [_ [[_ Hin]|[Hf _]]]; [rewrite Hp in Hin; by apply elem_of_nil in Hin|].
    unfold SyncMemEvent. by rewrite Hf.
Qed.

(** ** Calls of any threads in any order *)
Inductive backend_call : Type :=
| CallSetDevice (th dev : Z)
| CallGetDeviceId (th : Z)
| CallAlloc (th size : Z)
| CallFree (th m : Z)
| CallCreateEvent (th : Z)
| CallFreeEvent (th ev : Z)
| CallRecordEvent (th ev stream : Z)
| CallSyncEvent (th ev : Z).

Definition do_call (c : backend_call) (b : GpuBackend.t) : result GpuBackend.t :=
  match c with
  | CallSetDevice th dev => snd <$> SetDevice th dev b
  | CallGetDeviceId th => snd <$> GetDeviceId th b
  | CallAlloc th size => snd <$> Alloc th size b
  | CallFree th m => Free th m b
  | CallCreateEvent th => snd <$> CreateEvent th b
  | CallFreeEvent th ev => snd <$> FreeEvent th ev b
  | CallRecordEvent th ev s => snd <$> RecordEvent th ev s b
  | CallSyncEvent th ev => snd <$> SyncEvent th ev b
  end.
Fixpoint do_calls (l : list backend_call) (b : GpuBackend.t) : result GpuBackend.t :=
  match l with [] => Ok b | c :: l' => b ← do_call c b; do_calls l' b end.

(** Every thread that chose a device works with device [g], and so does every
    block of memory. *)
Record on_device (g : Z) (b : GpuBackend.t) : Prop := {
  od_idx : gpu_idx_ b = -1 ∨ gpu_idx_ b = g;
  od_get : get_idx b = ∅;
  od_set : ∀ th x, set_idx b !! th = Some x → x = g ∧ current (gpu b) !! th = Some g;
  od_init : ∀ th x, init_idx b !! th = Some x → set_idx b !! th = Some g;
  od_owner : ∀ p x, owner (gpu b) !! p = Some x → x = g
}.

Definition only (g : Z) (c : backend_call) : Prop := match c with CallSetDevice _ dev => dev = g | _ => True end.

Section one_device.
Context (g : Z) (Hg : 0 ≤ g ≤ 7) (Hset : cudaSetDevice_ok g = true).

Lemma on_device_set th b r b' :
  on_device g b → gpu_SetDevice cudaSetDevice_ok th g b = Ok (r, b') →
  on_device g b' ∧ set_idx b' !! th = Some g ∧ gpu_idx_ b' = g.
Proof.
  intros Hb. unfold gpu_SetDevice. rewrite !(proj2 (Z.leb_le _ _)) by lia. cbv zeta. cbn. intros [= _ <-].
  destruct (set_idx b !! th) as [x|] eqn:E; cbn.
  - destruct (od_set _ _ Hb _ _ E) as [-> Hc]. rewrite Z.eqb_refl, (proj2 (Z.eqb_neq g (-1))) by lia. cbn.
    split; [|done]. destruct Hb. constructor; cbn; auto.
  - unfold const. rewrite Hset. split; [|cbn; by rewrite lookup_insert_eq]. constructor; cbn.
    + by right.
    + apply (od_get _ _ Hb).
    + intros th' x. destruct (decide (th' = th)) as [->|Hne].
      * rewrite !lookup_insert_eq. by intros [= <-].
      * rewrite !lookup_insert_ne by done. apply (od_set _ _ Hb).
    + intros th' x Hi. destruct (decide (th' = th)) as [->|Hne]; [by rewrite lookup_insert_eq|].
      rewrite lookup_insert_ne by done. by apply (od_init _ _ Hb th' x).
    + apply (od_owner _ _ Hb).
Qed.

Lemma on_device_init th b b' :
  on_device g b → DoInitGpu cudaSetDevice_ok th b = Ok b' → on_device g b' ∧ current (gpu b') !! th = Some g.
Proof.
  intros Hb. unfold DoInitGpu. destruct (Z.eqb_spec (default (-1) (init_idx b !! th)) (-1)) as [_|Hx].
  - destruct (Z.leb_spec 0 (gpu_idx_ b)); [|done]. intros ([r b1] & E1 & [= <-])%bind_Ok.
    destruct (od_idx _ _ Hb) as [H1|H1]; [lia|]. rewrite H1 in E1. destruct (on_device_set _ _ _ _ Hb E1) as (Hb1 & Hs & Hi).
    split; [|by apply (od_set _ _ Hb1 th g)]. cbn. destruct Hb1. constructor; cbn; auto.
    intros th' y. destruct (decide (th' = th)) as [->|Hne]; [done|]. rewrite lookup_insert_ne by done. apply od_init0.
  - intros [= <-]. split; [done|]. destruct (init_idx b !! th) as [x|] eqn:E; [|done].
    by apply (od_set _ _ Hb th g), (od_init _ _ Hb th x).
Qed.

Lemma on_device_change f b :
  on_device g b → current (f (gpu b)) = current (gpu b) →
  (∀ p x, owner (f (gpu b)) !! p = Some x → x = g) → on_device g (b <| gpu ::= f |>).
Proof. intros [] Hc Ho. constructor; cbn; auto. by rewrite Hc. Qed.

(** Owners after an allocation and a release. *)
Lemma owner_insert th p d :
  (∀ q x, owner d !! q = Some x → x = g) → current d !! th = Some g →
  ∀ q x, <[p := cudaGetDevice th d]> (owner d) !! q = Some x → x = g.
Proof.
  intros Ho Hc q x. destruct (decide (q = p)) as [->|Hne].
  - rewrite lookup_insert_eq. unfold cudaGetDevice. rewrite Hc. by intros [= <-].
  - rewrite lookup_insert_ne by done. apply Ho.
Qed.

Lemma on_device_record th ev stream b r b' :
  on_device g b → gpu_RecordEvent cudaSetDevice_ok current_stream record_ok th ev stream b = Ok (r, b') → on_device g b'.
Proof.
  intros Hb. unfold gpu_RecordEvent. intros (b1 & Ei & E)%bind_Ok. destruct (on_device_init _ _ _ Hb Ei) as [Hb1 _].
  destruct (negb _); [|done]. destruct (_ =? 0).
  - unfold RecordCudaEvent in E. destruct (bool_decide _); [|done]. destruct (record_ok ev); injection E as _ <-; [|done].
    by apply on_device_change; [|done|apply (od_owner _ _ Hb1)].
  - unfold RecordMemEvent in E. destruct (bool_decide _); [|done]. destruct (record_ok _); [|done]. injection E as _ <-.
    by apply on_device_change; [|done|apply (od_owner _ _ Hb1)].
Qed.

Lemma on_device_sync th ev b r b' :
  on_device g b → gpu_SyncEvent cudaSetDevice_ok query_fails th ev b = Ok (r, b') → on_device g b'.
Proof.
  intros Hb. unfold gpu_SyncEvent. intros (b1 & Ei & E)%bind_Ok. destruct (on_device_init _ _ _ Hb Ei) as [Hb1 _].
  destruct (negb _); [|done]. destruct (_ =? 0).
  - unfold SyncCudaEvent in E. destruct (bool_decide _); [|done].
    destruct (query_fails _ _); [by injection E as _ <-|]. destruct (marker_pending _ _); [done|]. by injection E as _ <-.
  - unfold SyncMemEvent in E. apply bind_Ok in E as (fl & _ & E). destruct (fl =? 1); [done|]. by injection E as _ <-.
Qed.

Lemma on_device_events th b r b' :
  on_device g b →
  (gpu_CreateEvent cudaSetDevice_ok cudaMalloc th b = Ok (r, b') ∨
   ∃ ev, gpu_FreeEvent cudaSetDevice_ok th ev b = Ok (r, b')) → on_device g b'.
Proof.
  intros Hb [E|[ev E]]; apply bind_Ok in E as (b1 & Ei & E); destruct (on_device_init _ _ _ Hb Ei) as [Hb1 _].
  - destruct (_ =? 0); apply bind_Ok in E as (ev & _ & E); injection E as _ <-;
      by apply on_device_change; [|done|apply (od_owner _ _ Hb1)].
  - destruct (negb _); [|done].
    destruct (_ =? 0); [unfold FreeCudaEvent in E|unfold FreeMemEvent in E]; (destruct (bool_decide _); [|done]);
      injection E as _ <-; by apply on_device_change; [|done|apply (od_owner _ _ Hb1)].
Qed.

Lemma fmap_snd_Ok {A} (r : result (Z * A)) a : snd <$> r = Ok a → ∃ z, r = Ok (z, a).
Proof. destruct r as [[z x]|]; [|done]. intros [= <-]. by exists z. Qed.

Lemma on_device_call c b b' : only g c → on_device g b → do_call c b = Ok b' → on_device g b'.
Proof.
  intros Hc Hb. destruct c as [th dev|th|th size|th m|th|th ev|th ev st|th ev]; cbn [do_call only] in *;
    try (intros [z E]%fmap_snd_Ok; cbn in E).
  - subst dev. by eapply on_device_set.
  - unfold gpu_GetDeviceId in E. rewrite (od_get _ _ Hb), lookup_empty in E. cbn in E. by injection E as _ <-.
  - apply bind_Ok in E as (b1 & Ei & E). destruct (on_device_init _ _ _ Hb Ei) as [Hb1 Hc1].
    apply bind_Ok in E as (p & _ & E). injection E as _ <-. apply on_device_change; [done|done|].
    by apply owner_insert; [apply (od_owner _ _ Hb1)|].
  - intros E. cbn in E. unfold gpu_Free in E. destruct (negb _); [|done]. destruct (bool_decide _); [|done].
    injection E as <-. apply on_device_change; [done|done|]. cbn. intros p x [_ Hp]%lookup_delete_Some.
    by apply (od_owner _ _ Hb p).
  - eapply on_device_events; [done|by left].
  - eapply on_device_events; [done|right; by exists ev].
  - by eapply on_device_record.
  - by eapply on_device_sync.
Qed.

(** One GPU per process: when every call of [SetDevice] names the
    same GPU, all memory is allocated on it, by whichever threads, and
    [GetDeviceId] answers -1 in every state. *)
Theorem calls_stay_on_device e l b :
  Forall (only g) l → do_calls l (new_gpu e) = Ok b →
  (∀ p x, owner (gpu b) !! p = Some x → x = g) ∧ ∀ th, GetDeviceId th b = Ok (-1, b).
Proof.
  intros Hl E. assert (on_device g b) as Hb.
  { assert (on_device g (new_gpu e)) as H0 by (constructor; cbn; auto; intros ? ?; by rewrite lookup_empty).
    revert H0 E. generalize (new_gpu e). induction Hl as [|c l Hc Hl IH]; intros b0 H0 E; [by injection E as <-|].
    apply bind_Ok in E as (b1 & E1 & E). eapply (IH b1); [|done]. by eapply on_device_call. }
  split; [apply (od_owner _ _ Hb)|]. intros th. cbn. unfold gpu_GetDeviceId.
  by rewrite (od_get _ _ Hb), lookup_empty.
Qed.
End one_device.
End gpu.

(** ** An example *)
Definition demo_alloc (d : device) (_ : Z) : option Z := Some (64 + 16 * Z.of_nat (size (cpu_flags d))).
#[export] Instance demo_ops : Backend GpuBackend.t :=
  GpuBackend_ops (λ _, true) demo_alloc (λ _, 5) (λ _, true) (λ _ _, false).

(** Thread 1 on GPU 0, with an event and a kernel on stream 5. *)
Definition demo_start : result (TensorEvent.t * GpuBackend.t) :=
  x ← SetDevice 1 0 (new_gpu (env_of []));
  y ← new_event 1 x.2;
  Ok (y.1, y.2 <| gpu ::= issue 5 Kernel |>).
Definition demo_event : TensorEvent.t := match demo_start with Ok x => x.1 | Err _ => TensorEvent.mk false false 0 end.
Definition demo_gpu : GpuBackend.t := match demo_start with Ok x => x.2 | Err _ => new_gpu (env_of []) end.

Definition get_ok {A} (d : A) (r : result A) : A := match r with Ok a => a | Err _ => d end.
Definition demo_recorded : TensorEvent.t * GpuBackend.t := get_ok (demo_event, demo_gpu) (Record_ 1 0 demo_event demo_gpu).
Definition demo_acts : list act := [Launch 5; Launch 6; Complete 0; Complete 3; Complete 1].
Definition demo_later : GpuBackend.t :=
  default demo_gpu (acts (λ _, true) demo_alloc (λ _, 5) (λ _, true) (λ _ _, false) demo_recorded.2 demo_acts).
Definition demo_synced : TensorEvent.t * GpuBackend.t :=
  get_ok (demo_event, demo_gpu) (Sync 2 demo_recorded.1 demo_later).

Lemma event_waits_for_stream_witness :
  ∃ r, SyncEvent 2 (ev_ demo_event) demo_later = Ok (r, demo_synced.2) ∧
  (r = BACKEND_OK → ∀ o, o ∈ [mkOp 0 5 Kernel] → op_stream o = 5 → o ∉ pending (gpu demo_synced.2)) ∧
  (r ≠ BACKEND_OK → mem_sync_ demo_gpu = 0 ∧ false = true) ∧
  settled (ev_ demo_synced.1) demo_synced.2 ∧ ev_ demo_synced.1 = ev_ demo_event ∧ is_recorded_ demo_synced.1 = false.
Proof.
  apply (event_waits_for_stream (λ _, true) demo_alloc (λ _, 5) (λ _, true) (λ _ _, false) 1 2 0 demo_event demo_recorded.1
           demo_synced.1 demo_gpu demo_recorded.2 demo_later demo_synced.2 demo_acts).
  - split.
    + intros o [= ->]%list_elem_of_singleton. vm_compute. reflexivity.
    + intros o o' [= ->]%list_elem_of_singleton [= ->]%list_elem_of_singleton _. reflexivity.
  - right. split; [vm_compute; reflexivity|]. intros o [= ->]%list_elem_of_singleton. discriminate.
  - vm_compute. reflexivity.
  - vm_compute. reflexivity.
  - repeat constructor.
  - vm_compute. reflexivity.
  - vm_compute. reflexivity.
Defined.

(** An event that is recorded again while its flag is still to be
    copied: the copy of the first recording lets [Sync] return while the work
    before the second one is pending. *)
Definition demo_twice : result (list op) :=
  x ← Record_ 1 0 demo_event demo_gpu;
  let b := x.2 <| gpu ::= issue 5 Kernel |> in
  y ← Record_ 1 0 x.1 b;
  b ← from_option_or (Blocked "device")
        (acts (λ _, true) demo_alloc (λ _, 5) (λ _, true) (λ _ _, false) y.2 [Complete 0; Complete 1]);
  z ← Sync 1 y.1 b;
  Ok (pending (gpu z.2)).

Theorem recorded_twice_returns_early : demo_twice = Ok [mkOp 2 5 Kernel; mkOp 3 5 (CopyFlag (ev_ demo_event))].
Proof. vm_compute. reflexivity. Qed.

(** An error of earlier work ends the wait: with CUDA events, when
    [cudaEventQuery] returns an error, [Sync] returns as after success, with the
    work before the recording pending. *)
Definition failing_ops : Backend GpuBackend.t :=
  GpuBackend_ops (λ _, true) demo_alloc (λ _, 5) (λ _, true) (λ _ _, true).
Definition demo_failed : result (bool * list op) :=
  x ← @SetDevice _ failing_ops 1 0 (new_gpu (env_of [("STEPMESH_MEM_SYNC", "0")]));
  y ← @new_event _ failing_ops 1 x.2;
  z ← @Record_ _ failing_ops 1 0 y.1 (y.2 <| gpu ::= issue 5 Kernel |>);
  w ← @Sync _ failing_ops 1 z.1 z.2;
  Ok (is_recorded_ w.1, pending (gpu w.2)).

Theorem failed_query_returns_early : ∃ ev, demo_failed = Ok (false, [mkOp 0 5 Kernel; mkOp 1 5 (Marker ev)]).
Proof. eexists. vm_compute. reflexivity. Qed.

Lemma calls_stay_on_device_witness :
  let l := [CallSetDevice 1 3; CallAlloc 1 100; CallCreateEvent 2; CallRecordEvent 2 64 0; CallSetDevice 4 3; CallAlloc 4 10] in
  ∃ b, do_calls (λ _, true) demo_alloc (λ _, 5) (λ _, true) (λ _ _, false) l (new_gpu (env_of [])) = Ok b ∧
    (∀ p x, owner (gpu b) !! p = Some x → x = 3) ∧ ∀ th, GetDeviceId th b = Ok (-1, b).
Proof.
  eexists. split; [vm_compute; reflexivity|].
  apply (calls_stay_on_device (λ _, true) demo_alloc (λ _, 5) (λ _, true) (λ _ _, false) 3 ltac:(lia) eq_refl (env_of [])
    [CallSetDevice 1 3; CallAlloc 1 100; CallCreateEvent 2; CallRecordEvent 2 64 0; CallSetDevice 4 3; CallAlloc 4 10]).
  - repeat constructor.
  - vm_compute. reflexivity.
Defined.
