(* ===== verification/NetUtils.v ===== *)
(** * Network interfaces of a machine (src/network_utils.h, src/network_utils.cc)

    How a node finds its address: the first interface that is not the loopback,
    or the adapter that is nearest to the GPU, and the ports it binds.  What the
    operating system, the verbs library and the CUDA runtime answer is data: the
    list of [getifaddrs], the devices with their ports and GID tables, the
    links under /sys.  The code is that for Linux with DMLC_USE_CUDA and
    DMLC_USE_RDMA. *)

From S2P Require Import Prelude.
From Stdlib Require Import Strings.Ascii.

(** ** Addresses *)

(** Four bytes as [inet_ntop] and [inet_ntoa] write them. *)
Definition dotted (a b c d : Z) : string :=
  pretty a +:+ "." +:+ pretty b +:+ "." +:+ pretty c +:+ "." +:+ pretty d.

Inductive sockaddr : Type :=
| AF_INET (a b c d : Z)
| OtherFamily.
Record ifaddrs : Type := mkIfaddrs { ifa_name : string; ifa_loopback : bool; ifa_addr : option sockaddr }.

Definition ipv4 (i : ifaddrs) : option string :=
  match ifa_addr i with Some (AF_INET a b c d) => Some (dotted a b c d) | _ => None end.

(** [GetIP]: the first interface whose name begins with the given one; [ip]
    stays as it is when there is none. *)
Fixpoint GetIP (interface : string) (l : list ifaddrs) (ip : string) : string :=
  match l with
  | [] => ip
  | i :: l' =>
      match ipv4 i with
      | Some a => if String.prefix interface (ifa_name i) then a else GetIP interface l' ip
      | None => GetIP interface l' ip
      end
  end.

(** [GetAvailableInterfaceAndIP]: interface and address, empty if there is none. *)
Fixpoint GetAvailableInterfaceAndIP (l : list ifaddrs) : string * string :=
  match l with
  | [] => ("", "")
  | i :: l' =>
      match ipv4 i with
      | Some a => if negb (ifa_loopback i) then (ifa_name i, a) else GetAvailableInterfaceAndIP l'
      | None => GetAvailableInterfaceAndIP l'
      end
  end.

(** ** [GetAvailablePort]

    [bind_any held] is the port of a new socket bound to port 0 when the ports
    [held] are in use by this process, [None] if [bind] or [getsockname] fails.
    The result has the ports of the sockets that stay open. *)
Section ports.
Context (bind_any : list Z → option Z).

Fixpoint bind_sockets (n : nat) (i : nat) (ports held : list Z) : result (option (list Z) * list Z) :=
  match n with
  | O => Ok (Some ports, held)
  | S n' =>
      match bind_any held with
      | None => Ok (None, held)
      | Some p =>
          check! (i <? length ports)%nat or "ports->at(i)";
          bind_sockets n' (S i) (<[i := p]> ports) (held ++ [p])
      end
  end.

Definition GetAvailablePort (num_ports : Z) (ports : list Z) : result (Z * list Z * list Z) :=
  x ← bind_sockets (Z.to_nat num_ports) 0 ports [];
  match x with
  | (Some ports', _) => Ok (Z.max 0 num_ports, ports', [])
  | (None, held) => Ok (0, held ++ drop (length held) ports, held)
  end.
End ports.

(** ** Adapters *)
Inductive link_layer : Type := INFINIBAND | ETHERNET | UNSPECIFIED.
Record ibv_port : Type := mkPort {
  query_port_ok : bool; port_active : bool; port_link : link_layer;
  gid_table : list (list Z)               (* 16 bytes each; an entry that cannot be read is zero *)
}.
Record ibv_device : Type := mkDevice {
  dev_name : string; open_ok : bool; query_ok : bool; close_ok : bool; phys_ports : list ibv_port
}.

Module NetDev.
Record t : Type := mk {
  dev_name_ : string; port_ : Z; pci_path_ : option string; gid_tbl : list (list Z);
  gid_idx_ : Z; gid_ : list Z
}.
End NetDev.
Import NetDev.

Section netdev.
(** [realpath] *)
Context (realpath : string → option string).
Implicit Type dev : NetDev.t.

Definition read_pci_path (name : string) : option string :=
  realpath ("/sys/class/infiniband/" +:+ name +:+ "/device").

(** An IPv4 address inside an IPv6 one: bytes 10 and 11 are 0xFF. *)
Definition is_ipv4_gid (g : list Z) : bool := (nth 10 g 0 =? 255) && (nth 11 g 0 =? 255).

(** The loop over the GID table, from index [i]: the last match wins. *)
Fixpoint scan_gids (i : Z) (gids : list (list Z)) (best : Z * list Z) : Z * list Z :=
  match gids with
  | [] => best
  | g :: gids' => scan_gids (i + 1) gids' (if is_ipv4_gid g then (i, g) else best)
  end.

Definition get_best_gid_index dev : Z * NetDev.t :=
  if 0 <? gid_idx_ dev then (gid_idx_ dev, dev)
  else
    let '(i, g) := scan_gids 1 (drop 1 (gid_tbl dev)) (-1, gid_ dev) in
    (i, if 0 <? i then dev <| gid_idx_ := i |> <| gid_ := g |> else dev).

(** [get_best_gid]: return code, index and GID. *)
Definition get_best_gid (gid : list Z) (gid_idx : Z) dev : Z * Z * list Z * NetDev.t :=
  if 0 <? gid_idx_ dev then (0, gid_idx_ dev, gid_ dev, dev)
  else
    let '(i, g) := scan_gids 1 (drop 1 (gid_tbl dev)) (gid_idx, gid) in
    let found := existsb is_ipv4_gid (drop 1 (gid_tbl dev)) in
    (if i =? -1 then -1 else 0, i, g, if found then dev <| gid_idx_ := i |> <| gid_ := g |> else dev).

(** The constructor. *)
Definition new_dev (name : string) (port : Z) (p : ibv_port) : NetDev.t :=
  snd (get_best_gid_index (NetDev.mk name port (read_pci_path name) (gid_table p) (-1) [])).

Definition get_ip dev : string :=
  dotted (nth 12 (gid_ dev) 0) (nth 13 (gid_ dev) 0) (nth 14 (gid_ dev) 0) (nth 15 (gid_ dev) 0).

(** [get_interface_name]: the first IPv4 interface with the device's address. *)
Definition get_interface_name (l : list ifaddrs) dev : string :=
  match List.find (λ i, bool_decide (ipv4 i = Some (get_ip dev))) l with
  | Some i => ifa_name i
  | None => ""
  end.

(** ** [GetInterfaceAndIPByCurrentGpu] *)

(** The context that is open and belongs to no [NetDev], the devices found and
    the largest GID index. *)
Record scan : Type := mkScan { context : option ibv_device; devs : list NetDev.t; maxGidIdx : Z }.

Definition usable_port (p : ibv_port) : bool :=
  query_port_ok p && port_active p && match port_link p with UNSPECIFIED => false | _ => true end.

(** The body of the loop over the ports of a device. *)
Definition scan_port (name : string) (port : Z) (p : ibv_port) (s : scan) : result scan :=
  match context s with
  | None => Err (Undefined "ibv_query_port(nullptr)")
  | Some _ =>
      if usable_port p then
        let '(idx, dev) := get_best_gid_index (new_dev name port p) in
        Ok (if 0 <? idx then mkScan None (devs s ++ [dev]) (Z.max (maxGidIdx s) idx) else s)
      else Ok s
  end.
Fixpoint scan_ports (name : string) (port : Z) (l : list ibv_port) (s : scan) : result scan :=
  match l with
  | [] => Ok s
  | p :: l' => s ← scan_port name port p s; scan_ports name (port + 1) l' s
  end.

(** The loop over the devices; [None] is its early return. *)
Fixpoint scan_devices (l : list ibv_device) (s : scan) : result (option scan) :=
  match l with
  | [] => Ok (Some s)
  | d :: l' =>
      if match context s with Some c => negb (close_ok c) | None => false end then Ok None
      else if negb (open_ok d) then scan_devices l' (mkScan None (devs s) (maxGidIdx s))
      else
        let s := mkScan (Some d) (devs s) (maxGidIdx s) in
        if negb (query_ok d) then scan_devices l' s
        else s ← scan_ports (dev_name d) 1 (phys_ports d) s; scan_devices l' s
  end.

(** Characters two paths have in common at their beginning. *)
Fixpoint prefix_len (fuel : nat) (a b : string) : Z :=
  match fuel, a, b with
  | S f, String x a', String y b' => if Ascii.eqb x y then 1 + prefix_len f a' b' else 0
  | _, _, _ => 0
  end.

(** The loop over the devices found: index and length of the best so far. *)
Fixpoint choose (path : string) (max_gid : Z) (i : Z) (l : list NetDev.t) (best : Z * Z) : Z * Z :=
  match l with
  | [] => best
  | dev :: l' =>
      choose path max_gid (i + 1) l'
        (if (get_best_gid_index dev).1 <? max_gid then best
         else match pci_path_ dev with
              | None => best
              | Some q => let n := prefix_len 512 path q in if best.2 <=? n then (i, n) else best
              end)
  end.

Definition tolower (c : ascii) : ascii :=
  let n := nat_of_ascii c in
  if (65 <=? n)%nat && (n <=? 90)%nat then ascii_of_nat (n + 32) else c.
Definition lower (s : string) : string :=
  String.string_of_list_ascii (map tolower (String.list_ascii_of_string s)).

Definition gpu_path (busId : string) : string :=
  "/sys/class/pci_bus/" +:+ String.substring 0 7 busId +:+ "/device/" +:+ busId +:+ "/device".

(** Return code, interface and address; [gpu] is what [cudaGetDevice] gives and
    [bus_id] the answer of [cudaDeviceGetPCIBusId]. *)
Definition GetInterfaceAndIPByCurrentGpu (gpu : Z) (bus_id : option string) (devices : list ibv_device)
    (ifs : list ifaddrs) : result (Z * string * string) :=
  if gpu =? -1 then Ok (0, "", "")
  else
    bus ← from_option_or (CheckFailed "cudaDeviceGetPCIBusId failed") bus_id;
    match realpath (gpu_path (lower bus)) with
    | None => Ok (0, "", "")
    | Some path =>
        if (length devices =? 0)%nat then Ok (0, "", "")
        else
          o ← scan_devices devices (mkScan None [] (-1));
          match o with
          | None => Ok (0, "", "")
          | Some s =>
              let '(idx, _) := choose path (maxGidIdx s) 0 (devs s) (-1, 0) in
              if idx =? -1 then Ok (0, "", "")
              else
                dev ← from_option_or (Undefined "devs[maxPrefixIdx]") (devs s !! Z.to_nat idx);
                Ok (1, get_interface_name ifs dev, get_ip dev)
          end
    end.
End netdev.
