(* ===== verification/Postoffice.v ===== *)
(** * Postoffice (include/ps/internal/postoffice.h, src/postoffice.cc)

    The centre of a process: it knows how many workers and servers there are,
    numbers them, keeps the groups a message or a barrier can name, the
    customers of this process, the barrier flags and the heartbeats. *)

From S2P Require Import Prelude Message Env.

(** ** Ranges (include/ps/range.h) *)
Record Range : Type := mkRange { begin : Z; end_ : Z }.
Definition range_size (r : Range) : Z := u64 (end_ r - begin r).

#[export] Instance range_eq_dec : EqDecision Range.
Proof. solve_decision. Defined.

(** ** Ranks and node ids *)
Definition WorkerRankToID (rank : Z) : Z := i32 (rank * 2 + 9).
Definition ServerRankToID (rank : Z) : Z := i32 (rank * 2 + 8).
Definition IDtoRank (id : Z) : Z := Z.max (Z.quot (i32 (id - 8)) 2) 0.

Definition GroupWorkerRankToInstanceID (group_size_ rank instance_idx : Z) : Z :=
  WorkerRankToID (i32 (rank * group_size_ + instance_idx)).
Definition GroupServerRankToInstanceID (group_size_ rank instance_idx : Z) : Z :=
  ServerRankToID (i32 (rank * group_size_ + instance_idx)).
Definition InstanceIDtoGroupRank (group_size_ id : Z) : Z :=
  Z.quot (IDtoRank id) group_size_.

(** ** The object *)
Module Postoffice.
Record t : Type := mk {
  customers_ : gmap Z (gmap Z Z);       (* app id -> customer id -> pointer *)
  node_ids_ : gmap Z (list Z);
  server_key_ranges_ : list Range;
  is_worker_ : bool;
  is_server_ : bool;
  is_scheduler_ : bool;
  num_servers_ : Z;
  num_workers_ : Z;
  group_size_ : Z;
  preferred_rank_ : Z;
  barrier_done_ : gmap Z (gmap Z bool);
  verbose_ : Z;
  init_stage_ : Z;
  instance_idx_ : Z;
  heartbeats_ : gmap Z Z;
  start_time_ : Z;
  started_ : bool
}.

(** [Postoffice(int instance_idx)]: the fields the constructor does not write
    are given a value by [Start] before they are read. *)
Definition new (instance_idx : Z) : t :=
  {| customers_ := ∅; node_ids_ := ∅; server_key_ranges_ := [];
     is_worker_ := false; is_server_ := false; is_scheduler_ := false;
     num_servers_ := 0; num_workers_ := 0; group_size_ := 0;
     preferred_rank_ := 0; barrier_done_ := ∅; verbose_ := 0;
     init_stage_ := 0; instance_idx_ := instance_idx; heartbeats_ := ∅;
     start_time_ := 0; started_ := false |}.
End Postoffice.
Import Postoffice.

Definition num_worker_instances (po : t) : Z := i32 (num_workers_ po * group_size_ po).
Definition num_server_instances (po : t) : Z := i32 (num_servers_ po * group_size_ po).

(** ** The instances of a process: [Postoffice::Init] and the accessors *)
Record statics : Type := mkStatics {
  po_scheduler_ : option t;
  po_worker_group_ : list t;
  po_server_group_ : list t;
  initialized_ : bool
}.
Definition statics0 : statics := mkStatics None [] [] false.

Definition Init (e : Environment) (role : Node.Role) (s : statics) : result statics :=
  if initialized_ s then Ok s
  else
    let group_size := fst (find_int e "DMLC_GROUP_SIZE" 1) in
    check! (1 <=? group_size) or "group_size >= 1";
    let group := map new (seqZ 0 group_size) in
    let sched := if bool_decide (role = Node.SCHEDULER) then Some (new 0)
                 else po_scheduler_ s in
    let workers := if bool_decide (role = Node.WORKER ∨ role = Node.JOINT)
                   then po_worker_group_ s ++ group else po_worker_group_ s in
    let servers := if bool_decide (role = Node.SERVER ∨ role = Node.JOINT)
                   then po_server_group_ s ++ group else po_server_group_ s in
    Ok (mkStatics sched workers servers true).

(** [std::vector::at]: out of range throws, which ends the process. *)
Definition vec_at {A} (l : list A) (i : Z) : result A :=
  if 0 <=? i then from_option_or (CheckFailed "vector::at") (l !! Z.to_nat i)
  else Err (CheckFailed "vector::at").

Definition Get (s : statics) : result t :=
  check! initialized_ s or "Please call ps::StartPS() first";
  match po_scheduler_ s with
  | Some p => Ok p
  | None =>
      if bool_decide (po_server_group_ s ≠ []) then vec_at (po_server_group_ s) 0
      else vec_at (po_worker_group_ s) 0
  end.

Definition GetServer (s : statics) (index : Z) : result t :=
  check! initialized_ s or "Please call ps::StartPS() first";
  match po_scheduler_ s with
  | Some p => Ok p
  | None => vec_at (po_server_group_ s) index
  end.

Definition GetWorker (s : statics) (index : Z) : result t :=
  check! initialized_ s or "Please call ps::StartPS() first";
  vec_at (po_worker_group_ s) index.

(** ** Node groups, filled in by [Start] *)
Definition push_id (id : Z) (m : gmap Z (list Z)) (g : Z) : gmap Z (list Z) :=
  <[g := default [] (m !! g) ++ [id]]> m.

Definition worker_groups (id : Z) : list Z :=
  [id; kWorkerGroup; kWorkerGroup + kServerGroup; kWorkerGroup + kScheduler;
   kWorkerGroup + kServerGroup + kScheduler].
Definition server_groups (id : Z) : list Z :=
  [id; kServerGroup; kWorkerGroup + kServerGroup; kServerGroup + kScheduler;
   kWorkerGroup + kServerGroup + kScheduler].
Definition scheduler_groups : list Z :=
  [kScheduler; kScheduler + kServerGroup + kWorkerGroup;
   kScheduler + kWorkerGroup; kScheduler + kServerGroup].

Definition add_instances (to_id : Z → Z) (groups : Z → list Z) (n : Z)
    (m : gmap Z (list Z)) : gmap Z (list Z) :=
  foldl (λ m i, foldl (push_id (to_id i)) m (groups (to_id i))) m (seqZ 0 n).

(** The three loops of [Start] over the instances of every role. *)
Definition init_node_ids (po : t) : gmap Z (list Z) :=
  let m1 := add_instances WorkerRankToID worker_groups (num_worker_instances po)
              (node_ids_ po) in
  let m2 := add_instances ServerRankToID server_groups (num_server_instances po) m1 in
  foldl (push_id kScheduler) m2 scheduler_groups.

Definition GetNodeIDs (po : t) (node_id : Z) : result (list Z) :=
  from_option_or (CheckFailed "node doesn't exist") (node_ids_ po !! node_id).

(** ** Customers *)
Definition AddCustomer (app_id customer_id ptr : Z) (po : t) : result t :=
  let in_app := default ∅ (customers_ po !! app_id) in
  check! bool_decide (in_app !! customer_id = None) or "customer_id already exists";
  let done_app := default ∅ (barrier_done_ po !! app_id) in
  (* [unordered_map::insert] keeps an entry that is already there *)
  let done_app := match done_app !! customer_id with
                  | Some _ => done_app
                  | None => <[customer_id := false]> done_app
                  end in
  Ok (po <| customers_ ::= (λ m, <[app_id := <[customer_id := ptr]> in_app]> m) |>
         <| barrier_done_ ::= (λ m, <[app_id := done_app]> m) |>).

Definition RemoveCustomer (app_id customer_id : Z) (po : t) : t :=
  let in_app := delete customer_id (default ∅ (customers_ po !! app_id)) in
  po <| customers_ ::= (λ m, if bool_decide (in_app = ∅) then delete app_id m
                             else <[app_id := in_app]> m) |>.

(** [GetCustomer]: poll the customers once a millisecond, [timeout * 1000 + 1]
    times at most; [polls] are the values the map has when it is read.  The
    first poll that finds the application ends the loop, with the null pointer
    when the customer itself is not there. *)
Fixpoint poll_customers (polls : list (gmap Z (gmap Z Z))) (app_id customer_id : Z)
    : option Z :=
  match polls with
  | [] => None
  | m :: rest =>
      match m !! app_id with
      | Some customers_in_app => customers_in_app !! customer_id
      | None => poll_customers rest app_id customer_id
      end
  end.

Definition GetCustomer (polls : list (gmap Z (gmap Z Z)))
    (app_id customer_id timeout : Z) : option Z :=
  poll_customers (take (Z.to_nat (timeout * 1000 + 1)) polls) app_id customer_id.

(** ** Key ranges of the servers *)
Definition server_range (num_servers i : Z) : Range :=
  mkRange (u64 (kMaxKey / num_servers * i)) (u64 (kMaxKey / num_servers * (i + 1))).

Definition GetServerKeyRanges (po : t) : t * list Range :=
  let po := if bool_decide (server_key_ranges_ po = [])
            then po <| server_key_ranges_ :=
                         map (server_range (num_servers_ po)) (seqZ 0 (num_servers_ po)) |>
            else po in
  (po, server_key_ranges_ po).

(** ** Barriers and heartbeats *)

(** [Manage]: the answer to a barrier raises the flags [0 .. size - 1] of the
    application, [size] being the number of flags it has. *)
Definition Manage (meta : Meta.t) (po : t) : result t :=
  check! negb (Control.empty (Meta.control meta)) or "control message expected";
  let cmd := Control.cmd (Meta.control meta) in
  let is_barrier := bool_decide (cmd = Control.BARRIER ∨ cmd = Control.INSTANCE_BARRIER) in
  if is_barrier && negb (Meta.request meta) then
    let app := Meta.app_id meta in
    let flags := default ∅ (barrier_done_ po !! app) in
    let flags' := foldl (λ m c, <[c := true]> m) flags (seqZ 0 (Z.of_nat (size flags))) in
    Ok (po <| barrier_done_ ::= (λ m, <[app := flags']> m) |>)
  else Ok po.

Definition UpdateHeartbeat (node_id t : Z) (po : Postoffice.t) : Postoffice.t :=
  po <| heartbeats_ ::= (λ m, <[node_id := t]> m) |>.

(** [GetDeadNodes]: [van_ready] is [van_->IsReady()], [curr_time] the clock. *)
Definition is_dead (po : t) (t curr_time r : Z) : bool :=
  (match heartbeats_ po !! r with
   | None => true
   | Some h => (h + t <? curr_time)
   end) && (start_time_ po + t <? curr_time).

Definition GetDeadNodes (po : t) (t : Z) (van_ready : bool) (curr_time : Z)
    : result (list Z) :=
  if negb van_ready || (t =? 0) then Ok []
  else
    nodes ← (if is_scheduler_ po then GetNodeIDs po (kWorkerGroup + kServerGroup)
             else GetNodeIDs po kScheduler);
    Ok (List.filter (is_dead po t curr_time) nodes).

(** ** Ranks and ids: lemmas *)

(** Ranks for which every id computation stays inside [int]. *)
Definition rank_ok (r : Z) : Prop := 0 ≤ r < 2 ^ 30 - 8.

#[export] Instance rank_ok_dec r : Decision (rank_ok r).
Proof. unfold rank_ok. apply _. Defined.

Ltac ids :=
  unfold rank_ok, GroupWorkerRankToInstanceID, GroupServerRankToInstanceID,
    WorkerRankToID, ServerRankToID, IDtoRank in *;
  rewrite ?swrap_small by word_lia.

Lemma WorkerRankToID_eq r : rank_ok r → WorkerRankToID r = r * 2 + 9.
Proof. intros. ids. done. Qed.
Lemma ServerRankToID_eq r : rank_ok r → ServerRankToID r = r * 2 + 8.
Proof. intros. ids. done. Qed.

Lemma IDtoRank_eq id : 8 ≤ id < 2 ^ 31 → IDtoRank id = (id - 8) / 2.
Proof.
  intros. unfold IDtoRank. rewrite swrap_small by word_lia.
  rewrite Z.quot_div_nonneg by lia. apply Z.max_l, Z.div_pos; lia.
Qed.

Lemma IDtoRank_worker r : rank_ok r → IDtoRank (WorkerRankToID r) = r.
Proof.
  intros Hr. rewrite WorkerRankToID_eq by done. unfold rank_ok in Hr.
  rewrite IDtoRank_eq by lia. replace (r * 2 + 9 - 8) with (1 + r * 2) by lia.
  rewrite Z.div_add by lia. reflexivity.
Qed.

Lemma IDtoRank_server r : rank_ok r → IDtoRank (ServerRankToID r) = r.
Proof.
  intros Hr. rewrite ServerRankToID_eq by done. unfold rank_ok in Hr.
  rewrite IDtoRank_eq by lia. replace (r * 2 + 8 - 8) with (r * 2) by lia.
  by rewrite Z.div_mul.
Qed.

Lemma group_rank_div gs rank idx :
  0 ≤ idx < gs → Z.quot (rank * gs + idx) gs = rank ∨ rank * gs + idx < 0.
Proof.
  intros. destruct (decide (0 ≤ rank * gs + idx)); [left|right; lia].
  rewrite Z.quot_div_nonneg by lia.
  rewrite Z.div_add_l by lia. rewrite Z.div_small by lia. lia.
Qed.

(** ** Node groups: lemmas *)
Definition members (m : gmap Z (list Z)) (g : Z) : list Z := default [] (m !! g).

Lemma members_push id m g g' :
  members (push_id id m g) g' = members m g' ++ (if decide (g = g') then [id] else []).
Proof.
  unfold members, push_id. destruct (decide (g = g')) as [->|].
  - by rewrite lookup_insert_eq.
  - rewrite lookup_insert_ne by done. by rewrite app_nil_r.
Qed.

Lemma members_pushes id gs m g :
  NoDup gs →
  members (foldl (push_id id) m gs) g =
  members m g ++ (if decide (g ∈ gs) then [id] else []).
Proof.
  intros Hnd. revert m. induction Hnd as [|g' gs Hni Hnd IH]; intros m; cbn [foldl].
  - rewrite decide_False by (by intros ?%elem_of_nil). by rewrite app_nil_r.
  - rewrite IH, members_push. destruct (decide (g' = g)) as [->|Hne].
    + rewrite (decide_False (P := g ∈ gs)) by done.
      rewrite decide_True by left. by rewrite app_nil_r.
    + rewrite app_nil_r. destruct (decide (g ∈ gs)).
      * by rewrite decide_True by (by right).
      * rewrite decide_False by (rewrite elem_of_cons; naive_solver).
        by rewrite app_nil_r.
Qed.

Lemma add_instances_members to_id groups n m g :
  (∀ i, 0 ≤ i < n → NoDup (groups (to_id i))) →
  members (add_instances to_id groups n m) g =
  members m g ++
  List.filter (λ id, bool_decide (g ∈ groups id)) (map to_id (seqZ 0 n)).
Proof.
  intros Hnd. unfold add_instances.
  assert (∀ l m, (∀ i, i ∈ l → NoDup (groups (to_id i))) →
    members (foldl (λ m i, foldl (push_id (to_id i)) m (groups (to_id i))) m l) g =
    members m g ++ List.filter (λ id, bool_decide (g ∈ groups id)) (map to_id l)) as Hl.
  { clear. induction l as [|i l IH]; intros m Hnd; simpl.
    { by rewrite app_nil_r. }
    rewrite IH by (intros; apply Hnd; by right).
    rewrite members_pushes by (apply Hnd; by left).
    rewrite <- app_assoc. f_equal.
    destruct (decide (g ∈ groups (to_id i))).
    - by rewrite bool_decide_eq_true_2.
    - by rewrite bool_decide_eq_false_2. }
  apply Hl. intros i Hi%elem_of_seqZ. apply Hnd. lia.
Qed.

Lemma filter_all {A} (f : A → bool) l : (∀ x, x ∈ l → f x = true) → List.filter f l = l.
Proof.
  induction l as [|x l IH]; intros H; simpl; [done|].
  rewrite (H x) by left. f_equal. apply IH. intros; apply H; by right.
Qed.

Lemma filter_none {A} (f : A → bool) l : (∀ x, x ∈ l → f x = false) → List.filter f l = [].
Proof.
  induction l as [|x l IH]; intros H; simpl; [done|].
  rewrite (H x) by left. apply IH. intros; apply H; by right.
Qed.

Lemma filter_ext_elem {A} (f g : A → bool) l :
  (∀ x, x ∈ l → f x = g x) → List.filter f l = List.filter g l.
Proof.
  induction l as [|x l IH]; intros H; simpl; [done|].
  rewrite (H x) by left. rewrite IH; [done|]. intros; apply H; by right.
Qed.

Lemma filter_single (l : list Z) x :
  NoDup l →
  List.filter (λ y, bool_decide (x = y)) l = if bool_decide (x ∈ l) then [x] else [].
Proof.
  induction 1 as [|y l Hy Hnd IH]; simpl; [done|]. rewrite IH.
  repeat case_bool_decide; set_solver.
Qed.

Lemma seq_ids_NoDup (f : Z → Z) n :
  (∀ i j, 0 ≤ i < n → 0 ≤ j < n → f i = f j → i = j) → NoDup (map f (seqZ 0 n)).
Proof.
  intros Hinj. apply (NoDup_fmap_2_strong f); [|apply NoDup_seqZ].
  intros i j Hi%elem_of_seqZ Hj%elem_of_seqZ. apply Hinj; lia.
Qed.

Lemma seq_ids_elem (f : Z → Z) n x :
  x ∈ map f (seqZ 0 n) ↔ ∃ i, x = f i ∧ 0 ≤ i < n.
Proof.
  rewrite (list_elem_of_fmap f). setoid_rewrite elem_of_seqZ.
  split; intros (i & ? & ?); exists i; split; done || lia.
Qed.

(** The cluster a postoffice describes is numbered without overflow. *)
Definition cluster_ok (po : t) : Prop :=
  0 ≤ num_workers_ po ∧ 0 ≤ num_servers_ po ∧ 1 ≤ group_size_ po ∧
  num_workers_ po * group_size_ po ≤ 2 ^ 30 - 8 ∧
  num_servers_ po * group_size_ po ≤ 2 ^ 30 - 8.

#[export] Instance cluster_ok_dec po : Decision (cluster_ok po).
Proof. unfold cluster_ok. apply _. Defined.

Definition worker_ids (po : t) : list Z :=
  map WorkerRankToID (seqZ 0 (num_workers_ po * group_size_ po)).
Definition server_ids (po : t) : list Z :=
  map ServerRankToID (seqZ 0 (num_servers_ po * group_size_ po)).

Lemma num_worker_instances_eq po :
  cluster_ok po → num_worker_instances po = num_workers_ po * group_size_ po.
Proof. unfold cluster_ok, num_worker_instances. intros. apply swrap_small; [lia|]. word_lia. Qed.
Lemma num_server_instances_eq po :
  cluster_ok po → num_server_instances po = num_servers_ po * group_size_ po.
Proof. unfold cluster_ok, num_server_instances. intros. apply swrap_small; [lia|]. word_lia. Qed.

Lemma worker_ids_elem po x :
  cluster_ok po →
  x ∈ worker_ids po ↔ ∃ i, x = i * 2 + 9 ∧ 0 ≤ i < num_workers_ po * group_size_ po.
Proof.
  intros Hc. unfold worker_ids. rewrite seq_ids_elem. unfold cluster_ok in Hc.
  split; intros (i & -> & ?); exists i; rewrite WorkerRankToID_eq by (unfold rank_ok; lia); done.
Qed.
Lemma server_ids_elem po x :
  cluster_ok po →
  x ∈ server_ids po ↔ ∃ i, x = i * 2 + 8 ∧ 0 ≤ i < num_servers_ po * group_size_ po.
Proof.
  intros Hc. unfold server_ids. rewrite seq_ids_elem. unfold cluster_ok in Hc.
  split; intros (i & -> & ?); exists i; rewrite ServerRankToID_eq by (unfold rank_ok; lia); done.
Qed.

Lemma worker_ids_NoDup po : cluster_ok po → NoDup (worker_ids po).
Proof.
  unfold cluster_ok. intros. apply seq_ids_NoDup. intros i j ??.
  rewrite !WorkerRankToID_eq by (unfold rank_ok; lia). lia.
Qed.
Lemma server_ids_NoDup po : cluster_ok po → NoDup (server_ids po).
Proof.
  unfold cluster_ok. intros. apply seq_ids_NoDup. intros i j ??.
  rewrite !ServerRankToID_eq by (unfold rank_ok; lia). lia.
Qed.

Lemma roles_disjoint po x :
  cluster_ok po → x ∈ worker_ids po → (x ∉ server_ids po) ∧ x ≠ kScheduler.
Proof.
  intros Hc [i [-> ?]]%worker_ids_elem; [|done]. rewrite server_ids_elem by done.
  unfold kScheduler. split; [intros (? & ? & ?)|]; lia.
Qed.
Lemma scheduler_not_server po : cluster_ok po → kScheduler ∉ server_ids po.
Proof.
  intros. rewrite server_ids_elem by done. unfold kScheduler. intros (? & ? & ?). lia.
Qed.

(** The groups of an instance that are instance ids: itself. *)
Ltac single_group :=
  apply bool_decide_ext;
  unfold worker_groups, server_groups, kScheduler, kServerGroup, kWorkerGroup;
  rewrite !elem_of_cons, elem_of_nil; lia.

Lemma worker_groups_NoDup id : 8 ≤ id → NoDup (worker_groups id).
Proof.
  intros. unfold worker_groups, kWorkerGroup, kServerGroup, kScheduler.
  repeat (apply NoDup_cons; split; [rewrite ?elem_of_cons, elem_of_nil; lia|]).
  apply NoDup_nil_2.
Qed.
Lemma server_groups_NoDup id : 8 ≤ id → NoDup (server_groups id).
Proof.
  intros. unfold server_groups, kWorkerGroup, kServerGroup, kScheduler.
  repeat (apply NoDup_cons; split; [rewrite ?elem_of_cons, elem_of_nil; lia|]).
  apply NoDup_nil_2.
Qed.

(** What the three loops of [Start] leave in group [g]. *)
Lemma init_node_ids_members po g :
  cluster_ok po → node_ids_ po = ∅ →
  members (init_node_ids po) g =
  List.filter (λ id, bool_decide (g ∈ worker_groups id)) (worker_ids po) ++
  List.filter (λ id, bool_decide (g ∈ server_groups id)) (server_ids po) ++
  (if decide (g ∈ scheduler_groups) then [kScheduler] else []).
Proof.
  intros Hc He. unfold init_node_ids. cbv zeta.
  rewrite members_pushes by (by apply (bool_decide_unpack _); vm_compute).
  rewrite num_worker_instances_eq, num_server_instances_eq by done.
  rewrite !add_instances_members, He, <- app_assoc; [done|..];
    intros i Hi; unfold cluster_ok in Hc;
    [apply worker_groups_NoDup; rewrite WorkerRankToID_eq
    |apply server_groups_NoDup; rewrite ServerRankToID_eq];
    unfold rank_ok; lia.
Qed.

(** The membership test of a group is the same for all the instances of a
    role, unless the group is a single instance. *)
Lemma group_of_workers g po :
  cluster_ok po → 1 ≤ g ≤ 7 →
  List.filter (λ id, bool_decide (g ∈ worker_groups id)) (worker_ids po) =
  if bool_decide (4 ≤ g) then worker_ids po else [].
Proof.
  intros Hc Hg. case_bool_decide; [apply filter_all|apply filter_none];
    intros x [i [-> ?]]%worker_ids_elem; try done;
    [apply bool_decide_eq_true_2|apply bool_decide_eq_false_2];
    unfold worker_groups, kWorkerGroup, kServerGroup, kScheduler;
    rewrite !elem_of_cons, elem_of_nil; lia.
Qed.
Lemma group_of_servers g po :
  cluster_ok po → 1 ≤ g ≤ 7 →
  List.filter (λ id, bool_decide (g ∈ server_groups id)) (server_ids po) =
  if bool_decide (g ∈ [2; 3; 6; 7]) then server_ids po else [].
Proof.
  intros Hc Hg. case_bool_decide as Hin; [apply filter_all|apply filter_none];
    intros x [i [-> ?]]%server_ids_elem; try done;
    [apply bool_decide_eq_true_2|apply bool_decide_eq_false_2];
    unfold server_groups, kWorkerGroup, kServerGroup, kScheduler in *;
    rewrite !elem_of_cons, elem_of_nil in *; lia.
Qed.

Lemma init_node_ids_group po g :
  cluster_ok po → node_ids_ po = ∅ → 1 ≤ g ≤ 7 →
  members (init_node_ids po) g =
    (if Z.testbit g 2 then worker_ids po else []) ++
    (if Z.testbit g 1 then server_ids po else []) ++
    (if Z.testbit g 0 then [kScheduler] else []).
Proof.
  intros Hc He Hg. rewrite init_node_ids_members, group_of_workers, group_of_servers by done.
  assert (g = 1 ∨ g = 2 ∨ g = 3 ∨ g = 4 ∨ g = 5 ∨ g = 6 ∨ g = 7) as Hcase by lia.
  destruct_or! Hcase; subst g; reflexivity.
Qed.

(** ** Key ranges: lemmas *)
Lemma server_range_eq n i :
  1 ≤ n → 0 ≤ i < n →
  server_range n i = mkRange (kMaxKey / n * i) (kMaxKey / n * (i + 1)).
Proof.
  intros Hn Hi. unfold server_range.
  assert (0 ≤ kMaxKey / n * n ≤ kMaxKey).
  { split; [apply Z.mul_nonneg_nonneg; [apply Z.div_pos; unfold kMaxKey; lia|lia]|].
    rewrite Z.mul_comm. apply Z.mul_div_le. lia. }
  assert (0 ≤ kMaxKey / n) by (apply Z.div_pos; unfold kMaxKey; lia).
  unfold kMaxKey in *. rewrite !uwrap_small; [done|unfold in_u; nia..].
Qed.

Lemma GetServerKeyRanges_fresh po :
  server_key_ranges_ po = [] →
  (GetServerKeyRanges po).2 =
  map (server_range (num_servers_ po)) (seqZ 0 (num_servers_ po)).
Proof. intros H. unfold GetServerKeyRanges. by rewrite bool_decide_eq_true_2. Qed.

Lemma lookup_map_seqZ {A} (f : Z → A) n i :
  0 ≤ i < n → map f (seqZ 0 n) !! Z.to_nat i = Some (f i).
Proof.
  intros. rewrite (list_lookup_fmap f). rewrite lookup_seqZ_lt by lia. simpl.
  do 2 f_equal. lia.
Qed.

(** ** Barrier flags: lemmas *)
Lemma raise_flags (m : gmap Z bool) l c :
  foldl (λ m c, <[c := true]> m) m l !! c = if decide (c ∈ l) then Some true else m !! c.
Proof.
  revert m. induction l as [|x l IH]; intros m; cbn [foldl].
  { by rewrite decide_False by (by intros ?%elem_of_nil). }
  rewrite IH. destruct (decide (c ∈ l)).
  { by rewrite decide_True by (by right). }
  destruct (decide (c = x)) as [->|].
  - rewrite decide_True by left. by rewrite lookup_insert_eq.
  - rewrite decide_False by (rewrite elem_of_cons; naive_solver).
    by rewrite lookup_insert_ne.
Qed.

Lemma poll_customers_skip app c before l :
  Forall (λ m : gmap Z (gmap Z Z), m !! app = None) before →
  poll_customers (before ++ l) app c = poll_customers l app c.
Proof. induction 1 as [|m before Hm _ IH]; simpl; [done|]. by rewrite Hm. Qed.

(** ** Properties *)

(** Numbering round trip: for every group size, group rank and instance
    index whose instance number fits, the instance id of a worker and of a
    server gives back the group rank ([InstanceIDtoGroupRank]) and the
    instance number ([IDtoRank]); the two ids differ and neither is one of the
    seven group codes. *)
Theorem instance_id_roundtrip gs rank idx :
  0 ≤ rank → 0 ≤ idx < gs → rank * gs + idx < 2 ^ 30 - 8 →
  let w := GroupWorkerRankToInstanceID gs rank idx in
  let s := GroupServerRankToInstanceID gs rank idx in
  InstanceIDtoGroupRank gs w = rank ∧ InstanceIDtoGroupRank gs s = rank ∧
  IDtoRank w = rank * gs + idx ∧ IDtoRank s = rank * gs + idx ∧
  w ≠ s ∧ kScheduler + kServerGroup + kWorkerGroup < s ∧ s < w.
Proof.
  intros Hr Hi Hb w s.
  assert (0 ≤ rank * gs) by nia.
  assert (rank_ok (rank * gs + idx)) by (unfold rank_ok; lia).
  assert (i32 (rank * gs + idx) = rank * gs + idx) as E
    by (apply swrap_small; [lia|]; word_lia).
  subst w s. unfold InstanceIDtoGroupRank, GroupWorkerRankToInstanceID,
    GroupServerRankToInstanceID. rewrite !E, IDtoRank_worker, IDtoRank_server by done.
  destruct (group_rank_div gs rank idx Hi) as [->|]; [|lia].
  rewrite WorkerRankToID_eq, ServerRankToID_eq by done.
  unfold kScheduler, kServerGroup, kWorkerGroup. repeat split; lia.
Qed.

Lemma instance_id_roundtrip_witness :
  InstanceIDtoGroupRank 4 (GroupWorkerRankToInstanceID 4 3 2) = 3.
Proof. apply (instance_id_roundtrip 4 3 2); lia. Defined.

(** The group table after [Start]: group code [g] (a sum of the scheduler,
    server and worker codes) holds exactly the workers, then the servers, then
    the scheduler that its bits select, every node once; so a message to group
    [g] or a barrier on it counts every node of the selected roles and no
    other. *)
Theorem node_groups_by_role po g :
  cluster_ok po → node_ids_ po = ∅ → 1 ≤ g ≤ 7 →
  members (init_node_ids po) g =
    (if Z.testbit g 2 then worker_ids po else []) ++
    (if Z.testbit g 1 then server_ids po else []) ++
    (if Z.testbit g 0 then [kScheduler] else []) ∧
  NoDup (members (init_node_ids po) g).
Proof.
  intros Hc He Hg. pose proof (init_node_ids_group po g Hc He Hg) as Heq.
  split; [done|]. rewrite Heq.
  pose proof (worker_ids_NoDup po Hc). pose proof (server_ids_NoDup po Hc).
  pose proof (λ x, roles_disjoint po x Hc). pose proof (scheduler_not_server po Hc).
  assert (NoDup [kScheduler]) by apply NoDup_singleton.
  assert (NoDup (@nil Z)) by apply NoDup_nil_2.
  destruct (Z.testbit g 2), (Z.testbit g 1), (Z.testbit g 0);
    repeat (apply NoDup_app; split_and!); set_solver.
Qed.

Definition demo_po : t :=
  (new 0) <| num_workers_ := 2 |> <| num_servers_ := 3 |> <| group_size_ := 2 |>.

Lemma node_groups_by_role_witness :
  members (init_node_ids demo_po) 6 = worker_ids demo_po ++ server_ids demo_po.
Proof.
  destruct (node_groups_by_role demo_po 6) as [-> _];
    [by apply (bool_decide_unpack _); vm_compute|done|lia|reflexivity].
Defined.

(** A single instance is a group of its own: the id of every worker and
    server instance names exactly that instance, and an id of no instance has
    no entry. *)
Theorem node_group_single po id :
  cluster_ok po → node_ids_ po = ∅ → 8 ≤ id →
  members (init_node_ids po) id =
    if bool_decide (id ∈ worker_ids po ++ server_ids po) then [id] else [].
Proof.
  intros Hc He Hid. rewrite init_node_ids_members by done.
  rewrite (decide_False (P := id ∈ scheduler_groups)), app_nil_r
    by (unfold scheduler_groups, kScheduler, kServerGroup, kWorkerGroup;
        rewrite !elem_of_cons, elem_of_nil; lia).
  rewrite (filter_ext_elem _ (λ y, bool_decide (id = y)) (worker_ids po)),
    (filter_ext_elem _ (λ y, bool_decide (id = y)) (server_ids po)),
    !filter_single by (intros; single_group || by auto using worker_ids_NoDup, server_ids_NoDup).
  pose proof (roles_disjoint po id Hc).
  repeat case_bool_decide; set_solver.
Qed.

Lemma node_group_single_witness :
  members (init_node_ids demo_po) 11 = [11] ∧ members (init_node_ids demo_po) 30 = [].
Proof.
  split; rewrite (node_group_single demo_po);
    first [done | by apply (bool_decide_unpack _); vm_compute | reflexivity].
Defined.

(** Key ranges: the servers' ranges are computed once, there is one per
    server, server [i] owns exactly the keys whose quotient by
    [kMaxKey / n] is [i], no key has two owners, and the keys with an owner
    are exactly those below [kMaxKey / n * n]. *)
Theorem server_key_ranges_partition po :
  server_key_ranges_ po = [] → 1 ≤ num_servers_ po < 2 ^ 31 →
  let n := num_servers_ po in
  let q := kMaxKey / n in
  let rs := (GetServerKeyRanges po).2 in
  GetServerKeyRanges (GetServerKeyRanges po).1 = GetServerKeyRanges po ∧
  Z.of_nat (length rs) = n ∧
  (∀ i r k, rs !! i = Some r → begin r ≤ k < end_ r ↔ k / q = Z.of_nat i) ∧
  (∀ k, 0 ≤ k → (∃ i r, rs !! i = Some r ∧ begin r ≤ k < end_ r) ↔ k < q * n).
Proof.
  intros Hf Hn n q rs.
  assert (rs = map (server_range n) (seqZ 0 n)) as Hrs by by apply GetServerKeyRanges_fresh.
  assert (0 < q) as Hq by (apply Z.div_str_pos; unfold kMaxKey; lia).
  assert (length rs = Z.to_nat n) as Hl by by rewrite Hrs, length_map, length_seqZ.
  assert (∀ i r k, rs !! i = Some r → begin r ≤ k < end_ r ↔ k / q = Z.of_nat i) as Hown.
  { intros i r k Hr. pose proof (lookup_lt_Some _ _ _ Hr) as Hlt.
    rewrite Hrs in Hr. rewrite <- (Nat2Z.id i) in Hr.
    rewrite lookup_map_seqZ, server_range_eq in Hr by lia. injection Hr as <-. simpl.
    fold q. pose proof (Z.mul_div_le k q Hq). pose proof (Z.mul_succ_div_gt k q Hq).
    split; intros Hk; nia. }
  split_and!; [|lia|done|].
  - destruct (GetServerKeyRanges po) as [po1 rs1] eqn:E. unfold GetServerKeyRanges in E.
    injection E as Hpo1 Hrs1. assert (rs1 ≠ []) by (rewrite <- length_zero_iff_nil; unfold rs in Hl; simpl in Hl; lia).
    unfold GetServerKeyRanges. simpl. rewrite Hpo1 in Hrs1. rewrite Hrs1.
    by rewrite bool_decide_eq_false_2, Hrs1 by done.
  - intros k Hk. split.
    + intros (i & r & Hr & Hb%(Hown _ _ _ Hr)). apply lookup_lt_Some in Hr.
      pose proof (Z.mul_succ_div_gt k q Hq). nia.
    + intros Hkn. assert (0 ≤ k / q < n) by (split; [apply Z.div_pos; lia|apply Z.div_lt_upper_bound; lia]).
      exists (Z.to_nat (k / q)).
      assert (rs !! Z.to_nat (k / q) = Some (server_range n (k / q))) as Hr
        by (rewrite Hrs; apply lookup_map_seqZ; lia).
      eexists; split; [exact Hr|]. apply (Hown _ _ _ Hr). lia.
Qed.

Lemma server_key_ranges_partition_witness :
  ∃ i r, (GetServerKeyRanges demo_po).2 !! i = Some r ∧ begin r ≤ 2 ^ 63 < end_ r.
Proof.
  apply (server_key_ranges_partition demo_po); [done|vm_compute; done|lia|vm_compute; done].
Defined.

(** The barrier flag of customer [c] of application [app]. *)
Definition flag (po : t) (app c : Z) : option bool := barrier_done_ po !! app ≫= (.!! c).

Lemma Manage_flags meta po po' :
  Manage meta po = Ok po' →
  Control.cmd (Meta.control meta) ∈ [Control.BARRIER; Control.INSTANCE_BARRIER] →
  Meta.request meta = false →
  let flags := default ∅ (barrier_done_ po !! Meta.app_id meta) in
  ∀ app c, flag po' app c =
    if decide (app = Meta.app_id meta ∧ 0 ≤ c < Z.of_nat (size flags))
    then Some true else flag po app c.
Proof.
  intros HM Hcmd Hreq flags app c. revert HM. unfold Manage.
  case_match; [|done]. rewrite Hreq. rewrite bool_decide_eq_true_2 by set_solver.
  simpl. intros [= <-]. unfold flag. simpl.
  destruct (decide (app = Meta.app_id meta)) as [->|Hne].
  - rewrite lookup_insert_eq. simpl. rewrite raise_flags. fold flags.
    destruct (decide (c ∈ seqZ 0 (Z.of_nat (size flags)))) as [Hin|Hin];
      rewrite elem_of_seqZ in Hin; [rewrite decide_True by (split; [done|lia]); done|].
    rewrite decide_False by (intros [_ ?]; lia).
    unfold flags. destruct (barrier_done_ po !! _); [done|]. simpl. by rewrite lookup_empty.
  - rewrite lookup_insert_ne by done. by rewrite decide_False by (by intros [? _]).
Qed.

(** Barrier release: the answer to a barrier, on an application whose
    customers are numbered [0 .. n - 1], raises the flag of each of them and
    adds no flag; the flags of other applications stay; any other control
    message changes nothing. *)
Theorem manage_releases_customers meta po po' n :
  Manage meta po = Ok po' →
  (∀ c, is_Some (flag po (Meta.app_id meta) c) ↔ 0 ≤ c < n) →
  size (default ∅ (barrier_done_ po !! Meta.app_id meta)) = Z.to_nat n →
  if bool_decide (Control.cmd (Meta.control meta) ∈ [Control.BARRIER; Control.INSTANCE_BARRIER])
     && negb (Meta.request meta)
  then (∀ c, flag po' (Meta.app_id meta) c = if decide (0 ≤ c < n) then Some true else None) ∧
       (∀ app c, app ≠ Meta.app_id meta → flag po' app c = flag po app c)
  else po' = po.
Proof.
  intros HM Hdom Hsz. case_bool_decide as Hcmd; simpl; [destruct (Meta.request meta) eqn:Hreq; simpl|].
  - revert HM. unfold Manage. case_match; [|done]. rewrite Hreq, andb_false_r. by intros [= ->].
  - pose proof (Manage_flags meta po po' HM Hcmd Hreq) as Hf. cbv zeta in Hf. rewrite Hsz in Hf.
    split; [intros c|intros app c Hne]; rewrite Hf.
    + destruct (decide (0 ≤ c < n)) as [Hc|Hc]; [by rewrite decide_True by (split; [done|lia])|].
      rewrite decide_False by (intros [_ ?]; lia).
      destruct (flag po _ c) eqn:E; [|done]. destruct Hc. apply Hdom. eauto.
    + by rewrite decide_False by (by intros [? _]).
  - revert HM. unfold Manage. case_match; [|done].
    rewrite bool_decide_eq_false_2; [by intros [= ->]|set_solver].
Qed.

Definition barrier_answer (app : Z) : Meta.t :=
  Meta.default <| Meta.app_id := app |>
    <| Meta.control := Control.mk Control.BARRIER [] kWorkerGroup 0 |>.
Definition waiting_po (app c : Z) : t :=
  demo_po <| barrier_done_ := {[app := {[c := false]}]} |>.

Lemma manage_releases_customers_witness :
  ∃ po', Manage (barrier_answer 3) (waiting_po 3 0) = Ok po' ∧ flag po' 3 0 = Some true.
Proof.
  eexists; split; [reflexivity|].
  eapply (manage_releases_customers (barrier_answer 3) (waiting_po 3 0) _ 1);
    [reflexivity| |reflexivity].
  intros c. change (flag _ _ c) with (({[0 := false]} : gmap Z bool) !! c).
  destruct (decide (c = 0)) as [->|].
  - split; [lia|]. intros _. by exists false.
  - rewrite lookup_singleton_ne by lia. split; [by intros []|lia].
Defined.

(** Barrier release by position: the only customer [c > 0] of an
    application is still waiting after the answer to its barrier, and customer
    0, who does not exist, is marked released. *)
Theorem manage_misses_lone_customer app c :
  0 < c →
  ∃ po', Manage (barrier_answer app) (waiting_po app c) = Ok po' ∧
         flag po' app c = Some false ∧ flag po' app 0 = Some true.
Proof.
  intros Hc.
  destruct (Manage (barrier_answer app) (waiting_po app c)) as [po'|] eqn:E; [|discriminate E].
  exists po'. pose proof (Manage_flags _ _ _ E ltac:(simpl; set_solver) eq_refl) as Hf.
  cbv zeta in Hf. split; [done|].
  assert (barrier_done_ (waiting_po app c) !! app = Some {[c := false]}) as Hd
    by apply lookup_singleton_eq.
  rewrite !Hf. change (Meta.app_id (barrier_answer app)) with app. rewrite Hd. cbn [from_option id].
  change (size (id _)) with (size ({[c := false]} : gmap Z bool)).
  rewrite map_size_singleton. rewrite decide_False by (intros [_ ?]; lia).
  rewrite decide_True by (split; [done|lia]).
  unfold flag. rewrite Hd. cbn. by rewrite lookup_singleton_eq.
Qed.

Lemma manage_misses_lone_customer_witness :
  ∃ po', Manage (barrier_answer 0) (waiting_po 0 5) = Ok po' ∧
         flag po' 0 5 = Some false ∧ flag po' 0 0 = Some true.
Proof. apply (manage_misses_lone_customer 0 5). lia. Defined.

(** Failure detection: with the van ready and a timeout [t > 0], the nodes
    reported dead are exactly the watched nodes (workers and servers for the
    scheduler, the scheduler for the others) without a heartbeat in the last
    [t] seconds, once the process is itself more than [t] seconds old; so a
    node whose heartbeat is recorded at time [h] is not reported before
    [h + t]. *)
Theorem dead_nodes_exact po t now l :
  t ≠ 0 → GetDeadNodes po t true now = Ok l →
  (∃ nodes, GetNodeIDs po (if is_scheduler_ po then kWorkerGroup + kServerGroup
                           else kScheduler) = Ok nodes ∧
   ∀ r, r ∈ l ↔ r ∈ nodes ∧ start_time_ po + t < now ∧
                (∀ h, heartbeats_ po !! r = Some h → h + t < now)) ∧
  (∀ r h, now ≤ h + t →
     ∃ l', GetDeadNodes (UpdateHeartbeat r h po) t true now = Ok l' ∧ r ∉ l').
Proof.
  intros Ht HD. unfold GetDeadNodes in *. simpl negb in *.
  rewrite (proj2 (Z.eqb_neq t 0)) in * by done. simpl orb in *. cbv iota in *.
  assert ((if is_scheduler_ po then GetNodeIDs po (kWorkerGroup + kServerGroup)
           else GetNodeIDs po kScheduler) =
          GetNodeIDs po (if is_scheduler_ po then kWorkerGroup + kServerGroup else kScheduler))
    as Hg by by destruct (is_scheduler_ po).
  rewrite Hg in HD. apply bind_Ok in HD as (nodes & Hn & [= <-]). split.
  - exists nodes. split; [done|]. intros r.
    rewrite !list_elem_of_In, filter_In. unfold is_dead.
    destruct (heartbeats_ po !! r); rewrite andb_true_iff, Z.ltb_lt, ?Z.ltb_lt; naive_solver.
  - intros r h Hh. unfold UpdateHeartbeat, GetNodeIDs in *. simpl.
    rewrite Hg, Hn. simpl. eexists; split; [done|].
    rewrite list_elem_of_In, filter_In. unfold is_dead. simpl. rewrite lookup_insert_eq.
    rewrite andb_true_iff, Z.ltb_lt. lia.
Qed.

Definition demo_scheduler : t :=
  demo_po <| is_scheduler_ := true |> <| node_ids_ := init_node_ids demo_po |>
          <| heartbeats_ := {[9 := 95]} |>.

Lemma dead_nodes_exact_witness :
  GetDeadNodes demo_scheduler 10 true 100 = Ok [11; 13; 15; 8; 10; 12; 14; 16; 18] ∧
  ∃ l, GetDeadNodes (UpdateHeartbeat 11 95 demo_scheduler) 10 true 100 = Ok l ∧ 11 ∉ l.
Proof.
  assert (GetDeadNodes demo_scheduler 10 true 100 = Ok [11; 13; 15; 8; 10; 12; 14; 16; 18])
    as H by (vm_compute; reflexivity).
  split; [exact H|].
  apply (proj2 (dead_nodes_exact demo_scheduler 10 100 _ ltac:(done) H)). lia.
Defined.

(** ** Customers *)
Definition customer_of (po : t) (app c : Z) : option Z := customers_ po !! app ≫= (.!! c).

(** No application of the table is without customers. *)
Definition customers_wf (po : t) : Prop := map_Forall (λ _ m, m ≠ ∅) (customers_ po).

Lemma AddCustomer_lookup app c ptr po po' :
  AddCustomer app c ptr po = Ok po' →
  customer_of po app c = None ∧
  customers_ po' = <[app := <[c := ptr]> (default ∅ (customers_ po !! app))]> (customers_ po).
Proof.
  unfold AddCustomer, customer_of. case_bool_decide as Hn; [|done]. intros [= <-].
  split; [|done]. by destruct (customers_ po !! app).
Qed.

(** Customer table: registering a customer that is not there gives it its
    entry and a lowered barrier flag, leaves every other customer alone and
    keeps the table free of empty applications; registering it again is an
    error; removing it restores the table that was there before. *)
Theorem customer_register_remove app c ptr po :
  customers_wf po → customer_of po app c = None → flag po app c = None →
  ∃ po', AddCustomer app c ptr po = Ok po' ∧ customers_wf po' ∧
    (∀ app' c', customer_of po' app' c' =
       if decide (app' = app ∧ c' = c) then Some ptr else customer_of po app' c') ∧
    flag po' app c = Some false ∧
    (∀ ptr', is_ok (AddCustomer app c ptr' po') = false) ∧
    customers_ (RemoveCustomer app c po') = customers_ po ∧
    customers_wf (RemoveCustomer app c po').
Proof.
  intros Hwf Hnew Hflag.
  set (m := default ∅ (customers_ po !! app)).
  assert (m !! c = None) as Hm.
  { unfold m. unfold customer_of in Hnew. destruct (customers_ po !! app); [done|apply lookup_empty]. }
  assert (is_ok (AddCustomer app c ptr po) = true) as Hok.
  { unfold AddCustomer. fold m. by rewrite bool_decide_eq_true_2. }
  destruct (AddCustomer app c ptr po) as [po'|] eqn:E; [|done]. clear Hok.
  destruct (AddCustomer_lookup _ _ _ _ _ E) as [_ Hcs]. fold m in Hcs.
  assert (customers_ (RemoveCustomer app c po') = customers_ po) as Hrem.
  { unfold RemoveCustomer. simpl. rewrite Hcs, lookup_insert_eq. simpl.
    rewrite delete_insert_eq, delete_id by done.
    unfold m in *. destruct (customers_ po !! app) as [m0|] eqn:Em; simpl in *.
    - rewrite bool_decide_eq_false_2 by (by apply (Hwf app)).
      by rewrite insert_insert_eq, insert_id.
    - rewrite bool_decide_eq_true_2 by done. by rewrite delete_insert_eq, delete_id. }
  exists po'. split_and!; [done|..].
  - unfold customers_wf. rewrite Hcs. apply map_Forall_insert_2; [apply insert_non_empty|done].
  - intros app' c'. unfold customer_of. rewrite Hcs. destruct (decide (app' = app)) as [->|].
    + rewrite lookup_insert_eq. simpl. destruct (decide (c' = c)) as [->|].
      * rewrite lookup_insert_eq. by rewrite decide_True.
      * rewrite lookup_insert_ne, decide_False by naive_solver. unfold m.
        destruct (customers_ po !! app); [done|apply lookup_empty].
    + rewrite lookup_insert_ne by done. by rewrite decide_False by naive_solver.
  - revert E. unfold AddCustomer. case_match; [|done]. intros [= <-]. unfold flag in *. simpl.
    rewrite lookup_insert_eq. simpl. destruct (barrier_done_ po !! app); simpl in *.
    + rewrite Hflag. apply lookup_insert_eq.
    + rewrite lookup_empty. apply lookup_insert_eq.
  - intros ptr'. unfold AddCustomer. rewrite Hcs, lookup_insert_eq. simpl.
    rewrite lookup_insert_eq. by rewrite bool_decide_eq_false_2.
  - done.
  - unfold customers_wf. by rewrite Hrem.
Qed.

Lemma customer_register_remove_witness :
  ∃ po', AddCustomer 0 7 4096 demo_po = Ok po' ∧
         customers_ (RemoveCustomer 0 7 po') = customers_ demo_po.
Proof.
  destruct (customer_register_remove 0 7 4096 demo_po) as (po' & H);
    [apply map_Forall_empty|done|done|]. exists po'. tauto.
Defined.

(** Waiting for a customer: [GetCustomer] returns the customer when the
    application appears, with that customer, within the polls of its timeout;
    but the first poll that sees the application without the customer ends the
    wait with the null pointer, whatever the later polls would have shown. *)
Theorem get_customer_first_sight app c timeout before m after :
  Forall (λ m' : gmap Z (gmap Z Z), m' !! app = None) before →
  Z.of_nat (length before) ≤ timeout * 1000 →
  GetCustomer (before ++ m :: after) app c timeout =
  match m !! app with
  | Some in_app => in_app !! c
  | None => poll_customers (take (Z.to_nat (timeout * 1000) - length before) after) app c
  end.
Proof.
  intros Hb Hlen. unfold GetCustomer.
  rewrite take_app_ge, poll_customers_skip by (done || lia).
  replace (Z.to_nat (timeout * 1000 + 1) - length before)%nat
    with (S (Z.to_nat (timeout * 1000) - length before)) by lia.
  done.
Qed.

Lemma get_customer_first_sight_witness :
  GetCustomer ([∅] ++ {[0 := {[1 := 64]}]} :: [{[0 := {[1 := 64; 2 := 128]}]}]) 0 2 5 = None.
Proof.
  rewrite (get_customer_first_sight 0 2 5 [∅] {[0 := {[1 := 64]}]}
             [{[0 := {[1 := 64; 2 := 128]}]}]);
    [reflexivity|by repeat constructor|simpl; lia].
Defined.
