(* ===== verification/Codec.v ===== *)
(** * Wire format of the meta data (src/meta.h, src/van.cc PackMeta/UnpackMeta)

    A message's [Meta] travels as the bytes of a C struct [RawMeta], followed
    by the body, the data types and the [RawNode]s.  The structs are records
    of their fields; their bytes follow from the layout rules of the C ABI
    (every field aligned to its type, padding bytes never written). *)

From coqutil Require Import Word.LittleEndianList.
From S2P Require Import Prelude Message.

(** ** C struct layout *)

(** A C type, as far as layout goes: its size and its alignment. *)
Record ctype : Type := mkCtype { csize : nat; calign : nat }.
Definition c_int : ctype := mkCtype 4 4.
Definition c_bool : ctype := mkCtype 1 1.
Definition c_char : ctype := mkCtype 1 1.
Definition c_u64 : ctype := mkCtype 8 8.
Definition c_array (t : ctype) (n : nat) : ctype := mkCtype (csize t * n) (calign t).

(** Bytes to skip to reach the next multiple of [align]. *)
Definition padding (off align : nat) : nat := ((align - off mod align) mod align)%nat.

Definition struct_align (fs : list ctype) : nat := foldr Nat.max 1%nat (calign <$> fs).

Fixpoint fields_end (off : nat) (fs : list ctype) : nat :=
  match fs with
  | [] => off
  | f :: fs' => fields_end (off + padding off (calign f) + csize f) fs'
  end.

Definition struct_size (fs : list ctype) : nat :=
  (fields_end 0 fs + padding (fields_end 0 fs) (struct_align fs))%nat.
Definition c_struct (fs : list ctype) : ctype := mkCtype (struct_size fs) (struct_align fs).

Fixpoint offsets (off : nat) (fs : list ctype) : list nat :=
  match fs with
  | [] => []
  | f :: fs' => let o := (off + padding off (calign f))%nat in o :: offsets (o + csize f) fs'
  end.

(** Assign every field of a struct that lives in the memory [old]: padding
    bytes keep what they held. *)
Fixpoint write_fields (off : nat) (fs : list ctype) (vals : list (list byte))
    (old : list byte) : list byte :=
  match fs, vals with
  | f :: fs', v :: vals' =>
      let p := padding off (calign f) in
      take p old ++ v ++
      write_fields (off + p + csize f) fs' vals' (drop (p + csize f) old)
  | _, _ => old
  end.

Fixpoint read_fields (off : nat) (fs : list ctype) (mem : list byte) : list (list byte) :=
  match fs with
  | [] => []
  | f :: fs' =>
      let p := padding off (calign f) in
      take (csize f) (drop p mem) ::
      read_fields (off + p + csize f) fs' (drop (p + csize f) mem)
  end.

(** ** Scalars and arrays as bytes *)
Definition enc_int (z : Z) : list byte := le_split 4 z.
Definition dec_int (bs : list byte) : Z := i32 (le_combine bs).
Definition enc_u64 (z : Z) : list byte := le_split 8 z.
Definition dec_u64 (bs : list byte) : Z := u64 (le_combine bs).
Definition dec_i64 (bs : list byte) : Z := i64 (le_combine bs).
Definition enc_bool (b : bool) : list byte := le_split 1 (Z.b2z b).
(** A [bool] object holds 0 or 1; any other byte has no value. *)
Definition dec_bool (bs : list byte) : option bool :=
  match le_combine bs with 0 => Some false | 1 => Some true | _ => None end.

Definition enc_array (n : nat) (l : list Z) : list byte := concat (map (le_split n) l).
Fixpoint dec_array (n : nat) (dec : list byte → Z) (len : nat) (bs : list byte) : list Z :=
  match len with
  | O => []
  | S len' => dec (take n bs) :: dec_array n dec len' (drop n bs)
  end.

(** [bzero] of an array followed by [memcpy] of [l] to its start. *)
Definition zero_fill (n : nat) (l : list byte) : list byte :=
  l ++ replicate (n - length l) x00.

(** The C string at the start of an array of characters: [None] when no
    terminating zero is inside the array. *)
Fixpoint c_string (bs : list byte) : option (list byte) :=
  match bs with
  | [] => None
  | b :: bs' => if bool_decide (b = x00) then Some []
                else (λ s, b :: s) <$> c_string bs'
  end.

(** ** The structs of src/meta.h *)
Module RawNode.
Record t : Type := mk {
  role : Z; id : Z; hostname : list byte; num_ports : Z; ports : list Z; port : Z;
  dev_types : list Z; dev_ids : list Z; is_recovery : bool; customer_id : Z;
  endpoint_name : list byte; endpoint_name_len : Z; aux_id : Z
}.

Definition layout : list ctype :=
  [c_int; c_int; c_array c_char 64; c_int; c_array c_int 32; c_int;
   c_array c_int 32; c_array c_int 32; c_bool; c_int;
   c_array c_char 64; c_u64; c_int].

Definition to_fields (r : t) : list (list byte) :=
  [enc_int (role r); enc_int (id r); hostname r; enc_int (num_ports r);
   enc_array 4 (ports r); enc_int (port r); enc_array 4 (dev_types r);
   enc_array 4 (dev_ids r); enc_bool (is_recovery r); enc_int (customer_id r);
   endpoint_name r; enc_u64 (endpoint_name_len r); enc_int (aux_id r)].

Definition of_fields (fs : list (list byte)) : option t :=
  match fs with
  | [f0; f1; f2; f3; f4; f5; f6; f7; f8; f9; f10; f11; f12] =>
      rec ← dec_bool f8;
      Some (mk (dec_int f0) (dec_int f1) f2 (dec_int f3) (dec_array 4 dec_int 32 f4)
              (dec_int f5) (dec_array 4 dec_int 32 f6) (dec_array 4 dec_int 32 f7)
              rec (dec_int f9) f10 (dec_u64 f11) (dec_int f12))
  | _ => None
  end.
End RawNode.

Module RawControl.
Record t : Type := mk { cmd : Z; node_size : Z; barrier_group : Z; msg_sig : Z }.

Definition layout : list ctype := [c_int; c_int; c_int; c_u64].

Definition to_fields (r : t) : list (list byte) :=
  [enc_int (cmd r); enc_int (node_size r); enc_int (barrier_group r); enc_u64 (msg_sig r)].
Definition of_fields (fs : list (list byte)) : option t :=
  match fs with
  | [f0; f1; f2; f3] => Some (mk (dec_int f0) (dec_int f1) (dec_int f2) (dec_u64 f3))
  | _ => None
  end.
End RawControl.

Module RawMeta.
Record t : Type := mk {
  head : Z; body_size : Z; control : RawControl.t; request : bool; app_id : Z;
  timestamp : Z; data_type_size : Z; src_dev_type : Z; src_dev_id : Z;
  dst_dev_type : Z; dst_dev_id : Z; customer_id : Z; push : bool; simple_app : bool;
  data_size : Z; key : Z; addr : Z; val_len : Z; option_ : Z; sid : Z;
  is_tensor : Z; dtype : Z; dim : Z; shape : list Z;
  request_trace : Trace.t; response_trace : Trace.t;
  slave_qp_counter : list Z; slave_qp_num : Z
}.

Definition layout_trace : list ctype := [c_u64; c_u64; c_u64; c_u64; c_u64].
Definition layout : list ctype :=
  [c_int; c_int; c_struct RawControl.layout; c_bool; c_int;
   c_int; c_int; c_int; c_int;
   c_int; c_int; c_int; c_bool; c_bool;
   c_int; c_u64; c_u64; c_int; c_int; c_int;
   c_int; c_int; c_int; c_array c_u64 8;
   c_struct layout_trace; c_struct layout_trace;
   c_array c_u64 QP_MAX_NUM; c_int].

Definition trace_values (t : Trace.t) : list Z :=
  [Trace.pre_start t; Trace.start t; Trace.postsend t; Trace.postrecv t; Trace.process t].
Definition trace_of (l : list Z) : option Trace.t :=
  match l with [a; b; c; d; e] => Some (Trace.mk a b c d e) | _ => None end.

Definition zeros (n : nat) : list byte := replicate n x00.
Definition to_fields (r : t) : list (list byte) :=
  [enc_int (head r); enc_int (body_size r);
   write_fields 0 RawControl.layout (RawControl.to_fields (control r)) (zeros 24);
   enc_bool (request r); enc_int (app_id r);
   enc_int (timestamp r); enc_int (data_type_size r); enc_int (src_dev_type r);
   enc_int (src_dev_id r); enc_int (dst_dev_type r); enc_int (dst_dev_id r);
   enc_int (customer_id r); enc_bool (push r); enc_bool (simple_app r);
   enc_int (data_size r); enc_u64 (key r); enc_u64 (addr r); enc_int (val_len r);
   enc_int (option_ r); enc_int (sid r); enc_int (is_tensor r); enc_int (dtype r);
   enc_int (dim r); enc_array 8 (shape r);
   enc_array 8 (trace_values (request_trace r));
   enc_array 8 (trace_values (response_trace r));
   enc_array 8 (slave_qp_counter r); enc_int (slave_qp_num r)].

Definition of_fields (fs : list (list byte)) : option t :=
  match fs with
  | [f0; f1; f2; f3; f4; f5; f6; f7; f8; f9; f10; f11; f12; f13; f14; f15; f16; f17;
     f18; f19; f20; f21; f22; f23; f24; f25; f26; f27] =>
      ctrl ← RawControl.of_fields (read_fields 0 RawControl.layout f2);
      req ← dec_bool f3; pu ← dec_bool f12; sa ← dec_bool f13;
      tr1 ← trace_of (dec_array 8 dec_u64 5 f24);
      tr2 ← trace_of (dec_array 8 dec_u64 5 f25);
      Some (mk (dec_int f0) (dec_int f1) ctrl req (dec_int f4) (dec_int f5) (dec_int f6)
              (dec_int f7) (dec_int f8) (dec_int f9) (dec_int f10) (dec_int f11) pu sa
              (dec_int f14) (dec_u64 f15) (dec_u64 f16) (dec_int f17) (dec_int f18)
              (dec_int f19) (dec_int f20) (dec_int f21) (dec_int f22)
              (dec_array 8 dec_i64 8 f23) tr1 tr2 (dec_array 8 dec_u64 QP_MAX_NUM f26)
              (dec_int f27))
  | _ => None
  end.
End RawMeta.

Definition sizeof_RawMeta : nat := struct_size RawMeta.layout.
Definition sizeof_RawNode : nat := struct_size RawNode.layout.
Arguments sizeof_RawMeta : simpl never.
Arguments sizeof_RawNode : simpl never.

Lemma sizeof_RawMeta_eq : sizeof_RawMeta = 288%nat.
Proof. reflexivity. Qed.
Lemma sizeof_RawNode_eq : sizeof_RawNode = 552%nat.
Proof. reflexivity. Qed.

(** ** Packing *)
Definition GetPackMetaLen (meta : Meta.t) : Z :=
  i32 (Z.of_nat (sizeof_RawMeta + length (Meta.body meta) + length (Meta.data_type meta) * 4
                 + length (Control.node (Meta.control meta)) * sizeof_RawNode)).

(** The fields [PackMeta] gives to one [RawNode]. *)
Definition raw_node (n : Node.t) : RawNode.t :=
  {| RawNode.role := Node.role_to_Z (Node.role n); RawNode.id := Node.id n;
     RawNode.hostname := zero_fill 64 (Node.hostname n);
     RawNode.num_ports := Node.num_ports n; RawNode.ports := Node.ports n;
     RawNode.port := Node.port n; RawNode.dev_types := Node.dev_types n;
     RawNode.dev_ids := Node.dev_ids n; RawNode.is_recovery := Node.is_recovery n;
     RawNode.customer_id := Node.customer_id n;
     RawNode.endpoint_name := Node.endpoint_name n;
     RawNode.endpoint_name_len := Node.endpoint_name_len n;
     RawNode.aux_id := Node.aux_id n |}.

(** The nodes one after the other, in the memory [old]. *)
Fixpoint pack_nodes (ns : list Node.t) (old : list byte) : list byte :=
  match ns with
  | [] => old
  | n :: ns' =>
      write_fields 0 RawNode.layout (RawNode.to_fields (raw_node n)) (take sizeof_RawNode old)
      ++ pack_nodes ns' (drop sizeof_RawNode old)
  end.

Definition raw_control (c : Control.t) : RawControl.t :=
  if Control.empty c then RawControl.mk (Control.cmd_to_Z Control.EMPTY) 0 0 0
  else
    RawControl.mk (Control.cmd_to_Z (Control.cmd c))
      (i32 (Z.of_nat (length (Control.node c))))
      (if bool_decide (Control.cmd c = Control.BARRIER ∨ Control.cmd c = Control.INSTANCE_BARRIER)
       then Control.barrier_group c else 0)
      (if bool_decide (Control.cmd c = Control.ACK) then Control.msg_sig c else 0).

(** [trace]: whether STEPMESH_ENABLE_TRACE is defined. *)
Definition raw_meta (trace : bool) (meta : Meta.t) : RawMeta.t :=
  {| RawMeta.head := Meta.head meta;
     RawMeta.body_size := i32 (Z.of_nat (length (Meta.body meta)));
     RawMeta.control := raw_control (Meta.control meta);
     RawMeta.request := Meta.request meta; RawMeta.app_id := Meta.app_id meta;
     RawMeta.timestamp := Meta.timestamp meta;
     RawMeta.data_type_size := i32 (Z.of_nat (length (Meta.data_type meta)));
     RawMeta.src_dev_type := DeviceType.to_Z (Meta.src_dev_type meta);
     RawMeta.src_dev_id := Meta.src_dev_id meta;
     RawMeta.dst_dev_type := DeviceType.to_Z (Meta.dst_dev_type meta);
     RawMeta.dst_dev_id := Meta.dst_dev_id meta;
     RawMeta.customer_id := Meta.customer_id meta;
     RawMeta.push := Meta.push meta; RawMeta.simple_app := Meta.simple_app meta;
     RawMeta.data_size := Meta.data_size meta; RawMeta.key := Meta.key meta;
     RawMeta.addr := Meta.addr meta; RawMeta.val_len := Meta.val_len meta;
     RawMeta.option_ := Meta.option_ meta; RawMeta.sid := Meta.sid meta;
     RawMeta.is_tensor := Meta.is_tensor meta; RawMeta.dtype := Meta.dtype meta;
     RawMeta.dim := i32 (Z.of_nat (length (Meta.shape meta)));
     RawMeta.shape := Meta.shape meta ++ replicate (8 - length (Meta.shape meta)) 0;
     RawMeta.request_trace := if trace then Meta.request_trace meta else Trace.default;
     RawMeta.response_trace := if trace then Meta.response_trace meta else Trace.default;
     RawMeta.slave_qp_counter := replicate QP_MAX_NUM 0;
     RawMeta.slave_qp_num := 0 |}.

Definition packed_nodes (meta : Meta.t) : list Node.t :=
  if Control.empty (Meta.control meta) then [] else Control.node (Meta.control meta).

(** [PackMeta]: [meta_buf] is the caller's buffer, or none, in which case
    [new_char] is the memory that [new char[]] returns.  The writes through the
    buffer, into [shape[8]] (as many as the tensor has dimensions), into
    [slave_qp_counter] (as many as there are queue pairs) and into
    [hostname[64]] must stay inside. *)
Definition PackMeta (trace : bool) (QP_NUM : Z) (meta : Meta.t)
    (meta_buf : option (list byte)) (new_char : Z → list byte) : result (list byte * Z) :=
  let buf_size := GetPackMetaLen meta in
  let buf := match meta_buf with Some b => b | None => new_char (buf_size + 1) end in
  let ns := packed_nodes meta in
  let fixed := (sizeof_RawMeta + length (Meta.body meta) + length (Meta.data_type meta) * 4)%nat in
  inside! bool_decide (fixed + length ns * sizeof_RawNode ≤ length buf)%nat or "meta_buf";
  inside! bool_decide (Forall (λ n, length (Node.hostname n) ≤ 64)%nat ns) or "raw_node.hostname";
  inside! QP_NUM <=? Z.of_nat QP_MAX_NUM or "raw.slave_qp_counter";
  inside! bool_decide (length (Meta.shape meta) ≤ 8)%nat or "raw.shape";
  let header :=
    write_fields 0 RawMeta.layout (RawMeta.to_fields (raw_meta trace meta))
      (RawMeta.zeros sizeof_RawMeta) in
  Ok (header ++ Meta.body meta ++ enc_array 4 (map DataType.to_Z (Meta.data_type meta))
        ++ pack_nodes ns (drop fixed buf),
      buf_size).

(** ** Unpacking *)
Definition enum {A} (o : option A) : result A := from_option_or (Undefined "enumeration") o.

Definition unpack_node (bs : list byte) : result Node.t :=
  p ← from_option_or (Undefined "bool") (RawNode.of_fields (read_fields 0 RawNode.layout bs));
  role ← enum (Node.role_of_Z (RawNode.role p));
  hostname ← from_option_or (Undefined "hostname has no end") (c_string (RawNode.hostname p));
  Ok {| Node.role := role; Node.id := RawNode.id p; Node.customer_id := RawNode.customer_id p;
        Node.hostname := hostname; Node.num_ports := RawNode.num_ports p;
        Node.ports := RawNode.ports p; Node.dev_types := RawNode.dev_types p;
        Node.dev_ids := RawNode.dev_ids p; Node.port := RawNode.port p;
        Node.is_recovery := RawNode.is_recovery p;
        Node.endpoint_name := RawNode.endpoint_name p;
        Node.endpoint_name_len := RawNode.endpoint_name_len p;
        Node.aux_id := RawNode.aux_id p |}.

Fixpoint unpack_nodes (count : nat) (bs : list byte) : result (list Node.t) :=
  match count with
  | O => Ok []
  | S count' =>
      inside! bool_decide (sizeof_RawNode ≤ length bs)%nat or "raw_node";
      n ← unpack_node (take sizeof_RawNode bs);
      ns ← unpack_nodes count' (drop sizeof_RawNode bs);
      Ok (n :: ns)
  end.

Fixpoint unpack_data_types (l : list Z) : result (list DataType.t) :=
  match l with
  | [] => Ok []
  | z :: l' => d ← enum (DataType.of_Z z); ds ← unpack_data_types l'; Ok (d :: ds)
  end.

(** The traces [UnpackMeta] fills in when tracing is compiled in: a request
    brings the sender's part of the request trace, a response the whole of it
    and the sender's part of its own. *)
Definition unpack_request_trace (trace request : bool) (raw old : Trace.t) : Trace.t :=
  if trace then
    if request then Trace.mk (Trace.pre_start raw) (Trace.start raw) (Trace.postsend raw)
                      (Trace.postrecv old) (Trace.process old)
    else raw
  else old.
Definition unpack_response_trace (trace request : bool) (raw old : Trace.t) : Trace.t :=
  if trace && negb request then
    Trace.mk (Trace.pre_start old) (Trace.start raw) (Trace.postsend raw)
      (Trace.postrecv old) (Trace.process old)
  else old.

(** [UnpackMeta] into [meta], whose node list and shape are appended to.
    [buf_size] is not looked at; the reads must stay inside the buffer. *)
Definition UnpackMeta (trace : bool) (meta_buf : list byte) (meta : Meta.t) : result Meta.t :=
  inside! bool_decide (sizeof_RawMeta ≤ length meta_buf)%nat or "meta_buf";
  raw ← from_option_or (Undefined "bool")
          (RawMeta.of_fields (read_fields 0 RawMeta.layout (take sizeof_RawMeta meta_buf)));
  check! (0 <=? RawMeta.body_size raw) or "std::length_error";
  let body_len := Z.to_nat (RawMeta.body_size raw) in
  let raw_body := drop sizeof_RawMeta meta_buf in
  inside! bool_decide (body_len ≤ length raw_body)%nat or "raw_body";
  check! (0 <=? RawMeta.data_type_size raw) or "std::length_error";
  let dt_len := Z.to_nat (RawMeta.data_type_size raw) in
  let raw_data_type := drop body_len raw_body in
  inside! bool_decide (dt_len * 4 ≤ length raw_data_type)%nat or "raw_data_type";
  dts ← unpack_data_types (dec_array 4 dec_int dt_len raw_data_type);
  sdt ← enum (DeviceType.of_Z (RawMeta.src_dev_type raw));
  ddt ← enum (DeviceType.of_Z (RawMeta.dst_dev_type raw));
  cmd ← enum (Control.cmd_of_Z (RawControl.cmd (RawMeta.control raw)));
  nodes ← unpack_nodes (Z.to_nat (RawControl.node_size (RawMeta.control raw)))
            (drop (dt_len * 4) raw_data_type);
  inside! RawMeta.dim raw <=? 8 or "raw.shape";
  Ok {| Meta.head := RawMeta.head raw; Meta.app_id := RawMeta.app_id raw;
        Meta.customer_id := RawMeta.customer_id raw; Meta.timestamp := RawMeta.timestamp raw;
        Meta.sender := Meta.sender meta; Meta.recver := Meta.recver meta;
        Meta.request := RawMeta.request raw; Meta.push := RawMeta.push raw;
        Meta.simple_app := RawMeta.simple_app raw; Meta.body := take body_len raw_body;
        Meta.data_type := dts; Meta.src_dev_type := sdt;
        Meta.src_dev_id := RawMeta.src_dev_id raw; Meta.dst_dev_type := ddt;
        Meta.dst_dev_id := RawMeta.dst_dev_id raw;
        Meta.control := Control.mk cmd (Control.node (Meta.control meta) ++ nodes)
                          (RawControl.barrier_group (RawMeta.control raw))
                          (RawControl.msg_sig (RawMeta.control raw));
        Meta.data_size := RawMeta.data_size raw; Meta.key := RawMeta.key raw;
        Meta.addr := RawMeta.addr raw; Meta.val_len := RawMeta.val_len raw;
        Meta.option_ := RawMeta.option_ raw; Meta.sid := RawMeta.sid raw;
        Meta.is_tensor := i8 (RawMeta.is_tensor raw); Meta.dtype := i8 (RawMeta.dtype raw);
        Meta.shape := Meta.shape meta ++ take (Z.to_nat (RawMeta.dim raw)) (RawMeta.shape raw);
        Meta.tensor_ev := Meta.tensor_ev meta;
        Meta.request_trace := unpack_request_trace trace (RawMeta.request raw)
                                (RawMeta.request_trace raw) (Meta.request_trace meta);
        Meta.response_trace := unpack_response_trace trace (RawMeta.request raw)
                                 (RawMeta.response_trace raw) (Meta.response_trace meta);
        Meta.slave_qp_counter := Meta.slave_qp_counter meta;
        Meta.slave_qp_num := Meta.slave_qp_num meta |}.

(** ** Layout lemmas *)
Lemma fields_end_le off fs : (off ≤ fields_end off fs)%nat.
Proof. revert off. induction fs as [|f fs IH]; intros off; simpl; [lia|]. etrans; [|apply IH]. lia. Qed.

Section layout.
Context (fs : list ctype) (vals : list (list byte)).
Hypothesis Hvals : Forall2 (λ f v, length v = csize f) fs vals.

Lemma length_write_fields off old :
  (fields_end off fs - off ≤ length old)%nat →
  length (write_fields off fs vals old) = length old.
Proof using Hvals.
  revert off old. induction Hvals as [|f v fs' vals' Hv Hrest IH]; intros off old Hlen; simpl; [done|].
  simpl in Hlen. pose proof (fields_end_le (off + padding off (calign f) + csize f) fs').
  rewrite !length_app, length_take, IH, length_drop by (auto; rewrite length_drop; lia). lia.
Qed.

Lemma read_write_fields off old rest :
  (fields_end off fs - off ≤ length old)%nat →
  read_fields off fs (write_fields off fs vals old ++ rest) = vals.
Proof using Hvals.
  revert off old. induction Hvals as [|f v fs' vals' Hv Hrest IH]; intros off old Hlen; simpl; [done|].
  simpl in Hlen. set (p := padding off (calign f)) in *.
  pose proof (fields_end_le (off + p + csize f) fs').
  assert (length (take p old) = p) as Hp by (rewrite length_take; lia).
  rewrite <- !app_assoc. rewrite (drop_app_length' (take p old)) by done.
  rewrite (take_app_length' v) by done. f_equal.
  rewrite (app_assoc (take p old)), (drop_app_length' (take p old ++ v)) by (rewrite length_app; lia).
  apply IH; [done|]. rewrite length_drop. lia.
Qed.
End layout.

(** ** Scalars, arrays and strings: lemmas *)
Lemma dec_enc_int z : in_s 32 z → dec_int (enc_int z) = z.
Proof.
  intros. unfold dec_int, enc_int. rewrite le_combine_split.
  change (Z.of_nat 4 * 8) with 32. change (z mod 2 ^ 32) with (u32 z).
  by rewrite swrap_uwrap, swrap_small.
Qed.
Lemma dec_enc_u64 z : in_u 64 z → dec_u64 (enc_u64 z) = z.
Proof.
  intros. unfold dec_u64, enc_u64. rewrite le_combine_split.
  change (Z.of_nat 8 * 8) with 64. change (z mod 2 ^ 64) with (u64 z). by rewrite !uwrap_small by (by rewrite ?uwrap_small).
Qed.
Lemma dec_enc_i64 z : in_s 64 z → dec_i64 (le_split 8 z) = z.
Proof.
  intros. unfold dec_i64. rewrite le_combine_split.
  change (Z.of_nat 8 * 8) with 64. change (z mod 2 ^ 64) with (u64 z).
  by rewrite swrap_uwrap, swrap_small.
Qed.
Lemma dec_enc_bool b : dec_bool (enc_bool b) = Some b.
Proof. by destruct b. Qed.

Lemma length_enc_array n l : length (enc_array n l) = (length l * n)%nat.
Proof.
  induction l as [|z l IH]; [done|]. unfold enc_array in *. simpl.
  rewrite length_app, length_le_split, IH. done.
Qed.

Lemma dec_enc_array n dec l rest :
  Forall (λ z, dec (le_split n z) = z) l →
  dec_array n dec (length l) (enc_array n l ++ rest) = l.
Proof.
  induction 1 as [|z l Hz _ IH]; [done|]. unfold enc_array in *.
  cbn [map concat length dec_array]. rewrite <- app_assoc.
  rewrite take_app_length', drop_app_length' by (by rewrite length_le_split).
  by rewrite Hz, IH.
Qed.

Lemma dec_enc_array' n dec l k :
  Forall (λ z, dec (le_split n z) = z) l → length l = k →
  dec_array n dec k (enc_array n l) = l.
Proof. intros. subst k. rewrite <- (app_nil_r (enc_array n l)). by apply dec_enc_array. Qed.

#[local] Arguments dec_array : simpl never.
#[local] Arguments enc_array : simpl never.

Lemma c_string_zero_fill n s :
  Forall (λ b, b ≠ x00) s → (length s < n)%nat → c_string (zero_fill n s) = Some s.
Proof.
  unfold zero_fill. intros Hs. revert n. induction Hs as [|b s Hb _ IH]; intros n Hn; simpl in *.
  - destruct n; [lia|]. done.
  - rewrite bool_decide_eq_false_2 by done.
    destruct n; [lia|]. by rewrite Nat.sub_succ, (IH n) by lia.
Qed.

Lemma length_zero_fill n s : (length s ≤ n)%nat → length (zero_fill n s) = n.
Proof. unfold zero_fill. intros. rewrite length_app, length_replicate. lia. Qed.

(** ** Well-formed data *)

(** A node whose numbers and arrays have the sizes of their C types. *)
Definition node_fits (n : Node.t) : Prop :=
  in_s 32 (Node.id n) ∧ in_s 32 (Node.customer_id n) ∧ in_s 32 (Node.num_ports n) ∧
  in_s 32 (Node.port n) ∧ in_s 32 (Node.aux_id n) ∧ in_u 64 (Node.endpoint_name_len n) ∧
  (length (Node.hostname n) ≤ 64)%nat ∧
  length (Node.endpoint_name n) = 64%nat ∧
  length (Node.ports n) = 32%nat ∧ Forall (in_s 32) (Node.ports n) ∧
  length (Node.dev_types n) = 32%nat ∧ Forall (in_s 32) (Node.dev_types n) ∧
  length (Node.dev_ids n) = 32%nat ∧ Forall (in_s 32) (Node.dev_ids n).

(** ... and whose host name is a C string shorter than its field. *)
Definition node_wf (n : Node.t) : Prop :=
  node_fits n ∧ (length (Node.hostname n) < 64)%nat ∧ Forall (λ b, b ≠ x00) (Node.hostname n).

Definition trace_wf (t : Trace.t) : Prop :=
  Forall (in_u 64) (RawMeta.trace_values t).

(** A meta datum whose numbers fit their C types, whose tensor has at most
    eight dimensions, and whose packed form is smaller than 2 GB. *)
Definition meta_wf (m : Meta.t) : Prop :=
  Forall (in_s 32) [Meta.head m; Meta.app_id m; Meta.customer_id m; Meta.timestamp m;
    Meta.src_dev_id m; Meta.dst_dev_id m; Meta.data_size m; Meta.val_len m;
    Meta.option_ m; Meta.sid m; Control.barrier_group (Meta.control m)] ∧
  Forall (in_u 64) [Meta.key m; Meta.addr m; Control.msg_sig (Meta.control m)] ∧
  Forall (in_s 8) [Meta.is_tensor m; Meta.dtype m] ∧
  (length (Meta.shape m) ≤ 8)%nat ∧ Forall (in_s 64) (Meta.shape m) ∧
  trace_wf (Meta.request_trace m) ∧ trace_wf (Meta.response_trace m) ∧
  Forall node_wf (Control.node (Meta.control m)) ∧
  Z.of_nat (sizeof_RawMeta + length (Meta.body m) + length (Meta.data_type m) * 4
            + length (Control.node (Meta.control m)) * sizeof_RawNode) < 2 ^ 31.

#[export] Instance node_fits_dec n : Decision (node_fits n).
Proof. unfold node_fits. apply _. Defined.
#[export] Instance node_wf_dec n : Decision (node_wf n).
Proof. unfold node_wf. apply _. Defined.
#[export] Instance meta_wf_dec m : Decision (meta_wf m).
Proof. unfold meta_wf, trace_wf. apply _. Defined.

(** What the receiver's meta datum is, from the sender's [m] and the
    receiver's [m0] before the call: the sender, the receiver, the event and
    the queue pair fields do not travel, nor do the barrier group, the
    signature and the nodes of a command that has no use for them. *)
Definition transmitted_control (c : Control.t) : Control.t :=
  Control.mk (Control.cmd c)
    (if Control.empty c then [] else Control.node c)
    (if bool_decide (Control.cmd c = Control.BARRIER ∨ Control.cmd c = Control.INSTANCE_BARRIER)
     then Control.barrier_group c else 0)
    (if bool_decide (Control.cmd c = Control.ACK) then Control.msg_sig c else 0).

Definition transmitted (trace : bool) (m m0 : Meta.t) : Meta.t :=
  m <| Meta.sender := Meta.sender m0 |> <| Meta.recver := Meta.recver m0 |>
    <| Meta.tensor_ev := Meta.tensor_ev m0 |>
    <| Meta.slave_qp_counter := Meta.slave_qp_counter m0 |>
    <| Meta.slave_qp_num := Meta.slave_qp_num m0 |>
    <| Meta.control ::= transmitted_control |>
    <| Meta.request_trace :=
         unpack_request_trace trace (Meta.request m) (Meta.request_trace m) (Meta.request_trace m0) |>
    <| Meta.response_trace :=
         unpack_response_trace trace (Meta.request m) (Meta.response_trace m) (Meta.response_trace m0) |>.

(** ** One node *)
Lemma ints_dec l : Forall (in_s 32) l → Forall (λ z, dec_int (le_split 4 z) = z) l.
Proof. intros H. eapply Forall_impl; [exact H|]. intros z Hz. by apply dec_enc_int. Qed.
Lemma u64s_dec l : Forall (in_u 64) l → Forall (λ z, dec_u64 (le_split 8 z) = z) l.
Proof. intros H. eapply Forall_impl; [exact H|]. intros z Hz. by apply dec_enc_u64. Qed.
Lemma i64s_dec l : Forall (in_s 64) l → Forall (λ z, dec_i64 (le_split 8 z) = z) l.
Proof. intros H. eapply Forall_impl; [exact H|]. intros z Hz. by apply dec_enc_i64. Qed.

Lemma raw_node_lengths n :
  node_fits n →
  Forall2 (λ f v, length v = csize f) RawNode.layout (RawNode.to_fields (raw_node n)).
Proof.
  intros (_ & _ & _ & _ & _ & _ & Hh & He & Hp & _ & Ht & _ & Hi & _).
  unfold RawNode.layout, RawNode.to_fields, raw_node; simpl.
  repeat (constructor; [unfold enc_int, enc_u64, enc_bool;
    rewrite ?length_le_split, ?length_enc_array, ?length_zero_fill by lia; simpl; lia|]).
  constructor.
Qed.

Lemma raw_node_roundtrip n :
  node_fits n → RawNode.of_fields (RawNode.to_fields (raw_node n)) = Some (raw_node n).
Proof.
  intros (? & ? & ? & ? & ? & ? & Hh & He & Hp & Fp & Ht & Ft & Hi & Fi).
  unfold RawNode.to_fields, RawNode.of_fields. rewrite dec_enc_bool.
  cbn [mbind option_bind]. unfold raw_node. simpl.
  rewrite !dec_enc_array' by auto using ints_dec.
  rewrite !dec_enc_int, dec_enc_u64 by (done || by destruct (Node.role n)). done.
Qed.

(** A packed node comes back, if its host name does. *)
Lemma unpack_packed n old rest :
  node_fits n → length old = sizeof_RawNode →
  unpack_node (write_fields 0 RawNode.layout (RawNode.to_fields (raw_node n)) old ++ rest) =
  match c_string (zero_fill 64 (Node.hostname n)) with
  | Some h => Ok (n <| Node.hostname := h |>)
  | None => Err (Undefined "hostname has no end")
  end.
Proof.
  intros Hn Hold. unfold unpack_node.
  rewrite read_write_fields by (apply raw_node_lengths, Hn || (rewrite Hold; vm_compute; lia)).
  rewrite raw_node_roundtrip by done. simpl. rewrite Node.role_of_to. simpl.
  by destruct (c_string _).
Qed.

Lemma unpack_pack_node n old rest :
  node_wf n → length old = sizeof_RawNode →
  unpack_node (write_fields 0 RawNode.layout (RawNode.to_fields (raw_node n)) old ++ rest) = Ok n.
Proof.
  intros (Hn & Hh & Hz) Hold. rewrite unpack_packed, c_string_zero_fill by done. by destruct n.
Qed.

(** ** The nodes *)
Lemma unpack_pack_nodes ns old :
  Forall node_wf ns → (length ns * sizeof_RawNode ≤ length old)%nat →
  unpack_nodes (length ns) (pack_nodes ns old) = Ok ns.
Proof.
  intros Hns. revert old. induction Hns as [|n ns Hn Hns IH]; intros old Hlen; [done|].
  cbn [length pack_nodes unpack_nodes]. cbn [length] in Hlen.
  assert (length (take sizeof_RawNode old) = sizeof_RawNode) as Ht by (rewrite length_take; lia).
  assert (length (write_fields 0 RawNode.layout (RawNode.to_fields (raw_node n))
            (take sizeof_RawNode old)) = sizeof_RawNode) as Hw.
  { rewrite length_write_fields; [done|by apply raw_node_lengths, Hn|]. rewrite Ht. vm_compute. lia. }
  rewrite bool_decide_eq_true_2 by (rewrite length_app; lia).
  rewrite take_app_length', drop_app_length' by done.
  rewrite <- (app_nil_r (write_fields _ _ _ _)), unpack_pack_node by done. simpl.
  rewrite IH; [done|]. rewrite length_drop. lia.
Qed.

Lemma dec_data_types l rest :
  dec_array 4 dec_int (length l) (enc_array 4 (map DataType.to_Z l) ++ rest) =
  map DataType.to_Z l.
Proof.
  rewrite <- (length_map DataType.to_Z l). apply dec_enc_array, ints_dec.
  induction l as [|d l IH]; constructor; [by destruct d|done].
Qed.

Lemma unpack_pack_data_types l :
  unpack_data_types (map DataType.to_Z l) = Ok l.
Proof. induction l as [|d l IH]; [done|]. simpl. by rewrite DataType.datatype_of_to, IH. Qed.

(** ** The header *)
Ltac split_forall :=
  repeat match goal with
  | H : Forall _ (_ :: _) |- _ => apply Forall_cons in H as [? H]
  | H : Forall _ [] |- _ => clear H
  end.

Lemma i8_i32 z : in_s 8 z → in_s 32 z.
Proof. word_lia. Qed.

Lemma raw_control_roundtrip c rest :
  in_s 32 (Control.barrier_group c) → in_u 64 (Control.msg_sig c) →
  RawControl.of_fields
    (read_fields 0 RawControl.layout
      (write_fields 0 RawControl.layout (RawControl.to_fields (raw_control c))
         (RawMeta.zeros 24) ++ rest)) = Some (raw_control c).
Proof.
  intros Hb Hm. rewrite read_write_fields.
  - unfold RawControl.to_fields, RawControl.of_fields.
    assert (in_s 32 (Control.cmd_to_Z (Control.cmd c))) by by destruct (Control.cmd c).
    unfold raw_control. destruct (Control.empty c); simpl; rewrite !dec_enc_int, dec_enc_u64;
      repeat case_bool_decide; auto; try done; by apply swrap_range.
  - repeat (constructor; [unfold enc_int, enc_u64; rewrite length_le_split; done|]). constructor.
  - vm_compute. lia.
Qed.

Lemma length_raw_control c :
  length (write_fields 0 RawControl.layout (RawControl.to_fields (raw_control c))
            (RawMeta.zeros 24)) = 24%nat.
Proof.
  rewrite length_write_fields; [done| |vm_compute; lia].
  repeat (constructor; [unfold enc_int, enc_u64; rewrite length_le_split; done|]). constructor.
Qed.

Lemma trace_of_values t : RawMeta.trace_of (RawMeta.trace_values t) = Some t.
Proof. by destruct t. Qed.

Lemma raw_fields_lengths r c :
  RawMeta.control r = raw_control c → length (RawMeta.shape r) = 8%nat →
  length (RawMeta.slave_qp_counter r) = QP_MAX_NUM →
  Forall2 (λ f v, length v = csize f) RawMeta.layout (RawMeta.to_fields r).
Proof.
  intros Hc Hs Hq. unfold RawMeta.layout, RawMeta.to_fields. rewrite Hc.
  repeat first [apply Forall2_nil_2 | apply Forall2_cons; split];
    try apply length_le_split; [apply length_raw_control|..];
    rewrite length_enc_array; rewrite ?Hs, ?Hq; reflexivity.
Qed.

Lemma raw_fields_roundtrip r c :
  RawMeta.control r = raw_control c →
  in_s 32 (Control.barrier_group c) → in_u 64 (Control.msg_sig c) →
  Forall (in_s 32) [RawMeta.head r; RawMeta.body_size r; RawMeta.app_id r; RawMeta.timestamp r;
    RawMeta.data_type_size r; RawMeta.src_dev_type r; RawMeta.src_dev_id r;
    RawMeta.dst_dev_type r; RawMeta.dst_dev_id r; RawMeta.customer_id r; RawMeta.data_size r;
    RawMeta.val_len r; RawMeta.option_ r; RawMeta.sid r; RawMeta.is_tensor r;
    RawMeta.dtype r; RawMeta.dim r; RawMeta.slave_qp_num r] →
  Forall (in_u 64) [RawMeta.key r; RawMeta.addr r] →
  length (RawMeta.shape r) = 8%nat → Forall (in_s 64) (RawMeta.shape r) →
  trace_wf (RawMeta.request_trace r) → trace_wf (RawMeta.response_trace r) →
  length (RawMeta.slave_qp_counter r) = QP_MAX_NUM →
  Forall (in_u 64) (RawMeta.slave_qp_counter r) →
  RawMeta.of_fields (RawMeta.to_fields r) = Some r.
Proof.
  intros Hc Hb Hm Hi Hu Hs Hsh Ht1 Ht2 Hq Hqu.
  unfold RawMeta.to_fields, RawMeta.of_fields.
  rewrite <- (app_nil_r (write_fields _ _ _ _)), Hc, raw_control_roundtrip, !dec_enc_bool by done.
  rewrite (dec_enc_array' 8 dec_u64 (RawMeta.trace_values (RawMeta.request_trace r))),
    (dec_enc_array' 8 dec_u64 (RawMeta.trace_values (RawMeta.response_trace r)))
    by (done || by apply u64s_dec).
  cbn [mbind option_bind]. rewrite !trace_of_values. cbn [mbind option_bind].
  rewrite (dec_enc_array' 8 dec_i64), (dec_enc_array' 8 dec_u64)
    by (done || (by apply u64s_dec) || by apply i64s_dec).
  split_forall. rewrite !dec_enc_int, !dec_enc_u64 by done. rewrite <- Hc. by destruct r.
Qed.

(** Lists of range conditions, one element at a time. *)
Ltac range :=
  lazymatch goal with
  | |- in_s _ (swrap _ _) => by apply swrap_range
  | |- in_s _ (Zpos _) => by apply (bool_decide_unpack _)
  | |- in_s _ 0 => by apply (bool_decide_unpack _)
  | |- in_u _ 0 => by apply (bool_decide_unpack _)
  | |- _ => first [assumption | apply i8_i32; assumption | by auto]
  end.
Ltac all_ranges :=
  repeat first [apply Forall_nil_2 | apply Forall_cons; split; [range|]].

Lemma trace_default_wf : trace_wf Trace.default.
Proof. unfold trace_wf. simpl. all_ranges. Qed.

Lemma raw_meta_roundtrip tr m :
  meta_wf m →
  RawMeta.of_fields (RawMeta.to_fields (raw_meta tr m)) = Some (raw_meta tr m).
Proof.
  intros (Hi & Hu & H8 & Hs & Hsh & Ht1 & Ht2 & _ & _). split_forall.
  apply (raw_fields_roundtrip _ (Meta.control m)); simpl; try done.
  - assert (∀ d, in_s 32 (DeviceType.to_Z d)) by by intros [].
    all_ranges.
  - all_ranges.
  - rewrite length_app, length_replicate. lia.
  - apply Forall_app; split; [done|]. by apply Forall_replicate.
  - destruct tr; auto using trace_default_wf.
  - destruct tr; auto using trace_default_wf.
  - all_ranges.
Qed.

Lemma raw_meta_lengths tr m :
  (length (Meta.shape m) ≤ 8)%nat →
  Forall2 (λ f v, length v = csize f) RawMeta.layout (RawMeta.to_fields (raw_meta tr m)).
Proof.
  intros. apply (raw_fields_lengths _ (Meta.control m)); try done.
  simpl. rewrite length_app, length_replicate. lia.
Qed.

(** The sizes in the header are the sizes of the parts. *)
Lemma raw_meta_sizes tr m :
  meta_wf m →
  RawMeta.body_size (raw_meta tr m) = Z.of_nat (length (Meta.body m)) ∧
  RawMeta.data_type_size (raw_meta tr m) = Z.of_nat (length (Meta.data_type m)) ∧
  RawControl.node_size (RawMeta.control (raw_meta tr m)) = Z.of_nat (length (packed_nodes m)) ∧
  RawMeta.dim (raw_meta tr m) = Z.of_nat (length (Meta.shape m)).
Proof.
  intros (_ & _ & _ & Hs & _ & _ & _ & _ & Hsz). rewrite sizeof_RawNode_eq in Hsz.
  assert (∀ k : nat, Z.of_nat k < 2 ^ 31 → i32 (Z.of_nat k) = Z.of_nat k) as Hk.
  { intros k ?. apply swrap_small; [lia|]. word_lia. }
  generalize dependent sizeof_RawMeta. intros.
  unfold packed_nodes, raw_meta, raw_control.
  cbn [RawMeta.body_size RawMeta.data_type_size RawMeta.control RawMeta.dim].
  destruct (Control.empty (Meta.control m)); cbn [RawControl.node_size];
    split_and!; try done; apply Hk; lia.
Qed.

(** Cutting the buffer after the last node commutes with writing the nodes. *)
Lemma take_pack_nodes k ns old :
  Forall node_wf ns → (length ns * sizeof_RawNode ≤ k)%nat →
  (length ns * sizeof_RawNode ≤ length old)%nat →
  take k (pack_nodes ns old) = pack_nodes ns (take k old).
Proof.
  intros Hns. revert k old. induction Hns as [|n ns Hn Hns IH]; intros k old Hk Ho; [done|].
  cbn [length pack_nodes] in *.
  assert (length (take sizeof_RawNode old) = sizeof_RawNode) as Ht by (rewrite length_take; lia).
  assert (length (write_fields 0 RawNode.layout (RawNode.to_fields (raw_node n))
            (take sizeof_RawNode old)) = sizeof_RawNode) as Hw.
  { rewrite length_write_fields; [done|by apply raw_node_lengths, Hn|]. rewrite Ht. vm_compute. lia. }
  rewrite take_app_ge, Hw by lia. rewrite IH by (rewrite ?length_drop; lia).
  rewrite take_take, Nat.min_l by lia. rewrite take_drop_commute.
  by replace (sizeof_RawNode + (k - sizeof_RawNode))%nat with k by lia.
Qed.

Lemma raw_control_transmitted m :
  let c := Meta.control m in
  Control.cmd_of_Z (RawControl.cmd (raw_control c)) = Some (Control.cmd c) ∧
  Control.mk (Control.cmd c) (packed_nodes m) (RawControl.barrier_group (raw_control c))
    (RawControl.msg_sig (raw_control c)) = transmitted_control c.
Proof.
  simpl. unfold packed_nodes, raw_control, transmitted_control, Control.empty.
  destruct (Control.cmd (Meta.control m)) eqn:E; split; simpl; rewrite ?E; done.
Qed.

(** The parts of a packed message. *)
Definition packed (tr : bool) (m : Meta.t) (old : list byte) : list byte :=
  write_fields 0 RawMeta.layout (RawMeta.to_fields (raw_meta tr m)) (RawMeta.zeros sizeof_RawMeta)
  ++ Meta.body m ++ enc_array 4 (map DataType.to_Z (Meta.data_type m)) ++ pack_nodes (packed_nodes m) old.

Lemma length_pack_nodes ns old :
  Forall node_wf ns → (length ns * sizeof_RawNode ≤ length old)%nat → length (pack_nodes ns old) = length old.
Proof.
  intros Hns. revert old. induction Hns as [|n ns Hn Hns IH]; intros old Hlen; [done|].
  cbn [length pack_nodes] in *. rewrite length_app, length_write_fields.
  - rewrite IH by (rewrite length_drop; lia). rewrite length_take, length_drop. lia.
  - by apply raw_node_lengths, Hn.
  - rewrite length_take, Nat.min_l by lia. vm_compute. lia.
Qed.

Lemma length_header tr m :
  (length (Meta.shape m) ≤ 8)%nat →
  length (write_fields 0 RawMeta.layout (RawMeta.to_fields (raw_meta tr m)) (RawMeta.zeros sizeof_RawMeta))
    = sizeof_RawMeta.
Proof. intros. rewrite length_write_fields; [done|by apply raw_meta_lengths|vm_compute; lia]. Qed.

(** The header of a packed message. *)
Lemma read_header tr m rest :
  meta_wf m →
  RawMeta.of_fields (read_fields 0 RawMeta.layout (take sizeof_RawMeta
    (write_fields 0 RawMeta.layout (RawMeta.to_fields (raw_meta tr m)) (RawMeta.zeros sizeof_RawMeta) ++ rest)))
    = Some (raw_meta tr m).
Proof.
  intros Hwf. pose proof Hwf as (_ & _ & _ & Hs & _).
  rewrite take_app_length' by (by rewrite length_header).
  rewrite <- (app_nil_r (write_fields _ _ _ _)), read_write_fields
    by (by apply raw_meta_lengths || (vm_compute; lia)).
  by apply raw_meta_roundtrip.
Qed.

(** Unpacking what the parts of a packed message concatenate to. *)
Lemma unpack_parts tr m m0 old :
  meta_wf m → Control.node (Meta.control m0) = [] → Meta.shape m0 = [] →
  (length (packed_nodes m) * sizeof_RawNode ≤ length old)%nat →
  UnpackMeta tr (packed tr m old) m0 = Ok (transmitted tr m m0).
Proof.
  intros Hwf Hn0 Hs0 Hold.
  destruct (raw_meta_sizes tr m Hwf) as (Eb & Ed & En & Edim).
  pose proof Hwf as Hwf0. destruct Hwf as (_ & _ & H8 & Hs & _ & _ & _ & Hnodes & _).
  pose proof (length_header tr m Hs) as Hh. unfold packed, UnpackMeta.
  rewrite bool_decide_eq_true_2 by (rewrite length_app; lia).
  rewrite read_header, drop_app_length' by done. cbn [mbind result_bind from_option_or].
  rewrite Eb, Ed, En, Edim, !Nat2Z.id.
  rewrite !(proj2 (Z.leb_le 0 _)) by lia. rewrite (proj2 (Z.leb_le _ 8)) by lia.
  rewrite bool_decide_eq_true_2 by (rewrite length_app; lia).
  rewrite take_app_length, drop_app_length.
  rewrite bool_decide_eq_true_2 by (rewrite length_app, length_enc_array, length_map; lia).
  rewrite dec_data_types.
  rewrite unpack_pack_data_types. cbn [mbind result_bind].
  change (RawMeta.src_dev_type (raw_meta tr m)) with (DeviceType.to_Z (Meta.src_dev_type m)).
  change (RawMeta.dst_dev_type (raw_meta tr m)) with (DeviceType.to_Z (Meta.dst_dev_type m)).
  rewrite !DeviceType.device_of_to. cbn [enum from_option_or mbind result_bind].
  change (RawMeta.control (raw_meta tr m)) with (raw_control (Meta.control m)).
  destruct (raw_control_transmitted m) as (-> & Hctrl). cbn [enum from_option_or mbind result_bind].
  rewrite drop_app_length' by (by rewrite length_enc_array, length_map).
  rewrite unpack_pack_nodes by (try assumption; unfold packed_nodes; by case_match).
  cbn [mbind result_bind]. rewrite Hn0, Hs0, !app_nil_l, Hctrl. split_forall.
  change (RawMeta.is_tensor (raw_meta tr m)) with (Meta.is_tensor m).
  change (RawMeta.dtype (raw_meta tr m)) with (Meta.dtype m).
  rewrite !swrap_small by done. unfold raw_meta. cbn [RawMeta.shape]. rewrite take_app_length.
  by destruct tr, m.
Qed.

(** [PackMeta] fills the first [GetPackMetaLen] bytes of its buffer. *)
Lemma PackMeta_packed trace QP_NUM m meta_buf new_char :
  let buf := match meta_buf with Some b => b | None => new_char (GetPackMetaLen m + 1) end in
  meta_wf m → QP_NUM ≤ Z.of_nat QP_MAX_NUM → GetPackMetaLen m ≤ Z.of_nat (length buf) →
  ∃ buf' old, PackMeta trace QP_NUM m meta_buf new_char = Ok (buf', GetPackMetaLen m) ∧
    length buf' = length buf ∧ take (Z.to_nat (GetPackMetaLen m)) buf' = packed trace m old ∧
    (length (packed_nodes m) * sizeof_RawNode ≤ length old)%nat.
Proof.
  intros buf Hwf Hqp Hfit. pose proof Hwf as (_ & _ & _ & Hs & _ & _ & _ & Hnodes & Hsz).
  unfold PackMeta. fold buf. clearbody buf.
  set (fixed := (sizeof_RawMeta + length (Meta.body m) + length (Meta.data_type m) * 4)%nat) in *.
  assert (GetPackMetaLen m = Z.of_nat (fixed + length (Control.node (Meta.control m)) * sizeof_RawNode))
    as Hlen.
  { unfold GetPackMetaLen. apply swrap_small; [lia|]. fold fixed. word_lia. }
  assert (length (packed_nodes m) ≤ length (Control.node (Meta.control m)))%nat as Hle
    by (unfold packed_nodes; case_match; simpl; lia).
  assert (Forall node_wf (packed_nodes m)) as Hpn by (unfold packed_nodes; by case_match).
  pose proof (Nat.mul_le_mono_r _ _ sizeof_RawNode Hle).
  rewrite (bool_decide_eq_true_2 (_ ≤ length buf)%nat) by lia.
  rewrite bool_decide_eq_true_2
    by (eapply Forall_impl; [exact Hpn|]; intros n (_ & ? & _); lia).
  rewrite (proj2 (Z.leb_le _ _) Hqp), bool_decide_eq_true_2 by done.
  assert (take (Z.to_nat (GetPackMetaLen m))
    (write_fields 0 RawMeta.layout (RawMeta.to_fields (raw_meta trace m)) (RawMeta.zeros sizeof_RawMeta) ++
     Meta.body m ++ enc_array 4 (map DataType.to_Z (Meta.data_type m)) ++ pack_nodes (packed_nodes m) (drop fixed buf))
    = packed trace m (take (length (Control.node (Meta.control m)) * sizeof_RawNode) (drop fixed buf))) as Htake.
  { rewrite Hlen, Nat2Z.id. unfold fixed at 1. rewrite <- !Nat.add_assoc.
    rewrite take_app_add' by (by rewrite length_header).
    rewrite take_app_add, take_app_add' by (by rewrite length_enc_array, length_map). unfold packed.
    do 3 f_equal. apply take_pack_nodes; [exact Hpn|lia|rewrite length_drop; lia]. }
  eexists _, _. split; [reflexivity|]. split; [|split; [exact Htake|rewrite length_take, length_drop; lia]].
  rewrite !length_app, length_enc_array, length_map, (length_header trace m Hs).
  rewrite length_pack_nodes; [rewrite length_drop; lia|exact Hpn|rewrite length_drop; lia].
Qed.

(** Bytes after the packed nodes do not matter. *)
Lemma pack_nodes_app ns old rest :
  (length ns * sizeof_RawNode ≤ length old)%nat → pack_nodes ns (old ++ rest) = pack_nodes ns old ++ rest.
Proof.
  revert old. induction ns as [|n ns IH]; intros old Hlen; [done|]. cbn [length pack_nodes] in *.
  rewrite take_app_le, drop_app_le by lia. rewrite IH by (rewrite length_drop; lia). by rewrite app_assoc.
Qed.

Lemma GetPackMetaLen_range m : meta_wf m → 0 ≤ GetPackMetaLen m < 2 ^ 31.
Proof.
  intros (_ & _ & _ & _ & _ & _ & _ & _ & Hsz). unfold GetPackMetaLen. rewrite swrap_small by (lia || word_lia). lia.
Qed.

(** What the transports rely on: the bytes of a packed meta datum, also at the
    start of a longer buffer, have the header of what was sent and unpack to it. *)
Definition wire_of (m : Meta.t) (mb : list byte) : Prop :=
  Z.of_nat (length mb) = GetPackMetaLen m ∧ (sizeof_RawMeta ≤ length mb)%nat ∧
  (∀ rest, RawMeta.of_fields (read_fields 0 RawMeta.layout (take sizeof_RawMeta (mb ++ rest))) = Some (raw_meta false m)) ∧
  ∀ m0 rest, Control.node (Meta.control m0) = [] → Meta.shape m0 = [] →
    UnpackMeta false (mb ++ rest) m0 = Ok (transmitted false m m0).

Lemma PackMeta_wire_of QP_NUM m meta_buf new_char :
  let buf := match meta_buf with Some b => b | None => new_char (GetPackMetaLen m + 1) end in
  meta_wf m → QP_NUM ≤ Z.of_nat QP_MAX_NUM → GetPackMetaLen m ≤ Z.of_nat (length buf) →
  ∃ buf' mb, PackMeta false QP_NUM m meta_buf new_char = Ok (buf', GetPackMetaLen m) ∧
    take (Z.to_nat (GetPackMetaLen m)) buf' = mb ∧ wire_of m mb.
Proof.
  intros buf Hwf Hqp Hfit. pose proof (GetPackMetaLen_range m Hwf) as Hlen. pose proof Hwf as (_ & _ & _ & Hs & _).
  destruct (PackMeta_packed false QP_NUM m meta_buf new_char Hwf Hqp Hfit) as (buf' & old & Hp & Hb & Ht & Ho). fold buf in Hb. clearbody buf.
  eexists buf', _. split; [exact Hp|]. split; [reflexivity|]. unfold wire_of. rewrite Ht.
  split; [apply (f_equal length) in Ht; rewrite length_take in Ht; set (len := GetPackMetaLen m) in *; clearbody len; lia|].
  split; [unfold packed; rewrite length_app, length_header by done; lia|]. split.
  - intros rest. unfold packed. rewrite <-app_assoc. by apply read_header.
  - intros m0 rest Hn Hs0. replace (packed false m old ++ rest) with (packed false m (old ++ rest)).
    + apply unpack_parts; [done..|]. rewrite length_app. lia.
    + unfold packed. rewrite pack_nodes_app by done. by rewrite <-!app_assoc.
Qed.

Lemma PackMeta_wire QP_NUM m new_char :
  meta_wf m → QP_NUM ≤ Z.of_nat QP_MAX_NUM → (∀ n, 0 ≤ n → length (new_char n) = Z.to_nat n) →
  ∃ buf mb, PackMeta false QP_NUM m None new_char = Ok (buf, GetPackMetaLen m) ∧
    take (Z.to_nat (GetPackMetaLen m)) buf = mb ∧ Z.of_nat (length mb) = GetPackMetaLen m ∧
    ∀ m0 rest, Control.node (Meta.control m0) = [] → Meta.shape m0 = [] →
      UnpackMeta false (mb ++ rest) m0 = Ok (transmitted false m m0).
Proof.
  intros Hwf Hqp Hnew. pose proof (GetPackMetaLen_range m Hwf) as Hlen.
  destruct (PackMeta_wire_of QP_NUM m None new_char Hwf Hqp) as (buf & mb & Hp & Ht & Hl & _ & _ & Hu); [rewrite Hnew; lia|].
  exists buf, mb. exact (conj Hp (conj Ht (conj Hl Hu))).
Qed.

(** ** Properties *)

(** C11. Meta data survive the wire: packing a well-formed meta datum, into the
    caller's buffer or a new one, succeeds and fills [GetPackMetaLen] bytes;
    unpacking exactly those bytes gives the receiver the sender's meta datum,
    apart from the fields that do not travel. *)
Theorem pack_unpack_meta trace QP_NUM m m0 meta_buf new_char :
  meta_wf m → QP_NUM ≤ Z.of_nat QP_MAX_NUM →
  Control.node (Meta.control m0) = [] → Meta.shape m0 = [] →
  (∀ n, 0 ≤ n → length (new_char n) = Z.to_nat n) →
  (∀ b, meta_buf = Some b → GetPackMetaLen m ≤ Z.of_nat (length b)) →
  ∃ buf, PackMeta trace QP_NUM m meta_buf new_char = Ok (buf, GetPackMetaLen m) ∧
    UnpackMeta trace (take (Z.to_nat (GetPackMetaLen m)) buf) m0 = Ok (transmitted trace m m0).
Proof.
  intros Hwf Hqp Hn0 Hs0 Hnew Hbuf.
  destruct (PackMeta_packed trace QP_NUM m meta_buf new_char Hwf Hqp) as (buf & old & Hp & _ & Ht & Ho).
  { destruct meta_buf as [b|]; [by apply Hbuf|].
    assert (0 ≤ GetPackMetaLen m) as H0; [|rewrite Hnew; lia].
    destruct Hwf as (_ & _ & _ & _ & _ & _ & _ & _ & Hsz). unfold GetPackMetaLen.
    rewrite swrap_small by (lia || word_lia). lia. }
  exists buf. split; [done|]. rewrite Ht. by apply unpack_parts.
Qed.

Definition demo_node : Node.t :=
  {| Node.role := Node.WORKER; Node.id := 9; Node.customer_id := 0;
     Node.hostname := bytes_of "10.0.0.7";
     Node.num_ports := 1; Node.ports := replicate 32 8000; Node.dev_types := replicate 32 1;
     Node.dev_ids := replicate 32 0; Node.port := 8000; Node.is_recovery := false;
     Node.endpoint_name := replicate 64 x41; Node.endpoint_name_len := 12;
     Node.aux_id := -1 |}.
Definition demo_meta : Meta.t :=
  Meta.default <| Meta.app_id := 3 |> <| Meta.timestamp := 41 |> <| Meta.request := true |>
    <| Meta.body := [x68; x69] |> <| Meta.data_type := [DataType.UINT64; DataType.CHAR] |>
    <| Meta.shape := [2; 3; -1] |> <| Meta.is_tensor := 1 |> <| Meta.key := 2 ^ 63 |>
    <| Meta.control := Control.mk Control.BARRIER [demo_node; demo_node] 7 0 |>.

Lemma pack_unpack_meta_witness :
  ∃ buf, PackMeta false 2 demo_meta None (λ n, replicate (Z.to_nat n) xff)
           = Ok (buf, GetPackMetaLen demo_meta) ∧
    UnpackMeta false (take (Z.to_nat (GetPackMetaLen demo_meta)) buf) Meta.default
    = Ok (transmitted false demo_meta Meta.default).
Proof.
  apply (pack_unpack_meta false 2 demo_meta Meta.default None).
  - apply (bool_decide_unpack _). vm_compute. exact I.
  - vm_compute. discriminate.
  - reflexivity.
  - reflexivity.
  - intros. apply length_replicate.
  - intros b Hb. discriminate Hb.
Defined.

(** What packing cannot carry: with a tensor of more than eight dimensions,
    or a control message that lists a node with a host name of more than 64
    bytes, [PackMeta] writes outside the arrays of its structs. *)
Theorem pack_meta_overflow trace QP_NUM m meta_buf new_char :
  (8 < length (Meta.shape m))%nat ∨
  Exists (λ n, 64 < length (Node.hostname n))%nat (packed_nodes m) →
  ∃ what, PackMeta trace QP_NUM m meta_buf new_char = Err (Undefined what).
Proof.
  intros Hover. unfold PackMeta. cbv zeta.
  case_bool_decide; [|eauto]. case_bool_decide as Hh; [|eauto].
  destruct (QP_NUM <=? _); [|eauto].
  case_bool_decide; [|eauto]. exfalso. destruct Hover as [|Hover]; [lia|].
  apply Exists_exists in Hover as (n & Hn & Hlen).
  rewrite Forall_forall in Hh. specialize (Hh n Hn). lia.
Qed.

Lemma pack_meta_overflow_witness :
  ∃ what, PackMeta false 2 (Meta.default <| Meta.shape := replicate 9 1 |>) None
            (λ n, replicate (Z.to_nat n) x00) = Err (Undefined what).
Proof. apply pack_meta_overflow. left. simpl. lia. Defined.

(** A host name that fills its 64 bytes is sent without an end: the
    receiver's copy of the C string runs past the field. *)
Theorem hostname_64_has_no_end n old :
  node_fits n → length old = sizeof_RawNode →
  length (Node.hostname n) = 64%nat → Forall (λ b, b ≠ x00) (Node.hostname n) →
  unpack_node (write_fields 0 RawNode.layout (RawNode.to_fields (raw_node n)) old)
  = Err (Undefined "hostname has no end").
Proof.
  intros Hn Hold Hlen Hz. rewrite <- (app_nil_r (write_fields _ _ _ _)).
  rewrite unpack_packed by done.
  unfold zero_fill. rewrite Hlen. simpl. rewrite app_nil_r.
  assert (c_string (Node.hostname n) = None) as ->; [|done].
  clear -Hz. induction Hz as [|b s Hb _ IH]; simpl; [done|].
  rewrite bool_decide_eq_false_2 by done. by rewrite IH.
Qed.

Lemma hostname_64_has_no_end_witness :
  unpack_node (write_fields 0 RawNode.layout
    (RawNode.to_fields (raw_node (demo_node <| Node.hostname := replicate 64 x61 |>)))
    (replicate sizeof_RawNode x00)) = Err (Undefined "hostname has no end").
Proof.
  apply hostname_64_has_no_end.
  - apply (bool_decide_unpack _). vm_compute. exact I.
  - apply length_replicate.
  - reflexivity.
  - apply (bool_decide_unpack _). vm_compute. exact I.
Defined.
