(* ===== verification/Resender.v ===== *)
(** * Resender (src/resender.h)

    Messages that are not acknowledged in time are sent again; the receiver
    answers every copy and lets only the first one through.  The state is that
    of one van's resender; the messages it sends are returned to the caller,
    the van. *)

From S2P Require Import Prelude Message.

(** An entry of the send buffer. *)
Record Entry : Type := mkEntry { ent_msg : Message.t; ent_send : Z; num_retry : Z }.

Module Resender.
Record t : Type := mk {
  send_buff_ : gmap Z Entry;
  acked_ : gset Z;
  timeout_ : Z;
  max_num_retry_ : Z
}.
Definition new (timeout max_num_retry : Z) : t := mk ∅ ∅ timeout max_num_retry.
End Resender.
Import Resender.

(** [GetKey]: application, sender, receiver, time stamp and request bit, in 16,
    8, 8 and 32 bits.  [my_id] is [van_->my_node().id], which is a failed check
    on a van that is not ready.  The shifted time stamp is an [int], converted
    to [uint64_t] with its sign. *)
Definition GetKey (my_id : result Z) (msg : Message.t) : result Z :=
  let m := Message.meta msg in
  check! bool_decide (Meta.timestamp m ≠ kEmpty) or "msg.meta.timestamp";
  sender ← (if bool_decide (Meta.sender m = kEmpty) then my_id else Ok (Meta.sender m));
  Ok (Z.lor (Z.lor (Z.lor (Z.lor (Z.shiftl (u16 (Meta.app_id m)) 48)
                                 (Z.shiftl (u8 sender) 40))
                          (Z.shiftl (u8 (Meta.recver m)) 32))
                   (u64 (i32 (Z.shiftl (Meta.timestamp m) 1))))
            (Z.b2z (Meta.request m))).

Definition is_ack (msg : Message.t) : bool :=
  bool_decide (Control.cmd (Meta.control (Message.meta msg)) = Control.ACK).

Definition AddOutgoing (my_id : result Z) (now : Z) (msg : Message.t) (r : t) : result t :=
  if is_ack msg then Ok r
  else
    check! bool_decide (Meta.timestamp (Message.meta msg) ≠ kEmpty) or "msg.meta.timestamp";
    key ← GetKey my_id msg;
    match send_buff_ r !! key with
    | Some _ => Ok r
    | None => Ok (r <| send_buff_ ::= (λ m, <[key := mkEntry msg now 0]> m) |>)
    end.

(** The acknowledgement of [msg]. *)
Definition ack_for (msg : Message.t) (key : Z) : Message.t :=
  Message.mk
    (Meta.default <| Meta.recver := Meta.sender (Message.meta msg) |>
                  <| Meta.sender := Meta.recver (Message.meta msg) |>
                  <| Meta.control := Control.mk Control.ACK [] 0 key |>) [].

(** [AddIncomming]: whether the van is to ignore the message, and the
    acknowledgement the van is to send. *)
Definition AddIncomming (my_id : result Z) (msg : Message.t) (r : t)
    : result (bool * option Message.t * t) :=
  let c := Meta.control (Message.meta msg) in
  if bool_decide (Control.cmd c = Control.TERMINATE) then Ok (false, None, r)
  else if bool_decide (Control.cmd c = Control.ACK) then
    Ok (true, None, r <| send_buff_ ::= delete (Control.msg_sig c) |>)
  else
    key ← GetKey my_id msg;
    let duplicated := bool_decide (key ∈ acked_ r) in
    let r' := if duplicated then r else r <| acked_ ::= (λ s, {[key]} ∪ s) |> in
    Ok (duplicated, Some (ack_for msg key), r').

(** One round of [Monitoring] at time [now]: the entries whose deadline has
    passed are sent again. *)
Definition overdue (r : t) (now : Z) (e : Entry) : bool :=
  ent_send e + timeout_ r * (1 + num_retry e) <? now.

Definition monitor_entry (r : t) (now : Z) (e : Entry) : Entry :=
  if overdue r now e then e <| num_retry ::= Z.succ |> else e.

Definition Monitoring (now : Z) (r : t) : result (list Message.t * t) :=
  let due := List.filter (λ ke, overdue r now ke.2) (map_to_list (send_buff_ r)) in
  check! forallb (λ ke, num_retry ke.2 + 1 <? max_num_retry_ r) due or "num_retry";
  Ok (map (λ ke, ent_msg ke.2) due,
      r <| send_buff_ := monitor_entry r now <$> send_buff_ r |>).

(** ** Keys *)
Definition key_fields_ok (m : Meta.t) : Prop :=
  in_u 16 (Meta.app_id m) ∧ in_u 8 (Meta.sender m) ∧ in_u 8 (Meta.recver m) ∧
  0 ≤ Meta.timestamp m < 2 ^ 30 ∧ Meta.timestamp m ≠ kEmpty.

#[export] Instance key_fields_ok_dec m : Decision (key_fields_ok m).
Proof. unfold key_fields_ok. apply _. Defined.

(** The key as a sum: the fields do not overlap. *)
Lemma lor_disjoint a b n : 0 ≤ n → 0 ≤ b < 2 ^ n → Z.lor (Z.shiftl a n) b = a * 2 ^ n + b.
Proof.
  intros Hn Hb. rewrite Z.shiftl_mul_pow2 by lia.
  assert (Z.land (a * 2 ^ n) b = 0) as H0.
  { apply Z.bits_inj'; intros i Hi. rewrite Z.land_spec, Z.bits_0.
    destruct (decide (i < n)); [by rewrite Z.mul_pow2_bits_low by lia|].
    rewrite <- (Z.mod_small b (2 ^ n)), Z.mod_pow2_bits_high by lia. apply andb_false_r. }
  by rewrite <- Z.lxor_lor, <- Z.add_nocarry_lxor.
Qed.

Lemma GetKey_sum my_id msg :
  key_fields_ok (Message.meta msg) →
  let m := Message.meta msg in
  GetKey my_id msg =
  Ok (((Meta.app_id m * 2 ^ 8 + Meta.sender m) * 2 ^ 8 + Meta.recver m) * 2 ^ 32
      + Meta.timestamp m * 2 + Z.b2z (Meta.request m)).
Proof.
  intros (Ha & Hs & Hr & Ht & Hne) m. unfold GetKey. fold m in Ha, Hs, Hr, Ht, Hne |- *.
  rewrite bool_decide_eq_true_2 by done.
  rewrite bool_decide_eq_false_2 by (unfold kEmpty, in_u in *; lia).
  cbn [mbind result_bind]. f_equal.
  rewrite (Z.shiftl_mul_pow2 (Meta.timestamp m) 1), swrap_small, !uwrap_small by word_lia.
  assert (0 ≤ Z.b2z (Meta.request m) < 2) by (destruct (Meta.request m); simpl; lia).
  unfold in_u in *.
  rewrite <- (Z.lor_assoc _ (Meta.timestamp m * 2 ^ 1)).
  rewrite <- (Z.shiftl_mul_pow2 (Meta.timestamp m) 1), (lor_disjoint (Meta.timestamp m)) by lia.
  assert (0 ≤ Meta.timestamp m * 2 ^ 1 + Z.b2z (Meta.request m) < 2 ^ 32) by lia.
  set (low := Meta.timestamp m * 2 ^ 1 + Z.b2z (Meta.request m)) in *.
  rewrite <- !Z.lor_assoc, (lor_disjoint (Meta.recver m)), (lor_disjoint (Meta.sender m)),
    (lor_disjoint (Meta.app_id m)) by lia.
  unfold low. lia.
Qed.

(** Message signatures: among messages whose application id fits 16 bits,
    whose node ids fit 8 bits and whose time stamp is below 2^30, two messages
    have the same key only if they agree on application, sender, receiver,
    time stamp and request bit. *)
Theorem resend_key_injective id1 id2 msg1 msg2 :
  key_fields_ok (Message.meta msg1) → key_fields_ok (Message.meta msg2) →
  GetKey id1 msg1 = GetKey id2 msg2 →
  let m1 := Message.meta msg1 in
  let m2 := Message.meta msg2 in
  Meta.app_id m1 = Meta.app_id m2 ∧ Meta.sender m1 = Meta.sender m2 ∧
  Meta.recver m1 = Meta.recver m2 ∧ Meta.timestamp m1 = Meta.timestamp m2 ∧
  Meta.request m1 = Meta.request m2.
Proof.
  intros H1 H2. rewrite !GetKey_sum by done. intros [= Heq].
  destruct H1 as (Ha1 & Hs1 & Hr1 & Ht1 & _), H2 as (Ha2 & Hs2 & Hr2 & Ht2 & _).
  unfold in_u in *. cbv zeta.
  destruct (Meta.request (Message.meta msg1)), (Meta.request (Message.meta msg2));
    cbn [Z.b2z] in Heq; pow2; split_and!; try lia; exfalso; lia.
Qed.

Definition demo_msg (app sender recver ts : Z) : Message.t :=
  Message.mk (Meta.default <| Meta.app_id := app |> <| Meta.sender := sender |>
    <| Meta.recver := recver |> <| Meta.timestamp := ts |> <| Meta.request := true |>) [].

Lemma resend_key_injective_witness :
  GetKey (Ok 1) (demo_msg 0 9 8 5) ≠ GetKey (Ok 1) (demo_msg 0 11 8 5).
Proof.
  intros H.
  assert (key_fields_ok (Message.meta (demo_msg 0 9 8 5))) as H1
    by (apply (bool_decide_unpack _); vm_compute; exact I).
  assert (key_fields_ok (Message.meta (demo_msg 0 11 8 5))) as H2
    by (apply (bool_decide_unpack _); vm_compute; exact I).
  destruct (resend_key_injective (Ok 1) (Ok 1) _ _ H1 H2 H) as (_ & Hs & _).
  discriminate Hs.
Defined.

(** ** Incoming messages *)

(** A message that is neither the end of the loop nor an acknowledgement. *)
Definition regular (msg : Message.t) : Prop :=
  let c := Control.cmd (Meta.control (Message.meta msg)) in
  c ≠ Control.TERMINATE ∧ c ≠ Control.ACK.

#[export] Instance regular_dec msg : Decision (regular msg).
Proof. unfold regular. apply _. Defined.

Lemma AddIncomming_regular my_id msg r :
  regular msg →
  AddIncomming my_id msg r =
  key ← GetKey my_id msg;
  Ok (bool_decide (key ∈ acked_ r), Some (ack_for msg key), r <| acked_ ::= (λ s, {[key]} ∪ s) |>).
Proof.
  intros [Ht Ha]. unfold AddIncomming. rewrite !bool_decide_eq_false_2 by done.
  destruct (GetKey my_id msg) as [key|]; [|done]. cbn [mbind result_bind].
  case_bool_decide as Hin; [|done].
  assert ({[key]} ∪ acked_ r = acked_ r) as E by (apply subseteq_union_1_L; set_solver).
  destruct r as [sb ak to mx]. unfold set. cbn in *. by rewrite E.
Qed.

(** The receiving loop's use of the resender: the messages let through and
    the acknowledgements sent. *)
Fixpoint receive_all (my_id : result Z) (msgs : list Message.t) (r : t)
    : result (list Message.t * list Message.t * t) :=
  match msgs with
  | [] => Ok ([], [], r)
  | msg :: msgs' =>
      x ← AddIncomming my_id msg r;
      let '(ignored, ack, r1) := x in
      y ← receive_all my_id msgs' r1;
      let '(accepted, acks, r2) := y in
      Ok ((if (ignored : bool) then accepted else msg :: accepted),
          option_list ack ++ acks, r2)
  end.

(** C19. At most once, acknowledged always: when copies of messages arrive in
    any order and number, the messages let through have pairwise different
    keys, none of them seen before; every key that arrives is let through once
    unless it was seen before; and every copy is acknowledged with its key. *)
Theorem duplicates_filtered my_id msgs r keys :
  Forall regular msgs → mapM (GetKey my_id) msgs = Ok keys →
  ∃ accepted acks r',
    receive_all my_id msgs r = Ok (accepted, acks, r') ∧
    (∃ akeys, mapM (GetKey my_id) accepted = Ok akeys ∧ NoDup akeys ∧
      (∀ k, k ∈ akeys ↔ k ∈ keys ∧ k ∉ acked_ r)) ∧
    map (λ a, Control.msg_sig (Meta.control (Message.meta a))) acks = keys ∧
    acked_ r' = acked_ r ∪ list_to_set keys.
Proof.
  intros Hreg. revert r keys. induction Hreg as [|msg msgs Hm _ IH]; intros r keys Hk.
  { injection Hk as <-. eexists _, _, _. split; [reflexivity|].
    split; [exists []; split_and!; [done|apply NoDup_nil_2|set_solver]|].
    split; [done|set_solver]. }
  cbn [mapM] in Hk. apply bind_Ok in Hk as (k & Hk & (ks & Hks & [= <-])%bind_Ok).
  set (r1 := r <| acked_ ::= (λ s, {[k]} ∪ s) |>).
  destruct (IH r1 ks Hks) as (acc & acks & r' & Hrec & (akeys & Hak & Hnd & Hel) & Hacks & Hr').
  assert (acked_ r1 = {[k]} ∪ acked_ r) as Hr1 by done. rewrite Hr1 in Hel, Hr'.
  eexists _, _, r'. split.
  { cbn [receive_all]. rewrite AddIncomming_regular, Hk by done. cbn [mbind result_bind].
    fold r1. rewrite Hrec. reflexivity. }
  split; [|split; [simpl; by rewrite Hacks|rewrite Hr'; clear; set_solver]].
  case_bool_decide as Hin.
  - exists akeys. split_and!; [done..|]. intros k'. rewrite Hel. clear -Hin. set_solver.
  - exists (k :: akeys). cbn [mapM]. rewrite Hk, Hak. split_and!; [done| |].
    + apply NoDup_cons. split; [|done]. rewrite Hel. clear. set_solver.
    + intros k'. rewrite !elem_of_cons, Hel. clear -Hin.
      destruct (decide (k' = k)) as [->|]; set_solver.
Qed.

Lemma duplicates_filtered_witness :
  ∃ accepted acks r',
    receive_all (Ok 1) [demo_msg 0 9 8 5; demo_msg 0 9 8 5; demo_msg 0 9 8 6] (new 1000 10)
    = Ok (accepted, acks, r').
Proof.
  destruct (duplicates_filtered (Ok 1) [demo_msg 0 9 8 5; demo_msg 0 9 8 5; demo_msg 0 9 8 6]
    (new 1000 10) [9929964388363; 9929964388363; 9929964388365]) as (a & b & c & H & _).
  - apply (bool_decide_unpack _). vm_compute. exact I.
  - vm_compute. reflexivity.
  - exists a, b, c. exact H.
Defined.

(** Node ids beyond 8 bits: after a message from node [s], a message from
    node [s + 256] with the same application, receiver, time stamp and request
    bit counts as a duplicate, and is ignored. *)
Theorem resender_confuses_senders my_id msg r msg' :
  regular msg → Meta.timestamp (Message.meta msg) ≠ kEmpty →
  Meta.sender (Message.meta msg) ≠ kEmpty → Meta.sender (Message.meta msg) + 256 ≠ kEmpty →
  msg' = msg <| Message.meta ::= (λ m, m <| Meta.sender ::= Z.add 256 |>) |> →
  ∃ d a r1 a', AddIncomming my_id msg r = Ok (d, a, r1) ∧
               AddIncomming my_id msg' r1 = Ok (true, a', r1).
Proof.
  intros Hreg Hts Hs Hs' ->.
  assert (GetKey my_id (msg <| Message.meta ::= (λ m, m <| Meta.sender ::= Z.add 256 |>) |>)
          = GetKey my_id msg) as Hkey.
  { unfold GetKey. cbn. rewrite !bool_decide_eq_true_2 by done.
    rewrite !bool_decide_eq_false_2 by lia. cbn [mbind result_bind].
    assert (u8 (256 + Meta.sender (Message.meta msg)) = u8 (Meta.sender (Message.meta msg))) as ->.
    { unfold uwrap. change (2 ^ 8) with 256.
      replace (256 + Meta.sender (Message.meta msg))
        with (Meta.sender (Message.meta msg) + 1 * 256) by lia.
      by rewrite Z.mod_add by lia. }
    done. }
  assert (∃ k, GetKey my_id msg = Ok k) as [k Hk].
  { unfold GetKey. rewrite bool_decide_eq_true_2, bool_decide_eq_false_2 by done. eauto. }
  rewrite AddIncomming_regular, Hk by done. cbn [mbind result_bind].
  eexists _, _, _, _; split; [reflexivity|].
  rewrite AddIncomming_regular by done. rewrite Hkey, Hk. cbn.
  rewrite bool_decide_eq_true_2 by set_solver.
  do 2 f_equal. destruct r as [sb ak to mx]. unfold set. cbn. f_equal.
  apply subseteq_union_1_L. set_solver.
Qed.

Lemma resender_confuses_senders_witness :
  ∃ d a r1 a', AddIncomming (Ok 1) (demo_msg 0 9 8 5) (new 1000 10) = Ok (d, a, r1) ∧
               AddIncomming (Ok 1) (demo_msg 0 265 8 5) r1 = Ok (true, a', r1).
Proof.
  apply (resender_confuses_senders (Ok 1) (demo_msg 0 9 8 5) (new 1000 10));
    [apply (bool_decide_unpack _); vm_compute; exact I|done..].
Defined.


(** ** Retransmission *)

(** What happens to the resender of a van between its sends: a round of the
    monitor, whose messages go through [Van::Send] and so through [AddOutgoing]
    again, or the acknowledgement [ack_for msg key] that a peer sends. *)
Inductive resend_event : Type :=
| Round (now : Z)
| Acknowledged (msg : Message.t) (key : Z).

Fixpoint send_again (my_id : result Z) (now : Z) (msgs : list Message.t) (r : t) : result t :=
  match msgs with
  | [] => Ok r
  | msg :: msgs' => r1 ← AddOutgoing my_id now msg r; send_again my_id now msgs' r1
  end.

(** The messages each round sends again, and the resender at the end. *)
Fixpoint resend_run (my_id : result Z) (evs : list resend_event) (r : t) : result (list (list Message.t) * t) :=
  match evs with
  | [] => Ok ([], r)
  | Round now :: evs' =>
      x ← Monitoring now r;
      r1 ← send_again my_id now x.1 x.2;
      y ← resend_run my_id evs' r1;
      Ok (x.1 :: y.1, y.2)
  | Acknowledged msg key :: evs' =>
      x ← AddIncomming my_id (ack_for msg key) r;
      resend_run my_id evs' x.2
  end.

(** The reference: one message on its own, sent at time [send], with [n] retries
    so far.  In each round, whether it is sent again; [None] when the retries are
    used up, which is a failed check. *)
Fixpoint fate (timeout max key send n : Z) (evs : list resend_event) : option (list bool * option Z) :=
  match evs with
  | [] => Some ([], Some n)
  | Round now :: evs' =>
      if send + timeout * (1 + n) <? now then
        if n + 1 <? max then
          '(l, o) ← fate timeout max key send (n + 1) evs'; Some (true :: l, o)
        else None
      else '(l, o) ← fate timeout max key send n evs'; Some (false :: l, o)
  | Acknowledged _ key' :: evs' =>
      if key' =? key then Some (replicate (length (List.filter (λ ev, if ev is Round _ then true else false) evs')) false, None)
      else fate timeout max key send n evs'
  end.

Definition fate_of (r : t) (evs : list resend_event) (k : Z) (e : Entry) : option (list bool * option Z) :=
  fate (timeout_ r) (max_num_retry_ r) k (ent_send e) (num_retry e) evs.

(** Whether the message is sent again in round [i]. *)
Definition sent_in (r : t) (evs : list resend_event) (i : nat) (ke : Z * Entry) : bool :=
  if fate_of r evs ke.1 ke.2 is Some (l, _) then default false (l !! i) else false.

(** Every entry is stored under the key of its message. *)
Definition keyed (my_id : result Z) (r : t) : Prop :=
  map_Forall (λ k e, is_ack (ent_msg e) = false ∧ Meta.timestamp (Message.meta (ent_msg e)) ≠ kEmpty ∧
                GetKey my_id (ent_msg e) = Ok k) (send_buff_ r).

#[export] Instance keyed_dec my_id r : Decision (keyed my_id r).
Proof. unfold keyed. apply _. Defined.

(** ** The table against the reference *)
Lemma Permutation_List_filter {A} (f : A → bool) (l l' : list A) :
  l ≡ₚ l' → List.filter f l ≡ₚ List.filter f l'.
Proof.
  induction 1 as [|x l l' _ IH|x y l|l l' l'' _ IH1 _ IH2]; cbn.
  - done.
  - destruct (f x); by rewrite IH.
  - destruct (f x), (f y); try done. by apply perm_swap.
  - by rewrite IH1.
Qed.

Lemma send_again_buffered my_id now msgs r :
  keyed my_id r → (∀ msg, msg ∈ msgs → ∃ k e, send_buff_ r !! k = Some e ∧ ent_msg e = msg) →
  send_again my_id now msgs r = Ok r.
Proof.
  intros Hk. induction msgs as [|msg msgs IH]; intros Hin; [done|].
  destruct (Hin msg ltac:(left)) as (k & e & He & <-).
  destruct (Hk k e He) as (Hack & Hts & Hkey). cbn [send_again]. unfold AddOutgoing.
  rewrite Hack, (bool_decide_eq_true_2 _ Hts), Hkey. cbn [mbind result_bind]. rewrite He.
  cbn [mbind result_bind]. apply IH. intros; apply Hin; by right.
Qed.

(** The resender after a round. *)
Definition after_round (now : Z) (r : t) : t := r <| send_buff_ := monitor_entry r now <$> send_buff_ r |>.

Lemma keyed_after_round my_id now r : keyed my_id r → keyed my_id (after_round now r).
Proof.
  intros Hk k e He. change (send_buff_ (after_round now r)) with (monitor_entry r now <$> send_buff_ r) in He.
  rewrite lookup_fmap in He.
  apply fmap_Some in He as (e0 & He0 & ->). specialize (Hk k e0 He0).
  unfold monitor_entry. by case_match.
Qed.

Lemma Monitoring_cases now r :
  (Monitoring now r = Err (CheckFailed "num_retry") ∧
     ∃ k e, send_buff_ r !! k = Some e ∧ overdue r now e = true ∧ max_num_retry_ r ≤ num_retry e + 1) ∨
  (Monitoring now r = Ok (map (ent_msg ∘ snd) (List.filter (overdue r now ∘ snd) (map_to_list (send_buff_ r))),
                          after_round now r) ∧
     ∀ k e, send_buff_ r !! k = Some e → overdue r now e = true → num_retry e + 1 < max_num_retry_ r).
Proof.
  unfold Monitoring. case_match eqn:Hall; [right|left]; (split; [done|]).
  - intros k e He Hd. rewrite forallb_forall in Hall.
    apply Z.ltb_lt, (Hall (k, e)), filter_In. split; [|done].
    by apply list_elem_of_In, elem_of_map_to_list.
  - apply not_true_iff_false in Hall. rewrite forallb_forall in Hall.
    destruct (decide (Exists (λ ke, overdue r now ke.2 = true ∧ max_num_retry_ r ≤ num_retry ke.2 + 1)
                        (map_to_list (send_buff_ r)))) as [Hex|Hno].
    + apply Exists_exists in Hex as ([k e] & Hin & Hd & Hm). exists k, e. by apply elem_of_map_to_list in Hin.
    + exfalso. apply Hall. intros [k e] [Hin Hd]%filter_In. apply Z.ltb_lt.
      apply Z.lt_nge. intros Hm. apply Hno, Exists_exists. exists (k, e). split; [|by split].
      by apply list_elem_of_In.
Qed.

Lemma fate_of_round r now evs k e :
  fate_of r (Round now :: evs) k e =
  if overdue r now e && negb (num_retry e + 1 <? max_num_retry_ r) then None
  else '(l, o) ← fate_of (after_round now r) evs k (monitor_entry r now e); Some (overdue r now e :: l, o).
Proof.
  unfold fate_of, monitor_entry, overdue. cbn [fate].
  destruct (_ <? now); cbn [andb]; [|done]. by destruct (_ <? max_num_retry_ r).
Qed.

Lemma fate_of_ack r msg key evs k e :
  k ≠ key → fate_of r (Acknowledged msg key :: evs) k e = fate_of (r <| send_buff_ ::= delete key |>) evs k e.
Proof. intros Hne. unfold fate_of. cbn [fate]. by rewrite (proj2 (Z.eqb_neq key k)) by done. Qed.

Lemma AddIncomming_ack my_id msg key r :
  AddIncomming my_id (ack_for msg key) r = Ok (true, None, r <| send_buff_ ::= delete key |>).
Proof. done. Qed.

Definition is_round (ev : resend_event) : bool := if ev is Round _ then true else false.

(** What the reference says of the whole table. *)
Definition table_after (r : t) (evs : list resend_event) (k : Z) : option Entry :=
  e ← send_buff_ r !! k; '(_, o) ← fate_of r evs k e; n ← o; Some (e <| num_retry := n |>).

Definition round_sends (r : t) (evs : list resend_event) (i : nat) : list Message.t :=
  map (ent_msg ∘ snd) (List.filter (sent_in r evs i) (map_to_list (send_buff_ r))).

Definition follows (r : t) (evs : list resend_event) (outs : list (list Message.t)) (r' : t) : Prop :=
  (∀ k e, send_buff_ r !! k = Some e → is_Some (fate_of r evs k e)) ∧
  (∀ k, send_buff_ r' !! k = table_after r evs k) ∧
  length outs = length (List.filter is_round evs) ∧
  ∀ i out, outs !! i = Some out → out ≡ₚ round_sends r evs i.

Lemma run_round my_id now evs r :
  keyed my_id r →
  resend_run my_id (Round now :: evs) r =
  x ← Monitoring now r; y ← resend_run my_id evs x.2; Ok (x.1 :: y.1, y.2).
Proof.
  intros Hk. cbn [resend_run]. destruct (Monitoring_cases now r) as [[-> _]|[-> _]]; [done|].
  cbn [mbind result_bind fst snd]. rewrite send_again_buffered; [done|by apply keyed_after_round|].
  intros msg Hmsg. apply list_elem_of_In, in_map_iff in Hmsg as ([k e] & <- & [Hin _]%filter_In).
  apply list_elem_of_In, elem_of_map_to_list in Hin. exists k, (monitor_entry r now e).
  change (send_buff_ (after_round now r)) with (monitor_entry r now <$> send_buff_ r).
  rewrite lookup_fmap, Hin. split; [done|]. unfold monitor_entry. by case_match.
Qed.

Section round.
Context (r : t) (now : Z) (evs : list resend_event).
Context (Hretry : ∀ k e, send_buff_ r !! k = Some e → overdue r now e = true → num_retry e + 1 < max_num_retry_ r).

Lemma fate_of_round_Ok k e :
  send_buff_ r !! k = Some e →
  fate_of r (Round now :: evs) k e =
  '(l, o) ← fate_of (after_round now r) evs k (monitor_entry r now e); Some (overdue r now e :: l, o).
Proof using Hretry.
  intros He. rewrite fate_of_round. destruct (overdue r now e) eqn:Hd; [|done].
  by rewrite (proj2 (Z.ltb_lt _ _) (Hretry k e He Hd)).
Qed.

Lemma sent_in_later i k e :
  send_buff_ r !! k = Some e →
  sent_in r (Round now :: evs) (S i) (k, e) = sent_in (after_round now r) evs i (k, monitor_entry r now e).
Proof using Hretry.
  intros He. unfold sent_in. cbn [fst snd]. rewrite fate_of_round_Ok by done.
  by destruct (fate_of (after_round now r) evs k _) as [[l o]|].
Qed.

Lemma lookup_after_round k : send_buff_ (after_round now r) !! k = monitor_entry r now <$> send_buff_ r !! k.
Proof. apply lookup_fmap. Qed.

Lemma round_sends_later i : round_sends r (Round now :: evs) (S i) ≡ₚ round_sends (after_round now r) evs i.
Proof using Hretry.
  unfold round_sends.
  change (send_buff_ (after_round now r)) with (monitor_entry r now <$> send_buff_ r).
  rewrite map_to_list_fmap.
  assert (∀ l, (∀ ke, ke ∈ l → send_buff_ r !! ke.1 = Some ke.2) →
    map (ent_msg ∘ snd) (List.filter (sent_in r (Round now :: evs) (S i)) l) =
    map (ent_msg ∘ snd) (List.filter (sent_in (after_round now r) evs i) (prod_map id (monitor_entry r now) <$> l))) as H.
  { induction l as [|[k e] l IH]; intros Hl; [done|]. cbn [List.filter fmap list_fmap prod_map fst snd].
    rewrite (sent_in_later i k e) by apply (Hl (k, e) ltac:(left)).
    specialize (IH ltac:(intros; apply Hl; by right)). unfold id at 1.
    case_match; [|done]. cbn. f_equal; [|done]. unfold monitor_entry. by case_match. }
  rewrite H; [done|]. intros [k e] Hke. by apply elem_of_map_to_list in Hke.
Qed.

Lemma round_sends_now :
  (∀ k e, send_buff_ r !! k = Some e → is_Some (fate_of (after_round now r) evs k (monitor_entry r now e))) →
  round_sends r (Round now :: evs) 0 =
  map (ent_msg ∘ snd) (List.filter (overdue r now ∘ snd) (map_to_list (send_buff_ r))).
Proof using Hretry.
  intros Hf. unfold round_sends. f_equal. apply filter_ext_in. intros [k e] Hke.
  apply list_elem_of_In, elem_of_map_to_list in Hke. unfold sent_in. cbn [fst snd compose].
  rewrite fate_of_round_Ok by done. by destruct (Hf k e Hke) as [[l o] ->].
Qed.

Lemma follows_round outs r' :
  follows (after_round now r) evs outs r' →
  follows r (Round now :: evs)
    (map (ent_msg ∘ snd) (List.filter (overdue r now ∘ snd) (map_to_list (send_buff_ r))) :: outs) r'.
Proof using Hretry.
  intros (Hf & Ht & Hlen & Hout).
  assert (∀ k e, send_buff_ r !! k = Some e → is_Some (fate_of (after_round now r) evs k (monitor_entry r now e))) as Hf'.
  { intros k e He. apply Hf. by rewrite lookup_after_round, He. }
  split_and!.
  - intros k e He. rewrite fate_of_round_Ok by done. by destruct (Hf' k e He) as [[l o] ->].
  - intros k. rewrite Ht. unfold table_after. rewrite lookup_after_round.
    destruct (send_buff_ r !! k) as [e|] eqn:He; [|done]. cbn [fmap option_fmap option_map mbind option_bind].
    rewrite fate_of_round_Ok by done. destruct (fate_of (after_round now r) evs k _) as [[l [n|]]|]; try done.
    cbn. unfold monitor_entry. by case_match.
  - cbn. by rewrite Hlen.
  - intros [|i] out Hi; cbn in Hi.
    + injection Hi as <-. by rewrite round_sends_now.
    + rewrite round_sends_later. by apply Hout.
Qed.
End round.

Lemma round_sends_ack r msg key evs i :
  round_sends r (Acknowledged msg key :: evs) i ≡ₚ round_sends (r <| send_buff_ ::= delete key |>) evs i.
Proof.
  unfold round_sends. set (r1 := r <| send_buff_ ::= delete key |>).
  assert (∀ l, (∀ ke, ke ∈ l → ke.1 ≠ key) →
    List.filter (sent_in r (Acknowledged msg key :: evs) i) l = List.filter (sent_in r1 evs i) l) as Hext.
  { intros l Hl. apply filter_ext_in. intros ke Hke%list_elem_of_In. unfold sent_in.
    by rewrite fate_of_ack by (by apply Hl). }
  change (send_buff_ r1) with (delete key (send_buff_ r)).
  destruct (send_buff_ r !! key) as [e|] eqn:He.
  - rewrite <- (Permutation_List_filter _ _ _ (map_to_list_delete (send_buff_ r) key e He)).
    cbn [List.filter].
    assert (sent_in r (Acknowledged msg key :: evs) i (key, e) = false) as ->.
    { unfold sent_in, fate_of. cbn [fst fate]. rewrite Z.eqb_refl.
      destruct (replicate _ false !! i) as [b|] eqn:E; [|done].
      by apply lookup_replicate in E as [-> _]. }
    rewrite Hext; [done|]. intros [k e'] Hke%elem_of_map_to_list. cbn. intros ->.
    by rewrite lookup_delete_eq in Hke.
  - rewrite delete_id by done. rewrite Hext; [done|].
    intros [k e'] Hke%elem_of_map_to_list. cbn. intros ->. congruence.
Qed.

Lemma follows_ack r msg key evs outs r' :
  follows (r <| send_buff_ ::= delete key |>) evs outs r' → follows r (Acknowledged msg key :: evs) outs r'.
Proof.
  set (r1 := r <| send_buff_ ::= delete key |>). intros (Hf & Ht & Hlen & Hout).
  assert (∀ k, send_buff_ r1 !! k = if decide (k = key) then None else send_buff_ r !! k) as Hr1.
  { intros k. change (send_buff_ r1) with (delete key (send_buff_ r)).
    destruct (decide (k = key)) as [->|]; [apply lookup_delete_eq|by apply lookup_delete_ne]. }
  split_and!.
  - intros k e He. destruct (decide (k = key)) as [->|Hne].
    + unfold fate_of. cbn [fate]. by rewrite Z.eqb_refl.
    + rewrite fate_of_ack by done. apply Hf. rewrite Hr1, decide_False by done. done.
  - intros k. rewrite Ht. unfold table_after. rewrite Hr1. destruct (decide (k = key)) as [->|Hne].
    + destruct (send_buff_ r !! key) as [e|]; [|done]. cbn [mbind option_bind]. unfold fate_of. cbn [fate].
      by rewrite Z.eqb_refl.
    + destruct (send_buff_ r !! k) as [e|]; [|done]. cbn [mbind option_bind]. by rewrite fate_of_ack.
  - done.
  - intros i out Hi. rewrite round_sends_ack. by apply Hout.
Qed.

Lemma keyed_delete my_id key r : keyed my_id r → keyed my_id (r <| send_buff_ ::= delete key |>).
Proof.
  intros Hk k e He. apply Hk. change (delete key (send_buff_ r) !! k = Some e) in He.
  by apply lookup_delete_Some in He as [_ ?].
Qed.

(** A run either follows the reference or ends at the check of a message whose
    retries are used up. *)
Lemma run_cases my_id evs r :
  keyed my_id r →
  (∃ outs r', resend_run my_id evs r = Ok (outs, r') ∧ follows r evs outs r') ∨
  (resend_run my_id evs r = Err (CheckFailed "num_retry") ∧
     ∃ k e, send_buff_ r !! k = Some e ∧ fate_of r evs k e = None).
Proof.
  revert r. induction evs as [|[now|msg key] evs IH]; intros r Hk.
  - left. exists [], r. split; [done|]. split_and!; [done| |done|done].
    intros k. unfold table_after. destruct (send_buff_ r !! k) as [e|]; [|done]. cbn. by destruct e.
  - rewrite run_round by done. destruct (Monitoring_cases now r) as [(-> & k & e & He & Hd & Hm)|[-> Hretry]].
    + right. split; [done|]. exists k, e. split; [done|]. rewrite fate_of_round, Hd.
      by rewrite (proj2 (Z.ltb_ge _ _) Hm).
    + cbn [mbind result_bind fst snd].
      destruct (IH _ (keyed_after_round my_id now r Hk)) as [(outs & r' & -> & Hfo)|(-> & k & e & He & Hfa)].
      * left. eexists _, _. split; [done|]. by apply follows_round.
      * right. split; [done|]. rewrite lookup_after_round in He. apply fmap_Some in He as (e0 & He0 & ->).
        exists k, e0. split; [done|]. by rewrite (fate_of_round_Ok r now evs Hretry k e0 He0), Hfa.
  - cbn [resend_run]. rewrite AddIncomming_ack. cbn [mbind result_bind snd].
    destruct (IH _ (keyed_delete my_id key r Hk)) as [(outs & r' & -> & Hfo)|(-> & k & e & He & Hfa)].
    + left. eexists _, _. split; [done|]. by apply follows_ack.
    + right. split; [done|]. change (delete key (send_buff_ r) !! k = Some e) in He.
      apply lookup_delete_Some in He as [Hne He]. exists k, e. split; [done|]. by rewrite fate_of_ack.
Qed.

(** A round so late that all retries are overdue. *)
Definition late (deadline : Z) (ev : resend_event) : bool := if ev is Round now then deadline <? now else false.

Lemma fate_gives_up timeout max key send n evs :
  0 ≤ timeout → n < max → (∀ msg, Acknowledged msg key ∉ evs) →
  max - n ≤ Z.of_nat (length (List.filter (late (send + timeout * max)) evs)) →
  fate timeout max key send n evs = None.
Proof.
  intros Ht. revert n. induction evs as [|[now|msg key'] evs IH]; intros n Hn Hack Hlate; cbn in Hlate; [lia|..];
    assert (∀ msg, Acknowledged msg key ∉ evs) as Hack' by (intros m Hm; apply (Hack m); by right).
  - cbn [fate]. destruct (send + timeout * (1 + n) <? now) eqn:E.
    + destruct (n + 1 <? max) eqn:E2; [|done]. rewrite (IH (n + 1)); [done|lia|done|].
      destruct (_ <? now); cbn in Hlate; lia.
    + rewrite (IH n); [done..|]. rewrite (proj2 (Z.ltb_ge _ _)) in Hlate by nia. lia.
  - cbn [fate]. destruct (key' =? key) eqn:E; [|by apply IH].
    apply Z.eqb_eq in E as ->. exfalso. apply (Hack msg). left.
Qed.

(** C22. Retransmission schedule: whatever the rounds of the monitor and the
    acknowledgements between them, every message in the send buffer has the fate
    it would have on its own.  It is sent again in exactly the rounds later than
    [send + timeout * (1 + n)], [n] the retries so far, and its entry counts
    them; from its acknowledgement on it is in no round and not in the buffer; the
    run fails, at the check of the retries, exactly when one message is overdue
    with no retry left.  A message that is never acknowledged does end this way,
    as soon as there were as many late rounds as it had retries. *)
Theorem retransmission_schedule my_id evs r :
  keyed my_id r →
  (∀ outs r', resend_run my_id evs r = Ok (outs, r') →
     (∀ k, send_buff_ r' !! k = table_after r evs k) ∧
     length outs = length (List.filter is_round evs) ∧
     ∀ i out, outs !! i = Some out → out ≡ₚ round_sends r evs i) ∧
  ((∃ x, resend_run my_id evs r = Ok x) ↔
     ∀ k e, send_buff_ r !! k = Some e → is_Some (fate_of r evs k e)) ∧
  ∀ k e, send_buff_ r !! k = Some e → (∀ msg, Acknowledged msg k ∉ evs) →
    0 ≤ timeout_ r → num_retry e < max_num_retry_ r →
    max_num_retry_ r - num_retry e ≤
      Z.of_nat (length (List.filter (late (ent_send e + timeout_ r * max_num_retry_ r)) evs)) →
    resend_run my_id evs r = Err (CheckFailed "num_retry").
Proof.
  intros Hk. destruct (run_cases my_id evs r Hk) as [(outs & r' & Hrun & Hf & Hfo)|(Hrun & k & e & He & Hf)];
    rewrite Hrun; split_and!.
  - by intros outs1 r1 [= <- <-].
  - by split; [|eauto].
  - intros k e He Hack Ht Hn Hl. destruct (Hf k e He) as [x Hx]. unfold fate_of in Hx.
    by rewrite fate_gives_up in Hx.
  - done.
  - split; [by intros [x Hx]|]. intros Hall. destruct (Hall k e He) as [x Hx]. congruence.
  - done.
Qed.

(** Two messages sent at time 100 with a timeout of 1000 and two retries allowed
    before the check; the first is acknowledged after its first retry. *)
Definition two_sent : t :=
  mk {[9929964388363 := mkEntry (demo_msg 0 9 8 5) 100 0; 9929964388365 := mkEntry (demo_msg 0 9 8 6) 100 0]} ∅ 1000 3.
Definition demo_rounds : list resend_event :=
  [Round 1100; Round 1200; Acknowledged (demo_msg 0 9 8 5) 9929964388363; Round 2200].

Lemma retransmission_schedule_witness :
  ∃ outs r', resend_run (Ok 1) demo_rounds two_sent = Ok (outs, r') ∧
    send_buff_ r' !! 9929964388363 = None ∧
    send_buff_ r' !! 9929964388365 = Some (mkEntry (demo_msg 0 9 8 6) 100 2) ∧
    map length outs = [0; 2; 1]%nat ∧
    resend_run (Ok 1) (demo_rounds ++ [Round 9000]) two_sent = Err (CheckFailed "num_retry").
Proof.
  assert (keyed (Ok 1) two_sent) as Hk by (apply (bool_decide_unpack _); vm_compute; exact I).
  destruct (retransmission_schedule (Ok 1) demo_rounds two_sent Hk) as (H1 & [_ H2] & _).
  destruct H2 as [[outs r'] Hrun].
  { intros k e He. apply elem_of_map_to_list in He. revert He.
    replace (map_to_list (send_buff_ two_sent)) with
      [(9929964388363, mkEntry (demo_msg 0 9 8 5) 100 0); (9929964388365, mkEntry (demo_msg 0 9 8 6) 100 0)]
      by (vm_compute; reflexivity).
    intros [[= -> ->]|[[= -> ->]|He]%elem_of_cons]%elem_of_cons; [vm_compute; eauto..|by apply elem_of_nil in He]. }
  exists outs, r'. destruct (H1 outs r' Hrun) as (Ht & _ & _).
  split; [exact Hrun|]. rewrite !Ht. split; [vm_compute; reflexivity|]. split; [vm_compute; reflexivity|].
  split; [|vm_compute; reflexivity].
  assert (resend_run (Ok 1) demo_rounds two_sent = Ok (outs, r')) as Hr by exact Hrun.
  vm_compute in Hr. injection Hr as <- _. reflexivity.
Defined.
