(* ===== verification/Van.v ===== *)
(** * Van (include/ps/internal/van.h, src/van.cc)

    The node's connection to the others: it registers with the scheduler,
    which gives every node an id and tells all nodes about each other; it
    answers barriers and heartbeats and hands data messages to the customers.
    The transport (zmq, RDMA, ...) is a parameter: [SendMsg] is the number of
    bytes it reports for a message.  What the van does to the outside is
    recorded in a log, in the order in which it happens.  The handlers are
    those compiled without STEPMESH_ENABLE_TRACE. *)

From S2P Require Import Prelude Message Env Postoffice Resender.

(** ** Actions on the outside *)
Inductive event : Type :=
| Sent (m : Message.t)                      (* SendMsg *)
| Connected (n : Node.t)                    (* Connect *)
| Delivered (customer : Z) (m : Message.t). (* Customer::DirectProcess *)

Module Van.
Record t : Type := mk {
  scheduler_ : Node.t;
  my_node_ : Node.t;
  is_scheduler_ : bool;
  postoffice_ : Postoffice.t;
  connected_nodes_ : gmap (list byte) Z;
  shared_node_mapping_ : gmap Z Z;
  ready_ : bool;
  send_bytes_ : Z;
  recv_bytes_ : Z;
  num_servers_ : Z;
  num_workers_ : Z;
  barrier_count_ : list Z;
  group_barrier_requests_ : gmap Z (list Z);
  resender_ : option Resender.t;
  drop_rate_ : Z;
  timestamp_ : Z;
  init_stage : Z;
  heartbeat_timeout_ : Z;
  log : list event
}.

(** A van as [Van::Create] leaves it. *)
Definition new (e : Environment) (po : Postoffice.t) (node : Node.t) : t :=
  {| scheduler_ := node; my_node_ := node; is_scheduler_ := Postoffice.is_scheduler_ po;
     postoffice_ := po; connected_nodes_ := ∅; shared_node_mapping_ := ∅; ready_ := false;
     send_bytes_ := 0; recv_bytes_ := 0; num_servers_ := 0; num_workers_ := 0;
     barrier_count_ := []; group_barrier_requests_ := ∅; resender_ := None;
     drop_rate_ := 0; timestamp_ := 0; init_stage := 0;
     heartbeat_timeout_ := GetEnv_int e "PS_HEARTBEAT_TIMEOUT" 0; log := [] |}.
End Van.
Import Van.

(** [node.hostname + ":" + std::to_string(node.port)] *)
Definition node_host_ip (n : Node.t) : list byte :=
  Node.hostname n ++ bytes_of ":" ++ bytes_of (pretty (Node.port n)).

Definition my_node (v : t) : result Node.t :=
  check! ready_ v or "call Start() first"; Ok (my_node_ v).

(** [timestamp_++]: the value before the increment, and the van after it. *)
Definition GetTimestamp (v : t) : Z * t :=
  (timestamp_ v, v <| timestamp_ ::= (λ ts, i32 (ts + 1)) |>).

Definition emit (ev : event) (v : t) : t := v <| log ::= (λ l, l ++ [ev]) |>.
Definition Connect (n : Node.t) : t → t := emit (Connected n).
Definition SetNode (n : Node.t) (v : t) : t := v <| my_node_ := n |>.
Definition UpdateHeartbeat_ (id now : Z) (v : t) : t :=
  v <| postoffice_ ::= UpdateHeartbeat id now |>.

Section van.
Context (e : Environment) (SendMsg : Message.t → Z).
(** [std::sort]: any function that orders a list by a comparison. *)
Context (sort : (Node.t → Node.t → bool) → list Node.t → list Node.t).

(** ** Sending *)
Definition Send (now : Z) (msg : Message.t) (v : t) : result (Z * t) :=
  let send_bytes := SendMsg msg in
  check! negb (send_bytes =? -1) or "sent -1 bytes";
  let v := (emit (Sent msg) v) <| send_bytes_ ::= (λ b, u64 (b + send_bytes)) |> in
  match resender_ v with
  | None => Ok (send_bytes, v)
  | Some r =>
      r' ← AddOutgoing (n ← my_node v; Ok (Node.id n)) now msg r;
      Ok (send_bytes, v <| resender_ := Some r' |>)
  end.

(** The loops that send [res] to every receiver that is not a later copy of a
    node, each time with a new time stamp; [checked]: the result of [Send] must
    be positive. *)
Definition is_shared (v : t) (id : Z) : bool :=
  bool_decide (is_Some (shared_node_mapping_ v !! id)).

Definition addressed (res : Meta.t) (recver ts : Z) : Message.t :=
  Message.mk (res <| Meta.recver := recver |> <| Meta.timestamp := ts |>) [].

Fixpoint send_each (now : Z) (checked : bool) (res : Meta.t) (ids : list Z) (v : t)
    : result t :=
  match ids with
  | [] => Ok v
  | r :: ids' =>
      if is_shared v r then send_each now checked res ids' v
      else
        let (ts, v) := GetTimestamp v in
        x ← Send now (addressed res r ts) v;
        check! (negb checked || (0 <? x.1)) or "Send(res)";
        send_each now checked res ids' x.2
  end.

(** ** Barriers *)
Definition barrier_response (cmd : Control.Command) (m : Meta.t) : Meta.t :=
  Meta.default <| Meta.request := false |> <| Meta.app_id := Meta.app_id m |>
    <| Meta.customer_id := Meta.customer_id m |>
    <| Meta.control := Control.mk cmd [] 0 0 |>.

Definition ProcessInstanceBarrierCommand (now : Z) (msg : Message.t) (v : t) : result t :=
  let m := Message.meta msg in
  if Meta.request m then
    let counts := if bool_decide (barrier_count_ v = []) then replicate 8 0
                  else barrier_count_ v in
    let group := Control.barrier_group (Meta.control m) in
    inside! ((0 <=? group) && (group <? Z.of_nat (length counts))) or "barrier_count_[group]";
    let count := i32 (counts !!! Z.to_nat group + 1) in
    ids ← GetNodeIDs (postoffice_ v) group;
    if count =? Z.of_nat (length ids) then
      send_each now true (barrier_response Control.INSTANCE_BARRIER m) ids
        (v <| barrier_count_ := <[Z.to_nat group := 0]> counts |>)
    else Ok (v <| barrier_count_ := <[Z.to_nat group := count]> counts |>)
  else
    po ← Manage m (postoffice_ v);
    Ok (v <| postoffice_ := po |>).

(** How many requests complete a group barrier: one per group of instances,
    and one for the scheduler when it takes part. *)
Definition num_expected_requests (po : Postoffice.t) (node_group num_instances : Z) : Z :=
  if node_group =? kScheduler then 1
  else if negb (Z.land node_group kScheduler =? 0) then
    Z.quot (num_instances - 1) (Postoffice.group_size_ po) + 1
  else Z.quot num_instances (Postoffice.group_size_ po).

Definition ProcessBarrierCommand (now : Z) (msg : Message.t) (v : t) : result t :=
  let m := Message.meta msg in
  if Meta.request m then
    let node_group := Control.barrier_group (Meta.control m) in
    let requests := default [] (group_barrier_requests_ v !! node_group) ++ [Meta.sender m] in
    let v := v <| group_barrier_requests_ ::= (λ g, <[node_group := requests]> g) |> in
    ids ← GetNodeIDs (postoffice_ v) node_group;
    let expected := num_expected_requests (postoffice_ v) node_group (Z.of_nat (length ids)) in
    if Z.of_nat (length requests) =? expected then
      v ← send_each now true (barrier_response Control.BARRIER m) requests v;
      Ok (v <| group_barrier_requests_ ::= (λ g, <[node_group := []]> g) |>)
    else Ok v
  else
    po ← Manage m (postoffice_ v);
    Ok (v <| postoffice_ := po |>).

(** ** Heartbeats *)
Definition heartbeat_message (recver : Z) (v : t) : Meta.t :=
  Meta.default <| Meta.recver := recver |>
    <| Meta.control := Control.mk Control.HEARTBEAT [my_node_ v] 0 0 |>.

Fixpoint heartbeat_nodes (now : Z) (ns : list Node.t) (v : t) : result t :=
  match ns with
  | [] => Ok v
  | n :: ns' =>
      let v := UpdateHeartbeat_ (Node.id n) now v in
      if is_scheduler_ v then
        let (ts, v) := GetTimestamp v in
        x ← Send now (addressed (heartbeat_message (Node.id n) v) (Node.id n) ts) v;
        heartbeat_nodes now ns' x.2
      else heartbeat_nodes now ns' v
  end.

Definition ProcessHearbeat (now : Z) (msg : Message.t) (v : t) : result t :=
  heartbeat_nodes now (Control.node (Meta.control (Message.meta msg))) v.

(** One turn of the [Heartbeat] thread. *)
Definition Heartbeat (now : Z) (v : t) : result t :=
  let (ts, v) := GetTimestamp v in
  x ← Send now (addressed (heartbeat_message kScheduler v) kScheduler ts) v;
  Ok x.2.

(** ** Data messages *)

(** [polls]: the customers of the postoffice at each look of [GetCustomer]. *)
Definition ProcessDataMsg (polls : list (gmap Z (gmap Z Z))) (msg : Message.t) (v : t)
    : result t :=
  let m := Message.meta msg in
  check! bool_decide (Meta.sender m ≠ kEmpty) or "msg.meta.sender";
  check! bool_decide (Meta.recver m ≠ kEmpty) or "msg.meta.recver";
  check! bool_decide (Meta.app_id m ≠ kEmpty) or "msg.meta.app_id";
  let customer_id := if Postoffice.is_worker_ (postoffice_ v) then Meta.customer_id m else Meta.app_id m in
  obj ← from_option_or (CheckFailed "timeout (5 sec) to wait App")
          (GetCustomer polls (Meta.app_id m) customer_id 5);
  Ok (emit (Delivered obj msg) v).

Definition ProcessTerminateCommand (v : t) : t := v <| ready_ := false |>.

(** ** Registration: the order of the nodes *)

(** [std::string::compare], by its sign. *)
Fixpoint str_compare (a b : list byte) : Z :=
  match a, b with
  | [], [] => 0
  | [], _ :: _ => -1
  | _ :: _, [] => 1
  | x :: a', y :: b' =>
      match N.compare (Byte.to_N x) (Byte.to_N y) with
      | Lt => -1 | Gt => 1 | Eq => str_compare a' b'
      end
  end.

(** [(a.hostname.compare(b.hostname) | (a.port < b.port)) > 0] *)
Definition by_host_port (a b : Node.t) : bool :=
  0 <? Z.lor (str_compare (Node.hostname a) (Node.hostname b))
             (Z.b2z (Node.port a <? Node.port b)).

(** [ip_cnt]: the number of nodes of each host, at most two. *)
Fixpoint count_hosts (ns : list Node.t) (cnt : gmap (list byte) Z) : result (gmap (list byte) Z) :=
  match ns with
  | [] => Ok cnt
  | n :: ns' =>
      let c := default 0 (cnt !! Node.hostname n) + 1 in
      check! (c <=? 2) or "ip_cnt";
      count_hosts ns' (<[Node.hostname n := c]> cnt)
  end.

Definition by_colocation (cnt : gmap (list byte) Z) (a b : Node.t) : bool :=
  let ca := default 0 (cnt !! Node.hostname a) in
  let cb := default 0 (cnt !! Node.hostname b) in
  if ca =? cb then by_host_port a b else ca <? cb.

(** [BYTEPS_ORDERED_HOSTS]: hosts separated by commas, each with an optional
    port after a colon. *)
Fixpoint split_at (sep : byte) (l : list byte) : list byte * option (list byte) :=
  match l with
  | [] => ([], None)
  | b :: l' =>
      if bool_decide (b = sep) then ([], Some l')
      else let (h, r) := split_at sep l' in (b :: h, r)
  end.

Fixpoint hosts_list (fuel : nat) (l : list byte) : list (list byte) :=
  match fuel with
  | O => [l]
  | S fuel' =>
      match split_at x2c l with
      | (h, None) => [h]
      | (h, Some r) => h :: hosts_list fuel' r
      end
  end.

Fixpoint host_positions (i : Z) (hosts : list (list byte)) (pos : gmap (list byte) Z)
    : result (gmap (list byte) Z) :=
  match hosts with
  | [] => Ok pos
  | h :: hosts' =>
      let ip := (split_at x3a h).1 in
      check! bool_decide (pos !! ip = None) or "Duplicate IP found in BYTEPS_ORDERED_HOSTS";
      host_positions (i + 1) hosts' (<[ip := i]> pos)
  end.

Definition by_position (pos : gmap (list byte) Z) (a b : Node.t) : bool :=
  default 0 (pos !! Node.hostname a) <? default 0 (pos !! Node.hostname b).

Definition sort_nodes (ns : list Node.t) : result (list Node.t) :=
  let mixed_mode := match getenv e "BYTEPS_ENABLE_MIXED_MODE" with
                    | Some s => negb (atoi s =? 0) | None => false end in
  let sparse_mode := bool_decide (is_Some (getenv e "BYTEPS_ORDERED_HOSTS")) in
  check! negb (mixed_mode && sparse_mode) or "should not coexist";
  if mixed_mode then
    cnt ← count_hosts ns ∅;
    let ns' := sort (by_colocation cnt) ns in
    check! forallb (λ n, negb (default 0 (cnt !! Node.hostname n) =? 1)
                         || bool_decide (Node.role n = Node.SERVER)) ns' or "node.role";
    Ok ns'
  else
    match getenv e "BYTEPS_ORDERED_HOSTS" with
    | Some hosts =>
        let hosts := bytes_of hosts in
        pos ← host_positions 0 (hosts_list (length hosts) hosts) ∅;
        Ok (sort (by_position pos) ns)
    | None => Ok (sort by_host_port ns)
    end.

(** ** Registration: preferred ranks *)
Definition with_preferred_rank (ns : list Node.t) : bool :=
  existsb (λ n, negb (Node.aux_id n =? -1)) ns.

Fixpoint collect_ranks (ns : list Node.t) (servers workers : gset Z)
    : result (gset Z * gset Z) :=
  match ns with
  | [] => Ok (servers, workers)
  | n :: ns' =>
      match Node.role n with
      | Node.SERVER =>
          check! bool_decide (Node.aux_id n ∉ servers) or "rank must be unique";
          collect_ranks ns' ({[Node.aux_id n]} ∪ servers) workers
      | Node.WORKER =>
          check! bool_decide (Node.aux_id n ∉ workers) or "rank must be unique";
          collect_ranks ns' servers ({[Node.aux_id n]} ∪ workers)
      | _ => Err (CheckFailed "unrecognized node role")
      end
  end.

Definition check_ranks (po : Postoffice.t) (ns : list Node.t) : result unit :=
  x ← collect_ranks ns ∅ ∅;
  let contiguous (ranks : gset Z) n :=
    forallb (λ i, bool_decide (i ∈ ranks)) (seqZ 0 n) && (Z.of_nat (size ranks) =? n) in
  check! contiguous x.1 (num_server_instances po) or "server_ranks";
  check! contiguous x.2 (num_worker_instances po) or "worker_ranks";
  Ok ().

(** ** Registration: ids *)
Definition count_role (n : Node.t) (v : t) : t :=
  match Node.role n with
  | Node.SERVER => v <| num_servers_ ::= (λ k, i32 (k + 1)) |>
  | Node.WORKER => v <| num_workers_ ::= (λ k, i32 (k + 1)) |>
  | _ => v
  end.

Definition new_id (preferred : bool) (n : Node.t) (v : t) : Z :=
  match Node.role n with
  | Node.SERVER => ServerRankToID (if preferred then Node.aux_id n else num_servers_ v)
  | _ => WorkerRankToID (if preferred then Node.aux_id n else num_workers_ v)
  end.

Fixpoint assign_ids (now : Z) (preferred : bool) (ns : list Node.t) (v : t)
    : result (list Node.t * t) :=
  match ns with
  | [] => Ok ([], v)
  | n :: ns' =>
      let id := new_id preferred n v in
      x ← match connected_nodes_ v !! node_host_ip n with
          | None =>
              check! (Node.id n =? kEmpty) or "node.id";
              let n' := n <| Node.id := id |> in
              Ok (n', (UpdateHeartbeat_ id now (Connect n' v))
                        <| connected_nodes_ ::= (λ m, <[node_host_ip n := id]> m) |>)
          | Some first =>
              Ok (n <| Node.id := first |>,
                  v <| shared_node_mapping_ ::= (λ m, <[id := first]> m) |>)
          end;
      y ← assign_ids now preferred ns' (count_role n x.2);
      Ok (x.1 :: y.1, y.2)
  end.

(** ** Registration at the scheduler

    [nodes] and [recovery_nodes] are the variables of the receiving loop. *)
Definition num_nodes (po : Postoffice.t) : Z :=
  u64 (i32 (num_server_instances po + num_worker_instances po)).

Definition with_nodes (m : Meta.t) (ns : list Node.t) : Meta.t :=
  m <| Meta.control ::= (λ c, c <| Control.node := ns |>) |>.
Definition with_add_node (m : Meta.t) : Meta.t :=
  m <| Meta.control ::= (λ c, c <| Control.cmd := Control.ADD_NODE |>) |>.

(** All nodes are there: order them, number them, and tell everybody. *)
Definition admit_all (now : Z) (nodes : Meta.t) (v : t) : result (Meta.t * t) :=
  ns ← sort_nodes (Control.node (Meta.control nodes));
  let preferred := with_preferred_rank ns in
  _ ← (if preferred then check_ranks (postoffice_ v) ns else Ok ());
  x ← assign_ids now preferred ns v;
  let nodes := with_add_node (with_nodes nodes (x.1 ++ [my_node_ v])) in
  ids ← GetNodeIDs (postoffice_ v) (kWorkerGroup + kServerGroup);
  v ← send_each now false nodes ids x.2;
  Ok (nodes, v <| ready_ := true |>).

(** A node comes back: it gets all nodes, the live ones get it. *)
Fixpoint send_recovery (now : Z) (dead : list Z) (rid : Z) (nodes recovery : Meta.t)
    (ids : list Z) (v : t) : result t :=
  match ids with
  | [] => Ok v
  | r :: ids' =>
      if negb (r =? rid) && bool_decide (r ∈ dead) then
        send_recovery now dead rid nodes recovery ids' v
      else
        let (ts, v) := GetTimestamp v in
        x ← Send now (addressed (if r =? rid then nodes else recovery) r ts) v;
        send_recovery now dead rid nodes recovery ids' x.2
  end.

Definition readmit (now : Z) (nodes recovery : Meta.t) (v : t) : result t :=
  dead ← GetDeadNodes (postoffice_ v) (heartbeat_timeout_ v) (ready_ v) now;
  match Control.node (Meta.control recovery) with
  | [n] =>
      let v := UpdateHeartbeat_ (Node.id n) now (Connect n v) in
      ids ← GetNodeIDs (postoffice_ v) (kWorkerGroup + kServerGroup);
      send_recovery now dead (Node.id n) nodes recovery ids v
  | _ => Err (CheckFailed "recovery_nodes->control.node.size()")
  end.

Definition ProcessAddNodeCommandAtScheduler (now : Z) (nodes recovery : Meta.t) (v : t)
    : result (Meta.t * Meta.t * t) :=
  let recovery := with_add_node recovery in
  if Z.of_nat (length (Control.node (Meta.control nodes))) =? num_nodes (postoffice_ v) then
    x ← admit_all now nodes v;
    Ok (x.1, recovery, x.2)
  else if bool_decide (Control.node (Meta.control recovery) ≠ []) then
    v ← readmit now nodes recovery v;
    Ok (nodes, recovery, v)
  else Ok (nodes, recovery, v).

(** ** Registration on every node *)

(** The first dead node of the same role is replaced; the last entry of the
    list, the scheduler, is not looked at. *)
Fixpoint replace_dead (dead : list Z) (n : Node.t) (ns : list Node.t)
    : option (Node.t * list Node.t) :=
  match ns with
  | [] | [_] => None
  | old :: ns' =>
      if bool_decide (Node.id old ∈ dead) && bool_decide (Node.role old = Node.role n) then
        let n' := n <| Node.id := Node.id old |> <| Node.is_recovery := true |> in
        Some (n', n' :: ns')
      else
        match replace_dead dead n ns' with
        | Some (n', ns'') => Some (n', old :: ns'')
        | None => None
        end
  end.

Definition same_address (a b : Node.t) : bool :=
  bool_decide (Node.hostname a = Node.hostname b) && (Node.port a =? Node.port b).

Definition update_my_id (v : t) (n : Node.t) : t :=
  if same_address (my_node_ v) n
     && (bool_decide (getenv e "DMLC_RANK" = None) || (Node.id (my_node_ v) =? kEmpty))
  then SetNode n v else v.

(** [UpdateLocalID]: the message, [nodes], [recovery_nodes] and the van after
    it. *)
Definition UpdateLocalID (msg : Message.t) (dead : list Z) (nodes recovery : Meta.t) (v : t)
    : result (Message.t * Meta.t * Meta.t * t) :=
  let ctrl := Meta.control (Message.meta msg) in
  x ← (if Meta.sender (Message.meta msg) =? kEmpty then
         check! is_scheduler_ v or "is_scheduler_";
         match Control.node ctrl with
         | [n] =>
             let ns := Control.node (Meta.control nodes) in
             if Z.of_nat (length ns) <? num_nodes (postoffice_ v) then
               Ok (msg, with_nodes nodes (ns ++ [n]), recovery)
             else
               check! ready_ v or "ready_.load()";
               match replace_dead dead n ns with
               | Some (n', ns') =>
                   Ok (msg <| Message.meta ::= (λ m, with_nodes m [n']) |>,
                       with_nodes nodes ns',
                       with_nodes recovery (Control.node (Meta.control recovery) ++ [n']))
               | None => Ok (msg, nodes, recovery)
               end
         | _ => Err (CheckFailed "ctrl.node.size()")
         end
       else Ok (msg, nodes, recovery));
  let '(msg, nodes, recovery) := x in
  let v := foldl update_my_id v (Control.node (Meta.control (Message.meta msg))) in
  Ok (msg, nodes, recovery, v).

Definition join_node (v : t) (n : Node.t) : t :=
  let v := match connected_nodes_ v !! node_host_ip n with
           | Some _ => v
           | None => (Connect n v) <| connected_nodes_ ::= (λ m, <[node_host_ip n := Node.id n]> m) |>
           end in
  if Node.is_recovery n then v else count_role n v.

Definition ProcessAddNodeCommand (now : Z) (msg : Message.t) (nodes recovery : Meta.t) (v : t)
    : result (Meta.t * Meta.t * t) :=
  dead ← GetDeadNodes (postoffice_ v) (heartbeat_timeout_ v) (ready_ v) now;
  x ← UpdateLocalID msg dead nodes recovery v;
  let '(msg, nodes, recovery, v) := x in
  if is_scheduler_ v then ProcessAddNodeCommandAtScheduler now nodes recovery v
  else
    Ok (nodes, recovery,
        (foldl join_node v (Control.node (Meta.control (Message.meta msg)))) <| ready_ := true |>).

(** ** The receiving loop *)

(** What one turn gets from the outside: the message and its size, whether the
    debugging switch drops it, the clock, and the polls for its customer. *)
Record input : Type := mkInput {
  in_msg : Message.t;
  in_bytes : Z;
  in_drop : bool;      (* rand_r(&seed) % 100 < drop_rate_ *)
  in_now : Z;
  in_polls : list (gmap Z (gmap Z Z))
}.

Record loop : Type := mkLoop { van : t; nodes : Meta.t; recovery_nodes : Meta.t }.

Definition loop_start (v : t) : loop := mkLoop v Meta.default (with_add_node Meta.default).

(** The check of the resender at the start of a turn: whether the message is
    to be ignored. *)
Definition filter_incoming (now : Z) (msg : Message.t) (v : t) : result (bool * t) :=
  match resender_ v with
  | None => Ok (false, v)
  | Some r =>
      x ← AddIncomming (n ← my_node v; Ok (Node.id n)) msg r;
      let '(ignored, ack, r') := x in
      let v := v <| resender_ := Some r' |> in
      match ack with
      | None => Ok (ignored, v)
      | Some a => y ← Send now a v; Ok (ignored, y.2)
      end
  end.

Inductive turn : Type := Continue (st : loop) | Finished (st : loop).

Definition dispatch (inp : input) (st : loop) (v : t) : result turn :=
  let msg := in_msg inp in
  let now := in_now inp in
  let ctrl := Meta.control (Message.meta msg) in
  let back v := Ok (Continue (mkLoop v (nodes st) (recovery_nodes st))) in
  if Control.empty ctrl then v ← ProcessDataMsg (in_polls inp) msg v; back v
  else
    match Control.cmd ctrl with
    | Control.TERMINATE =>
        Ok (Finished (mkLoop (ProcessTerminateCommand v) (nodes st) (recovery_nodes st)))
    | Control.ADD_NODE =>
        x ← ProcessAddNodeCommand now msg (nodes st) (recovery_nodes st) v;
        let '(ns, rs, v) := x in Ok (Continue (mkLoop v ns rs))
    | Control.BARRIER => v ← ProcessBarrierCommand now msg v; back v
    | Control.INSTANCE_BARRIER => v ← ProcessInstanceBarrierCommand now msg v; back v
    | Control.HEARTBEAT => v ← ProcessHearbeat now msg v; back v
    | _ => back v
    end.

Definition receive_turn (inp : input) (st : loop) : result turn :=
  let v := van st in
  if ready_ v && (0 <? drop_rate_ v) && in_drop inp then Ok (Continue st)
  else
    check! negb (in_bytes inp =? -1) or "recv_bytes";
    let v := v <| recv_bytes_ ::= (λ b, u64 (b + in_bytes inp)) |> in
    x ← filter_incoming (in_now inp) (in_msg inp) v;
    if (x.1 : bool) then Ok (Continue (mkLoop x.2 (nodes st) (recovery_nodes st)))
    else dispatch inp st x.2.

(** [Receiving] on a finite stretch of the incoming messages: the loop ends at
    the first TERMINATE. *)
Fixpoint Receiving (inputs : list input) (st : loop) : result turn :=
  match inputs with
  | [] => Ok (Continue st)
  | inp :: inputs' =>
      r ← receive_turn inp st;
      match r with
      | Finished st' => Ok (Finished st')
      | Continue st' => Receiving inputs' st'
      end
  end.
End van.
