(* ===== verification/VanFacts.v ===== *)
(** * Van: barriers, heartbeats, dispatch

    What the handlers of Van.v do, proved for every transport that reports a
    positive number of bytes for each message and, where messages are sent,
    without a resender (PS_RESEND unset). *)

From S2P Require Import Prelude Message Env Postoffice Resender Van.
Import Van.

(** ** Time stamps and loops of messages *)
Fixpoint stamps (ts : Z) (n : nat) : list Z :=
  match n with O => [] | S n' => ts :: stamps (i32 (ts + 1)) n' end.

Lemma length_stamps ts n : length (stamps ts n) = n.
Proof. revert ts. induction n; intros; simpl; auto. Qed.

Definition next_stamp (ts : Z) (n : nat) : Z := Nat.iter n (λ t, i32 (t + 1)) ts.

Arguments next_stamp : simpl never.

Lemma next_stamp_S ts n : next_stamp ts (S n) = next_stamp (i32 (ts + 1)) n.
Proof. unfold next_stamp. by rewrite Nat.iter_succ_r. Qed.

(** The messages that carry [res] to [ids], in order, from time stamp [ts]. *)
Definition messages_to (res : Meta.t) (ids : list Z) (ts : Z) : list Message.t :=
  zip_with (addressed res) ids (stamps ts (length ids)).

Arguments messages_to : simpl never.

Lemma messages_to_cons res r ids ts :
  messages_to res (r :: ids) ts = addressed res r ts :: messages_to res ids (i32 (ts + 1)).
Proof. reflexivity. Qed.

(** The van after the actions [evs], with its counters moved on. *)
Definition advance (evs : list event) (ts bytes : Z) (v : t) : t :=
  {| scheduler_ := scheduler_ v; my_node_ := my_node_ v; is_scheduler_ := is_scheduler_ v;
     postoffice_ := postoffice_ v; connected_nodes_ := connected_nodes_ v;
     shared_node_mapping_ := shared_node_mapping_ v; ready_ := ready_ v; send_bytes_ := bytes;
     recv_bytes_ := recv_bytes_ v; num_servers_ := num_servers_ v;
     num_workers_ := num_workers_ v; barrier_count_ := barrier_count_ v;
     group_barrier_requests_ := group_barrier_requests_ v; resender_ := resender_ v;
     drop_rate_ := drop_rate_ v; timestamp_ := ts; init_stage := init_stage v;
     heartbeat_timeout_ := heartbeat_timeout_ v; log := log v ++ evs |}.

Lemma advance_nil v : advance [] (timestamp_ v) (send_bytes_ v) v = v.
Proof. destruct v. unfold advance. simpl. by rewrite app_nil_r. Qed.
Lemma advance_advance evs1 ts1 b1 evs2 ts2 b2 v :
  advance evs2 ts2 b2 (advance evs1 ts1 b1 v) = advance (evs1 ++ evs2) ts2 b2 v.
Proof. unfold advance. simpl. by rewrite app_assoc. Qed.

Definition after_sends (res : Meta.t) (ids : list Z) (bytes : Z) (v : t) : t :=
  advance (map Sent (messages_to res ids (timestamp_ v)))
    (next_stamp (timestamp_ v) (length ids)) bytes v.

Definition recipients (v : t) (ids : list Z) : list Z :=
  List.filter (λ r, negb (is_shared v r)) ids.

Lemma recipients_cons v r ids :
  recipients v (r :: ids) = if is_shared v r then recipients v ids else r :: recipients v ids.
Proof. unfold recipients. simpl. by destruct (is_shared v r). Qed.

Section sending.
Context (SendMsg : Message.t → Z) (Hsend : ∀ m, 0 < SendMsg m).

Lemma Send_Ok now msg ts v :
  resender_ v = None →
  ∃ b, Send SendMsg now msg (v <| timestamp_ := ts |>) = Ok (SendMsg msg, advance [Sent msg] ts b v).
Proof using Hsend.
  intros Hr. unfold Send. specialize (Hsend msg).
  rewrite (proj2 (Z.eqb_neq _ _)) by lia. simpl. rewrite Hr. eexists. reflexivity.
Qed.

Lemma send_each_Ok now checked res ids v :
  resender_ v = None →
  ∃ b, send_each SendMsg now checked res ids v = Ok (after_sends res (recipients v ids) b v).
Proof using Hsend.
  intros Hr. revert v Hr. induction ids as [|r ids IH]; intros v Hr; cbn [send_each].
  { exists (send_bytes_ v). f_equal. symmetry. apply advance_nil. }
  rewrite recipients_cons. destruct (is_shared v r) eqn:Hs; [by apply IH|].
  unfold GetTimestamp. cbv iota beta zeta.
  destruct (Send_Ok now (addressed res r (timestamp_ v)) (i32 (timestamp_ v + 1)) v Hr) as [b1 Hb1].
  change (v <| timestamp_ ::= (λ ts, i32 (ts + 1)) |>)
    with (v <| timestamp_ := i32 (timestamp_ v + 1) |>).
  rewrite Hb1. cbn [mbind result_bind fst snd].
  rewrite (proj2 (Z.ltb_lt _ _) (Hsend _)), orb_true_r.
  destruct (IH (advance [Sent (addressed res r (timestamp_ v))] (i32 (timestamp_ v + 1)) b1 v) Hr)
    as [b ->].
  exists b. f_equal. unfold after_sends. rewrite advance_advance. cbn [length].
  by rewrite messages_to_cons, next_stamp_S.
Qed.
End sending.

(** Replace the sending loop of the goal by its result; [b] names the new
    count of bytes. *)
Ltac send_loop Hsend Hres b :=
  match goal with
  | |- context [send_each ?S ?now ?c ?res ?ids ?w] =>
      destruct (send_each_Ok S Hsend now c res ids w Hres) as [b ->]
  end.

(** ** Counting the answers a node gets *)
Definition answers (cmd : Control.Command) (r : Z) (ev : event) : bool :=
  match ev with
  | Sent m => (Meta.recver (Message.meta m) =? r) && negb (Meta.request (Message.meta m))
              && bool_decide (Control.cmd (Meta.control (Message.meta m)) = cmd)
  | _ => false
  end.
Definition num_answers (cmd : Control.Command) (r : Z) (l : list event) : Z :=
  Z.of_nat (length (List.filter (answers cmd r) l)).

(** How often [r] is in a list of node ids. *)
Definition occurrences (r : Z) (ids : list Z) : Z :=
  Z.of_nat (length (List.filter (Z.eqb r) ids)).

Lemma num_answers_app cmd r l1 l2 :
  num_answers cmd r (l1 ++ l2) = num_answers cmd r l1 + num_answers cmd r l2.
Proof. unfold num_answers. rewrite List.filter_app, length_app. lia. Qed.

Lemma answers_response cmd m x ts r :
  answers cmd r (Sent (addressed (barrier_response cmd m) x ts)) = (r =? x).
Proof.
  unfold answers. cbn -[Z.eqb]. rewrite bool_decide_eq_true_2, !andb_true_r by done.
  apply Z.eqb_sym.
Qed.

Lemma num_answers_messages cmd m r ids ts :
  num_answers cmd r (map Sent (messages_to (barrier_response cmd m) ids ts)) = occurrences r ids.
Proof.
  unfold num_answers, occurrences. f_equal. revert ts.
  induction ids as [|x ids IH]; intros ts; [done|].
  rewrite messages_to_cons. cbn [map List.filter]. rewrite answers_response.
  destruct (r =? x); cbn [length]; by rewrite IH.
Qed.

Lemma occurrences_app r l1 l2 :
  occurrences r (l1 ++ l2) = occurrences r l1 + occurrences r l2.
Proof. unfold occurrences. rewrite List.filter_app, length_app. lia. Qed.

Lemma occurrences_NoDup r ids :
  NoDup ids → occurrences r ids = if bool_decide (r ∈ ids) then 1 else 0.
Proof.
  unfold occurrences. induction 1 as [|x ids Hx _ IH]; simpl; [done|].
  destruct (r =? x) eqn:E; simpl; [apply Z.eqb_eq in E as ->|apply Z.eqb_neq in E].
  - rewrite bool_decide_eq_false_2 in IH by done. rewrite bool_decide_eq_true_2 by left. lia.
  - rewrite IH. repeat case_bool_decide; set_solver.
Qed.

Lemma occurrences_recipients v r ids :
  is_shared v r = false → occurrences r (recipients v ids) = occurrences r ids.
Proof.
  intros Hr. unfold occurrences, recipients. f_equal.
  induction ids as [|x ids IH]; simpl; [done|].
  destruct (is_shared v x) eqn:Hx; simpl; destruct (r =? x) eqn:E; simpl; try by rewrite IH.
  apply Z.eqb_eq in E as ->. congruence.
Qed.

(** ** Instance barriers *)
Definition barrier_request (g : Z) (msg : Message.t) : Prop :=
  Meta.request (Message.meta msg) = true ∧
  Control.barrier_group (Meta.control (Message.meta msg)) = g.

#[export] Instance barrier_request_dec g msg : Decision (barrier_request g msg).
Proof. unfold barrier_request. apply _. Defined.

(** The counter of group [g]; the vector is made at the first request. *)
Definition instance_count (v : t) (g : Z) : Z :=
  (if bool_decide (barrier_count_ v = []) then replicate 8 0 else barrier_count_ v) !!! Z.to_nat g.

Fixpoint handle_all (handler : Message.t → t → result t) (msgs : list Message.t) (v : t)
    : result t :=
  match msgs with
  | [] => Ok v
  | m :: msgs' => v' ← handler m v; handle_all handler msgs' v'
  end.

Section barriers.
Context (SendMsg : Message.t → Z) (Hsend : ∀ m, 0 < SendMsg m).
Context (now g : Z) (ids : list Z).

(** What a barrier handler relies on, and keeps. *)
Definition barrier_ready (v : t) : Prop :=
  resender_ v = None ∧ GetNodeIDs (postoffice_ v) g = Ok ids ∧
  (barrier_count_ v = [] ∨ length (barrier_count_ v) = 8%nat).

Lemma instance_barrier_step msg v :
  barrier_ready v → barrier_request g msg → 0 ≤ g < 8 →
  Z.of_nat (length ids) < 2 ^ 31 → 0 ≤ instance_count v g < Z.of_nat (length ids) →
  ∃ v' evs, ProcessInstanceBarrierCommand SendMsg now msg v = Ok v' ∧ barrier_ready v' ∧
    shared_node_mapping_ v' = shared_node_mapping_ v ∧ log v' = log v ++ evs ∧
    (∀ g', 0 ≤ g' < 8 → g' ≠ g → instance_count v' g' = instance_count v g') ∧
    if instance_count v g + 1 =? Z.of_nat (length ids) then
      instance_count v' g = 0 ∧
      evs = map Sent (messages_to (barrier_response Control.INSTANCE_BARRIER (Message.meta msg))
                        (recipients v ids) (timestamp_ v))
    else instance_count v' g = instance_count v g + 1 ∧ evs = [].
Proof using Hsend.
  intros (Hres & Hids & Hcnt) [Hreq Hg] Hg8 HN Hc. unfold ProcessInstanceBarrierCommand.
  rewrite Hreq, Hg. unfold instance_count in *.
  set (counts := if bool_decide (barrier_count_ v = []) then replicate 8 0 else barrier_count_ v) in *.
  assert (length counts = 8%nat) as Hlen.
  { unfold counts. case_bool_decide; [done|]. by destruct Hcnt. }
  rewrite Hlen, (proj2 (Z.leb_le 0 g)), (proj2 (Z.ltb_lt g _)) by lia. cbn [andb].
  rewrite Hids. cbn [mbind result_bind].
  rewrite swrap_small by word_lia.
  assert (∀ x g', bool_decide (<[Z.to_nat g:=x]> counts = []) = false ∧
     (0 ≤ g' < 8 → g' ≠ g → <[Z.to_nat g:=x]> counts !!! Z.to_nat g' = counts !!! Z.to_nat g') ∧
     <[Z.to_nat g:=x]> counts !!! Z.to_nat g = x) as Hins.
  { intros x g'. split_and!.
    - apply bool_decide_eq_false_2. intros H%(f_equal length). rewrite length_insert in H. simpl in H. lia.
    - intros. apply list_lookup_total_insert_ne. lia.
    - apply list_lookup_total_insert_eq. lia. }
  destruct (counts !!! Z.to_nat g + 1 =? _) eqn:Heq.
  - send_loop Hsend Hres b.
    match goal with |- context [Ok ?w = Ok _] => set (v1 := w) end.
    assert (barrier_count_ v1 = <[Z.to_nat g:=0]> counts) as Hv1 by reflexivity.
    exists v1. eexists. split; [reflexivity|]. rewrite Hv1. split.
    { split_and!; [done|done|right]. by rewrite Hv1, length_insert. }
    split; [done|]. split; [reflexivity|]. split.
    { intros g' ??. rewrite (proj1 (Hins 0 g')). by apply Hins. }
    rewrite (proj1 (Hins 0 0)). split; [apply Hins; exact 0|done].
  - match goal with |- context [Ok ?w = Ok _] => set (v1 := w) end.
    assert (barrier_count_ v1 = <[Z.to_nat g:=counts !!! Z.to_nat g + 1]> counts) as Hv1
      by reflexivity.
    exists v1, []. split; [reflexivity|]. rewrite Hv1. split.
    { split_and!; [done|done|right]. by rewrite Hv1, length_insert. }
    split; [done|]. split; [by rewrite app_nil_r|]. split.
    { intros g' ??. rewrite (proj1 (Hins _ g')). by apply Hins. }
    rewrite (proj1 (Hins _ 0)). split; [|done]. apply Hins; exact 0.
Qed.

Lemma instance_barrier_run msgs v :
  barrier_ready v → Forall (barrier_request g) msgs → 0 ≤ g < 8 → NoDup ids →
  Z.of_nat (length ids) < 2 ^ 31 → 0 ≤ instance_count v g < Z.of_nat (length ids) →
  ∃ v' evs, handle_all (ProcessInstanceBarrierCommand SendMsg now) msgs v = Ok v' ∧
    log v' = log v ++ evs ∧ shared_node_mapping_ v' = shared_node_mapping_ v ∧
    0 ≤ instance_count v' g < Z.of_nat (length ids) ∧
    ∀ r, r ∈ ids → is_shared v r = false →
      num_answers Control.INSTANCE_BARRIER r evs * Z.of_nat (length ids) + instance_count v' g
      = instance_count v g + Z.of_nat (length msgs).
Proof using Hsend.
  intros Hv Hms Hg Hnd HN. revert v Hv.
  induction Hms as [|m msgs Hm _ IH]; intros v Hv Hc.
  { exists v, []. split; [done|]. rewrite app_nil_r. split_and!; [done|done|lia..|].
    intros. simpl. unfold num_answers. simpl. lia. }
  destruct (instance_barrier_step m v Hv Hm Hg HN Hc) as (v1 & e1 & H1 & Hv1 & Hs1 & Hl1 & _ & Hst).
  assert (0 ≤ instance_count v1 g < Z.of_nat (length ids)) as Hc1
    by (destruct (_ =? _) eqn:E; destruct Hst as [-> _]; lia).
  destruct (IH v1 Hv1 Hc1) as (v' & e2 & H2 & Hl2 & Hs2 & Hc2 & Hr2).
  exists v', (e1 ++ e2). cbn [handle_all]. rewrite H1. cbn [mbind result_bind].
  split_and!; [done|by rewrite Hl2, Hl1, app_assoc|congruence|lia..|].
  intros r Hr Hsh. rewrite num_answers_app.
  assert (is_shared v1 r = false) as Hsh1 by (unfold is_shared in *; by rewrite Hs1).
  specialize (Hr2 r Hr Hsh1). cbn [length].
  destruct (_ =? _) eqn:E; destruct Hst as [Hc' He].
  - rewrite He, num_answers_messages, occurrences_recipients, occurrences_NoDup,
      bool_decide_eq_true_2 by done. lia.
  - subst e1. unfold num_answers at 1. simpl. lia.
Qed.
End barriers.

(** Instance barriers: when [k] requests for group [g] have arrived, every
    member of the group has been answered exactly [k / n] times, [n] being the
    size of the group, and the counter is [k mod n]; so nobody is released
    before the last member of a round has asked, and then everybody once. *)
Theorem instance_barrier_releases SendMsg now g ids msgs v r :
  (∀ m, 0 < SendMsg m) → barrier_ready g ids v → Forall (barrier_request g) msgs →
  0 ≤ g < 8 → NoDup ids → Z.of_nat (length ids) < 2 ^ 31 →
  instance_count v g = 0 → r ∈ ids → is_shared v r = false →
  ∃ v' evs, handle_all (ProcessInstanceBarrierCommand SendMsg now) msgs v = Ok v' ∧
    log v' = log v ++ evs ∧
    num_answers Control.INSTANCE_BARRIER r evs = Z.of_nat (length msgs) / Z.of_nat (length ids) ∧
    instance_count v' g = Z.of_nat (length msgs) mod Z.of_nat (length ids).
Proof.
  intros Hsend Hv Hms Hg Hnd HN Hc Hr Hsh.
  assert (0 < length ids)%nat by (destruct ids; [by apply elem_of_nil in Hr|simpl; lia]).
  destruct (instance_barrier_run SendMsg Hsend now g ids msgs v) as (v' & evs & H1 & H2 & _ & Hc' & Hn);
    try done; [lia|].
  exists v', evs. specialize (Hn r Hr Hsh). rewrite Hc in Hn.
  split_and!; [done|done|..].
  - apply (Z.div_unique_pos _ _ _ (instance_count v' g)); lia.
  - apply (Z.mod_unique_pos _ _ (num_answers Control.INSTANCE_BARRIER r evs)); lia.
Qed.


Definition demo_request (cmd : Control.Command) (sender g : Z) : Message.t :=
  Message.mk (Meta.default <| Meta.request := true |> <| Meta.app_id := 0 |>
    <| Meta.customer_id := 0 |> <| Meta.sender := sender |>
    <| Meta.control := Control.mk cmd [] g 0 |>) [].
Definition demo_van : t :=
  Van.new (env_of []) demo_scheduler
    (Node.mk Node.SCHEDULER kScheduler 0 (bytes_of "10.0.0.1") 1 [] [] [] 8000 false [] 0 0).

Lemma instance_barrier_releases_witness :
  ∃ v' evs, handle_all (ProcessInstanceBarrierCommand (λ _, 1) 7)
      (map (λ s, demo_request Control.INSTANCE_BARRIER s 4) [9; 11; 13; 15; 9]) demo_van = Ok v' ∧
    log v' = log demo_van ++ evs ∧
    num_answers Control.INSTANCE_BARRIER 11 evs = 1 ∧ instance_count v' 4 = 1.
Proof.
  apply (instance_barrier_releases (λ _, 1) 7 4 [9; 11; 13; 15]
           (map (λ s, demo_request Control.INSTANCE_BARRIER s 4) [9; 11; 13; 15; 9]) demo_van 11);
    try done; try (apply (bool_decide_unpack _); vm_compute; exact I).
Defined.

(** ** Group barriers *)
Definition pending (v : t) (g : Z) : list Z := default [] (group_barrier_requests_ v !! g).

Section group_barriers.
Context (SendMsg : Message.t → Z) (Hsend : ∀ m, 0 < SendMsg m).
Context (now g : Z) (ids : list Z) (expected : Z).

Definition group_ready (v : t) : Prop :=
  resender_ v = None ∧ GetNodeIDs (postoffice_ v) g = Ok ids ∧
  num_expected_requests (postoffice_ v) g (Z.of_nat (length ids)) = expected.

Lemma group_barrier_step msg v :
  group_ready v → barrier_request g msg → Z.of_nat (length (pending v g)) < expected →
  let all := pending v g ++ [Meta.sender (Message.meta msg)] in
  ∃ v' evs, ProcessBarrierCommand SendMsg now msg v = Ok v' ∧ group_ready v' ∧
    shared_node_mapping_ v' = shared_node_mapping_ v ∧ log v' = log v ++ evs ∧
    if Z.of_nat (length all) =? expected then
      pending v' g = [] ∧
      ∀ r, num_answers Control.BARRIER r evs = occurrences r (recipients v all)
    else pending v' g = all ∧ evs = [].
Proof using Hsend.
  intros (Hres & Hids & Hexp) [Hreq Hg] Hlt all. unfold ProcessBarrierCommand.
  rewrite Hreq, Hg. fold (pending v g). fold all. cbv zeta.
  match goal with |- context [GetNodeIDs (postoffice_ ?w) _] => set (v1 := w) end.
  change (postoffice_ v1) with (postoffice_ v). rewrite Hids. cbn [mbind result_bind].
  rewrite Hexp. destruct (_ =? expected).
  - send_loop Hsend Hres b. cbn [mbind result_bind].
    eexists _, _. split; [reflexivity|]. split; [done|]. split; [done|]. split; [reflexivity|].
    split; [|intros r; apply num_answers_messages].
    unfold pending. simpl. by rewrite lookup_insert_eq.
  - exists v1, []. split; [done|]. split; [done|]. split; [done|].
    split; [by rewrite app_nil_r|]. split; [|done].
    unfold pending, v1. simpl. by rewrite lookup_insert_eq.
Qed.

Lemma group_barrier_run msgs v :
  group_ready v → Forall (barrier_request g) msgs →
  Z.of_nat (length (pending v g)) < expected →
  ∃ v' evs n, handle_all (ProcessBarrierCommand SendMsg now) msgs v = Ok v' ∧
    log v' = log v ++ evs ∧ shared_node_mapping_ v' = shared_node_mapping_ v ∧
    Z.of_nat (length (pending v' g)) < expected ∧
    n * expected + Z.of_nat (length (pending v' g)) =
      Z.of_nat (length (pending v g)) + Z.of_nat (length msgs) ∧
    ∀ r, is_shared v r = false →
      num_answers Control.BARRIER r evs + occurrences r (pending v' g) =
      occurrences r (pending v g ++ map (λ m, Meta.sender (Message.meta m)) msgs).
Proof using Hsend.
  intros Hv Hms. revert v Hv. induction Hms as [|m msgs Hm _ IH]; intros v Hv Hp.
  { exists v, [], 0. split; [done|]. rewrite app_nil_r. split_and!; [done|done|lia|simpl; lia|].
    intros r _. simpl. rewrite app_nil_r. done. }
  destruct (group_barrier_step m v Hv Hm Hp) as (v1 & e1 & H1 & Hv1 & Hs1 & Hl1 & Hst).
  rewrite length_app in Hst. cbn [length] in Hst.
  set (k := if Z.of_nat (length (pending v g) + 1) =? expected then 1 else 0).
  assert (Z.of_nat (length (pending v1 g)) < expected ∧
          k * expected + Z.of_nat (length (pending v1 g)) = Z.of_nat (length (pending v g)) + 1)
    as [Hp1 Hk].
  { unfold k. destruct (_ =? _) eqn:E; destruct Hst as [-> _]; rewrite ?length_app; cbn [length].
    - apply Z.eqb_eq in E. lia.
    - apply Z.eqb_neq in E. lia. }
  destruct (IH v1 Hv1 Hp1) as (v' & e2 & n & H2 & Hl2 & Hs2 & Hp2 & Hn & Hr2).
  exists v', (e1 ++ e2), (k + n). cbn [handle_all]. rewrite H1. cbn [mbind result_bind length map].
  split_and!; [done|by rewrite Hl2, Hl1, app_assoc|congruence|done|lia|].
  intros r Hsh. rewrite num_answers_app.
  assert (is_shared v1 r = false) as Hsh1 by (unfold is_shared in *; by rewrite Hs1).
  specialize (Hr2 r Hsh1). rewrite cons_middle, app_assoc, occurrences_app.
  rewrite occurrences_app in Hr2.
  destruct (_ =? expected); destruct Hst as [Hp' He].
  - rewrite He, occurrences_recipients by done. rewrite Hp' in Hr2. unfold occurrences in *. simpl in *. lia.
  - subst e1. rewrite Hp' in Hr2. unfold num_answers at 1. simpl. lia.
Qed.
End group_barriers.

(** Group barriers: the scheduler keeps the senders of the requests of an
    unfinished round, fewer than the expected number; each time the number is
    reached every sender of the round is answered, so at any time the answers a
    node got and its requests still pending add up to the requests it made. *)
Theorem group_barrier_answers SendMsg now g ids expected msgs v :
  (∀ m, 0 < SendMsg m) → group_ready g ids expected v → Forall (barrier_request g) msgs →
  pending v g = [] → 0 < expected →
  ∃ v' evs, handle_all (ProcessBarrierCommand SendMsg now) msgs v = Ok v' ∧
    log v' = log v ++ evs ∧
    Z.of_nat (length (pending v' g)) = Z.of_nat (length msgs) mod expected ∧
    ∀ r, is_shared v r = false →
      num_answers Control.BARRIER r evs + occurrences r (pending v' g) =
      occurrences r (map (λ m, Meta.sender (Message.meta m)) msgs).
Proof.
  intros Hsend Hv Hms Hp Hex.
  destruct (group_barrier_run SendMsg Hsend now g ids expected msgs v Hv Hms)
    as (v' & evs & n & H1 & H2 & _ & Hp' & Hn & Hr); [rewrite Hp; simpl; lia|].
  rewrite Hp in Hn, Hr. exists v', evs. split_and!; [done|done| |exact Hr].
  simpl in Hn. apply (Z.mod_unique_pos _ _ n); lia.
Qed.

Lemma group_barrier_answers_witness :
  ∃ v' evs, handle_all (ProcessBarrierCommand (λ _, 1) 7)
      (map (λ s, demo_request Control.BARRIER s 4) [9; 13; 9]) demo_van = Ok v' ∧
    log v' = log demo_van ++ evs ∧ Z.of_nat (length (pending v' 4)) = 1.
Proof.
  destruct (group_barrier_answers (λ _, 1) 7 4 [9; 11; 13; 15] 2
     (map (λ s, demo_request Control.BARRIER s 4) [9; 13; 9]) demo_van) as (v' & evs & H1 & H2 & H3 & _);
    try done; try (apply (bool_decide_unpack _); vm_compute; exact I).
  exists v', evs. split_and!; [exact H1|exact H2|exact H3].
Defined.

(** What a group barrier waits for: with the groups that [Start] makes, the
    number of requests expected for group [g] is one per worker process, one
    per server process and one for the scheduler, as the bits of [g] say. *)
Theorem group_barrier_expected po g :
  cluster_ok po → Postoffice.node_ids_ po = ∅ → 1 ≤ g ≤ 7 →
  num_expected_requests po g (Z.of_nat (length (members (init_node_ids po) g))) =
    (if Z.testbit g 2 then Postoffice.num_workers_ po else 0) +
    (if Z.testbit g 1 then Postoffice.num_servers_ po else 0) +
    (if Z.testbit g 0 then 1 else 0).
Proof.
  intros Hc He Hg. rewrite init_node_ids_group, !length_app by done.
  destruct Hc as (Hw & Hs & Hgs & _ & _).
  assert (Z.of_nat (length (worker_ids po)) = Postoffice.num_workers_ po * Postoffice.group_size_ po)
    as HW by (unfold worker_ids; rewrite length_map, length_seqZ; nia).
  assert (Z.of_nat (length (server_ids po)) = Postoffice.num_servers_ po * Postoffice.group_size_ po)
    as HS by (unfold server_ids; rewrite length_map, length_seqZ; nia).
  assert ((g =? kScheduler) = negb (Z.testbit g 2) && negb (Z.testbit g 1) ∧
          negb (Z.land g kScheduler =? 0) = Z.testbit g 0 ∧
          Z.testbit g 2 || Z.testbit g 1 || Z.testbit g 0 = true) as (Hone & Hsch & Hsome).
  { assert (g = 1 ∨ g = 2 ∨ g = 3 ∨ g = 4 ∨ g = 5 ∨ g = 6 ∨ g = 7) as Hcase by lia.
    destruct_or! Hcase; subst g; done. }
  assert (∀ a n, n = a * Postoffice.group_size_ po → Z.quot n (Postoffice.group_size_ po) = a) as Hq
    by (intros a n ->; apply Z.quot_mul; lia).
  unfold num_expected_requests. rewrite Hone, Hsch.
  destruct (Z.testbit g 2), (Z.testbit g 1), (Z.testbit g 0); try done; cbn [negb andb length];
    rewrite ?Nat2Z.inj_add, ?HW, ?HS;
    first [rewrite (Hq (Postoffice.num_workers_ po + Postoffice.num_servers_ po)) by lia
          |rewrite (Hq (Postoffice.num_workers_ po)) by lia
          |rewrite (Hq (Postoffice.num_servers_ po)) by lia]; lia.
Qed.

Lemma group_barrier_expected_witness :
  num_expected_requests demo_po 7 (Z.of_nat (length (members (init_node_ids demo_po) 7))) = 6.
Proof.
  rewrite (group_barrier_expected demo_po 7);
    [reflexivity|by apply (bool_decide_unpack _); vm_compute|done|lia].
Defined.

(** ** Heartbeats *)
Lemma heartbeat_nodes_Ok SendMsg now ns v :
  (∀ m, 0 < SendMsg m) → resender_ v = None → is_scheduler_ v = true →
  ∃ v', heartbeat_nodes SendMsg now ns v = Ok v' ∧
    log v' = log v ++ map Sent (zip_with (λ n ts, addressed (heartbeat_message (Node.id n) v) (Node.id n) ts)
                                  ns (stamps (timestamp_ v) (length ns))) ∧
    Postoffice.heartbeats_ (postoffice_ v') =
      foldl (λ m n, <[Node.id n := now]> m) (Postoffice.heartbeats_ (postoffice_ v)) ns.
Proof.
  intros Hsend. revert v. induction ns as [|n ns IH]; intros v Hr Hs; cbn [heartbeat_nodes].
  { exists v. split; [done|]. by rewrite app_nil_r. }
  set (v1 := UpdateHeartbeat_ (Node.id n) now v).
  change (is_scheduler_ v1) with (is_scheduler_ v). rewrite Hs.
  unfold GetTimestamp. cbv iota beta zeta.
  change (v1 <| timestamp_ ::= (λ ts, i32 (ts + 1)) |>)
    with (v1 <| timestamp_ := i32 (timestamp_ v + 1) |>).
  match goal with |- context [Send _ _ ?m _] =>
    destruct (Send_Ok SendMsg Hsend now m (i32 (timestamp_ v + 1)) v1 Hr) as [b ->] end.
  cbn [mbind result_bind snd].
  match goal with |- context [heartbeat_nodes _ _ _ ?w] => destruct (IH w Hr Hs) as (v' & -> & Hl & Hh) end.
  exists v'. split; [done|]. rewrite Hl, Hh. split; [|done].
  cbn [advance log timestamp_ length stamps zip_with map]. by rewrite <- app_assoc.
Qed.

(** Heartbeats: the scheduler records the time of every node a heartbeat
    names and answers each of them, in order, with a heartbeat of its own; so
    such a node is not dead for the next [t] seconds. *)
Theorem heartbeat_recorded_and_answered SendMsg now msg v :
  (∀ m, 0 < SendMsg m) → resender_ v = None → is_scheduler_ v = true →
  let ns := Control.node (Meta.control (Message.meta msg)) in
  ∃ v', ProcessHearbeat SendMsg now msg v = Ok v' ∧
    (∀ n, n ∈ ns → Postoffice.heartbeats_ (postoffice_ v') !! Node.id n = Some now) ∧
    (∀ n t later, n ∈ ns → later ≤ now + t → is_dead (postoffice_ v') t later (Node.id n) = false) ∧
    ∃ acks, log v' = log v ++ map Sent acks ∧
      map (λ a, Meta.recver (Message.meta a)) acks = map Node.id ns ∧
      Forall (λ a, Meta.control (Message.meta a) = Control.mk Control.HEARTBEAT [my_node_ v] 0 0) acks.
Proof.
  intros Hsend Hr Hs ns. unfold ProcessHearbeat. fold ns.
  destruct (heartbeat_nodes_Ok SendMsg now ns v Hsend Hr Hs) as (v' & -> & Hl & Hh).
  assert (∀ n, n ∈ ns → Postoffice.heartbeats_ (postoffice_ v') !! Node.id n = Some now) as Hin.
  { rewrite Hh. generalize (Postoffice.heartbeats_ (postoffice_ v)). clear.
    induction ns as [|x ns IH] using rev_ind; intros m n Hn; [by apply elem_of_nil in Hn|].
    rewrite foldl_app. simpl. destruct (decide (Node.id n = Node.id x)) as [->|Hne].
    - apply lookup_insert_eq.
    - rewrite lookup_insert_ne by done. apply IH. set_solver. }
  exists v'. split; [done|]. split; [done|]. split.
  - intros n t later Hn Hle. unfold is_dead. rewrite (Hin n Hn).
    rewrite (proj2 (Z.ltb_ge _ _)) by lia. done.
  - eexists. split; [exact Hl|]. clear. generalize (timestamp_ v). induction ns as [|n ns IH]; intros ts.
    { by split. }
    destruct (IH (i32 (ts + 1))) as [E F]. simpl. split; [by rewrite E|]. by constructor.
Qed.

Lemma heartbeat_recorded_and_answered_witness :
  ∃ v', ProcessHearbeat (λ _, 1) 50 (Message.mk (heartbeat_message 1 demo_van) []) demo_van = Ok v' ∧
    Postoffice.heartbeats_ (postoffice_ v') !! 1 = Some 50.
Proof.
  destruct (heartbeat_recorded_and_answered (λ _, 1) 50 (Message.mk (heartbeat_message 1 demo_van) [])
    demo_van) as (v' & H & Hh & _); [done|done|done|].
  exists v'. split; [exact H|]. apply (Hh (my_node_ demo_van)). left.
Defined.

(** ** Data messages *)

(** Dispatch: a data message goes to the customer its customer id names on
    a worker, and to the customer its application id names on a server or the
    scheduler; without that customer, or with an empty sender, receiver or
    application, the process stops with a failed check. *)
Theorem data_message_dispatch polls customers msg v :
  let m := Message.meta msg in
  let cid := if Postoffice.is_worker_ (postoffice_ v) then Meta.customer_id m else Meta.app_id m in
  ProcessDataMsg (customers :: polls) msg v =
    if bool_decide (Meta.sender m = kEmpty ∨ Meta.recver m = kEmpty ∨ Meta.app_id m = kEmpty) then
      Err (CheckFailed (if bool_decide (Meta.sender m = kEmpty) then "msg.meta.sender"
                        else if bool_decide (Meta.recver m = kEmpty) then "msg.meta.recver"
                        else "msg.meta.app_id"))
    else
      match (match customers !! Meta.app_id m with
             | Some in_app => in_app !! cid
             | None => poll_customers (take 5000 polls) (Meta.app_id m) cid
             end) with
      | Some obj => Ok (emit (Delivered obj msg) v)
      | None => Err (CheckFailed "timeout (5 sec) to wait App")
      end.
Proof.
  intros m cid. unfold ProcessDataMsg. fold m. fold cid.
  destruct (decide (Meta.sender m = kEmpty)) as [Hs|Hs].
  { rewrite (bool_decide_eq_true_2 (_ ∨ _)), (bool_decide_eq_true_2 (Meta.sender m = _)) by tauto.
    by rewrite bool_decide_eq_false_2 by tauto. }
  rewrite (bool_decide_eq_true_2 (Meta.sender m ≠ _)), (bool_decide_eq_false_2 (Meta.sender m = _)) by done.
  destruct (decide (Meta.recver m = kEmpty)) as [Hr|Hr].
  { rewrite (bool_decide_eq_true_2 (_ ∨ _)), (bool_decide_eq_true_2 (Meta.recver m = _)) by tauto.
    by rewrite bool_decide_eq_false_2 by tauto. }
  rewrite (bool_decide_eq_true_2 (Meta.recver m ≠ _)), (bool_decide_eq_false_2 (Meta.recver m = _)) by done.
  destruct (decide (Meta.app_id m = kEmpty)) as [Ha|Ha].
  { rewrite (bool_decide_eq_true_2 (_ ∨ _)) by tauto. by rewrite bool_decide_eq_false_2 by tauto. }
  rewrite (bool_decide_eq_true_2 (Meta.app_id m ≠ _)), (bool_decide_eq_false_2 (_ ∨ _)) by tauto.
  unfold GetCustomer. change (Z.to_nat (5 * 1000 + 1)) with (S 5000). cbn [take poll_customers].
  destruct (customers !! Meta.app_id m); [by destruct (_ !! cid)|].
  by destruct (poll_customers _ _ _).
Qed.
