(* ===== verification/Registration.v ===== *)
(** * Registration at the scheduler

    When every worker and server has sent its description, the scheduler of
    Van.v orders the nodes, gives each an id and tells all of them about all
    the others.  These are the facts about the ids. *)

From S2P Require Import Prelude Message Env Postoffice Resender Van VanFacts.
Import Van.

(** ** The ids of a list of nodes *)

(** The ids the scheduler gives, from [s] servers and [w] workers on. *)
Fixpoint assigned (preferred : bool) (s w : Z) (ns : list Node.t) : list Node.t :=
  match ns with
  | [] => []
  | n :: ns' =>
      match Node.role n with
      | Node.SERVER =>
          n <| Node.id := ServerRankToID (if preferred then Node.aux_id n else s) |>
          :: assigned preferred (s + 1) w ns'
      | Node.WORKER =>
          n <| Node.id := WorkerRankToID (if preferred then Node.aux_id n else w) |>
          :: assigned preferred s (w + 1) ns'
      | _ =>
          n <| Node.id := WorkerRankToID (if preferred then Node.aux_id n else w) |>
          :: assigned preferred s w ns'
      end
  end.

Definition is_server (n : Node.t) : bool := bool_decide (Node.role n = Node.SERVER).
Definition is_worker (n : Node.t) : bool := bool_decide (Node.role n = Node.WORKER).
Definition num_of (p : Node.t → bool) (ns : list Node.t) : Z :=
  Z.of_nat (length (List.filter p ns)).

Lemma role_spec n :
  is_server n = match Node.role n with Node.SERVER => true | _ => false end ∧
  is_worker n = match Node.role n with Node.WORKER => true | _ => false end.
Proof. unfold is_server, is_worker. by destruct (Node.role n). Qed.

(** Case analysis on the role of a node. *)
Ltac role_cases n :=
  destruct (role_spec n) as [Hserver Hworker];
  destruct (Node.role n); rewrite ?Hserver, ?Hworker in *.

(** A node without its id. *)
Definition anonymous (n : Node.t) : Node.t := n <| Node.id := kEmpty |>.

Lemma assigned_anonymous p s w ns : map anonymous (assigned p s w ns) = map anonymous ns.
Proof.
  revert s w. induction ns as [|n ns IH]; intros s w; simpl; [done|].
  destruct (Node.role n); simpl; f_equal; apply IH.
Qed.

Lemma assigned_node_host_ip p s w ns :
  map node_host_ip (assigned p s w ns) = map node_host_ip ns.
Proof.
  revert s w. induction ns as [|n ns IH]; intros s w; simpl; [done|].
  destruct (Node.role n); simpl; f_equal; apply IH.
Qed.

Lemma num_of_cons p n ns : num_of p (n :: ns) = (if p n then 1 else 0) + num_of p ns.
Proof. unfold num_of. simpl. destruct (p n); simpl; lia. Qed.

(** ** The assigning loop *)

(** The van after the nodes [ns'] were given their ids. *)
Definition admitted (now : Z) (ns' : list Node.t) (v v' : t) : Prop :=
  log v' = log v ++ map Connected ns' ∧ timestamp_ v' = timestamp_ v ∧
  resender_ v' = resender_ v ∧ shared_node_mapping_ v' = shared_node_mapping_ v ∧
  Postoffice.node_ids_ (postoffice_ v') = Postoffice.node_ids_ (postoffice_ v) ∧
  (∀ id, Postoffice.heartbeats_ (postoffice_ v) !! id = Some now ∨ id ∈ map Node.id ns' →
         Postoffice.heartbeats_ (postoffice_ v') !! id = Some now) ∧
  my_node_ v' = my_node_ v.

Lemma admitted_trans now ns1 ns2 v v1 v2 :
  admitted now ns1 v v1 → admitted now ns2 v1 v2 → admitted now (ns1 ++ ns2) v v2.
Proof.
  intros (L1 & T1 & R1 & S1 & I1 & H1 & M1) (L2 & T2 & R2 & S2 & I2 & H2 & M2).
  split_and!; try congruence.
  - by rewrite L2, L1, map_app, app_assoc.
  - intros id Hid. apply H2. rewrite map_app, elem_of_app in Hid.
    destruct Hid as [|[|]]; auto.
Qed.

Lemma assign_ids_fresh now preferred ns v :
  Forall (λ n, Node.id n = kEmpty) ns → NoDup (map node_host_ip ns) →
  Forall (λ n, connected_nodes_ v !! node_host_ip n = None) ns →
  0 ≤ num_servers_ v → num_servers_ v + Z.of_nat (length ns) < 2 ^ 31 →
  0 ≤ num_workers_ v → num_workers_ v + Z.of_nat (length ns) < 2 ^ 31 →
  ∃ v', assign_ids now preferred ns v =
          Ok (assigned preferred (num_servers_ v) (num_workers_ v) ns, v') ∧
    admitted now (assigned preferred (num_servers_ v) (num_workers_ v) ns) v v' ∧
    num_servers_ v' = num_servers_ v + num_of is_server ns ∧
    num_workers_ v' = num_workers_ v + num_of is_worker ns.
Proof.
  intros Hid. revert v. induction Hid as [|n ns Hn Hid IH]; intros v Hnd Hfresh Hs HS Hw HW.
  { exists v. split; [done|]. split; [|unfold num_of; simpl; lia].
    split_and!; rewrite ?app_nil_r; try done. intros n [Hn|Hn]; [done|by apply elem_of_nil in Hn]. }
  cbn [map] in Hnd. apply NoDup_cons in Hnd as [Hni Hnd]. apply Forall_cons in Hfresh as [Hf Hfresh].
  cbn [assign_ids]. rewrite Hf, Hn, Z.eqb_refl. cbn [mbind result_bind fst snd].
  match goal with |- context [count_role n ?w] => set (v1 := count_role n w) end.
  assert (num_servers_ v1 = num_servers_ v + (if is_server n then 1 else 0) ∧
          num_workers_ v1 = num_workers_ v + (if is_worker n then 1 else 0)) as [Hs1 Hw1].
  { unfold v1, count_role, is_server, is_worker. cbn [length] in *.
    destruct (Node.role n); simpl; rewrite ?swrap_small by word_lia; lia. }
  assert (connected_nodes_ v1 = <[node_host_ip n := new_id preferred n v]> (connected_nodes_ v)) as Hc1
    by (unfold v1, count_role; by destruct (Node.role n)).
  set (n' := n <| Node.id := new_id preferred n v |>).
  assert (admitted now [n'] v v1) as Hv1.
  { unfold v1, count_role. destruct (Node.role n); split_and!; try done;
      (intros id [Hh|Hi]; simpl; [destruct (decide (id = new_id preferred n v)) as [->|];
         [apply lookup_insert_eq|by rewrite lookup_insert_ne]
       |apply list_elem_of_singleton in Hi as ->; apply lookup_insert_eq]). }
  destruct (IH v1) as (v' & -> & Hadm & Hs' & Hw'); try done.
  { rewrite Hc1. apply Forall_forall. intros m Hm. rewrite lookup_insert_ne.
    - by apply (proj1 (Forall_forall _ _) Hfresh).
    - intros Heq. apply Hni. rewrite Heq. by apply list_elem_of_fmap_2. }
  1-4: cbn [length] in *; repeat case_match; lia.
  assert (n' :: assigned preferred (num_servers_ v1) (num_workers_ v1) ns =
          assigned preferred (num_servers_ v) (num_workers_ v) (n :: ns)) as Heq.
  { rewrite Hs1, Hw1. unfold n', new_id, is_server, is_worker. cbn [assigned].
    destruct (Node.role n); simpl; rewrite ?Z.add_0_r; done. }
  exists v'. rewrite <- Heq, !num_of_cons. cbn [mbind result_bind fst snd].
  split; [done|]. split; [|lia]. by apply (admitted_trans now [n'] _ v v1).
Qed.

(** ** The ids are those of the cluster *)
Definition aux_ids (p : Node.t → bool) (ns : list Node.t) : list Z :=
  map Node.aux_id (List.filter p ns).

Lemma seqZ_step m k : 0 ≤ k → seqZ m (1 + k) = m :: seqZ (m + 1) k.
Proof.
  intros. rewrite seqZ_cons by lia. f_equal. by replace (Z.pred (1 + k)) with k by lia.
Qed.

Lemma assigned_ids_by_rank s w ns :
  Forall (λ n, is_server n || is_worker n) ns →
  map Node.id (assigned false s w ns) ≡ₚ
  map WorkerRankToID (seqZ w (num_of is_worker ns)) ++
  map ServerRankToID (seqZ s (num_of is_server ns)).
Proof.
  intros Hr. revert s w. induction Hr as [|n ns Hn _ IH]; intros s w; [done|].
  rewrite !num_of_cons. cbn [assigned].
  assert (0 ≤ num_of is_worker ns ∧ 0 ≤ num_of is_server ns) as [? ?] by (unfold num_of; lia).
  role_cases n; simpl in Hn |- *; try done.
  - rewrite (seqZ_step s) by done. simpl. rewrite IH.
    by rewrite <- Permutation_middle.
  - rewrite (seqZ_step w) by done. simpl. by rewrite IH.
Qed.

Lemma assigned_ids_by_preference s w ns :
  Forall (λ n, is_server n || is_worker n) ns →
  map Node.id (assigned true s w ns) ≡ₚ
  map WorkerRankToID (aux_ids is_worker ns) ++ map ServerRankToID (aux_ids is_server ns).
Proof.
  intros Hr. revert s w. unfold aux_ids. induction Hr as [|n ns Hn _ IH]; intros s w; [done|].
  cbn [assigned List.filter]. role_cases n; simpl in Hn |- *; try done.
  - rewrite IH. by rewrite <- Permutation_middle.
  - by rewrite IH.
Qed.

Lemma collect_ranks_Ok ns S0 W0 S W :
  collect_ranks ns S0 W0 = Ok (S, W) →
  NoDup (aux_ids is_server ns) ∧ NoDup (aux_ids is_worker ns) ∧
  S = list_to_set (aux_ids is_server ns) ∪ S0 ∧ W = list_to_set (aux_ids is_worker ns) ∪ W0 ∧
  (∀ x, x ∈ aux_ids is_server ns → x ∉ S0) ∧ (∀ x, x ∈ aux_ids is_worker ns → x ∉ W0).
Proof.
  revert S0 W0. induction ns as [|n ns IH]; intros S0 W0 H; simpl in H.
  { injection H as <- <-. unfold aux_ids. simpl.
    split_and!; try apply NoDup_nil_2; set_solver. }
  unfold aux_ids in *. cbn [List.filter]. role_cases n; simpl; try done;
    (case_bool_decide as Hni; [|done]);
    apply IH in H as (ND1 & ND2 & -> & -> & D1 & D2); clear IH; simpl.
  - split_and!; try done; [apply NoDup_cons; split; [|done]; intros Hin; apply D1 in Hin; set_solver
      |clear; set_solver|].
    intros x [->|Hx]%elem_of_cons; [done|]. apply D1 in Hx. set_solver.
  - split_and!; try done; [apply NoDup_cons; split; [|done]; intros Hin; apply D2 in Hin; set_solver
      |clear; set_solver|].
    intros x [->|Hx]%elem_of_cons; [done|]. apply D2 in Hx. set_solver.
Qed.

Lemma contiguous_ranks l n :
  NoDup l → 0 ≤ n →
  forallb (λ i, bool_decide (i ∈ (list_to_set l : gset Z))) (seqZ 0 n)
    && (Z.of_nat (size (list_to_set l : gset Z)) =? n) = true →
  l ≡ₚ seqZ 0 n.
Proof.
  intros Hnd Hn [Hall Hsz]%andb_true_iff. apply Z.eqb_eq in Hsz.
  rewrite size_list_to_set in Hsz by done. rewrite forallb_forall in Hall.
  symmetry. apply submseteq_length_Permutation; [|rewrite length_seqZ; lia].
  apply NoDup_submseteq; [apply NoDup_seqZ|]. intros x Hx.
  apply list_elem_of_In in Hx. apply Hall, bool_decide_eq_true_1 in Hx. set_solver.
Qed.

(** ** The comparisons given to [std::sort] *)

Lemma strict_weak_lex {A} (f : A → Z) lt :
  strict_weak lt → strict_weak (λ a b, if f a =? f b then lt a b else f a <? f b).
Proof.
  intros [Hi Ht Hn]. constructor.
  - intros a. rewrite Z.eqb_refl. apply Hi.
  - intros a b c.
    destruct (Z.eqb_spec (f a) (f b)), (Z.eqb_spec (f b) (f c)), (Z.eqb_spec (f a) (f c));
      rewrite ?Z.ltb_lt; try lia; eauto.
  - intros a b c. rewrite (Z.eqb_sym (f b) (f a)), (Z.eqb_sym (f c) (f b)), (Z.eqb_sym (f c) (f a)).
    destruct (Z.eqb_spec (f a) (f b)), (Z.eqb_spec (f b) (f c)), (Z.eqb_spec (f a) (f c));
      rewrite ?Z.ltb_ge; try lia; eauto.
Qed.

Lemma str_compare_spec a b :
  (str_compare a b = 0 ↔ a = b) ∧ str_compare b a = - str_compare a b ∧ -1 ≤ str_compare a b ≤ 1.
Proof.
  revert b. induction a as [|x a IH]; intros [|y b]; simpl; try (split_and!; done || lia).
  rewrite (N.compare_antisym (Byte.to_N x) (Byte.to_N y)).
  destruct (N.compare_spec (Byte.to_N x) (Byte.to_N y)) as [E|E|E]; simpl.
  - destruct (IH b) as (H1 & H2 & H3). split; [|by split].
    rewrite H1. split; [|by intros [= -> ->]]. intros ->. f_equal.
    assert (Some x = Some y) as [= ->]; [|done]. by rewrite <- !Byte.of_to_N, E.
  - split; [|by split]. split; [lia|]. intros [= -> ->]. lia.
  - split; [|by split]. split; [lia|]. intros [= -> ->]. lia.
Qed.

Lemma str_compare_trans a b c :
  str_compare a b = 1 → str_compare b c = 1 → str_compare a c = 1.
Proof.
  revert b c. induction a as [|x a IH]; intros [|y b] [|z c]; simpl; try done.
  destruct (N.compare_spec (Byte.to_N x) (Byte.to_N y)), (N.compare_spec (Byte.to_N y) (Byte.to_N z)),
    (N.compare_spec (Byte.to_N x) (Byte.to_N z)); try lia; eauto.
Qed.

Lemma by_host_port_true a b :
  by_host_port a b = true ↔
  str_compare (Node.hostname a) (Node.hostname b) = 1 ∨
  (Node.hostname a = Node.hostname b ∧ Node.port a < Node.port b).
Proof.
  unfold by_host_port.
  destruct (str_compare_spec (Node.hostname a) (Node.hostname b)) as (H0 & _ & Hr). rewrite <- H0.
  assert (str_compare (Node.hostname a) (Node.hostname b) ∈ [-1; 0; 1]) as Hc
    by (rewrite !elem_of_cons; lia).
  rewrite !elem_of_cons, elem_of_nil in Hc.
  destruct Hc as [-> | [-> | [-> |[]]]]; destruct (Z.ltb_spec (Node.port a) (Node.port b)); simpl;
    split; try done; lia.
Qed.

(** Nodes that the comparison does not tell apart have the same address. *)
Lemma by_host_port_incomparable a b :
  by_host_port a b = false → by_host_port b a = false →
  Node.hostname a = Node.hostname b ∧ Node.port a = Node.port b.
Proof.
  rewrite <- !not_true_iff_false, !by_host_port_true.
  destruct (str_compare_spec (Node.hostname a) (Node.hostname b)) as (H0 & Hop & Hr).
  rewrite Hop. intros Hab Hba.
  assert (str_compare (Node.hostname a) (Node.hostname b) = 0) as He%H0 by lia.
  split; [done|]. destruct (Z.lt_total (Node.port a) (Node.port b)) as [|[|]]; naive_solver.
Qed.

Lemma by_host_port_strict_weak : strict_weak by_host_port.
Proof.
  assert (∀ a, by_host_port a a = false) as Hirr.
  { intros a. apply not_true_iff_false. rewrite by_host_port_true.
    rewrite (proj2 (proj1 (str_compare_spec _ _)) eq_refl). lia. }
  constructor; [done| |].
  - intros a b c. rewrite !by_host_port_true. intros [Hab|[Hab ?]] [Hbc|[Hbc ?]].
    + left. by eapply str_compare_trans.
    + rewrite <- Hbc. by left.
    + rewrite Hab. by left.
    + right. split; [congruence|lia].
  - intros a b c Hab Hba Hbc Hcb.
    destruct (by_host_port_incomparable a b Hab Hba) as [Hh1 Hp1].
    unfold by_host_port in *. rewrite Hh1, Hp1. done.
Qed.

(** The comparisons given to [std::sort] are strict weak orders, as
    [std::sort] requires: by host name (descending) and port (ascending), by
    the number of nodes on the host and then host and port, and by the host's
    position in BYTEPS_ORDERED_HOSTS. *)
Theorem comparisons_strict_weak :
  strict_weak by_host_port ∧ (∀ cnt, strict_weak (by_colocation cnt)) ∧
  (∀ pos, strict_weak (by_position pos)).
Proof.
  split; [apply by_host_port_strict_weak|]. split.
  - intros cnt.
    exact (strict_weak_lex (λ n, default 0 (cnt !! Node.hostname n)) _ by_host_port_strict_weak).
  - intros pos. exact (strict_weak_key (λ n, default 0 (pos !! Node.hostname n))).
Qed.

(** What [std::sort] promises for a strict weak order: the same nodes, none of
    them before one that is less. *)
Definition std_sort (sort : (Node.t → Node.t → bool) → list Node.t → list Node.t) : Prop :=
  ∀ c l, strict_weak c → sort c l ≡ₚ l ∧ StronglySorted (λ a b, c b a = false) (sort c l).

(** The order of the nodes [ns] in the configuration [e]. *)
Definition node_order (e : Environment) (ns : list Node.t) : Node.t → Node.t → bool :=
  if match getenv e "BYTEPS_ENABLE_MIXED_MODE" with Some s => negb (atoi s =? 0) | None => false end then
    by_colocation (match count_hosts ns ∅ with Ok cnt => cnt | Err _ => ∅ end)
  else
    match getenv e "BYTEPS_ORDERED_HOSTS" with
    | Some hosts =>
        let hosts := bytes_of hosts in
        by_position (match host_positions 0 (hosts_list (length hosts) hosts) ∅ with Ok pos => pos | Err _ => ∅ end)
    | None => by_host_port
    end.

Lemma sort_nodes_ordered e sort ns sorted :
  std_sort sort → sort_nodes e sort ns = Ok sorted →
  sorted ≡ₚ ns ∧ StronglySorted (λ a b, node_order e ns b a = false) sorted.
Proof.
  intros Hsort. destruct comparisons_strict_weak as (H1 & H2 & H3). unfold sort_nodes, node_order.
  generalize (match getenv e "BYTEPS_ENABLE_MIXED_MODE" with
              | Some s => negb (atoi s =? 0) | None => false end); intros mixed. cbv zeta.
  destruct (negb (mixed && _)); [|done]. destruct mixed.
  - intros (cnt & -> & Hok)%bind_Ok. case_match; [|done]. injection Hok as <-. by apply Hsort.
  - case_match; [intros (pos & -> & [= <-])%bind_Ok|intros [= <-]]; by apply Hsort.
Qed.

Lemma num_of_perm p l1 l2 : l1 ≡ₚ l2 → num_of p l1 = num_of p l2.
Proof.
  unfold num_of. intros H. f_equal. apply Permutation_length.
  induction H; simpl; repeat case_match; try done; eauto using Permutation.
Qed.

(** The rank behind the id of an assigned node. *)
Lemma assigned_rank p s w ns n :
  Forall (λ n, is_server n || is_worker n) ns → n ∈ assigned p s w ns →
  let q := if is_server n then is_server else is_worker in
  ∃ k, Node.id n = (if is_server n then ServerRankToID k else WorkerRankToID k) ∧
    if p then k = Node.aux_id n ∧ k ∈ aux_ids q ns
    else (if is_server n then s else w) ≤ k < (if is_server n then s else w) + num_of q ns.
Proof.
  intros Hr. revert s w. induction Hr as [|x ns Hx _ IH]; intros s w Hn; cbn [assigned] in Hn.
  { by apply elem_of_nil in Hn. }
  assert (∀ f, 0 ≤ num_of f ns) as Hpos by (intros f; unfold num_of; lia).
  cbv zeta. rewrite !num_of_cons. unfold aux_ids. cbn [List.filter].
  role_cases x; simpl in Hx; try done; apply elem_of_cons in Hn as [->|Hn].
  all: try (apply IH in Hn as (k & Hk & Hin); exists k; split; [exact Hk|];
            destruct (is_server n), p; rewrite ?Hserver, ?Hworker; simpl;
            [split; [apply Hin|try right; apply Hin]|lia|split; [apply Hin|try right; apply Hin]|lia]).
  all: (assert (∀ i, is_server (x <| Node.id := i |>) = is_server x) as -> by done);
    rewrite Hserver, ?Hworker; eexists; split; [reflexivity|];
    pose proof (Hpos is_server); pose proof (Hpos is_worker);
    destruct p; simpl; rewrite ?Hserver, ?Hworker; simpl; [split; [done|by left]|lia].
Qed.

(** The id of the node at position [i]: its preferred rank, or the number of
    nodes of its role before it. *)
Definition id_at (preferred : bool) (ns : list Node.t) (i : nat) (n : Node.t) : Z :=
  if is_server n then ServerRankToID (if preferred then Node.aux_id n else num_of is_server (take i ns))
  else WorkerRankToID (if preferred then Node.aux_id n else num_of is_worker (take i ns)).

Lemma assigned_at p s w ns i n :
  Forall (λ n, is_server n || is_worker n) ns → ns !! i = Some n →
  assigned p s w ns !! i = Some (n <| Node.id :=
    if is_server n then ServerRankToID (if p then Node.aux_id n else s + num_of is_server (take i ns))
    else WorkerRankToID (if p then Node.aux_id n else w + num_of is_worker (take i ns)) |>).
Proof.
  intros Hr. revert s w i. induction Hr as [|x ns Hx _ IH]; intros s w i Hi; [done|].
  destruct i as [|i]; cbn in Hi.
  - injection Hi as ->. cbn [assigned take]. change (num_of is_server []) with 0. change (num_of is_worker []) with 0.
    rewrite !Z.add_0_r. by role_cases n.
  - cbn [assigned take]. rewrite !num_of_cons.
    role_cases x; simpl in Hx; try done; cbn [lookup list_lookup]; rewrite (IH _ _ i Hi), ?Z.add_0_l, ?Z.add_assoc; done.
Qed.

(** The ids given are those of the cluster. *)
Lemma assigned_cluster po ns preferred :
  cluster_ok po → Forall (λ n, is_server n || is_worker n) ns →
  num_of is_server ns = Postoffice.num_servers_ po * Postoffice.group_size_ po →
  num_of is_worker ns = Postoffice.num_workers_ po * Postoffice.group_size_ po →
  (preferred = true → check_ranks po ns = Ok ()) →
  map Node.id (assigned preferred 0 0 ns) ≡ₚ worker_ids po ++ server_ids po ∧
  (∀ n, n ∈ assigned preferred 0 0 ns →
     Node.id n ∈ (if is_server n then server_ids po else worker_ids po) ∧
     (preferred = true → IDtoRank (Node.id n) = Node.aux_id n)).
Proof.
  intros Hc Hr Hs Hw Hp.
  assert (preferred = true →
    aux_ids is_server ns ≡ₚ seqZ 0 (Postoffice.num_servers_ po * Postoffice.group_size_ po) ∧
    aux_ids is_worker ns ≡ₚ seqZ 0 (Postoffice.num_workers_ po * Postoffice.group_size_ po)) as Haux.
  { intros Ht. specialize (Hp Ht). unfold check_ranks in Hp.
    apply bind_Ok in Hp as ([S W] & HSW & Hp).
    apply collect_ranks_Ok in HSW as (ND1 & ND2 & -> & -> & _). cbn [fst snd] in Hp.
    rewrite !union_empty_r_L, num_server_instances_eq, num_worker_instances_eq in Hp by done.
    unfold cluster_ok in Hc. do 2 (case_match; [|done]).
    split; apply contiguous_ranks; try done; nia. }
  split.
  - destruct preferred.
    + destruct (Haux eq_refl) as [HS HW].
      rewrite assigned_ids_by_preference, HS, HW by done. done.
    + by rewrite assigned_ids_by_rank, Hs, Hw by done.
  - intros n Hn. destruct (assigned_rank _ _ _ _ _ Hr Hn) as (k & Hk & Hin). rewrite Hk.
    unfold cluster_ok in Hc.
    assert (0 ≤ k < (if is_server n then Postoffice.num_servers_ po * Postoffice.group_size_ po
                     else Postoffice.num_workers_ po * Postoffice.group_size_ po)) as Hrange.
    { destruct preferred.
      - destruct (Haux eq_refl) as [HS HW], Hin as [_ Hin].
        destruct (is_server n); [rewrite HS in Hin|rewrite HW in Hin];
          apply elem_of_seqZ in Hin; lia.
      - destruct (is_server n); lia. }
    split.
    + destruct (is_server n); apply seq_ids_elem; by exists k.
    + intros ->. destruct Hin as [<- _].
      destruct (is_server n); [apply IDtoRank_server|apply IDtoRank_worker]; unfold rank_ok; lia.
Qed.

(** C12. Registration: once all workers and servers have registered, from
    different addresses, and the configured order and the preferred ranks pass
    their checks, the scheduler puts the nodes in the configured order and gives
    each node of a role the id of its position among the nodes of its role, or of
    its preferred rank when ranks are preferred.  These are the ids of the cluster,
    each exactly once.  The scheduler keeps every node's description, connects to
    each of them, sends each of them once the list of all nodes and itself, and is
    ready. *)
Theorem registration_assigns_ids e SendMsg sort now nodes v sorted :
  let po := postoffice_ v in
  let ns := Control.node (Meta.control nodes) in
  (∀ m, 0 < SendMsg m) → std_sort sort →
  cluster_ok po → GetNodeIDs po (kWorkerGroup + kServerGroup) = Ok (worker_ids po ++ server_ids po) →
  resender_ v = None → connected_nodes_ v = ∅ → shared_node_mapping_ v = ∅ →
  num_servers_ v = 0 → num_workers_ v = 0 →
  Forall (λ n, is_server n || is_worker n) ns →
  num_of is_server ns = Postoffice.num_servers_ po * Postoffice.group_size_ po →
  num_of is_worker ns = Postoffice.num_workers_ po * Postoffice.group_size_ po →
  Forall (λ n, Node.id n = kEmpty) ns → NoDup (map node_host_ip ns) →
  sort_nodes e sort ns = Ok sorted →
  (with_preferred_rank sorted = true → check_ranks po sorted = Ok ()) →
  ∃ ns' nodes' v', admit_all e SendMsg sort now nodes v = Ok (nodes', v') ∧
    Control.node (Meta.control nodes') = ns' ++ [my_node_ v] ∧
    sorted ≡ₚ ns ∧ StronglySorted (λ a b, node_order e ns b a = false) sorted ∧
    length ns' = length sorted ∧
    (∀ i n, sorted !! i = Some n →
       ns' !! i = Some (n <| Node.id := id_at (with_preferred_rank sorted) sorted i n |>)) ∧
    map anonymous ns' ≡ₚ map anonymous ns ∧
    map Node.id ns' ≡ₚ worker_ids po ++ server_ids po ∧
    (∀ n, n ∈ ns' → Node.id n ∈ (if is_server n then server_ids po else worker_ids po) ∧
       (with_preferred_rank sorted = true → IDtoRank (Node.id n) = Node.aux_id n)) ∧
    log v' = log v ++ map Connected ns' ++
             map Sent (messages_to nodes' (worker_ids po ++ server_ids po) (timestamp_ v)) ∧
    ready_ v' = true.
Proof.
  intros po ns Hsend Hsort Hc Hids Hres Hcon Hsh Hs0 Hw0 Hroles Hs Hw Hid Hnd Hsorted Hranks.
  destruct (sort_nodes_ordered _ _ _ _ Hsort Hsorted) as [Hperm Hord].
  assert (∀ P : Node.t → Prop, Forall P ns → Forall P sorted) as Htransfer
    by (intros P; by rewrite Hperm).
  assert (Z.of_nat (length sorted) < 2 ^ 31) as Hlen.
  { unfold cluster_ok in Hc. clear -Hroles Hs Hw Hc Hperm. rewrite (Permutation_length Hperm).
    assert (Z.of_nat (length ns) = num_of is_server ns + num_of is_worker ns) as ->; [|lia].
    clear -Hroles. induction Hroles as [|n ns Hn _ IH]; [done|].
    rewrite !num_of_cons. cbn [length]. role_cases n; try done; lia. }
  destruct (assign_ids_fresh now (with_preferred_rank sorted) sorted v) as (v1 & Hass & Hadm & _);
    try (rewrite ?Hs0, ?Hw0; lia); [by apply Htransfer|by rewrite Hperm| |].
  { rewrite Hcon. apply Forall_forall. intros n _. apply lookup_empty. }
  rewrite Hs0, Hw0 in Hass, Hadm. set (ns' := assigned _ 0 0 sorted) in *.
  destruct (assigned_cluster po sorted (with_preferred_rank sorted)) as [Hidp Hidr];
    try done; [by apply Htransfer|by rewrite (num_of_perm _ _ _ Hperm)..|].
  unfold admit_all. fold ns. rewrite Hsorted. cbn [mbind result_bind].
  assert ((if with_preferred_rank sorted then check_ranks po sorted else Ok ()) = Ok ()) as Hck
    by (destruct (with_preferred_rank sorted); auto).
  fold po. rewrite Hck. cbn [mbind result_bind]. rewrite Hass. cbn [mbind result_bind fst snd].
  rewrite Hids. cbn [mbind result_bind].
  destruct Hadm as (Hl1 & Ht1 & Hr1 & Hsh1 & _ & _ & _). rewrite Hres in Hr1.
  send_loop Hsend Hr1 b. cbn [mbind result_bind].
  assert (recipients v1 (worker_ids po ++ server_ids po) = worker_ids po ++ server_ids po) as Hrec.
  { unfold recipients. apply filter_all. intros x _. unfold is_shared. by rewrite Hsh1, Hsh. }
  exists ns'. eexists _, _. split; [reflexivity|]. split; [done|]. split; [done|]. split; [done|].
  split; [by rewrite <- (length_map anonymous ns'), <- (length_map anonymous sorted); unfold ns'; rewrite assigned_anonymous|].
  split; [intros i n Hi; unfold ns'; by rewrite (assigned_at _ 0 0 sorted i n (Htransfer _ Hroles) Hi)|].
  split; [unfold ns'; by rewrite assigned_anonymous, Hperm|].
  split; [done|]. split; [done|]. split; [|done].
  rewrite Hrec. unfold after_sends. simpl. by rewrite Hl1, Ht1, <- app_assoc.
Qed.

(** An order to run the model with. *)
Fixpoint insert_by (c : Node.t → Node.t → bool) (x : Node.t) (l : list Node.t) : list Node.t :=
  match l with
  | [] => [x]
  | y :: l' => if c y x then y :: insert_by c x l' else x :: l
  end.
Definition insertion_sort (c : Node.t → Node.t → bool) (l : list Node.t) : list Node.t :=
  foldr (insert_by c) [] l.

Lemma insertion_sort_perm c l : insertion_sort c l ≡ₚ l.
Proof.
  assert (∀ x l, insert_by c x l ≡ₚ x :: l) as Hins.
  { intros x l'. induction l' as [|y l' IH]; simpl; [done|]. case_match; [|done].
    rewrite IH. apply Permutation_swap. }
  induction l as [|x l IH]; simpl; [done|]. by rewrite Hins, IH.
Qed.

Lemma strict_weak_negative {A} (lt : A → A → bool) a b c :
  strict_weak lt → lt a b = false → lt b c = false → lt a c = false.
Proof.
  intros [Hi Ht Hn] Hab Hbc. destruct (lt b a) eqn:Hba.
  - destruct (lt a c) eqn:Hac; [|done]. by rewrite (Ht b a c Hba Hac) in Hbc.
  - destruct (lt c b) eqn:Hcb.
    + destruct (lt a c) eqn:Hac; [|done]. by rewrite (Ht a c b Hac Hcb) in Hab.
    + by destruct (Hn a b c Hab Hba Hbc Hcb).
Qed.

Lemma insertion_sort_ok : std_sort insertion_sort.
Proof.
  intros c l Hc. split; [apply insertion_sort_perm|].
  assert (∀ x l, insert_by c x l ≡ₚ x :: l) as Hperm.
  { intros x l'. induction l' as [|y l' IH]; simpl; [done|]. case_match; [|done]. rewrite IH. apply Permutation_swap. }
  induction l as [|x l IH]; [constructor|].
  change (insertion_sort c (x :: l)) with (insert_by c x (insertion_sort c l)).
  revert IH. generalize (insertion_sort c l). clear l. intros l.
  induction 1 as [|y l Hs IH Hall]; cbn; [repeat constructor|]. destruct (c y x) eqn:E.
  - constructor; [done|]. rewrite Hperm. constructor; [|done].
    destruct (c x y) eqn:E2; [|done]. pose proof (sw_trans _ Hc x y x E2 E). by rewrite (sw_irrefl _ Hc) in H.
  - constructor; [by constructor|]. constructor; [done|].
    eapply Forall_impl; [exact Hall|]. intros z Hz. cbn in *. by eapply strict_weak_negative.
Qed.

Definition demo_peer (role : Node.Role) (port : Z) : Node.t :=
  Node.mk role kEmpty 0 (bytes_of "10.0.0.2") 1 [] [] [] port false [] 0 (-1).
Definition demo_nodes : Meta.t :=
  Meta.default <| Meta.control :=
    Control.mk Control.ADD_NODE
      [demo_peer Node.WORKER 9001; demo_peer Node.SERVER 9002; demo_peer Node.WORKER 9000] 0 0 |>.
Definition small_po : Postoffice.t :=
  let po := (Postoffice.new 0) <| Postoffice.num_workers_ := 2 |> <| Postoffice.num_servers_ := 1 |>
              <| Postoffice.group_size_ := 1 |> <| Postoffice.is_scheduler_ := true |> in
  po <| Postoffice.node_ids_ := init_node_ids po |>.
Definition small_van : t := Van.new (env_of []) small_po (my_node_ demo_van).

(** The worker on port 9000 comes before the one on port 9001, which registered first. *)
Lemma registration_assigns_ids_witness :
  ∃ nodes' v', admit_all (env_of []) (λ _, 1) insertion_sort 5 demo_nodes small_van = Ok (nodes', v') ∧
    map (λ n, (Node.port n, Node.id n)) (take 3 (Control.node (Meta.control nodes'))) = [(9000, 9); (9001, 11); (9002, 8)] ∧
    ready_ v' = true.
Proof.
  destruct (registration_assigns_ids (env_of []) (λ _, 1) insertion_sort 5 demo_nodes small_van
    [demo_peer Node.WORKER 9000; demo_peer Node.WORKER 9001; demo_peer Node.SERVER 9002])
    as (ns' & nodes' & v' & H & Hn & _ & _ & Hl & Hat & _ & _ & _ & _ & Hr);
    try done; try (by apply (bool_decide_unpack _); vm_compute).
  - exact insertion_sort_ok.
  - exists nodes', v'. split; [exact H|]. split; [|exact Hr]. rewrite Hn.
    pose proof (Hat 0%nat _ eq_refl) as H0. pose proof (Hat 1%nat _ eq_refl) as H1. pose proof (Hat 2%nat _ eq_refl) as H2.
    destruct ns' as [|n0 [|n1 [|n2 [|]]]]; try discriminate Hl. cbn in H0, H1, H2.
    injection H0 as ->. injection H1 as ->. injection H2 as ->. vm_compute. reflexivity.
Defined.
