(* ===== verification/Recovery.v ===== *)
(** * Recovery of nodes at the scheduler

    A node that comes back after a failure takes the place of a dead node of
    its role. *)

From S2P Require Import Prelude Message Env Postoffice Resender Van VanFacts Registration.
Import Van.

(** ** The replaced node *)
Lemma replace_dead_Some dead n ns n' ns' :
  replace_dead dead n ns = Some (n', ns') →
  ∃ i old, ns !! i = Some old ∧ (S i < length ns)%nat ∧
    Node.id old ∈ dead ∧ Node.role old = Node.role n ∧
    n' = n <| Node.id := Node.id old |> <| Node.is_recovery := true |> ∧
    ns' = <[i := n']> ns ∧
    ∀ j x, (j < i)%nat → ns !! j = Some x → ¬ (Node.id x ∈ dead ∧ Node.role x = Node.role n).
Proof.
  revert n' ns'. induction ns as [|old ns IH]; intros n' ns' H; [done|].
  cbn [replace_dead] in H. destruct ns as [|y ns]; [done|].
  destruct (bool_decide (Node.id old ∈ dead) && _) eqn:E.
  - injection H as <- <-. apply andb_true_iff in E as [E1%bool_decide_eq_true_1 E2%bool_decide_eq_true_1].
    exists 0%nat, old. split_and!; try done; [simpl; lia|]. intros; lia.
  - destruct (replace_dead dead n (y :: ns)) as [[m ms]|] eqn:Hr; [|done]. injection H as <- <-.
    destruct (IH m ms eq_refl) as (i & x & Hx & Hi & Hd & Hrole & -> & -> & Hfirst).
    exists (S i), x. split_and!; try done; [simpl in *; lia|].
    intros [|j] z Hj Hz; [|apply (Hfirst j); [lia|done]].
    injection Hz as <-. apply andb_false_iff in E.
    destruct E as [E%bool_decide_eq_false_1|E%bool_decide_eq_false_1]; tauto.
Qed.

(** ** The messages of a readmission *)

(** The recipients of the news of node [rid]'s return. *)
Definition news_recipients (dead : list Z) (rid : Z) (ids : list Z) : list Z :=
  List.filter (λ r, (r =? rid) || negb (bool_decide (r ∈ dead))) ids.

Lemma send_recovery_Ok SendMsg now dead rid nodes recovery ids v :
  (∀ m, 0 < SendMsg m) → resender_ v = None →
  ∃ b, send_recovery SendMsg now dead rid nodes recovery ids v =
    Ok (let to := news_recipients dead rid ids in
        advance (map Sent (zip_with (λ r ts, addressed (if r =? rid then nodes else recovery) r ts)
                             to (stamps (timestamp_ v) (length to))))
          (next_stamp (timestamp_ v) (length to)) b v).
Proof.
  intros Hsend. revert v. induction ids as [|r ids IH]; intros v Hr; cbn [send_recovery].
  { exists (send_bytes_ v). by rewrite <- (advance_nil v) at 1. }
  unfold news_recipients. cbn [List.filter]. fold (news_recipients dead rid ids).
  assert (negb (r =? rid) && bool_decide (r ∈ dead) =
          negb ((r =? rid) || negb (bool_decide (r ∈ dead)))) as ->
    by (by destruct (r =? rid), (bool_decide (r ∈ dead))).
  destruct ((r =? rid) || negb (bool_decide (r ∈ dead))); cbn [negb]; [|by apply IH].
  unfold GetTimestamp. cbv iota beta zeta.
  change (v <| timestamp_ ::= (λ ts, i32 (ts + 1)) |>)
    with (v <| timestamp_ := i32 (timestamp_ v + 1) |>).
  match goal with |- context [Send _ _ ?m _] =>
    destruct (Send_Ok SendMsg Hsend now m (i32 (timestamp_ v + 1)) v Hr) as [b1 ->];
    cbn [mbind result_bind snd];
    destruct (IH (advance [Sent m] (i32 (timestamp_ v + 1)) b1 v) Hr) as [b ->]
  end.
  exists b. f_equal. cbv zeta. rewrite advance_advance. cbn [length map stamps zip_with].
  by rewrite next_stamp_S.
Qed.

(** [UpdateLocalID] on the return of a node. *)
Lemma UpdateLocalID_replaces e msg dead nodes recovery v n n' ns' :
  is_scheduler_ v = true → ready_ v = true →
  Meta.sender (Message.meta msg) = kEmpty → Control.node (Meta.control (Message.meta msg)) = [n] →
  num_nodes (postoffice_ v) ≤ Z.of_nat (length (Control.node (Meta.control nodes))) →
  replace_dead dead n (Control.node (Meta.control nodes)) = Some (n', ns') →
  same_address (my_node_ v) n' = false →
  UpdateLocalID e msg dead nodes recovery v =
  Ok (msg <| Message.meta ::= (λ m, with_nodes m [n']) |>, with_nodes nodes ns',
      with_nodes recovery (Control.node (Meta.control recovery) ++ [n']), v).
Proof.
  intros Hsch Hready Hsender Hn Hlen Hrep Haddr. unfold UpdateLocalID.
  rewrite Hsender, Z.eqb_refl, Hsch, Hn, (proj2 (Z.ltb_ge _ _)), Hready, Hrep by lia.
  cbn [mbind result_bind]. cbv iota zeta.
  assert (foldl (update_my_id e) v [n'] = v) as Hv.
  { cbn [foldl]. unfold update_my_id. by rewrite Haddr. }
  match goal with |- Ok (_, _, _, ?w) = _ => assert (w = v) as -> by exact Hv end. done.
Qed.


(** The cluster of two workers and a server of Registration.v, complete at
    time 5, with a heartbeat timeout of 10 seconds. *)
Definition small_complete : Meta.t * t :=
  match admit_all (env_of []) (λ _, 1) insertion_sort 5 demo_nodes
          (small_van <| heartbeat_timeout_ := 10 |>) with
  | Ok x => x
  | Err _ => (demo_nodes, small_van)
  end.
Definition comeback (role : Node.Role) (port : Z) : Message.t :=
  Message.mk (Meta.default <| Meta.control :=
    Control.mk Control.ADD_NODE [demo_peer role port] 0 0 |>) [].

(** Worker 9 has not been heard of for 95 seconds, the others for 5. *)
Definition small_alive : t := UpdateHeartbeat_ 11 95 (UpdateHeartbeat_ 8 95 small_complete.2).
Definition returned : Node.t := (demo_peer Node.WORKER 9500) <| Node.id := 9 |> <| Node.is_recovery := true |>.


(** A second recovery stops the scheduler: the list of recovered nodes is
    never emptied, so when another node returns after a first recovery, the
    check that exactly one node recovers fails. *)
Theorem second_recovery_fails e SendMsg sort now msg nodes recovery v n dead n' ns' :
  is_scheduler_ v = true → ready_ v = true →
  Meta.sender (Message.meta msg) = kEmpty → Control.node (Meta.control (Message.meta msg)) = [n] →
  num_nodes (postoffice_ v) < Z.of_nat (length (Control.node (Meta.control nodes))) →
  Control.node (Meta.control recovery) ≠ [] → same_address (my_node_ v) n = false →
  GetDeadNodes (postoffice_ v) (heartbeat_timeout_ v) true now = Ok dead →
  replace_dead dead n (Control.node (Meta.control nodes)) = Some (n', ns') →
  ProcessAddNodeCommand e SendMsg sort now msg nodes recovery v =
  Err (CheckFailed "recovery_nodes->control.node.size()").
Proof.
  intros Hsch Hready Hsender Hn Hlen Hrec Haddr Hdead Hrep.
  destruct (replace_dead_Some _ _ _ _ _ Hrep) as (i & old & _ & _ & _ & _ & Hn' & Hns' & _).
  assert (same_address (my_node_ v) n' = false) as Haddr' by (by rewrite Hn').
  assert ((Z.of_nat (length ns') =? num_nodes (postoffice_ v)) = false) as Hne.
  { rewrite Hns', length_insert. apply Z.eqb_neq. lia. }
  unfold ProcessAddNodeCommand. rewrite Hready, Hdead. cbn [mbind result_bind].
  rewrite (UpdateLocalID_replaces e msg dead nodes recovery v n n' ns') by (done || lia).
  cbn [mbind result_bind]. rewrite Hsch. unfold ProcessAddNodeCommandAtScheduler.
  change (Control.node (Meta.control (with_nodes nodes ns'))) with ns'. rewrite Hne.
  destruct (Control.node (Meta.control recovery)) as [|x [|y l]] eqn:E; [done|..];
    (rewrite bool_decide_eq_true_2 by done); unfold readmit; rewrite Hready, Hdead;
    reflexivity.
Qed.

(** After the first recovery of the witness above, a second worker returns. *)
Definition small_recovered : Meta.t * Meta.t * t :=
  match ProcessAddNodeCommand (env_of []) (λ _, 1) insertion_sort 100 (comeback Node.WORKER 9500)
          small_complete.1 (with_add_node Meta.default) small_complete.2 with
  | Ok x => x
  | Err _ => (demo_nodes, demo_nodes, small_van)
  end.

Lemma second_recovery_fails_witness :
  ProcessAddNodeCommand (env_of []) (λ _, 1) insertion_sort 101 (comeback Node.WORKER 9501)
    small_recovered.1.1 small_recovered.1.2 small_recovered.2 =
  Err (CheckFailed "recovery_nodes->control.node.size()").
Proof.
  apply (second_recovery_fails _ _ _ _ _ _ _ _ (demo_peer Node.WORKER 9501) [11; 8]
    ((demo_peer Node.WORKER 9501) <| Node.id := 11 |> <| Node.is_recovery := true |>)
    [(demo_peer Node.WORKER 9500) <| Node.id := 9 |> <| Node.is_recovery := true |>;
     (demo_peer Node.WORKER 9501) <| Node.id := 11 |> <| Node.is_recovery := true |>;
     (demo_peer Node.SERVER 9002) <| Node.id := 8 |>; my_node_ demo_van]);
    try (vm_compute; reflexivity).
  vm_compute. discriminate.
Defined.
