(* ===== verification/VanLoop.v ===== *)
(** * The receiving loop

    An invariant over any run of [Receiving]: every message the van sends on
    its own has a time stamp of its own. *)

From S2P Require Import Prelude Message Env Postoffice Resender Van VanFacts.
Import Van.

Definition sent_stamp (ev : event) : option Z :=
  match ev with Sent m => Some (Meta.timestamp (Message.meta m)) | _ => None end.
Definition sent_stamps (evs : list event) : list Z := omap sent_stamp evs.

(** From [v] to [v'] the van added [evs] to its log; the messages among them
    carry consecutive time stamps, and the counter moved on past them. *)
Definition stamped (v v' : t) : Prop :=
  resender_ v = None →
  resender_ v' = None ∧
  ∃ evs, log v' = log v ++ evs ∧
    sent_stamps evs = stamps (timestamp_ v) (length (sent_stamps evs)) ∧
    timestamp_ v' = next_stamp (timestamp_ v) (length (sent_stamps evs)).

Lemma stamps_add ts n m : stamps ts (n + m) = stamps ts n ++ stamps (next_stamp ts n) m.
Proof.
  revert ts. induction n as [|n IH]; intros ts; [done|].
  rewrite next_stamp_S. cbn [Nat.add stamps app]. by rewrite IH.
Qed.
Lemma next_stamp_add ts n m : next_stamp ts (n + m) = next_stamp (next_stamp ts n) m.
Proof.
  revert ts. induction n as [|n IH]; intros ts; [done|].
  cbn [Nat.add]. by rewrite !next_stamp_S.
Qed.

Lemma stamped_same v v' :
  log v' = log v → timestamp_ v' = timestamp_ v → resender_ v' = resender_ v → stamped v v'.
Proof.
  intros Hl Ht Hr Hn. split; [congruence|]. exists []. by rewrite app_nil_r.
Qed.
Lemma stamped_refl v : stamped v v.
Proof. by apply stamped_same. Qed.
Lemma stamped_trans v1 v2 v3 : stamped v1 v2 → stamped v2 v3 → stamped v1 v3.
Proof.
  intros H12 H23 Hr1. destruct (H12 Hr1) as (Hr2 & e1 & Hl1 & Hs1 & Ht1).
  destruct (H23 Hr2) as (Hr3 & e2 & Hl2 & Hs2 & Ht2). split; [done|].
  exists (e1 ++ e2). unfold sent_stamps in *. rewrite omap_app, length_app.
  rewrite stamps_add, next_stamp_add, <- Hs1, <- Ht1, <- Hs2, <- Ht2, Hl2, Hl1, app_assoc.
  done.
Qed.

#[export] Instance stamped_preorder : PreOrder stamped.
Proof. split; [exact stamped_refl|exact stamped_trans]. Qed.

Section loop.
Context (e : Environment) (SendMsg : Message.t → Z).
Context (sort : (Node.t → Node.t → bool) → list Node.t → list Node.t).

(** Taking a stamp and sending a message with it. *)
Lemma stamped_Send now res r v x :
  Send SendMsg now (addressed res r (timestamp_ v)) (GetTimestamp v).2 = Ok x → stamped v x.2.
Proof.
  unfold Send. case_match; [|done]. intros H1 Hr.
  cbn [GetTimestamp snd] in H1. revert H1. simpl. rewrite Hr.
  intros [= <-]. cbn [snd]. split; [done|]. eexists. split; [reflexivity|]. by split.
Qed.

(** Messages that are not sent leave the stamps alone. *)
Lemma stamped_emit ev v :
  sent_stamp ev = None → stamped v (emit ev v).
Proof.
  intros He Hr. split; [done|]. exists [ev]. unfold sent_stamps. simpl. by rewrite He.
Qed.

Lemma stamped_send_each now c res ids v v' :
  send_each SendMsg now c res ids v = Ok v' → stamped v v'.
Proof.
  revert v. induction ids as [|r ids IH]; intros v; cbn [send_each].
  { intros [= <-]. apply stamped_refl. }
  destruct (is_shared v r); [apply IH|].
  destruct (GetTimestamp v) as [ts v1] eqn:E. injection E as <- <-.
  intros (x & Hx & H)%bind_Ok. case_match; [|done].
  transitivity x.2; [by eapply stamped_Send|by apply IH].
Qed.

Ltac same := by apply stamped_same.

Lemma stamped_barrier now msg v v' :
  ProcessBarrierCommand SendMsg now msg v = Ok v' → stamped v v'.
Proof.
  unfold ProcessBarrierCommand. case_match.
  - cbv zeta. intros (ids & _ & H1)%bind_Ok. case_match; [|injection H1 as <-; same].
    apply bind_Ok in H1 as (v1 & Hs & [= <-]). apply stamped_send_each in Hs.
    etrans; [|etrans; [exact Hs|same]]. same.
  - intros (po & _ & [= <-])%bind_Ok. same.
Qed.

Lemma stamped_instance_barrier now msg v v' :
  ProcessInstanceBarrierCommand SendMsg now msg v = Ok v' → stamped v v'.
Proof.
  unfold ProcessInstanceBarrierCommand. case_match.
  - cbv zeta. case_match; [|done]. intros (ids & _ & H2)%bind_Ok.
    case_match; [|injection H2 as <-; same].
    apply stamped_send_each in H2. etrans; [|exact H2]. same.
  - intros (po & _ & [= <-])%bind_Ok. same.
Qed.

Lemma stamped_heartbeat now ns v v' :
  heartbeat_nodes SendMsg now ns v = Ok v' → stamped v v'.
Proof.
  revert v. induction ns as [|n ns IH]; intros v; cbn [heartbeat_nodes].
  { intros [= <-]. apply stamped_refl. }
  set (v1 := UpdateHeartbeat_ (Node.id n) now v).
  assert (stamped v v1) by same.
  case_match.
  - destruct (GetTimestamp v1) as [ts v2] eqn:E. injection E as <- <-.
    intros (x & Hx & H2)%bind_Ok. etrans; [done|]. etrans; [by eapply stamped_Send|by apply IH].
  - intros H2%IH. by etrans.
Qed.

Lemma stamped_data polls msg v v' : ProcessDataMsg polls msg v = Ok v' → stamped v v'.
Proof.
  unfold ProcessDataMsg. repeat (case_match; [|done]).
  all: intros (obj & _ & [= <-])%bind_Ok; by apply stamped_emit.
Qed.

Lemma stamped_count_role n v : stamped v (count_role n v).
Proof. unfold count_role. destruct (Node.role n); same. Qed.

Lemma stamped_assign_ids now p ns v x : assign_ids now p ns v = Ok x → stamped v x.2.
Proof.
  revert v x. induction ns as [|n ns IH]; intros v x; cbn [assign_ids].
  { intros [= <-]. apply stamped_refl. }
  intros (y & Hy & (z & Hz & [= <-])%bind_Ok)%bind_Ok. apply IH in Hz. cbn [snd].
  etrans; [|etrans; [apply (stamped_count_role n)|exact Hz]].
  case_match; [injection Hy as <-; same|]. case_match; [|done]. injection Hy as <-. cbn [snd].
  etrans; [by apply (stamped_emit (Connected (n <| Node.id := new_id p n v |>)))|same].
Qed.

Lemma stamped_admit_all now nodes v x :
  admit_all e SendMsg sort now nodes v = Ok x → stamped v x.2.
Proof.
  unfold admit_all. intros (ns & _ & (u & _ & (y & Hy & (ids & _ & (v1 & Hv1 & [= <-])%bind_Ok)%bind_Ok)%bind_Ok)%bind_Ok)%bind_Ok.
  apply stamped_assign_ids in Hy. apply stamped_send_each in Hv1. cbn [snd].
  etrans; [exact Hy|]. etrans; [exact Hv1|same].
Qed.

Lemma stamped_send_recovery now dead rid nodes recovery ids v v' :
  send_recovery SendMsg now dead rid nodes recovery ids v = Ok v' → stamped v v'.
Proof.
  revert v. induction ids as [|r ids IH]; intros v; cbn [send_recovery].
  { intros [= <-]. apply stamped_refl. }
  case_match; [apply IH|].
  destruct (GetTimestamp v) as [ts v1] eqn:E. injection E as <- <-.
  intros (x & Hx & H1)%bind_Ok. etrans; [by eapply stamped_Send|by apply IH].
Qed.

Lemma stamped_at_scheduler now nodes recovery v x :
  ProcessAddNodeCommandAtScheduler e SendMsg sort now nodes recovery v = Ok x → stamped v x.2.
Proof.
  unfold ProcessAddNodeCommandAtScheduler. cbv zeta. case_match.
  { intros (y & Hy & [= <-])%bind_Ok. by apply stamped_admit_all in Hy. }
  case_match; [|intros [= <-]; apply stamped_refl].
  intros (v1 & Hv1 & [= <-])%bind_Ok. cbn [snd]. revert Hv1. unfold readmit.
  intros (dead & _ & H2)%bind_Ok. 
  destruct (Control.node (Meta.control (with_add_node recovery))) as [|n [|]]; try done.
  apply bind_Ok in H2 as (ids & _ & H2). apply stamped_send_recovery in H2.
  etrans; [|exact H2]. etrans; [by apply (stamped_emit (Connected n))|same].
Qed.

Lemma stamped_update_my_id v n : stamped v (update_my_id e v n).
Proof. unfold update_my_id. case_match; same. Qed.

Lemma stamped_join_node v n : stamped v (join_node v n).
Proof.
  unfold join_node. destruct (connected_nodes_ v !! node_host_ip n); cbv zeta.
  - case_match; [apply stamped_refl|apply stamped_count_role].
  - transitivity (Connect n v); [by apply stamped_emit|].
    case_match; [same|]. etrans; [|apply stamped_count_role]. same.
Qed.

Lemma stamped_foldl {A} (f : t → A → t) l v :
  (∀ v a, stamped v (f v a)) → stamped v (foldl f v l).
Proof.
  intros Hf. revert v. induction l as [|a l IH]; intros v; simpl; [apply stamped_refl|].
  etrans; [apply Hf|apply IH].
Qed.

Lemma stamped_add_node now msg nodes recovery v x :
  ProcessAddNodeCommand e SendMsg sort now msg nodes recovery v = Ok x → stamped v x.2.
Proof.
  unfold ProcessAddNodeCommand.
  intros (dead & _ & ([[[m ns] rs] v1] & HU & H)%bind_Ok)%bind_Ok.
  assert (stamped v v1) as Hv1.
  { revert HU. unfold UpdateLocalID. intros ([[m1 ns1] rs1] & _ & [= <- <- <- <-])%bind_Ok.
    apply stamped_foldl, stamped_update_my_id. }
  etrans; [exact Hv1|]. case_match; [by apply stamped_at_scheduler in H|].
  injection H as <-. cbn [snd]. etrans; [apply (stamped_foldl join_node), stamped_join_node|same].
Qed.

Definition turn_van (r : turn) : t :=
  match r with Continue st | Finished st => van st end.

Lemma stamped_dispatch inp st v r :
  dispatch e SendMsg sort inp st v = Ok r → stamped v (turn_van r).
Proof.
  unfold dispatch. cbv zeta. case_match.
  { intros (v1 & H1 & [= <-])%bind_Ok. by eapply stamped_data. }
  destruct (Control.cmd _);
    try (intros [= <-]; first [apply stamped_refl | same]);
    intros (x & Hx & H1)%bind_Ok.
  - destruct x as [[ns rs] v1]. injection H1 as <-. by apply stamped_add_node in Hx.
  - injection H1 as <-. by eapply stamped_barrier.
  - injection H1 as <-. by eapply stamped_heartbeat.
  - injection H1 as <-. by eapply stamped_instance_barrier.
Qed.

Lemma stamped_receive_turn inp st r :
  receive_turn e SendMsg sort inp st = Ok r → stamped (van st) (turn_van r).
Proof.
  unfold receive_turn. case_match; [intros [= <-]; apply stamped_refl|]. case_match; [|done].
  set (v1 := (van st) <| recv_bytes_ ::= _ |>). intros (x & Hx & H1)%bind_Ok Hr.
  unfold filter_incoming in Hx. change (resender_ v1) with (resender_ (van st)) in Hx.
  rewrite Hr in Hx. injection Hx as <-. cbn [fst snd] in H1.
  apply stamped_dispatch in H1. revert Hr. change (stamped (van st) (turn_van r)).
  etrans; [|exact H1]. same.
Qed.

Lemma stamped_Receiving inputs st r :
  Receiving e SendMsg sort inputs st = Ok r → stamped (van st) (turn_van r).
Proof.
  revert st. induction inputs as [|inp inputs IH]; intros st; cbn [Receiving].
  { intros [= <-]. apply stamped_refl. }
  intros (r1 & Hr1 & H1)%bind_Ok. apply stamped_receive_turn in Hr1.
  etrans; [exact Hr1|]. destruct r1; [by apply IH|]. injection H1 as <-. apply stamped_refl.
Qed.
End loop.

(** Consecutive stamps below the bound of [int] are increasing. *)
Lemma stamps_eq ts n :
  0 ≤ ts → ts + Z.of_nat n < 2 ^ 31 → stamps ts n = seqZ ts (Z.of_nat n).
Proof.
  revert ts. induction n as [|n IH]; intros ts H0 H1; [done|].
  rewrite Nat2Z.inj_succ, seqZ_cons by lia. rewrite Z.pred_succ. cbn [stamps].
  rewrite swrap_small by word_lia. f_equal. apply IH; lia.
Qed.


(** Two workers enter a barrier: the scheduler releases both. *)
Definition demo_inputs : list input :=
  [mkInput (demo_request Control.BARRIER 9 4) 1 false 3 []; mkInput (demo_request Control.BARRIER 13 4) 1 false 4 []].

Lemma demo_stamps :
  ∃ r, Receiving (env_of []) (λ _, 1) (λ _ l, l) demo_inputs (loop_start demo_van) = Ok r ∧
    sent_stamps (drop (length (log demo_van)) (log (turn_van r))) = [timestamp_ demo_van; timestamp_ demo_van + 1].
Proof.
  assert (match Receiving (env_of []) (λ _, 1) (λ _ l, l) demo_inputs (loop_start demo_van) with
    | Ok r => sent_stamps (drop (length (log demo_van)) (log (turn_van r))) = [timestamp_ demo_van; timestamp_ demo_van + 1]
    | Err _ => False end) as H by (vm_compute; reflexivity).
  destruct (Receiving _ _ _ demo_inputs _) as [r|]; [by exists r|done].
Qed.

