(* ===== verification/Lifecycle.v ===== *)
(** * Start, barrier and end of a process
    (src/postoffice.cc Start/DoBarrier/Finalize, src/van.cc Create/Start/Stop)

    The environment decides the sizes of the cluster and the transport; the
    van finds an address, registers with the scheduler and waits for the
    answer; barriers ask the scheduler and wait for its answer.  The calls of
    the operating system and of src/network_utils.h are the record [network]. *)

From S2P Require Import Prelude Message Env Postoffice Resender Van.
Import Van.

(** ** [Van::Create] *)
Inductive van_type : Type := MultiVan | ZMQVan | RDMAVan | FabricVan | UCXVan | TPVan.

#[export] Instance van_type_eq_dec : EqDecision van_type.
Proof. solve_decision. Defined.

(** The transports that are compiled in. *)
Record build : Type := mkBuild {
  DMLC_USE_RDMA : bool; DMLC_USE_FABRIC : bool; DMLC_USE_UCX : bool; DMLC_USE_TP : bool
}.

Definition Create (b : build) (type : string) : result van_type :=
  if bool_decide (type = "multivan") then Ok MultiVan
  else if bool_decide (type = "zmq" ∨ type = "0") then Ok ZMQVan
  else if DMLC_USE_RDMA b && bool_decide (type = "ibverbs") then Ok RDMAVan
  else if DMLC_USE_RDMA b && bool_decide (type = "1") then Ok RDMAVan
  else if DMLC_USE_FABRIC b && bool_decide (type = "fabric") then Ok FabricVan
  else if DMLC_USE_UCX b && bool_decide (type = "ucx") then Ok UCXVan
  else if DMLC_USE_TP b && bool_decide (type = "tp") then Ok TPVan
  else Err (CheckFailed "unsupported van type").

(** ** [Postoffice::InitEnvironment] *)
Definition notnull {A} (o : option A) : result A := from_option_or (CheckFailed "notnull") o.

Definition InitEnvironment (e : Environment) (b : build) (po : Postoffice.t)
    : result (Postoffice.t * van_type) :=
  let van_type := match find e "DMLC_ENABLE_RDMA" with
                  | None => GetEnv e "DMLC_PS_VAN_TYPE" "zmq"
                  | Some s => s
                  end in
  let enable_ucx := GetEnv_int e "DMLC_ENABLE_UCX" 0 in
  let group_size := match find e "DMLC_GROUP_SIZE" with Some s => atoi s | None => 1 end in
  van ← Create b (if enable_ucx =? 0 then van_type else "ucx");
  workers ← notnull (find e "DMLC_NUM_WORKER");
  servers ← notnull (find e "DMLC_NUM_SERVER");
  role ← notnull (find e "DMLC_ROLE");
  Ok (po <| Postoffice.group_size_ := group_size |>
         <| Postoffice.num_workers_ := atoi workers |>
         <| Postoffice.num_servers_ := atoi servers |>
         <| Postoffice.is_worker_ := bool_decide (role = "worker") |>
         <| Postoffice.is_server_ := bool_decide (role = "server") |>
         <| Postoffice.is_scheduler_ := bool_decide (role = "scheduler") |>
         <| Postoffice.verbose_ := GetEnv_int e "PS_VERBOSE" 0 |>, van).

(** ** [Postoffice::Start], up to the start of the van *)
Definition set_role (role : Node.Role) (po : Postoffice.t) : result Postoffice.t :=
  match role with
  | Node.JOINT => Err (CheckFailed "Unexpected role")
  | _ => Ok (po <| Postoffice.is_worker_ := bool_decide (role = Node.WORKER) |>
                <| Postoffice.is_server_ := bool_decide (role = Node.SERVER) |>
                <| Postoffice.is_scheduler_ := bool_decide (role = Node.SCHEDULER) |>)
  end.

(** The postoffice, and the kind of van made for it when it is the first
    start. *)
Definition start_postoffice (e : Environment) (b : build) (role : Node.Role) (rank : Z)
    (po : Postoffice.t) : result (Postoffice.t * option van_type) :=
  let po := po <| Postoffice.started_ := true |> in
  check! (-1 <=? rank) or "rank";
  let po := po <| Postoffice.preferred_rank_ := rank |> in
  if Postoffice.init_stage_ po =? 0 then
    x ← InitEnvironment e b po;
    po ← set_role role x.1;
    Ok (po <| Postoffice.node_ids_ := init_node_ids po |> <| Postoffice.init_stage_ ::= Z.succ |>,
        Some x.2)
  else Ok (po, None).

(** ... and after it: the start time. *)
Definition started_van (now : Z) (po : Postoffice.t) : Postoffice.t :=
  if Postoffice.init_stage_ po =? 1 then
    po <| Postoffice.start_time_ := now |> <| Postoffice.init_stage_ ::= Z.succ |>
  else po.

(** ** [Van::Start] *)
Record network : Type := mkNetwork {
  GetInterfaceAndIPByCurrentGpu : string * string;      (* interface, ip *)
  GetAvailableInterfaceAndIP : string * string;
  GetAvailablePort : Z → Z * list Z;                    (* count, the 32 ports *)
  Bind : Node.t → Z → Node.t * Z   (* the node with its devices; the port, -1 if failed *)
}.

Definition scheduler_node (e : Environment) (blank : Node.t) : result Node.t :=
  uri ← notnull (find e "DMLC_PS_ROOT_URI");
  port ← notnull (find e "DMLC_PS_ROOT_PORT");
  Ok (blank <| Node.hostname := bytes_of uri |> <| Node.num_ports := 1 |>
            <| Node.port := atoi port |>
            <| Node.ports ::= (λ l, <[0%nat := atoi port]> l) |>
            <| Node.dev_types ::= (λ l, <[0%nat := DeviceType.to_Z DeviceType.CPU]> l) |>
            <| Node.dev_ids ::= (λ l, <[0%nat := 0]> l) |>
            <| Node.role := Node.SCHEDULER |> <| Node.id := kScheduler |>).

(** Where this node lives: interface and address from the environment, from the
    current GPU, or from the available interfaces; the environment remembers
    the automatic choice. *)
Definition local_address (e : Environment) (net : network) : result (Environment * string) :=
  let ip := default "" (find e "DMLC_NODE_HOST") in
  let interface := default "" (find e "DMLC_INTERFACE") in
  let auto := bool_decide (interface = "auto" ∨ interface = "AUTO") in
  let '(interface, ip) := if auto then GetInterfaceAndIPByCurrentGpu net else (interface, ip) in
  let e := if auto then env_set (env_set e "DMLC_NODE_HOST" ip) "DMLC_INTERFACE" interface else e in
  let '(interface', ip') :=
    if bool_decide (ip = "") && bool_decide (interface = "") then GetAvailableInterfaceAndIP net
    else (interface, ip) in
  check! (negb (bool_decide (ip = "")) || negb (bool_decide (interface' = "")))
    or "failed to get the interface";
  Ok (e, ip').

Definition local_node (e : Environment) (net : network) (customer_id : Z) (v : t)
    : result (Environment * Node.t) :=
  let role := if Postoffice.is_worker_ (postoffice_ v) then Node.WORKER else Node.SERVER in
  x ← local_address e net;
  let '(e, ip) := x in
  let num_ports := match find e "DMLC_NUM_PORTS" with Some s => atoi s | None => 1 end in
  let '(num_available_ports, ports) := GetAvailablePort net num_ports in
  let ports := match find e "DMLC_PORT" with
               | Some s => <[0%nat := atoi s]> ports | None => ports end in
  check! negb (bool_decide (ip = "")) or "failed to get ip";
  check! (num_available_ports =? num_ports) or "failed to get ports";
  Ok (e, (my_node_ v) <| Node.hostname := bytes_of ip |> <| Node.role := role |>
           <| Node.num_ports := num_ports |> <| Node.ports := ports |>
           <| Node.port := ports !!! 0%nat |> <| Node.id := kEmpty |>
           <| Node.customer_id := customer_id |>).

(** The first stage, under the lock: address, binding, connection to the
    scheduler; the receiving thread is started at its end. *)
Definition start_first (e : Environment) (net : network) (customer_id : Z) (v : t)
    : result (Environment * t) :=
  if init_stage v =? 0 then
    sched ← scheduler_node e (scheduler_ v);
    let v := v <| scheduler_ := sched |>
               <| is_scheduler_ := Postoffice.is_scheduler_ (postoffice_ v) |> in
    x ← (if is_scheduler_ v then Ok (e, sched) else local_node e net customer_id v);
    let '(e, node) := x in
    let '(node, port) := Bind net node (if is_scheduler_ v then 0 else 40) in
    check! negb (port =? -1) or "bind failed";
    let v := SetNode (node <| Node.port := port |>) v in
    let v := Connect sched v in
    let v := match find e "PS_DROP_MSG" with
             | Some s => v <| drop_rate_ := atoi s |> | None => v end in
    Ok (e, v <| init_stage ::= Z.succ |>)
  else Ok (e, v).

Section start.
Context (SendMsg : Message.t → Z).

(** Every call of [Start] on a worker or server registers the node, with its
    customer and its preferred rank. *)
Definition register (now customer_id : Z) (v : t) : result t :=
  if is_scheduler_ v then Ok v
  else
    let node := (my_node_ v) <| Node.aux_id := Postoffice.preferred_rank_ (postoffice_ v) |>
                             <| Node.customer_id := customer_id |> in
    let meta := Meta.default <| Meta.control := Control.mk Control.ADD_NODE [node] 0 0 |> in
    let (ts, v) := GetTimestamp v in
    x ← Send SendMsg now (addressed meta kScheduler ts) v;
    Ok x.2.

(** After the wait for [ready_]: the resender. *)
Definition start_last (e : Environment) (v : t) : t :=
  if init_stage v =? 1 then
    let resend := match find e "PS_RESEND" with
                  | Some s => negb (atoi s =? 0) | None => false end in
    let v := if resend then
               let timeout := match find e "PS_RESEND_TIMEOUT" with
                              | Some s => atoi s | None => 1000 end in
               v <| resender_ := Some (Resender.new timeout 10) |>
             else v in
    v <| init_stage ::= Z.succ |>
  else v.

(** ** Barriers *)

(** [DoBarrier], up to its wait: [None] when there is nobody to wait for;
    otherwise the van that has asked the scheduler and whose flag is down. *)
Definition role_in_group (role : Node.Role) (node_group : Z) : bool :=
  match role with
  | Node.SCHEDULER => negb (Z.land node_group kScheduler =? 0)
  | Node.WORKER => negb (Z.land node_group kWorkerGroup =? 0)
  | Node.SERVER => negb (Z.land node_group kServerGroup =? 0)
  | Node.JOINT => true
  end.

Definition lower_flag (customer_id : Z) (po : Postoffice.t) : Postoffice.t :=
  po <| Postoffice.barrier_done_ ::=
          (λ m, <[0 := <[customer_id := false]> (default ∅ (m !! 0))]> m) |>.

Definition barrier_message (instance : bool) (customer_id node_group ts : Z) : Message.t :=
  Message.mk (Meta.default <| Meta.recver := kScheduler |> <| Meta.request := true |>
    <| Meta.app_id := 0 |> <| Meta.customer_id := customer_id |> <| Meta.timestamp := ts |>
    <| Meta.control := Control.mk (if instance then Control.INSTANCE_BARRIER else Control.BARRIER)
                         [] node_group 0 |>) [].

Definition DoBarrier (now customer_id node_group : Z) (instance_barrier : bool) (v : t)
    : result (option t) :=
  ids ← GetNodeIDs (postoffice_ v) node_group;
  let node_group_size := Z.of_nat (length ids) in
  if (instance_barrier && (node_group_size <=? 1))
     || (negb instance_barrier && (node_group_size <=? Postoffice.group_size_ (postoffice_ v)))
  then Ok None
  else
    node ← my_node v;
    check! role_in_group (Node.role node) node_group or "node_group & role";
    let v := v <| postoffice_ ::= lower_flag customer_id |> in
    let (ts, v) := GetTimestamp v in
    x ← Send SendMsg now (barrier_message instance_barrier customer_id node_group ts) v;
    check! (0 <? x.1) or "van_->Send(req)";
    Ok (Some x.2).

(** What the wait of [DoBarrier] waits for. *)
Definition barrier_released (customer_id : Z) (v : t) : bool :=
  bool_decide (flag (postoffice_ v) 0 customer_id = Some true).

(** ** The end *)

(** [Van::Stop]: the TERMINATE message to the node itself ends the receiving
    thread; then the state is reset (the resender is deleted, the pointer to it
    stays). *)
Definition Stop (v : t) : result t :=
  let exit := Message.mk (Meta.default <| Meta.control := Control.mk Control.TERMINATE [] 0 0 |>
                <| Meta.recver := Node.id (my_node_ v) |> <| Meta.customer_id := 0 |>) [] in
  check! negb (SendMsg exit =? -1) or "SendMsg(exit)";
  Ok ((emit (Sent exit) v)
        <| init_stage := 0 |> <| ready_ := false |> <| connected_nodes_ := ∅ |>
        <| shared_node_mapping_ := ∅ |> <| send_bytes_ := 0 |> <| timestamp_ := 0 |>
        <| my_node_ ::= (λ n, n <| Node.id := kEmpty |>) |> <| barrier_count_ := [] |>).

(** The barrier at the beginning of [Finalize], up to its wait. *)
Definition finalize_barrier (now customer_id : Z) (do_barrier : bool) (v : t) : result (option t) :=
  if negb (Postoffice.started_ (postoffice_ v)) then Ok None
  else if do_barrier then DoBarrier now customer_id (kWorkerGroup + kServerGroup + kScheduler) true v
  else Ok None.

(** [Finalize] after its barrier. *)
Definition Finalize (customer_id : Z) (v : t) : result t :=
  if negb (Postoffice.started_ (postoffice_ v)) then Ok v
  else if customer_id =? 0 then
    v ← Stop (v <| postoffice_ ::= (λ po, po <| Postoffice.num_workers_ := 0 |>
                                              <| Postoffice.num_servers_ := 0 |>) |>);
    Ok (v <| postoffice_ ::= (λ po,
      po <| Postoffice.init_stage_ := 0 |> <| Postoffice.customers_ := ∅ |>
         <| Postoffice.node_ids_ := ∅ |> <| Postoffice.barrier_done_ := ∅ |>
         <| Postoffice.server_key_ranges_ := [] |> <| Postoffice.heartbeats_ := ∅ |>) |>)
  else Ok v.
End start.
