(* ===== verification/NetFacts.v ===== *)
(** * The address of a node (src/network_utils.h, src/van.cc)

    The adapter a node chooses is the nearest one to its GPU; the ports it finds
    are different from each other; and what [Van::Start] makes of the settings
    DMLC_NODE_HOST and DMLC_INTERFACE. *)

From S2P Require Import Prelude Message Env Postoffice Van Lifecycle NetUtils.
From Stdlib Require Import Strings.Ascii.
Import NetDev.

(** ** Ports *)
Section ports.
Context (bind_any : list Z → option Z).
Context (Hfresh : ∀ held p, bind_any held = Some p → p ∉ held).

Lemma bind_sockets_spec n i ports held ports' held' :
  take i ports = held → length held = i → NoDup held →
  bind_sockets bind_any n i ports held = Ok (Some ports', held') →
  take (i + n) ports' = held' ∧ length held' = (i + n)%nat ∧ NoDup held' ∧
  length ports' = length ports ∧ drop (i + n) ports' = drop (i + n) ports.
Proof.
  revert i ports held. induction n as [|n IH]; intros i ports held Ht Hl Hn; cbn [bind_sockets].
  - intros [= <- <-]. rewrite Nat.add_0_r. done.
  - destruct (bind_any held) as [p|] eqn:Eb; [|done]. destruct (Nat.ltb_spec i (length ports)) as [Hi|]; [|done].
    intros E. apply IH in E as (H1 & H2 & H3 & H4 & H5).
    + rewrite Nat.add_succ_r, <- Nat.add_succ_l. rewrite length_insert in H4. split_and!; try done.
      rewrite H5. apply drop_insert_lt. lia.
    + rewrite (take_S_r _ _ p) by by apply list_lookup_insert_eq. by rewrite take_insert_ge, Ht by lia.
    + rewrite length_app, Hl. cbn. lia.
    + apply NoDup_app. split_and!; [done| |apply NoDup_singleton].
      intros x Hx ->%list_elem_of_singleton. by eapply Hfresh.
Qed.

(** The ports [GetAvailablePort] returns: when it finds as many as
    were asked for, they are the first entries of the array, different from each
    other, the rest of the array is as before and no socket stays open; asking
    for more than the array has ends in the exception of [at]. *)
Theorem ports_distinct num_ports ports r ports' open :
  0 < num_ports → GetAvailablePort bind_any num_ports ports = Ok (r, ports', open) → r = num_ports →
  NoDup (take (Z.to_nat num_ports) ports') ∧ length ports' = length ports ∧
  drop (Z.to_nat num_ports) ports' = drop (Z.to_nat num_ports) ports ∧ open = [] ∧
  num_ports ≤ Z.of_nat (length ports).
Proof.
  intros Hn. unfold GetAvailablePort. intros ([[ps|] held] & E & H)%bind_Ok Hr; [|injection H as <- _ _; lia].
  injection H as _ <- <-. apply bind_sockets_spec in E as (H1 & H2 & H3 & H4 & H5); [|done|done|constructor].
  cbn in *. subst held. split_and!; try done. rewrite length_take, H4 in H2. lia.
Qed.
End ports.

(** ** Adapters *)

(** What the loop over the ports makes of an adapter. *)
Section adapters.
Context (realpath : string → option string).

(** The first port that is usable and has an address, as a device, and the ports
    that come after it. *)
Fixpoint first_port (name : string) (port : Z) (l : list ibv_port) : option (NetDev.t * list ibv_port) :=
  match l with
  | [] => None
  | p :: l' =>
      let dev := new_dev realpath name port p in
      if usable_port p && (0 <? gid_idx_ dev) then Some (dev, l') else first_port name (port + 1) l'
  end.

Definition taken_port (d : ibv_device) : option (NetDev.t * list ibv_port) :=
  if open_ok d && query_ok d then first_port (dev_name d) 1 (phys_ports d) else None.
Definition found_dev (d : ibv_device) : option NetDev.t := fst <$> taken_port d.

(** A port is left after the one that was taken: the loop queries it. *)
Definition queries_null (d : ibv_device) : bool := match taken_port d with Some (_, _ :: _) => true | _ => false end.

(** Asking a device again gives the same answer. *)
Lemma best_index_new name port p :
  let dev := new_dev realpath name port p in
  get_best_gid_index dev = (if 0 <? gid_idx_ dev then gid_idx_ dev else -1, dev).
Proof.
  cbv zeta. destruct (scan_gids 1 (drop 1 (gid_table p)) (-1, [])) as [i g] eqn:E.
  assert (new_dev realpath name port p = if 0 <? i
    then NetDev.mk name port (read_pci_path realpath name) (gid_table p) i g
    else NetDev.mk name port (read_pci_path realpath name) (gid_table p) (-1) []) as ->.
  { unfold new_dev, get_best_gid_index. cbn [gid_idx_ gid_tbl gid_]. change (0 <? -1) with false. cbv iota.
    rewrite E. cbn [snd]. by destruct (0 <? i). }
  assert (i = -1 ∨ 0 < i) as [->|Hi].
  { assert (∀ gids j b, 0 < j → b.1 = -1 ∨ 0 < b.1 → (scan_gids j gids b).1 = -1 ∨ 0 < (scan_gids j gids b).1) as Hscan.
    { induction gids as [|x gids IH]; intros j b Hj Hb; cbn; [done|].
      apply IH; [lia|]. destruct (is_ipv4_gid x); cbn; [by right|done]. }
    specialize (Hscan (drop 1 (gid_table p)) 1 (-1, []) ltac:(lia) (or_introl eq_refl)). by rewrite E in Hscan. }
  - unfold get_best_gid_index. cbn [gid_idx_ gid_tbl gid_]. change (0 <? -1) with false. cbv iota.
    cbn [gid_idx_ gid_tbl gid_]. change (0 <? -1) with false. cbv iota. by rewrite E.
  - rewrite (proj2 (Z.ltb_lt 0 i) Hi). unfold get_best_gid_index. cbn [gid_idx_]. by rewrite (proj2 (Z.ltb_lt 0 i) Hi).
Qed.

Lemma scan_ports_spec name port l s d :
  context s = Some d →
  scan_ports realpath name port l s =
  match first_port name port l with
  | None => Ok s
  | Some (dev, []) => Ok (mkScan None (devs s ++ [dev]) (Z.max (maxGidIdx s) (gid_idx_ dev)))
  | Some (_, _ :: _) => Err (Undefined "ibv_query_port(nullptr)")
  end.
Proof.
  intros Hc. revert port. induction l as [|p l IH]; intros port; [done|].
  change (scan_ports realpath name port (p :: l) s) with
    (s1 ← scan_port realpath name port p s; scan_ports realpath name (port + 1) l s1).
  unfold scan_port. rewrite Hc. cbn [first_port]. destruct (usable_port p); cbn [andb]; [|apply IH].
  rewrite best_index_new. set (dev := new_dev _ _ _ _). destruct (0 <? gid_idx_ dev) eqn:Ei.
  - rewrite Ei. cbn [mbind result_bind]. by destruct l.
  - apply IH.
Qed.

(** The scan finds the devices in order, and the largest index of theirs, unless
    it queries a context that is gone. *)
Lemma scan_devices_spec l s :
  Forall (λ d, close_ok d = true) l → match context s with Some c => close_ok c = true | None => True end →
  if existsb queries_null l then scan_devices realpath l s = Err (Undefined "ibv_query_port(nullptr)")
  else ∃ s', scan_devices realpath l s = Ok (Some s') ∧ devs s' = devs s ++ omap found_dev l ∧
    maxGidIdx s' = foldl (λ m dev, Z.max m (gid_idx_ dev)) (maxGidIdx s) (omap found_dev l).
Proof.
  intros Hl. revert s. induction Hl as [|d l Hc Hl IH]; intros s Hs; cbn [scan_devices existsb].
  { exists s. cbn. by rewrite app_nil_r. }
  assert (match context s with Some c => negb (close_ok c) | None => false end = false) as ->.
  { destruct (context s) as [c|]; [by rewrite Hs|done]. }
  assert (∀ cx, match cx with Some c => close_ok c = true | None => True end → taken_port d = None →
    if queries_null d || existsb queries_null l
    then scan_devices realpath l (mkScan cx (devs s) (maxGidIdx s)) = Err (Undefined "ibv_query_port(nullptr)")
    else ∃ s', scan_devices realpath l (mkScan cx (devs s) (maxGidIdx s)) = Ok (Some s') ∧
      devs s' = devs s ++ omap found_dev (d :: l) ∧
      maxGidIdx s' = foldl (λ m dev, Z.max m (gid_idx_ dev)) (maxGidIdx s) (omap found_dev (d :: l))) as Hskip.
  { intros cx Hcx Hf. specialize (IH (mkScan cx (devs s) (maxGidIdx s)) Hcx).
    assert (queries_null d = false) as -> by (unfold queries_null; by rewrite Hf).
    assert (found_dev d = None) as Hfd by (unfold found_dev; by rewrite Hf).
    cbn [omap list_omap orb]. rewrite Hfd. exact IH. }
  assert (taken_port d = if open_ok d && query_ok d then first_port (dev_name d) 1 (phys_ports d) else None) as Ht by done.
  destruct (open_ok d); [|by apply Hskip]. destruct (query_ok d); [|by apply Hskip]. cbn [negb andb] in *.
  rewrite (scan_ports_spec _ _ _ _ d) by done. cbn [devs maxGidIdx]. rewrite <- Ht.
  destruct (taken_port d) as [[dev ports]|] eqn:Et; [|by apply Hskip].
  assert (queries_null d = match ports with [] => false | _ => true end) as -> by (unfold queries_null; by rewrite Et).
  assert (found_dev d = Some dev) as Hf by (unfold found_dev; by rewrite Et).
  destruct ports; [|done]. cbn [orb omap list_omap mbind result_bind]. rewrite Hf.
  specialize (IH (mkScan None (devs s ++ [dev]) (Z.max (maxGidIdx s) (gid_idx_ dev))) I).
  destruct (existsb queries_null l); [done|]. destruct IH as (s' & E & H1 & H2). exists s'.
  cbn [devs maxGidIdx] in H1, H2. split_and!; [exact E|by rewrite H1, <- app_assoc|done].
Qed.

(** ** The choice *)
Definition candidate (mg : Z) (dev : NetDev.t) (q : string) : Prop :=
  mg ≤ (get_best_gid_index dev).1 ∧ pci_path_ dev = Some q.

(** [k] is the last of the candidates with the longest common path. *)
Definition nearest (path : string) (mg : Z) (l : list NetDev.t) (k : nat) (dev : NetDev.t) (q : string) : Prop :=
  l !! k = Some dev ∧ candidate mg dev q ∧
  ∀ j dev' q', l !! j = Some dev' → candidate mg dev' q' →
    prefix_len 512 path q' ≤ prefix_len 512 path q ∧
    (prefix_len 512 path q' = prefix_len 512 path q → (j ≤ k)%nat).

Definition best_of (path : string) (mg : Z) (l : list NetDev.t) (b : Z * Z) : Prop :=
  (b = (-1, 0) ∧ ∀ dev q, dev ∈ l → ¬ candidate mg dev q) ∨
  ∃ k dev q, b = (Z.of_nat k, prefix_len 512 path q) ∧ nearest path mg l k dev q.

Lemma prefix_len_nonneg n a b : 0 ≤ prefix_len n a b.
Proof.
  revert a b. induction n as [|n IH]; intros [|x a] [|y b]; cbn; try done. destruct (Ascii.eqb x y); [|done].
  specialize (IH a b). lia.
Qed.

Lemma best_of_skip path mg pre dev b :
  best_of path mg pre b → (∀ q, ¬ candidate mg dev q) → best_of path mg (pre ++ [dev]) b.
Proof.
  intros [[-> Hno]|(k & d & q & -> & Hk & Hcd & Hmax)] Hd.
  - left. split; [done|]. intros d q [H|H%list_elem_of_singleton]%elem_of_app; [by apply Hno|subst d; by apply Hd].
  - right. exists k, d, q. split; [done|]. split_and!; [by apply lookup_app_l_Some|done|].
    intros j d' q' [Hj|[_ Hj]]%lookup_app_Some Hc; [by apply (Hmax j d')|].
    apply list_lookup_singleton_Some in Hj as [_ <-]. by destruct (Hd q').
Qed.

Lemma best_of_take path mg pre dev q b :
  best_of path mg pre b → candidate mg dev q →
  best_of path mg (pre ++ [dev])
    (if b.2 <=? prefix_len 512 path q then (Z.of_nat (length pre), prefix_len 512 path q) else b).
Proof.
  intros Hb Hc. destruct (Z.leb_spec b.2 (prefix_len 512 path q)) as [Hle|Hlt].
  - right. exists (length pre), dev, q. split; [done|]. split_and!; [by apply list_lookup_middle|done|].
    intros j d' q' [Hj|[Hge Hj]]%lookup_app_Some Hc'.
    + apply lookup_lt_Some in Hj as Hlt. destruct Hb as [[-> Hno]|(k & d & q0 & -> & _ & _ & Hmax)].
      * destruct (Hno d' q'); [by eapply list_elem_of_lookup_2|done].
      * destruct (Hmax j d' q' Hj Hc') as [H1 _]. cbn [snd] in Hle. lia.
    + apply list_lookup_singleton_Some in Hj as [Hz <-]. destruct Hc as [_ Hc], Hc' as [_ Hc'].
      rewrite Hc in Hc'. injection Hc' as <-. split; [lia|]. lia.
  - right. destruct Hb as [[-> _]|(k & d & q0 & -> & Hk & Hcd & Hmax)].
    { cbn [snd] in Hlt. pose proof (prefix_len_nonneg 512 path q). lia. }
    exists k, d, q0. split; [done|]. split_and!; [by apply lookup_app_l_Some|done|].
    intros j d' q' [Hj|[Hge Hj]]%lookup_app_Some Hc'; [by apply (Hmax j d')|].
    apply list_lookup_singleton_Some in Hj as [Hz <-]. destruct Hc as [_ Hc], Hc' as [_ Hc'].
    rewrite Hc in Hc'. injection Hc' as <-. cbn [snd] in Hlt. split; lia.
Qed.

Lemma choose_spec path mg pre l b :
  best_of path mg pre b → best_of path mg (pre ++ l) (choose path mg (Z.of_nat (length pre)) l b).
Proof.
  revert pre b. induction l as [|dev l IH]; intros pre b Hb; cbn [choose]; [by rewrite app_nil_r|].
  replace (Z.of_nat (length pre) + 1) with (Z.of_nat (length (pre ++ [dev]))) by (rewrite length_app; cbn; lia).
  change (dev :: l) with ([dev] ++ l). rewrite app_assoc. apply IH.
  destruct (Z.ltb_spec (get_best_gid_index dev).1 mg) as [Hlt|Hge].
  - apply best_of_skip; [done|]. intros q [Hc _]. lia.
  - destruct (pci_path_ dev) as [q|] eqn:Eq.
    + by apply best_of_take.
    + apply best_of_skip; [done|]. intros q [_ Hc]. congruence.
Qed.

(** The largest GID index among devices. *)
Definition max_gid (l : list NetDev.t) : Z := foldl (λ m dev, Z.max m (gid_idx_ dev)) (-1) l.

(** The adapter of a GPU: when the search returns, it gives the address of the
    adapter, among those with the largest GID index, whose path has most in common
    with the path of the GPU, the last one of several; and it gives none exactly
    if none of them has a path. *)
Lemma nearest_adapter gpu bus path devices ifs :
  let l := omap found_dev devices in
  gpu ≠ -1 → realpath (gpu_path (lower bus)) = Some path → Forall (λ d, close_ok d = true) devices →
  if existsb queries_null devices then
    GetInterfaceAndIPByCurrentGpu realpath gpu (Some bus) devices ifs = Err (Undefined "ibv_query_port(nullptr)")
  else
  (GetInterfaceAndIPByCurrentGpu realpath gpu (Some bus) devices ifs = Ok (0, "", "") ∧
   ∀ dev q, dev ∈ l → ¬ candidate (max_gid l) dev q) ∨
  ∃ k dev q, nearest path (max_gid l) l k dev q ∧
   GetInterfaceAndIPByCurrentGpu realpath gpu (Some bus) devices ifs = Ok (1, get_interface_name ifs dev, get_ip dev).
Proof.
  intros l Hg Hp Hd. unfold GetInterfaceAndIPByCurrentGpu. rewrite (proj2 (Z.eqb_neq _ _) Hg).
  rewrite (bind_eq _ _ bus eq_refl). rewrite Hp.
  destruct (Nat.eqb_spec (length devices) 0) as [H0|_].
  { apply nil_length_inv in H0. subst devices. left. split; [done|]. intros dev q H%elem_of_nil. done. }
  pose proof (scan_devices_spec devices (mkScan None [] (-1)) Hd I) as Hscan.
  destruct (existsb queries_null devices); [by rewrite Hscan|]. destruct Hscan as (s & E & H1 & H2).
  rewrite (bind_eq _ _ _ E). cbv beta iota. cbn [devs maxGidIdx app] in H1, H2. fold l in H1, H2. fold (max_gid l) in H2. rewrite H1, H2.
  destruct (choose path (max_gid l) 0 l (-1, 0)) as [idx n] eqn:Ec.
  pose proof (choose_spec path (max_gid l) [] l (-1, 0)) as Hch. cbn [length app] in Hch.
  change (Z.of_nat 0) with 0 in Hch. rewrite Ec in Hch.
  destruct Hch as [[[= -> ->] Hno]|(k & dev & q & [= -> _] & Hn)].
  - left. split; [done|]. intros ? ? H%elem_of_nil. done.
  - left. done.
  - right. exists k, dev, q. split; [done|]. rewrite (proj2 (Z.eqb_neq _ (-1))) by lia.
    rewrite Nat2Z.id. by rewrite (proj1 Hn).
Qed.
End adapters.

(** ** The address of a node *)

Lemma dotted_nonempty a b c d : dotted a b c d ≠ "".
Proof. unfold dotted. destruct (pretty a); discriminate. Qed.

(** The environment after an automatic choice. *)
Lemma find_auto e ip itf :
  find (env_set (env_set e "DMLC_NODE_HOST" ip) "DMLC_INTERFACE" itf) "DMLC_NODE_HOST" = Some ip ∧
  find (env_set (env_set e "DMLC_NODE_HOST" ip) "DMLC_INTERFACE" itf) "DMLC_INTERFACE" = Some itf.
Proof. by rewrite !find_set. Qed.

(** The part of [network] that is in network_utils.h. *)
Definition answers_of (net : network) (realpath : string → option string) (gpu : Z) (bus : string)
    (devices : list ibv_device) (ifs : list ifaddrs) : Prop :=
  NetUtils.GetInterfaceAndIPByCurrentGpu realpath gpu (Some bus) devices ifs ≫=
    (λ x, Ok (x.1.2, x.2)) = Ok (Lifecycle.GetInterfaceAndIPByCurrentGpu net) ∧
  Lifecycle.GetAvailableInterfaceAndIP net = NetUtils.GetAvailableInterfaceAndIP ifs.

(** C38. With DMLC_INTERFACE=auto, whatever the adapters and their ports
    (contexts that are not used can be closed): the search for an adapter queries
    a context that is gone exactly when some adapter has a port after the first
    one with an address.  Otherwise a node takes the address of the adapter
    nearest to its GPU, whatever DMLC_NODE_HOST says, and address and interface
    are in the environment for the transports; and when none of the adapters with
    the largest GID index has a path, the address of an available interface, with
    an empty address and interface in the environment. *)
Theorem auto_takes_nearest_adapter realpath gpu bus path devices ifs :
  let l := omap (found_dev realpath) devices in
  gpu ≠ -1 → realpath (gpu_path (lower bus)) = Some path → Forall (λ d, close_ok d = true) devices →
  if existsb (queries_null realpath) devices then
    NetUtils.GetInterfaceAndIPByCurrentGpu realpath gpu (Some bus) devices ifs = Err (Undefined "ibv_query_port(nullptr)")
  else
    ∀ e net, find e "DMLC_INTERFACE" = Some "auto" → answers_of net realpath gpu bus devices ifs →
    (∃ k dev q e', nearest path (max_gid l) l k dev q ∧ local_address e net = Ok (e', get_ip dev) ∧
       find e' "DMLC_NODE_HOST" = Some (get_ip dev) ∧ find e' "DMLC_INTERFACE" = Some (get_interface_name ifs dev)) ∨
    ((∀ dev q, dev ∈ l → ¬ candidate (max_gid l) dev q) ∧
     local_address e net =
       let '(interface, ip) := NetUtils.GetAvailableInterfaceAndIP ifs in
       if bool_decide (interface = "") then Err (CheckFailed "failed to get the interface")
       else Ok (env_set (env_set e "DMLC_NODE_HOST" "") "DMLC_INTERFACE" "", ip)).
Proof.
  intros l Hg Hp Hd. pose proof (nearest_adapter realpath gpu bus path devices ifs Hg Hp Hd) as Hn.
  destruct (existsb (queries_null realpath) devices); [exact Hn|]. intros e net Hi [Ha Hav].
  assert (∀ ip itf, Lifecycle.GetInterfaceAndIPByCurrentGpu net = (itf, ip) → ip ≠ "" →
    local_address e net = Ok (env_set (env_set e "DMLC_NODE_HOST" ip) "DMLC_INTERFACE" itf, ip)) as Hauto.
  { intros ip itf E Hne. unfold local_address. rewrite Hi. cbn [default from_option id].
    rewrite bool_decide_eq_true_2 by by left. rewrite E. by rewrite (bool_decide_eq_false_2 (ip = "")). }
  destruct Hn as [[E Hno]|(k & dev & q & Hk & E)]; rewrite E in Ha; injection Ha as Ha.
  - right. split; [done|]. unfold local_address. rewrite Hi. cbn [default from_option id].
    rewrite bool_decide_eq_true_2 by by left. rewrite <- Ha, Hav. cbn [fst snd].
    rewrite bool_decide_eq_true_2 by done. cbn [andb negb orb].
    destruct (NetUtils.GetAvailableInterfaceAndIP ifs) as [interface ip]. by case_bool_decide.
  - left. exists k, dev, q. eexists. split; [done|].
    rewrite (Hauto _ _ (eq_sym Ha)) by apply dotted_nonempty. split; [reflexivity|]. apply find_auto.
Qed.

(** Without an address an interface of any other name does not help: its address
    is not looked up. *)
Lemma interface_alone_fails e net customer_id v i :
  find e "DMLC_INTERFACE" = Some i → i ≠ "auto" → i ≠ "AUTO" → i ≠ "" → find e "DMLC_NODE_HOST" = None →
  local_node e net customer_id v = Err (CheckFailed "failed to get ip").
Proof.
  intros Hi H1 H2 H3 Hh. unfold local_node.
  assert (local_address e net = Ok (e, "")) as Ha.
  { unfold local_address. rewrite Hi, Hh. cbn [default from_option id]. rewrite bool_decide_eq_false_2 by tauto.
    cbn [andb]. rewrite (bool_decide_eq_false_2 (i = "")) by done. rewrite andb_false_r. cbv iota.
    rewrite (bool_decide_eq_false_2 (i = "")) by done. by rewrite orb_true_r. }
  rewrite (bind_eq _ _ _ Ha). cbv beta iota zeta. by destruct (Lifecycle.GetAvailablePort net _).
Qed.

(** ** Examples *)
Definition next_port (held : list Z) : option Z := Some (1 + foldr Z.max 40000 held).

Lemma next_port_fresh held p : next_port held = Some p → p ∉ held.
Proof.
  intros [= <-] Hin. assert (∀ x, x ∈ held → x ≤ foldr Z.max 40000 held) as H.
  { clear Hin. induction held as [|y held IH]; intros x Hx; [by apply elem_of_nil in Hx|]. cbn.
    apply elem_of_cons in Hx as [->|Hx]; [lia|]. specialize (IH x Hx). lia. }
  specialize (H _ Hin). lia.
Qed.

Lemma ports_distinct_witness :
  GetAvailablePort next_port 3 (replicate 32 0) = Ok (3, [40001; 40002; 40003] ++ replicate 29 0, []) ∧
  NoDup (take 3 ([40001; 40002; 40003] ++ replicate 29 0)) ∧ length ([40001; 40002; 40003] ++ replicate 29 0) = length (replicate 32 0) ∧
  drop 3 ([40001; 40002; 40003] ++ replicate 29 0) = drop 3 (replicate 32 0) ∧ [] =@{list Z} [] ∧ 3 ≤ 32.
Proof.
  split; [vm_compute; reflexivity|].
  apply (ports_distinct next_port next_port_fresh 3 (replicate 32 0) 3 ([40001; 40002; 40003] ++ replicate 29 0) []);
    [lia|vm_compute; reflexivity|reflexivity].
Defined.

(** Two adapters, the second one under the same bridge as the GPU. *)
Definition demo_gid (last : Z) : list Z := replicate 10 0 ++ [255; 255; 10; 0; 0; last].
Definition demo_adapter (name : string) (last : Z) : ibv_device :=
  mkDevice name true true true [mkPort true true ETHERNET [replicate 16 0; replicate 16 0; replicate 16 0; demo_gid last]].
Definition demo_paths (s : string) : option string :=
  if bool_decide (s = "/sys/class/infiniband/mlx5_0/device") then Some "/sys/devices/pci0000:00/0000:01:00.0"
  else if bool_decide (s = "/sys/class/infiniband/mlx5_1/device") then Some "/sys/devices/pci0000:50/0000:51:00.0"
  else if bool_decide (s = "/sys/class/pci_bus/0000:5a/device/0000:5a:00.0/device") then Some "/sys/devices/pci0000:50/0000:5a:00.0"
  else None.
Definition demo_interfaces : list ifaddrs :=
  [mkIfaddrs "lo" true (Some (AF_INET 127 0 0 1)); mkIfaddrs "eth0" false (Some (AF_INET 10 0 0 7));
   mkIfaddrs "eth1" false (Some (AF_INET 10 0 0 8))].
Definition demo_network : network :=
  mkNetwork ("eth1", "10.0.0.8") ("eth0", "10.0.0.7") (λ n, (n, [])) (λ n _, (n, 1)).

(** The first adapter has a second port, down, before the one it uses. *)
Definition demo_two_ports (name : string) (last : Z) : ibv_device :=
  mkDevice name true true true
    [mkPort true false ETHERNET []; mkPort true true ETHERNET [replicate 16 0; replicate 16 0; replicate 16 0; demo_gid last]].

Lemma auto_takes_nearest_adapter_witness :
  let devices := [demo_two_ports "mlx5_0" 7; demo_adapter "mlx5_1" 8] in
  let l := omap (found_dev demo_paths) devices in
  (∃ k dev q e', nearest "/sys/devices/pci0000:50/0000:5a:00.0" (max_gid l) l k dev q ∧
     local_address (env_of [("DMLC_INTERFACE", "auto")]) demo_network = Ok (e', get_ip dev) ∧
     find e' "DMLC_NODE_HOST" = Some (get_ip dev) ∧
     find e' "DMLC_INTERFACE" = Some (get_interface_name demo_interfaces dev)) ∧
  NetUtils.GetInterfaceAndIPByCurrentGpu demo_paths 0 (Some "0000:5A:00.0")
    [mkDevice "mlx5_0" true true true (phys_ports (demo_adapter "mlx5_0" 7) ++ phys_ports (demo_adapter "mlx5_0" 7))]
    demo_interfaces = Err (Undefined "ibv_query_port(nullptr)").
Proof.
  intros devices l. split.
  - assert (Forall (λ d, close_ok d = true) devices) as Hd by repeat constructor.
    pose proof (auto_takes_nearest_adapter demo_paths 0 "0000:5A:00.0" "/sys/devices/pci0000:50/0000:5a:00.0" devices
      demo_interfaces ltac:(lia) ltac:(vm_compute; reflexivity) Hd) as H.
    replace (existsb (queries_null demo_paths) devices) with false in H by (vm_compute; reflexivity).
    destruct (H (env_of [("DMLC_INTERFACE", "auto")]) demo_network) as [Hn|[Hno _]].
    + reflexivity.
    + vm_compute. split; reflexivity.
    + exact Hn.
    + exfalso. eapply Hno; [left|]. vm_compute. split; [discriminate|reflexivity].
  - set (d := mkDevice "mlx5_0" _ _ _ _). assert (Forall (λ d, close_ok d = true) [d]) as Hd by repeat constructor.
    pose proof (auto_takes_nearest_adapter demo_paths 0 "0000:5A:00.0" "/sys/devices/pci0000:50/0000:5a:00.0" [d]
      demo_interfaces ltac:(lia) ltac:(vm_compute; reflexivity) Hd) as H.
    replace (existsb (queries_null demo_paths) [d]) with true in H by (vm_compute; reflexivity). exact H.
Defined.
