(* ===== verification/Process.v ===== *)
(** * Starting and ending a process (include/ps/ps.h)

    [StartPS] makes the postoffices of the process and starts the ones of its
    role, each in a thread of its own when there are several; [Finalize] ends
    all of them.  The threads of a call are a list of starts, which can be run
    in any order; a start is [Postoffice::Start] up to the start of the van. *)

From S2P Require Import Prelude Message Env Postoffice Van Lifecycle.
Import Postoffice.

Definition GetRole (role_str : string) : result Node.Role :=
  if bool_decide (role_str = "worker"%string) then Ok Node.WORKER
  else if bool_decide (role_str = "server"%string) then Ok Node.SERVER
  else if bool_decide (role_str = "scheduler"%string) then Ok Node.SCHEDULER
  else if bool_decide (role_str = "joint"%string) then Ok Node.JOINT
  else Err (CheckFailed "Unexpected role").

(** A postoffice of the process *)
Inductive office : Type := Scheduler | Worker (i : nat) | Server (i : nat).
#[export] Instance office_eq_dec : EqDecision office.
Proof. solve_decision. Defined.

Definition office_at (o : office) (s : statics) : option t :=
  match o with Scheduler => po_scheduler_ s | Worker i => po_worker_group_ s !! i | Server i => po_server_group_ s !! i end.
Definition set_office (o : office) (po : t) (s : statics) : statics :=
  match o with
  | Scheduler => s <| po_scheduler_ := Some po |>
  | Worker i => s <| po_worker_group_ ::= <[i := po]> |>
  | Server i => s <| po_server_group_ ::= <[i := po]> |>
  end.

(** [GetServer] and [GetWorker], as references *)
Definition server_office (s : statics) (index : Z) : result office :=
  _ ← GetServer s index; Ok (match po_scheduler_ s with Some _ => Scheduler | None => Server (Z.to_nat index) end).
Definition worker_office (s : statics) (index : Z) : result office := _ ← GetWorker s index; Ok (Worker (Z.to_nat index)).

(** A call of [Postoffice::Start] *)
Record start_call : Type := mkStart { start_of : office; start_role : Node.Role; start_rank : Z; start_barrier : bool }.

Definition StartPS_one (s : statics) (role : Node.Role) (rank : Z) (do_barrier : bool) (instance_idx : Z) : result (list start_call) :=
  match role with
  | Node.WORKER => w ← worker_office s instance_idx; Ok [mkStart w role rank do_barrier]
  | Node.SERVER | Node.SCHEDULER => o ← server_office s instance_idx; Ok [mkStart o role rank do_barrier]
  | Node.JOINT =>
      o ← server_office s instance_idx;
      w ← worker_office s instance_idx;
      Ok [mkStart o Node.SERVER rank do_barrier; mkStart w Node.WORKER rank do_barrier]
  end.

(** [_StartPSGroup]: the ranks of the workers and of the servers, one per
    instance *)
Fixpoint start_ranks (s : statics) (role : Node.Role) (do_barrier : bool) (i : Z) (ranks : list Z) : result (list start_call) :=
  match ranks with
  | [] => Ok []
  | rank :: ranks => l ← StartPS_one s role rank do_barrier i; l' ← start_ranks s role do_barrier (i + 1) ranks; Ok (l ++ l')
  end.
Definition StartPSGroup (s : statics) (worker_ranks server_ranks : list Z) (do_barrier : bool) : result (list start_call) :=
  l ← start_ranks s Node.WORKER do_barrier 0 worker_ranks;
  l' ← start_ranks s Node.SERVER do_barrier 0 server_ranks;
  Ok (l ++ l').

Definition GetGroupSize (e : Environment) : Z := (find_int e "DMLC_GROUP_SIZE" 1).1.
Definition GetNodeRank (e : Environment) : Z := (find_int e "DMLC_NODE_RANK" (-1)).1.
Definition GetGpuId (e : Environment) : Z := (find_int e "STEPMESH_GPU" 0).1.

(** The device a process attaches to; a scheduler has none. *)
Definition device (e : Environment) (role : Node.Role) : option Z :=
  if bool_decide (role = Node.SCHEDULER) then None else Some (GetGpuId e).

Definition StartPS (e : Environment) (role : Node.Role) (rank : Z) (do_barrier : bool) (s : statics) : result (statics * list start_call) :=
  let group_size := GetGroupSize e in
  s ← Init e role s;
  calls ← (if (group_size =? 1) || bool_decide (role = Node.SCHEDULER) then StartPS_one s role rank do_barrier 0
           else if (1 <? group_size) && (0 <=? rank) then StartPS_one s role rank do_barrier (Z.rem rank group_size)
           else
             check! (0 <=? rank) && (0 <? group_size) or "group_size, rank";
             let ranks := map (λ i, i32 (rank * group_size + i)) (seqZ 0 group_size) in
             StartPSGroup s (if bool_decide (role = Node.WORKER ∨ role = Node.JOINT) then ranks else [])
               (if bool_decide (role = Node.SERVER ∨ role = Node.JOINT) then ranks else []) do_barrier);
  Ok (s, calls).

(** The postoffices [Finalize] ends, with a barrier or without *)
Definition Finalize_one (s : statics) (role : Node.Role) (index : Z) : result (list office) :=
  match role with
  | Node.WORKER => w ← worker_office s index; Ok [w]
  | Node.SERVER | Node.SCHEDULER => o ← server_office s index; Ok [o]
  | Node.JOINT => o ← server_office s index; w ← worker_office s index; Ok [o; w]
  end.
Fixpoint offices (get : Z → result office) (l : list Z) : result (list office) :=
  match l with [] => Ok [] | i :: l => o ← get i; os ← offices get l; Ok (o :: os) end.
Definition FinalizeGroup (s : statics) (role : Node.Role) (group_size : Z) : result (list office) :=
  ws ← (if bool_decide (role = Node.JOINT ∨ role = Node.WORKER) then offices (worker_office s) (seqZ 0 group_size) else Ok []);
  ss ← (if bool_decide (role = Node.JOINT ∨ role = Node.SERVER) then offices (server_office s) (seqZ 0 group_size) else Ok []);
  Ok (ws ++ ss).
Definition FinalizePS (e : Environment) (role : Node.Role) (s : statics) : result (list office) :=
  let group_size := GetGroupSize e in
  if (group_size =? 1) || bool_decide (role = Node.SCHEDULER) then Finalize_one s role 0 else FinalizeGroup s role group_size.

(** The starts, in the order in which the threads run *)
Section run.
Context (e : Environment) (b : build).
Fixpoint run_starts (calls : list start_call) (s : statics) : result statics :=
  match calls with
  | [] => Ok s
  | c :: calls =>
      po ← from_option_or (Undefined "Postoffice") (office_at (start_of c) s);
      x ← start_postoffice e b (start_role c) (start_rank c) po;
      run_starts calls (set_office (start_of c) x.1 s)
  end.
End run.

(** [MyRank] *)
Definition MyRank (my_rank : Z) (s : statics) : result Z := po ← Get s; inside! negb (group_size_ po =? 0) or "division by zero"; Ok (Z.quot my_rank (group_size_ po)).

(** ** What a process of a group starts and ends *)
Lemma InitEnvironment_keeps e b po x :
  InitEnvironment e b po = Ok x → started_ x.1 = started_ po ∧ preferred_rank_ x.1 = preferred_rank_ po.
Proof.
  unfold InitEnvironment. intros E. apply bind_Ok in E as (van & _ & E). apply bind_Ok in E as (ws & _ & E).
  apply bind_Ok in E as (ss & _ & E). apply bind_Ok in E as (r & _ & E). by injection E as <-.
Qed.

Definition startable (e : Environment) (b : build) : Prop := ∀ po, is_ok (InitEnvironment e b po) = true.

(** A postoffice that was started with this role and rank *)
Definition started_as (role : Node.Role) (rank : Z) (po : t) : Prop :=
  started_ po = true ∧ preferred_rank_ po = rank ∧ is_worker_ po = bool_decide (role = Node.WORKER) ∧ is_server_ po = bool_decide (role = Node.SERVER).

Lemma start_new e b role rank i :
  startable e b → role ≠ Node.JOINT → -1 ≤ rank → ∃ po van, start_postoffice e b role rank (new i) = Ok (po, van) ∧ started_as role rank po.
Proof.
  intros He Hr Hrank. unfold start_postoffice. rewrite (proj2 (Z.leb_le _ _) Hrank). set (po := _ <| preferred_rank_ := rank |>).
  specialize (He po). destruct (InitEnvironment e b po) as [x|] eqn:E; [|done]. destruct (InitEnvironment_keeps e b po x E) as [Hs Hp].
  change (init_stage_ po =? 0) with true. cbn iota. rewrite (bind_eq _ (Ok _) _ eq_refl).
  destruct role; [..|done]; (eexists _, _; split; [reflexivity|]; split_and!; [exact Hs|exact Hp|reflexivity|reflexivity]).
Qed.

Lemma office_set o o' po s :
  is_Some (office_at o' s) → office_at o (set_office o' po s) = if decide (o = o') then Some po else office_at o s.
Proof.
  intros Ho. destruct o' as [|i|i], o as [|j|j]; cbn [set_office office_at] in *; try (rewrite decide_True by done; done); try (rewrite decide_False by done; done).
  - destruct (decide (Worker j = Worker i)) as [[= ->]|Hne].
    + apply list_lookup_insert_eq, lookup_lt_is_Some_1, Ho.
    + apply list_lookup_insert_ne. congruence.
  - destruct (decide (Server j = Server i)) as [[= ->]|Hne].
    + apply list_lookup_insert_eq, lookup_lt_is_Some_1, Ho.
    + apply list_lookup_insert_ne. congruence.
Qed.

(** The starts, in any order, of different new postoffices *)
Lemma run_starts_run e b calls s :
  startable e b → NoDup (map start_of calls) →
  Forall (λ c, start_role c ≠ Node.JOINT ∧ -1 ≤ start_rank c ∧ ∃ i, office_at (start_of c) s = Some (new i)) calls →
  ∃ s', run_starts e b calls s = Ok s' ∧ (∀ o, is_Some (office_at o s') ↔ is_Some (office_at o s)) ∧ initialized_ s' = initialized_ s ∧
    (∀ o, o ∉ map start_of calls → office_at o s' = office_at o s) ∧
    (∀ c, c ∈ calls → ∃ po, office_at (start_of c) s' = Some po ∧ started_as (start_role c) (start_rank c) po).
Proof.
  intros He. revert s. induction calls as [|c calls IH]; intros s Hnd Hall.
  { exists s. split_and!; [done..|]. intros c Hc. by apply elem_of_nil in Hc. }
  simpl in Hnd. apply NoDup_cons in Hnd as [Hc Hnd]. apply Forall_cons in Hall as [(Hr & Hrank & i & Hi) Hall].
  destruct (start_new e b (start_role c) (start_rank c) i He Hr Hrank) as (po & van & Epo & Hpo).
  cbn [run_starts]. rewrite Hi. cbn [from_option_or]. rewrite (bind_eq _ (Ok _) _ eq_refl), (bind_eq _ _ _ Epo). cbn [fst].
  assert (Hset : ∀ o, office_at o (set_office (start_of c) po s) = if decide (o = start_of c) then Some po else office_at o s) by (intros; apply office_set; by eexists).
  destruct (IH (set_office (start_of c) po s) Hnd) as (s' & E & Hsome & Hinit & Hout & Hin).
  { apply Forall_forall. intros c' Hc'. rewrite Forall_forall in Hall. rewrite Hset, decide_False; [by apply Hall|]. intros Heq. apply Hc. rewrite <-Heq. apply list_elem_of_fmap. by exists c'. }
  exists s'. split; [exact E|]. split_and!.
  - intros o. rewrite Hsome, Hset. destruct (decide (o = start_of c)) as [->|]; [|done]. rewrite Hi. by split; eexists.
  - rewrite Hinit. by destruct (start_of c).
  - intros o Ho. apply not_elem_of_cons in Ho as [Hne Ho]. rewrite Hout, Hset by done. by rewrite decide_False.
  - intros c' Hc'. apply elem_of_cons in Hc' as [->|Hc']; [|by apply Hin]. rewrite Hout, Hset by done. rewrite decide_True by done. by exists po.
Qed.

Definition has_workers (role : Node.Role) : bool := bool_decide (role = Node.WORKER ∨ role = Node.JOINT).
Definition has_servers (role : Node.Role) : bool := bool_decide (role = Node.SERVER ∨ role = Node.JOINT).

(** The postoffices of a process that is not the scheduler *)
Definition members (role : Node.Role) (g : Z) : list office :=
  (if has_workers role then map Worker (seq 0 (Z.to_nat g)) else []) ++ (if has_servers role then map Server (seq 0 (Z.to_nat g)) else []).

Lemma members_NoDup role g : NoDup (members role g).
Proof.
  assert (∀ f : nat → office, Inj (=) (=) f → NoDup (map f (seq 0 (Z.to_nat g)))) as Hf by (intros; by apply NoDup_fmap, NoDup_seq).
  unfold members. apply NoDup_app. split_and!.
  - destruct (has_workers role); [|constructor]. apply Hf. by intros ?? [= ->].
  - intros o Ho Ho'. destruct (has_workers role), (has_servers role); try (by apply elem_of_nil in Ho); try (by apply elem_of_nil in Ho').
    apply list_elem_of_fmap in Ho as (i & -> & _). by apply list_elem_of_fmap in Ho' as (j & ? & _).
  - destruct (has_servers role); [|constructor]. apply Hf. by intros ?? [= ->].
Qed.

Lemma member_of o role g :
  o ∈ members role g ↔ match o with
    | Scheduler => False
    | Worker i => has_workers role = true ∧ Z.of_nat i < g
    | Server i => has_servers role = true ∧ Z.of_nat i < g
    end.
Proof.
  unfold members. rewrite elem_of_app. destruct o as [|i|i], (has_workers role), (has_servers role);
    rewrite ?elem_of_nil, ?list_elem_of_fmap; try setoid_rewrite elem_of_seq; naive_solver lia.
Qed.

(** What [Init] makes *)
Record fresh (role : Node.Role) (g : Z) (s : statics) : Prop := {
  fresh_init : initialized_ s = true;
  fresh_office : ∀ o, is_Some (office_at o s) ↔ o ∈ members role g;
}.

Lemma lookup_new g i : (map new (seqZ 0 g)) !! i = (if decide (Z.of_nat i < g) then Some (new (Z.of_nat i)) else None).
Proof.
  change (map new (seqZ 0 g)) with (new <$> seqZ 0 g). rewrite list_lookup_fmap. case_decide.
  - by rewrite lookup_seqZ_lt by lia.
  - by rewrite lookup_seqZ_ge by lia.
Qed.

Lemma Init_fresh e role :
  role ≠ Node.SCHEDULER → 1 ≤ GetGroupSize e →
  ∃ s, Init e role statics0 = Ok s ∧ fresh role (GetGroupSize e) s ∧ ∀ o po, office_at o s = Some po → ∃ i, po = new i.
Proof.
  intros Hr Hg. unfold Init. fold (GetGroupSize e). set (g := GetGroupSize e) in *. cbn [initialized_ statics0]. rewrite (proj2 (Z.leb_le _ _) Hg).
  rewrite (bool_decide_eq_false_2 (role = Node.SCHEDULER)) by done. cbn [po_scheduler_ po_worker_group_ po_server_group_ app].
  fold (has_workers role). fold (has_servers role). eexists. split; [reflexivity|]. split; [constructor; [done|]|].
  - intros o. rewrite member_of. destruct o as [|i|i]; cbn [office_at po_scheduler_ po_worker_group_ po_server_group_].
    + split; [by intros []|done].
    + destruct (has_workers role); cbn [statics0 po_worker_group_ app]; rewrite ?lookup_new, ?lookup_nil; [case_decide|]; split; try (by intros []); naive_solver.
    + destruct (has_servers role); cbn [statics0 po_server_group_ app]; rewrite ?lookup_new, ?lookup_nil; [case_decide|]; split; try (by intros []); naive_solver.
  - intros o po. destruct o as [|i|i]; cbn [office_at po_scheduler_ po_worker_group_ po_server_group_]; [done|..].
    + destruct (has_workers role); cbn [statics0 po_worker_group_ app]; rewrite ?lookup_new, ?lookup_nil; [case_decide|]; naive_solver.
    + destruct (has_servers role); cbn [statics0 po_server_group_ app]; rewrite ?lookup_new, ?lookup_nil; [case_decide|]; naive_solver.
Qed.

Section group.
Context (role : Node.Role) (g : Z) (s : statics) (Hs : fresh role g s).

Lemma no_scheduler : po_scheduler_ s = None.
Proof using Hs.
  destruct (po_scheduler_ s) as [po|] eqn:E; [|done]. assert (Scheduler ∈ members role g) as H by (apply (fresh_office _ _ _ Hs); by exists po). by apply member_of in H.
Qed.

Lemma worker_office_run i : 0 ≤ i < g → has_workers role = true → worker_office s i = Ok (Worker (Z.to_nat i)).
Proof using Hs.
  intros Hi Hw. destruct (proj2 (fresh_office _ _ _ Hs (Worker (Z.to_nat i)))) as [po Hpo]; [apply member_of; split; [done|lia]|]. cbn [office_at] in Hpo.
  unfold worker_office, GetWorker, vec_at. rewrite (fresh_init _ _ _ Hs), (proj2 (Z.leb_le _ _)), Hpo by lia. done.
Qed.
Lemma server_office_run i : 0 ≤ i < g → has_servers role = true → server_office s i = Ok (Server (Z.to_nat i)).
Proof using Hs.
  intros Hi Hw. destruct (proj2 (fresh_office _ _ _ Hs (Server (Z.to_nat i)))) as [po Hpo]; [apply member_of; split; [done|lia]|]. cbn [office_at] in Hpo.
  unfold server_office, GetServer, vec_at. rewrite (fresh_init _ _ _ Hs), no_scheduler, (proj2 (Z.leb_le _ _)), Hpo by lia. done.
Qed.

Lemma offices_run get (f : nat → office) n :
  (∀ i, 0 ≤ i < Z.of_nat n → get i = Ok (f (Z.to_nat i))) → offices get (seqZ 0 (Z.of_nat n)) = Ok (map f (seq 0 n)).
Proof.
  assert (∀ m k : nat, (∀ i, Z.of_nat k ≤ i < Z.of_nat k + Z.of_nat m → get i = Ok (f (Z.to_nat i))) → offices get (seqZ (Z.of_nat k) (Z.of_nat m)) = Ok (map f (seq k m))) as H.
  { induction m as [|m IH]; intros k Hget; [done|]. rewrite seqZ_cons by lia. cbn [offices seq map]. rewrite (bind_eq _ _ _ (Hget (Z.of_nat k) ltac:(lia))), Nat2Z.id.
    replace (Z.pred (Z.of_nat (S m))) with (Z.of_nat m) by lia. replace (Z.succ (Z.of_nat k)) with (Z.of_nat (S k)) by lia.
    rewrite (bind_eq _ _ _ (IH (S k) ltac:(intros; apply Hget; lia))). done. }
  intros Hget. apply (H n 0%nat). intros. apply Hget. lia.
Qed.

(** The starts of an instance *)
Definition instance_starts (rank : Z) (bar : bool) (i : nat) : list start_call :=
  (if has_servers role then [mkStart (Server i) Node.SERVER rank bar] else []) ++ (if has_workers role then [mkStart (Worker i) Node.WORKER rank bar] else []).

Lemma StartPS_one_run rank bar i :
  role ≠ Node.SCHEDULER → 0 ≤ i < g → StartPS_one s role rank bar i = Ok (instance_starts rank bar (Z.to_nat i)).
Proof using Hs.
  intros Hr Hi. pose proof (worker_office_run i Hi) as Hw. pose proof (server_office_run i Hi) as Hv. unfold instance_starts, StartPS_one.
  destruct role; [| |done|]; cbn in Hw, Hv |- *; try rewrite (bind_eq _ _ _ (Hv eq_refl)); try rewrite (bind_eq _ _ _ (Hw eq_refl)); done.
Qed.

Lemma FinalizePS_run e :
  g = GetGroupSize e → 1 ≤ g → role ≠ Node.SCHEDULER → ∃ ended, FinalizePS e role s = Ok ended ∧ ended ≡ₚ members role g.
Proof using Hs.
  intros Hg H1 Hr. unfold FinalizePS. rewrite <-Hg, (bool_decide_eq_false_2 (role = Node.SCHEDULER)), orb_false_r by done.
  destruct (Z.eqb_spec g 1) as [E|Hne].
  - pose proof (worker_office_run 0 ltac:(lia)) as Hw. pose proof (server_office_run 0 ltac:(lia)) as Hv. unfold Finalize_one, members. rewrite E.
    destruct role; [| |done|]; cbn in Hw, Hv |- *; try rewrite (bind_eq _ _ _ (Hv eq_refl)); try rewrite (bind_eq _ _ _ (Hw eq_refl)); (eexists; split; [reflexivity|done || apply Permutation_swap]).
  - exists (members role g). split; [|done]. unfold FinalizeGroup, members.
    assert (bool_decide (role = Node.JOINT ∨ role = Node.WORKER) = has_workers role) as -> by by destruct role.
    assert (bool_decide (role = Node.JOINT ∨ role = Node.SERVER) = has_servers role) as -> by by destruct role.
    assert (Ew : (if has_workers role then offices (worker_office s) (seqZ 0 g) else Ok []) = Ok (if has_workers role then map Worker (seq 0 (Z.to_nat g)) else [])).
    { destruct (has_workers role) eqn:E; [|done]. replace g with (Z.of_nat (Z.to_nat g)) at 1 by lia. apply offices_run. intros i Hi. apply worker_office_run; [lia|done]. }
    assert (Es : (if has_servers role then offices (server_office s) (seqZ 0 g) else Ok []) = Ok (if has_servers role then map Server (seq 0 (Z.to_nat g)) else [])).
    { destruct (has_servers role) eqn:E; [|done]. replace g with (Z.of_nat (Z.to_nat g)) at 1 by lia. apply offices_run. intros i Hi. apply server_office_run; [lia|done]. }
    rewrite (bind_eq _ _ _ Ew), (bind_eq _ _ _ Es). done.
Qed.
End group.

(** The instance a process of this rank starts *)
Definition instance_of (e : Environment) (rank : Z) : Z := if GetGroupSize e =? 1 then 0 else Z.rem rank (GetGroupSize e).

(** The role a postoffice is started in. *)
Definition office_role (o : office) : Node.Role :=
  match o with Scheduler => Node.SCHEDULER | Worker _ => Node.WORKER | Server _ => Node.SERVER end.

(** [Finalize] of this postoffice, for whatever customer, with a barrier or
    without, asks for no barrier and changes nothing. *)
Definition finalize_idle (po : t) : Prop :=
  ∀ SendMsg now customer_id do_barrier v, Van.postoffice_ v = po →
    finalize_barrier SendMsg now customer_id do_barrier v = Ok None ∧ Finalize SendMsg customer_id v = Ok v.

(** C29. A worker, a server or both, in a process with any group size: [StartPS] makes
    exactly one postoffice of each of its roles for every instance of the group and
    starts those of the instance [rank % group_size], each in its own role and
    with the rank, in threads that may run in any order; the others stay as they
    were made.  [Finalize] is then called on all of them, each once; for those
    that were never started it does nothing. *)
Theorem process_starts_one_instance e b role rank bar :
  startable e b → role ≠ Node.SCHEDULER → 1 ≤ GetGroupSize e → (GetGroupSize e = 1 ∧ -1 ≤ rank ∨ 0 ≤ rank) →
  ∃ s1 calls, StartPS e role rank bar statics0 = Ok (s1, calls) ∧
    (∀ o, is_Some (office_at o s1) ↔ o ∈ members role (GetGroupSize e)) ∧
    ∀ order, order ≡ₚ calls →
      ∃ s2 ended, run_starts e b order s1 = Ok s2 ∧ FinalizePS e role s2 = Ok ended ∧
        NoDup ended ∧ ended ≡ₚ members role (GetGroupSize e) ∧
        ∀ o, (is_Some (office_at o s2) ↔ o ∈ members role (GetGroupSize e)) ∧
          ∀ po, office_at o s2 = Some po →
            if decide (o = Worker (Z.to_nat (instance_of e rank)) ∨ o = Server (Z.to_nat (instance_of e rank)))
            then started_as (office_role o) rank po
            else (∃ i, po = new i) ∧ finalize_idle po.
Proof.
  intros He Hr Hg Hrank. set (g := GetGroupSize e) in *. set (i := instance_of e rank).
  assert (Hi : 0 ≤ i < g).
  { unfold i, instance_of. fold g. destruct (Z.eqb_spec g 1); [lia|]. destruct Hrank as [[? _]|?]; [lia|]. rewrite Z.rem_mod_nonneg by lia. apply Z.mod_pos_bound. lia. }
  destruct (Init_fresh e role Hr Hg) as (s1 & E1 & Hfresh & Hnew). fold g in Hfresh.
  exists s1, (instance_starts role rank bar (Z.to_nat i)). split; [|split; [apply Hfresh|]].
  { unfold StartPS. fold g. rewrite (bind_eq _ _ _ E1), (bool_decide_eq_false_2 (role = Node.SCHEDULER)), orb_false_r by done. pose proof (StartPS_one_run role g s1 Hfresh rank bar i Hr Hi) as E.
    unfold i, instance_of in E |- *. fold g in E |- *. destruct (Z.eqb_spec g 1); [by rewrite (bind_eq _ _ _ E)|].
    rewrite (proj2 (Z.ltb_lt 1 g)), (proj2 (Z.leb_le 0 rank)) by lia. cbn [andb]. by rewrite (bind_eq _ _ _ E). }
  intros order Horder.
  assert (Hof : ∀ o, o ∈ map start_of order ↔ o ∈ members role g ∧ (o = Worker (Z.to_nat i) ∨ o = Server (Z.to_nat i))).
  { intros o. rewrite Horder, member_of. unfold instance_starts. rewrite map_app, elem_of_app. destruct (has_servers role), (has_workers role), o; simpl; rewrite ?elem_of_cons, ?elem_of_nil; naive_solver lia. }
  destruct (run_starts_run e b order s1 He) as (s2 & E2 & Hsome & Hinit & Hout & Hin).
  { rewrite Horder. unfold instance_starts. destruct (has_servers role), (has_workers role); simpl; repeat constructor; rewrite ?elem_of_cons, ?elem_of_nil; naive_solver. }
  { apply Forall_forall. intros c Hc. destruct (fresh_office _ _ _ Hfresh (start_of c)) as [_ Hc']. destruct Hc' as [po Hpo].
    { apply Hof, list_elem_of_fmap. by exists c. }
    destruct (Hnew _ _ Hpo) as [k ->]. rewrite Horder in Hc. unfold instance_starts in Hc. split_and!; [..|by exists k].
    - destruct (has_servers role), (has_workers role); simpl in Hc; rewrite ?elem_of_cons, ?elem_of_nil in Hc; naive_solver.
    - destruct (has_servers role), (has_workers role); simpl in Hc; rewrite ?elem_of_cons, ?elem_of_nil in Hc; naive_solver lia. }
  assert (Hfresh2 : fresh role g s2) by (constructor; [rewrite Hinit; apply Hfresh|]; intros o; rewrite Hsome; apply Hfresh).
  destruct (FinalizePS_run role g s2 Hfresh2 e eq_refl Hg Hr) as (ended & E3 & Hended). exists s2, ended. split_and!; [done|done|rewrite Hended; apply members_NoDup|done|].
  intros o. split; [apply Hfresh2|]. intros po Hpo. destruct (decide (o ∈ map start_of order)) as [Ho|Ho].
  - rewrite decide_True by (by apply Hof). apply list_elem_of_fmap in Ho as (c & -> & Hc). destruct (Hin c Hc) as (po' & E & Hst). rewrite Hpo in E. injection E as <-.
    assert (start_rank c = rank ∧ office_role (start_of c) = start_role c) as [<- ->]; [|done].
    rewrite Horder in Hc. unfold instance_starts in Hc. destruct (has_servers role), (has_workers role); simpl in Hc; rewrite ?elem_of_cons, ?elem_of_nil in Hc; naive_solver.
  - rewrite Hout in Hpo by done. rewrite decide_False.
    { destruct (Hnew _ _ Hpo) as [k ->]. split; [by exists k|]. intros SendMsg now c db v Hv. unfold finalize_barrier, Finalize. by rewrite Hv. }
    intros Hw. apply Ho, Hof. split; [|done]. apply (fresh_office _ _ _ Hfresh). by exists po.
Qed.

(** Without a rank a process of a group does not start; the branch that starts a
    whole group is never reached. *)
Lemma group_needs_rank e role rank bar s :
  role ≠ Node.SCHEDULER → 1 < GetGroupSize e → rank < 0 → initialized_ s = true → StartPS e role rank bar s = Err (CheckFailed "group_size, rank").
Proof.
  intros Hr Hg Hrank Hi. unfold StartPS, Init. rewrite Hi. rewrite (bind_eq _ (Ok _) _ eq_refl). rewrite (proj2 (Z.eqb_neq _ _)), bool_decide_eq_false_2 by (done || lia).
  rewrite (proj2 (Z.leb_gt 0 rank)) by lia. rewrite andb_false_r. done.
Qed.

Definition demo_env : Environment :=
  mkEnv (list_to_map [("DMLC_GROUP_SIZE", "4"); ("DMLC_NUM_WORKER", "2"); ("DMLC_NUM_SERVER", "2"); ("DMLC_ROLE", "worker")]%string) (λ _, None).

Lemma process_starts_one_instance_witness :
  ∃ s1 calls, StartPS demo_env Node.JOINT 6 true statics0 = Ok (s1, calls) ∧
    (∀ o, is_Some (office_at o s1) ↔ o ∈ members Node.JOINT (GetGroupSize demo_env)) ∧
    ∀ order, order ≡ₚ calls →
      ∃ s2 ended, run_starts demo_env (mkBuild false false false false) order s1 = Ok s2 ∧ FinalizePS demo_env Node.JOINT s2 = Ok ended ∧
        NoDup ended ∧ ended ≡ₚ members Node.JOINT (GetGroupSize demo_env) ∧
        ∀ o, (is_Some (office_at o s2) ↔ o ∈ members Node.JOINT (GetGroupSize demo_env)) ∧
          ∀ po, office_at o s2 = Some po →
            if decide (o = Worker (Z.to_nat (instance_of demo_env 6)) ∨ o = Server (Z.to_nat (instance_of demo_env 6)))
            then started_as (office_role o) 6 po else (∃ i, po = new i) ∧ finalize_idle po.
Proof.
  apply (process_starts_one_instance demo_env (mkBuild false false false false) Node.JOINT 6 true).
  - intros po. reflexivity.
  - discriminate.
  - vm_compute. discriminate.
  - right. lia.
Defined.
