(* ===== verification/Barrier.v ===== *)
(** * The barrier protocol between the nodes and the scheduler

    A system of nodes and a scheduler, each running the handlers of Van.v and
    Lifecycle.v, connected by a network that delivers every message once, in
    any order.  Each step runs one handler; the steps interleave freely. *)

From S2P Require Import Prelude Message Env Postoffice Resender Van VanFacts Lifecycle.
Import Van.

(** The messages a handler has sent between two states of a van. *)
Definition sent_of (ev : event) : option Message.t :=
  match ev with Sent m => Some m | _ => None end.
Definition new_messages (v v' : t) : list Message.t :=
  omap sent_of (drop (length (log v)) (log v')).

(** The transport tells the receiver who sent a message. *)
Definition from (r : Z) (m : Message.t) : Message.t :=
  m <| Message.meta ::= (λ x, x <| Meta.sender := r |>) |>.

Record system : Type := mkSystem {
  sched : t;
  node : Z → t;
  to_sched : list Message.t;
  to_nodes : list Message.t;
  entered : Z → Z;      (* ghost: barriers the node has entered *)
  passed : Z → Z        (* ghost: barriers the node has left *)
}.


Section protocol.
Context (SendMsg : Message.t → Z) (now g : Z) (ids : list Z).

Inductive step : system → system → Prop :=
| enter r v' s :
    r ∈ ids → entered s r = passed s r →
    DoBarrier SendMsg now 0 g true (node s r) = Ok (Some v') →
    step s (mkSystem (sched s) (upd (node s) r v')
              (to_sched s ++ map (from r) (new_messages (node s r) v')) (to_nodes s)
              (upd (entered s) r (entered s r + 1)) (passed s))
| schedule l1 m l2 v' s :
    to_sched s = l1 ++ m :: l2 →
    ProcessInstanceBarrierCommand SendMsg now m (sched s) = Ok v' →
    step s (mkSystem v' (node s) (l1 ++ l2) (to_nodes s ++ new_messages (sched s) v')
              (entered s) (passed s))
| receive l1 m l2 v' s :
    let r := Meta.recver (Message.meta m) in
    to_nodes s = l1 ++ m :: l2 →
    ProcessInstanceBarrierCommand SendMsg now m (node s r) = Ok v' →
    step s (mkSystem (sched s) (upd (node s) r v') (to_sched s) (l1 ++ l2)
              (entered s) (passed s))
| leave r s :
    r ∈ ids → entered s r = passed s r + 1 → barrier_released 0 (node s r) = true →
    step s (mkSystem (sched s) (node s) (to_sched s) (to_nodes s)
              (entered s) (upd (passed s) r (passed s r + 1))).

Definition reachable (s0 s : system) : Prop := rtc step s0 s.

(** ** Where the protocol starts *)

(** A node that can enter barriers on [g]: registered, of a role of the group,
    with one customer, number 0, in application 0. *)
Definition member_ok (r : Z) (v : t) : Prop :=
  resender_ v = None ∧ ready_ v = true ∧
  GetNodeIDs (postoffice_ v) g = Ok ids ∧ role_in_group (Node.role (my_node_ v)) g = true ∧
  ∃ b, Postoffice.barrier_done_ (postoffice_ v) !! 0 = Some {[0 := b]}.

Definition initial (s : system) : Prop :=
  barrier_ready g ids (sched s) ∧ instance_count (sched s) g = 0 ∧
  shared_node_mapping_ (sched s) = ∅ ∧
  (∀ r, r ∈ ids → member_ok r (node s r)) ∧ to_sched s = [] ∧ to_nodes s = [] ∧
  (∀ r, entered s r = 0) ∧ (∀ r, passed s r = 0).


(** ** What each handler does to a member *)
Definition response_ok (m : Message.t) : Prop :=
  Meta.request (Message.meta m) = false ∧ Meta.app_id (Message.meta m) = 0 ∧
  Control.cmd (Meta.control (Message.meta m)) = Control.INSTANCE_BARRIER ∧
  Meta.recver (Message.meta m) ∈ ids.

Lemma response_member r m v v' :
  member_ok r v → response_ok m →
  ProcessInstanceBarrierCommand SendMsg now m v = Ok v' →
  member_ok r v' ∧ barrier_released 0 v' = true.
Proof.
  intros (Hres & Hrdy & Hids & Hrole & b & Hb) (Hreq & Happ & Hcmd & _) H.
  unfold ProcessInstanceBarrierCommand in H. rewrite Hreq in H.
  apply bind_Ok in H as (po & Hpo & [= <-]). unfold Manage in Hpo.
  rewrite Hcmd, Hreq, Happ in Hpo. case_match; [|done].
  rewrite bool_decide_eq_true_2 in Hpo by tauto. cbn [andb negb] in Hpo.
  rewrite Hb in Hpo. cbn [from_option] in Hpo. injection Hpo as <-.
  assert (foldl (λ m c, <[c:=true]> m) ({[0 := b]} : gmap Z bool)
            (seqZ 0 (Z.of_nat (size ({[0 := b]} : gmap Z bool)))) = {[0 := true]}) as Hraise
    by (rewrite map_size_singleton; vm_compute; by destruct b).
  split.
  - split_and!; try done. exists true. simpl. rewrite lookup_insert_eq. by f_equal.
  - unfold barrier_released, flag. simpl. rewrite lookup_insert_eq. simpl.
    change (id ({[0:=b]} : gmap Z bool)) with ({[0:=b]} : gmap Z bool). rewrite Hraise.
    by rewrite lookup_singleton_eq.
Qed.

(** ** The invariant

    [K] rounds are complete, the scheduler has handled [P r] requests of node
    [r]: each member is in round [K] or has already asked for round [K + 1]. *)
Definition request_ok (m : Message.t) : Prop :=
  barrier_request g m ∧ Meta.app_id (Message.meta m) = 0 ∧ Meta.sender (Message.meta m) ∈ ids.

Definition senders (l : list Message.t) : list Z := map (λ m, Meta.sender (Message.meta m)) l.
Definition receivers (l : list Message.t) : list Z := map (λ m, Meta.recver (Message.meta m)) l.

Arguments senders : simpl never.
Arguments receivers : simpl never.

(** Answered, but still inside the barrier. *)
Definition released (s : system) (r : Z) : Z :=
  if (entered s r =? passed s r + 1) && barrier_released 0 (node s r) then 1 else 0.

Record inv (s : system) (K : Z) (P : Z → Z) : Prop := {
  inv_sched : barrier_ready g ids (sched s);
  inv_shared : shared_node_mapping_ (sched s) = ∅;
  inv_lt : instance_count (sched s) g < Z.of_nat (length ids);
  inv_round r : r ∈ ids → P r = K ∨ P r = K + 1;
  inv_count : instance_count (sched s) g =
    Z.of_nat (length (List.filter (λ r, P r =? K + 1) ids));
  inv_members r : r ∈ ids → member_ok r (node s r);
  inv_requests : Forall request_ok (to_sched s);
  inv_responses : Forall response_ok (to_nodes s);
  inv_entered r : r ∈ ids → entered s r = P r + occurrences r (senders (to_sched s));
  inv_passed r : r ∈ ids →
    K = passed s r + released s r + occurrences r (receivers (to_nodes s));
  inv_one r : r ∈ ids → passed s r ≤ entered s r ≤ passed s r + 1
}.

Lemma released_range s r : 0 ≤ released s r ≤ 1.
Proof. unfold released. case_match; lia. Qed.
Lemma occurrences_nonneg r l : 0 ≤ occurrences r l.
Proof. unfold occurrences. lia. Qed.

Lemma occurrences_cons r x l :
  occurrences r (x :: l) = (if r =? x then 1 else 0) + occurrences r l.
Proof. unfold occurrences. simpl. destruct (r =? x); simpl; lia. Qed.
Lemma occurrences_middle r l1 x l2 :
  occurrences r (l1 ++ x :: l2) = occurrences r (l1 ++ l2) + (if r =? x then 1 else 0).
Proof. rewrite !occurrences_app, occurrences_cons. lia. Qed.

Lemma inv_leave r s K P :
  inv s K P → r ∈ ids → entered s r = passed s r + 1 → barrier_released 0 (node s r) = true →
  inv (mkSystem (sched s) (node s) (to_sched s) (to_nodes s) (entered s)
         (upd (passed s) r (passed s r + 1))) K P.
Proof.
  intros [] Hr Heq Hrel. constructor; cbn; try done.
  - intros x Hx. specialize (inv_passed0 x Hx). unfold released in *. cbn.
    destruct (decide (x = r)) as [->|Hne]; [|by rewrite !upd_ne].
    rewrite !upd_eq, Hrel, Heq, (proj2 (Z.eqb_neq _ _)) by lia.
    rewrite Hrel, Heq, Z.eqb_refl in inv_passed0. cbn [andb] in *. lia.
  - intros x Hx. specialize (inv_one0 x Hx).
    destruct (decide (x = r)) as [->|]; [rewrite upd_eq|rewrite upd_ne by done]; lia.
Qed.

Lemma inv_receive l1 m l2 v' s K P :
  inv s K P → to_nodes s = l1 ++ m :: l2 →
  ProcessInstanceBarrierCommand SendMsg now m (node s (Meta.recver (Message.meta m))) = Ok v' →
  inv (mkSystem (sched s) (upd (node s) (Meta.recver (Message.meta m)) v') (to_sched s) (l1 ++ l2)
         (entered s) (passed s)) K P.
Proof.
  intros I Hl Hp. set (r := Meta.recver (Message.meta m)) in *.
  pose proof (inv_responses _ _ _ I) as Hresp. rewrite Hl in Hresp.
  apply Forall_app in Hresp as [Hr1 [Hm Hr2]%Forall_cons].
  assert (r ∈ ids) as Hr by apply Hm.
  destruct (response_member r m _ _ (inv_members _ _ _ I r Hr) Hm Hp) as [Hok Hrel].
  assert (∀ x, occurrences x (receivers (to_nodes s)) =
               occurrences x (receivers (l1 ++ l2)) + (if x =? r then 1 else 0)) as Hocc.
  { intros x. rewrite Hl. unfold receivers. rewrite !map_app. apply occurrences_middle. }
  assert (entered s r = passed s r + 1 ∧ released s r = 0) as [He Hz].
  { pose proof (inv_passed _ _ _ I r Hr) as H1. rewrite Hocc, Z.eqb_refl in H1.
    pose proof (inv_entered _ _ _ I r Hr). pose proof (inv_one _ _ _ I r Hr).
    pose proof (inv_round _ _ _ I r Hr). pose proof (released_range s r).
    pose proof (occurrences_nonneg r (receivers (l1 ++ l2))).
    pose proof (occurrences_nonneg r (senders (to_sched s))). lia. }
  destruct I. constructor; cbn; try done.
  - intros x Hx. destruct (decide (x = r)) as [->|]; [by rewrite upd_eq|rewrite upd_ne by done; auto].
  - by apply Forall_app.
  - intros x Hx. specialize (inv_passed0 x Hx). rewrite Hocc in inv_passed0.
    destruct (decide (x = r)) as [->|Hne].
    + rewrite Z.eqb_refl, Hz in inv_passed0. unfold released. cbn.
      rewrite upd_eq, Hrel, He, Z.eqb_refl. cbn [andb]. lia.
    + rewrite (proj2 (Z.eqb_neq x r)), Z.add_0_r in inv_passed0 by done.
      unfold released. cbn. by rewrite upd_ne by done.
Qed.

(** Counting the members in the next round. *)
Lemma filter_upd (P : Z → Z) r a l :
  NoDup l → r ∈ l → P r ≠ a →
  length (List.filter (λ x, upd P r a x =? a) l) = S (length (List.filter (λ x, P x =? a) l)).
Proof.
  induction 1 as [|y l Hy Hl IH]; intros Hr HP; [by apply elem_of_nil in Hr|].
  cbn [List.filter]. apply elem_of_cons in Hr as [<-|Hr].
  - rewrite upd_eq, Z.eqb_refl, (proj2 (Z.eqb_neq (P r) a)) by done. cbn [length]. do 2 f_equal.
    apply filter_ext_elem. intros x Hx. rewrite upd_ne; [done|]. by intros ->.
  - rewrite upd_ne by (by intros ->). destruct (P y =? a); cbn [length]; by rewrite IH.
Qed.

Lemma filter_length_all (f : Z → bool) l :
  length (List.filter f l) = length l → ∀ r, r ∈ l → f r = true.
Proof.
  induction l as [|y l IH]; intros H r Hr; [by apply elem_of_nil in Hr|]. cbn [List.filter] in H.
  pose proof (List.filter_length_le f l). apply elem_of_cons in Hr.
  destruct (f y) eqn:E; cbn [length] in H; [|lia].
  destruct Hr as [->|Hr]; [done|]. apply IH; [lia|done].
Qed.

(** The answers of a completed round. *)
Lemma new_messages_round v v' res ts :
  log v' = log v ++ map Sent (messages_to res ids ts) →
  new_messages v v' = messages_to res ids ts.
Proof.
  intros Hl. unfold new_messages. rewrite Hl, drop_app_length. clear Hl.
  induction (messages_to res ids ts) as [|m l IH]; [done|].
  change (m :: omap sent_of (map Sent l) = m :: l). by rewrite IH.
Qed.

Lemma receivers_messages_to res l ts : receivers (messages_to res l ts) = l.
Proof.
  revert ts. induction l as [|x l IH]; intros ts; [done|].
  rewrite messages_to_cons. unfold receivers in *. cbn [map]. f_equal. apply IH.
Qed.

Lemma responses_messages_to m l ts :
  (∀ x, x ∈ l → x ∈ ids) → Meta.app_id m = 0 →
  Forall response_ok (messages_to (barrier_response Control.INSTANCE_BARRIER m) l ts).
Proof.
  intros Hl Happ. revert ts. induction l as [|x l IH]; intros ts; [constructor|].
  rewrite messages_to_cons. constructor; [|apply IH; set_solver].
  split_and!; try done. apply Hl. left.
Qed.


Lemma response_enabled m v :
  response_ok m → ∃ v', ProcessInstanceBarrierCommand SendMsg now m v = Ok v'.
Proof.
  intros (Hreq & _ & Hcmd & _). unfold ProcessInstanceBarrierCommand. rewrite Hreq.
  unfold Manage, Control.empty. rewrite Hcmd, Hreq.
  rewrite (bool_decide_eq_false_2 (_ = Control.EMPTY)), (bool_decide_eq_true_2 (_ ∨ _)) by (done || tauto).
  eexists. reflexivity.
Qed.
Context (Hsend : ∀ m, 0 < SendMsg m) (Hg : 1 ≤ g < 8) (Hnd : NoDup ids).
Context (Hn : 1 < Z.of_nat (length ids) < 2 ^ 31).

Lemma DoBarrier_member r v v' :
  member_ok r v → DoBarrier SendMsg now 0 g true v = Ok (Some v') →
  member_ok r v' ∧ barrier_released 0 v' = false ∧
  new_messages v v' = [barrier_message true 0 g (timestamp_ v)].
Proof using Hsend Hn.
  intros (Hres & Hrdy & Hids & Hrole & b & Hb) H. unfold DoBarrier in H.
  rewrite Hids in H. cbn [mbind result_bind] in H.
  rewrite (proj2 (Z.leb_gt _ 1)) in H by lia. cbn [andb orb negb] in H.
  unfold my_node in H. rewrite Hrdy in H. cbn [mbind result_bind] in H.
  rewrite Hrole in H.
  set (v1 := v <| postoffice_ ::= lower_flag 0 |>) in *.
  unfold GetTimestamp in H. cbv iota beta zeta in H.
  change (v1 <| timestamp_ ::= (λ ts, i32 (ts + 1)) |>)
    with (v1 <| timestamp_ := i32 (timestamp_ v + 1) |>) in H.
  change (timestamp_ v1) with (timestamp_ v) in H.
  destruct (Send_Ok SendMsg Hsend now (barrier_message true 0 g (timestamp_ v))
              (i32 (timestamp_ v + 1)) v1 Hres) as [by_ Hb1].
  rewrite Hb1 in H. cbn [mbind result_bind fst snd] in H.
  rewrite (proj2 (Z.ltb_lt _ _) (Hsend _)) in H. injection H as <-.
  assert (Postoffice.barrier_done_ (postoffice_ v1) !! 0 = Some {[0 := false]}) as Hflag.
  { unfold v1. simpl. rewrite lookup_insert_eq, Hb. simpl. by rewrite insert_singleton_eq. }
  split; [|split].
  - split_and!; try done. by exists false.
  - unfold barrier_released, flag.
    change (postoffice_ (advance _ _ _ v1)) with (postoffice_ v1). rewrite Hflag. simpl.
    by rewrite lookup_singleton_eq.
  - unfold new_messages. change (log (advance _ _ _ v1)) with (log v ++ [Sent (barrier_message true 0 g (timestamp_ v))]).
    by rewrite drop_app_length.
Qed.

Lemma DoBarrier_enabled r v :
  member_ok r v → ∃ v', DoBarrier SendMsg now 0 g true v = Ok (Some v').
Proof using Hsend Hn.
  intros (Hres & Hrdy & Hids & Hrole & _). unfold DoBarrier.
  rewrite Hids. cbn [mbind result_bind]. rewrite (proj2 (Z.leb_gt _ 1)) by lia.
  cbn [andb orb negb]. unfold my_node. rewrite Hrdy. cbn [mbind result_bind]. rewrite Hrole.
  set (v1 := v <| postoffice_ ::= lower_flag 0 |>).
  unfold GetTimestamp. cbv iota beta zeta.
  change (v1 <| timestamp_ ::= (λ ts, i32 (ts + 1)) |>)
    with (v1 <| timestamp_ := i32 (timestamp_ v + 1) |>).
  destruct (Send_Ok SendMsg Hsend now (barrier_message true 0 g (timestamp_ v1))
              (i32 (timestamp_ v + 1)) v1 Hres) as [b ->].
  cbn [mbind result_bind fst snd]. rewrite (proj2 (Z.ltb_lt _ _) (Hsend _)). eauto.
Qed.

Lemma initial_inv s : initial s → inv s 0 (λ _, 0).
Proof using Hn.
  intros (Hr & Hc & Hsh & Hm & Ht & Hf & He & Hp). constructor; try done.
  - lia.
  - intros; by left.
  - rewrite Hc. assert (List.filter (λ _, 0 =? 0 + 1) ids = []) as ->; [|done].
    apply filter_none. done.
  - rewrite Ht. constructor.
  - rewrite Hf. constructor.
  - intros r _. rewrite He, Ht. done.
  - intros r _. unfold released. rewrite He, Hp, Hf. done.
  - intros r _. rewrite He, Hp. lia.
Qed.

Lemma inv_enter r v' s K P :
  inv s K P → r ∈ ids → entered s r = passed s r →
  DoBarrier SendMsg now 0 g true (node s r) = Ok (Some v') →
  inv (mkSystem (sched s) (upd (node s) r v')
         (to_sched s ++ map (from r) (new_messages (node s r) v')) (to_nodes s)
         (upd (entered s) r (entered s r + 1)) (passed s)) K P.
Proof using Hsend Hn.
  intros I Hr Heq Hdo.
  destruct (DoBarrier_member r _ _ (inv_members _ _ _ I r Hr) Hdo) as (Hok & Hrel & Hmsg).
  rewrite Hmsg. destruct I. constructor; cbn; try done.
  - intros x Hx. destruct (decide (x = r)) as [->|]; [by rewrite upd_eq|rewrite upd_ne by done; auto].
  - apply Forall_app. split; [done|]. constructor; [|constructor]. by split_and!.
  - intros x Hx. unfold senders. rewrite map_app, occurrences_app. fold (senders (to_sched s)).
    cbn [map]. rewrite occurrences_cons.
    change (Meta.sender (Message.meta (from r _))) with r.
    specialize (inv_entered0 x Hx). destruct (decide (x = r)) as [->|Hne].
    + rewrite upd_eq, Z.eqb_refl. unfold occurrences at 2. cbn. lia.
    + rewrite upd_ne, (proj2 (Z.eqb_neq x r)) by done. unfold occurrences at 2. cbn. lia.
  - intros x Hx. specialize (inv_passed0 x Hx). unfold released in *. cbn.
    destruct (decide (x = r)) as [->|Hne]; [|by rewrite !upd_ne].
    rewrite !upd_eq, Hrel, andb_false_r. rewrite Heq in inv_passed0.
    rewrite (proj2 (Z.eqb_neq (passed s r) (passed s r + 1))) in inv_passed0 by lia. done.
  - intros x Hx. specialize (inv_one0 x Hx).
    destruct (decide (x = r)) as [->|]; [rewrite upd_eq|rewrite upd_ne by done]; lia.
Qed.

Lemma inv_schedule l1 m l2 v' s K P :
  inv s K P → to_sched s = l1 ++ m :: l2 →
  ProcessInstanceBarrierCommand SendMsg now m (sched s) = Ok v' →
  ∃ K' P', inv (mkSystem v' (node s) (l1 ++ l2) (to_nodes s ++ new_messages (sched s) v')
                  (entered s) (passed s)) K' P'.
Proof using Hsend Hg Hnd Hn.
  intros I Hl Hp. set (r := Meta.sender (Message.meta m)).
  pose proof (inv_requests _ _ _ I) as Hreq. rewrite Hl in Hreq.
  apply Forall_app in Hreq as [Hr1 [Hm Hr2]%Forall_cons].
  destruct Hm as (Hbr & Happ & Hr). fold r in Hr.
  assert (∀ x, occurrences x (senders (to_sched s)) =
               occurrences x (senders (l1 ++ l2)) + (if x =? r then 1 else 0)) as Hocc.
  { intros x. rewrite Hl. unfold senders. rewrite !map_app. apply occurrences_middle. }
  assert (P r = K) as HP.
  { pose proof (inv_entered _ _ _ I r Hr) as H1. rewrite Hocc, Z.eqb_refl in H1.
    pose proof (inv_passed _ _ _ I r Hr). pose proof (inv_one _ _ _ I r Hr).
    pose proof (inv_round _ _ _ I r Hr). pose proof (released_range s r).
    pose proof (occurrences_nonneg r (receivers (to_nodes s))).
    pose proof (occurrences_nonneg r (senders (l1 ++ l2))). lia. }
  pose proof (filter_upd P r (K + 1) ids Hnd Hr ltac:(lia)) as Hcount.
  pose proof (inv_count _ _ _ I) as Hc. pose proof (inv_lt _ _ _ I) as Hlt.
  destruct (instance_barrier_step SendMsg Hsend now g ids m (sched s) (inv_sched _ _ _ I) Hbr)
    as (v1 & evs & Hp1 & Hready & Hsh & Hlog & _ & Hst); try lia.
  rewrite Hp in Hp1. injection Hp1 as <-.
  assert (recipients (sched s) ids = ids) as Hrec.
  { unfold recipients. apply filter_all. intros x _. unfold is_shared. by rewrite (inv_shared _ _ _ I). }
  destruct (_ =? _) eqn:E; [apply Z.eqb_eq in E|apply Z.eqb_neq in E]; destruct Hst as [Hc' Hevs].
  - exists (K + 1), (upd P r (K + 1)). rewrite Hrec in Hevs.
    assert (∀ x, x ∈ ids → upd P r (K + 1) x = K + 1) as Hall.
    { intros x Hx. apply Z.eqb_eq. eapply (filter_length_all (λ x, upd P r (K + 1) x =? K + 1) ids);
        [|done]. lia. }
    rewrite Hevs in Hlog. rewrite (new_messages_round _ _ _ _ Hlog).
    destruct I. constructor; cbn; try done.
    + by rewrite Hsh.
    + lia.
    + intros x Hx. left. auto.
    + rewrite Hc'. assert (List.filter (λ x, upd P r (K + 1) x =? K + 1 + 1) ids = []) as ->; [|done].
      apply filter_none. intros x Hx. rewrite Hall by done. apply Z.eqb_neq. lia.
    + by apply Forall_app.
    + apply Forall_app. split; [done|]. by apply responses_messages_to.
    + intros x Hx. specialize (inv_entered0 x Hx). rewrite Hocc in inv_entered0. rewrite Hall by done.
      specialize (Hall x Hx). destruct (decide (x = r)) as [->|Hne].
      * rewrite Z.eqb_refl in inv_entered0. lia.
      * rewrite upd_ne in Hall by done. rewrite (proj2 (Z.eqb_neq x r)) in inv_entered0 by done. lia.
    + intros x Hx. specialize (inv_passed0 x Hx). unfold receivers. rewrite map_app.
      fold (receivers (to_nodes s)) (receivers (messages_to
        (barrier_response Control.INSTANCE_BARRIER (Message.meta m)) ids (timestamp_ (sched s)))).
      rewrite receivers_messages_to, occurrences_app, (occurrences_NoDup x ids), bool_decide_eq_true_2
        by done. unfold released in *. cbn. lia.
  - exists K, (upd P r (K + 1)). subst evs. rewrite app_nil_r in Hlog.
    assert (new_messages (sched s) v' = []) as -> by (unfold new_messages; by rewrite Hlog, drop_all).
    rewrite app_nil_r. destruct I. constructor; cbn; try done.
    + by rewrite Hsh.
    + lia.
    + intros x Hx. destruct (decide (x = r)) as [->|]; [rewrite upd_eq; by right|].
      rewrite upd_ne by done. auto.
    + lia.
    + by apply Forall_app.
    + intros x Hx. specialize (inv_entered0 x Hx). rewrite Hocc in inv_entered0.
      destruct (decide (x = r)) as [->|Hne].
      * rewrite upd_eq. rewrite Z.eqb_refl in inv_entered0. lia.
      * rewrite upd_ne by done. rewrite (proj2 (Z.eqb_neq x r)) in inv_entered0 by done. lia.
Qed.

Lemma reachable_inv s0 s : initial s0 → reachable s0 s → ∃ K P, inv s K P.
Proof using Hsend Hg Hnd Hn.
  intros H0 Hreach.
  assert (∃ K P, inv s0 K P) as Hinv by (eexists _, _; by apply initial_inv).
  clear H0. induction Hreach as [s|s s1 s2 Hstep _ IH]; [done|]. apply IH.
  destruct Hinv as (K & P & I). destruct Hstep as [r v' s|l1 m l2 v' s|l1 m l2 v' s r'|r s].
  - exists K, P. by apply inv_enter.
  - by eapply inv_schedule.
  - exists K, P. by apply inv_receive.
  - exists K, P. by apply inv_leave.
Qed.

(** ** Steps after the members have entered *)

(** A step in which no member enters a barrier. *)
Definition settling (s s' : system) : Prop := step s s' ∧ ∀ r, entered s' r = entered s r.

(** What the handlers still have to do: a request can lead to an answer for every
    member, an answer to a member that leaves. *)
Definition waiting (s : system) : Z := foldr (λ r x, entered s r - passed s r + x) 0 ids.
Definition work_left (s : system) : Z :=
  Z.of_nat (length (to_sched s)) * (Z.of_nat (length ids) + 1) + Z.of_nat (length (to_nodes s)) + waiting s.

Lemma inv_step s s' K P : inv s K P → step s s' → ∃ K' P', inv s' K' P'.
Proof using Hsend Hg Hnd Hn.
  intros I Hstep. destruct Hstep as [r v' s|l1 m l2 v' s|l1 m l2 v' s r'|r s].
  - exists K, P. by apply inv_enter.
  - by eapply inv_schedule.
  - exists K, P. by apply inv_receive.
  - exists K, P. by apply inv_leave.
Qed.

Lemma inv_settling s s' K P : inv s K P → rtc settling s s' → ∃ K' P', inv s' K' P'.
Proof using Hsend Hg Hnd Hn.
  intros I Hr. revert K P I. induction Hr as [|s s1 s2 [Hst _] _ IH]; intros K P I; [by exists K, P|].
  destruct (inv_step _ _ _ _ I Hst) as (K1 & P1 & I1). by eapply IH.
Qed.

Lemma settling_entered s s' r : rtc settling s s' → entered s' r = entered s r.
Proof. induction 1 as [|s s1 s2 [_ He] _ IH]; [done|]. by rewrite IH. Qed.

Lemma foldr_waiting_leave (e p : Z → Z) r l :
  NoDup l → r ∈ l →
  foldr (λ x y, e x - upd p r (p r + 1) x + y) 0 l = foldr (λ x y, e x - p x + y) 0 l - 1.
Proof.
  induction 1 as [|y l Hy Hl IH]; intros Hr; [by apply elem_of_nil in Hr|]. cbn.
  apply elem_of_cons in Hr as [<-|Hr].
  - rewrite upd_eq. assert (foldr (λ x y, e x - upd p r (p r + 1) x + y) 0 l = foldr (λ x y, e x - p x + y) 0 l) as ->; [|lia].
    clear IH Hl. induction l as [|z l IH]; [done|]. cbn. rewrite not_elem_of_cons in Hy. rewrite upd_ne, IH by naive_solver. done.
  - rewrite IH, upd_ne by (done || by intros ->). lia.
Qed.

Lemma waiting_nonneg s K P : inv s K P → 0 ≤ waiting s.
Proof.
  intros I. unfold waiting. assert (∀ l, (∀ r, r ∈ l → r ∈ ids) → 0 ≤ foldr (λ r x, entered s r - passed s r + x) 0 l) as H; [|by apply H].
  induction l as [|r l IH]; intros Hl; cbn; [done|]. specialize (IH ltac:(intros; apply Hl; by right)).
  pose proof (inv_one _ _ _ I r (Hl r ltac:(left))). lia.
Qed.

(** A request handled: at most one answer per member. *)
Lemma schedule_messages l1 m l2 v' s K P :
  inv s K P → to_sched s = l1 ++ m :: l2 → ProcessInstanceBarrierCommand SendMsg now m (sched s) = Ok v' →
  (length (new_messages (sched s) v') ≤ length ids)%nat.
Proof using Hsend Hg Hn.
  intros I Hl Hp. pose proof (inv_requests _ _ _ I) as Hreq. rewrite Hl in Hreq.
  apply Forall_app in Hreq as [_ [(Hbr & _ & _) _]%Forall_cons].
  pose proof (inv_lt _ _ _ I) as Hlt. pose proof (inv_count _ _ _ I) as Hc.
  destruct (instance_barrier_step SendMsg Hsend now g ids m (sched s) (inv_sched _ _ _ I) Hbr)
    as (v1 & evs & Hp1 & _ & _ & Hlog & _ & Hst); try lia.
  rewrite Hp in Hp1. injection Hp1 as <-.
  assert (recipients (sched s) ids = ids) as Hrec.
  { unfold recipients. apply filter_all. intros x _. unfold is_shared. by rewrite (inv_shared _ _ _ I). }
  destruct (_ =? _); destruct Hst as [_ Hevs]; subst evs.
  - rewrite Hrec in Hlog. rewrite (new_messages_round _ _ _ _ Hlog).
    rewrite <- (receivers_messages_to (barrier_response Control.INSTANCE_BARRIER (Message.meta m)) ids (timestamp_ (sched s))) at 2.
    unfold receivers. by rewrite length_map.
  - rewrite app_nil_r in Hlog. unfold new_messages. rewrite Hlog, drop_all. cbn. lia.
Qed.

Lemma settling_decreases s s' K P : inv s K P → settling s s' → work_left s' < work_left s.
Proof using Hsend Hg Hnd Hn.
  intros I [Hst He]. destruct Hst as [r v' s Hr Heq Hd|l1 m l2 v' s Hl Hp|l1 m l2 v' s r' Hl Hp|r s Hr Heq Hrel].
  - specialize (He r). cbn in He. rewrite upd_eq in He. lia.
  - pose proof (schedule_messages _ _ _ _ _ _ _ I Hl Hp) as Hm. unfold work_left. cbn.
    rewrite Hl, !length_app. cbn. unfold waiting. cbn. nia.
  - unfold work_left. cbn. rewrite Hl, !length_app. cbn. unfold waiting. cbn. lia.
  - unfold work_left, waiting. cbn. rewrite foldr_waiting_leave by done. lia.
Qed.

Lemma settling_bounded n s s' K P : inv s K P → nsteps settling n s s' → (n ≤ Z.to_nat (work_left s))%nat.
Proof using Hsend Hg Hnd Hn.
  intros I Hs. revert K P I. induction Hs as [|n s s1 s2 H1 _ IH]; intros K P I; [lia|].
  pose proof (settling_decreases _ _ _ _ I H1). destruct (inv_step _ _ _ _ I (proj1 H1)) as (K1 & P1 & I1).
  specialize (IH _ _ I1). pose proof (waiting_nonneg _ _ _ I1). assert (0 ≤ work_left s1) by (unfold work_left; lia). lia.
Qed.

Lemma exists_in_list (f : Z → bool) (l : list Z) : (∃ r, r ∈ l ∧ f r = true) ∨ ∀ r, r ∈ l → f r = false.
Proof.
  destruct (existsb f l) eqn:E.
  - left. apply existsb_exists in E as (r & Hr & Hf). exists r. by rewrite list_elem_of_In.
  - right. intros r Hr. destruct (f r) eqn:Hf; [|done]. rewrite <- E. symmetry.
    apply existsb_exists. exists r. by rewrite <- list_elem_of_In.
Qed.

(** With nothing to handle and nobody to leave, every member is in the same round. *)
Lemma settled_rounds s K P r :
  inv s K P → to_sched s = [] → to_nodes s = [] → (∀ r, r ∈ ids → released s r = 0) → r ∈ ids →
  passed s r = K ∧ entered s r = P r.
Proof.
  intros I H1 H2 H3 Hr. pose proof (inv_passed _ _ _ I r Hr) as Hp. pose proof (inv_entered _ _ _ I r Hr) as He.
  rewrite H2, H3 in Hp by done. rewrite H1 in He.
  change (occurrences r (receivers [])) with 0 in Hp. change (occurrences r (senders [])) with 0 in He. lia.
Qed.

Lemma settling_or_passed s K P k :
  inv s K P → (∀ r, r ∈ ids → k ≤ entered s r) →
  (∃ s', settling s s') ∨ ∀ r, r ∈ ids → k ≤ passed s r.
Proof using Hsend Hg Hnd Hn.
  intros I Hk. destruct (to_sched s) as [|m l] eqn:Hts.
  2:{ left. pose proof (inv_requests _ _ _ I) as Hreq. rewrite Hts in Hreq.
      apply Forall_cons in Hreq as [(Hbr & _ & _) _].
      pose proof (inv_lt _ _ _ I). pose proof (inv_count _ _ _ I).
      destruct (instance_barrier_step SendMsg Hsend now g ids m (sched s) (inv_sched _ _ _ I) Hbr)
        as (v' & evs & Hp & _); try lia.
      eexists. split; [by apply (schedule [] m l v' s)|done]. }
  destruct (to_nodes s) as [|m l] eqn:Htn.
  2:{ left. pose proof (inv_responses _ _ _ I) as Hres. rewrite Htn in Hres.
      apply Forall_cons in Hres as [Hm _].
      destruct (response_enabled m (node s (Meta.recver (Message.meta m))) Hm) as [v' Hv].
      eexists. split; [by apply (receive [] m l v' s)|done]. }
  destruct (exists_in_list (λ r, (entered s r =? passed s r + 1) && barrier_released 0 (node s r)) ids)
    as [(r & Hr & [He Hb]%andb_true_iff)|Hno].
  { left. eexists. split; [apply (leave r s); [done|by apply Z.eqb_eq|done]|done]. }
  right. assert (∀ r, r ∈ ids → passed s r = K ∧ entered s r = P r) as Hround.
  { intros r Hr. eapply settled_rounds; try done. intros x Hx. unfold released. by rewrite Hno. }
  intros r Hr. destruct (Hround r Hr) as [-> _]. destruct (Z.le_gt_cases k K) as [|HK]; [done|].
  pose proof (inv_lt _ _ _ I) as Hlt. rewrite (inv_count _ _ _ I), filter_all in Hlt; [lia|].
  intros x Hx. pose proof (Hk x Hx). destruct (Hround x Hx) as [_ Hx'].
  destruct (inv_round _ _ _ I x Hx); apply Z.eqb_eq; lia.
Qed.

(** The steps end, with every member outside the barrier. *)
Lemma settling_ends s K P k :
  inv s K P → (∀ r, r ∈ ids → k ≤ entered s r) →
  ∃ s', rtc settling s s' ∧ ∀ r, r ∈ ids → k ≤ passed s' r.
Proof using Hsend Hg Hnd Hn.
  remember (Z.to_nat (work_left s)) as n eqn:En. revert s K P En.
  induction n as [n IH] using lt_wf_ind. intros s K P En I Hk.
  destruct (settling_or_passed s K P k I Hk) as [[s1 H1]|Hp]; [|exists s; by split; [apply rtc_refl|]].
  destruct (inv_step _ _ _ _ I (proj1 H1)) as (K1 & P1 & I1).
  pose proof (settling_decreases _ _ _ _ I H1). pose proof (waiting_nonneg _ _ _ I1).
  assert (0 ≤ work_left s1) by (unfold work_left; lia).
  destruct (IH (Z.to_nat (work_left s1)) ltac:(lia) s1 K1 P1 eq_refl I1) as (s' & Hr & Hp).
  { intros r Hr. rewrite (proj2 H1 r). by apply Hk. }
  exists s'. split; [by eapply rtc_l|done].
Qed.
End protocol.

(** ** Properties *)

(** C1. Barrier safety: in every reachable state of the system, whatever the
    interleaving, if a member has left its [k]-th barrier then every member has
    entered its [k]-th barrier. *)
Theorem barrier_safety SendMsg now g ids s0 s r r' :
  (∀ m, 0 < SendMsg m) → 1 ≤ g < 8 → NoDup ids → 1 < Z.of_nat (length ids) < 2 ^ 31 →
  initial g ids s0 → reachable SendMsg now g ids s0 s → r ∈ ids → r' ∈ ids →
  passed s r ≤ entered s r'.
Proof.
  intros Hsend Hg Hnd Hn H0 Hreach Hr Hr'.
  destruct (reachable_inv SendMsg now g ids Hsend Hg Hnd Hn s0 s H0 Hreach) as (K & P & I).
  pose proof (inv_passed _ _ _ _ _ I r Hr). pose proof (inv_entered _ _ _ _ _ I r' Hr').
  pose proof (inv_round _ _ _ _ _ I r' Hr'). pose proof (released_range s r).
  pose proof (occurrences_nonneg r (receivers (to_nodes s))).
  pose proof (occurrences_nonneg r' (senders (to_sched s))). lia.
Qed.

(** C2. Barrier progress: once every member has entered its [k]-th barrier, the
    handlers that remain to run cannot block and cannot go on for ever.  Every
    sequence of steps in which no member enters a further barrier is shorter than
    a bound, and as long as some member has not left its [k]-th barrier such a
    step is possible: whatever the order, all members leave it, and such a run exists. *)
Theorem barrier_progress SendMsg now g ids s0 s k :
  (∀ m, 0 < SendMsg m) → 1 ≤ g < 8 → NoDup ids → 1 < Z.of_nat (length ids) < 2 ^ 31 →
  initial g ids s0 → reachable SendMsg now g ids s0 s → (∀ r, r ∈ ids → k ≤ entered s r) →
  (∀ r, r ∈ ids → entered s r = passed s r →
     ∃ s', step SendMsg now g ids s s' ∧ entered s' r = entered s r + 1) ∧
  (∃ bound, ∀ n s', nsteps (settling SendMsg now g ids) n s s' → (n ≤ bound)%nat) ∧
  (∀ s', rtc (settling SendMsg now g ids) s s' →
     (∃ s'', settling SendMsg now g ids s' s'') ∨ ∀ r, r ∈ ids → k ≤ passed s' r) ∧
  ∃ s', rtc (settling SendMsg now g ids) s s' ∧ ∀ r, r ∈ ids → k ≤ passed s' r.
Proof.
  intros Hsend Hg Hnd Hn H0 Hreach Hk.
  destruct (reachable_inv SendMsg now g ids Hsend Hg Hnd Hn s0 s H0 Hreach) as (K & P & I).
  split_and!.
  - intros r Hr He. destruct (DoBarrier_enabled SendMsg now g ids Hsend Hn r (node s r) (inv_members _ _ _ _ _ I r Hr)) as [v' Hv].
    eexists. split; [by apply (enter SendMsg now g ids r v' s)|]. cbn. by rewrite upd_eq.
  - exists (Z.to_nat (work_left ids s)). intros n s' Hs.
    by apply (settling_bounded SendMsg now g ids Hsend Hg Hnd Hn n s s' K P).
  - intros s' Hs. destruct (inv_settling SendMsg now g ids Hsend Hg Hnd Hn s s' K P I Hs) as (K' & P' & I').
    apply (settling_or_passed SendMsg now g ids Hsend Hg Hnd Hn s' K' P' k I').
    intros r Hr. rewrite (settling_entered SendMsg now g ids s s' r Hs). by apply Hk.
  - by apply (settling_ends SendMsg now g ids Hsend Hg Hnd Hn s K P k).
Qed.

(** ** A system of two workers *)
Definition two_workers : list Z := [9; 11].
Definition two_po : Postoffice.t :=
  (Postoffice.new 0) <| Postoffice.num_workers_ := 2 |> <| Postoffice.group_size_ := 1 |>
    <| Postoffice.node_ids_ := {[4 := two_workers]} |>
    <| Postoffice.barrier_done_ := {[0 := {[0 := false]}]} |>.
Definition two_node (role : Node.Role) (id : Z) : t :=
  (Van.new (env_of []) two_po (Node.mk role id 0 (bytes_of "10.0.0.1") 1 [] [] [] 8000 false [] 0 0))
    <| ready_ := true |>.
Definition two_start : system :=
  mkSystem (two_node Node.SCHEDULER 1) (two_node Node.WORKER) [] [] (λ _, 0) (λ _, 0).

Lemma two_start_initial : initial 4 two_workers two_start.
Proof.
  split_and!; try done.
  - split_and!; try done. by left.
  - intros r Hr. split_and!; try done. by exists false.
Qed.

(** Both workers have entered their first barrier; their requests are on the way. *)
Definition entered_by (r : Z) (s : system) : system :=
  match DoBarrier (λ _, 1) 0 0 4 true (node s r) with
  | Ok (Some v') =>
      mkSystem (sched s) (upd (node s) r v') (to_sched s ++ map (from r) (new_messages (node s r) v'))
        (to_nodes s) (upd (entered s) r (entered s r + 1)) (passed s)
  | _ => s
  end.
Definition two_entered : system := entered_by 11 (entered_by 9 two_start).

Lemma entered_by_step ids r s :
  r ∈ ids → entered s r = passed s r →
  (if DoBarrier (λ _, 1) 0 0 4 true (node s r) is Ok (Some _) then true else false) = true →
  step (λ _, 1) 0 4 ids s (entered_by r s).
Proof.
  intros Hr He Hd. unfold entered_by.
  destruct (DoBarrier (λ _, 1) 0 0 4 true (node s r)) as [[v'|]|] eqn:E; try discriminate Hd. by apply enter.
Qed.

Lemma two_entered_reachable : reachable (λ _, 1) 0 4 two_workers two_start two_entered.
Proof.
  apply (rtc_l _ _ (entered_by 9 two_start)); [|apply rtc_once].
  - apply entered_by_step; [left|vm_compute; reflexivity..].
  - apply entered_by_step; [right; left|vm_compute; reflexivity..].
Qed.

Lemma barrier_safety_witness : passed two_entered 9 ≤ entered two_entered 11 ∧ entered two_entered 11 = 1.
Proof.
  split; [|vm_compute; reflexivity].
  apply (barrier_safety (λ _, 1) 0 4 two_workers two_start two_entered 9 11);
    try done; try (apply (bool_decide_unpack _); vm_compute; exact I).
  - exact two_start_initial.
  - exact two_entered_reachable.
Defined.

(** From there both workers leave: 9 and 11 have passed one barrier. *)
Lemma barrier_progress_witness :
  ∃ s', rtc (settling (λ _, 1) 0 4 two_workers) two_entered s' ∧ ∀ r, r ∈ two_workers → 1 ≤ passed s' r.
Proof.
  apply (barrier_progress (λ _, 1) 0 4 two_workers two_start two_entered 1);
    try done; try (apply (bool_decide_unpack _); vm_compute; exact I).
  - exact two_start_initial.
  - exact two_entered_reachable.
  - intros r Hr. repeat (apply elem_of_cons in Hr as [->|Hr]; [vm_compute; discriminate|]). by apply elem_of_nil in Hr.
Defined.
