(* ===== verification/Customer.v ===== *)
(** * Customer (include/ps/internal/customer.h, src/customer.cc)

    The tracker of the requests of an application: every request expects one
    response per server; a response counts once, after the application has
    handled it. *)

From S2P Require Import Prelude Message Postoffice.

Definition kMaxSpinCount : Z := 10000.

(** [CustomerTracker]; the traces are only kept with STEPMESH_ENABLE_TRACE. *)
Record tracker : Type := mkTracker {
  count : Z;
  response_count : Z;
  response_count_cache : Z;
  start_time : Z
}.

Module Customer.
Record t : Type := mk {
  app_id_ : Z;
  customer_id_ : Z;
  tracker_ : list tracker
}.
End Customer.
Import Customer.

(** [Customer(app_id, customer_id, ...)]: the customer at address [ptr]
    registers with the postoffice. *)
Definition new_customer (app_id customer_id ptr : Z) (po : Postoffice.t)
    : result (t * Postoffice.t) :=
  po ← AddCustomer app_id customer_id ptr po;
  Ok (Customer.mk app_id customer_id [], po).

(** [NewRequest]: one response is expected from each server group. *)
Definition NewRequest (po : Postoffice.t) (now recver : Z) (c : t) : result (Z * t) :=
  check! (recver =? kServerGroup) or "recver";
  ids ← GetNodeIDs po recver;
  let num := Z.quot (Z.of_nat (length ids)) (Postoffice.group_size_ po) in
  let c := c <| tracker_ ::= (λ l, l ++ [mkTracker num 0 0 now]) |> in
  Ok (Z.of_nat (length (tracker_ c)) - 1, c).

(** [tracker_[timestamp]] *)
Definition get_tracker (c : t) (timestamp : Z) : result tracker :=
  inside! ((0 <=? timestamp) && (timestamp <? Z.of_nat (length (tracker_ c)))) or "tracker_";
  from_option_or (Undefined "tracker_") (tracker_ c !! Z.to_nat timestamp).

Definition add_responses (n : Z) (tr : tracker) : tracker :=
  tr <| response_count ::= (λ k, i32 (k + n)) |>.

Definition update_tracker (f : tracker → tracker) (timestamp : Z) (c : t) : result t :=
  tr ← get_tracker c timestamp;
  Ok (c <| tracker_ ::= (λ l, <[Z.to_nat timestamp := f tr]> l) |>).

Definition NumResponse (c : t) (timestamp : Z) : result Z :=
  tr ← get_tracker c timestamp; Ok (count tr).

Definition AddResponse (timestamp num : Z) (c : t) : result t :=
  update_tracker (add_responses (i32 num)) timestamp c.

(** The wait of [WaitRequest] over the values [obs] the counter and the clock
    take: [Some (Ok ())] when a look finds the counter equal to the number of
    expected responses, [Some (Err _)] when the time is over first, [None] when
    the wait is still going on. *)
Fixpoint wait_loop (tr : tracker) (timeout_ns spin : Z) (obs : list (Z * Z))
    : option (result unit) :=
  match obs with
  | [] => None
  | (responses, now) :: obs' =>
      if count tr =? responses then Some (Ok ())
      else if spin <? kMaxSpinCount then wait_loop tr timeout_ns (spin + 1) obs'
      else if timeout_ns <? u64 (now - start_time tr) then
        Some (Err (CheckFailed "request timeout"))
      else wait_loop tr timeout_ns spin obs'
  end.

Definition WaitRequest (c : t) (timestamp timeout_ms : Z) (obs : list (Z * Z))
    : option (result unit) :=
  match get_tracker c timestamp with
  | Ok tr => wait_loop tr (u64 (timeout_ms * 1000000)) 0 obs
  | Err e => Some (Err e)
  end.

(** [DirectProcess]: the application's handler [recv_handle] acts on its own
    state [S], then a response is counted. *)
Definition DirectProcess {S} (recv_handle : Message.t → t → S → result (t * S))
    (recv : Message.t) (c : t) (s : S) : result (t * S) :=
  let m := Message.meta recv in
  if bool_decide (Control.cmd (Meta.control m) = Control.TERMINATE) then Ok (c, s)
  else
    x ← recv_handle recv c s;
    if Meta.request m then Ok x
    else
      c ← update_tracker
            (λ tr, (add_responses 1 tr) <| response_count_cache ::= (λ k, i32 (k + 1)) |>)
            (Meta.timestamp m) x.1;
      Ok (c, x.2).

(** [Accept] puts a message into the queue of [Receiving], the thread function:
    it handles the messages of the queue up to one that ends it, and waits when
    there is none; the cache of the counter is not touched. *)
Definition Accept (recved : Message.t) (recv_queue_ : list Message.t) : list Message.t := recv_queue_ ++ [recved].

Fixpoint customer_Receiving {S} (recv_handle : Message.t → t → S → result (t * S))
    (recv_queue_ : list Message.t) (c : t) (s : S) : result (t * S * list Message.t) :=
  match recv_queue_ with
  | [] => Err (Blocked "recv_queue_")
  | recv :: q =>
      let m := Message.meta recv in
      if bool_decide (Control.cmd (Meta.control m) = Control.TERMINATE) then Ok (c, s, q)
      else
        x ← recv_handle recv c s;
        if Meta.request m then customer_Receiving recv_handle q x.1 x.2
        else
          c ← update_tracker (add_responses 1) (Meta.timestamp m) x.1;
          customer_Receiving recv_handle q c x.2
  end.

(** [~Customer] *)
Definition delete_customer (c : t) (po : Postoffice.t) : Postoffice.t :=
  RemoveCustomer (app_id_ c) (customer_id_ c) po.

(** ** Lemmas *)
Lemma get_tracker_Ok c ts tr :
  get_tracker c ts = Ok tr ↔ 0 ≤ ts ∧ tracker_ c !! Z.to_nat ts = Some tr.
Proof.
  unfold get_tracker. destruct (Z.leb_spec 0 ts), (Z.ltb_spec ts (Z.of_nat (length (tracker_ c))));
    simpl; rewrite ?from_option_or_Ok; split; try done; try naive_solver.
  - intros [_ Hl%lookup_lt_Some]. lia.
  - intros [? _]. lia.
  - intros [? _]. lia.
Qed.

Lemma add_responses_eq n a b c d :
  add_responses n (mkTracker a b c d) = mkTracker a (i32 (b + n)) c d.
Proof. done. Qed.

(** A new request is the last one, with nothing received. *)
Lemma NewRequest_Ok po now c ids :
  GetNodeIDs po kServerGroup = Ok ids →
  NewRequest po now kServerGroup c =
  Ok (Z.of_nat (length (tracker_ c)),
      c <| tracker_ ::= (λ l, l ++ [mkTracker (Z.quot (Z.of_nat (length ids)) (Postoffice.group_size_ po)) 0 0 now]) |>).
Proof.
  intros H. unfold NewRequest. rewrite Z.eqb_refl, H. cbn [mbind result_bind]. do 2 f_equal.
  simpl. rewrite length_app. simpl. lia.
Qed.

Lemma get_new_tracker c tr :
  get_tracker (c <| tracker_ ::= (λ l, l ++ [tr]) |>) (Z.of_nat (length (tracker_ c))) = Ok tr.
Proof.
  apply get_tracker_Ok. split; [lia|]. simpl. rewrite Nat2Z.id. by apply list_lookup_middle.
Qed.

Lemma update_tracker_Ok f ts c tr :
  get_tracker c ts = Ok tr →
  ∃ c', update_tracker f ts c = Ok c' ∧ get_tracker c' ts = Ok (f tr) ∧
    (∀ ts', ts' ≠ ts → get_tracker c' ts' = get_tracker c ts') ∧
    app_id_ c' = app_id_ c ∧ customer_id_ c' = customer_id_ c ∧
    length (tracker_ c') = length (tracker_ c).
Proof.
  intros Hg. unfold update_tracker. rewrite Hg. eexists. split; [reflexivity|].
  apply get_tracker_Ok in Hg as [H0 Hl]. pose proof (lookup_lt_Some _ _ _ Hl).
  split_and!; try done.
  - apply get_tracker_Ok. split; [done|]. simpl. by apply list_lookup_insert_eq.
  - intros ts' Hne. unfold get_tracker. simpl. rewrite length_insert.
    destruct ((0 <=? ts') && _) eqn:E; [|done]. apply andb_true_iff in E as [E1%Z.leb_le _].
    rewrite list_lookup_insert_ne by lia. done.
  - simpl. apply length_insert.
Qed.
