(* ===== verification/Slicer.v ===== *)
(** * Key-value lists and their slicing (include/ps/kv_app.h, include/ps/sarray.h)

    The arrays of keys, values and lengths of a request, their transport as
    bytes, and [KVWorker::DefaultSlicer], which cuts a request into one part
    per server.  The theorems relate the slicer, which works on positions found
    by binary search, to the list of keys with their values it stands for. *)

From S2P Require Import Prelude Message Codec Postoffice.

Module KVPairs.
Record t (V : Type) : Type := mk {
  keys : SArray.t Z;
  vals : SArray.t V;
  lens : SArray.t Z
}.
Arguments mk {V}.
Arguments keys {V}.
Arguments vals {V}.
Arguments lens {V}.
End KVPairs.
Import KVPairs.

(** ** Arrays *)

(** [SArray()]; the pointer is not initialised. *)
Definition sarray0 {V} : SArray.t V := SArray.mk 0 [] DeviceType.CPU 0 DeviceType.CPU 0.
Definition kvpairs0 {V} : KVPairs.t V := KVPairs.mk sarray0 sarray0 sarray0.

(** [segment]: the elements [from .. to - 1], in place; [sz] is [sizeof(V)]. *)
Definition segment {V} (sz : Z) (a : SArray.t V) (from to : Z) : result (SArray.t V) :=
  check! (from <=? to) or "segment";
  check! (to <=? SArray.size a) or "segment";
  Ok (SArray.mk (SArray.ptr_ a + from * sz)
        (take (Z.to_nat (to - from)) (drop (Z.to_nat from) (SArray.elems a)))
        (SArray.src_device_type_ a) (SArray.src_device_id_ a)
        (SArray.dst_device_type_ a) (SArray.dst_device_id_ a)).

(** ** Binary search *)

(** [std::lower_bound] over the elements [first .. first + len - 1]. *)
Fixpoint bisect (fuel : nat) (ks : list Z) (first len : nat) (v : Z) : nat :=
  match fuel with
  | O => first
  | S fuel =>
      if decide (len = O) then first
      else
        let half := Nat.div2 len in
        if ks !!! (first + half)%nat <? v
        then bisect fuel ks (S (first + half)) (len - half - 1) v
        else bisect fuel ks first half v
  end.

Definition lower_bound (ks : list Z) (v : Z) : nat :=
  bisect (length ks) ks 0 (length ks) v.

(** [FindRange]: the positions of the keys in [lower, upper). *)
Definition FindRange (arr : list Z) (lower upper : Z) : Range :=
  if upper <=? lower then mkRange 0 0
  else mkRange (Z.of_nat (lower_bound arr lower)) (Z.of_nat (lower_bound arr upper)).

(** ** [DefaultSlicer] *)

(** The rest of the loop over the servers: [ks] are the keys from [begin] on,
    [pos] their position, [prev] the range of the server before. *)
Fixpoint find_positions (ks : list Z) (pos : nat) (prev : option Range) (ranges : list Range)
    : result (list nat) :=
  match ranges with
  | [] => Ok []
  | r :: rs =>
      check! (match prev with Some p => end_ p =? begin r | None => true end) or "ranges";
      let len := lower_bound ks (end_ r) in
      ps ← find_positions (drop len ks) (pos + len) (Some r) rs;
      Ok ((pos + len)%nat :: ps)
  end.

(** [pos[0 .. n]] *)
Definition positions (ks : list Z) (ranges : list Range) : result (list nat) :=
  match ranges with
  | [] => Ok [O]
  | r :: _ =>
      let p0 := lower_bound ks (begin r) in
      ps ← find_positions (drop p0 ks) p0 None ranges;
      Ok (p0 :: ps)
  end.

Section slicer.
Context {V : Type} (sz : Z).

(** [for (int l : kv.lens) val_end += l] *)
Definition add_lens (val_end : Z) (ls : list Z) : Z :=
  fold_left (λ acc l, u64 (acc + l)) ls val_end.

Fixpoint slice_at (send : KVPairs.t V) (k val_begin : Z) (p : nat) (pos : list nat)
    : result (list (bool * KVPairs.t V)) :=
  match pos with
  | [] => Ok []
  | q :: pos' =>
      if decide (q = p) then
        l ← slice_at send k val_begin q pos';
        Ok ((false, kvpairs0) :: l)
      else
        ks ← segment 8 (keys send) (Z.of_nat p) (Z.of_nat q);
        if 0 <? SArray.size (lens send) then
          ls ← segment 4 (lens send) (Z.of_nat p) (Z.of_nat q);
          let val_end := add_lens val_begin (SArray.elems ls) in
          vs ← segment sz (vals send) val_begin val_end;
          l ← slice_at send k val_end q pos';
          Ok ((true, KVPairs.mk ks vs ls) :: l)
        else
          vs ← segment sz (vals send) (u64 (Z.of_nat p * k)) (u64 (Z.of_nat q * k));
          l ← slice_at send k val_begin q pos';
          Ok ((true, KVPairs.mk ks vs sarray0) :: l)
  end.

Definition DefaultSlicer (send : KVPairs.t V) (ranges : list Range)
    : result (list (bool * KVPairs.t V)) :=
  pos ← positions (SArray.elems (keys send)) ranges;
  let n := length ranges in
  check! (Z.of_nat (pos !!! n) =? SArray.size (keys send)) or "pos[n] == keys.size()";
  if SArray.empty (keys send) then Ok (map (λ _, (false, kvpairs0)) ranges)
  else
    let k := SArray.size (vals send) / SArray.size (keys send) in
    check! (if SArray.empty (lens send)
            then k * SArray.size (keys send) =? SArray.size (vals send)
            else SArray.size (keys send) =? SArray.size (lens send)) or "lens";
    slice_at send (if SArray.empty (lens send) then k else 0) 0
      (pos !!! O) (tail pos).
End slicer.

(** ** Binary search finds the number of smaller keys *)
Definition below (ks : list Z) (v : Z) : nat := length (filter (λ k, k < v) ks).

Lemma sorted_lookup {A} (R : A → A → Prop) l i j x y :
  StronglySorted R l → (i < j)%nat → l !! i = Some x → l !! j = Some y → R x y.
Proof.
  intros Hs. revert i j. induction Hs as [|z l Hs IH Hz]; intros i j Hij Hx Hy; [done|].
  destruct j as [|j]; [lia|]. simpl in Hy. destruct i as [|i]; simpl in Hx.
  - injection Hx as <-. rewrite Forall_forall in Hz. apply Hz. by apply list_elem_of_lookup_2 with j.
  - apply (IH i j); [lia|done..].
Qed.

Lemma bisect_bounds fuel ks first len v :
  StronglySorted Z.lt ks → (len ≤ fuel)%nat → (first + len ≤ length ks)%nat →
  (∀ i, (i < first)%nat → ks !!! i < v) →
  (∀ i, (first + len ≤ i < length ks)%nat → v ≤ ks !!! i) →
  let r := bisect fuel ks first len v in
  (r ≤ length ks)%nat ∧ (∀ i, (i < r)%nat → ks !!! i < v) ∧
  (∀ i, (r ≤ i < length ks)%nat → v ≤ ks !!! i).
Proof.
  intros Hs. revert first len. induction fuel as [|fuel IH]; intros first len Hf Hl Hlo Hhi; simpl.
  { split; [lia|]. split; [done|]. intros. apply Hhi. lia. }
  assert (∀ i j, (i < j < length ks)%nat → ks !!! i < ks !!! j) as Hlt.
  { intros i j Hij. apply (sorted_lookup Z.lt ks i j _ _ Hs); [lia| |];
      apply list_lookup_lookup_total_lt; lia. }
  case_decide; [subst; split; [lia|]; split; [done|]; intros; apply Hhi; lia|].
  assert (Nat.div2 len < len)%nat by (apply Nat.lt_div2; lia).
  set (h := Nat.div2 len) in *. destruct (Z.ltb_spec (ks !!! (first + h)%nat) v) as [Hm|Hm].
  - apply IH; [lia|lia| |intros i Hi; apply Hhi; lia].
    intros i Hi. destruct (decide (i = first + h)%nat) as [->|]; [done|].
    specialize (Hlt i (first + h)%nat). lia.
  - apply IH; [lia|lia|done|].
    intros i Hi. destruct (decide (i = first + h)%nat) as [->|]; [done|].
    specialize (Hlt (first + h)%nat i). lia.
Qed.

Lemma below_split ks v r :
  (r ≤ length ks)%nat → (∀ i, (i < r)%nat → ks !!! i < v) →
  (∀ i, (r ≤ i < length ks)%nat → v ≤ ks !!! i) → below ks v = r.
Proof.
  intros Hr Hlo Hhi. unfold below. rewrite <- (take_drop r ks) at 1.
  rewrite filter_app, length_app, filter_true, filter_false.
  - rewrite length_take. simpl. lia.
  - intros k [i Hi]%list_elem_of_lookup. rewrite lookup_drop in Hi.
    pose proof (lookup_lt_Some _ _ _ Hi). specialize (Hhi (r + i)%nat).
    rewrite (list_lookup_total_correct _ _ _ Hi) in Hhi. lia.
  - intros k [i Hi]%list_elem_of_lookup. apply lookup_take_Some in Hi as [Hi ?].
    specialize (Hlo i). rewrite (list_lookup_total_correct _ _ _ Hi) in Hlo. auto.
Qed.

Lemma lower_bound_below ks v : StronglySorted Z.lt ks → lower_bound ks v = below ks v.
Proof.
  intros Hs. unfold lower_bound.
  destruct (bisect_bounds (length ks) ks 0 (length ks) v Hs) as (H1 & H2 & H3); [lia..|].
  symmetry. by apply below_split.
Qed.

Lemma below_le (ks : list Z) b e : b ≤ e → (below ks b ≤ below ks e)%nat.
Proof.
  intros Hbe. unfold below. induction ks as [|k ks IH]; simpl; [done|].
  rewrite !filter_cons. repeat case_decide; simpl; lia.
Qed.
Section sorted_by.
Context {A : Type} (f : A → Z).

Lemma sorted_none (l : list A) x v :
  Forall (λ y, f x < f y) l → v ≤ f x → filter (λ y, f y < v) l = [].
Proof. intros Hl Hv. apply filter_false. intros y Hy. rewrite Forall_forall in Hl. specialize (Hl y Hy). lia. Qed.

Lemma split_below (l : list A) v :
  StronglySorted (λ a b, f a < f b) l →
  take (below (map f l) v) l = filter (λ x, f x < v) l ∧
  drop (below (map f l) v) l = filter (λ x, v ≤ f x) l.
Proof.
  unfold below. induction 1 as [|x l Hs [IH1 IH2] Hx]; [done|]. simpl. rewrite !filter_cons.
  destruct (decide (f x < v)).
  - rewrite decide_False by lia. simpl. by rewrite IH1, IH2.
  - rewrite decide_True by lia. assert (filter (λ k, k < v) (map f l) = []) as E.
    { apply filter_false. intros k Hk. apply list_elem_of_fmap in Hk as (y & -> & Hy).
      rewrite Forall_forall in Hx. specialize (Hx y Hy). lia. }
    rewrite E. simpl. rewrite (sorted_none l x) by (done || lia). split; [done|].
    f_equal. symmetry. apply filter_true. intros y Hy.
    rewrite Forall_forall in Hx. specialize (Hx y Hy). lia.
Qed.
End sorted_by.

(** ** The positions of adjacent ranges *)

(** Ranges that follow each other from [b] on. *)
Fixpoint adjacent (b : Z) (rs : list Range) : Prop :=
  match rs with
  | [] => True
  | r :: rs => begin r = b ∧ b ≤ end_ r ∧ adjacent (end_ r) rs
  end.

Lemma below_drop ks b e :
  StronglySorted Z.lt ks → b ≤ e →
  lower_bound (drop (below ks b) ks) e = (below ks e - below ks b)%nat.
Proof.
  intros Hs Hbe. destruct (split_below (λ k, k) ks b) as [Ht Hd]; [done|].
  rewrite map_id in Ht, Hd.
  assert (StronglySorted Z.lt (drop (below ks b) ks)) as Hs'.
  { rewrite <- (take_drop (below ks b) ks) in Hs. by apply StronglySorted_app_1_r in Hs. }
  rewrite lower_bound_below by done. unfold below at 1.
  enough (below ks e = (below ks b + length (filter (λ k, (k < e)%Z) (drop (below ks b) ks)))%nat) by lia.
  unfold below at 1. rewrite <- (take_drop (below ks b) ks) at 1.
  rewrite filter_app, length_app. f_equal. rewrite filter_true; [by rewrite Ht|].
  intros k. rewrite Ht. intros [? _]%list_elem_of_filter. lia.
Qed.

Lemma find_positions_Ok ks b prev rs :
  StronglySorted Z.lt ks → adjacent b rs →
  (∀ p, prev = Some p → end_ p = b) →
  find_positions (drop (below ks b) ks) (below ks b) prev rs =
  Ok (map (λ r, below ks (end_ r)) rs).
Proof.
  intros Hs. revert b prev. induction rs as [|r rs IH]; intros b prev Hadj Hprev; [done|].
  destruct Hadj as (Hb & Hbe & Hadj). cbn [find_positions].
  assert ((match prev with Some p => end_ p =? begin r | None => true end) = true) as ->.
  { destruct prev; [|done]. apply Z.eqb_eq. rewrite Hb. by apply Hprev. }
  pose proof (below_le ks b (end_ r) Hbe). rewrite below_drop by done. rewrite drop_drop.
  replace (below ks b + (below ks (end_ r) - below ks b))%nat with (below ks (end_ r)) by lia.
  rewrite IH; [done|done|]. by intros p [= ->].
Qed.

Lemma positions_Ok ks b rs :
  StronglySorted Z.lt ks → adjacent b rs → rs ≠ [] →
  positions ks rs = Ok (below ks b :: map (λ r, below ks (end_ r)) rs).
Proof.
  intros Hs Hadj Hne. destruct rs as [|r rs]; [done|]. pose proof Hadj as (Hb & _ & _).
  unfold positions. rewrite lower_bound_below, Hb by done.
  rewrite (find_positions_Ok ks b None (r :: rs)) by done. done.
Qed.

(** ** The values of a run of keys *)
Section values.
Context {V : Type}.
Implicit Types vss : list (list V).

Lemma drop_concat vss p : drop (length (concat (take p vss))) (concat vss) = concat (drop p vss).
Proof.
  rewrite <- (take_drop p vss) at 2. rewrite concat_app. apply drop_app_length.
Qed.

Lemma take_concat vss p : take (length (concat (take p vss))) (concat vss) = concat (take p vss).
Proof.
  rewrite <- (take_drop p vss) at 2. rewrite concat_app. apply take_app_length.
Qed.

Definition voff vss (p : nat) : Z := Z.of_nat (length (concat (take p vss))).

Lemma voff_split vss p q :
  (p ≤ q)%nat → voff vss q = voff vss p + Z.of_nat (length (concat (take (q - p) (drop p vss)))).
Proof.
  intros Hpq. unfold voff. rewrite <- Nat2Z.inj_add, <- length_app, <- concat_app. do 3 f_equal.
  rewrite take_take_drop. do 2 f_equal. lia.
Qed.

Lemma voff_le vss p : voff vss p ≤ Z.of_nat (length (concat vss)).
Proof.
  unfold voff. rewrite <- (take_drop p vss) at 2. rewrite concat_app, length_app. lia.
Qed.

Lemma voff_uniform vss k p :
  (∀ vs, vs ∈ vss → length vs = k) → (p ≤ length vss)%nat → voff vss p = Z.of_nat (p * k).
Proof.
  intros Hk. unfold voff. revert p. induction vss as [|vs vss IH]; intros p Hp; simpl in *.
  { destruct p; [done|lia]. }
  destruct p as [|p]; [done|]. simpl. rewrite length_app, (Hk vs) by left.
  specialize (IH ltac:(intros; apply Hk; by right) p). lia.
Qed.

Lemma add_lens_concat a vss :
  0 ≤ a → a + Z.of_nat (length (concat vss)) < 2 ^ 64 →
  add_lens a (map (λ vs, Z.of_nat (length vs)) vss) = a + Z.of_nat (length (concat vss)).
Proof.
  unfold add_lens. revert a. induction vss as [|vs vss IH]; intros a Ha Hb; simpl in *; [lia|].
  rewrite length_app in *. rewrite uwrap_small by (unfold in_u; lia). rewrite IH; lia.
Qed.

Lemma segment_values sz (a : SArray.t V) vss p q :
  SArray.elems a = concat vss → (p ≤ q)%nat →
  ∃ a', segment sz a (voff vss p) (voff vss q) = Ok a' ∧
    SArray.elems a' = concat (take (q - p) (drop p vss)) ∧
    SArray.ptr_ a' = SArray.ptr_ a + voff vss p * sz.
Proof.
  intros Ha Hpq. unfold segment, SArray.size. rewrite Ha.
  pose proof (voff_split vss p q Hpq) as E. pose proof (voff_le vss q).
  rewrite (proj2 (Z.leb_le _ _)) by lia. rewrite (proj2 (Z.leb_le _ _)) by lia.
  eexists. split; [reflexivity|]. split; [|done]. simpl.
  unfold voff at 3. rewrite Nat2Z.id, drop_concat, E.
  replace (Z.to_nat _) with (length (concat (take (q - p) (drop p vss)))) by lia.
  apply take_concat.
Qed.
End values.

Lemma segment_Ok {V} sz (a : SArray.t V) p q :
  (p ≤ q ≤ length (SArray.elems a))%nat →
  ∃ a', segment sz a (Z.of_nat p) (Z.of_nat q) = Ok a' ∧
    SArray.elems a' = take (q - p) (drop p (SArray.elems a)).
Proof.
  intros Hpq. unfold segment, SArray.size. rewrite !(proj2 (Z.leb_le _ _)) by lia.
  eexists. split; [reflexivity|]. simpl. do 2 f_equal; lia.
Qed.

(** ** The slices of a request *)
Section slices.
Context {V : Type} (sz : Z).

(** [kvs] holds the keys with their values [l]: the values one after the
    other, either with the list of their lengths or with one length for all. *)
Definition represents (kvs : KVPairs.t V) (l : list (Z * list V)) : Prop :=
  SArray.elems (keys kvs) = l.*1 ∧ SArray.elems (vals kvs) = concat l.*2 ∧
  (SArray.elems (lens kvs) = map (λ vs, Z.of_nat (length vs)) l.*2 ∨
   SArray.elems (lens kvs) = [] ∧ ∃ k, ∀ vs, vs ∈ l.*2 → length vs = k).

Definition in_range (r : Range) (x : Z * list V) : Prop := begin r ≤ x.1 < end_ r.

#[global] Instance in_range_dec r x : Decision (in_range r x).
Proof. unfold in_range. apply _. Defined.

Lemma sorted_keys (l : list (Z * list V)) :
  StronglySorted Z.lt l.*1 → StronglySorted (λ a b : Z * list V, a.1 < b.1) l.
Proof.
  induction l as [|x l IH]; intros Hs; simpl in Hs; [constructor|].
  apply StronglySorted_cons in Hs as [Hx Hs]. constructor; [by apply IH|].
  by rewrite Forall_fmap in Hx.
Qed.

Lemma range_segment (l : list (Z * list V)) r :
  StronglySorted Z.lt l.*1 → begin r ≤ end_ r →
  take (below l.*1 (end_ r) - below l.*1 (begin r)) (drop (below l.*1 (begin r)) l) =
  filter (in_range r) l.
Proof.
  intros Hs Hr. pose proof (below_drop l.*1 _ _ Hs Hr) as Hb.
  destruct (split_below fst l (begin r) (sorted_keys l Hs)) as [_ Hd].
  change (map fst l) with l.*1 in Hd. rewrite <- fmap_drop in Hb.
  set (m := drop _ l) in *.
  assert (StronglySorted Z.lt m.*1) as Hm.
  { rewrite <- (take_drop (below l.*1 (begin r)) l) in Hs. rewrite fmap_app in Hs.
    by apply StronglySorted_app_1_r in Hs. }
  rewrite lower_bound_below in Hb by done. rewrite <- Hb.
  destruct (split_below fst m (end_ r) (sorted_keys m Hm)) as [Ht _].
  change (map fst m) with m.*1 in Ht. rewrite Ht, Hd, list_filter_filter.
  apply list_filter_iff. unfold in_range. intros x. lia.
Qed.

(** The part of a request one server gets. *)
Definition slice_of (l : list (Z * list V)) (r : Range) (s : bool * KVPairs.t V) : Prop :=
  represents s.2 (filter (in_range r) l) ∧ s.1 = bool_decide (filter (in_range r) l ≠ []).

(** The values of a run of keys, when every key has its length. *)
Lemma counted_slice send (l : list (Z * list V)) p q :
  SArray.elems (lens send) = map (λ vs, Z.of_nat (length vs)) l.*2 →
  SArray.elems (vals send) = concat l.*2 → SArray.size (vals send) < 2 ^ 64 →
  (p ≤ q ≤ length l)%nat →
  let run := take (q - p) (drop p l) in
  ∃ ls vs, segment 4 (lens send) (Z.of_nat p) (Z.of_nat q) = Ok ls ∧
    add_lens (voff l.*2 p) (SArray.elems ls) = voff l.*2 q ∧
    segment sz (vals send) (voff l.*2 p) (voff l.*2 q) = Ok vs ∧
    SArray.elems ls = map (λ vs, Z.of_nat (length vs)) run.*2 ∧
    SArray.elems vs = concat run.*2.
Proof.
  intros Hl Hv Hsz Hpq run.
  destruct (segment_Ok 4 (lens send) p q) as (ls & Hls & Els).
  { rewrite Hl, length_map, length_fmap. lia. }
  destruct (segment_values sz (vals send) l.*2 p q Hv) as (vs & Hvs & Evs & _); [lia|].
  rewrite <- fmap_drop, <- fmap_take in Evs. fold run in Evs.
  rewrite Hl in Els. change (map ?f l.*2) with (f <$> l.*2) in Els.
  rewrite <- !fmap_drop, <- !fmap_take in Els. fold run in Els.
  exists ls, vs. split_and!; try done. pose proof (voff_split l.*2 p q ltac:(lia)) as E.
  rewrite <- fmap_drop, <- fmap_take in E. fold run in E. rewrite Els, E. apply add_lens_concat.
  - unfold voff. lia.
  - rewrite <- E. pose proof (voff_le l.*2 q). unfold SArray.size in Hsz. rewrite Hv in Hsz. lia.
Qed.

(** ... and when all keys have [k] values. *)
Lemma fixed_slice send (l : list (Z * list V)) k p q :
  (∀ vs, vs ∈ l.*2 → length vs = Z.to_nat k) → 0 ≤ k →
  SArray.elems (vals send) = concat l.*2 → SArray.size (vals send) < 2 ^ 64 →
  (p ≤ q ≤ length l)%nat →
  let run := take (q - p) (drop p l) in
  ∃ vs, segment sz (vals send) (u64 (Z.of_nat p * k)) (u64 (Z.of_nat q * k)) = Ok vs ∧
    SArray.elems vs = concat run.*2.
Proof.
  intros Hu Hk0 Hv Hsz Hpq run.
  assert (∀ i, (i ≤ length l)%nat → u64 (Z.of_nat i * k) = voff l.*2 i) as Hoff.
  { intros i Hi. pose proof (voff_le l.*2 i) as Hvl. unfold SArray.size in Hsz. rewrite Hv in Hsz.
    rewrite (voff_uniform l.*2 (Z.to_nat k) i Hu) in Hvl |- * by (rewrite length_fmap; lia).
    rewrite uwrap_small; unfold in_u; lia. }
  rewrite !Hoff by lia.
  destruct (segment_values sz (vals send) l.*2 p q Hv) as (vs & Hvs & Evs & _); [lia|].
  rewrite <- fmap_drop, <- fmap_take in Evs. by exists vs.
Qed.

Lemma slice_at_Ok send (l : list (Z * list V)) k b rs :
  represents send l → StronglySorted Z.lt l.*1 →
  SArray.size (vals send) < 2 ^ 64 →
  (SArray.elems (lens send) = [] → ∀ vs, vs ∈ l.*2 → length vs = Z.to_nat k) →
  0 ≤ k → adjacent b rs →
  ∃ ss, slice_at sz send k (if SArray.empty (lens send) then 0 else voff l.*2 (below l.*1 b))
          (below l.*1 b) (map (λ r, below l.*1 (end_ r)) rs) = Ok ss ∧
        Forall2 (slice_of l) rs ss.
Proof.
  intros (Hk & Hv & Hl) Hs Hsz Hu Hk0. revert b.
  induction rs as [|r rs IH]; intros b Hadj; [by exists []|].
  destruct Hadj as (<- & Hr & Hadj). destruct (IH (end_ r) Hadj) as (ss & Hss & HF). clear IH.
  pose proof (range_segment l r Hs Hr) as Hseg. pose proof (below_le l.*1 _ _ Hr) as Hle.
  assert (below l.*1 (end_ r) ≤ length l)%nat as Hlen
    by (rewrite <- (length_fmap fst); apply length_filter).
  cbn [map slice_at]. set (p := below l.*1 (begin r)) in *. set (q := below l.*1 (end_ r)) in *.
  case_decide as Hpq.
  { rewrite Hpq in Hss |- *. rewrite Hss. exists ((false, kvpairs0) :: ss). split; [done|].
    constructor; [|done]. unfold slice_of. rewrite <- Hseg, Hpq, Nat.sub_diag, take_0.
    split; [|done]. split; [done|]. split; [done|]. by left. }
  assert (bool_decide (filter (in_range r) l ≠ []) = true) as Hne.
  { apply bool_decide_eq_true_2. rewrite <- Hseg. intros E%(f_equal length).
    rewrite length_take, length_drop in E. simpl in E. lia. }
  destruct (segment_Ok 8 (keys send) p q) as (ks & -> & Hks); [rewrite Hk, length_fmap; lia|].
  cbn [mbind result_bind]. rewrite Hk, <- fmap_drop, <- fmap_take, Hseg in Hks.
  assert (SArray.empty (lens send) = negb (0 <? SArray.size (lens send))) as Ee.
  { unfold SArray.empty, SArray.size. by destruct (SArray.elems (lens send)). }
  rewrite Ee in *. destruct (0 <? SArray.size (lens send)) eqn:El; cbn [negb] in *.
  - destruct Hl as [Hl|[Hl _]]; [|exfalso; revert El; unfold SArray.size; by rewrite Hl].
    destruct (counted_slice send l p q Hl Hv Hsz ltac:(lia)) as (ls & vs & -> & Ha & Hvs & Els & Evs).
    cbn [mbind result_bind]. rewrite Ha, Hvs. cbn [mbind result_bind]. rewrite Hss, Hseg in *.
    eexists. split; [reflexivity|]. constructor; [|done]. split; [|done]. split; [done|]. by split; [|left].
  - assert (SArray.elems (lens send) = []) as El'
      by (revert El; unfold SArray.size; by destruct (SArray.elems (lens send))).
    destruct (fixed_slice send l k p q (Hu El') Hk0 Hv Hsz ltac:(lia)) as (vs & -> & Evs).
    cbn [mbind result_bind]. rewrite Hss, Hseg in *.
    eexists. split; [reflexivity|]. constructor; [|done]. split; [|done]. split; [done|].
    split; [done|]. right. split; [done|]. exists (Z.to_nat k).
    intros xs (x & -> & [_ Hx]%list_elem_of_filter)%list_elem_of_fmap. apply (Hu El').
    by apply list_elem_of_fmap_2.
Qed.
Lemma last_cons_default {A} (x d : A) l : List.last (x :: l) d = List.last l x.
Proof.
  revert x d. induction l as [|y l IH]; intros x d; [done|].
  transitivity (List.last (y :: l) d); [done|]. by rewrite !IH.
Qed.

(** The position after the last server. *)
Lemma last_position (ks : list Z) b rs :
  (below ks b :: map (λ r, below ks (end_ r)) rs) !!! length rs =
  below ks (List.last (map end_ rs) b).
Proof.
  revert b. induction rs as [|r rs IH]; intros b; [done|].
  transitivity ((below ks (end_ r) :: map (λ r, below ks (end_ r)) rs) !!! length rs); [done|].
  rewrite IH. cbn [map]. by rewrite last_cons_default.
Qed.

(** Without lengths, the number of values per key is the quotient. *)
Lemma uniform_length send (l : list (Z * list V)) :
  represents send l → 0 < SArray.size (keys send) → SArray.elems (lens send) = [] →
  let k := SArray.size (vals send) / SArray.size (keys send) in
  SArray.size (vals send) = k * SArray.size (keys send) ∧
  ∀ vs, vs ∈ l.*2 → length vs = Z.to_nat k.
Proof.
  intros (Hk & Hv & Hl) Hpos E k. destruct Hl as [Hl|[_ [k' Hl]]].
  { rewrite E in Hl. unfold SArray.size in Hpos. rewrite Hk in Hpos. by destruct l. }
  assert (SArray.size (vals send) = Z.of_nat k' * SArray.size (keys send)) as Esz.
  { pose proof (voff_uniform l.*2 k' (length l.*2) Hl) as Hvo. unfold voff in Hvo.
    rewrite take_ge in Hvo by done. unfold SArray.size. rewrite Hv, Hk, Hvo by done.
    rewrite !length_fmap. lia. }
  assert (k = Z.of_nat k') as ->; [|split; [done|]; intros; rewrite Nat2Z.id; auto].
  unfold k. rewrite Esz. apply Z.div_mul. lia.
Qed.

Lemma slicer_adjacent send (l : list (Z * list V)) b rs :
  represents send l → StronglySorted Z.lt l.*1 → SArray.size (vals send) < 2 ^ 64 →
  adjacent b rs → rs ≠ [] → (∀ key, key ∈ l.*1 → b ≤ key < List.last (map end_ rs) b) →
  ∃ ss, DefaultSlicer sz send rs = Ok ss ∧ Forall2 (slice_of l) rs ss.
Proof.
  intros Hrep Hs Hsz Hadj Hne Hin. pose proof Hrep as (Hk & Hv & Hl).
  unfold DefaultSlicer. rewrite Hk, (positions_Ok _ b) by done. cbn [mbind result_bind].
  rewrite last_position. unfold SArray.size at 1. rewrite Hk. unfold below at 1.
  rewrite filter_true by (intros key Hkey; by apply Hin). rewrite Z.eqb_refl.
  destruct (SArray.empty (keys send)) eqn:Ek.
  { assert (l = []) as ->.
    { unfold SArray.empty, SArray.size in Ek. rewrite Hk in Ek. by destruct l. }
    eexists. split; [reflexivity|]. clear. induction rs; simpl; constructor; [|done].
    split; [|done]. split; [done|]. split; [done|]. by left. }
  assert (0 < SArray.size (keys send)) as Hpos.
  { unfold SArray.empty in Ek. apply Z.eqb_neq in Ek. unfold SArray.size in *. lia. }
  pose proof (uniform_length send l Hrep Hpos) as Huni.
  set (k := SArray.size (vals send) / SArray.size (keys send)) in *.
  assert (voff l.*2 (below l.*1 b) = 0) as Hv0.
  { unfold below. rewrite filter_false; [done|]. intros key Hkey%Hin. lia. }
  pose proof (slice_at_Ok send l (if SArray.empty (lens send) then k else 0) b rs
    Hrep Hs Hsz) as Hsl. rewrite Hv0 in Hsl. unfold SArray.empty, SArray.size in *.
  destruct (SArray.elems (lens send)) as [|z zs] eqn:El; cbn [length] in *.
  - destruct (Huni eq_refl) as [Esz Hk']. rewrite Esz, (Z.eqb_refl (k * _)).
    apply Hsl; [done| |done]. apply Z.div_pos; lia.
  - destruct Hl as [Hl|[? _]]; [|done]. apply (f_equal length) in Hl.
    rewrite length_map in Hl. simpl in Hl. rewrite Hk in *. rewrite !length_fmap in *. rewrite Hl.
    rewrite Z.eqb_refl. rewrite <- Hl. by apply Hsl.
Qed.
End slices.

(** ** Slicing by the servers' ranges *)
Lemma server_ranges_adjacent n a m :
  1 ≤ n → 0 ≤ a → a + Z.of_nat m ≤ n →
  let q := kMaxKey / n in
  let rs := map (server_range n) (seqZ a (Z.of_nat m)) in
  adjacent (q * a) rs ∧ List.last (map end_ rs) (q * a) = q * (a + Z.of_nat m).
Proof.
  intros Hn Ha Hm q. revert a Ha Hm. induction m as [|m IH]; intros a Ha Hm; cbn zeta.
  { split; [done|]. simpl. f_equal. lia. }
  destruct (IH (a + 1)) as [IH1 IH2]; [lia..|].
  rewrite seqZ_cons by lia. replace (Z.succ a) with (a + 1) by lia.
  replace (Z.pred (Z.of_nat (S m))) with (Z.of_nat m) by lia.
  cbn [map]. rewrite last_cons_default. cbn [adjacent]. rewrite server_range_eq by lia. simpl.
  fold q. assert (0 ≤ q) by (apply Z.div_pos; unfold kMaxKey; lia).
  split; [split; [done|]; split; [nia|done]|]. rewrite IH2. f_equal. lia.
Qed.

Section server_slices.
Context {V : Type} (sz : Z).

Lemma slicer_servers (send : KVPairs.t V) l n :
  1 ≤ n < 2 ^ 31 →
  represents send l → StronglySorted Z.lt l.*1 → SArray.size (vals send) < 2 ^ 64 →
  let q := kMaxKey / n in
  (∀ key, key ∈ l.*1 → 0 ≤ key < q * n) →
  ∃ ss, DefaultSlicer sz send (map (server_range n) (seqZ 0 n)) = Ok ss ∧
    Z.of_nat (length ss) = n ∧
    ∀ i sent kvs, ss !! i = Some (sent, kvs) →
      let part := filter (λ x, x.1 / q = Z.of_nat i) l in
      represents kvs part ∧ sent = bool_decide (part ≠ []).
Proof.
  intros Hn Hrep Hs Hsz q Hin.
  destruct (server_ranges_adjacent n 0 (Z.to_nat n)) as [Hadj Hlast]; [lia..|].
  rewrite Z2Nat.id, Z.mul_0_r in * by lia. fold q in Hlast.
  assert (0 < q) as Hq by (apply Z.div_str_pos; unfold kMaxKey; lia).
  destruct (slicer_adjacent sz send l 0 (map (server_range n) (seqZ 0 n))) as (ss & Hss & HF);
    try done.
  { intros E%(f_equal length). rewrite length_map, length_seqZ in E. simpl in E. lia. }
  { by rewrite Hlast, Z.add_0_l. }
  pose proof (Forall2_length _ _ _ HF) as Hlen. rewrite length_map, length_seqZ in Hlen.
  exists ss. split; [done|]. split; [lia|]. intros i sent kvs Hi part.
  pose proof (lookup_lt_Some _ _ _ Hi) as Hlt.
  destruct (Forall2_lookup_r _ _ _ _ _ HF Hi) as (r & Hr & [H1 H2]).
  rewrite <- (Nat2Z.id i) in Hr. rewrite lookup_map_seqZ, server_range_eq in Hr by lia.
  injection Hr as <-. fold q in H1, H2.
  assert (filter (in_range (mkRange (q * Z.of_nat i) (q * (Z.of_nat i + 1)))) l = part) as E.
  { apply list_filter_iff. intros x. unfold in_range. simpl.
    pose proof (Z.mul_div_le x.1 q Hq). pose proof (Z.mul_succ_div_gt x.1 q Hq). nia. }
  rewrite E in H1, H2. done.
Qed.

(** C14. The slicer cuts a request into one part per server: given sorted keys
    with an owner, part [i] holds exactly the keys of server [i]'s range with
    their own values, whether the values come with a list of lengths or with a
    common length, and it is marked to be sent exactly when it has a key. *)
Theorem slicer_splits_by_owner (send : KVPairs.t V) l po :
  Postoffice.server_key_ranges_ po = [] → 1 ≤ Postoffice.num_servers_ po < 2 ^ 31 →
  represents send l → StronglySorted Z.lt l.*1 → SArray.size (vals send) < 2 ^ 64 →
  let n := Postoffice.num_servers_ po in
  let q := kMaxKey / n in
  (∀ key, key ∈ l.*1 → 0 ≤ key < q * n) →
  ∃ ss, DefaultSlicer sz send (GetServerKeyRanges po).2 = Ok ss ∧
    Z.of_nat (length ss) = n ∧
    ∀ i sent kvs, ss !! i = Some (sent, kvs) →
      let part := filter (λ x, x.1 / q = Z.of_nat i) l in
      represents kvs part ∧ sent = bool_decide (part ≠ []).
Proof. intros Hf Hn. rewrite GetServerKeyRanges_fresh by done. by apply slicer_servers. Qed.

(** Keys without owner: a request that holds a key at or above
    [kMaxKey / n * n] cannot be sent, the slicer's check fails. *)
Theorem slicer_rejects_top_keys (send : KVPairs.t V) l po key :
  Postoffice.server_key_ranges_ po = [] → 1 ≤ Postoffice.num_servers_ po < 2 ^ 31 →
  represents send l → StronglySorted Z.lt l.*1 →
  let n := Postoffice.num_servers_ po in
  key ∈ l.*1 → kMaxKey / n * n ≤ key →
  DefaultSlicer sz send (GetServerKeyRanges po).2 = Err (CheckFailed "pos[n] == keys.size()").
Proof.
  intros Hf Hn (Hk & _) Hs n Hin Hkey.
  rewrite GetServerKeyRanges_fresh by done. fold n.
  destruct (server_ranges_adjacent n 0 (Z.to_nat n)) as [Hadj Hlast]; [lia..|].
  rewrite Z2Nat.id, Z.mul_0_r in * by lia.
  unfold DefaultSlicer. rewrite Hk, (positions_Ok _ 0) by
    (done || intros E%(f_equal length); rewrite length_map, length_seqZ in E; simpl in E; lia).
  cbn [mbind result_bind]. rewrite last_position, Hlast, Z.add_0_l.
  rewrite (proj2 (Z.eqb_neq _ _)); [done|]. unfold SArray.size. rewrite Hk. unfold below.
  pose proof (length_filter_lt (λ k, k < kMaxKey / n * n) l.*1 key Hin). lia.
Qed.
End server_slices.

(** Three keys with two, none and one value, and two servers. *)
Definition demo_list : list (Z * list Z) := [(1, [10; 11]); (7, []); (2 ^ 63, [12])].
Definition demo_kvs : KVPairs.t Z :=
  KVPairs.mk (SArray.mk 4096 demo_list.*1 DeviceType.CPU 0 DeviceType.CPU 0)
             (SArray.mk 8192 [10; 11; 12] DeviceType.GPU 1 DeviceType.CPU 0)
             (SArray.mk 12288 [2; 0; 1] DeviceType.CPU 0 DeviceType.CPU 0).

Lemma demo_represents : represents demo_kvs demo_list.
Proof. split; [done|]. split; [done|]. by left. Qed.

Lemma demo_sorted : StronglySorted Z.lt demo_list.*1.
Proof. repeat constructor. Qed.

Lemma slicer_splits_by_owner_witness :
  ∃ ss, DefaultSlicer 8 demo_kvs (GetServerKeyRanges demo_po).2 = Ok ss.
Proof.
  destruct (slicer_splits_by_owner 8 demo_kvs demo_list demo_po) as (ss & H & _);
    [done|vm_compute; done|apply demo_represents|apply demo_sorted|done| |by exists ss].
  apply (Forall_forall (λ key, 0 ≤ key < _)). apply (bool_decide_unpack _). vm_compute. exact I.
Defined.

Lemma slicer_rejects_top_keys_witness :
  DefaultSlicer 8 (KVPairs.mk (SArray.mk 0 [kMaxKey] DeviceType.CPU 0 DeviceType.CPU 0)
      (SArray.mk 0 [5] DeviceType.CPU 0 DeviceType.CPU 0) sarray0)
    (GetServerKeyRanges demo_po).2 = Err (CheckFailed "pos[n] == keys.size()").
Proof.
  apply (slicer_rejects_top_keys 8 _ [(kMaxKey, [5])] demo_po kMaxKey);
    [done|vm_compute; done| |repeat constructor|by left|vm_compute; done].
  split; [done|]. split; [done|]. right. split; [done|]. exists 1%nat.
  intros vs Hvs. apply list_elem_of_In in Hvs. by destruct Hvs as [<-|[]].
Defined.
