(* ===== verification/KVApp.v ===== *)
(** * Simple and key-value applications (include/ps/simple_app.h, include/ps/kv_app.h)

    [SimpleApp], which exchanges a head and a body, and the key-value store:
    [KVWorker] slices a request, sends one message per server that owns a key
    and collects the responses, [KVServer] hands every request to its handler,
    which answers with [Response]. *)

From S2P Require Import Prelude Message Env Codec Postoffice Van VanFacts Customer Slicer.
Import Van Customer KVPairs.

(** ** Values on the wire *)

(** How the values of an [SArray<V>] lie in memory; [wtype] is what
    [GetDataType<V>] returns. *)
Record wire (V : Type) : Type := mkWire {
  wtype : DataType.t;
  wsize : nat;
  wenc : V → list byte;
  wdec : list byte → V;
  wzero : V
}.
Arguments mkWire {V}.
Arguments wtype {V}.
Arguments wsize {V}.
Arguments wenc {V}.
Arguments wdec {V}.
Arguments wzero {V}.

Record wire_ok {V} (W : wire V) (ok : V → Prop) : Prop := {
  wsize_pos : (0 < wsize W)%nat;
  wenc_length : ∀ v, length (wenc W v) = wsize W;
  wdec_enc : ∀ v, ok v → wdec W (wenc W v) = v
}.

Definition wire_key : wire Z := mkWire DataType.UINT64 8 enc_u64 dec_u64 0.
Definition wire_int : wire Z := mkWire DataType.INT32 4 enc_int dec_int 0.

(** The conversions [SArray<char>(val)] and [SArray<V>(bytes)]. *)
Definition to_bytes {V} (W : wire V) (a : SArray.t V) : SArray.t byte :=
  SArray.mk (SArray.ptr_ a) (concat (map (wenc W) (SArray.elems a)))
    (SArray.src_device_type_ a) (SArray.src_device_id_ a)
    (SArray.dst_device_type_ a) (SArray.dst_device_id_ a).

Definition of_bytes {V} (W : wire V) (a : SArray.t byte) : result (SArray.t V) :=
  let n := (length (SArray.elems a) / wsize W)%nat in
  check! bool_decide (n * wsize W = length (SArray.elems a))%nat or "cannot be divided";
  Ok (SArray.mk (SArray.ptr_ a) (map (wdec W) (reshape (replicate n (wsize W)) (SArray.elems a)))
        (SArray.src_device_type_ a) (SArray.src_device_id_ a)
        (SArray.dst_device_type_ a) (SArray.dst_device_id_ a)).

Definition AddArray {V} (W : wire V) (a : SArray.t V) (m : Message.t) : result Message.t :=
  Message.AddData (wtype W) (to_bytes W a) m.

(** ** [SimpleApp] *)
Record SimpleData : Type := mkSimpleData {
  sd_head : Z;
  sd_body : list byte;
  sd_sender : Z;
  sd_timestamp : Z;
  sd_customer_id : Z
}.

Section app.
Context (SendMsg : Message.t → Z).

Fixpoint send_to (now : Z) (m : Meta.t) (ids : list Z) (v : Van.t) : result Van.t :=
  match ids with
  | [] => Ok v
  | r :: ids' =>
      x ← Send SendMsg now (Message.mk (m <| Meta.recver := r |>) []) v;
      send_to now m ids' x.2
  end.

(** [SimpleApp::Request] *)
Definition simple_request (now req_head : Z) (req_body : list byte) (recv_id : Z)
    (c : Customer.t) (v : Van.t) : result (Z * Customer.t * Van.t) :=
  x ← NewRequest (postoffice_ v) now recv_id c;
  let '(ts, c) := x in
  let m := Meta.default
    <| Meta.head := req_head |> <| Meta.body := req_body |>
    <| Meta.timestamp := ts |> <| Meta.request := true |> <| Meta.simple_app := true |>
    <| Meta.app_id := app_id_ c |> <| Meta.customer_id := customer_id_ c |> in
  ids ← GetNodeIDs (postoffice_ v) recv_id;
  v ← send_to now m ids v;
  Ok (ts, c, v).

(** [SimpleApp::Response] *)
Definition simple_response (now : Z) (req : SimpleData) (res_body : list byte)
    (c : Customer.t) (v : Van.t) : result Van.t :=
  let m := Meta.default
    <| Meta.head := sd_head req |> <| Meta.body := res_body |>
    <| Meta.timestamp := sd_timestamp req |> <| Meta.request := false |>
    <| Meta.simple_app := true |> <| Meta.app_id := app_id_ c |>
    <| Meta.customer_id := sd_customer_id req |> <| Meta.recver := sd_sender req |> in
  x ← Send SendMsg now (Message.mk m []) v;
  Ok x.2.

(** [SimpleApp::Process] with the handlers of [SimpleApp()]: a request is
    answered, a response is dropped. *)
Definition simple_process (now : Z) (msg : Message.t) (c : Customer.t) (v : Van.t)
    : result Van.t :=
  let m := Message.meta msg in
  let recv := mkSimpleData (Meta.head m) (Meta.body m) (Meta.sender m)
                (Meta.timestamp m) (Meta.customer_id m) in
  if Meta.request m then simple_response now recv [] c v else Ok v.
End app.

(** ** [KVWorker] *)

(** A callback: the user's (a name), the one [Pull_] builds, which fills the
    user's arrays [vals] and [lens] (names of the user's objects), or the one
    [AFTensorWorker::ZPull_] builds, which calls [EraseRecvKvs]. *)
Inductive Callback : Type :=
| UserCallback (cb : nat)
| EraseCallback (ts : Z)
| PullCallback (ts : Z) (pull_keys : list Z) (dst_vals : nat) (dst_lens : option nat) (cb : option nat).

Module KVWorker.
Record t (V : Type) : Type := mk {
  obj_ : Customer.t;
  van : Van.t;                       (* postoffice_->van() *)
  worker0 : Postoffice.t;            (* Postoffice::GetWorker() *)
  instance_idx_ : Z;
  is_worker_zpull_ : bool;
  recv_kvs_ : gmap Z (list (KVPairs.t V));
  callbacks_ : gmap Z Callback;
  user_vals : gmap nat (list V);     (* the arrays the user passes to Pull *)
  user_lens : gmap nat (list Z);
  ran : list nat                     (* the user's callbacks that have run *)
}.
Arguments mk {V}.
Arguments obj_ {V}.
Arguments van {V}.
Arguments worker0 {V}.
Arguments instance_idx_ {V}.
Arguments is_worker_zpull_ {V}.
Arguments recv_kvs_ {V}.
Arguments callbacks_ {V}.
Arguments user_vals {V}.
Arguments user_lens {V}.
Arguments ran {V}.
End KVWorker.
Import KVWorker.

Section kv_worker.
Context {V : Type} (W : wire V) (SendMsg : Message.t → Z).
Context (slicer_ : KVPairs.t V → list Range → result (list (bool * KVPairs.t V))).

(** The choice of [is_worker_zpull_] in the constructor. *)
Definition zpull_enabled (e : Environment) : bool :=
  if bool_decide (find e "DMLC_ENABLE_UCX" = Some "1"%string) then true
  else match find e "DMLC_ENABLE_RDMA" with
       | None => false
       | Some val => negb (bool_decide (val = "0"%string) || bool_decide (val = "zmq"%string))
       end.

(** [KVWorker(app_id, customer_id, instance_idx)]; [ptr] is the address of the
    new customer. *)
Definition new_worker (e : Environment) (app_id customer_id instance_idx ptr : Z)
    (po0 : Postoffice.t) (v : Van.t) : result (KVWorker.t V) :=
  check! (instance_idx <? Postoffice.group_size_ (postoffice_ v)) or "group_size > instance_idx";
  x ← new_customer app_id customer_id ptr (postoffice_ v);
  Ok (KVWorker.mk x.1 (v <| postoffice_ := x.2 |>) po0 instance_idx (zpull_enabled e)
        ∅ ∅ ∅ ∅ []).

Definition AddCallback (ts : Z) (cb : option Callback) (w : KVWorker.t V) : KVWorker.t V :=
  match cb with
  | None => w
  | Some f => w <| callbacks_ ::= insert ts f |>
  end.

(** The checks of the pull callback on the received parts: every part covers
    its range of the keys; returns the number of keys and values. *)
Fixpoint check_parts (pull_keys : list Z) (with_lens : bool) (kvs : list (KVPairs.t V))
    : result (Z * Z) :=
  match kvs with
  | [] => Ok (0, 0)
  | s :: kvs' =>
      front ← from_option_or (Undefined "front") (head (SArray.elems (keys s)));
      back ← from_option_or (Undefined "back") (last (SArray.elems (keys s)));
      check! (range_size (FindRange pull_keys front (u64 (back + 1))) =? SArray.size (keys s))
        or "unmatched keys size from one server";
      check! (negb with_lens || (SArray.size (lens s) =? SArray.size (keys s))) or "lens";
      x ← check_parts pull_keys with_lens kvs';
      Ok (SArray.size (keys s) + x.1, SArray.size (vals s) + x.2)
  end.

(** [std::sort] by the first key; the parts of different servers have
    different first keys, so the result does not depend on the algorithm. *)
Definition front_le (a b : KVPairs.t V) : Prop :=
  hd 0 (SArray.elems (keys a)) ≤ hd 0 (SArray.elems (keys b)).
#[global] Instance front_le_dec a b : Decision (front_le a b).
Proof. unfold front_le. apply _. Defined.
Definition sort_parts (kvs : list (KVPairs.t V)) : list (KVPairs.t V) := merge_sort front_le kvs.

(** [C::resize] on an empty array. *)
Definition resize_empty {A} (zero : A) (n : Z) (l : list A) : list A :=
  if decide (l = []) then replicate (Z.to_nat n) zero else l.

(** [memcpy] of [xs] to the start of [l]. *)
Definition overwrite {A} (xs l : list A) : list A := xs ++ drop (length xs) l.

(** The body of the callback [Pull_] registers. *)
Definition run_pull (ts : Z) (pull_keys : list Z) (dst_vals : nat) (dst_lens : option nat)
    (w : KVWorker.t V) : result (KVWorker.t V) :=
  let kvs := default [] (recv_kvs_ w !! ts) in
  totals ← check_parts pull_keys (bool_decide (is_Some dst_lens)) kvs;
  check! (totals.1 =? Z.of_nat (length pull_keys)) or "lost some servers?";
  let kvs := sort_parts kvs in
  let old := default [] (user_vals w !! dst_vals) in
  check! (bool_decide (old = []) || (totals.2 <=? Z.of_nat (length old))) or "vals";
  let vals0 := resize_empty (wzero W) totals.2 old in
  let w := w <| recv_kvs_ ::= delete ts |> in
  if is_worker_zpull_ w then Ok (w <| user_vals ::= insert dst_vals vals0 |>)
  else
    let w := w <| user_vals ::=
      insert dst_vals (overwrite (concat (map (λ s, SArray.elems (vals s)) kvs)) vals0) |> in
    match dst_lens with
    | None => Ok w
    | Some dl =>
        let old := default [] (user_lens w !! dl) in
        check! (bool_decide (old = []) || (length old =? length pull_keys)%nat) or "lens";
        let lens0 := resize_empty 0 (Z.of_nat (length pull_keys)) old in
        Ok (w <| user_lens ::=
          insert dl (overwrite (concat (map (λ s, SArray.elems (lens s)) kvs)) lens0) |>)
    end.

Definition log_callback (cb : option nat) (w : KVWorker.t V) : KVWorker.t V :=
  w <| ran ::= (λ l, l ++ option_list cb) |>.

Definition EraseRecvKvs (ts : Z) (w : KVWorker.t V) : KVWorker.t V :=
  w <| recv_kvs_ ::= delete ts |>.

Definition call (f : Callback) (w : KVWorker.t V) : result (KVWorker.t V) :=
  match f with
  | UserCallback cb => Ok (log_callback (Some cb) w)
  | EraseCallback ts => Ok (EraseRecvKvs ts w)
  | PullCallback ts ks dv dl cb => w ← run_pull ts ks dv dl w; Ok (log_callback cb w)
  end.

Definition RunCallback (ts : Z) (w : KVWorker.t V) : result (KVWorker.t V) :=
  match callbacks_ w !! ts with
  | None => Ok w
  | Some f => w ← call f w; Ok (w <| callbacks_ ::= delete ts |>)
  end.

(** The arrays of a request or a response; nothing when it has no keys. *)
Definition add_kvs (kvs : KVPairs.t V) (m : Message.t) : result Message.t :=
  if 0 <? SArray.size (keys kvs) then
    m ← AddArray wire_key (keys kvs) m;
    m ← AddArray W (vals kvs) m;
    if 0 <? SArray.size (lens kvs) then AddArray wire_int (lens kvs) m else Ok m
  else Ok m.

(** The message of [Send] for server [i]. *)
Definition kv_message (w : KVWorker.t V) (ts : Z) (push : bool) (cmd : Z) (i : nat)
    (kvs : KVPairs.t V) : result Message.t :=
  let vs := vals kvs in
  let m := Meta.default
    <| Meta.app_id := app_id_ (obj_ w) |> <| Meta.customer_id := customer_id_ (obj_ w) |>
    <| Meta.request := true |> <| Meta.push := push |> <| Meta.head := cmd |>
    <| Meta.timestamp := ts |>
    <| Meta.recver := GroupServerRankToInstanceID
         (Postoffice.group_size_ (postoffice_ (van w))) (Z.of_nat i) (instance_idx_ w) |>
    <| Meta.addr := SArray.ptr_ vs |> <| Meta.val_len := i32 (SArray.size vs) |> in
  let kvs := if push then kvs else KVPairs.mk (keys kvs) (SArray.clear vs) (lens kvs) in
  msg ← add_kvs kvs (Message.mk m []);
  if push then Ok msg
  else Ok (Message.mk ((Message.meta msg)
      <| Meta.src_dev_type := SArray.src_device_type_ vs |>
      <| Meta.src_dev_id := SArray.src_device_id_ vs |>
      <| Meta.dst_dev_type := SArray.dst_device_type_ vs |>
      <| Meta.dst_dev_id := SArray.dst_device_id_ vs |>) (Message.data msg)).

Fixpoint send_slices (now ts : Z) (push : bool) (cmd : Z) (i : nat)
    (sliced : list (bool * KVPairs.t V)) (w : KVWorker.t V) : result (KVWorker.t V) :=
  match sliced with
  | [] => Ok w
  | (false, _) :: l => send_slices now ts push cmd (S i) l w
  | (true, kvs) :: l =>
      msg ← kv_message w ts push cmd i kvs;
      x ← Send SendMsg now msg (van w);
      send_slices now ts push cmd (S i) l (w <| van := x.2 |>)
  end.

Definition skipped (sliced : list (bool * KVPairs.t V)) : Z :=
  Z.of_nat (length (List.filter (λ s, negb s.1) sliced)).

(** [KVWorker::SendMsg]: the message goes to the instance of server [dst] that
    has this worker's index. *)
Definition worker_send_msg (now : Z) (msg : Message.t) (dst : Z) (w : KVWorker.t V)
    : result (KVWorker.t V) :=
  let m := (Message.meta msg)
    <| Meta.app_id := app_id_ (obj_ w) |> <| Meta.customer_id := customer_id_ (obj_ w) |>
    <| Meta.recver := GroupServerRankToInstanceID
         (Postoffice.group_size_ (postoffice_ (van w))) dst (instance_idx_ w) |> in
  x ← Send SendMsg now (Message.mk m (Message.data msg)) (van w);
  Ok (w <| van := x.2 |>).

Definition AllocTimestamp (now : Z) (w : KVWorker.t V) : result (Z * KVWorker.t V) :=
  x ← NewRequest (postoffice_ (van w)) now kServerGroup (obj_ w);
  Ok (x.1, w <| obj_ := x.2 |>).

(** [KVWorker::Send] *)
Definition kv_send (now ts : Z) (push : bool) (cmd : Z) (kvs : KVPairs.t V) (w : KVWorker.t V)
    : result (KVWorker.t V) :=
  let '(po0, ranges) := GetServerKeyRanges (worker0 w) in
  let w := w <| worker0 := po0 |> in
  sliced ← slicer_ kvs ranges;
  c ← AddResponse ts (skipped sliced) (obj_ w);
  let w := w <| obj_ := c |> in
  w ← (if skipped sliced =? Z.of_nat (length sliced) then RunCallback ts w else Ok w);
  send_slices now ts push cmd 0 sliced w.

Definition ZPush (now : Z) (ks : SArray.t Z) (vs : SArray.t V) (ls : SArray.t Z) (cmd : Z)
    (cb : option nat) (w : KVWorker.t V) : result (Z * KVWorker.t V) :=
  x ← NewRequest (postoffice_ (van w)) now kServerGroup (obj_ w);
  let w := AddCallback x.1 (UserCallback <$> cb) (w <| obj_ := x.2 |>) in
  w ← kv_send now x.1 true cmd (KVPairs.mk ks vs ls) w;
  Ok (x.1, w).

(** [Pull_]; [vs] is the array the user's object [dst_vals] is converted to. *)
Definition Pull_ (now : Z) (ks : SArray.t Z) (dst_vals : nat) (vs : SArray.t V)
    (dst_lens : option nat) (cmd : Z) (cb : option nat) (w : KVWorker.t V)
    : result (Z * KVWorker.t V) :=
  x ← NewRequest (postoffice_ (van w)) now kServerGroup (obj_ w);
  let f := PullCallback x.1 (SArray.elems ks) dst_vals dst_lens cb in
  let w := AddCallback x.1 (Some f) (w <| obj_ := x.2 |>) in
  w ← kv_send now x.1 false cmd (KVPairs.mk ks vs sarray0) w;
  Ok (x.1, w).

(** The conversions of the arrays of a message. *)
Definition read_kvs (d : list (SArray.t byte)) : result (KVPairs.t V) :=
  match d with
  | a0 :: a1 :: rest =>
      ks ← of_bytes wire_key a0;
      vs ← of_bytes W a1;
      ls ← match rest with a2 :: _ => of_bytes wire_int a2 | [] => Ok sarray0 end;
      Ok (KVPairs.mk ks vs ls)
  | _ => Err (CheckFailed "msg.data.size() >= 2")
  end.

(** [KVWorker::Process] *)
Definition worker_process (now : Z) (msg : Message.t) (w : KVWorker.t V) : result (KVWorker.t V) :=
  let m := Message.meta msg in
  if Meta.simple_app m then
    v ← simple_process SendMsg now msg (obj_ w) (van w);
    Ok (w <| van := v |>)
  else
    let ts := Meta.timestamp m in
    w ← (if negb (Meta.push m) && bool_decide (Message.data msg ≠ []) then
           kvs ← read_kvs (Message.data msg);
           Ok (w <| recv_kvs_ ::= (λ r, <[ts := default [] (r !! ts) ++ [kvs]]> r) |>)
         else Ok w);
    n ← NumResponse (obj_ w) ts;
    if n =? i32 (Postoffice.num_servers_ (worker0 w) - 1) then RunCallback ts w else Ok w.

(** The response handling of the worker's customer: [Process], then the
    response is counted. *)
Definition worker_receive (now : Z) (msg : Message.t) (w : KVWorker.t V) : result (KVWorker.t V) :=
  x ← DirectProcess (λ m c (w : KVWorker.t V),
        w ← worker_process now m (w <| obj_ := c |>); Ok (obj_ w, w)) msg (obj_ w) w;
  Ok (x.2 <| obj_ := x.1 |>).
End kv_worker.

(** ** [KVServer] *)
Module KVMeta.
Record t : Type := mk {
  cmd : Z;
  push : bool;
  sender : Z;
  timestamp : Z;
  customer_id : Z;
  key : Z;
  addr : Z;
  val_len : Z;
  option_ : Z;
  is_tensor : Z;
  dtype : Z;
  shape : list Z
}.
End KVMeta.

Module KVServer.
Record t : Type := mk {
  obj_ : Customer.t;
  van : Van.t;
  instance_idx_ : Z
}.
End KVServer.

Section kv_server.
Context {V : Type} (W : wire V) (SendMsg : Message.t → Z).

(** [KVServer(app_id, is_scheduler, instance_idx)] on the van [v] of the
    postoffice it chooses. *)
Definition new_server (app_id instance_idx ptr : Z) (v : Van.t) : result KVServer.t :=
  x ← new_customer app_id app_id ptr (postoffice_ v);
  Ok (KVServer.mk x.1 (v <| postoffice_ := x.2 |>) instance_idx).

(** [KVServer::Response] *)
Definition response_meta (app_id recver : Z) (req : KVMeta.t) : Meta.t :=
  Meta.default
    <| Meta.app_id := app_id |> <| Meta.customer_id := KVMeta.customer_id req |>
    <| Meta.request := false |> <| Meta.push := KVMeta.push req |>
    <| Meta.head := KVMeta.cmd req |> <| Meta.timestamp := KVMeta.timestamp req |>
    <| Meta.recver := recver |> <| Meta.key := KVMeta.key req |>
    <| Meta.addr := KVMeta.addr req |> <| Meta.val_len := KVMeta.val_len req |>
    <| Meta.option_ := KVMeta.option_ req |>.

Definition response_message (s : KVServer.t) (req : KVMeta.t) (res : KVPairs.t V)
    : result Message.t :=
  let group_worker_rank := IDtoRank (KVMeta.sender req) in
  let instance_worker_id := GroupWorkerRankToInstanceID
    (Postoffice.group_size_ (postoffice_ (KVServer.van s))) group_worker_rank (KVServer.instance_idx_ s) in
  add_kvs W res
    (Message.mk (response_meta (app_id_ (KVServer.obj_ s)) instance_worker_id req) []).

Definition kv_response (now : Z) (req : KVMeta.t) (res : KVPairs.t V) (s : KVServer.t)
    : result KVServer.t :=
  msg ← response_message s req res;
  x ← Send SendMsg now msg (KVServer.van s);
  Ok (s <| KVServer.van := x.2 |>).

(** The description of a request [KVServer::Process] gives its handler. *)
Definition request_meta (s : KVServer.t) (m : Meta.t) : KVMeta.t :=
  let group_worker_rank :=
    InstanceIDtoGroupRank (Postoffice.group_size_ (postoffice_ (KVServer.van s))) (Meta.sender m) in
  KVMeta.mk (Meta.head m) (Meta.push m) (WorkerRankToID group_worker_rank) (Meta.timestamp m)
    (Meta.customer_id m) (Meta.key m) (Meta.addr m) (Meta.val_len m) (Meta.option_ m)
    (Meta.is_tensor m) (Meta.dtype m) (Meta.shape m).

Definition request_data (d : list (SArray.t byte)) : result (KVPairs.t V) :=
  if decide (d = []) then Ok kvpairs0
  else
    kvs ← read_kvs W d;
    check! ((length d =? 2)%nat || (length d =? 3)%nat) or "n == 3";
    check! ((length d =? 2)%nat || (SArray.size (lens kvs) =? SArray.size (keys kvs))) or "lens";
    Ok kvs.

(** [KVServer::Process]; the handler keeps its own state [S]. *)
Definition server_process {S}
    (request_handle_ : KVMeta.t → KVPairs.t V → KVServer.t * S → result (KVServer.t * S))
    (now : Z) (msg : Message.t) (x : KVServer.t * S) : result (KVServer.t * S) :=
  let m := Message.meta msg in
  if Meta.simple_app m then
    v ← simple_process SendMsg now msg (KVServer.obj_ x.1) (KVServer.van x.1);
    Ok ((x.1 <| KVServer.van := v |>), x.2)
  else
    d ← request_data (Message.data msg);
    request_handle_ (request_meta x.1 m) d x.

(** [RegisterRecvBuffer_]: the message for the van's [RegisterRecvBuffer]. *)
Definition register_message (worker_id : Z) (ks : SArray.t Z) (vs : SArray.t V) (ls : SArray.t Z)
    (cmd : Z) : result Message.t :=
  let m := Meta.default <| Meta.request := true |> <| Meta.push := true |>
    <| Meta.head := cmd |> <| Meta.sender := worker_id |> in
  check! (0 <? SArray.size ks) or "keys.size()";
  msg ← AddArray wire_key ks (Message.mk m []);
  msg ← AddArray W vs msg;
  check! (0 <? SArray.size ls) or "lens.size()";
  msg ← AddArray wire_int ls msg;
  k ← from_option_or (Undefined "key") (head (SArray.elems ks));
  Ok (Message.mk ((Message.meta msg) <| Meta.key := k |>) (Message.data msg)).

(** [RegisterRecvBufferWithRank]: [cmd] is not passed on. *)
Definition register_message_with_rank (s : KVServer.t) (worker_rank : Z) (ks : SArray.t Z)
    (vs : SArray.t V) (ls : SArray.t Z) (cmd : Z) : result Message.t :=
  register_message (GroupWorkerRankToInstanceID
    (Postoffice.group_size_ (postoffice_ (KVServer.van s))) worker_rank (KVServer.instance_idx_ s))
    ks vs ls 0.
End kv_server.

(** ** [KVServerDefaultHandle]: a store that adds pushed values *)
Section default_handle.
Context {V : Type} (W : wire V) (add : V → V → V) (SendMsg : Message.t → Z).

(** [store[key]] *)
Definition stored (store : gmap Z V) (key : Z) : V := default (wzero W) (store !! key).

Fixpoint push_all (kvs : list (Z * V)) (store : gmap Z V) : gmap Z V :=
  match kvs with
  | [] => store
  | (key, v) :: kvs' => push_all kvs' (<[key := add (stored store key) v]> store)
  end.

(** [store[key]] of a pull makes an entry for a new key. *)
Fixpoint pull_all (ks : list Z) (store : gmap Z V) : gmap Z V * list V :=
  match ks with
  | [] => (store, [])
  | key :: ks' =>
      let v := stored store key in
      let '(store', vs) := pull_all ks' (<[key := v]> store) in
      (store', v :: vs)
  end.

(** [operator()]; [ptr] is the address of the memory [res.vals.resize] gets. *)
Definition KVServerDefaultHandle (now ptr : Z) (req_meta : KVMeta.t) (req_data : KVPairs.t V)
    (x : KVServer.t * gmap Z V) : result (KVServer.t * gmap Z V) :=
  let '(s, store) := x in
  let ks := SArray.elems (keys req_data) in
  if KVMeta.push req_meta then
    check! (SArray.size (keys req_data) =? SArray.size (vals req_data)) or "n == vals.size()";
    s ← kv_response W SendMsg now req_meta kvpairs0 s;
    Ok (s, push_all (zip ks (SArray.elems (vals req_data))) store)
  else
    let '(store, vs) := pull_all ks store in
    let res := KVPairs.mk (keys req_data)
                 (SArray.mk ptr vs DeviceType.CPU 0 DeviceType.CPU 0) sarray0 in
    s ← kv_response W SendMsg now req_meta res s;
    Ok (s, store).
End default_handle.
