(* ===== verification/KVFacts.v ===== *)
(** * Theorems on the key-value store

    What a request sends and expects, how its responses find their way back
    and complete it, and what the default store answers. *)

From coqutil Require Import Word.LittleEndianList.
From S2P Require Import Prelude Message Env Codec Postoffice Van VanFacts Customer Slicer KVApp.
Import Van Customer KVPairs KVWorker.

(** ** Arrays survive the transport *)
Lemma of_to_bytes {V} (W : wire V) ok a :
  wire_ok W ok → Forall ok (SArray.elems a) → of_bytes W (to_bytes W a) = Ok a.
Proof.
  intros [Hpos Hlen Hdec] Hok. unfold of_bytes, to_bytes. simpl.
  set (xs := map (wenc W) (SArray.elems a)).
  assert (Forall (λ l, length l = wsize W) xs) as Hxs
    by (apply Forall_fmap, Forall_forall; intros; apply Hlen).
  assert (length (concat xs) = length xs * wsize W)%nat as El.
  { clear -Hxs. induction Hxs as [|x l Hx _ IH]; simpl; [done|]. rewrite length_app. lia. }
  rewrite El, Nat.div_mul by lia. rewrite bool_decide_eq_true_2 by done.
  assert (replicate (length xs) (wsize W) = length <$> xs) as ->.
  { clear -Hxs. induction Hxs as [|x l Hx _ IH]; simpl; [done|]. by rewrite IH, Hx. }
  assert (reshape (length <$> xs) (concat xs) = xs) as ->.
  { clear. induction xs as [|x l IH]; [done|]. rewrite fmap_cons. cbn [reshape concat].
    by rewrite take_app_length, drop_app_length, IH. }
  unfold xs. rewrite map_map. destruct a as [p es ? ? ? ?]. simpl in *. do 2 f_equal.
  clear -Hok Hdec. induction Hok as [|x l Hx _ IH]; simpl; [done|]. by rewrite Hdec, IH.
Qed.

Lemma wire_key_ok : wire_ok wire_key (in_u 64).
Proof. split; [simpl; lia|intros; apply length_le_split|]. intros v Hv. by apply dec_enc_u64. Qed.
Lemma wire_int_ok : wire_ok wire_int (in_s 32).
Proof. split; [simpl; lia|intros; apply length_le_split|]. intros v Hv. by apply dec_enc_int. Qed.

(** ** Messages of requests and responses *)
Section messages.
Context {V : Type} (W : wire V) (SendMsg : Message.t → Z).

(** The arrays a message carries. *)
Definition kv_arrays (kvs : KVPairs.t V) : list (SArray.t byte) :=
  if 0 <? SArray.size (keys kvs) then
    [to_bytes wire_key (keys kvs); to_bytes W (vals kvs)] ++
    (if 0 <? SArray.size (lens kvs) then [to_bytes wire_int (lens kvs)] else [])
  else [].

(** [m'] goes the same way as [m]: only the description of the payload
    differs. *)
Definition same_route (m m' : Meta.t) : Prop :=
  Meta.app_id m' = Meta.app_id m ∧ Meta.customer_id m' = Meta.customer_id m ∧
  Meta.timestamp m' = Meta.timestamp m ∧ Meta.recver m' = Meta.recver m ∧
  Meta.request m' = Meta.request m ∧ Meta.push m' = Meta.push m ∧
  Meta.simple_app m' = Meta.simple_app m ∧ Meta.head m' = Meta.head m ∧
  Meta.control m' = Meta.control m ∧ Meta.addr m' = Meta.addr m ∧
  Meta.val_len m' = Meta.val_len m ∧ Meta.key m' = Meta.key m.

Lemma AddData_route dt a msg :
  length (Message.data msg) = length (Meta.data_type (Message.meta msg)) →
  ∃ msg', Message.AddData dt a msg = Ok msg' ∧
    length (Message.data msg') = length (Meta.data_type (Message.meta msg')) ∧
    Message.data msg' = Message.data msg ++ [a] ∧
    same_route (Message.meta msg) (Message.meta msg').
Proof.
  intros Hl. unfold Message.AddData. rewrite bool_decide_eq_true_2 by done.
  eexists. split; [reflexivity|].
  case_bool_decide; (split; [simpl; rewrite !length_app; simpl; lia|]; by repeat split).
Qed.

Lemma same_route_trans m1 m2 m3 : same_route m1 m2 → same_route m2 m3 → same_route m1 m3.
Proof. unfold same_route. intros H1 H2. decompose [and] H1. decompose [and] H2. repeat split; congruence. Qed.

Lemma add_kvs_Ok kvs m :
  Meta.data_type m = [] →
  ∃ msg, add_kvs W kvs (Message.mk m []) = Ok msg ∧ Message.data msg = kv_arrays kvs ∧
    same_route m (Message.meta msg).
Proof.
  intros Hdt. unfold add_kvs, kv_arrays, AddArray.
  destruct (0 <? SArray.size (keys kvs)); [|by eexists].
  destruct (AddData_route (wtype wire_key) (to_bytes wire_key (keys kvs)) (Message.mk m []))
    as (m1 & -> & L1 & D1 & R1); [simpl; by rewrite Hdt|]. cbn [mbind result_bind].
  destruct (AddData_route (wtype W) (to_bytes W (vals kvs)) m1) as (m2 & -> & L2 & D2 & R2); [done|].
  cbn [mbind result_bind]. rewrite D1 in D2. simpl in D2.
  pose proof (same_route_trans _ _ _ R1 R2) as R12.
  destruct (0 <? SArray.size (lens kvs)); [|by exists m2].
  destruct (AddData_route (wtype wire_int) (to_bytes wire_int (lens kvs)) m2)
    as (m3 & -> & L3 & D3 & R3); [done|].
  exists m3. split; [done|]. rewrite D3, D2. split; [done|]. by eapply same_route_trans.
Qed.

Lemma Send_plain now msg v :
  (∀ m, 0 < SendMsg m) → resender_ v = None →
  ∃ v', Send SendMsg now msg v = Ok (SendMsg msg, v') ∧ log v' = log v ++ [Sent msg] ∧
    resender_ v' = None ∧ postoffice_ v' = postoffice_ v.
Proof.
  intros Hsend Hr. unfold Send. rewrite (proj2 (Z.eqb_neq _ _)) by (specialize (Hsend msg); lia).
  simpl. rewrite Hr. eexists. split; [reflexivity|]. done.
Qed.
End messages.

(** ** What a request sends and expects *)
Section requests.
Context {V : Type} (W : wire V) (SendMsg : Message.t → Z).
Implicit Types w : KVWorker.t V.

(** The servers with a part to send, from server [i] on. *)
Fixpoint contacted (i : nat) (sliced : list (bool * KVPairs.t V)) : list (nat * KVPairs.t V) :=
  match sliced with
  | [] => []
  | (sent, kvs) :: l => (if sent : bool then [(i, kvs)] else []) ++ contacted (S i) l
  end.

Lemma contacted_skipped i sliced :
  Z.of_nat (length (contacted i sliced)) + skipped sliced = Z.of_nat (length sliced).
Proof.
  unfold skipped. revert i. induction sliced as [|[[] kvs] l IH]; intros i; simpl; [done| |];
    specialize (IH (S i)); lia.
Qed.

(** The request of worker [w] to server [x.1] with the part [x.2]; a pull
    sends no values. *)
Definition request_to w (ts : Z) (push : bool) (cmd : Z) (x : nat * KVPairs.t V) (msg : Message.t)
    : Prop :=
  let m := Message.meta msg in
  Meta.recver m = GroupServerRankToInstanceID (Postoffice.group_size_ (postoffice_ (van w)))
                    (Z.of_nat x.1) (instance_idx_ w) ∧
  Meta.app_id m = app_id_ (obj_ w) ∧ Meta.customer_id m = customer_id_ (obj_ w) ∧
  Meta.timestamp m = ts ∧ Meta.request m = true ∧ Meta.push m = push ∧ Meta.head m = cmd ∧
  Meta.addr m = SArray.ptr_ (vals x.2) ∧ Meta.simple_app m = false ∧
  Meta.control m = Control.default ∧
  Message.data msg = kv_arrays W (if push then x.2 else KVPairs.mk (keys x.2) (SArray.clear (vals x.2)) (lens x.2)).

Lemma kv_message_Ok w ts push cmd i kvs :
  ∃ msg, kv_message W w ts push cmd i kvs = Ok msg ∧ request_to w ts push cmd (i, kvs) msg.
Proof.
  unfold kv_message.
  match goal with |- context [add_kvs W ?k (Message.mk ?m [])] =>
    destruct (add_kvs_Ok W k m eq_refl) as (msg & -> & Hd & Hr) end.
  cbn [mbind result_bind]. unfold same_route in Hr. decompose [and] Hr. clear Hr.
  destruct push; (eexists; split; [reflexivity|]); unfold request_to; simpl; repeat split; assumption.
Qed.

Lemma send_slices_Ok now ts push cmd i sliced w :
  (∀ m, 0 < SendMsg m) → resender_ (van w) = None →
  ∃ msgs v', send_slices W SendMsg now ts push cmd i sliced w = Ok (w <| van := v' |>) ∧
    log v' = log (van w) ++ map Sent msgs ∧ resender_ v' = None ∧
    postoffice_ v' = postoffice_ (van w) ∧
    Forall2 (request_to w ts push cmd) (contacted i sliced) msgs.
Proof.
  intros Hsend. revert i w. induction sliced as [|[sent kvs] l IH]; intros i w Hr; cbn [send_slices].
  { exists [], (van w). split; [by destruct w|]. rewrite app_nil_r. by repeat split. }
  destruct sent; cbn [contacted app]; [|by apply IH].
  destruct (kv_message_Ok w ts push cmd i kvs) as (msg & -> & Hmsg). cbn [mbind result_bind].
  destruct (Send_plain SendMsg now msg (van w) Hsend Hr) as (v1 & -> & Hl & Hr1 & Hpo).
  cbn [mbind result_bind snd].
  pose proof (IH (S i) (w <| van := v1 |>)) as IH'.
  change (van (w <| van := v1 |>)) with v1 in IH'.
  destruct (IH' Hr1) as (msgs & v' & -> & Hl' & Hr' & Hpo' & HF).
  exists (msg :: msgs), v'. split; [by destruct w|].
  split; [rewrite Hl', Hl, <- app_assoc; done|]. split; [done|]. split; [congruence|].
  constructor; [done|]. eapply Forall2_impl; [exact HF|]. intros x m. unfold request_to.
  change (postoffice_ (van (w <| van := v1 |>))) with (postoffice_ v1). rewrite Hpo. exact id.
Qed.
(** A worker of a started cluster with [n] servers. *)
Record worker_ready w (n : Z) : Prop := {
  wr_servers : Postoffice.num_servers_ (worker0 w) = n;
  wr_bound : 1 ≤ n < 2 ^ 31;
  wr_ranges : (GetServerKeyRanges (worker0 w)).2 = map (server_range n) (seqZ 0 n);
  wr_instances : 1 ≤ Postoffice.group_size_ (postoffice_ (van w));
  wr_group : ∃ ids, GetNodeIDs (postoffice_ (van w)) kServerGroup = Ok ids ∧
    Z.of_nat (length ids) = n * Postoffice.group_size_ (postoffice_ (van w));
  wr_plain : resender_ (van w) = None
}.

Definition fresh_tracker (n now : Z) : tracker := mkTracker n 0 0 now.

(** A request of a ready worker expects one response per server. *)
Lemma NewRequest_ready w n now :
  worker_ready w n →
  NewRequest (postoffice_ (van w)) now kServerGroup (obj_ w) =
  Ok (Z.of_nat (length (tracker_ (obj_ w))),
      (obj_ w) <| tracker_ ::= (λ l, l ++ [fresh_tracker n now]) |>).
Proof.
  intros [_ _ _ Hgs (ids & Hids & Hlen) _]. rewrite (NewRequest_Ok _ _ _ ids Hids).
  unfold fresh_tracker. rewrite Hlen, Z.quot_mul by lia. done.
Qed.

Lemma ranges_kept po :
  (GetServerKeyRanges (GetServerKeyRanges po).1).2 = (GetServerKeyRanges po).2 ∧
  Postoffice.num_servers_ (GetServerKeyRanges po).1 = Postoffice.num_servers_ po.
Proof.
  unfold GetServerKeyRanges. cbn [fst snd].
  destruct (decide (Postoffice.server_key_ranges_ po = [])) as [H|H].
  - rewrite !(bool_decide_eq_true_2 _ H). by case_bool_decide.
  - by rewrite !(bool_decide_eq_false_2 _ H).
Qed.

(** Sending and counting leave a worker ready. *)
Lemma worker_ready_kept w n c v' :
  worker_ready w n → resender_ v' = None → postoffice_ v' = postoffice_ (van w) →
  worker_ready (w <| worker0 := (GetServerKeyRanges (worker0 w)).1 |> <| obj_ := c |> <| van := v' |>) n.
Proof.
  intros [Hn Hb Hrs Hgs Hids Hr] Hr' Hpo. destruct (ranges_kept (worker0 w)) as [E1 E2].
  split; cbn -[GetServerKeyRanges]; unfold const; rewrite ?E1, ?E2, ?Hpo; done.
Qed.

(** [Send] of a request some server has a part of: the servers without a part
    count as answered, the others get one message each. *)
Lemma kv_send_Ok (slicer_ : KVPairs.t V → list Range → result (list (bool * KVPairs.t V)))
    now ts push cmd kvs w n now0 sliced :
  (∀ m, 0 < SendMsg m) → worker_ready w n →
  slicer_ kvs (map (server_range n) (seqZ 0 n)) = Ok sliced →
  Z.of_nat (length sliced) = n → contacted 0 sliced ≠ [] →
  get_tracker (obj_ w) ts = Ok (fresh_tracker n now0) →
  ∃ msgs w', kv_send W SendMsg slicer_ now ts push cmd kvs w = Ok w' ∧
    log (van w') = log (van w) ++ map Sent msgs ∧
    Forall2 (request_to w ts push cmd) (contacted 0 sliced) msgs ∧
    get_tracker (obj_ w') ts = Ok (mkTracker n (n - Z.of_nat (length msgs)) 0 now0) ∧
    worker_ready w' n ∧ callbacks_ w' = callbacks_ w ∧ ran w' = ran w ∧ recv_kvs_ w' = recv_kvs_ w.
Proof.
  intros Hsend [Hn Hb Hrs Hgs Hids Hr] Hsl Hlen Hc Ht. unfold kv_send.
  rewrite (surjective_pairing (GetServerKeyRanges (worker0 w))), Hrs.
  set (po0 := (GetServerKeyRanges (worker0 w)).1). rewrite Hsl. cbn [mbind result_bind].
  pose proof (contacted_skipped 0 sliced) as Hcs.
  assert (0 < Z.of_nat (length (contacted 0 sliced))) by (destruct (contacted 0 sliced); [done|simpl; lia]).
  assert (0 ≤ skipped sliced) by (unfold skipped; lia).
  destruct (update_tracker_Ok (add_responses (i32 (skipped sliced))) ts (obj_ w) _ Ht)
    as (c & Hc' & Htr & _ & Happ & Hcust & _).
  unfold AddResponse. change (obj_ (w <| worker0 := po0 |>)) with (obj_ w). rewrite Hc'.
  cbn [mbind result_bind]. rewrite (proj2 (Z.eqb_neq _ _)) by lia. cbn [mbind result_bind].
  pose proof (send_slices_Ok now ts push cmd 0 sliced (w <| worker0 := po0 |> <| obj_ := c |>)) as Hss.
  destruct (Hss Hsend Hr) as (msgs & v' & -> & Hlog & Hr' & Hpo & HF).
  pose proof (Forall2_length _ _ _ HF) as Hmsgs.
  eexists msgs, _. split; [reflexivity|]. split; [exact Hlog|]. split.
  { eapply Forall2_impl; [exact HF|]. intros x m. unfold request_to. simpl. unfold const.
    by rewrite Happ, Hcust. }
  split; [|split; [by apply worker_ready_kept|done]].
  change (obj_ (?x <| van := v' |>)) with c. rewrite Htr. unfold fresh_tracker.
  rewrite add_responses_eq, !swrap_small by (rewrite ?swrap_small; unfold in_s; lia).
  do 2 f_equal. lia.
Qed.
(** The keys, with their values, of the server of rank [i] when every server
    owns [q] keys, and the servers that own a key of [l]. *)
Definition part (q : Z) (l : list (Z * list V)) (i : Z) : list (Z * list V) :=
  filter (λ x, x.1 / q = i) l.
Definition owners (q n : Z) (l : list (Z * list V)) : list Z :=
  filter (λ i, part q l i ≠ []) (seqZ 0 n).

Lemma contacted_owners q l sliced i :
  (∀ j sent kvs, sliced !! j = Some (sent, kvs) →
     represents kvs (part q l (Z.of_nat (i + j))) ∧ sent = bool_decide (part q l (Z.of_nat (i + j)) ≠ [])) →
  Forall2 (λ r x, Z.of_nat x.1 = r ∧ represents x.2 (part q l r))
    (filter (λ r, part q l r ≠ []) (seqZ (Z.of_nat i) (Z.of_nat (length sliced)))) (contacted i sliced).
Proof.
  revert i. induction sliced as [|[sent kvs] sl IH]; intros i H; cbn [contacted length]; [constructor|].
  rewrite seqZ_cons by lia. destruct (H O sent kvs eq_refl) as [Hrep Hsent].
  rewrite Nat.add_0_r in Hrep, Hsent.
  assert (Forall2 (λ r x, Z.of_nat x.1 = r ∧ represents x.2 (part q l r))
    (filter (λ r, part q l r ≠ []) (seqZ (Z.succ (Z.of_nat i)) (Z.pred (Z.of_nat (S (length sl))))))
    (contacted (S i) sl)) as HF.
  { replace (Z.succ (Z.of_nat i)) with (Z.of_nat (S i)) by lia.
    replace (Z.pred (Z.of_nat (S (length sl)))) with (Z.of_nat (length sl)) by lia.
    apply IH. intros j sent' kvs' Hj. rewrite Nat.add_succ_l, <- Nat.add_succ_r. by apply H. }
  rewrite filter_cons. case_decide as Hp.
  - rewrite bool_decide_eq_true_2 in Hsent by done. subst sent. by constructor.
  - rewrite bool_decide_eq_false_2 in Hsent by tauto. by subst sent.
Qed.

Lemma owners_nonempty q n l :
  (∀ key, key ∈ l.*1 → 0 ≤ key < q * n) → 0 < q → l ≠ [] → owners q n l ≠ [].
Proof.
  intros Hin Hq Hne E. destruct l as [|x l]; [done|].
  assert (0 ≤ x.1 < q * n) as Hx by (apply Hin; left).
  assert (x.1 / q ∈ owners q n (x :: l)) as Hi; [|rewrite E in Hi; by apply elem_of_nil in Hi].
  apply list_elem_of_filter. split.
  - unfold part. by rewrite filter_cons_True.
  - apply elem_of_seqZ. split; [apply Z.div_pos; lia|]. rewrite Z.add_0_l. apply Z.div_lt_upper_bound; lia.
Qed.
End requests.

Section pushes.
Context {V : Type} (W : wire V) (sz : Z) (SendMsg : Message.t → Z).
Implicit Types w : KVWorker.t V.

(** The request of worker [w] to server [r] that pushes the keys and values
    [l]. *)
Definition push_to w (ts cmd r : Z) (l : list (Z * list V)) (msg : Message.t) : Prop :=
  Meta.recver (Message.meta msg) = GroupServerRankToInstanceID
    (Postoffice.group_size_ (postoffice_ (van w))) r (instance_idx_ w) ∧
  Meta.app_id (Message.meta msg) = app_id_ (obj_ w) ∧
  Meta.customer_id (Message.meta msg) = customer_id_ (obj_ w) ∧
  Meta.timestamp (Message.meta msg) = ts ∧ Meta.head (Message.meta msg) = cmd ∧
  Meta.request (Message.meta msg) = true ∧ Meta.push (Message.meta msg) = true ∧
  ∃ kvs, Message.data msg = kv_arrays W kvs ∧ represents kvs l.

Lemma push_sends w n now ks vs ls cmd cb l :
  (∀ m, 0 < SendMsg m) → worker_ready w n →
  represents (KVPairs.mk ks vs ls) l → l ≠ [] → StronglySorted Z.lt l.*1 →
  SArray.size vs < 2 ^ 64 →
  let q := kMaxKey / n in
  (∀ key, key ∈ l.*1 → 0 ≤ key < q * n) →
  let ts := Z.of_nat (length (tracker_ (obj_ w))) in
  ∃ msgs w', ZPush W SendMsg (DefaultSlicer sz) now ks vs ls cmd cb w = Ok (ts, w') ∧
    log (van w') = log (van w) ++ map Sent msgs ∧
    Forall2 (λ r, push_to w ts cmd r (part q l r)) (owners q n l) msgs ∧
    get_tracker (obj_ w') ts = Ok (mkTracker n (n - Z.of_nat (length msgs)) 0 now) ∧
    worker_ready w' n ∧
    callbacks_ w' = match cb with Some f => <[ts := UserCallback f]> (callbacks_ w)
                                | None => callbacks_ w end ∧
    ran w' = ran w.
Proof.
  intros Hsend Hw Hrep Hne Hs Hsz q Hin ts. unfold ZPush.
  rewrite (NewRequest_ready w n) by done. cbn [mbind result_bind fst snd]. fold ts.
  pose proof (wr_bound _ _ Hw) as Hb.
  assert (0 < q) as Hq by (apply Z.div_str_pos; unfold kMaxKey; lia).
  destruct (slicer_servers sz (KVPairs.mk ks vs ls) l n) as (sliced & Hsl & Hlen & Hparts); try done.
  pose proof (contacted_owners q l sliced 0 Hparts) as HF. rewrite Hlen in HF. fold (owners q n l) in HF.
  pose proof (Forall2_length _ _ _ HF) as Hlo.
  assert (contacted 0 sliced ≠ []) as Hc.
  { intros E. rewrite E in Hlo. by apply (owners_nonempty q n l Hin Hq Hne), length_zero_iff_nil. }
  set (w1 := AddCallback _ _ _).
  assert (worker_ready w1 n) as Hw1.
  { unfold w1, AddCallback. destruct Hw. destruct cb; split; done. }
  assert (get_tracker (obj_ w1) ts = Ok (fresh_tracker n now)) as Ht.
  { unfold w1, AddCallback. destruct cb; apply get_new_tracker. }
  destruct (kv_send_Ok W SendMsg (DefaultSlicer sz) now ts true cmd (KVPairs.mk ks vs ls) w1 n now sliced)
    as (msgs & w' & -> & Hlog & HF' & Htr & Hw' & Hcb & Hran & _); try done.
  exists msgs, w'. split; [done|]. split; [rewrite Hlog; unfold w1; by destruct cb|].
  split; [|split; [done|]; split; [done|]; rewrite Hcb, Hran; unfold w1; by destruct cb].
  eapply Forall2_trans; [|exact HF|exact HF'].
  intros r [i kvs] msg [<- Hr] Hm. unfold request_to in Hm. decompose [and] Hm.
  unfold push_to. unfold w1 in *. destruct cb; repeat split; try assumption; by exists kvs.
Qed.
(** A server's answer to the push [ts]. *)
Definition push_answer (ts : Z) (msg : Message.t) : Prop :=
  Meta.timestamp (Message.meta msg) = ts ∧ Meta.request (Message.meta msg) = false ∧
  Meta.push (Message.meta msg) = true ∧ Meta.simple_app (Message.meta msg) = false ∧
  Control.cmd (Meta.control (Message.meta msg)) = Control.EMPTY.

#[global] Instance push_answer_dec ts msg : Decision (push_answer ts msg).
Proof. unfold push_answer. apply _. Defined.

Fixpoint receive_answers (now : Z) (msgs : list Message.t) w : result (KVWorker.t V) :=
  match msgs with
  | [] => Ok w
  | m :: msgs' => w ← worker_receive W SendMsg now m w; receive_answers now msgs' w
  end.

Lemma receive_answer w n now ts msg a b s0 :
  worker_ready w n → get_tracker (obj_ w) ts = Ok (mkTracker n a b s0) → push_answer ts msg →
  ∃ c, worker_receive W SendMsg now msg w = Ok (w <| obj_ := c |>) ∧
    get_tracker c ts = Ok (mkTracker n (i32 (a + 1)) (i32 (b + 1)) s0).
Proof.
  intros Hw Ht (Hts & Hreq & Hpush & Hsa & Hcmd).
  unfold worker_receive, DirectProcess. rewrite Hcmd, bool_decide_eq_false_2 by done.
  unfold worker_process. rewrite Hsa, Hpush, Hreq, Hts. cbn [negb andb mbind result_bind].
  change (obj_ (w <| obj_ := obj_ w |>)) with (obj_ w).
  unfold NumResponse. rewrite Ht. cbn [mbind result_bind count].
  change (worker0 (w <| obj_ := obj_ w |>)) with (worker0 w).
  pose proof (wr_bound _ _ Hw). rewrite (wr_servers _ _ Hw), swrap_small by (unfold in_s; lia).
  rewrite (proj2 (Z.eqb_neq _ _)) by lia. cbn [mbind result_bind fst snd].
  match goal with |- context [update_tracker ?f ts _] =>
    destruct (update_tracker_Ok f ts (obj_ w) _ Ht) as (c & Hc & Htr & _) end.
  change (obj_ (w <| obj_ := obj_ w |>)) with (obj_ w). rewrite Hc. cbn [mbind result_bind fst snd].
  exists c. split; [by destruct w|]. exact Htr.
Qed.

Lemma receive_answers_Ok w n now ts msgs a b s0 :
  worker_ready w n → get_tracker (obj_ w) ts = Ok (mkTracker n a b s0) →
  Forall (push_answer ts) msgs → 0 ≤ a → a + Z.of_nat (length msgs) ≤ n →
  ∃ c b', receive_answers now msgs w = Ok (w <| obj_ := c |>) ∧
    get_tracker c ts = Ok (mkTracker n (a + Z.of_nat (length msgs)) b' s0).
Proof.
  intros Hw Ht HF Ha Hn. revert w a b Hw Ht Ha Hn.
  induction HF as [|m msgs Hm HF IH]; intros w a b Hw Ht Ha Hn; cbn [receive_answers].
  { exists (obj_ w), b. split; [by destruct w|]. rewrite Ht. simpl. do 2 f_equal. lia. }
  cbn [length] in Hn. pose proof (wr_bound _ _ Hw).
  destruct (receive_answer w n now ts m a b s0 Hw Ht Hm) as (c & -> & Hc). cbn [mbind result_bind].
  rewrite swrap_small in Hc by (unfold in_s; lia).
  destruct (IH (w <| obj_ := c |>) (a + 1) (i32 (b + 1))) as (c' & b' & -> & Hc'); [|done|lia..|].
  { destruct Hw. by split. }
  exists c', b'. split; [done|]. rewrite Hc'. do 2 f_equal. cbn [length]. lia.
Qed.

(** C15. A push reaches every server that owns one of its keys, and only those:
    each gets one message, at the instance that has the worker's index, with
    exactly its keys and their values; the request is tracked as waiting for
    one answer per message. *)
Theorem push_contacts_owners w n now ks vs ls cmd cb l :
  (∀ m, 0 < SendMsg m) → worker_ready w n →
  represents (KVPairs.mk ks vs ls) l → l ≠ [] → StronglySorted Z.lt l.*1 →
  SArray.size vs < 2 ^ 64 →
  let q := kMaxKey / n in
  (∀ key, key ∈ l.*1 → 0 ≤ key < q * n) →
  ∃ ts msgs w', ZPush W SendMsg (DefaultSlicer sz) now ks vs ls cmd cb w = Ok (ts, w') ∧
    log (van w') = log (van w) ++ map Sent msgs ∧
    Forall2 (λ r, push_to w ts cmd r (part q l r)) (owners q n l) msgs ∧
    ∃ tr, get_tracker (obj_ w') ts = Ok tr ∧
      count tr - response_count tr = Z.of_nat (length msgs).
Proof.
  intros Hsend Hw Hrep Hne Hs Hsz q Hin.
  destruct (push_sends w n now ks vs ls cmd cb l Hsend Hw Hrep Hne Hs Hsz Hin)
    as (msgs & w' & H1 & H2 & H3 & H4 & _).
  eexists _, msgs, w'. split; [exact H1|]. split; [done|]. split; [done|].
  eexists. split; [exact H4|]. simpl. lia.
Qed.

(** The state after a push and some of its answers. *)
Lemma push_answers w n now ks vs ls cmd cb l ts w' msgs answers later :
  (∀ m, 0 < SendMsg m) → worker_ready w n →
  represents (KVPairs.mk ks vs ls) l → l ≠ [] → StronglySorted Z.lt l.*1 →
  SArray.size vs < 2 ^ 64 → (∀ key, key ∈ l.*1 → 0 ≤ key < kMaxKey / n * n) →
  ZPush W SendMsg (DefaultSlicer sz) now ks vs ls cmd cb w = Ok (ts, w') →
  log (van w') = log (van w) ++ map Sent msgs →
  Forall (push_answer ts) answers → (length answers ≤ length msgs)%nat →
  ∃ c b, receive_answers later answers w' = Ok (w' <| obj_ := c |>) ∧
    get_tracker c ts = Ok (mkTracker n (n - Z.of_nat (length msgs) + Z.of_nat (length answers)) b now) ∧
    ran w' = ran w ∧
    callbacks_ w' = match cb with Some f => <[ts := UserCallback f]> (callbacks_ w)
                                | None => callbacks_ w end.
Proof.
  intros Hsend Hw Hrep Hne Hs Hsz Hin Hz Hlog HF Hlen.
  destruct (push_sends w n now ks vs ls cmd cb l Hsend Hw Hrep Hne Hs Hsz Hin)
    as (msgs' & w1 & H1 & H2 & H3 & H4 & H5 & H6 & H7).
  rewrite H1 in Hz. injection Hz as <- <-. rewrite H2 in Hlog. apply app_inv_head in Hlog.
  apply (f_equal length) in Hlog. rewrite !length_map in Hlog.
  assert (0 ≤ n - Z.of_nat (length msgs')).
  { apply Forall2_length in H3. rewrite <- H3. pose proof (wr_bound _ _ Hw).
    pose proof (length_filter (λ i, part (kMaxKey / n) l i ≠ []) (seqZ 0 n)).
    rewrite length_seqZ in *. unfold owners. lia. }
  destruct (receive_answers_Ok w1 n later _ answers _ _ _ H5 H4 HF) as (c & b' & H8 & H9); [lia..|].
  exists c, b'. rewrite Hlog in H9. done.
Qed.


(** Callbacks: the answers to a push never run its callback, however many
    arrive; [Process] compares the number of expected responses, which is the
    number of servers, with the number of servers minus one. *)
Theorem push_callback_never_runs w n now ks vs ls cmd f l ts w' msgs answers later :
  (∀ m, 0 < SendMsg m) → worker_ready w n →
  represents (KVPairs.mk ks vs ls) l → l ≠ [] → StronglySorted Z.lt l.*1 →
  SArray.size vs < 2 ^ 64 → (∀ key, key ∈ l.*1 → 0 ≤ key < kMaxKey / n * n) →
  ZPush W SendMsg (DefaultSlicer sz) now ks vs ls cmd (Some f) w = Ok (ts, w') →
  log (van w') = log (van w) ++ map Sent msgs →
  Forall (push_answer ts) answers → (length answers ≤ length msgs)%nat →
  ∃ w'', receive_answers later answers w' = Ok w'' ∧ ran w'' = ran w ∧
    callbacks_ w'' !! ts = Some (UserCallback f).
Proof.
  intros Hsend Hw Hrep Hne Hs Hsz Hin Hz Hlog HF Hlen.
  destruct (push_answers w n now ks vs ls cmd (Some f) l ts w' msgs answers later)
    as (c & b & H1 & _ & H2 & H3); try done.
  eexists. split; [exact H1|]. split; [exact H2|].
  change (callbacks_ (w' <| obj_ := c |>)) with (callbacks_ w'). rewrite H3. apply lookup_insert_eq.
Qed.
End pushes.

(** A worker of a cluster of two workers and three servers, each with two instances. *)
Definition demo_worker : KVWorker.t Z :=
  let po := demo_po <| Postoffice.node_ids_ := init_node_ids demo_po |> in
  KVWorker.mk (Customer.mk 0 0 [])
    (Van.new (env_of []) po (Node.mk Node.WORKER 9 0 (bytes_of "10.0.0.2") 1 [] [] [] 9000 false [] 0 0))
    po 0 false ∅ ∅ ∅ ∅ [].
Lemma demo_worker_ready : worker_ready demo_worker 3.
Proof.
  split; try done.
  exists (default [] (init_node_ids demo_po !! kServerGroup)). by vm_compute.
Qed.

Lemma demo_keys_owned : ∀ key, key ∈ demo_list.*1 → 0 ≤ key < kMaxKey / 3 * 3.
Proof. apply (Forall_forall (λ key, 0 ≤ key < _)). apply (bool_decide_unpack _). vm_compute. exact I. Qed.

Definition demo_push : result (Z * KVWorker.t Z) :=
  ZPush wire_int (λ _, 1) (DefaultSlicer 4) 5 (keys demo_kvs) (vals demo_kvs) (lens demo_kvs) 0 (Some 7%nat)
    demo_worker.
Definition demo_pushed : KVWorker.t Z :=
  match demo_push with Ok (_, w) => w | Err _ => demo_worker end.
Definition demo_sent : list Message.t :=
  omap (λ ev, match ev with Sent m => Some m | _ => None end) (log (van demo_pushed)).
Definition demo_answer : Message.t :=
  Message.mk (Meta.default <| Meta.timestamp := 0 |> <| Meta.push := true |>) [].

Lemma push_contacts_owners_witness :
  ∃ ts msgs w', demo_push = Ok (ts, w') ∧ log (van w') = log (van demo_worker) ++ map Sent msgs ∧
    length msgs = 2%nat.
Proof.
  destruct (push_contacts_owners wire_int 4 (λ _, 1) demo_worker 3 5 (keys demo_kvs) (vals demo_kvs)
    (lens demo_kvs) 0 (Some 7%nat) demo_list) as (ts & msgs & w' & H1 & H2 & H3 & _);
    [done|apply demo_worker_ready|apply demo_represents|done|apply demo_sorted|done|apply demo_keys_owned|].
  exists ts, msgs, w'. split; [exact H1|]. split; [exact H2|].
  rewrite <- (Forall2_length _ _ _ H3). by vm_compute.
Defined.


Lemma push_callback_never_runs_witness :
  ∃ w'', receive_answers wire_int (λ _, 1) 6 [demo_answer; demo_answer] demo_pushed = Ok w'' ∧
    ran w'' = [] ∧ callbacks_ w'' !! 0 = Some (UserCallback 7).
Proof.
  apply (push_callback_never_runs wire_int 4 (λ _, 1) demo_worker 3 5 (keys demo_kvs) (vals demo_kvs)
    (lens demo_kvs) 0 7 demo_list 0 demo_pushed demo_sent [demo_answer; demo_answer] 6);
    [done|apply demo_worker_ready|apply demo_represents|done|apply demo_sorted|done|apply demo_keys_owned|
     by vm_compute|by vm_compute|by repeat constructor|vm_compute; lia].
Defined.
