(* ===== verification/CustomerFacts.v ===== *)
(** * The two ways to a handler (src/customer.cc)

    Messages reach the application by [DirectProcess]; the thread function
    [Receiving] of earlier versions is still there.  Both do the same. *)

From S2P Require Import Prelude Message Postoffice Customer.
Import Customer.

(** Customers whose requests have the same responses. *)
Definition same_tracker (a b : tracker) : Prop :=
  count a = count b ∧ response_count a = response_count b ∧ start_time a = start_time b.
Definition same_counts (c d : t) : Prop := Forall2 same_tracker (tracker_ c) (tracker_ d).

Lemma get_tracker_same c d ts :
  same_counts c d →
  match get_tracker c ts, get_tracker d ts with
  | Ok a, Ok b => same_tracker a b
  | Err e, Err e' => e = e'
  | _, _ => False
  end.
Proof.
  intros Hs. unfold get_tracker. rewrite (Forall2_length _ _ _ Hs). destruct (_ && _); [|done].
  pose proof (Forall2_lookup_lr same_tracker (tracker_ c) (tracker_ d) (Z.to_nat ts)) as Hlr.
  pose proof (Forall2_length _ _ _ Hs) as Hl.
  destruct (tracker_ c !! Z.to_nat ts) as [a|] eqn:Ea, (tracker_ d !! Z.to_nat ts) as [b|] eqn:Eb; cbn; try done.
  - by eapply Hlr.
  - apply lookup_lt_Some in Ea. apply lookup_ge_None in Eb. lia.
  - apply lookup_lt_Some in Eb. apply lookup_ge_None in Ea. lia.
Qed.

Lemma update_tracker_same f g ts c d :
  same_counts c d → (∀ a b, same_tracker a b → same_tracker (f a) (g b)) →
  match update_tracker f ts c, update_tracker g ts d with
  | Ok c', Ok d' => same_counts c' d'
  | Err e, Err e' => e = e'
  | _, _ => False
  end.
Proof.
  intros Hs Hfg. pose proof (get_tracker_same c d ts Hs) as H. unfold update_tracker.
  destruct (get_tracker c ts) as [a|], (get_tracker d ts) as [b|]; try done. cbn. unfold same_counts. cbn.
  apply Forall2_insert; [done|by apply Hfg].
Qed.

Section handlers.
Context {S : Type} (f : Message.t → S → result S).

(** A handler that leaves the trackers alone. *)
Definition plain_handle (m : Message.t) (c : t) (s : S) : result (t * S) := s ← f m s; Ok (c, s).

Fixpoint direct_all (q : list Message.t) (c : t) (s : S) : result (t * S) :=
  match q with
  | [] => Ok (c, s)
  | m :: q' => x ← DirectProcess plain_handle m c s; direct_all q' x.1 x.2
  end.

(** The thread of a customer and the calls of [DirectProcess] that replaced it
    agree: for the same messages they have the same effects, errors and counts. *)
Theorem queued_as_direct q last rest c d s :
  same_counts c d →
  Forall (λ m, Control.cmd (Meta.control (Message.meta m)) ≠ Control.TERMINATE) q →
  Control.cmd (Meta.control (Message.meta last)) = Control.TERMINATE →
  match direct_all q c s, customer_Receiving plain_handle (q ++ last :: rest) d s with
  | Ok (c', s'), Ok (d', s'', rest') => same_counts c' d' ∧ s' = s'' ∧ rest' = rest
  | Err e, Err e' => e = e'
  | _, _ => False
  end.
Proof.
  intros Hs Hq Hl. revert c d s Hs. induction Hq as [|m q Hm Hq IH]; intros c d s Hs; cbn [direct_all app customer_Receiving].
  - by rewrite bool_decide_eq_true_2.
  - unfold DirectProcess. rewrite bool_decide_eq_false_2 by done. unfold plain_handle.
    destruct (f m s) as [s1|e]; [cbn|done]. destruct (Meta.request (Message.meta m)); [by apply IH|].
    pose proof (update_tracker_same (λ tr, (add_responses 1 tr) <| response_count_cache ::= (λ k, i32 (k + 1)) |>)
      (add_responses 1) (Meta.timestamp (Message.meta m)) c d Hs) as H.
    specialize (H ltac:(intros a b (H1 & H2 & H3); unfold same_tracker, add_responses; cbn; by rewrite H1, H2, H3)).
    destruct (update_tracker _ _ c) as [c1|e1], (update_tracker _ _ d) as [d1|e2]; try done. by apply IH.
Qed.
End handlers.
