(* ===== verification/KVServerFacts.v ===== *)
(** * Theorems on the server side of the key-value store, on pulls and on
    simple applications *)

From S2P Require Import Prelude Message Env Codec Postoffice Van VanFacts Customer Slicer KVApp KVFacts.
Import Van Customer KVPairs.

(** ** Responses *)

(** From a worker instance to its group and back. *)
Lemma route_home gs rank idx :
  0 ≤ rank → 0 ≤ idx < gs → rank * gs + idx < 2 ^ 30 - 8 →
  let w := GroupWorkerRankToInstanceID gs rank idx in
  GroupWorkerRankToInstanceID gs (IDtoRank (WorkerRankToID (InstanceIDtoGroupRank gs w))) idx = w.
Proof.
  intros Hr Hi Hb w. assert (0 ≤ rank * gs) by nia.
  assert (rank_ok (rank * gs + idx)) by (unfold rank_ok; lia).
  subst w. unfold InstanceIDtoGroupRank, GroupWorkerRankToInstanceID.
  rewrite (swrap_small 32 (rank * gs + idx)) by (lia || word_lia).
  rewrite (IDtoRank_worker (rank * gs + idx)) by done.
  destruct (group_rank_div gs rank idx Hi) as [->|]; [|lia].
  rewrite IDtoRank_worker by (unfold rank_ok; nia).
  by rewrite (swrap_small 32 (rank * gs + idx)) by (lia || word_lia).
Qed.

Section responses.
Context {V : Type} (W : wire V).

Lemma response_meta_fields app to req :
  let a := response_meta app to req in
  Meta.data_type a = [] ∧ Meta.recver a = to ∧ Meta.request a = false ∧
  Meta.timestamp a = KVMeta.timestamp req ∧ Meta.customer_id a = KVMeta.customer_id req ∧
  Meta.push a = KVMeta.push req ∧ Meta.head a = KVMeta.cmd req ∧ Meta.key a = KVMeta.key req ∧
  Meta.addr a = KVMeta.addr req ∧ Meta.val_len a = KVMeta.val_len req.
Proof. by repeat split. Qed.

(** Responses go home: a server answers a request of worker instance
    [rank, idx] to that very instance, with the request's time stamp, customer,
    command, key and address, as long as it serves the same instance index. *)
Theorem response_returns_to_sender s m res rank :
  let gs := Postoffice.group_size_ (postoffice_ (KVServer.van s)) in
  let idx := KVServer.instance_idx_ s in
  0 ≤ rank → 0 ≤ idx < gs → rank * gs + idx < 2 ^ 30 - 8 →
  Meta.sender m = GroupWorkerRankToInstanceID gs rank idx →
  ∃ msg, response_message W s (request_meta s m) res = Ok msg ∧
    Message.data msg = kv_arrays W res ∧
    let a := Message.meta msg in
    Meta.recver a = Meta.sender m ∧ Meta.request a = false ∧
    Meta.timestamp a = Meta.timestamp m ∧ Meta.customer_id a = Meta.customer_id m ∧
    Meta.push a = Meta.push m ∧ Meta.head a = Meta.head m ∧ Meta.key a = Meta.key m ∧
    Meta.addr a = Meta.addr m ∧ Meta.val_len a = Meta.val_len m.
Proof.
  intros gs idx Hr Hi Hb Hs. unfold response_message. cbv zeta.
  set (to := GroupWorkerRankToInstanceID _ _ _).
  assert (to = Meta.sender m) as Hto.
  { transitivity (GroupWorkerRankToInstanceID gs
      (IDtoRank (WorkerRankToID (InstanceIDtoGroupRank gs (Meta.sender m)))) idx); [done|].
    rewrite Hs. by apply route_home. }
  clearbody to. subst to.
  destruct (response_meta_fields (app_id_ (KVServer.obj_ s)) (Meta.sender m) (request_meta s m))
    as (E0 & E1 & E2 & E3 & E4 & E5 & E6 & E7 & E8 & E9).
  destruct (add_kvs_Ok W res _ E0) as (msg & Hmsg & Hd & HR).
  exists msg. split; [exact Hmsg|]. split; [exact Hd|].
  destruct HR as (_ & Rc & Rt & Rr & Rq & Rp & _ & Rh & _ & Ra & Rv & Rk).
  rewrite Rr, Rq, Rt, Rc, Rp, Rh, Rk, Ra, Rv, E1, E2, E3, E4, E5, E6, E7, E8, E9.
  by repeat split.
Qed.
End responses.

(** Server instance 1 of two answers worker instance 1 of worker 3. *)
Definition demo_server : KVServer.t :=
  KVServer.mk (Customer.mk 0 0 [])
    (Van.new (env_of []) demo_po (Node.mk Node.SERVER 10 0 (bytes_of "10.0.0.3") 1 [] [] [] 9100 false [] 0 0)) 1.

Lemma response_returns_to_sender_witness :
  ∃ msg, response_message wire_int demo_server
      (request_meta demo_server (Meta.default <| Meta.sender := 23 |>)) kvpairs0 = Ok msg ∧
    Meta.recver (Message.meta msg) = 23.
Proof.
  destruct (response_returns_to_sender wire_int demo_server (Meta.default <| Meta.sender := 23 |>) kvpairs0 3)
    as (msg & H1 & _ & H2 & _); [lia|vm_compute; split; congruence|vm_compute; done|vm_compute; done|].
  exists msg. split; [exact H1|exact H2].
Defined.

(** ** The default store *)
Section store.
Context {V : Type} (W : wire V) (add : V → V → V).

(** The values pushed for [key], in order. *)
Definition pushed (kvs : list (Z * V)) (key : Z) : list V :=
  (filter (λ x, x.1 = key) kvs).*2.

Lemma stored_push_all kvs store key :
  stored W (push_all W add kvs store) key = fold_left add (pushed kvs key) (stored W store key).
Proof.
  unfold pushed. revert store. induction kvs as [|[k v] kvs IH]; intros store; [done|].
  cbn [push_all]. rewrite IH, filter_cons. cbn [fst]. case_decide as Hk.
  - subst k. cbn. unfold stored. by rewrite lookup_insert_eq.
  - unfold stored. by rewrite lookup_insert_ne.
Qed.

Lemma pull_all_stored ks store :
  (pull_all W ks store).2 = map (stored W store) ks ∧
  ∀ key, stored W (pull_all W ks store).1 key = stored W store key.
Proof.
  revert store. induction ks as [|k ks IH]; intros store; [done|]. cbn [pull_all].
  destruct (IH (<[k := stored W store k]> store)) as [H1 H2].
  assert (∀ key, stored W (<[k := stored W store k]> store) key = stored W store key) as Hst.
  { intros key. unfold stored at 1. destruct (decide (key = k)) as [->|].
    - by rewrite lookup_insert_eq.
    - by rewrite lookup_insert_ne. }
  destruct (pull_all W ks _) as [store' vs]. simpl in *. split.
  - rewrite H1. f_equal. apply map_ext. exact Hst.
  - intros key. rewrite H2. apply Hst.
Qed.

Context (SendMsg : Message.t → Z) (ok : V → Prop).

(** The values of the store stay representable. *)
Definition store_ok (store : gmap Z V) : Prop := map_Forall (λ _ v, ok v) store.

Lemma stored_ok store key : ok (wzero W) → store_ok store → ok (stored W store key).
Proof. intros Hz Hs. unfold stored. destruct (store !! key) eqn:E; [by apply (Hs key)|done]. Qed.

Lemma push_all_ok kvs store :
  ok (wzero W) → (∀ a b, ok a → ok b → ok (add a b)) →
  Forall (λ x, ok x.2) kvs → store_ok store → store_ok (push_all W add kvs store).
Proof.
  intros Hz Hadd HF. revert store. induction HF as [|[k v] kvs Hv _ IH]; intros store Hs; [done|].
  cbn [push_all]. apply IH. apply map_Forall_insert_2; [|done]. apply Hadd; [by apply stored_ok|done].
Qed.

Lemma kv_response_Ok now req res s :
  (∀ m, 0 < SendMsg m) → resender_ (KVServer.van s) = None →
  ∃ msg v', kv_response W SendMsg now req res s = Ok (s <| KVServer.van := v' |>) ∧
    log v' = log (KVServer.van s) ++ [Sent msg] ∧ resender_ v' = None ∧
    Message.data msg = kv_arrays W res.
Proof.
  intros Hsend Hr. unfold kv_response, response_message. cbv zeta.
  set (to := GroupWorkerRankToInstanceID _ _ _).
  destruct (response_meta_fields (app_id_ (KVServer.obj_ s)) to req) as [E0 _].
  destruct (add_kvs_Ok W res _ E0) as (msg & -> & Hd & _). cbn [mbind result_bind].
  destruct (Send_plain SendMsg now msg (KVServer.van s) Hsend Hr) as (v' & -> & Hl & Hr' & _).
  by exists msg, v'.
Qed.

Lemma read_kv_arrays kvs :
  wire_ok W ok → SArray.elems (keys kvs) ≠ [] → SArray.elems (lens kvs) = [] →
  Forall (in_u 64) (SArray.elems (keys kvs)) → Forall ok (SArray.elems (vals kvs)) →
  read_kvs W (kv_arrays W kvs) = Ok (KVPairs.mk (keys kvs) (vals kvs) sarray0).
Proof.
  intros HW Hne Hl Hk Hv. unfold kv_arrays, SArray.size. rewrite Hl.
  rewrite (proj2 (Z.ltb_lt _ _)) by (destruct (SArray.elems (keys kvs)); [done|simpl; lia]).
  cbn [length Z.of_nat Z.ltb Z.compare app read_kvs].
  rewrite (of_to_bytes _ _ _ wire_key_ok Hk), (of_to_bytes _ _ _ HW Hv). done.
Qed.

Lemma handle_push now ptr req data s store :
  (∀ m, 0 < SendMsg m) → resender_ (KVServer.van s) = None → KVMeta.push req = true →
  SArray.size (keys data) = SArray.size (vals data) →
  ∃ s', KVServerDefaultHandle W add SendMsg now ptr req data (s, store) =
      Ok (s', push_all W add (zip (SArray.elems (keys data)) (SArray.elems (vals data))) store) ∧
    resender_ (KVServer.van s') = None.
Proof.
  intros Hsend Hr Hp Hn. unfold KVServerDefaultHandle. rewrite Hp, Hn, Z.eqb_refl.
  destruct (kv_response_Ok now req kvpairs0 s Hsend Hr) as (msg & v' & -> & _ & Hr' & _).
  eexists. split; [reflexivity|]. exact Hr'.
Qed.

Lemma handle_pull now ptr req ks s store :
  (∀ m, 0 < SendMsg m) → resender_ (KVServer.van s) = None → KVMeta.push req = false →
  wire_ok W ok → ok (wzero W) → store_ok store →
  SArray.elems ks ≠ [] → Forall (in_u 64) (SArray.elems ks) →
  ∃ s' store' msg kvs,
    KVServerDefaultHandle W add SendMsg now ptr req (KVPairs.mk ks sarray0 sarray0) (s, store)
      = Ok (s', store') ∧
    log (KVServer.van s') = log (KVServer.van s) ++ [Sent msg] ∧
    read_kvs W (Message.data msg) = Ok kvs ∧
    SArray.elems (keys kvs) = SArray.elems ks ∧
    SArray.elems (vals kvs) = map (stored W store) (SArray.elems ks).
Proof.
  intros Hsend Hr Hp HW Hz Hst Hne Hks. unfold KVServerDefaultHandle. rewrite Hp. cbn [keys].
  destruct (pull_all_stored (SArray.elems ks) store) as [Hvs _].
  destruct (pull_all W (SArray.elems ks) store) as [store2 vs]. cbn [fst snd] in Hvs.
  set (res := KVPairs.mk ks (SArray.mk ptr vs DeviceType.CPU 0 DeviceType.CPU 0) sarray0).
  destruct (kv_response_Ok now req res s Hsend Hr) as (msg & v' & -> & Hl & _ & Hd).
  eexists _, _, msg, (KVPairs.mk (keys res) (vals res) sarray0).
  split; [reflexivity|]. split; [exact Hl|].
  split; [|split; [reflexivity|exact Hvs]].
  rewrite Hd. apply read_kv_arrays; try done. subst res. cbn. rewrite Hvs.
  apply Forall_fmap, Forall_forall. intros key _. simpl. by apply stored_ok.
Qed.

(** C24. The store adds up: after a push, a pull is answered with one message
    that carries the asked keys and, for each of them, the value stored before
    plus every value pushed for it, in order; keys never pushed read as zero. *)
Theorem store_push_then_pull now ptr req1 req2 data1 ks s store :
  (∀ m, 0 < SendMsg m) → resender_ (KVServer.van s) = None →
  wire_ok W ok → ok (wzero W) → (∀ a b, ok a → ok b → ok (add a b)) →
  store_ok store → Forall ok (SArray.elems (vals data1)) →
  KVMeta.push req1 = true → KVMeta.push req2 = false →
  SArray.size (keys data1) = SArray.size (vals data1) →
  SArray.elems ks ≠ [] → Forall (in_u 64) (SArray.elems ks) →
  ∃ s1 store1 s2 store2 msg kvs,
    KVServerDefaultHandle W add SendMsg now ptr req1 data1 (s, store) = Ok (s1, store1) ∧
    KVServerDefaultHandle W add SendMsg now ptr req2 (KVPairs.mk ks sarray0 sarray0) (s1, store1)
      = Ok (s2, store2) ∧
    log (KVServer.van s2) = log (KVServer.van s1) ++ [Sent msg] ∧
    read_kvs W (Message.data msg) = Ok kvs ∧
    SArray.elems (keys kvs) = SArray.elems ks ∧
    SArray.elems (vals kvs) =
      map (λ key, fold_left add
             (pushed (zip (SArray.elems (keys data1)) (SArray.elems (vals data1))) key)
             (stored W store key)) (SArray.elems ks).
Proof.
  intros Hsend Hr HW Hz Hadd Hst Hv1 Hp1 Hp2 Hn Hne Hks.
  destruct (handle_push now ptr req1 data1 s store Hsend Hr Hp1 Hn) as (s1 & H1 & Hr1).
  set (kvs1 := zip _ _) in *.
  assert (store_ok (push_all W add kvs1 store)) as Hst1.
  { apply push_all_ok; try done. apply Forall_forall. intros [k v] Hx. simpl.
    apply elem_of_zip_r in Hx. rewrite Forall_forall in Hv1. by apply Hv1. }
  destruct (handle_pull now ptr req2 ks s1 _ Hsend Hr1 Hp2 HW Hz Hst1 Hne Hks)
    as (s2 & store2 & msg & kvs & H2 & H3 & H4 & H5 & H6).
  exists s1, (push_all W add kvs1 store), s2, store2, msg, kvs. split_and!; try done.
  rewrite H6. apply map_ext. intros key. apply stored_push_all.
Qed.
End store.

Lemma store_push_then_pull_witness :
  let s := demo_server in
  let push := KVMeta.mk 0 true 9 0 0 0 0 0 0 0 0 [] in
  let pull := KVMeta.mk 0 false 9 1 0 0 0 0 0 0 0 [] in
  let arr l := SArray.mk 0 l DeviceType.CPU 0 DeviceType.CPU 0 in
  ∃ s1 store1 s2 store2 kvs,
    KVServerDefaultHandle wire_int (λ a b, i32 (a + b)) (λ _, 1) 5 64 push
      (KVPairs.mk (arr [3; 4; 3]) (arr [10; 20; 30]) sarray0) (s, ∅) = Ok (s1, store1) ∧
    KVServerDefaultHandle wire_int (λ a b, i32 (a + b)) (λ _, 1) 5 64 pull
      (KVPairs.mk (arr [3; 4; 5]) sarray0 sarray0) (s1, store1) = Ok (s2, store2) ∧
    SArray.elems (vals kvs) = [40; 20; 0].
Proof.
  intros s push pull arr.
  destruct (store_push_then_pull wire_int (λ a b, i32 (a + b)) (λ _, 1) (in_s 32) 5 64 push pull
    (KVPairs.mk (arr [3; 4; 3]) (arr [10; 20; 30]) sarray0) (arr [3; 4; 5]) s ∅)
    as (s1 & st1 & s2 & st2 & msg & kvs & H1 & H2 & _ & _ & _ & H3);
    try done; try (apply (bool_decide_unpack _); vm_compute; exact I).
  - apply wire_int_ok.
  - intros a b _ _. by apply swrap_range.
  - exists s1, st1, s2, st2, kvs. split; [exact H1|]. split; [exact H2|]. by rewrite H3.
Defined.

(** ** Simple applications *)
Section simple.
Context (SendMsg : Message.t → Z).

Lemma send_to_Ok now m ids v :
  (∀ m, 0 < SendMsg m) → resender_ v = None →
  ∃ v', send_to SendMsg now m ids v = Ok v' ∧
    log v' = log v ++ map (λ r, Sent (Message.mk (m <| Meta.recver := r |>) [])) ids.
Proof.
  intros Hsend. revert v. induction ids as [|r ids IH]; intros v Hr; cbn [send_to map].
  { exists v. by rewrite app_nil_r. }
  destruct (Send_plain SendMsg now (Message.mk (m <| Meta.recver := r |>) []) v Hsend Hr)
    as (v1 & -> & Hl & Hr1 & _). cbn [mbind result_bind snd].
  destruct (IH v1 Hr1) as (v' & -> & Hl'). exists v'. split; [done|].
  rewrite Hl', Hl, <- app_assoc. done.
Qed.

(** Simple requests: a request to the server group goes to every instance
    of every server but is tracked as waiting for one response per server, so
    with more than one instance per server more responses come than are
    expected; a request to any other receiver is refused. *)
Theorem simple_request_overcounts now hd body c v n ids recver :
  let gs := Postoffice.group_size_ (postoffice_ v) in
  (∀ m, 0 < SendMsg m) → resender_ v = None → 1 ≤ n → 1 < gs →
  GetNodeIDs (postoffice_ v) kServerGroup = Ok ids → Z.of_nat (length ids) = n * gs →
  (recver ≠ kServerGroup →
     simple_request SendMsg now hd body recver c v = Err (CheckFailed "recver")) ∧
  ∃ ts c' v' msgs tr, simple_request SendMsg now hd body kServerGroup c v = Ok (ts, c', v') ∧
    log v' = log v ++ map Sent msgs ∧ map (λ m, Meta.recver (Message.meta m)) msgs = ids ∧
    get_tracker c' ts = Ok tr ∧ count tr = n ∧ count tr < Z.of_nat (length msgs).
Proof.
  intros gs Hsend Hr Hn Hgs Hids Hlen. split.
  { intros Hne. unfold simple_request, NewRequest. by rewrite (proj2 (Z.eqb_neq _ _)) by done. }
  unfold simple_request. rewrite (NewRequest_Ok _ _ _ ids Hids). cbn [mbind result_bind].
  fold gs. rewrite Hlen, Z.quot_mul, Hids by lia. cbn [mbind result_bind].
  match goal with |- context [send_to SendMsg now ?m ids v] =>
    destruct (send_to_Ok now m ids v Hsend Hr) as (v' & -> & Hl);
    eexists _, _, v', (map (λ r, Message.mk (m <| Meta.recver := r |>) []) ids), _ end.
  split; [reflexivity|]. split; [by rewrite Hl, map_map|]. split; [rewrite map_map; apply map_id|].
  split; [apply get_new_tracker|]. split; [done|]. simpl. rewrite length_map. nia.
Qed.
End simple.

Lemma simple_request_overcounts_witness :
  let v := KVWorker.van demo_worker in
  ∃ ts c' v' msgs tr, simple_request (λ _, 1) 5 1 [] kServerGroup (Customer.mk 0 0 []) v = Ok (ts, c', v') ∧
    log v' = log v ++ map Sent msgs ∧ get_tracker c' ts = Ok tr ∧ count tr < Z.of_nat (length msgs).
Proof.
  intros v.
  destruct (simple_request_overcounts (λ _, 1) 5 1 [] (Customer.mk 0 0 []) v 3
    (default [] (init_node_ids demo_po !! kServerGroup)) 9) as [_ (ts & c' & v' & msgs & tr & H1 & H2 & _ & H3 & _ & H4)];
    [intros; lia|reflexivity|lia|vm_compute; reflexivity|vm_compute; reflexivity|vm_compute; reflexivity|].
  exists ts, c', v', msgs, tr.
  split; [exact H1|]. split; [exact H2|]. split; [exact H3|exact H4].
Defined.
