(* ===== verification/Pull.v ===== *)
(** * Reassembly of a pull (include/ps/kv_app.h, the callback of [Pull_])

    The parts a pull receives, in whatever order the servers answer, are
    checked against the asked keys, sorted and copied to the user's array. *)

From S2P Require Import Prelude Message Env Codec Postoffice Van VanFacts Customer Slicer KVApp KVFacts.
Import Customer KVPairs KVWorker.

Section pull.
Context {V : Type} (W : wire V).
Implicit Types (l : list (Z * list V)) (L : list (list (Z * list V))).

(** The keys of a part lie next to each other among all keys. *)
Lemma part_range (A B p : list Z) front back :
  StronglySorted Z.lt (A ++ p ++ B) → head p = Some front → last p = Some back →
  FindRange (A ++ p ++ B) front (back + 1) =
  mkRange (Z.of_nat (length A)) (Z.of_nat (length A + length p)).
Proof.
  intros Hs Hf Hb. pose proof Hs as (HA & Hs1 & Hs2)%StronglySorted_app.
  apply StronglySorted_app in Hs2 as (HB & Hp & _).
  assert (front ∈ p) as Hfin by (destruct p; [done|]; injection Hf as ->; left).
  assert (back ∈ p) as Hbin by by apply last_Some_elem_of.
  assert (∀ k, k ∈ p → front ≤ k ≤ back) as Hbetween.
  { intros k Hk. split.
    - destruct p as [|x p]; [done|]. injection Hf as ->. apply StronglySorted_cons in Hp as [Hx _].
      apply elem_of_cons in Hk as [->|Hk]; [lia|]. rewrite Forall_forall in Hx. specialize (Hx k Hk). lia.
    - apply last_Some in Hb as [p' ->]. apply StronglySorted_app in Hp as (Hx & _ & _).
      apply elem_of_app in Hk as [Hk|Hk%list_elem_of_singleton]; [|lia].
      specialize (Hx k back Hk (proj2 (list_elem_of_singleton _ _) eq_refl)). lia. }
  pose proof (Hbetween front Hfin). unfold FindRange.
  rewrite (proj2 (Z.leb_gt _ _)) by lia. rewrite !lower_bound_below by done.
  unfold below. rewrite !filter_app.
  rewrite (filter_true (λ k, k < front) A) by
    (intros k Hk; apply (HA k front Hk); apply elem_of_app; by left).
  rewrite (filter_false (λ k, k < front) p) by (intros k Hk; specialize (Hbetween k Hk); lia).
  rewrite (filter_false (λ k, k < front) B) by (intros k Hk; specialize (HB front k Hfin Hk); lia).
  rewrite (filter_true (λ k, k < back + 1) A) by
    (intros k Hk; assert (k < back) by (apply (HA k back Hk); apply elem_of_app; by left); lia).
  rewrite (filter_true (λ k, k < back + 1) p) by (intros k Hk; specialize (Hbetween k Hk); lia).
  rewrite (filter_false (λ k, k < back + 1) B) by (intros k Hk; specialize (HB back k Hbin Hk); lia).
  rewrite !app_nil_r, length_app. done.
Qed.

(** What the checks of the callback need of a part. *)
Definition part_fits (ks : list Z) (s : KVPairs.t V) : Prop :=
  ∃ front back, head (SArray.elems (keys s)) = Some front ∧ last (SArray.elems (keys s)) = Some back ∧
    range_size (FindRange ks front (u64 (back + 1))) = SArray.size (keys s).

Definition total {A} (size : A → Z) (l : list A) : Z := foldr (λ a n, size a + n) 0 l.

Lemma total_perm {A} (size : A → Z) (l1 l2 : list A) : l1 ≡ₚ l2 → total size l1 = total size l2.
Proof. unfold total. induction 1; simpl; lia. Qed.

Lemma check_parts_Ok ks parts :
  Forall (part_fits ks) parts →
  check_parts ks false parts =
  Ok (total (λ s, SArray.size (keys s)) parts, total (λ s, SArray.size (vals s)) parts).
Proof.
  induction 1 as [|s parts (front & back & Hf & Hb & Hr) _ IH]; [done|]. cbn [check_parts].
  rewrite Hf, Hb. cbn [from_option_or mbind result_bind]. rewrite Hr, Z.eqb_refl.
  cbn [negb orb]. by rewrite IH.
Qed.

Lemma parts_fit L kvs :
  Forall2 represents kvs L → Forall (λ p, p ≠ []) L → StronglySorted Z.lt (concat L).*1 →
  Forall (λ key, 0 ≤ key < kMaxKey) (concat L).*1 → Z.of_nat (length (concat L)) < 2 ^ 64 →
  Forall (part_fits (concat L).*1) kvs.
Proof.
  intros HF Hne Hs Hk Hlen. apply Forall_lookup. intros i s Hi.
  destruct (Forall2_lookup_l _ _ _ _ _ HF Hi) as (p & Hp & Hkeys & _).
  pose proof (proj1 (Forall_lookup _ _) Hne i p Hp) as Hpne. simpl in Hpne.
  assert (concat L = concat (take i L) ++ p ++ concat (drop (S i) L)) as E.
  { rewrite <- (take_drop_middle L i p Hp) at 1. by rewrite concat_app. }
  rewrite E, !fmap_app in *. unfold part_fits. rewrite Hkeys.
  destruct p as [|x p]; [done|]. destruct (last (x :: p).*1) as [back|] eqn:Hb.
  2: { by apply last_None in Hb. }
  exists x.1, back. split; [done|]. split; [done|].
  assert (back ∈ (x :: p).*1) as Hbin by by apply last_Some_elem_of.
  assert (0 ≤ back < kMaxKey) as Hbk.
  { rewrite Forall_forall in Hk. apply Hk. apply elem_of_app. right. apply elem_of_app. by left. }
  rewrite uwrap_small by (unfold in_u, kMaxKey in *; lia).
  rewrite (part_range _ _ _ x.1 back) by done. unfold range_size. cbn [begin end_].
  unfold SArray.size. rewrite Hkeys, uwrap_small; [lia|].
  rewrite !length_app in Hlen. rewrite !length_fmap. unfold in_u. lia.
Qed.

(** The first keys of the parts increase. *)
Lemma fronts_sorted L kvs :
  Forall2 represents kvs L → Forall (λ p, p ≠ []) L → StronglySorted Z.lt (concat L).*1 →
  StronglySorted (λ a b, hd 0 (SArray.elems (keys a)) < hd 0 (SArray.elems (keys b))) kvs.
Proof.
  induction 1 as [|s p kvs L [Hk _] HF IH]; intros Hne Hs; [constructor|].
  apply Forall_cons in Hne as [H1 H2]. simpl in Hs. rewrite fmap_app in Hs. apply StronglySorted_app in Hs as (Hlt & _ & Hs).
  constructor; [by apply IH|]. apply Forall_lookup. intros i s' Hi.
  destruct (Forall2_lookup_l _ _ _ _ _ HF Hi) as (p' & Hp' & Hk' & _).
  assert (p' ≠ []) as Hne' by exact (proj1 (Forall_lookup _ _) H2 i p' Hp').
  rewrite Hk, Hk'. destruct p as [|x p], p' as [|x' p']; try done. simpl. apply Hlt; [left|].
  apply list_elem_of_fmap_2. apply list_elem_of_In, in_concat.
  exists (x' :: p'). split; [apply list_elem_of_In; by apply list_elem_of_lookup_2 with i|apply in_eq].
Qed.

#[local] Instance front_le_trans : Transitive (@front_le V).
Proof. unfold front_le. intros a b c. lia. Qed.
#[local] Instance front_le_total : Total (@front_le V).
Proof. unfold front_le. intros a b. lia. Qed.

Lemma sort_parts_unique L kvs received :
  Forall2 represents kvs L → Forall (λ p, p ≠ []) L → StronglySorted Z.lt (concat L).*1 →
  received ≡ₚ kvs → sort_parts received = kvs.
Proof.
  intros HF Hne Hs Hperm. pose proof (fronts_sorted L kvs HF Hne Hs) as Hfr.
  apply (StronglySorted_unique_strong front_le).
  - intros x1 x2 H1 H2 H12 H21. unfold sort_parts in *.
    assert (x1 ∈ kvs) as [i Hi]%list_elem_of_lookup by (by rewrite <- Hperm, <- (merge_sort_Permutation front_le)).
    apply list_elem_of_lookup in H2 as [j Hj]. unfold front_le in *.
    destruct (decide (i = j)) as [->|]; [congruence|].
    destruct (decide (i < j)%nat).
    + pose proof (sorted_lookup _ _ i j _ _ Hfr ltac:(lia) Hi Hj). simpl in *. lia.
    + pose proof (sorted_lookup _ _ j i _ _ Hfr ltac:(lia) Hj Hi). simpl in *. lia.
  - apply (StronglySorted_merge_sort front_le).
  - clear -Hfr. induction Hfr as [|x kvs _ IH Hx]; constructor; [done|].
    eapply Forall_impl; [exact Hx|]. unfold front_le. simpl. lia.
  - unfold sort_parts. by rewrite merge_sort_Permutation.
Qed.

Lemma total_keys L kvs :
  Forall2 represents kvs L → total (λ s, SArray.size (keys s)) kvs = Z.of_nat (length (concat L)).
Proof.
  unfold total. induction 1 as [|s p kvs L (Hk & _) _ IH]; simpl; [done|].
  rewrite IH, length_app. unfold SArray.size. rewrite Hk, length_fmap. lia.
Qed.

Lemma concat_vals L kvs :
  Forall2 represents kvs L → concat (map (λ s, SArray.elems (vals s)) kvs) = concat (concat L).*2.
Proof.
  induction 1 as [|s p kvs L (_ & Hv & _) _ IH]; simpl; [done|].
  by rewrite IH, Hv, fmap_app, concat_app.
Qed.

Lemma total_vals kvs :
  total (λ s, SArray.size (vals s)) kvs =
  Z.of_nat (length (concat (map (λ s : KVPairs.t V, SArray.elems (vals s)) kvs))).
Proof.
  unfold total. induction kvs as [|s kvs IH]; simpl; [done|]. rewrite IH, length_app.
  unfold SArray.size. lia.
Qed.

(** C25. Pulls are reassembled: whatever the order in which the servers' parts
    arrive, the callback of a pull fills the user's array with the values of
    all asked keys in the order of the keys, and forgets the parts. *)
Theorem pull_reassembles w ts L parts received dst :
  is_worker_zpull_ w = false → recv_kvs_ w !! ts = Some received → received ≡ₚ parts →
  Forall2 represents parts L → Forall (λ p, p ≠ []) L → StronglySorted Z.lt (concat L).*1 →
  Forall (λ key, 0 ≤ key < kMaxKey) (concat L).*1 → Z.of_nat (length (concat L)) < 2 ^ 64 →
  user_vals w !! dst = Some [] →
  ∃ w', run_pull W ts (concat L).*1 dst None w = Ok w' ∧
    user_vals w' = <[dst := concat (concat L).*2]> (user_vals w) ∧
    recv_kvs_ w' = delete ts (recv_kvs_ w).
Proof.
  intros Hz Hrecv Hperm HF Hne Hs Hk Hlen Hdst. unfold run_pull. rewrite Hrecv. change (default [] (Some received)) with received.
  rewrite (bool_decide_eq_false_2 (is_Some None)) by (by intros [? ?]).
  rewrite check_parts_Ok by (rewrite Hperm; by apply (parts_fit L)). cbn [mbind result_bind fst snd].
  rewrite (total_perm _ _ _ Hperm), (total_keys L) by done. rewrite length_fmap, Z.eqb_refl.
  rewrite (total_perm (λ s, SArray.size (vals s)) _ _ Hperm), total_vals.
  rewrite (sort_parts_unique L parts) by done. rewrite Hdst, (concat_vals L) by done.
  change (default [] (Some [])) with (@nil V). rewrite bool_decide_eq_true_2 by done. cbn [orb].
  change (is_worker_zpull_ (w <| recv_kvs_ ::= delete ts |>)) with (is_worker_zpull_ w). rewrite Hz.
  eexists. split; [reflexivity|]. split; [|reflexivity].
  unfold resize_empty, overwrite. rewrite decide_True by done. rewrite Nat2Z.id.
  rewrite drop_ge, app_nil_r by (by rewrite length_replicate). done.
Qed.
End pull.

(** Two parts that arrive in the wrong order. *)
Definition demo_part (l : list (Z * list Z)) : KVPairs.t Z :=
  KVPairs.mk (SArray.mk 0 l.*1 DeviceType.CPU 0 DeviceType.CPU 0)
    (SArray.mk 0 (concat l.*2) DeviceType.CPU 0 DeviceType.CPU 0)
    (SArray.mk 0 (map (λ vs, Z.of_nat (length vs)) l.*2) DeviceType.CPU 0 DeviceType.CPU 0).
Definition demo_first : list (Z * list Z) := [(1, [10; 11]); (7, [])].
Definition demo_second : list (Z * list Z) := [(2 ^ 63, [12])].
Definition demo_puller : KVWorker.t Z :=
  demo_worker <| recv_kvs_ := {[0 := [demo_part demo_second; demo_part demo_first]]} |>
    <| user_vals := {[3%nat := []]} |>.

Lemma pull_reassembles_witness :
  ∃ w', run_pull wire_int 0 [1; 7; 2 ^ 63] 3 None demo_puller = Ok w' ∧
    user_vals w' = <[3%nat := [10; 11; 12]]> (user_vals demo_puller) ∧
    recv_kvs_ w' = delete 0 (recv_kvs_ demo_puller).
Proof.
  apply (pull_reassembles wire_int demo_puller 0 [demo_first; demo_second]
    [demo_part demo_first; demo_part demo_second] [demo_part demo_second; demo_part demo_first] 3);
    [done|done|apply Permutation_swap| | | | |done|done].
  - constructor; [|constructor; [|constructor]]; (split; [done|]; split; [done|]; by left).
  - by repeat constructor.
  - repeat constructor.
  - apply (bool_decide_unpack _); vm_compute; exact I.
Defined.
