(* ===== verification/Queue.v ===== *)
(** * The message queue (include/ps/internal/threadsafe_queue.h)

    [ThreadsafeQueue]: the locked queue and, when STEPAF_BUSY_POLL_ENABLE is
    set (the default), the ring buffer whose [PushAtomic] and
    [WaitAndPopAtomic] synchronise through the two counters [head_] and
    [tail_].  Every atomic access and every access to the buffer is one step of
    a thread; the threads' steps interleave freely.  With one producer and one
    consumer the release stores and acquire loads order the accesses to the
    buffer, so interleaving is all that can happen. *)

From S2P Require Import Prelude Env.

(** [capacity_] and the length of [buffer_]. *)
Definition capacity_ : nat := Z.to_nat 32768.

Section queue.
Context {T : Type} `{!Inhabited T}.
(** The theorems hold for every capacity [cap]; the source has [capacity_]. *)
Context (cap : nat).

Record ring : Type := mkRing { buffer_ : list T; head_ : nat; tail_ : nat }.

Definition ring0 : ring := mkRing (replicate cap inhabitant) 0 0.

(** ** [PushAtomic], one step at a time *)
Inductive push_state : Type :=
| PushIdle
| PushFull (new_value : T) (current_tail : nat)   (* the loop on [head_] *)
| PushWrite (new_value : T) (current_tail : nat)  (* before [buffer_[current_tail] = new_value] *)
| PushStore (new_value : T) (current_tail : nat). (* before the store to [tail_] *)

(** [const size_t current_tail = tail_.load(...)] *)
Definition push_begin (new_value : T) (q : ring) : push_state := PushFull new_value (tail_ q).

Definition push_step (q : ring) (p : push_state) : ring * push_state :=
  match p with
  | PushIdle => (q, PushIdle)
  | PushFull v cur =>
      if decide ((cur + 1) mod cap = head_ q)%nat then (q, PushFull v cur) else (q, PushWrite v cur)
  | PushWrite v cur => (mkRing (<[cur := v]> (buffer_ q)) (head_ q) (tail_ q), PushStore v cur)
  | PushStore v cur => (mkRing (buffer_ q) (head_ q) ((cur + 1) mod cap)%nat, PushIdle)
  end.

(** ** [WaitAndPopAtomic] *)
Inductive pop_state : Type :=
| PopIdle
| PopEmpty (current_head : nat) (count : nat)     (* the loop on [tail_] *)
| PopReload                                       (* before [current_head] is loaded again *)
| PopRead (current_head : nat)                    (* before [*value = buffer_[current_head]] *)
| PopStore (current_head : nat) (value : T).      (* before the store to [head_] *)

Definition max_count : nat := Z.to_nat 5000.

(** [size_t current_head = head_.load(...)] *)
Definition pop_begin (q : ring) : pop_state := PopEmpty (head_ q) 0.

Definition pop_step (q : ring) (p : pop_state) : ring * pop_state :=
  match p with
  | PopIdle => (q, PopIdle)
  | PopEmpty cur count =>
      if decide (cur = tail_ q) then
        (q, if decide (max_count < count + 1)%nat then PopReload else PopEmpty cur (count + 1))
      else (q, PopRead cur)
  | PopReload => (q, PopEmpty (head_ q) 0)
  | PopRead cur => (q, PopStore cur (buffer_ q !!! cur))
  | PopStore cur v => (mkRing (buffer_ q) ((cur + 1) mod cap)%nat (tail_ q), PopIdle)
  end.

(** [SizeAtomic]: the thread that asks loads [tail_] in one state of the ring and
    [head_] in a later one; steps of the others may come between the two loads. *)
Definition SizeAtomic (at_tail at_head : ring) : nat :=
  let current_tail := tail_ at_tail in
  let current_head := head_ at_head in
  if decide (current_head ≤ current_tail)%nat then (current_tail - current_head)%nat
  else (cap - (current_head - current_tail))%nat.

(** ** The locked queue *)
Definition Push_locked (new_value : T) (queue_ : list T) : list T := queue_ ++ [new_value].
Definition WaitAndPop_locked (queue_ : list T) : option (T * list T) :=
  match queue_ with
  | [] => None                                    (* waits *)
  | v :: queue_ => Some (v, queue_)
  end.

(** ** Threads *)

(** The queue with the producers and consumers at work on it; [pushed] and
    [popped] record the values of the completed calls. *)
Record system : Type := mkSystem {
  queue : ring;
  producer : nat → push_state;
  consumer : nat → pop_state;
  pushed : list T;
  popped : list T
}.


Definition start : system := mkSystem ring0 (λ _, PushIdle) (λ _, PopIdle) [] [].

Definition push_done (p : push_state) : list T :=
  match p with PushStore v _ => [v] | _ => [] end.
Definition pop_done (p : pop_state) : list T :=
  match p with PopStore _ v => [v] | _ => [] end.

(** One step of producer [i] or consumer [j], out of [np] and [nc]. *)
Definition run_producer (i : nat) (s : system) : system :=
  let '(q, p) := push_step (queue s) (producer s i) in
  mkSystem q (upd (producer s) i p) (consumer s) (pushed s ++ push_done (producer s i)) (popped s).
Definition run_consumer (j : nat) (s : system) : system :=
  let '(q, c) := pop_step (queue s) (consumer s j) in
  mkSystem q (producer s) (upd (consumer s) j c) (pushed s) (popped s ++ pop_done (consumer s j)).
Definition begin_push (i : nat) (v : T) (s : system) : system :=
  mkSystem (queue s) (upd (producer s) i (push_begin v (queue s))) (consumer s) (pushed s) (popped s).
Definition begin_pop (j : nat) (s : system) : system :=
  mkSystem (queue s) (producer s) (upd (consumer s) j (pop_begin (queue s))) (pushed s) (popped s).

Inductive step (np nc : nat) : system → system → Prop :=
| step_begin_push i v s : (i < np)%nat → producer s i = PushIdle → step np nc s (begin_push i v s)
| step_push i s : (i < np)%nat → producer s i ≠ PushIdle → step np nc s (run_producer i s)
| step_begin_pop j s : (j < nc)%nat → consumer s j = PopIdle → step np nc s (begin_pop j s)
| step_pop j s : (j < nc)%nat → consumer s j ≠ PopIdle → step np nc s (run_consumer j s).

Definition reachable (np nc : nat) (s : system) : Prop := rtc (step np nc) start s.

(** ** The values in the ring *)
Definition len (q : ring) : nat := ((tail_ q + cap - head_ q) mod cap)%nat.
Definition contents (q : ring) : list T :=
  map (λ k, buffer_ q !!! ((head_ q + k) mod cap)%nat) (seq 0 (len q)).

Definition ring_ok (q : ring) : Prop :=
  length (buffer_ q) = cap ∧ (head_ q < cap)%nat ∧ (tail_ q < cap)%nat.

Lemma mod_wrap x : (0 < cap)%nat → (x < 2 * cap)%nat →
  (x mod cap = if decide (x < cap) then x else x - cap)%nat.
Proof.
  intros Hc Hx. case_decide; [by apply Nat.mod_small|].
  replace x with ((x - cap) + 1 * cap)%nat at 1 by lia. rewrite Nat.Div0.mod_add.
  apply Nat.mod_small. lia.
Qed.

Ltac ring_lia := unfold len; rewrite !mod_wrap by lia; repeat case_decide; lia.

Lemma ring_empty q : ring_ok q → head_ q = tail_ q ↔ len q = 0%nat.
Proof. intros (_ & Hh & Ht). ring_lia. Qed.

Lemma ring_full q : (1 < cap)%nat → ring_ok q →
  ((tail_ q + 1) mod cap = head_ q ↔ S (len q) = cap)%nat.
Proof. intros Hc (_ & Hh & Ht). ring_lia. Qed.

Lemma ring_size q : ring_ok q → SizeAtomic q q = len q.
Proof. intros (_ & Hh & Ht). unfold SizeAtomic. ring_lia. Qed.

Lemma ring_slot q k : ring_ok q → (k < len q)%nat → ((head_ q + k) mod cap ≠ tail_ q)%nat.
Proof.
  intros (_ & Hh & Ht) Hk. assert (len q < cap)%nat by (apply Nat.mod_upper_bound; lia).
  assert (k < cap)%nat by lia. revert Hk. ring_lia.
Qed.

Lemma ring_next q : ring_ok q → ((head_ q + len q) mod cap = tail_ q)%nat.
Proof.
  intros (_ & Hh & Ht). unfold len. rewrite Nat.Div0.add_mod_idemp_r.
  replace (head_ q + (tail_ q + cap - head_ q))%nat with (tail_ q + 1 * cap)%nat by lia.
  rewrite Nat.Div0.mod_add. by apply Nat.mod_small.
Qed.

(** Writing the free slot does not touch the values. *)
Lemma contents_write q v :
  ring_ok q → contents (mkRing (<[tail_ q := v]> (buffer_ q)) (head_ q) (tail_ q)) = contents q.
Proof.
  intros Hq. unfold contents, len. simpl. apply map_ext_in. intros k Hk%in_seq.
  rewrite list_lookup_total_insert_ne; [done|]. apply not_eq_sym, ring_slot; [done|]. unfold len. lia.
Qed.

(** Advancing [tail_] adds the value of the slot. *)
Lemma contents_push q :
  ring_ok q → (S (len q) < cap)%nat →
  contents (mkRing (buffer_ q) (head_ q) ((tail_ q + 1) mod cap)) =
  contents q ++ [buffer_ q !!! tail_ q].
Proof.
  intros Hq Hf. pose proof Hq as (_ & Hh & Ht).
  assert (len (mkRing (buffer_ q) (head_ q) ((tail_ q + 1) mod cap)) = S (len q)) as E.
  { pose proof (Nat.mod_upper_bound (tail_ q + 1) cap ltac:(lia)).
    revert Hf. unfold len. simpl. ring_lia. }
  unfold contents. rewrite E, seq_S, map_app. simpl. by rewrite ring_next.
Qed.

(** Advancing [head_] takes the first value away. *)
Lemma contents_pop q :
  ring_ok q → (0 < len q)%nat →
  contents q = buffer_ q !!! head_ q ::
    contents (mkRing (buffer_ q) ((head_ q + 1) mod cap) (tail_ q)).
Proof.
  intros Hq Hl. pose proof Hq as (_ & Hh & Ht).
  assert (len q = S (len (mkRing (buffer_ q) ((head_ q + 1) mod cap) (tail_ q)))) as E.
  { pose proof (Nat.mod_upper_bound (head_ q + 1) cap ltac:(lia)).
    revert Hl. unfold len. simpl. ring_lia. }
  unfold contents. rewrite E. simpl. rewrite Nat.add_0_r, Nat.mod_small by done. f_equal.
  rewrite <- seq_shift, map_map. apply map_ext. intros k. f_equal.
  rewrite Nat.Div0.add_mod_idemp_l. f_equal. lia.
Qed.

(** ** One producer and one consumer *)
Definition push_ok (q : ring) (p : push_state) : Prop :=
  match p with
  | PushIdle => True
  | PushFull _ cur => cur = tail_ q
  | PushWrite _ cur => cur = tail_ q ∧ (S (len q) < cap)%nat
  | PushStore v cur => cur = tail_ q ∧ (S (len q) < cap)%nat ∧ buffer_ q !!! cur = v
  end.

Definition pop_ok (q : ring) (c : pop_state) : Prop :=
  match c with
  | PopIdle | PopReload => True
  | PopEmpty cur _ => cur = head_ q
  | PopRead cur => cur = head_ q ∧ (0 < len q)%nat
  | PopStore cur v => cur = head_ q ∧ (0 < len q)%nat ∧ buffer_ q !!! cur = v
  end.

Record inv (s : system) : Prop := {
  inv_ring : ring_ok (queue s);
  inv_fifo : pushed s = popped s ++ contents (queue s);
  inv_push : push_ok (queue s) (producer s 0);
  inv_pop : pop_ok (queue s) (consumer s 0)
}.

Lemma length_contents q : length (contents q) = len q.
Proof. unfold contents. by rewrite length_map, length_seq. Qed.


Lemma inv_start : (1 < cap)%nat → inv start.
Proof.
  intros Hc. assert (ring_ok ring0) as Hr by (split; [apply length_replicate|]; simpl; lia).
  split; simpl; try done. unfold contents.
  by rewrite (proj1 (ring_empty ring0 Hr) eq_refl).
Qed.

Lemma inv_push_step s : (1 < cap)%nat → inv s → inv (run_producer 0 s).
Proof.
  intros Hc [Hr Hf Hp Hk]. pose proof Hr as (Hb & Hh & Ht). unfold run_producer.
  destruct (producer s 0) as [|v cur|v cur|v cur] eqn:Ep; simpl in *; rewrite ?app_nil_r.
  - by split; simpl; rewrite ?upd_eq.
  - subst cur. case_decide as Hfull; (split; simpl; rewrite ?upd_eq; try done).
    split; [done|]. pose proof (ring_full (queue s) Hc Hr).
    assert (len (queue s) < cap)%nat by (apply Nat.mod_upper_bound; lia). lia.
  - destruct Hp as [-> Hlen]. pose proof (contents_write (queue s) v Hr) as Hw.
    split; simpl; rewrite ?upd_eq, ?Hw; try done.
    + split; [|done]. simpl. by rewrite length_insert.
    + split; [done|]. split; [done|]. by apply list_lookup_total_insert_eq; rewrite Hb.
    + destruct (consumer s 0) as [| | |cur|cur w]; try done. simpl in *.
      destruct Hk as (-> & Hl & Hw'). split; [done|]. split; [done|].
      rewrite list_lookup_total_insert_ne; [done|]. pose proof (ring_empty (queue s) Hr). lia.
  - destruct Hp as (-> & Hlen & Hv). pose proof (contents_push (queue s) Hr Hlen) as Hpush.
    assert (len (mkRing (buffer_ (queue s)) (head_ (queue s)) ((tail_ (queue s) + 1) mod cap)) = S (len (queue s))) as El.
    { rewrite <- !length_contents, Hpush, length_app. simpl. lia. }
    split; simpl; rewrite ?upd_eq; try done.
    + split; [done|]. split; [done|]. simpl. apply Nat.mod_upper_bound. lia.
    + by rewrite Hf, Hpush, Hv, app_assoc.
    + destruct (consumer s 0); try done; simpl in *; rewrite El; intuition lia.
Qed.

Lemma inv_pop_step s : (1 < cap)%nat → inv s → inv (run_consumer 0 s).
Proof.
  intros Hc [Hr Hf Hp Hk]. pose proof Hr as (Hb & Hh & Ht). unfold run_consumer.
  destruct (consumer s 0) as [|cur count| |cur|cur v] eqn:Ec; simpl in *; rewrite ?app_nil_r.
  - by split; simpl; rewrite ?upd_eq.
  - subst cur. case_decide as He; (split; simpl; rewrite ?upd_eq; try done).
    + by case_decide.
    + split; [done|]. pose proof (ring_empty (queue s) Hr). lia.
  - by split; simpl; rewrite ?upd_eq.
  - destruct Hk as [-> Hl]. by split; simpl; rewrite ?upd_eq.
  - destruct Hk as (-> & Hl & Hv). pose proof (contents_pop (queue s) Hr Hl) as Hpop.
    assert (len (queue s) = S (len (mkRing (buffer_ (queue s)) ((head_ (queue s) + 1) mod cap) (tail_ (queue s))))) as El.
    { rewrite <- !length_contents, Hpop. done. }
    split; simpl; rewrite ?upd_eq; try done.
    + split; [done|]. split; [|done]. simpl. apply Nat.mod_upper_bound. lia.
    + by rewrite Hf, Hpop, Hv, <- app_assoc.
    + destruct (producer s 0); try done; simpl in *; intuition lia.
Qed.

Lemma queue_reachable_inv s : (1 < cap)%nat → reachable 1 1 s → inv s.
Proof.
  intros Hc. apply (rtc_ind_r inv); [by apply inv_start|].
  intros s1 s2 _ Hstep [Hr Hf Hp Hk].
  destruct Hstep as [i v s1 Hi Hidle|i s1 Hi Hidle|i s1 Hi Hidle|i s1 Hi Hidle];
    assert (i = 0%nat) as -> by lia.
  - split; simpl; rewrite ?upd_eq; try done.
  - by apply inv_push_step.
  - split; simpl; rewrite ?upd_eq; try done.
  - by apply inv_pop_step.
Qed.

(** The two counters tell how many values were pushed and popped. *)
Definition counted (s : system) : Prop :=
  tail_ (queue s) = (length (pushed s) mod cap)%nat ∧ head_ (queue s) = (length (popped s) mod cap)%nat.

Lemma mod_succ n : ((n mod cap + 1) mod cap = (n + 1) mod cap)%nat.
Proof. by rewrite Nat.Div0.add_mod_idemp_l. Qed.

Lemma queue_reachable_counted s : (1 < cap)%nat → reachable 1 1 s → counted s.
Proof.
  intros Hc. apply (rtc_ind_r counted); [by unfold counted; cbn; rewrite Nat.Div0.mod_0_l|].
  intros s1 s2 Hr Hstep [Ht Hh].
  pose proof (queue_reachable_inv s1 Hc Hr) as [_ _ Hp Hk].
  destruct Hstep as [i v s1 Hi _|i s1 Hi _|i s1 Hi _|i s1 Hi _]; assert (i = 0%nat) as -> by lia; try done;
    unfold run_producer, run_consumer, counted.
  - destruct (producer s1 0) as [|v cur|v cur|v cur]; cbn in *; rewrite ?app_nil_r; try done.
    + by case_decide.
    + destruct Hp as (-> & _). by rewrite length_app, Ht, mod_succ.
  - destruct (consumer s1 0) as [|cur count| |cur|cur v]; cbn in *; rewrite ?app_nil_r; try done.
    + by case_decide.
    + destruct Hk as (-> & _). by rewrite length_app, Hh, mod_succ.
Qed.

(** The difference of two counters, taken modulo the capacity. *)
Lemma SizeAtomic_mod s1 s2 :
  (1 < cap)%nat → counted s1 → counted s2 →
  Z.of_nat (SizeAtomic (queue s1) (queue s2)) =
  (Z.of_nat (length (pushed s1)) - Z.of_nat (length (popped s2))) mod Z.of_nat cap.
Proof.
  intros Hc [Ht _] [_ Hh]. unfold SizeAtomic. rewrite Ht, Hh.
  set (a := length (pushed s1)). set (b := length (popped s2)).
  pose proof (Nat.mod_upper_bound a cap ltac:(lia)). pose proof (Nat.mod_upper_bound b cap ltac:(lia)).
  rewrite Zminus_mod, <- !Nat2Z.inj_mod. case_decide.
  - rewrite Z.mod_small by lia. lia.
  - rewrite <- (Z_mod_plus_full _ 1), Z.mod_small by lia. lia.
Qed.

Lemma popped_grows s1 s2 : rtc (step 1 1) s1 s2 → (length (popped s1) ≤ length (popped s2))%nat.
Proof.
  induction 1 as [|s1 s2 s3 Hst _ IH]; [done|]. etransitivity; [|exact IH].
  destruct Hst as [i v s i_lt Hi|i s i_lt Hi|i s i_lt Hi|i s i_lt Hi]; cbn; try done;
    unfold run_producer, run_consumer; case_match; cbn; rewrite ?length_app; lia.
Qed.

(** C13. The ring is a queue: with one producer and one consumer, in every
    interleaving, the values popped so far are the values pushed so far in
    order, except for those still in the ring, which are fewer than the capacity;
    nothing is lost, repeated or overwritten.  [SizeAtomic], whose two loads see
    the ring in the states [s1] and [s], is the number of values pushed at the
    first load less those popped at the second, modulo the capacity: exact when
    nothing comes between, and the number of values of [s1] that still wait as
    long as no later value was popped. *)
Theorem queue_fifo s1 s :
  (1 < cap)%nat → reachable 1 1 s1 → rtc (step 1 1) s1 s →
  ∃ waiting, pushed s = popped s ++ waiting ∧ (length waiting < cap)%nat ∧
    SizeAtomic (queue s) (queue s) = length waiting ∧
    Z.of_nat (SizeAtomic (queue s1) (queue s)) =
      (Z.of_nat (length (pushed s1)) - Z.of_nat (length (popped s))) mod Z.of_nat cap ∧
    ((length (popped s) ≤ length (pushed s1))%nat →
     SizeAtomic (queue s1) (queue s) = (length (pushed s1) - length (popped s))%nat).
Proof.
  intros Hc H1 H12. assert (reachable 1 1 s) as Hs by (unfold reachable in *; by transitivity s1).
  pose proof (queue_reachable_inv s Hc Hs) as [Hr Hf _ _].
  pose proof (queue_reachable_inv s1 Hc H1) as [Hr1 Hf1 _ _].
  pose proof (SizeAtomic_mod s1 s Hc (queue_reachable_counted s1 Hc H1) (queue_reachable_counted s Hc Hs)) as Hm.
  exists (contents (queue s)). rewrite length_contents, ring_size by done. split_and!; try done.
  - apply Nat.mod_upper_bound. lia.
  - intros Hle. pose proof (popped_grows s1 s H12).
    assert (length (pushed s1) < length (popped s1) + cap)%nat.
    { rewrite Hf1, length_app, length_contents. pose proof (Nat.mod_upper_bound (tail_ (queue s1) + cap - head_ (queue s1)) cap ltac:(lia)).
      unfold len. lia. }
    rewrite Z.mod_small in Hm by lia. lia.
Qed.

(** The number of steps a call under way needs at most. *)
Definition pop_left (c : pop_state) : nat :=
  match c with PopIdle => 0 | PopStore _ _ => 1 | PopRead _ => 2 | PopEmpty _ _ => 3 | PopReload => 4 end.
Definition push_left (p : push_state) : nat :=
  match p with PushIdle => 0 | PushStore _ _ => 1 | PushWrite _ _ => 2 | PushFull _ _ => 3 end.

Lemma pop_advances s v q :
  inv s → contents (queue s) = v :: q → consumer s 0 ≠ PopIdle →
  popped (run_consumer 0 s) = popped s ++ [v] ∨
  popped (run_consumer 0 s) = popped s ∧ queue (run_consumer 0 s) = queue s ∧
    S (pop_left (consumer (run_consumer 0 s) 0)) = pop_left (consumer s 0) ∧
    consumer (run_consumer 0 s) 0 ≠ PopIdle.
Proof.
  intros [Hr Hf Hp Hk] Hv Hidle.
  assert (0 < len (queue s))%nat as Hl by (rewrite <- length_contents, Hv; simpl; lia).
  pose proof (contents_pop (queue s) Hr Hl) as Hpop. rewrite Hv in Hpop. injection Hpop as Hvv _.
  pose proof (ring_empty (queue s) Hr) as He. unfold run_consumer.
  destruct (consumer s 0) as [|cur count| |cur|cur w]; simpl in Hk |- *; [done| | | |].
  - subst cur. rewrite decide_False by lia. right. simpl. rewrite upd_eq. by rewrite app_nil_r.
  - right. rewrite upd_eq. by rewrite app_nil_r.
  - right. rewrite upd_eq. by rewrite app_nil_r.
  - destruct Hk as (-> & _ & Hw). left. by rewrite Hvv, Hw.
Qed.

Lemma pop_finishes s v q :
  (1 < cap)%nat → inv s → contents (queue s) = v :: q → consumer s 0 ≠ PopIdle →
  ∃ n, (n ≤ pop_left (consumer s 0))%nat ∧ popped (Nat.iter n (run_consumer 0) s) = popped s ++ [v].
Proof.
  intros Hc. remember (pop_left (consumer s 0)) as k eqn:Ek. revert s Ek.
  induction k as [|k IH]; intros s Ek Hi Hv Hidle; [by destruct (consumer s 0)|].
  destruct (pop_advances s v q Hi Hv Hidle) as [Hd|(Hp & Hq & Hk & Hn)].
  - exists 1%nat. split; [lia|done].
  - destruct (IH (run_consumer 0 s)) as (n & Hle & Hd); [lia|by apply inv_pop_step|by rewrite Hq|done|].
    exists (S n). split; [lia|]. by rewrite Nat.iter_succ_r, Hd, Hp.
Qed.

Lemma push_advances s :
  (1 < cap)%nat → inv s → (S (len (queue s)) < cap)%nat → producer s 0 ≠ PushIdle →
  (∃ v, pushed (run_producer 0 s) = pushed s ++ [v]) ∨
  pushed (run_producer 0 s) = pushed s ∧ len (queue (run_producer 0 s)) = len (queue s) ∧
    S (push_left (producer (run_producer 0 s) 0)) = push_left (producer s 0) ∧
    producer (run_producer 0 s) 0 ≠ PushIdle.
Proof.
  intros Hc [Hr Hf Hp Hk] Hfree Hidle. pose proof (ring_full (queue s) Hc Hr) as He.
  unfold run_producer. destruct (producer s 0) as [|v cur|v cur|v cur]; simpl in Hp |- *; [done| | |].
  - subst cur. rewrite decide_False by lia. right. simpl. rewrite upd_eq. by rewrite app_nil_r.
  - right. rewrite upd_eq. by rewrite app_nil_r.
  - left. by exists v.
Qed.

Lemma push_finishes s :
  (1 < cap)%nat → inv s → (S (len (queue s)) < cap)%nat → producer s 0 ≠ PushIdle →
  ∃ n v, (n ≤ push_left (producer s 0))%nat ∧ pushed (Nat.iter n (run_producer 0) s) = pushed s ++ [v].
Proof.
  intros Hc. remember (push_left (producer s 0)) as k eqn:Ek. revert s Ek.
  induction k as [|k IH]; intros s Ek Hi Hv Hidle; [by destruct (producer s 0)|].
  destruct (push_advances s Hc Hi Hv Hidle) as [[v Hd]|(Hp & Hq & Hk & Hn)].
  - exists 1%nat, v. split; [lia|done].
  - destruct (IH (run_producer 0 s)) as (n & v & Hle & Hd); [lia|by apply inv_push_step|by rewrite Hq|done|].
    exists (S n), v. split; [lia|]. by rewrite Nat.iter_succ_r, Hd, Hp.
Qed.

(** C36. The ring does not block: a pop under way finishes within four steps of
    its own when a value is waiting, with the oldest value, and a push under way
    within three when the ring is not full, whatever the other side was doing. *)
Theorem queue_progress s :
  (1 < cap)%nat → reachable 1 1 s →
  (∀ v q, pushed s = popped s ++ v :: q → consumer s 0 ≠ PopIdle →
     ∃ n, (n ≤ 4)%nat ∧ popped (Nat.iter n (run_consumer 0) s) = popped s ++ [v]) ∧
  (producer s 0 ≠ PushIdle → (S (length (pushed s) - length (popped s)) < cap)%nat →
     ∃ n v, (n ≤ 3)%nat ∧ pushed (Nat.iter n (run_producer 0) s) = pushed s ++ [v]).
Proof.
  intros Hc Hs. pose proof (queue_reachable_inv s Hc Hs) as Hi. pose proof Hi as [Hr Hf _ _]. split.
  - intros v q Hv Hidle. rewrite Hf in Hv. apply app_inv_head in Hv.
    destruct (pop_finishes s v q Hc Hi Hv Hidle) as (n & Hn & Hd). exists n. split; [|done].
    destruct (consumer s 0); simpl in Hn; lia.
  - intros Hidle Hfull. rewrite Hf, length_app, length_contents in Hfull.
    replace (length (popped s) + len (queue s) - length (popped s))%nat with (len (queue s)) in Hfull by lia.
    destruct (push_finishes s Hc Hi Hfull Hidle) as (n & v & Hn & Hd). exists n, v. split; [|done].
    destruct (producer s 0); simpl in Hn; lia.
Qed.

Lemma producer_steps np nc i s v cur :
  (i < np)%nat → producer s i = PushFull v cur → ((cur + 1) mod cap ≠ head_ (queue s))%nat →
  step np nc s (mkSystem (queue s) (upd (producer s) i (PushWrite v cur)) (consumer s) (pushed s) (popped s)).
Proof.
  intros Hi Hp Hf. pose proof (step_push np nc i s Hi) as H. unfold run_producer in H.
  rewrite Hp in H. simpl in H. rewrite decide_False, app_nil_r in H by done. by apply H.
Qed.

Lemma producer_writes np nc i s v cur :
  (i < np)%nat → producer s i = PushWrite v cur →
  step np nc s (mkSystem (mkRing (<[cur := v]> (buffer_ (queue s))) (head_ (queue s)) (tail_ (queue s)))
    (upd (producer s) i (PushStore v cur)) (consumer s) (pushed s) (popped s)).
Proof.
  intros Hi Hp. pose proof (step_push np nc i s Hi) as H. unfold run_producer in H.
  rewrite Hp in H. simpl in H. rewrite app_nil_r in H. by apply H.
Qed.

Lemma producer_stores np nc i s v cur :
  (i < np)%nat → producer s i = PushStore v cur →
  step np nc s (mkSystem (mkRing (buffer_ (queue s)) (head_ (queue s)) ((cur + 1) mod cap))
    (upd (producer s) i PushIdle) (consumer s) (pushed s ++ [v]) (popped s)).
Proof.
  intros Hi Hp. pose proof (step_push np nc i s Hi) as H. unfold run_producer in H.
  rewrite Hp in H. simpl in H. by apply H.
Qed.

(** Evaluate the fields of a system after a step. *)
Ltac norm_system :=
  cbn [queue producer consumer pushed popped begin_push buffer_ head_ tail_ start app].

(** Two producers lose a value: when two threads push at the same time, both
    calls can return and only one of the two values is in the queue. *)
Theorem queue_two_producers_lose (a b : T) :
  (1 < cap)%nat →
  ∃ s, reachable 2 1 s ∧ pushed s = [a; b] ∧ popped s = [] ∧
    producer s 0 = PushIdle ∧ producer s 1 = PushIdle ∧
    SizeAtomic (queue s) (queue s) = 1%nat ∧ contents (queue s) = [b].
Proof.
  intros Hc. assert ((0 + 1) mod cap = 1)%nat as E by (apply Nat.mod_small; lia).
  eexists. split.
  { eapply rtc_l; [apply (step_begin_push 2 1 0 a); [lia|done]|]. norm_system.
    eapply rtc_l; [apply (step_begin_push 2 1 1 b); [lia|done]|]. norm_system.
    eapply rtc_l; [eapply (producer_steps 2 1 0); [lia|reflexivity|change ((0 + 1) mod cap ≠ 0)%nat; lia]|]. norm_system.
    eapply rtc_l; [eapply (producer_steps 2 1 1); [lia|reflexivity|change ((0 + 1) mod cap ≠ 0)%nat; lia]|]. norm_system.
    eapply rtc_l; [eapply (producer_writes 2 1 0); [lia|reflexivity]|]. norm_system.
    eapply rtc_l; [eapply (producer_writes 2 1 1); [lia|reflexivity]|]. norm_system.
    eapply rtc_l; [eapply (producer_stores 2 1 0); [lia|reflexivity]|]. norm_system.
    eapply rtc_l; [eapply (producer_stores 2 1 1); [lia|reflexivity]|]. norm_system. apply rtc_refl. }
  split; [done|]. split; [done|]. split; [done|]. split; [done|].
  cbn [queue]. set (q := mkRing _ _ _).
  assert (ring_ok q) as Hq.
  { split; [simpl; by rewrite !length_insert, length_replicate|].
    unfold q. cbn [head_ tail_ begin_push queue start ring0]. rewrite E. lia. }
  assert (len q = 1%nat) as El.
  { unfold len, q. cbn [head_ tail_ begin_push queue start ring0]. rewrite E. change (1 + cap - 0)%nat with (1 + cap)%nat.
    replace (1 + cap)%nat with (1 + 1 * cap)%nat by lia. rewrite Nat.Div0.mod_add. apply Nat.mod_small. lia. }
  split; [by rewrite ring_size|]. unfold contents. rewrite El. cbn [seq map]. f_equal.
  subst q. cbn [head_ buffer_ tail_ begin_push queue start ring0]. rewrite Nat.Div0.mod_0_l.
  apply list_lookup_total_insert_eq. rewrite length_insert, length_replicate. lia.
Qed.

Lemma consumer_sees np nc j s cur count :
  (j < nc)%nat → consumer s j = PopEmpty cur count → cur ≠ tail_ (queue s) →
  step np nc s (mkSystem (queue s) (producer s) (upd (consumer s) j (PopRead cur)) (pushed s) (popped s)).
Proof.
  intros Hj Hp Hne. pose proof (step_pop np nc j s Hj) as H. unfold run_consumer in H.
  rewrite Hp in H. simpl in H. rewrite decide_False, app_nil_r in H by done. by apply H.
Qed.

Lemma consumer_reads np nc j s cur :
  (j < nc)%nat → consumer s j = PopRead cur →
  step np nc s (mkSystem (queue s) (producer s) (upd (consumer s) j (PopStore cur (buffer_ (queue s) !!! cur)))
    (pushed s) (popped s)).
Proof.
  intros Hj Hp. pose proof (step_pop np nc j s Hj) as H. unfold run_consumer in H.
  rewrite Hp in H. simpl in H. rewrite app_nil_r in H. by apply H.
Qed.

Lemma consumer_stores np nc j s cur v :
  (j < nc)%nat → consumer s j = PopStore cur v →
  step np nc s (mkSystem (mkRing (buffer_ (queue s)) ((cur + 1) mod cap) (tail_ (queue s))) (producer s)
    (upd (consumer s) j PopIdle) (pushed s) (popped s ++ [v])).
Proof.
  intros Hj Hp. pose proof (step_pop np nc j s Hj) as H. unfold run_consumer in H.
  rewrite Hp in H. simpl in H. by apply H.
Qed.

(** The count of [SizeAtomic] can be as wrong as it gets: the ring is empty at
    both loads, a value is pushed and popped between them, and the result is the
    capacity less one. *)
Theorem size_miscounts (v : T) :
  (1 < cap)%nat →
  ∃ s, rtc (step 1 1) start s ∧ contents (queue start) = [] ∧ contents (queue s) = [] ∧
    SizeAtomic (queue start) (queue s) = (cap - 1)%nat.
Proof.
  intros Hc. assert ((0 + 1) mod cap = 1)%nat as E by (apply Nat.mod_small; lia).
  assert (∃ s, rtc (step 1 1) start s ∧ pushed s = [v] ∧ length (popped s) = 1%nat) as (s & Hs & Hp & Hq).
  { eexists. split.
    { eapply rtc_l; [apply (step_begin_push 1 1 0 v); [lia|done]|]. norm_system.
      eapply rtc_l; [eapply (producer_steps 1 1 0); [lia|reflexivity|change ((0 + 1) mod cap ≠ 0)%nat; lia]|]. norm_system.
      eapply rtc_l; [eapply (producer_writes 1 1 0); [lia|reflexivity]|]. norm_system.
      eapply rtc_l; [eapply (producer_stores 1 1 0); [lia|reflexivity]|]. norm_system.
      eapply rtc_l; [apply (step_begin_pop 1 1 0); [lia|done]|]. unfold begin_pop, pop_begin. norm_system.
      eapply rtc_l; [eapply (consumer_sees 1 1 0); [lia|reflexivity|change (0 ≠ (0 + 1) mod cap)%nat; lia]|]. norm_system.
      eapply rtc_l; [eapply (consumer_reads 1 1 0); [lia|reflexivity]|]. norm_system.
      eapply rtc_l; [eapply (consumer_stores 1 1 0); [lia|reflexivity]|]. norm_system. apply rtc_refl. }
    split; reflexivity. }
  exists s. pose proof (queue_reachable_inv s Hc Hs) as [Hr Hf _ _].
  pose proof (inv_start Hc) as [_ Hf0 _ _].
  pose proof (SizeAtomic_mod start s Hc (queue_reachable_counted start Hc ltac:(apply rtc_refl)) (queue_reachable_counted s Hc Hs)) as Hm.
  rewrite Hq in Hm. change (length (pushed start)) with 0%nat in Hm.
  rewrite <- (Z_mod_plus_full _ 1), Z.mod_small in Hm by lia.
  split_and!; [done|done| |lia].
  apply (f_equal length) in Hf. rewrite Hp, length_app, Hq in Hf. cbn in Hf. apply nil_length_inv. lia.
Qed.
End queue.

(** ** Witnesses *)

(** Two values pushed, one of them popped, another push under way. *)
Definition demo_run (s : system) : system :=
  let push v s := Nat.iter 3 (run_producer 4 0) (begin_push 0 v s) in
  begin_push 0 33 (Nat.iter 3 (run_consumer 4 0) (begin_pop 0 (push 22 (push 11 s)))).

Lemma demo_reachable : reachable 4 1 1 (begin_pop 0 (demo_run (start 4))).
Proof.
  unfold demo_run. cbn [Nat.iter].
  eapply rtc_r; [|apply step_begin_pop; [lia|done]].
  eapply rtc_r; [|apply step_begin_push; [lia|done]].
  do 3 (eapply rtc_r; [|apply step_pop; [lia|done]]).
  eapply rtc_r; [|apply step_begin_pop; [lia|done]].
  do 3 (eapply rtc_r; [|apply step_push; [lia|done]]).
  eapply rtc_r; [|apply step_begin_push; [lia|done]].
  do 3 (eapply rtc_r; [|apply step_push; [lia|done]]).
  eapply rtc_r; [|apply step_begin_push; [lia|done]]. apply rtc_refl.
Qed.

(** The first load of [SizeAtomic] in the empty ring, the second after the run. *)
Lemma queue_fifo_witness :
  let s := begin_pop 0 (demo_run (start 4)) in
  ∃ waiting, pushed s = popped s ++ waiting ∧ SizeAtomic 4 (queue s) (queue s) = length waiting ∧
    Z.of_nat (SizeAtomic 4 (queue (start 4)) (queue s)) = 3.
Proof.
  intros s. destruct (queue_fifo 4 (start 4) s) as (w & H1 & _ & H2 & H3 & _); [lia|apply rtc_refl|apply demo_reachable|].
  exists w. split_and!; [done|done|]. rewrite H3. reflexivity.
Defined.

Lemma queue_progress_witness :
  let s := begin_pop 0 (demo_run (start 4)) in
  ∃ n, (n ≤ 4)%nat ∧ popped (Nat.iter n (run_consumer 4 0) s) = [11; 22].
Proof.
  intros s. destruct (queue_progress 4 s) as [H _]; [lia|apply demo_reachable|].
  apply (H 22 []); done.
Defined.

Lemma queue_two_producers_lose_witness :
  ∃ s, reachable 4 2 1 s ∧ pushed s = [1; 2] ∧ SizeAtomic 4 (queue s) (queue s) = 1%nat.
Proof.
  destruct (queue_two_producers_lose 4 1 2) as (s & H1 & H2 & _ & _ & _ & H3 & _); [lia|].
  by exists s.
Defined.
