(* ===== verification/Spsc.v ===== *)
(** * The lock-free queue and its locks (include/ps/internal/spsc_queue.h,
      include/ps/internal/threadsafe_queue.h)

    [rigtorp::SPSCQueue], a ring in raw memory whose slots hold an object only
    between [emplace] and [pop], and the paths [PushLockless] and
    [WaitAndPopLockless] of [ThreadsafeQueue], which put one lock around each end
    of it.  (The calls of these two are commented out; Queue.v is the path in
    use.)  A load of a counter that only the lock's holder writes is no step of
    its own; every other access is. *)

From S2P Require Import Prelude.

Section spsc.
Context {T : Type}.
(** [capacity_] and [kPadding] *)
Context (cap pad : nat).

(** A slot is raw memory or holds an object. *)
Record spsc : Type := mkSpsc { slots_ : list (option T); head_ : nat; tail_ : nat }.

Definition new_spsc : result spsc :=
  check! (2 <=? cap)%nat or "size < 2";
  Ok (mkSpsc (replicate (cap + 2 * pad) None) 0 0).

(** [nextHead] and [nextTail] *)
Definition next_index (i : nat) : nat := if (i + 1 =? cap)%nat then 0%nat else (i + 1)%nat.

(** [new (&slots_[i + kPadding]) T(v)], in raw memory, and the destructor of the
    object there. *)
Definition construct (i : nat) (v : T) (q : spsc) : result spsc :=
  match slots_ q !! (i + pad)%nat with
  | Some None => Ok (mkSpsc (<[(i + pad)%nat := Some v]> (slots_ q)) (head_ q) (tail_ q))
  | _ => Err (Undefined "new (&slots_[head + kPadding])")
  end.
Definition destroy (i : nat) (q : spsc) : result spsc :=
  match slots_ q !! (i + pad)%nat with
  | Some (Some _) => Ok (mkSpsc (<[(i + pad)%nat := None]> (slots_ q)) (head_ q) (tail_ q))
  | _ => Err (Undefined "slots_[tail + kPadding].~T()")
  end.

(** ** The operations, without interference *)
Definition try_emplace (v : T) (q : spsc) : result (bool * spsc) :=
  let head := head_ q in
  let nextHead := next_index head in
  if (nextHead =? tail_ q)%nat then Ok (false, q)
  else
    q ← construct head v q;
    Ok (true, mkSpsc (slots_ q) nextHead (tail_ q)).
Definition emplace (v : T) (q : spsc) : result spsc :=
  r ← try_emplace v q;
  let '(ok, q) := r in
  if (ok : bool) then Ok q else Err (Blocked "nextHead == tail_").

(** [front]; the object at the address it returns *)
Definition front (q : spsc) : result (option T) :=
  if (head_ q =? tail_ q)%nat then Ok None
  else
    match slots_ q !! (tail_ q + pad)%nat with
    | Some (Some v) => Ok (Some v)
    | _ => Err (Undefined "*front()")
    end.

Definition pop (q : spsc) : result spsc :=
  let tail := tail_ q in
  check! negb (head_ q =? tail)%nat or "assert(head_ != tail)";
  q ← destroy tail q;
  Ok (mkSpsc (slots_ q) (head_ q) (next_index tail)).

Definition size (q : spsc) : Z :=
  let diff := Z.of_nat (head_ q) - Z.of_nat (tail_ q) in
  if diff <? 0 then diff + Z.of_nat cap else diff.
Definition empty (q : spsc) : bool := size q =? 0.
Definition capacity (q : spsc) : nat := cap.

(** The destructor: every object left is destroyed; [n] bounds the loop. *)
Fixpoint drain (n : nat) (q : spsc) : result spsc :=
  o ← front q;
  match o, n with
  | None, _ => Ok q
  | Some _, S n' => q ← pop q; drain n' q
  | Some _, O => Err (Blocked "while (front())")
  end.

(** ** What the memory holds

    [l] are the values of the queue, [written] a value already constructed but
    not yet published, and [gone] tells that the first value was destroyed but
    its slot not yet given back. *)
Definition expected (l : list T) (written : option T) (gone : bool) (k : nat) : option T :=
  if gone && (k =? 0)%nat then None
  else if (k =? length l)%nat then written else l !! k.

Record core (q : spsc) (l : list T) (written : option T) (gone : bool) : Prop := {
  c_cap : (1 < cap)%nat;
  c_length : length (slots_ q) = (cap + 2 * pad)%nat;
  c_tail : (tail_ q < cap)%nat;
  c_head : head_ q = ((tail_ q + length l) mod cap)%nat;
  c_room : (length l + length (option_list written) < cap)%nat;
  c_gone : gone = true → l ≠ [];
  c_slots : ∀ k, (k < cap)%nat → slots_ q !! ((tail_ q + k) mod cap + pad)%nat = Some (expected l written gone k)
}.

Lemma next_index_mod i : (i < cap)%nat → next_index i = ((i + 1) mod cap)%nat.
Proof.
  intros Hi. unfold next_index. destruct (Nat.eqb_spec (i + 1) cap) as [->|]; [by rewrite Nat.Div0.mod_same|].
  rewrite Nat.mod_small; lia.
Qed.

Lemma mod_cases x : (x < 2 * cap)%nat → (x mod cap = if decide (x < cap) then x else x - cap)%nat.
Proof.
  intros Hx. case_decide; [by apply Nat.mod_small|].
  replace x with ((x - cap) + 1 * cap)%nat at 1 by lia. rewrite Nat.Div0.mod_add. apply Nat.mod_small. lia.
Qed.

(** Different places of the ring are different slots. *)
Lemma place_inj t k k' : (t < cap)%nat → (k < cap)%nat → (k' < cap)%nat → ((t + k) mod cap = (t + k') mod cap)%nat → k = k'.
Proof. intros ???. rewrite !mod_cases by lia. repeat case_decide; lia. Qed.

Lemma core_full q l written gone :
  core q l written gone → next_index (head_ q) = tail_ q ↔ S (length l) = cap.
Proof.
  intros [Hc Hl Ht Hh Hr _ _]. rewrite Hh. rewrite next_index_mod by (apply Nat.mod_upper_bound; lia).
  rewrite Nat.Div0.add_mod_idemp_l. destruct written; rewrite mod_cases by lia; case_decide; lia.
Qed.

Lemma core_empty q l written gone : core q l written gone → head_ q = tail_ q ↔ l = [].
Proof.
  intros [Hc Hl Ht Hh Hr _ _]. rewrite Hh. destruct l as [|x l]; simpl in *.
  - rewrite Nat.add_0_r, Nat.mod_small by done. done.
  - split; [|done]. destruct written; rewrite mod_cases by lia; case_decide; lia.
Qed.

Lemma core_write q l written gone written' gone' k x :
  core q l written gone → (k < cap)%nat → (length l + length (option_list written') < cap)%nat →
  (gone' = true → l ≠ []) → expected l written' gone' k = x →
  (∀ k', (k' < cap)%nat → k' ≠ k → expected l written' gone' k' = expected l written gone k') →
  core (mkSpsc (<[((tail_ q + k) mod cap + pad)%nat := x]> (slots_ q)) (head_ q) (tail_ q)) l written' gone'.
Proof.
  intros [Hc Hl Ht Hh Hr Hg Hs] Hk Hr' Hg' Hx Hother. split; simpl; try done; [by rewrite length_insert|].
  intros k' Hk'. destruct (decide (k' = k)) as [->|Hne].
  - rewrite Hx. apply list_lookup_insert_eq. rewrite Hl. pose proof (Nat.mod_upper_bound (tail_ q + k) cap). lia.
  - rewrite Hother by done. rewrite list_lookup_insert_ne; [by apply Hs|]. intros E.
    apply Hne, (place_inj (tail_ q)); [done..|]. lia.
Qed.

Lemma core_construct q l gone v :
  core q l None gone → (S (length l) < cap)%nat →
  ∃ q', construct (head_ q) v q = Ok q' ∧ core q' l (Some v) gone ∧ head_ q' = head_ q ∧ tail_ q' = tail_ q.
Proof.
  intros Hcore Hroom. pose proof Hcore as [Hc Hl Ht Hh Hr Hg Hs].
  assert (expected l None gone (length l) = None) as He.
  { unfold expected. destruct (gone && _) eqn:E; [done|]. by rewrite Nat.eqb_refl. }
  unfold construct. rewrite Hh, (Hs (length l)), He by lia. eexists. split; [reflexivity|]. split; [|done].
  rewrite <-Hh. rewrite Hh at 1. apply (core_write q l None gone); try done; simpl; [lia|lia| |].
  - unfold expected. rewrite Nat.eqb_refl. destruct gone; [|done]. destruct l; [by destruct Hg|done].
  - intros k' _ Hne. unfold expected. by rewrite (proj2 (Nat.eqb_neq _ _) Hne).
Qed.

Lemma core_publish q l gone v :
  core q l (Some v) gone → core (mkSpsc (slots_ q) (next_index (head_ q)) (tail_ q)) (l ++ [v]) None gone.
Proof.
  intros [Hc Hl Ht Hh Hr Hg Hs]. simpl in Hr. split; simpl; try done; rewrite ?length_app; simpl; try lia.
  - rewrite Hh, next_index_mod by (apply Nat.mod_upper_bound; lia). rewrite Nat.Div0.add_mod_idemp_l. f_equal. lia.
  - intros _ E. by apply app_eq_nil in E as [_ ?].
  - intros k Hk. rewrite Hs by done. f_equal. unfold expected. destruct (gone && _); [done|]. rewrite length_app. simpl.
    destruct (Nat.eqb_spec k (length l)) as [->|Hne].
    + rewrite (proj2 (Nat.eqb_neq _ _)) by lia. by rewrite lookup_app_r, Nat.sub_diag by lia.
    + destruct (Nat.eqb_spec k (length l + 1)) as [->|Hne']; [apply lookup_ge_None_2; lia|].
      destruct (decide (k < length l)%nat); [by rewrite lookup_app_l|]. rewrite !lookup_ge_None_2; [done|rewrite length_app; simpl; lia|lia].
Qed.

Lemma core_first q v l written :
  core q (v :: l) written false → slots_ q !! (tail_ q + pad)%nat = Some (Some v).
Proof.
  intros [Hc Hl Ht Hh Hr Hg Hs]. rewrite <-(Nat.mod_small (tail_ q) cap) by done.
  rewrite <-(Nat.add_0_r (tail_ q)) at 1. rewrite Hs by lia. done.
Qed.

Lemma core_destroy q v l written :
  core q (v :: l) written false →
  ∃ q', destroy (tail_ q) q = Ok q' ∧ core q' (v :: l) written true ∧ head_ q' = head_ q ∧ tail_ q' = tail_ q.
Proof.
  intros Hcore. pose proof Hcore as [Hc Hl Ht Hh Hr Hg Hs]. unfold destroy. rewrite (core_first _ _ _ _ Hcore).
  eexists. split; [reflexivity|]. split; [|done]. rewrite <-(Nat.mod_small (tail_ q) cap) at 1 by done.
  rewrite <-(Nat.add_0_r (tail_ q)) at 1. apply (core_write q (v :: l) written false); try done; [lia|].
  intros k' _ Hne. unfold expected. by rewrite (proj2 (Nat.eqb_neq k' 0)), andb_false_r.
Qed.

Lemma core_release q v l written :
  core q (v :: l) written true → core (mkSpsc (slots_ q) (head_ q) (next_index (tail_ q))) l written false.
Proof.
  intros [Hc Hl Ht Hh Hr Hg Hs]. cbn [length] in *.
  assert (next_index (tail_ q) < cap)%nat as Hn by (rewrite next_index_mod by done; apply Nat.mod_upper_bound; lia).
  split; simpl; try done; [|lia|].
  - rewrite Hh, next_index_mod, Nat.Div0.add_mod_idemp_l by done. f_equal. lia.
  - intros k Hk. rewrite next_index_mod, Nat.Div0.add_mod_idemp_l by done. destruct (decide (S k = cap)) as [E|Hne].
    + replace (tail_ q + 1 + k)%nat with (tail_ q + 0 + 1 * cap)%nat by lia. rewrite Nat.Div0.mod_add, Hs by lia.
      f_equal. unfold expected. simpl. rewrite (proj2 (Nat.eqb_neq _ _)) by lia. symmetry. apply lookup_ge_None_2. lia.
    + replace (tail_ q + 1 + k)%nat with (tail_ q + S k)%nat by lia. rewrite Hs by lia. done.
Qed.

(** ** The queue on its own *)
Definition holds (q : spsc) (l : list T) : Prop := core q l None false.

Lemma holds_new q : new_spsc = Ok q → holds q [].
Proof.
  unfold new_spsc. destruct (2 <=? cap)%nat eqn:E; [|done]. apply Nat.leb_le in E. intros [= <-].
  split; simpl; rewrite ?length_replicate; try done; try lia; [by rewrite Nat.Div0.mod_0_l|].
  intros k Hk. rewrite lookup_replicate_2 by (pose proof (Nat.mod_upper_bound k cap); lia). f_equal. unfold expected. simpl.
  destruct k; [done|]. by rewrite lookup_nil.
Qed.

Lemma try_emplace_holds q l v :
  holds q l →
  (S (length l) = cap → try_emplace v q = Ok (false, q)) ∧
  ((S (length l) < cap)%nat → ∃ q', try_emplace v q = Ok (true, q') ∧ holds q' (l ++ [v])).
Proof.
  intros H. pose proof (core_full _ _ _ _ H) as Hfull. unfold try_emplace. split.
  - intros E. by rewrite (proj2 (Nat.eqb_eq _ _)) by tauto.
  - intros Hl. rewrite (proj2 (Nat.eqb_neq _ _)) by lia.
    destruct (core_construct q l false v H Hl) as (q' & E & H' & Hh & Ht). rewrite (bind_eq _ _ _ E).
    eexists. split; [reflexivity|]. rewrite <-Hh. by apply core_publish.
Qed.

Lemma front_core q l written : core q l written false → front q = Ok (head l).
Proof.
  intros H. pose proof (core_empty _ _ _ _ H) as He. unfold front. destruct l as [|v l].
  - by rewrite (proj2 (Nat.eqb_eq _ _)) by tauto.
  - rewrite (proj2 (Nat.eqb_neq _ _)) by (intros E%He; done). by rewrite (core_first _ _ _ _ H).
Qed.

Lemma pop_holds q v l : holds q (v :: l) → ∃ q', pop q = Ok q' ∧ holds q' l.
Proof.
  intros H. pose proof (core_empty _ _ _ _ H) as He. unfold pop.
  rewrite (proj2 (Nat.eqb_neq _ _)) by (intros E%He; done). cbn [negb].
  destruct (core_destroy q v l None H) as (q' & E & H' & Hh & Ht). rewrite (bind_eq _ _ _ E).
  eexists. split; [reflexivity|]. rewrite <-Ht. by eapply core_release.
Qed.

Lemma size_holds q l : holds q l → size q = Z.of_nat (length l).
Proof.
  intros [Hc Hl Ht Hh Hr _ _]. unfold size. simpl in Hr. rewrite Hh, mod_cases by lia.
  case_decide; [rewrite (proj2 (Z.ltb_ge _ _))|rewrite (proj2 (Z.ltb_lt _ _))]; lia.
Qed.

Lemma drain_holds n q l : holds q l → (length l ≤ n)%nat → ∃ q', drain n q = Ok q' ∧ holds q' [].
Proof.
  revert q l. induction n as [|n IH]; intros q l H Hl; simpl; rewrite (front_core q l None H); destruct l as [|v l];
    simpl in *; try lia; eauto.
  destruct (pop_holds q v l H) as (q' & E & H'). rewrite (bind_eq _ _ _ E). apply (IH q' l); [done|lia].
Qed.

(** The queue on its own is a queue of less than [capacity_] values: [try_emplace]
    appends a value exactly if there is room, [front] and [pop] show and remove
    the oldest, [size] counts them, objects are constructed in raw memory only
    and destroyed once, and the destructor leaves none. *)
Theorem spsc_bounded_queue q l :
  holds q l →
  (∀ v, if decide (S (length l) < cap)%nat then ∃ q', try_emplace v q = Ok (true, q') ∧ holds q' (l ++ [v])
        else try_emplace v q = Ok (false, q)) ∧
  front q = Ok (head l) ∧ size q = Z.of_nat (length l) ∧
  (∀ v l', l = v :: l' → ∃ q', pop q = Ok q' ∧ holds q' l') ∧
  ∃ q', drain cap q = Ok q' ∧ holds q' [].
Proof.
  intros H. pose proof (c_room _ _ _ _ H) as Hr. simpl in Hr. split_and!.
  - intros v. destruct (try_emplace_holds q l v H) as [H1 H2]. case_decide; [auto|apply H1; lia].
  - by eapply front_core.
  - by apply size_holds.
  - intros v l' ->. by eapply pop_holds.
  - apply (drain_holds cap q l H). lia.
Qed.

(** ** Threads, with a lock at each end *)
Inductive writer : Type :=
| WIdle
| WLock (v : T)                  (* before [write_mu_.lock()] *)
| WFull (v : T) (head : nat)     (* the loop on [tail_] *)
| WWrite (v : T) (head : nat)
| WStore (v : T) (head : nat)    (* before the store to [head_] *)
| WUnlock.

Inductive reader : Type :=
| RIdle
| RLock                          (* before [read_mu_.lock()] *)
| RFront                         (* [if (lockless_queue_.front())] *)
| RRetry                         (* nothing there: before [read_mu_.unlock()] *)
| RCopy                          (* [*value = *(lockless_queue_.front())] *)
| RPop (v : T)                   (* before the assertion and the destructor *)
| RStore (v : T) (tail : nat)    (* before the store to [tail_] *)
| RUnlock.

Record system : Type := mkSystem {
  queue : spsc;
  write_mu_ : option nat;
  read_mu_ : option nat;
  writers : nat → writer;
  readers : nat → reader;
  pushed : list T;
  popped : list T
}.

(** A step of [PushLockless]; [None]: the thread waits for the lock. *)
Definition write_step (i : nat) (s : system) : result (option system) :=
  let set w s := mkSystem (queue s) (write_mu_ s) (read_mu_ s) (upd (writers s) i w) (readers s) (pushed s) (popped s) in
  match writers s i with
  | WIdle => Ok None
  | WLock v =>
      match write_mu_ s with
      | Some _ => Ok None
      | None => Ok (Some (set (WFull v (head_ (queue s)))
                  (mkSystem (queue s) (Some i) (read_mu_ s) (writers s) (readers s) (pushed s) (popped s))))
      end
  | WFull v h => Ok (Some (if (next_index h =? tail_ (queue s))%nat then s else set (WWrite v h) s))
  | WWrite v h =>
      q ← construct h v (queue s);
      Ok (Some (set (WStore v h) (mkSystem q (write_mu_ s) (read_mu_ s) (writers s) (readers s) (pushed s) (popped s))))
  | WStore v h =>
      Ok (Some (set WUnlock (mkSystem (mkSpsc (slots_ (queue s)) (next_index h) (tail_ (queue s))) (write_mu_ s) (read_mu_ s)
                  (writers s) (readers s) (pushed s ++ [v]) (popped s))))
  | WUnlock => Ok (Some (set WIdle (mkSystem (queue s) None (read_mu_ s) (writers s) (readers s) (pushed s) (popped s))))
  end.

(** A step of [WaitAndPopLockless]. *)
Definition read_step (j : nat) (s : system) : result (option system) :=
  let set r s := mkSystem (queue s) (write_mu_ s) (read_mu_ s) (writers s) (upd (readers s) j r) (pushed s) (popped s) in
  match readers s j with
  | RIdle => Ok None
  | RLock =>
      match read_mu_ s with
      | Some _ => Ok None
      | None => Ok (Some (set RFront (mkSystem (queue s) (write_mu_ s) (Some j) (writers s) (readers s) (pushed s) (popped s))))
      end
  | RFront => o ← front (queue s); Ok (Some (set (match o with Some _ => RCopy | None => RRetry end) s))
  | RRetry => Ok (Some (set RLock (mkSystem (queue s) (write_mu_ s) None (writers s) (readers s) (pushed s) (popped s))))
  | RCopy => o ← front (queue s); v ← from_option_or (Undefined "*nullptr") o; Ok (Some (set (RPop v) s))
  | RPop v =>
      let tail := tail_ (queue s) in
      check! negb (head_ (queue s) =? tail)%nat or "assert(head_ != tail)";
      q ← destroy tail (queue s);
      Ok (Some (set (RStore v tail) (mkSystem q (write_mu_ s) (read_mu_ s) (writers s) (readers s) (pushed s) (popped s))))
  | RStore v tail =>
      Ok (Some (set RUnlock (mkSystem (mkSpsc (slots_ (queue s)) (head_ (queue s)) (next_index tail)) (write_mu_ s) (read_mu_ s)
                  (writers s) (readers s) (pushed s) (popped s ++ [v]))))
  | RUnlock => Ok (Some (set RIdle (mkSystem (queue s) (write_mu_ s) None (writers s) (readers s) (pushed s) (popped s))))
  end.

Inductive step (s : system) : system → Prop :=
| step_push i v : writers s i = WIdle →
    step s (mkSystem (queue s) (write_mu_ s) (read_mu_ s) (upd (writers s) i (WLock v)) (readers s) (pushed s) (popped s))
| step_pop j : readers s j = RIdle →
    step s (mkSystem (queue s) (write_mu_ s) (read_mu_ s) (writers s) (upd (readers s) j RLock) (pushed s) (popped s))
| step_write i s' : write_step i s = Ok (Some s') → step s s'
| step_read j s' : read_step j s = Ok (Some s') → step s s'.

Definition initial (s : system) : Prop :=
  new_spsc = Ok (queue s) ∧ write_mu_ s = None ∧ read_mu_ s = None ∧ (∀ i, writers s i = WIdle) ∧ (∀ j, readers s j = RIdle) ∧
  pushed s = [] ∧ popped s = [].
Definition reachable (s : system) : Prop := ∃ s0, initial s0 ∧ rtc step s0 s.

(** *** Locks *)
Definition locked {A} (busy : A → bool) (mu : option nat) (st : nat → A) : Prop :=
  ∀ i, busy (st i) = true ↔ mu = Some i.

Lemma locked_acquire {A} (busy : A → bool) st i a :
  locked busy None st → busy a = true → locked busy (Some i) (upd st i a).
Proof.
  unfold locked. intros H Ha k. destruct (decide (k = i)) as [->|Hne]; [by rewrite upd_eq|]. rewrite upd_ne, (H k) by done.
  naive_solver.
Qed.
Lemma locked_inside {A} (busy : A → bool) mu st i a :
  locked busy mu st → busy (st i) = true → busy a = true → locked busy mu (upd st i a).
Proof.
  unfold locked. intros H Hi Ha k. destruct (decide (k = i)) as [->|Hne]; [rewrite upd_eq, Ha, <-(H i); tauto|]. by rewrite upd_ne.
Qed.
Lemma locked_outside {A} (busy : A → bool) mu st i a :
  locked busy mu st → busy (st i) = false → busy a = false → locked busy mu (upd st i a).
Proof.
  unfold locked. intros H Hi Ha k. destruct (decide (k = i)) as [->|Hne]; [|by rewrite upd_ne].
  rewrite upd_eq, Ha, <-(H i), Hi. done.
Qed.
Lemma locked_release {A} (busy : A → bool) mu st i a :
  locked busy mu st → busy (st i) = true → busy a = false → locked busy None (upd st i a).
Proof.
  unfold locked. intros H Hi Ha k. destruct (decide (k = i)) as [->|Hne]; [rewrite upd_eq, Ha; done|]. rewrite upd_ne, (H k) by done.
  apply H in Hi as ->. naive_solver.
Qed.

(** The thread that holds a lock. *)
Definition holder {A} (idle : A) (mu : option nat) (st : nat → A) : A := match mu with Some i => st i | None => idle end.

Lemma holder_self {A} (idle : A) busy mu st i : locked busy mu st → busy (st i) = true → holder idle mu st = st i.
Proof. intros H Hi. apply H in Hi as ->. done. Qed.
Lemma holder_other {A} (idle : A) busy mu st i a :
  locked busy mu st → busy (st i) = false → holder idle mu (upd st i a) = holder idle mu st.
Proof.
  intros H Hi. destruct mu as [k|]; [|done]. simpl. apply upd_ne. intros ->.
  pose proof (proj2 (H i) eq_refl). congruence.
Qed.
Lemma holder_inside {A} (idle : A) busy mu st i a :
  locked busy mu st → busy (st i) = true → holder idle mu (upd st i a) = a.
Proof. intros H Hi. apply H in Hi as ->. apply upd_eq. Qed.

(** *** The invariant *)
Definition writing (w : writer) : bool := match w with WIdle | WLock _ => false | _ => true end.
Definition reading (r : reader) : bool := match r with RIdle | RLock => false | _ => true end.
Definition written_of (w : writer) : option T := match w with WStore v _ => Some v | _ => None end.
Definition gone_of (r : reader) : bool := match r with RStore _ _ => true | _ => false end.

Definition write_ok (q : spsc) (l : list T) (w : writer) : Prop :=
  match w with
  | WFull _ h | WStore _ h => h = head_ q
  | WWrite _ h => h = head_ q ∧ (S (length l) < cap)%nat
  | _ => True
  end.
Definition read_ok (q : spsc) (l : list T) (r : reader) : Prop :=
  match r with
  | RCopy => l ≠ []
  | RPop v => head l = Some v
  | RStore v t => head l = Some v ∧ t = tail_ q
  | _ => True
  end.

Record inv (s : system) (l : list T) (w : writer) (r : reader) : Prop := {
  inv_core : core (queue s) l (written_of w) (gone_of r);
  inv_fifo : pushed s = popped s ++ l;
  inv_write : locked writing (write_mu_ s) (writers s);
  inv_read : locked reading (read_mu_ s) (readers s);
  inv_w : holder WIdle (write_mu_ s) (writers s) = w;
  inv_r : holder RIdle (read_mu_ s) (readers s) = r;
  inv_wok : write_ok (queue s) l w;
  inv_rok : read_ok (queue s) l r
}.

(** A thread inside its lock is the one that holds it. *)
Ltac own Hlock E Eholder :=
  let Hi := fresh "Hi" in let Eh := fresh "Eh" in
  match type of Hlock with locked ?busy _ ?st =>
    match type of E with st ?i = _ => assert (busy (st i) = true) as Hi by (by rewrite E) end end;
  match type of Eholder with holder ?idle _ _ = _ =>
    pose proof (holder_self idle _ _ _ _ Hlock Hi) as Eh; rewrite Eholder, E in Eh; revert Eh; intros -> end.

(** A step of a writer never fails and keeps the invariant. *)
Lemma write_step_inv i s l w r :
  inv s l w r →
  ∃ o, write_step i s = Ok o ∧ ∀ s', o = Some s' → ∃ l' w', inv s' l' w' r.
Proof.
  intros [Hc Hf Hw Hr Ew Er Hwok Hrok]. unfold write_step.
  destruct (writers s i) as [|v|v h|v h|v h|] eqn:E; try (eexists; split; [reflexivity|done]).
  - destruct (write_mu_ s) as [k|] eqn:Em; [by eexists|]. eexists. split; [reflexivity|]. intros s' [= <-].
    simpl in Ew. rewrite <-Ew in Hc, Hwok. clear Ew w. exists l, (WFull v (head_ (queue s))). split; simpl; try done; [by apply locked_acquire|apply upd_eq].
  - own Hw E Ew. cbn in Hwok, Hc. subst h. eexists. split; [reflexivity|].
    intros s' [= <-]. destruct (Nat.eqb_spec (next_index (head_ (queue s))) (tail_ (queue s))) as [Hn|Hn].
    { exists l, (WFull v (head_ (queue s))). by split. }
    exists l, (WWrite v (head_ (queue s))). split; simpl; try done.
    + by apply locked_inside.
    + by eapply holder_inside.
    + split; [done|]. pose proof (core_full _ _ _ _ Hc). pose proof (c_room _ _ _ _ Hc) as Hroom. simpl in Hroom.
      destruct (decide (S (length l) = cap)); [tauto|lia].
  - own Hw E Ew. destruct Hwok as [-> Hroom]. simpl in Hc.
    destruct (core_construct (queue s) l (gone_of r) v Hc Hroom) as (q & Hq & Hc' & Hh & Ht). rewrite (bind_eq _ _ _ Hq).
    eexists. split; [reflexivity|]. intros s' [= <-]. exists l, (WStore v (head_ (queue s))). split; simpl; try done.
    + by apply locked_inside.
    + by eapply holder_inside.
    + by destruct r; simpl in *; rewrite ?Ht.
  - own Hw E Ew. cbn in Hwok, Hc. subst h. eexists. split; [reflexivity|]. intros s' [= <-].
    exists (l ++ [v]), WUnlock. split; simpl; try done.
    + by apply core_publish.
    + by rewrite Hf, app_assoc.
    + by apply locked_inside.
    + by eapply holder_inside.
    + destruct r; simpl in *; try done; [by destruct l|destruct l; naive_solver..].
  - own Hw E Ew. eexists. split; [reflexivity|]. intros s' [= <-]. exists l, WIdle. split; simpl; try done.
    by eapply locked_release.
Qed.

(** So does a step of a reader. *)
Lemma read_step_inv j s l w r :
  inv s l w r →
  ∃ o, read_step j s = Ok o ∧ ∀ s', o = Some s' → ∃ l' r', inv s' l' w r'.
Proof.
  intros [Hc Hf Hw Hr Ew Er Hwok Hrok]. unfold read_step.
  destruct (readers s j) as [| | | | |v|v t|] eqn:E; try (eexists; split; [reflexivity|done]).
  - destruct (read_mu_ s) as [k|] eqn:Em; [by eexists|]. eexists. split; [reflexivity|]. intros s' [= <-].
    simpl in Er. subst r. exists l, RFront. split; simpl; try done; [by apply locked_acquire|apply upd_eq].
  - own Hr E Er. rewrite (front_core _ _ _ Hc). cbn [mbind result_bind]. eexists. split; [reflexivity|]. intros s' [= <-].
    exists l, (match head l with Some _ => RCopy | None => RRetry end).
    split; simpl; try done; [by destruct l|apply locked_inside; try done; by destruct l|by eapply holder_inside|by destruct l].
  - own Hr E Er. eexists. split; [reflexivity|]. intros s' [= <-]. exists l, RIdle. split; simpl; try done.
    by eapply locked_release.
  - own Hr E Er. rewrite (front_core _ _ _ Hc). destruct l as [|v l]; [done|]. cbn [mbind result_bind head from_option_or].
    eexists. split; [reflexivity|]. intros s' [= <-]. exists (v :: l), (RPop v).
    split; simpl; try done; [by apply locked_inside|by eapply holder_inside].
  - own Hr E Er. destruct l as [|v' l]; [done|]. injection Hrok as ->.
    rewrite (proj2 (Nat.eqb_neq _ _)) by (intros Hn%(core_empty _ _ _ _ Hc); done). cbn [negb].
    destruct (core_destroy _ _ _ _ Hc) as (q & Hq & Hc' & Hh & Ht). rewrite (bind_eq _ _ _ Hq).
    eexists. split; [reflexivity|]. intros s' [= <-]. exists (v :: l), (RStore v (tail_ (queue s))). split; simpl; try done.
    + by apply locked_inside.
    + by eapply holder_inside.
    + by destruct w; simpl in *; rewrite ?Hh.
  - own Hr E Er. destruct Hrok as [Hv ->]. destruct l as [|v' l]; [done|]. injection Hv as ->.
    eexists. split; [reflexivity|]. intros s' [= <-]. exists l, RUnlock. split; simpl; try done.
    + by eapply core_release.
    + by rewrite Hf, <-app_assoc.
    + by apply locked_inside.
    + by eapply holder_inside.
    + destruct w; simpl in *; try done. intuition lia.
  - own Hr E Er. eexists. split; [reflexivity|]. intros s' [= <-]. exists l, RIdle. split; simpl; try done.
    by eapply locked_release.
Qed.

Lemma spsc_initial_inv s : initial s → inv s [] WIdle RIdle.
Proof.
  intros (Hq & Hw & Hr & Hws & Hrs & Hp & Hpo). split; rewrite ?Hw, ?Hr, ?Hp, ?Hpo; try done; [by apply holds_new| |];
    intros k; rewrite ?Hws, ?Hrs; simpl; naive_solver.
Qed.

Lemma spsc_reachable_inv s : reachable s → ∃ l w r, inv s l w r.
Proof.
  intros (s0 & H0%spsc_initial_inv & Hsteps). assert (∃ l w r, inv s0 l w r) as H by eauto. clear H0.
  induction Hsteps as [s|s1 s2 s3 Hstep _ IH]; [done|]. apply IH. clear IH s3. destruct H as (l & w & r & Hi). destruct Hstep as [i v E|j E|i s' E|j s' E].
  - destruct Hi as [Hc Hf Hw Hr Ew Er Hwok Hrok]. exists l, w, r. split; simpl; try done.
    + apply locked_outside; [done|by rewrite E|done].
    + rewrite <-Ew. eapply holder_other; [exact Hw|by rewrite E].
  - destruct Hi as [Hc Hf Hw Hr Ew Er Hwok Hrok]. exists l, w, r. split; simpl; try done.
    + apply locked_outside; [done|by rewrite E|done].
    + rewrite <-Er. eapply holder_other; [exact Hr|by rewrite E].
  - destruct (write_step_inv i s1 l w r Hi) as (o & E' & Hs). rewrite E in E'. injection E' as <-.
    destruct (Hs s' eq_refl) as (l' & w' & H'). eauto.
  - destruct (read_step_inv j s1 l w r Hi) as (o & E' & Hs). rewrite E in E'. injection E' as <-.
    destruct (Hs s' eq_refl) as (l' & r' & H'). eauto.
Qed.

(** C35. The lock-free queue behind its two locks serves any number of threads at
    both ends: in every interleaving the values popped are the values pushed in
    order, except for those still waiting, of which there are less than
    [capacity_]; no step of a thread touches raw memory as an object, constructs
    over a live object or fails its assertion. *)
Theorem lockless_fifo s :
  reachable s →
  (∃ waiting, pushed s = popped s ++ waiting ∧ (length waiting < cap)%nat) ∧
  (∀ i, ∃ o, write_step i s = Ok o) ∧ (∀ j, ∃ o, read_step j s = Ok o).
Proof.
  intros (l & w & r & Hi)%spsc_reachable_inv. split_and!.
  - exists l. split; [apply Hi|]. pose proof (c_room _ _ _ _ (inv_core _ _ _ _ Hi)). lia.
  - intros i. destruct (write_step_inv i s l w r Hi) as (o & H & _). eauto.
  - intros j. destruct (read_step_inv j s l w r Hi) as (o & H & _). eauto.
Qed.
End spsc.

(** ** Two writers and two readers *)
Inductive demo_action : Type := Push (i : nat) (v : Z) | Pop (j : nat) | Write (i : nat) | Read (j : nat).

(** The state after an action, the same state if the thread waits or the call
    cannot start. *)
Definition demo_act (a : demo_action) (s : system (T := Z)) : system :=
  match a with
  | Push i v =>
      match writers s i with
      | WIdle => mkSystem (queue s) (write_mu_ s) (read_mu_ s) (upd (writers s) i (WLock v)) (readers s) (pushed s) (popped s)
      | _ => s
      end
  | Pop j =>
      match readers s j with
      | RIdle => mkSystem (queue s) (write_mu_ s) (read_mu_ s) (writers s) (upd (readers s) j RLock) (pushed s) (popped s)
      | _ => s
      end
  | Write i => match write_step 4 1 i s with Ok (Some s') => s' | _ => s end
  | Read j => match read_step 4 1 j s with Ok (Some s') => s' | _ => s end
  end.

Definition demo_start : system (T := Z) :=
  mkSystem (match new_spsc 4 1 with Ok q => q | Err _ => mkSpsc [] 0 0 end) None None (λ _, WIdle) (λ _, RIdle) [] [].
Definition demo_state (l : list demo_action) : system (T := Z) := foldl (λ s a, demo_act a s) demo_start l.

Lemma demo_state_reachable l : reachable 4 1 (demo_state l).
Proof.
  exists demo_start. split; [done|]. unfold demo_state. generalize demo_start. induction l as [|a l IH]; intros s; [done|].
  simpl. etrans; [|apply IH]. destruct a as [i v|j|i|j]; simpl.
  - destruct (writers s i) eqn:E; try done. apply rtc_once. by apply step_push.
  - destruct (readers s j) eqn:E; try done. apply rtc_once. by apply step_pop.
  - destruct (write_step 4 1 i s) as [[s'|]|] eqn:E; try done. apply rtc_once. by eapply step_write.
  - destruct (read_step 4 1 j s) as [[s'|]|] eqn:E; try done. apply rtc_once. by eapply step_read.
Qed.

(** Both writers start before one has the lock; a reader finds the first value. *)
Definition demo_mix : list demo_action :=
  [Push 0 10; Push 1 20; Pop 0] ++ repeat (Write 1) 6 ++ [Write 0; Read 0; Write 0; Read 0; Write 0; Read 0; Write 0; Read 0; Read 0; Write 0].

Lemma lockless_fifo_witness :
  ∃ waiting, pushed (demo_state demo_mix) = [20; 10] ∧ popped (demo_state demo_mix) = [20] ∧
    [20; 10] = [20] ++ waiting ∧ (length waiting < 4)%nat.
Proof.
  destruct (lockless_fifo 4 1 (demo_state demo_mix) (demo_state_reachable _)) as [(waiting & H1 & H2) _].
  exists waiting. split; [vm_compute; reflexivity|]. split; [vm_compute; reflexivity|]. split; [exact H1|exact H2].
Defined.
