(* ===== verification/Parallel.v ===== *)
(** * Parallel sorting and assignments (include/ps/internal/parallel_sort.h,
      include/ps/internal/assign_op.h)

    [ParallelSort] halves an array until a part is small enough for one thread,
    sorts the parts with [std::sort] and merges them.  The two threads of a call
    work on disjoint parts of the array, so that their result does not depend on
    how they interleave.  This is the thread function; the function for arrays
    that calls it cannot be instantiated (it takes [std::max] of a [size_t] and an
    [int]) and has no behaviour to model. *)

From S2P Require Import Prelude.
From Equations Require Import Equations.

Section sort.
Context {T : Type} (cmp : T → T → bool).
(** [std::sort] leaves any sorted permutation. *)
Context (std_sort : list T → list T).

(** [std::inplace_merge]: equal elements of the first part go first. *)
Fixpoint inplace_merge (l1 : list T) : list T → list T :=
  fix go l2 :=
    match l1, l2 with
    | [], _ => l2
    | _, [] => l1
    | a :: l1', b :: l2' => if cmp b a then b :: go l2' else a :: inplace_merge l1' l2
    end.

Section thread.
Context (grainsize : nat) (Hgrain : (0 < grainsize)%nat).

(** The thread function; a part of more than [grainsize] elements has two
    elements at least, and both halves are smaller. *)
Equations? ParallelSort (data : list T) : list T by wf (length data) lt :=
  ParallelSort data with le_lt_dec (length data) grainsize => {
    | left _ => std_sort data
    | right Hlong =>
        inplace_merge (ParallelSort (take (length data / 2) data)) (ParallelSort (drop (length data / 2) data)) }.
Proof.
  all: change (fst (Nat.divmod (length data) 1 0 1)) with (length data / 2)%nat; assert (0 < length data / 2)%nat by (apply Nat.div_str_pos; lia);
    assert (length data / 2 < length data)%nat by (apply Nat.div_lt; lia); rewrite ?length_take, ?length_drop; lia.
Qed.
End thread.

(** ** Correctness *)
Context (Hcmp : strict_weak cmp).
Definition not_after (a b : T) : Prop := cmp b a = false.
Definition sorted (l : list T) : Prop := StronglySorted not_after l.
Context (Hsort : ∀ l, std_sort l ≡ₚ l ∧ sorted (std_sort l)).

#[local] Instance not_after_trans : Transitive not_after.
Proof.
  intros a b c Hab Hbc. unfold not_after in *. destruct (cmp c a) eqn:E; [|done].
  destruct (cmp a b) eqn:E1.
  { pose proof (sw_trans _ Hcmp _ _ _ E E1). congruence. }
  destruct (cmp b c) eqn:E2.
  { pose proof (sw_trans _ Hcmp _ _ _ E2 E). congruence. }
  destruct (sw_incomparable _ Hcmp a b c) as [_ H]; congruence.
Qed.

Lemma not_after_asym a b : cmp a b = true → not_after a b.
Proof.
  intros H. unfold not_after. destruct (cmp b a) eqn:E; [|done].
  pose proof (sw_trans _ Hcmp _ _ _ H E) as Ht. by rewrite (sw_irrefl _ Hcmp) in Ht.
Qed.

Lemma inplace_merge_perm l1 l2 : inplace_merge l1 l2 ≡ₚ l1 ++ l2.
Proof.
  revert l2. induction l1 as [|a l1 IH1]; intros l2; [by destruct l2|].
  induction l2 as [|b l2 IH2]; simpl; [by rewrite app_nil_r|]. destruct (cmp b a).
  - etrans; [apply perm_skip, IH2|]. apply (Permutation_middle (a :: l1)).
  - by rewrite IH1.
Qed.

Lemma inplace_merge_sorted l1 l2 : sorted l1 → sorted l2 → sorted (inplace_merge l1 l2).
Proof.
  intros H1. revert l2. induction H1 as [|a l1 H1 IH1 Ha]; intros l2 H2; [by destruct l2|].
  induction H2 as [|b l2 H2 IH2 Hb]; [by constructor|]. simpl. destruct (cmp b a) eqn:E.
  - constructor; [exact IH2|]. change (Forall (not_after b) (inplace_merge (a :: l1) l2)).
    rewrite inplace_merge_perm. apply Forall_app. split; [|done]. pose proof (not_after_asym _ _ E) as Hba.
    constructor; [done|]. eapply Forall_impl; [exact Ha|]. intros c Hc. by transitivity a.
  - constructor; [apply IH1; by constructor|]. rewrite inplace_merge_perm. apply Forall_app. split; [done|].
    constructor; [done|]. eapply Forall_impl; [exact Hb|]. intros c Hc. by transitivity b.
Qed.

Lemma ParallelSort_sorts grainsize Hgrain l :
  ParallelSort grainsize Hgrain l ≡ₚ l ∧ sorted (ParallelSort grainsize Hgrain l).
Proof.
  funelim (ParallelSort grainsize Hgrain l); [apply Hsort|]. rename H into IH1, H0 into IH2. rename data into l.
  clear Heqcall.
  destruct IH1 as [P1 S1], IH2 as [P2 S2]. split.
  - rewrite inplace_merge_perm, P1, P2. by rewrite take_drop.
  - by apply inplace_merge_sorted.
Qed.

(** The thread function is [std::sort]: for every grain size but 0 and every array it
    leaves a sorted permutation of the array, and, when elements that are not
    ordered are equal, exactly what [std::sort] of the whole array leaves. *)
Theorem parallel_sort_is_sort grainsize Hgrain arr :
  let out := ParallelSort grainsize Hgrain arr in
  out ≡ₚ arr ∧ sorted out ∧ ((∀ a b, cmp a b = false → cmp b a = false → a = b) → out = std_sort arr).
Proof.
  destruct (ParallelSort_sorts grainsize Hgrain arr) as [HP HS].
  split_and!; [done|done|]. intros Hanti. destruct (Hsort arr) as [HP' HS'].
  eapply (StronglySorted_unique_strong not_after); [|exact HS|exact HS'|by rewrite HP, HP'].
  intros a b _ _ Hab Hba. by apply Hanti.
Qed.
End sort.

(** ** Assignments *)
Inductive AssignOp : Type := ASSIGN | PLUS | MINUS | TIMES | DIVIDE | AND | OR | XOR.

(** The operators of a C++ type. *)
Record operators (T : Type) : Type := mkOperators {
  op_add : T → T → result T; op_sub : T → T → result T; op_mul : T → T → result T; op_div : T → T → result T;
  op_and : T → T → T; op_or : T → T → T; op_xor : T → T → T
}.
Arguments mkOperators {T}.
Arguments op_add {T}.
Arguments op_sub {T}.
Arguments op_mul {T}.
Arguments op_div {T}.
Arguments op_and {T}.
Arguments op_or {T}.
Arguments op_xor {T}.

(** [AssignFunc(lhs, op, &rhs)]: the new [rhs] *)
Definition AssignFunc {T} (o : operators T) (lhs : T) (op : AssignOp) (rhs : T) : result T :=
  match op with
  | ASSIGN => Ok lhs
  | PLUS => op_add o rhs lhs
  | MINUS => op_sub o rhs lhs
  | TIMES => op_mul o rhs lhs
  | DIVIDE => op_div o rhs lhs
  | _ => Err (CheckFailed "use AssignOpInt..")
  end.

Definition AssignFuncInt {T} (o : operators T) (lhs : T) (op : AssignOp) (rhs : T) : result T :=
  match op with
  | ASSIGN => Ok lhs
  | PLUS => op_add o rhs lhs
  | MINUS => op_sub o rhs lhs
  | TIMES => op_mul o rhs lhs
  | DIVIDE => op_div o rhs lhs
  | AND => Ok (op_and o rhs lhs)
  | OR => Ok (op_or o rhs lhs)
  | XOR => Ok (op_xor o rhs lhs)
  end.

(** On integers the second function extends the first one. *)
Lemma AssignFuncInt_extends {T} (o : operators T) lhs op rhs v :
  AssignFunc o lhs op rhs = Ok v → AssignFuncInt o lhs op rhs = Ok v.
Proof. by destruct op. Qed.

(** ** Sorting integers *)
Definition demo_sort (l : list Z) : list Z := merge_sort Z.le l.

Lemma demo_sort_ok l : demo_sort l ≡ₚ l ∧ sorted Z.ltb (demo_sort l).
Proof.
  split; [apply merge_sort_Permutation|]. unfold sorted, demo_sort.
  assert (HS : StronglySorted Z.le (merge_sort Z.le l)) by apply (StronglySorted_merge_sort Z.le).
  induction HS as [|a l' _ IH Ha]; constructor; [exact IH|]. eapply Forall_impl; [exact Ha|]. intros b. apply Z.ltb_ge.
Qed.

(** Five elements in parts of at most two: three merges. *)
Lemma parallel_sort_is_sort_witness :
  ParallelSort Z.ltb demo_sort 2 ltac:(lia) [5; 1; 4; 1; 3] = [1; 1; 3; 4; 5].
Proof.
  destruct (parallel_sort_is_sort Z.ltb demo_sort (strict_weak_key id) demo_sort_ok 2 ltac:(lia) [5; 1; 4; 1; 3]) as (_ & _ & Ho).
  rewrite Ho; [vm_compute; reflexivity|]. intros a b. rewrite !Z.ltb_ge. lia.
Defined.
