(* ===== verification/SharedArray.v ===== *)
(** * Shared arrays in memory (include/ps/sarray.h)

    [SArray] as the class is written: a pointer, a size, a capacity and devices.
    Copies and segments share the elements; [resize] and the operations built on
    it write in place while the capacity lasts and move to new memory after
    that.  The memory is a list of blocks of bytes, a byte that was never
    written is [None].  (Message.v has the arrays of a message as values.) *)

From S2P Require Import Prelude Message.

(** ** Memory *)
Abbreviation cells := (list (option byte)).
Abbreviation memory := (list cells).

(** The constructor [SArray()] leaves its pointer indeterminate. *)
Inductive pointer : Type := Null | Indeterminate | At (block offset : nat).

Definition ptr_add (p : pointer) (n : nat) : pointer :=
  match p with At b o => At b (o + n) | _ => p end.

(** [n] bytes from [p]; with [n = 0] no byte is read, and the pointer does not
    matter here ([memcpy] looks at it). *)
Definition load (p : pointer) (n : nat) (mem : memory) : result cells :=
  if (n =? 0)%nat then Ok []
  else
    match p with
    | At b o =>
        blk ← from_option_or (Undefined "read") (mem !! b);
        inside! (o + n <=? length blk)%nat or "read";
        Ok (take n (drop o blk))
    | _ => Err (Undefined "read")
    end.

Definition store (p : pointer) (bs : cells) (mem : memory) : result memory :=
  if (length bs =? 0)%nat then Ok mem
  else
    match p with
    | At b o =>
        blk ← from_option_or (Undefined "write") (mem !! b);
        inside! (o + length bs <=? length blk)%nat or "write";
        Ok (<[b := take o blk ++ bs ++ drop (o + length bs) blk]> mem)
    | _ => Err (Undefined "write")
    end.

(** Two ranges of [n] bytes with a byte in common. *)
Definition overlap (p q : pointer) (n : nat) : bool :=
  match p, q with
  | At b o, At b' o' => (b =? b')%nat && (o <? o' + n)%nat && (o' <? o + n)%nat
  | _, _ => false
  end.

(** [memcpy] asks for valid pointers, also for 0 bytes; C++ leaves a call with
    another pointer undefined.  [empty_memcpy p]: the compiler and its library
    take [memcpy] of 0 bytes with the null or indeterminate pointer [p] as a call
    that does nothing. *)
Class Libc : Type := { empty_memcpy : pointer → bool }.

Definition accepts `{Libc} (p : pointer) : bool :=
  match p with At _ _ => true | _ => empty_memcpy p end.

Definition memcpy `{Libc} (dst src : pointer) (n : nat) (mem : memory) : result memory :=
  inside! negb (overlap dst src n) or "memcpy of overlapping memory";
  inside! negb (n =? 0)%nat || (accepts dst && accepts src) or "memcpy with an invalid pointer";
  bs ← load src n mem;
  store dst bs mem.

(** [memset(p, 0, n)] *)
Definition memset0 (p : pointer) (n : nat) (mem : memory) : result memory :=
  store p (replicate n (Some x00)) mem.

(** How a value of [V] lies in memory; [is_zero] is the comparison with 0. *)
Class Repr (V : Type) : Type := {
  sizeof : nat;
  encode : V → list byte;
  decode : list byte → V;
  zero : V;
  is_zero : V → bool
}.
Arguments sizeof V {_}.

(** The addresses of a process end here: [new] fails beyond. *)
Definition max_bytes : Z := 2 ^ 47.

(** [new V[n]], uninitialised *)
Definition new_array (V : Type) `{Repr V} (n : Z) (mem : memory) : result (pointer * memory) :=
  check! (0 <=? n) && (n * Z.of_nat (sizeof V) <=? max_bytes) or "std::bad_array_new_length";
  Ok (At (length mem) 0, mem ++ [replicate (Z.to_nat n * sizeof V) None]).

(** ** The array *)
Record sarray : Type := mkSArray {
  size_ : Z;
  capacity_ : Z;
  ptr_ : pointer;
  src_device_type_ : DeviceType.t;
  src_device_id_ : Z;
  dst_device_type_ : DeviceType.t;
  dst_device_id_ : Z
}.

(** An assignment to [size_] *)
Definition with_size (n : Z) (a : sarray) : sarray :=
  mkSArray n (capacity_ a) (ptr_ a) (src_device_type_ a) (src_device_id_ a) (dst_device_type_ a) (dst_device_id_ a).

Definition new_sarray : sarray := mkSArray 0 0 Indeterminate DeviceType.CPU 0 DeviceType.CPU 0.

(** [reset], with the devices that are its defaults; the deleter is not used. *)
Definition reset_on (data : pointer) (size : Z) (st : DeviceType.t) (si : Z) (dt : DeviceType.t) (di : Z) (a : sarray) : sarray :=
  mkSArray size size data st si dt di.
Definition reset (data : pointer) (size : Z) (a : sarray) : sarray :=
  reset_on data size DeviceType.CPU 0 DeviceType.CPU 0 a.
Definition force_reset (arr a : sarray) : sarray :=
  mkSArray (size_ arr) (capacity_ arr) (ptr_ arr) (src_device_type_ arr) (src_device_id_ arr) (dst_device_type_ arr) (dst_device_id_ arr).
Definition clear (a : sarray) : sarray := reset Null 0 a.
Definition empty (a : sarray) : bool := size_ a =? 0.
Definition pop_back (a : sarray) : sarray := if negb (size_ a =? 0) then with_size (size_ a - 1) a else a.

(** The constructors from a C array *)
Definition of_array (data : pointer) (size : Z) (deletable : bool) : sarray := reset data size new_sarray.
Definition of_device_array (data : pointer) (size : Z) (st : DeviceType.t) (si : Z) (dt : DeviceType.t) (di : Z) (deletable : bool) : result sarray :=
  check! negb deletable || bool_decide (st = DeviceType.CPU) or "src_device_type == CPU";
  Ok (reset_on data size st si dt di new_sarray).

Section sarray.
Context {L : Libc} {V : Type} `{Repr V}.
Implicit Types (a : sarray) (mem : memory) (v : V).

(** The address of element [i] *)
Definition elem (a : sarray) (i : Z) : pointer := ptr_add (ptr_ a) (Z.to_nat i * sizeof V).

(** Assignment of a converted array, and the constructor that calls it *)
Definition assign {W} `{Repr W} (arr a : sarray) : result sarray :=
  let size := u64 (size_ arr * Z.of_nat (sizeof W)) / Z.of_nat (sizeof V) in
  check! (u64 (size * Z.of_nat (sizeof V)) =? u64 (size_ arr * Z.of_nat (sizeof W))) or "cannot be divided";
  Ok (mkSArray size (u64 (capacity_ arr * Z.of_nat (sizeof W)) / Z.of_nat (sizeof V)) (ptr_ arr)
        (src_device_type_ arr) (src_device_id_ arr) (dst_device_type_ arr) (dst_device_id_ arr)).

(** The loop that stores [n] copies of [val] *)
Fixpoint fill (n : nat) (p : pointer) (val : V) (mem : memory) : result memory :=
  match n with
  | O => Ok mem
  | S n' => mem ← store p (Some <$> encode val) mem; fill n' (ptr_add p (sizeof V)) val mem
  end.

Definition resize (size : Z) (val : V) (a : sarray) (mem : memory) : result (sarray * memory) :=
  let cur_n := size_ a in
  r ← (if size <=? capacity_ a then Ok (with_size size a, mem)
       else
         r ← new_array V (u64 (size + 5)) mem;
         let '(new_data, mem) := r in
         mem ← memcpy new_data (ptr_ a) (Z.to_nat (u64 (size_ a * Z.of_nat (sizeof V)))) mem;
         Ok (reset new_data size a, mem));
  let '(a, mem) := r in
  if size <=? cur_n then Ok (a, mem)
  else
    let p := elem a cur_n in
    mem ← (if is_zero val then memset0 p (Z.to_nat (u64 ((size - cur_n) * Z.of_nat (sizeof V)))) mem
           else fill (Z.to_nat (size - cur_n)) p val mem);
    Ok (a, mem).

Definition reserve (size : Z) (a : sarray) (mem : memory) : result (sarray * memory) :=
  if size <=? capacity_ a then Ok (a, mem)
  else
    let old_size := size_ a in
    r ← resize size zero a mem;
    let '(a, mem) := r in
    Ok (with_size old_size a, mem).

Definition push_back (val : V) (a : sarray) (mem : memory) : result (sarray * memory) :=
  r ← (if size_ a =? capacity_ a then reserve (u64 (size_ a * 2 + 5)) a mem else Ok (a, mem));
  let '(a, mem) := r in
  mem ← store (elem a (size_ a)) (Some <$> encode val) mem;
  Ok (with_size (size_ a + 1) a, mem).

(** [append(arr)]; [same]: [arr] is the array itself, whose size has changed
    when it is read again *)
Definition append (same : bool) (arr a : sarray) (mem : memory) : result (sarray * memory) :=
  let arr := if same then a else arr in
  if empty arr then Ok (a, mem)
  else
    let orig_size := size_ a in
    r ← resize (u64 (size_ a + size_ arr)) zero a mem;
    let '(a, mem) := r in
    let arr := if same then a else arr in
    mem ← memcpy (elem a orig_size) (ptr_ arr) (Z.to_nat (u64 (size_ arr * Z.of_nat (sizeof V)))) mem;
    Ok (a, mem).

(** [CopyFrom(data, size)], [CopyFrom(other)] and [CopyFrom(first, last)] *)
Definition CopyFrom (data : pointer) (size : Z) (a : sarray) (mem : memory) : result (sarray * memory) :=
  r ← resize size zero a mem;
  let '(a, mem) := r in
  mem ← memcpy (ptr_ a) data (Z.to_nat (u64 (size * Z.of_nat (sizeof V)))) mem;
  Ok (a, mem).
Definition CopyFrom_array (same : bool) (other a : sarray) (mem : memory) : result (sarray * memory) :=
  if same then Ok (a, mem) else CopyFrom (ptr_ other) (size_ other) a mem.

Fixpoint copy_each (p : pointer) (xs : list V) (mem : memory) : result memory :=
  match xs with
  | [] => Ok mem
  | x :: xs => mem ← store p (Some <$> encode x) mem; copy_each (ptr_add p (sizeof V)) xs mem
  end.
Definition CopyFrom_range (xs : list V) (a : sarray) (mem : memory) : result (sarray * memory) :=
  let size := i32 (Z.of_nat (length xs)) in
  r ← new_array V size mem;
  let '(data, mem) := r in
  let a := reset data size a in
  mem ← copy_each data (take (Z.to_nat size) xs) mem;
  Ok (a, mem).

Definition segment (from to : Z) (a : sarray) : result sarray :=
  check! (from <=? to) or "end >= begin";
  check! (to <=? size_ a) or "end <= size()";
  Ok (mkSArray (to - from) (to - from) (elem a from)
        (src_device_type_ a) (src_device_id_ a) (dst_device_type_ a) (dst_device_id_ a)).

(** Reading a value of initialised bytes *)
Definition read (p : pointer) (mem : memory) : result V :=
  bs ← load p (sizeof V) mem;
  bs ← from_option_or (Undefined "uninitialised") (mapM id bs);
  Ok (decode bs).
Definition index (i : Z) (a : sarray) (mem : memory) : result V :=
  inside! (0 <=? i) or "operator[]"; read (elem a i) mem.
Definition back (a : sarray) (mem : memory) : result V :=
  check! negb (empty a) or "!empty()"; read (elem a (size_ a - 1)) mem.
Definition front (a : sarray) (mem : memory) : result V :=
  check! negb (empty a) or "!empty()"; read (elem a 0) mem.
End sarray.
