(* ===== verification/SharedArrayFacts.v ===== *)
(** * What shared arrays hold (include/ps/sarray.h)

    The arrays of SharedArray.v against lists: every operation on a well-formed
    array ends and gives the list of the corresponding operation of
    [std::vector], writes nothing but the array's own spare room, and keeps all
    arrays well-formed.  Copies and segments share their elements until one of
    them outgrows its capacity. *)

From S2P Require Import Prelude Message SharedArray.

(** ** Cells

    The cell at an offset of a block; everything below is about cells. *)
Definition cell (mem : memory) (b i : nat) : option (option byte) := mem !! b ≫= (.!! i).

(** The cell is one of the [n] bytes from [p]. *)
Definition in_range (p : pointer) (n b i : nat) : Prop :=
  match p with At b' o => b = b' ∧ (o ≤ i < o + n)%nat | _ => False end.

(** [n] bytes from [p] are memory of the program; they are initialised. *)
Definition allocated (p : pointer) (n : nat) (mem : memory) : Prop :=
  n = 0%nat ∨ ∃ b o, p = At b o ∧ ∀ i, (i < n)%nat → is_Some (cell mem b (o + i)).
Definition valid (p : pointer) (n : nat) (mem : memory) : Prop :=
  n = 0%nat ∨ ∃ b o, p = At b o ∧ ∀ i, (i < n)%nat → ∃ x, cell mem b (o + i) = Some (Some x).

(** Memory changes only in the [n] bytes from [p], and initialised memory stays
    initialised. *)
Record frame (p : pointer) (n : nat) (mem mem' : memory) : Prop := {
  fr_alloc : ∀ b i, is_Some (cell mem b i) → is_Some (cell mem' b i);
  fr_same : ∀ b i c, cell mem b i = Some c → ¬ in_range p n b i → cell mem' b i = Some c;
  fr_init : ∀ b i x, cell mem b i = Some (Some x) → ∃ y, cell mem' b i = Some (Some y)
}.

Lemma valid_allocated p n mem : valid p n mem → allocated p n mem.
Proof. intros [->|(b & o & -> & H)]; [by left|right]. exists b, o. split; [done|]. intros i Hi. destruct (H i Hi) as [x ->]. eauto. Qed.
Lemma valid_frame p n q m mem mem' : valid p n mem → frame q m mem mem' → valid p n mem'.
Proof.
  intros [->|(b & o & -> & Hv)] [_ _ Hf]; [by left|right]. exists b, o. split; [done|]. intros i Hi.
  destruct (Hv i Hi) as [x E]. eauto.
Qed.
Lemma valid_le p n m mem : valid p n mem → (m ≤ n)%nat → valid p m mem.
Proof. intros [->|(b & o & -> & Hv)] Hm; [left; lia|right]. exists b, o. split; [done|]. intros i Hi. apply Hv. lia. Qed.
Lemma valid_add p k n m mem : valid p n mem → (k + m ≤ n)%nat → valid (ptr_add p k) m mem.
Proof.
  intros [->|(b & o & -> & Hv)] Hm; [left; lia|right]. exists b, (o + k)%nat. split; [done|]. intros i Hi.
  rewrite <-Nat.add_assoc. apply Hv. lia.
Qed.
Lemma frame_refl p n mem : frame p n mem mem.
Proof. split; eauto. Qed.
Lemma frame_trans p n mem1 mem2 mem3 : frame p n mem1 mem2 → frame p n mem2 mem3 → frame p n mem1 mem3.
Proof.
  intros [H0 H1 H2] [H0' H3 H4]. split; [eauto..|]. intros b i x E. destruct (H2 _ _ _ E) as [y E']. eauto.
Qed.
Lemma frame_weaken p n q m mem mem' : frame p n mem mem' → (∀ b i, in_range p n b i → in_range q m b i) → frame q m mem mem'.
Proof. intros [H0 H1 H2] Hin. split; [done| |done]. intros b i c E Hn. apply H1; [done|]. eauto. Qed.

Lemma load_cells p n mem l :
  load p n mem = Ok l ↔ length l = n ∧ (n = 0%nat ∨ ∃ b o, p = At b o ∧ ∀ i, (i < n)%nat → cell mem b (o + i) = l !! i).
Proof.
  unfold load, cell. destruct (Nat.eqb_spec n 0) as [->|Hn].
  { split; [intros [= <-]; auto|]. intros [Hl _]. by apply nil_length_inv in Hl as ->. }
  destruct p as [| |b o]; [split; [done|]; intros (_ & [|(b & o & ? & _)]); done..|].
  destruct (mem !! b) as [blk|] eqn:Eb; simpl.
  - destruct (Nat.leb_spec (o + n) (length blk)) as [Hle|Hlt].
    + split.
      * intros [= <-]. rewrite length_take, length_drop. split; [lia|]. right. exists b, o. split; [done|]. intros i Hi.
        rewrite Eb. simpl. by rewrite lookup_take_lt, lookup_drop by done.
      * intros (Hl & [|(b' & o' & [= <- <-] & Hc)]); [done|]. f_equal. apply list_eq_same_length with n; [lia|rewrite length_take, length_drop; lia|].
        intros i x y Hi Hx Hy. rewrite lookup_take_lt, lookup_drop in Hx by done. specialize (Hc i Hi). rewrite Eb in Hc. simpl in Hc. congruence.
    + split; [done|]. intros (Hl & [|(b' & o' & [= <- <-] & Hc)]); [done|]. specialize (Hc (n - 1)%nat ltac:(lia)). rewrite Eb in Hc.
      simpl in Hc. rewrite (lookup_ge_None_2 blk) in Hc by lia. symmetry in Hc. apply lookup_ge_None_1 in Hc. lia.
  - split; [done|]. intros (Hl & [|(b' & o' & [= <- <-] & Hc)]); [done|]. specialize (Hc 0%nat ltac:(lia)). rewrite Eb in Hc.
    simpl in Hc. symmetry in Hc. apply lookup_ge_None_1 in Hc. lia.
Qed.

(** What [store] writes *)
Definition written (p : pointer) (bs : cells) (mem : memory) (b i : nat) : option (option byte) :=
  match p with
  | At b' o => if decide (b = b' ∧ (o ≤ i < o + length bs)%nat) then bs !! (i - o)%nat else cell mem b i
  | _ => cell mem b i
  end.

Lemma store_cells p bs mem :
  allocated p (length bs) mem →
  ∃ mem', store p bs mem = Ok mem' ∧ (length <$> mem') = (length <$> mem) ∧ ∀ b i, cell mem' b i = written p bs mem b i.
Proof.
  intros [Hl|(b & o & -> & Ha)]; unfold store.
  { rewrite Hl. exists mem. split_and!; [done..|]. intros b i. unfold written. destruct p; [done..|].
    rewrite decide_False; [done|]. lia. }
  destruct (Nat.eqb_spec (length bs) 0) as [Hl|Hl].
  { exists mem. split_and!; [done..|]. intros b' i. unfold written. rewrite decide_False; [done|]. lia. }
  pose proof (Ha (length bs - 1)%nat ltac:(lia)) as [c Hc]. unfold cell in Hc.
  destruct (mem !! b) as [blk|] eqn:Eb; [|done]. simpl in Hc. apply lookup_lt_Some in Hc. simpl.
  destruct (Nat.leb_spec (o + length bs) (length blk)) as [Hle|]; [|lia]. eexists. split; [reflexivity|]. split.
  { rewrite list_fmap_insert. apply list_insert_id. rewrite list_lookup_fmap, Eb. simpl. f_equal.
    rewrite !length_app, length_take, length_drop. lia. }
  intros b' i. unfold written, cell. pose proof (lookup_lt_Some _ _ _ Eb) as Hb. destruct (decide (b' = b)) as [->|Hne].
  - rewrite list_lookup_insert_eq by done. rewrite Eb. simpl. case_decide as Hd.
    + rewrite lookup_app_r, length_take by (rewrite length_take; lia). rewrite lookup_app_l by lia. f_equal. lia.
    + destruct (decide (i < o)%nat); [rewrite lookup_app_l by (rewrite length_take; lia); by apply lookup_take_lt|].
      rewrite lookup_app_r, length_take by (rewrite length_take; lia). rewrite lookup_app_r by lia. rewrite lookup_drop. f_equal. lia.
  - rewrite list_lookup_insert_ne by done. rewrite decide_False by naive_solver. done.
Qed.

(** The bytes [bs] lie at [p]. *)
Definition bytes_at (mem : memory) (p : pointer) (bs : list byte) : Prop := load p (length bs) mem = Ok (Some <$> bs).

Lemma bytes_at_cells mem p bs :
  bytes_at mem p bs ↔ bs = [] ∨ ∃ b o, p = At b o ∧ ∀ i, (i < length bs)%nat → cell mem b (o + i) = Some <$> (bs !! i).
Proof.
  unfold bytes_at. rewrite load_cells, length_fmap. split.
  - intros [_ [Hl|(b & o & -> & Hc)]]; [left; by apply nil_length_inv|right]. exists b, o. split; [done|]. intros i Hi.
    by rewrite Hc, list_lookup_fmap by done.
  - intros [->|(b & o & -> & Hc)]; [by split; [|left]|]. split; [done|right]. exists b, o. split; [done|]. intros i Hi.
    by rewrite Hc, list_lookup_fmap by done.
Qed.

Lemma valid_bytes p n mem : valid p n mem ↔ ∃ bs, length bs = n ∧ bytes_at mem p bs.
Proof.
  split.
  - intros [->|(b & o & -> & Hc)]; [by exists []|].
    assert (∃ bs, length bs = n ∧ ∀ i, (i < n)%nat → cell mem b (o + i) = Some <$> (bs !! i)) as (bs & Hl & Hbs).
    { clear -Hc. revert o Hc. induction n as [|n IH]; intros o Hc; [exists []; split; [done|lia]|].
      destruct (IH (S o)) as (bs & Hl & Hbs).
      { intros i Hi. destruct (Hc (S i) ltac:(lia)) as [x E]. exists x. by rewrite <-E, Nat.add_succ_r. }
      destruct (Hc 0%nat ltac:(lia)) as [x E]. exists (x :: bs). split; [simpl; lia|]. intros [|i] Hi; [done|].
      rewrite Nat.add_succ_r. apply Hbs. lia. }
    exists bs. split; [done|]. apply bytes_at_cells. right. exists b, o. split; [done|]. intros i Hi. apply Hbs. lia.
  - intros (bs & <- & [->|(b & o & -> & Hc)]%bytes_at_cells); [by left|right]. exists b, o. split; [done|]. intros i Hi.
    rewrite Hc by done. destruct (lookup_lt_is_Some_2 _ _ Hi) as [x ->]. by exists x.
Qed.

Lemma ptr_add_0 p : ptr_add p 0 = p.
Proof. destruct p; [done..|]. simpl. by rewrite Nat.add_0_r. Qed.
Lemma ptr_add_add p n m : ptr_add (ptr_add p n) m = ptr_add p (n + m).
Proof. destruct p; [done..|]. simpl. by rewrite Nat.add_assoc. Qed.

Lemma bytes_at_app mem p bs1 bs2 :
  bytes_at mem p (bs1 ++ bs2) ↔ bytes_at mem p bs1 ∧ bytes_at mem (ptr_add p (length bs1)) bs2.
Proof.
  rewrite !bytes_at_cells. split.
  - intros [[-> ->]%app_eq_nil|(b & o & -> & Hc)]; [by split; left|]. rewrite length_app in Hc.
    split; right; eexists _, _; (split; [reflexivity|]); intros i Hi.
    + by rewrite Hc, lookup_app_l by lia.
    + rewrite <-Nat.add_assoc, Hc, lookup_app_r by lia. do 2 f_equal. lia.
  - intros [[->|(b & o & -> & Hc)] H2]; [simpl in *; rewrite ptr_add_0 in H2; done|].
    destruct H2 as [->|(b' & o' & [= <- <-] & Hc')]; [right; rewrite app_nil_r; eauto|].
    right. exists b, o. split; [done|]. intros i Hi. rewrite length_app in Hi. destruct (decide (i < length bs1)%nat).
    + by rewrite lookup_app_l, Hc by done.
    + rewrite lookup_app_r by lia. rewrite <-Hc' by lia. f_equal. lia.
Qed.

Lemma bytes_at_frame mem mem' p bs q m :
  bytes_at mem p bs → frame q m mem mem' → (∀ b i, in_range p (length bs) b i → ¬ in_range q m b i) → bytes_at mem' p bs.
Proof.
  rewrite !bytes_at_cells. intros [->|(b & o & -> & Hc)] Hf Hdis; [by left|right]. exists b, o. split; [done|]. intros i Hi.
  pose proof (Hc i Hi) as E. destruct (lookup_lt_is_Some_2 _ _ Hi) as [x Hx]. rewrite Hx in *. simpl in *.
  apply (fr_same _ _ _ _ Hf); [done|]. apply Hdis. simpl. lia.
Qed.

Lemma allocated_frame p n q m mem mem' : allocated p n mem → frame q m mem mem' → allocated p n mem'.
Proof.
  intros [->|(b & o & -> & Ha)] Hf; [by left|right]. exists b, o. split; [done|]. intros i Hi. by apply (fr_alloc _ _ _ _ Hf), Ha.
Qed.
Lemma allocated_add p k n m mem : allocated p n mem → (k + m ≤ n)%nat → allocated (ptr_add p k) m mem.
Proof.
  intros [->|(b & o & -> & Ha)] Hm; [left; lia|right]. exists b, (o + k)%nat. split; [done|]. intros i Hi.
  rewrite <-Nat.add_assoc. apply Ha. lia.
Qed.
Lemma allocated_take p n m mem : allocated p n mem → (m ≤ n)%nat → allocated p m mem.
Proof. intros Ha Hm. rewrite <-(ptr_add_0 p). by eapply allocated_add. Qed.

(** Storing initialised bytes *)
Lemma store_bytes p bs mem :
  allocated p (length bs) mem →
  ∃ mem', store p (Some <$> bs) mem = Ok mem' ∧ (length <$> mem') = (length <$> mem) ∧ frame p (length bs) mem mem' ∧ bytes_at mem' p bs.
Proof.
  intros Ha. destruct (store_cells p (Some <$> bs) mem) as (mem' & E & Hl & Hc); [by rewrite length_fmap|].
  exists mem'. split_and!; [done..| |].
  - split; intros b i; rewrite Hc; unfold written; destruct p as [| |b' o]; try naive_solver; rewrite length_fmap; case_decide as Hd; try naive_solver;
      rewrite list_lookup_fmap; destruct (lookup_lt_is_Some_2 bs (i - o)) as [x ->]; try lia; simpl; try naive_solver.
  - apply bytes_at_cells. destruct Ha as [Hn|(b & o & -> & Ha)]; [left; by apply nil_length_inv|right].
    exists b, o. split; [done|]. intros i Hi. rewrite Hc. unfold written. rewrite decide_True by (rewrite length_fmap; lia).
    rewrite list_lookup_fmap. by replace (o + i - o)%nat with i by lia.
Qed.

(** No block is larger than what [new] gives. *)
Definition mem_ok (mem : memory) : Prop := Forall (λ n, Z.of_nat n ≤ max_bytes) (length <$> mem).

Lemma allocated_le p n mem : mem_ok mem → allocated p n mem → Z.of_nat n ≤ max_bytes.
Proof.
  intros Hm [->|(b & o & -> & Ha)]; [unfold max_bytes; lia|]. destruct n as [|n]; [unfold max_bytes; lia|].
  destruct (Ha n ltac:(lia)) as [c Hc]. unfold cell in Hc. destruct (mem !! b) as [blk|] eqn:Eb; [|done]. simpl in Hc.
  apply lookup_lt_Some in Hc. unfold mem_ok in Hm. rewrite Forall_lookup in Hm.
  pose proof (Hm b (length blk) ltac:(by rewrite list_lookup_fmap, Eb)). lia.
Qed.

Class ReprLaws (V : Type) `{Repr V} : Prop := {
  sizeof_pos : (0 < sizeof V)%nat;
  encode_length : ∀ v : V, length (encode v) = sizeof V;
  decode_encode : ∀ v : V, decode (encode v) = v;
  encode_zero : ∀ v : V, is_zero v = true → encode v = replicate (sizeof V) x00;
  zero_is_zero : is_zero zero = true
}.

(** The facts of this section are for a library that takes [memcpy] of 0 bytes
    with any pointer. *)
Section laws.
Context {L : Libc} (Hlib : ∀ p, empty_memcpy p = true).
Context {V : Type} `{ReprLaws V}.

(** [memcpy] of initialised bytes *)
Lemma memcpy_bytes dst src bs mem :
  allocated dst (length bs) mem → bytes_at mem src bs → overlap dst src (length bs) = false →
  ∃ mem', memcpy dst src (length bs) mem = Ok mem' ∧ (length <$> mem') = (length <$> mem) ∧
    frame dst (length bs) mem mem' ∧ bytes_at mem' dst bs.
Proof.
  intros Ha Hs Ho. unfold memcpy. rewrite Ho. cbn [negb].
  assert (∀ p, accepts p = true) as Hacc by (intros []; [apply Hlib|apply Hlib|done]).
  rewrite !Hacc, orb_true_r. rewrite (bind_eq _ _ _ Hs). by apply store_bytes.
Qed.

Implicit Types (a : sarray) (mem : memory) (v : V) (l : list V).

Definition encode_all (l : list V) : list byte := concat (map encode l).

Lemma encode_all_length l : length (encode_all l) = (length l * sizeof V)%nat.
Proof. unfold encode_all. induction l as [|v l IH]; [done|]. simpl. rewrite length_app, encode_length, IH. lia. Qed.
Lemma encode_all_app l1 l2 : encode_all (l1 ++ l2) = encode_all l1 ++ encode_all l2.
Proof. unfold encode_all. by rewrite map_app, concat_app. Qed.
Lemma encode_all_zero n v : is_zero v = true → encode_all (replicate n v) = replicate (n * sizeof V) x00.
Proof.
  intros Hz. induction n as [|n IH]; [done|]. change (encode_all (replicate (S n) v)) with (encode v ++ encode_all (replicate n v)).
  rewrite IH, encode_zero by done. by rewrite <-replicate_add.
Qed.

Lemma new_array_ok n mem :
  mem_ok mem → 0 ≤ n → n * Z.of_nat (sizeof V) ≤ max_bytes →
  ∃ mem', new_array V n mem = Ok (At (length mem) 0, mem') ∧ mem_ok mem' ∧ frame Null 0 mem mem' ∧
    allocated (At (length mem) 0) (Z.to_nat n * sizeof V) mem'.
Proof.
  intros Hm Hn Hb. unfold new_array. rewrite (proj2 (Z.leb_le _ _) Hn), (proj2 (Z.leb_le _ _) Hb). cbn [andb].
  eexists. split; [reflexivity|]. assert (Hold : ∀ b i c, cell mem b i = Some c → cell (mem ++ [replicate (Z.to_nat n * sizeof V) None]) b i = Some c).
  { unfold cell. intros b i c E. destruct (mem !! b) as [blk|] eqn:Eb; [|done]. by rewrite (lookup_app_l_Some _ _ _ _ Eb). }
  split_and!.
  - unfold mem_ok. rewrite fmap_app, Forall_app. split; [done|]. simpl. constructor; [|done]. rewrite length_replicate. lia.
  - split; [intros b i [c E]; eauto|eauto|eauto].
  - right. exists (length mem), 0%nat. split; [done|]. intros i Hi. unfold cell. rewrite lookup_app_r, Nat.sub_diag by lia. simpl.
    rewrite lookup_replicate_2 by lia. done.
Qed.

Lemma copy_each_ok p l mem :
  allocated p (length l * sizeof V) mem →
  ∃ mem', copy_each p l mem = Ok mem' ∧ (length <$> mem') = (length <$> mem) ∧ frame p (length l * sizeof V) mem mem' ∧
    bytes_at mem' p (encode_all l).
Proof.
  revert p mem. induction l as [|v l IH]; intros p mem Ha.
  { exists mem. split_and!; [done..|apply frame_refl|done]. }
  simpl in Ha. simpl copy_each. destruct (store_bytes p (encode v) mem) as (mem1 & E1 & Hl1 & Hf1 & Hb1).
  { rewrite encode_length. eapply allocated_take; [exact Ha|lia]. }
  rewrite (bind_eq _ _ _ E1). rewrite encode_length in *.
  destruct (IH (ptr_add p (sizeof V)) mem1) as (mem2 & E2 & Hl2 & Hf2 & Hb2).
  { eapply allocated_frame; [|exact Hf1]. eapply allocated_add; [exact Ha|lia]. }
  exists mem2. split_and!; [done|congruence| |].
  - eapply frame_trans; (eapply frame_weaken; [eassumption|]); intros b i; destruct p; simpl; (done || lia).
  - change (encode_all (v :: l)) with (encode v ++ encode_all l). apply bytes_at_app. rewrite encode_length. split; [|done].
    eapply bytes_at_frame; [exact Hb1|exact Hf2|]. rewrite encode_length. intros b i. destruct p; simpl; [done..|lia].
Qed.

Lemma fill_copy_each n p v mem : fill n p v mem = copy_each p (replicate n v) mem.
Proof.
  revert p mem. induction n as [|n IH]; intros p mem; [done|]. simpl. destruct (store p (Some <$> encode v) mem); [|done]. apply IH.
Qed.

(** What [resize] writes after the old elements *)
Lemma fill_new n p v mem :
  allocated p (n * sizeof V) mem →
  ∃ mem', (if is_zero v then memset0 p (n * sizeof V) mem else fill n p v mem) = Ok mem' ∧ (length <$> mem') = (length <$> mem) ∧
    frame p (n * sizeof V) mem mem' ∧ bytes_at mem' p (encode_all (replicate n v)).
Proof.
  intros Ha. destruct (is_zero v) eqn:Ez.
  - unfold memset0. rewrite <-fmap_replicate. rewrite (encode_all_zero n v Ez).
    destruct (store_bytes p (replicate (n * sizeof V) x00) mem) as (mem' & E & Hl & Hf & Hb); [by rewrite length_replicate|].
    rewrite length_replicate in Hf. eauto.
  - rewrite fill_copy_each. destruct (copy_each_ok p (replicate n v) mem) as (mem' & E & Hl & Hf & Hb); [by rewrite length_replicate|].
    rewrite length_replicate in Hf. eauto.
Qed.

(** ** Well-formed arrays and their contents *)
Definition wf (mem : memory) (a : sarray) : Prop :=
  0 ≤ size_ a ≤ capacity_ a ∧ valid (ptr_ a) (Z.to_nat (capacity_ a) * sizeof V) mem.
Definition contents (mem : memory) (a : sarray) (l : list V) : Prop :=
  size_ a = Z.of_nat (length l) ∧ bytes_at mem (ptr_ a) (encode_all l).

(** [l] after [resize(n, v)] *)
Definition resized (n : nat) (v : V) (l : list V) : list V := take n l ++ replicate (n - length l) v.

Lemma bytes_at_inj mem p bs bs' : bytes_at mem p bs → bytes_at mem p bs' → length bs = length bs' → bs = bs'.
Proof.
  unfold bytes_at. intros E1 E2 Hl. rewrite Hl, E2 in E1. injection E1 as E1. apply (inj (fmap Some)) in E1. done.
Qed.

Lemma wf_frame mem mem' a q m : wf mem a → frame q m mem mem' → wf mem' a.
Proof. intros [Hs Hv] Hf. split; [done|]. by eapply valid_frame. Qed.

Lemma wf_bytes mem a : mem_ok mem → wf mem a → capacity_ a * Z.of_nat (sizeof V) ≤ max_bytes.
Proof. intros Hm [Hs Hv]. apply valid_allocated, (allocated_le _ _ _ Hm) in Hv. lia. Qed.

Lemma frame_fresh o n mem mem1 mem2 : frame Null 0 mem mem1 → frame (At (length mem) o) n mem1 mem2 → frame Null 0 mem mem2.
Proof.
  intros [A1 S1 I1] [A2 S2 I2]. split; [eauto| |intros b i x E; destruct (I1 _ _ _ E); eauto]. intros b i c E Hn. apply S2; [eauto|].
  intros [-> _]. unfold cell in E. by rewrite lookup_ge_None_2 in E.
Qed.

Lemma overlap_fresh mem k n p m : valid p m mem → (n ≤ m)%nat → overlap (At (length mem) k) p n = false.
Proof.
  intros Hv Hn. destruct p as [| |b o]; [done..|]. simpl. destruct (Nat.eqb_spec (length mem) b) as [<-|]; [|done]. simpl.
  destruct Hv as [->|(b' & o' & [= <- <-] & Hc)]; [apply andb_false_iff; rewrite !Nat.ltb_ge; lia|].
  destruct n; [apply andb_false_iff; rewrite !Nat.ltb_ge; lia|]. destruct (Hc 0%nat ltac:(lia)) as [x E]. unfold cell in E.
  by rewrite lookup_ge_None_2 in E.
Qed.

(** [resize] beyond the capacity: new memory, all else as before. *)
Lemma resize_moves size v a mem :
  mem_ok mem → wf mem a → capacity_ a < size → (size + 5) * Z.of_nat (sizeof V) ≤ max_bytes →
  ∃ mem', resize size v a mem = Ok (reset (At (length mem) 0) size a, mem') ∧ mem_ok mem' ∧ frame Null 0 mem mem' ∧
    wf mem' (reset (At (length mem) 0) size a) ∧
    ∀ l, contents mem a l → contents mem' (reset (At (length mem) 0) size a) (resized (Z.to_nat size) v l).
Proof.
  intros Hm Hwf Hgt Hb. pose proof Hwf as [Hs Hv]. pose proof sizeof_pos as Hsz. pose proof (wf_bytes _ _ Hm Hwf) as Hcb.
  assert (size * Z.of_nat (sizeof V) ≤ max_bytes) by nia. assert (size_ a * Z.of_nat (sizeof V) ≤ max_bytes) by nia.
  unfold max_bytes in *. unfold resize. rewrite (proj2 (Z.leb_gt size (capacity_ a))), (proj2 (Z.leb_gt size (size_ a))) by lia.
  rewrite (uwrap_small 64 (size + 5)), (uwrap_small 64 (size_ a * _)) by word_lia.
  destruct (new_array_ok (size + 5) mem Hm ltac:(lia) Hb) as (mem1 & E1 & Hm1 & Hf1 & Ha1). rewrite (bind_eq _ _ _ E1).
  destruct (proj1 (valid_bytes (ptr_ a) (Z.to_nat (size_ a) * sizeof V) mem)) as (bs & Hbl & Hbs); [eapply valid_le; [exact Hv|nia]|].
  replace (Z.to_nat (size_ a * Z.of_nat (sizeof V))) with (length bs) by lia.
  destruct (memcpy_bytes (At (length mem) 0) (ptr_ a) bs mem1) as (mem2 & E2 & Hl2 & Hf2 & Hb2).
  { eapply allocated_take; [exact Ha1|nia]. }
  { eapply bytes_at_frame; [exact Hbs|exact Hf1|]. intros ?? _ []. }
  { eapply overlap_fresh; [exact Hv|nia]. }
  cbn beta iota. rewrite (bind_eq _ _ _ E2). rewrite (bind_eq _ (Ok _) _ eq_refl). cbn beta iota.
  assert (0 ≤ (size - size_ a) * Z.of_nat (sizeof V) ≤ 2 ^ 47) by nia. rewrite (uwrap_small 64) by word_lia.
  replace (Z.to_nat ((size - size_ a) * Z.of_nat (sizeof V))) with (Z.to_nat (size - size_ a) * sizeof V)%nat by nia.
  set (a' := reset (At (length mem) 0) size a). set (k := Z.to_nat (size - size_ a)).
  destruct (fill_new k (elem (V:=V) a' (size_ a)) v mem2) as (mem3 & E3 & Hl3 & Hf3 & Hb3).
  { apply (allocated_frame _ _ _ _ _ _ Ha1) in Hf2. eapply allocated_add; [exact Hf2|nia]. }
  rewrite (bind_eq _ _ _ E3). exists mem3. split; [done|].
  assert (Hall : bytes_at mem3 (At (length mem) 0) (bs ++ encode_all (replicate k v))).
  { apply bytes_at_app. rewrite Hbl. split; [|exact Hb3]. eapply bytes_at_frame; [exact Hb2|exact Hf3|]. rewrite Hbl. simpl. lia. }
  split_and!.
  - unfold mem_ok. by rewrite Hl3, Hl2.
  - eapply frame_fresh; [|exact Hf3]. by eapply frame_fresh.
  - split; [simpl; lia|]. apply valid_bytes. eexists. split; [|exact Hall]. rewrite length_app, Hbl, encode_all_length, length_replicate.
    simpl. nia.
  - intros l [Hl Hc]. assert (encode_all l = bs) as <- by (eapply bytes_at_inj; [done..|rewrite encode_all_length; lia]).
    split; unfold resized; rewrite take_ge by lia; [rewrite length_app, length_replicate; simpl; lia|].
    rewrite encode_all_app. by replace (Z.to_nat size - length l)%nat with k by lia.
Qed.

Lemma contents_take mem a l n : contents mem a l → (n ≤ length l)%nat → contents mem (with_size (Z.of_nat n) a) (take n l).
Proof.
  intros [Hl Hc] Hn. split; [simpl; rewrite length_take; lia|]. rewrite <-(take_drop n l), encode_all_app in Hc.
  by apply bytes_at_app in Hc as [? _].
Qed.

(** [resize] within the capacity: in place, and only the new elements are
    written. *)
Lemma resize_stays size v a mem :
  mem_ok mem → wf mem a → 0 ≤ size ≤ capacity_ a →
  ∃ mem', resize size v a mem = Ok (with_size size a, mem') ∧ mem_ok mem' ∧
    frame (elem (V:=V) a (size_ a)) (Z.to_nat (size - size_ a) * sizeof V) mem mem' ∧ wf mem' (with_size size a) ∧
    ∀ l, contents mem a l → contents mem' (with_size size a) (resized (Z.to_nat size) v l).
Proof.
  intros Hm Hwf Hle. pose proof Hwf as [Hs Hv]. pose proof sizeof_pos as Hsz. pose proof (wf_bytes _ _ Hm Hwf) as Hcb. unfold max_bytes in *.
  unfold resize. rewrite (proj2 (Z.leb_le size (capacity_ a))) by lia. rewrite (bind_eq _ (Ok _) _ eq_refl). cbn beta iota.
  destruct (Z.leb_spec size (size_ a)) as [Hdown|Hup].
  - exists mem. split_and!; [done|done|apply frame_refl|split; [simpl; lia|done]|]. intros l Hc. pose proof Hc as [Hl _].
    unfold resized. replace (Z.to_nat size - length l)%nat with 0%nat by lia. rewrite app_nil_r.
    rewrite <-(Z2Nat.id size) at 1 by lia. apply contents_take; [done|lia].
  - assert (0 ≤ (size - size_ a) * Z.of_nat (sizeof V) ≤ 2 ^ 47) by nia. rewrite (uwrap_small 64) by word_lia.
    replace (Z.to_nat ((size - size_ a) * Z.of_nat (sizeof V))) with (Z.to_nat (size - size_ a) * sizeof V)%nat by nia.
    set (k := Z.to_nat (size - size_ a)). set (p := elem (V:=V) (with_size size a) (size_ a)).
    destruct (fill_new k p v mem) as (mem' & E & Hl & Hf & Hb).
    { eapply allocated_add; [exact (valid_allocated _ _ _ Hv)|nia]. }
    rewrite (bind_eq _ _ _ E). exists mem'. split_and!; [done|unfold mem_ok; by rewrite Hl|exact Hf| |].
    + split; [simpl; lia|]. by eapply valid_frame.
    + intros l [Hll Hc]. split; unfold resized; rewrite take_ge by lia; [simpl; rewrite length_app, length_replicate; lia|].
      rewrite encode_all_app. replace (Z.to_nat size - length l)%nat with k by lia. apply bytes_at_app. rewrite encode_all_length. split.
      * eapply bytes_at_frame; [exact Hc|exact Hf|]. rewrite encode_all_length. intros b i. unfold p, elem. simpl. destruct (ptr_ a); simpl; [done..|nia].
      * unfold p, elem in Hb. by rewrite Hll, Nat2Z.id in Hb.
Qed.

(** The bytes that an operation may write in place: the elements after the
    first [size_], if they fit. *)
Definition spare (a : sarray) (n : Z) : nat := if n <=? capacity_ a then Z.to_nat (n - size_ a) * sizeof V else 0.

(** [resize] in either case *)
Lemma resize_ok size v a mem :
  mem_ok mem → wf mem a → 0 ≤ size → (capacity_ a < size → (size + 5) * Z.of_nat (sizeof V) ≤ max_bytes) →
  ∃ a' mem', resize size v a mem = Ok (a', mem') ∧ mem_ok mem' ∧ wf mem' a' ∧ size_ a' = size ∧
    capacity_ a' = Z.max size (capacity_ a) ∧ frame (elem (V:=V) a (size_ a)) (spare a size) mem mem' ∧
    (size ≤ capacity_ a ∧ ptr_ a' = ptr_ a ∨ capacity_ a < size ∧ ptr_ a' = At (length mem) 0) ∧
    ∀ l, contents mem a l → contents mem' a' (resized (Z.to_nat size) v l).
Proof.
  intros Hm Hwf Hn Hb. unfold spare. destruct (Z.leb_spec size (capacity_ a)) as [Hle|Hgt].
  - destruct (resize_stays size v a mem Hm Hwf) as (mem' & E & Hm' & Hf & Hwf' & Hc); [lia|].
    eexists _, mem'. split_and!; [exact E|done..|simpl; lia|done|left; done|done].
  - destruct (resize_moves size v a mem Hm Hwf Hgt (Hb Hgt)) as (mem' & E & Hm' & Hf & Hwf' & Hc).
    eexists _, mem'. split_and!; [exact E|done..|simpl; lia| |right; done|done].
    eapply frame_weaken; [exact Hf|]. by intros.
Qed.

(** A request for more memory than there is fails. *)
Lemma resize_fails size v a mem :
  capacity_ a < size → size < 2 ^ 64 - 5 → 0 ≤ capacity_ a → max_bytes < (size + 5) * Z.of_nat (sizeof V) →
  resize size v a mem = Err (CheckFailed "std::bad_array_new_length").
Proof.
  intros Hgt Hlt Hc Hb. unfold resize. rewrite (proj2 (Z.leb_gt size (capacity_ a))) by lia. rewrite (uwrap_small 64 (size + 5)) by word_lia.
  unfold new_array. rewrite (proj2 (Z.leb_gt _ max_bytes)) by lia. by rewrite andb_false_r.
Qed.

(** ** The operations built on [resize] *)
Lemma resized_all n l : (length l ≤ n)%nat → ∀ v, resized n v l = l ++ replicate (n - length l) v.
Proof. intros Hn v. unfold resized. by rewrite take_ge. Qed.

Lemma reserve_ok n a mem :
  mem_ok mem → wf mem a → (capacity_ a < n → (n + 5) * Z.of_nat (sizeof V) ≤ max_bytes) →
  ∃ a' mem', reserve n a mem = Ok (a', mem') ∧ mem_ok mem' ∧ wf mem' a' ∧ size_ a' = size_ a ∧
    capacity_ a' = Z.max n (capacity_ a) ∧ frame Null 0 mem mem' ∧ (ptr_ a' = ptr_ a ∧ n ≤ capacity_ a ∨ ptr_ a' = At (length mem) 0) ∧
    ∀ l, contents mem a l → contents mem' a' l.
Proof.
  intros Hm Hwf Hb. pose proof Hwf as [Hs _]. unfold reserve. destruct (Z.leb_spec n (capacity_ a)) as [Hle|Hgt].
  { exists a, mem. split_and!; [done..|lia|apply frame_refl|by left|done]. }
  destruct (resize_moves n zero a mem Hm Hwf Hgt (Hb Hgt)) as (mem' & E & Hm' & Hf & [Hs' Hv'] & Hc). rewrite (bind_eq _ _ _ E).
  eexists _, mem'. split_and!; [reflexivity|done|split; [simpl in *; lia|done]|done|simpl; lia|done|by right|].
  intros l Hl. specialize (Hc l Hl). destruct Hl as [Hl _]. rewrite resized_all in Hc by lia.
  apply contents_take with (n := length l) in Hc; [|rewrite length_app; lia]. rewrite take_app_length in Hc. by rewrite <-Hl in Hc.
Qed.

Lemma contents_snoc mem a l v p n mem' :
  contents mem a l → frame p n mem mem' → p = elem (V:=V) a (size_ a) → bytes_at mem' p (encode v) →
  contents mem' (with_size (size_ a + 1) a) (l ++ [v]).
Proof.
  intros [Hl Hc] Hf -> Hv. split; [simpl; rewrite length_app; simpl; lia|]. rewrite encode_all_app. apply bytes_at_app. split.
  - eapply bytes_at_frame; [exact Hc|exact Hf|]. intros b i. unfold elem. rewrite encode_all_length, Hl, Nat2Z.id.
    simpl. destruct (ptr_ a); simpl; [done..|lia].
  - unfold encode_all at 2. simpl. rewrite app_nil_r, encode_all_length. unfold elem in Hv. by rewrite Hl, Nat2Z.id in Hv.
Qed.

Lemma push_back_ok v a mem :
  mem_ok mem → wf mem a → (size_ a = capacity_ a → (size_ a * 2 + 10) * Z.of_nat (sizeof V) ≤ max_bytes) →
  ∃ a' mem', push_back v a mem = Ok (a', mem') ∧ mem_ok mem' ∧ wf mem' a' ∧
    frame (elem (V:=V) a (size_ a)) (spare a (size_ a + 1)) mem mem' ∧
    (ptr_ a' = ptr_ a ∨ ptr_ a' = At (length mem) 0) ∧
    ∀ l, contents mem a l → contents mem' a' (l ++ [v]).
Proof.
  intros Hm Hwf Hb. pose proof Hwf as [Hs _]. pose proof sizeof_pos as Hsz. pose proof (wf_bytes _ _ Hm Hwf) as Hcb. unfold max_bytes in *.
  assert (∃ a1 mem1, (if size_ a =? capacity_ a then reserve (u64 (size_ a * 2 + 5)) a mem else Ok (a, mem)) = Ok (a1, mem1) ∧
    mem_ok mem1 ∧ wf mem1 a1 ∧ size_ a1 = size_ a ∧ size_ a < capacity_ a1 ∧ frame Null 0 mem mem1 ∧
    (ptr_ a1 = ptr_ a ∧ size_ a < capacity_ a ∨ ptr_ a1 = At (length mem) 0 ∧ size_ a = capacity_ a) ∧ ∀ l, contents mem a l → contents mem1 a1 l)
    as (a1 & mem1 & E1 & Hm1 & Hwf1 & Hs1 & Hc1 & Hf1 & Hp1 & Hl1).
  { destruct (Z.eqb_spec (size_ a) (capacity_ a)) as [Heq|Hne].
    - specialize (Hb Heq). rewrite (uwrap_small 64) by (unfold in_u; pow2; nia).
      destruct (reserve_ok (size_ a * 2 + 5) a mem Hm Hwf) as (a1 & mem1 & E & ? & ? & ? & Hcap & ? & Hp & ?); [unfold max_bytes; lia|].
      exists a1, mem1. split_and!; [done..|lia|done| |done]. right. destruct Hp as [[_ ?]|?]; [lia|done].
    - exists a, mem. split_and!; [done..|lia|apply frame_refl|left; split; [done|lia]|done]. }
  unfold push_back. rewrite (bind_eq _ _ _ E1). cbn beta iota. pose proof Hwf1 as [Hs1' Hv1].
  destruct (store_bytes (elem (V:=V) a1 (size_ a1)) (encode v) mem1) as (mem2 & E2 & Hlen2 & Hf2 & Hb2).
  { rewrite encode_length. eapply allocated_add; [exact (valid_allocated _ _ _ Hv1)|nia]. }
  rewrite (bind_eq _ _ _ E2). eexists _, mem2. split_and!; [reflexivity|unfold mem_ok; by rewrite Hlen2| | | |].
  - split; [simpl; lia|]. by eapply valid_frame.
  - rewrite encode_length in Hf2. unfold spare. destruct Hp1 as [[Hp ?]|[Hp ?]].
    + rewrite (proj2 (Z.leb_le _ _)) by lia. replace (Z.to_nat (size_ a + 1 - size_ a) * sizeof V)%nat with (sizeof V) by lia.
      eapply frame_trans; [eapply frame_weaken; [exact Hf1|by intros]|]. unfold elem in *. by rewrite Hp, Hs1 in Hf2.
    + rewrite (proj2 (Z.leb_gt _ _)) by lia. apply (frame_weaken Null 0); [|by intros]. unfold elem in Hf2. rewrite Hp in Hf2.
      eapply frame_fresh; [exact Hf1|exact Hf2].
  - destruct Hp1 as [[Hp _]|[Hp _]]; simpl; rewrite Hp; auto.
  - intros l Hl. eapply contents_snoc; [by apply Hl1|exact Hf2|done|done].
Qed.

Lemma overlap_disjoint p q n b i : overlap p q n = false → in_range q n b i → ¬ in_range p n b i.
Proof.
  destruct p as [| |b1 o1], q as [| |b2 o2]; simpl; try tauto. rewrite !andb_false_iff, Nat.eqb_neq, !Nat.ltb_ge. lia.
Qed.

Lemma wf_size mem a : mem_ok mem → wf mem a → 0 ≤ size_ a * Z.of_nat (sizeof V) ≤ 2 ^ 47 ∧ 0 ≤ size_ a ≤ 2 ^ 47.
Proof. intros Hm Hwf. pose proof (wf_bytes _ _ Hm Hwf) as Hb. pose proof Hwf as [Hs _]. pose proof sizeof_pos. unfold max_bytes in *. nia. Qed.

(** [resize], then [memcpy] over everything from element [k] on: [append] and
    [CopyFrom] *)
Lemma resize_copy size k src bs a mem :
  mem_ok mem → wf mem a → 0 ≤ k ≤ size_ a → k ≤ size → length bs = (Z.to_nat (size - k) * sizeof V)%nat → bytes_at mem src bs →
  (capacity_ a < size → (size + 5) * Z.of_nat (sizeof V) ≤ max_bytes) →
  (size ≤ capacity_ a → overlap (elem (V:=V) a k) src (length bs) = false) →
  ∃ a1 mem1 mem2, resize size zero a mem = Ok (a1, mem1) ∧ memcpy (elem (V:=V) a1 k) src (length bs) mem1 = Ok mem2 ∧
    mem_ok mem2 ∧ wf mem2 a1 ∧ size_ a1 = size ∧
    frame (elem (V:=V) a k) (if size <=? capacity_ a then length bs else 0) mem mem2 ∧
    (ptr_ a1 = ptr_ a ∨ ptr_ a1 = At (length mem) 0) ∧
    bytes_at mem2 (elem (V:=V) a1 k) bs ∧
    ∀ l, contents mem a l → bytes_at mem2 (ptr_ a1) (encode_all (take (Z.to_nat k) l)).
Proof.
  intros Hm Hwf Hk Hks Hbl Hbs Hb Hov.
  destruct (resize_ok size zero a mem Hm Hwf ltac:(lia) Hb) as (a1 & mem1 & E1 & Hm1 & Hwf1 & Hs1 & Hc1 & Hf1 & Hp1 & Hl1).
  pose proof Hwf1 as [_ Hv1].
  assert (Hf1' : frame (elem (V:=V) a k) (if size <=? capacity_ a then length bs else 0) mem mem1).
  { eapply frame_weaken; [exact Hf1|]. unfold spare. destruct (size <=? capacity_ a); [|intros b i; destruct (elem a (size_ a)); simpl; lia].
    rewrite Hbl. unfold elem. intros b i. destruct (ptr_ a); simpl; [done..|]. nia. }
  destruct (memcpy_bytes (elem (V:=V) a1 k) src bs mem1) as (mem2 & E2 & Hlen2 & Hf2 & Hb2).
  { eapply allocated_add; [exact (valid_allocated _ _ _ Hv1)|]. rewrite Hbl, Hc1. nia. }
  { eapply bytes_at_frame; [exact Hbs|exact Hf1'|]. destruct (Z.leb_spec size (capacity_ a)) as [Hle|].
    - intros b i. apply overlap_disjoint. by apply Hov.
    - intros b i _. destruct (elem a k); simpl; lia. }
  { destruct Hp1 as [[Hle Hp]|[Hgt Hp]]; unfold elem; rewrite Hp; [by apply Hov|]. simpl.
    eapply overlap_fresh; [apply valid_bytes; exists bs; split; [reflexivity|exact Hbs]|done]. }
  exists a1, mem1, mem2. split_and!; [done|done|unfold mem_ok; by rewrite Hlen2|by eapply wf_frame|done| |naive_solver|done|].
  - destruct Hp1 as [[Hle Hp]|[Hgt Hp]].
    + rewrite (proj2 (Z.leb_le _ _) Hle) in *. eapply frame_trans; [exact Hf1'|]. unfold elem in *. by rewrite Hp in Hf2.
    + rewrite (proj2 (Z.leb_gt _ _) Hgt) in *. apply (frame_weaken Null 0); [|by intros]. unfold elem in Hf2. rewrite Hp in Hf2.
      eapply frame_fresh; [|exact Hf2]. eapply frame_weaken; [exact Hf1'|]. intros b i. destruct (elem a k); simpl; lia.
  - intros l Hl. pose proof (Hl1 l Hl) as Hl'. destruct Hl as [Hl _].
    assert (Htk : contents mem1 (with_size (Z.of_nat (Z.to_nat k)) a1) (take (Z.to_nat k) (resized (Z.to_nat size) zero l))).
    { apply contents_take; [done|]. unfold resized. rewrite length_app, length_take, length_replicate. lia. }
    unfold resized in Htk. rewrite take_app_le, take_take, Nat.min_l in Htk by (rewrite ?length_take; lia).
    destruct Htk as [_ Htk]. simpl in Htk. eapply bytes_at_frame; [exact Htk|exact Hf2|]. intros b i.
    rewrite encode_all_length, length_take. unfold elem. destruct (ptr_ a1); simpl; [done..|]. nia.
Qed.

Lemma contents_bytes mem a : wf mem a → ∃ bs, length bs = (Z.to_nat (size_ a) * sizeof V)%nat ∧ bytes_at mem (ptr_ a) bs.
Proof. intros [Hs Hv]. apply valid_bytes. eapply valid_le; [exact Hv|nia]. Qed.

Lemma append_ok arr a mem :
  mem_ok mem → wf mem a → wf mem arr → size_ arr ≠ 0 →
  let n := size_ a + size_ arr in
  (capacity_ a < n → (n + 5) * Z.of_nat (sizeof V) ≤ max_bytes) →
  (n ≤ capacity_ a → overlap (elem (V:=V) a (size_ a)) (ptr_ arr) (Z.to_nat (size_ arr) * sizeof V) = false) →
  ∃ a' mem', append (V:=V) false arr a mem = Ok (a', mem') ∧ mem_ok mem' ∧ wf mem' a' ∧
    frame (elem (V:=V) a (size_ a)) (spare a n) mem mem' ∧ (ptr_ a' = ptr_ a ∨ ptr_ a' = At (length mem) 0) ∧
    ∀ l1 l2, contents mem a l1 → contents mem arr l2 → contents mem' a' (l1 ++ l2).
Proof.
  intros Hm Hwf Hwf2 Hne n Hb Hov. pose proof (wf_size _ _ Hm Hwf) as [_ Hsa]. pose proof (wf_size _ _ Hm Hwf2) as [Hsb Hsc].
  destruct (contents_bytes mem arr Hwf2) as (bs & Hbl & Hbs).
  destruct (resize_copy n (size_ a) (ptr_ arr) bs a mem) as (a1 & mem1 & mem2 & E1 & E2 & Hm2 & Hwf2' & Hs & Hf & Hp & Hnew & Hl);
    [done|done|lia|lia|rewrite Hbl; f_equal; lia|done|done|by rewrite Hbl|].
  unfold append, empty. rewrite (proj2 (Z.eqb_neq _ _) Hne). rewrite (uwrap_small 64 (size_ a + size_ arr)) by word_lia.
  rewrite (bind_eq _ _ _ E1). cbn beta iota. rewrite (uwrap_small 64) by word_lia.
  replace (Z.to_nat (size_ arr * Z.of_nat (sizeof V))) with (length bs) by lia. rewrite (bind_eq _ _ _ E2).
  exists a1, mem2. split_and!; [done|done|done| |done|].
  - unfold spare. replace (n - size_ a) with (size_ arr) by lia. by rewrite <-Hbl.
  - intros l1 l2 Hl1 [Hl2 Hc2]. specialize (Hl l1 Hl1). destruct Hl1 as [Hl1 _]. split; [rewrite Hs, length_app; lia|].
    assert (encode_all l2 = bs) as <- by (eapply bytes_at_inj; [done..|rewrite encode_all_length; lia]).
    rewrite encode_all_app. apply bytes_at_app. rewrite encode_all_length. rewrite take_ge in Hl by lia. split; [done|].
    unfold elem in Hnew. by rewrite Hl1, Nat2Z.id in Hnew.
Qed.

Lemma CopyFrom_ok data size bs a mem :
  mem_ok mem → wf mem a → 0 ≤ size → length bs = (Z.to_nat size * sizeof V)%nat → bytes_at mem data bs →
  (capacity_ a < size → (size + 5) * Z.of_nat (sizeof V) ≤ max_bytes) →
  (size ≤ capacity_ a → overlap (ptr_ a) data (length bs) = false) →
  ∃ a' mem', CopyFrom (V:=V) data size a mem = Ok (a', mem') ∧ mem_ok mem' ∧ wf mem' a' ∧
    frame (ptr_ a) (if size <=? capacity_ a then length bs else 0) mem mem' ∧ (ptr_ a' = ptr_ a ∨ ptr_ a' = At (length mem) 0) ∧
    ∀ l, bs = encode_all l → contents mem' a' l.
Proof.
  intros Hm Hwf Hn Hbl Hbs Hb Hov. pose proof Hwf as [Hsw _]. pose proof (wf_bytes _ _ Hm Hwf) as Hcb. unfold max_bytes in *.
  pose proof sizeof_pos as Hsz. assert (Helem : ∀ a, elem (V:=V) a 0 = ptr_ a) by (intros; apply ptr_add_0).
  destruct (resize_copy size 0 data bs a mem) as (a1 & mem1 & mem2 & E1 & E2 & Hm2 & Hwf2 & Hs & Hf & Hp & Hnew & _);
    [done|done|lia|lia|rewrite Hbl; f_equal; lia|done|done|by rewrite Helem|].
  assert (0 ≤ size * Z.of_nat (sizeof V) ≤ 2 ^ 47) by nia.
  unfold CopyFrom. rewrite (bind_eq _ _ _ E1). cbn beta iota. rewrite (uwrap_small 64) by word_lia.
  replace (Z.to_nat (size * Z.of_nat (sizeof V))) with (length bs) by lia. rewrite Helem in *. rewrite (bind_eq _ _ _ E2).
  exists a1, mem2. split_and!; [done..|]. intros l ->. rewrite encode_all_length in Hbl. split; [nia|done].
Qed.

Lemma CopyFrom_range_ok l a mem :
  mem_ok mem → Z.of_nat (length l) < 2 ^ 31 → Z.of_nat (length l) * Z.of_nat (sizeof V) ≤ max_bytes →
  ∃ a' mem', CopyFrom_range l a mem = Ok (a', mem') ∧ mem_ok mem' ∧ wf mem' a' ∧ ptr_ a' = At (length mem) 0 ∧
    frame Null 0 mem mem' ∧ contents mem' a' l.
Proof.
  intros Hm Hl Hb. unfold CopyFrom_range. rewrite (swrap_small 32) by word_lia. rewrite Nat2Z.id, firstn_all.
  destruct (new_array_ok (Z.of_nat (length l)) mem Hm ltac:(lia) Hb) as (mem1 & E1 & Hm1 & Hf1 & Ha1). rewrite (bind_eq _ _ _ E1).
  cbn beta iota. rewrite Nat2Z.id in Ha1. destruct (copy_each_ok _ l mem1 Ha1) as (mem2 & E2 & Hlen2 & Hf2 & Hb2).
  rewrite (bind_eq _ _ _ E2). eexists _, mem2. split_and!; [reflexivity|unfold mem_ok; by rewrite Hlen2| |done|by eapply frame_fresh|by split].
  split; [simpl; lia|]. apply valid_bytes. exists (encode_all l). split; [|done]. simpl. by rewrite encode_all_length, Nat2Z.id.
Qed.

(** ** Reading *)
Lemma mapM_id_Some (bs : list byte) : mapM id (Some <$> bs) = Some bs.
Proof. apply mapM_Some, Forall2_fmap_l, Forall2_same_length_lookup. split; [done|]. naive_solver. Qed.

Lemma read_elem mem a l i v : contents mem a l → l !! i = Some v → read (elem (V:=V) a (Z.of_nat i)) mem = Ok v.
Proof.
  intros [_ Hc] Hi. rewrite <-(take_drop_middle l i v Hi) in Hc. rewrite encode_all_app in Hc. apply bytes_at_app in Hc as [_ Hc].
  pose proof (lookup_lt_Some _ _ _ Hi). rewrite encode_all_length, length_take, Nat.min_l in Hc by lia.
  change (encode_all (v :: drop (S i) l)) with (encode v ++ encode_all (drop (S i) l)) in Hc. apply bytes_at_app in Hc as [Hc _].
  unfold read, elem. rewrite Nat2Z.id. unfold bytes_at in Hc. rewrite encode_length in Hc. rewrite (bind_eq _ _ _ Hc).
  rewrite mapM_id_Some. cbn. by rewrite decode_encode.
Qed.

Lemma segment_ok mem a l from to :
  contents mem a l → 0 ≤ from ≤ to → to ≤ size_ a →
  ∃ s, segment (V:=V) from to a = Ok s ∧ contents mem s (take (Z.to_nat (to - from)) (drop (Z.to_nat from) l)) ∧
    (wf mem a → wf mem s) ∧ ptr_ s = elem (V:=V) a from.
Proof.
  intros [Hl Hc] Hft Hto. unfold segment. rewrite (proj2 (Z.leb_le _ _) Hto), (proj2 (Z.leb_le from to)) by lia.
  eexists. split; [reflexivity|]. split_and!; [|intros [Hs Hv]; split; [simpl; lia|]|done].
  - split; [simpl; rewrite length_take, length_drop; lia|]. simpl. rewrite <-(take_drop (Z.to_nat from) l), encode_all_app in Hc.
    apply bytes_at_app in Hc as [_ Hc]. rewrite encode_all_length, length_take, Nat.min_l in Hc by lia.
    rewrite <-(take_drop (Z.to_nat (to - from)) (drop _ l)), encode_all_app in Hc. by apply bytes_at_app in Hc as [Hc _].
  - simpl. eapply valid_add; [exact Hv|]. nia.
Qed.

(** ** One array is a vector *)
Inductive op : Type :=
| Resize (n : Z) (v : V)
| Reserve (n : Z)
| PushBack (v : V)
| PopBack
| Assign (l : list V)      (* [operator=] of an initializer list *)
| Append (l : list V)      (* of another array, made from [l] *)
| Clear.

Definition run_op (o : op) (s : sarray * memory) : result (sarray * memory) :=
  let '(a, mem) := s in
  match o with
  | Resize n v => resize n v a mem
  | Reserve n => reserve n a mem
  | PushBack v => push_back v a mem
  | PopBack => Ok (pop_back a, mem)
  | Assign l => CopyFrom_range l a mem
  | Append l => r ← CopyFrom_range l new_sarray mem; append false r.1 a r.2
  | Clear => Ok (clear a, mem)
  end.
Fixpoint run (os : list op) (s : sarray * memory) : result (sarray * memory) :=
  match os with [] => Ok s | o :: os => s ← run_op o s; run os s end.

Definition spec_op (o : op) (l : list V) : list V :=
  match o with
  | Resize n v => resized (Z.to_nat n) v l
  | Reserve _ => l
  | PushBack v => l ++ [v]
  | PopBack => take (length l - 1) l
  | Assign l' => l'
  | Append l' => l ++ l'
  | Clear => []
  end.

(** The array fits into memory, and the length of a list into an [int]. *)
Definition fits (o : op) (l : list V) : Prop :=
  let room (n : Z) := (n + 5) * Z.of_nat (sizeof V) ≤ max_bytes in
  match o with
  | Resize n _ => 0 ≤ n ∧ room n
  | Reserve n => room n
  | PushBack _ => room (Z.of_nat (length l) * 2 + 5)
  | Assign l' => Z.of_nat (length l') < 2 ^ 31 ∧ room (Z.of_nat (length l'))
  | Append l' => Z.of_nat (length l') < 2 ^ 31 ∧ room (Z.of_nat (length l) + Z.of_nat (length l'))
  | PopBack | Clear => True
  end.
Fixpoint all_fit (os : list op) (l : list V) : Prop :=
  match os with [] => True | o :: os => fits o l ∧ all_fit os (spec_op o l) end.

(** The array holds [l] in memory that is not part of [mem0], all of which is
    as it was. *)
Record vector (mem0 : memory) (l : list V) (s : sarray * memory) : Prop := {
  v_mem : mem_ok s.2;
  v_wf : wf s.2 s.1;
  v_contents : contents s.2 s.1 l;
  v_own : ∀ b o i, ptr_ s.1 = At b o → cell mem0 b i = None;
  v_kept : ∀ b i c, cell mem0 b i = Some c → cell s.2 b i = Some c
}.

Lemma vector_step mem0 l l' a mem a' mem' p n :
  vector mem0 l (a, mem) → mem_ok mem' → wf mem' a' → contents mem' a' l' → frame p n mem mem' →
  (p = Null ∨ ∃ k, p = ptr_add (ptr_ a) k) →
  (ptr_ a' = ptr_ a ∨ ptr_ a' = Null ∨ ptr_ a' = At (length mem) 0) → vector mem0 l' (a', mem').
Proof.
  intros [Hm Hwf Hc Hown Hkept] Hm' Hwf' Hc' Hf Hp Hq. simpl in *. split; [done..| |]; simpl.
  - intros b o i Hb. destruct Hq as [Hq|[Hq|Hq]]; rewrite Hq in Hb; [eauto|done|]. injection Hb as <- <-.
    destruct (cell mem0 (length mem) i) as [c|] eqn:E; [|done]. apply Hkept in E. unfold cell in E. by rewrite lookup_ge_None_2 in E.
  - intros b i c E. apply (fr_same _ _ _ _ Hf); [by apply Hkept|]. intros Hin. destruct Hp as [->|[k ->]]; [done|].
    destruct (ptr_ a) as [| |b' o'] eqn:Ep; [done..|]. destruct Hin as [-> _]. by rewrite (Hown b' o' i eq_refl) in E.
Qed.

Lemma overlap_sym p q n : overlap p q n = overlap q p n.
Proof. destruct p as [| |b o], q as [| |b' o']; simpl; try done. rewrite (Nat.eqb_sym b b'), <-!andb_assoc. f_equal. apply andb_comm. Qed.

Lemma vector_append mem0 l l' a mem :
  vector mem0 l (a, mem) → fits (Append l') l → ∃ s', run_op (Append l') (a, mem) = Ok s' ∧ vector mem0 (l ++ l') s'.
Proof.
  intros Hvec [Hlen Hroom]. pose proof Hvec as [Hm Hwf Hc _ _]. simpl in *. pose proof sizeof_pos as Hsz.
  destruct (CopyFrom_range_ok l' new_sarray mem Hm Hlen) as (tmp & mem1 & E1 & Hm1 & Hwft & Hpt & Hf1 & Hct); [nia|].
  rewrite (bind_eq _ _ _ E1). cbn [fst snd].
  assert (Hwf1 : wf mem1 a) by by eapply wf_frame.
  assert (Hc1 : contents mem1 a l) by (destruct Hc as [? Hb]; split; [done|]; eapply bytes_at_frame; [exact Hb|exact Hf1|]; intros ?? _ []).
  assert (Hvec1 : vector mem0 l (a, mem1)) by (eapply vector_step; [exact Hvec|done..|by left|by left]).
  destruct (decide (size_ tmp = 0)) as [Hz|Hnz].
  { unfold append, empty. rewrite (proj2 (Z.eqb_eq _ _) Hz). exists (a, mem1). split; [done|]. destruct Hct as [Hct _].
    assert (l' = []) as -> by (apply nil_length_inv; lia). by rewrite app_nil_r. }
  assert (Hn : size_ a + size_ tmp = Z.of_nat (length l) + Z.of_nat (length l')) by (destruct Hc as [-> _], Hct as [-> _]; lia).
  destruct (append_ok tmp a mem1 Hm1 Hwf1 Hwft Hnz) as (a' & mem' & E & Hm' & Hwf' & Hf & Hp & Hl).
  - rewrite Hn. done.
  - intros Hle. rewrite Hpt, overlap_sym. destruct Hwf as [Hs Hv], Hwft as [Hst _]. eapply overlap_fresh; [|done].
    eapply valid_add; [exact Hv|]. nia.
  - exists (a', mem'). split; [done|]. eapply vector_step; [exact Hvec1|done..|by apply Hl|exact Hf|right; by eexists|naive_solver].
Qed.

(** Every operation gives the list of the specification. *)
Lemma vector_op mem0 l s o : vector mem0 l s → fits o l → ∃ s', run_op o s = Ok s' ∧ vector mem0 (spec_op o l) s'.
Proof.
  destruct s as [a mem]. intros Hvec Hfit. pose proof Hvec as [Hm Hwf Hc _ _]. simpl in Hm, Hwf, Hc. pose proof sizeof_pos as Hsz.
  destruct o as [n v|n|v| |l'|l'|]; [| | | | |by apply vector_append|]; simpl in *.
  - destruct Hfit as [Hn Hr]. destruct (resize_ok n v a mem Hm Hwf Hn) as (a' & mem' & E & Hm' & Hwf' & _ & _ & Hf & Hp & Hl); [done|].
    exists (a', mem'). split; [done|]. eapply vector_step; [exact Hvec|done..|by apply Hl|exact Hf|right; by eexists|naive_solver].
  - destruct (reserve_ok n a mem Hm Hwf) as (a' & mem' & E & Hm' & Hwf' & _ & _ & Hf & Hp & Hl); [done|].
    exists (a', mem'). split; [done|]. eapply vector_step; [exact Hvec|done..|by apply Hl|exact Hf|by left|naive_solver].
  - destruct (push_back_ok v a mem Hm Hwf) as (a' & mem' & E & Hm' & Hwf' & Hf & Hp & Hl); [destruct Hc as [-> _]; lia|].
    exists (a', mem'). split; [done|]. eapply vector_step; [exact Hvec|done..|by apply Hl|exact Hf|right; by eexists|naive_solver].
  - eexists. split; [reflexivity|]. unfold pop_back. destruct Hc as [Hsl Hb]. destruct (Z.eqb_spec (size_ a) 0) as [Hz|Hnz]; simpl.
    + assert (l = []) as -> by (apply nil_length_inv; lia). done.
    + eapply vector_step; [exact Hvec|done| | |apply (frame_refl Null 0)|by left|by left].
      * destruct Hwf as [Hs Hv]. split; [simpl; lia|done].
      * replace (size_ a - 1) with (Z.of_nat (length l - 1)) by lia. apply contents_take; [by split|lia].
  - destruct Hfit as [Hlen Hr]. destruct (CopyFrom_range_ok l' a mem Hm Hlen) as (a' & mem' & E & Hm' & Hwf' & Hp & Hf & Hl); [nia|].
    exists (a', mem'). split; [done|]. eapply vector_step; [exact Hvec|done..|by left|naive_solver].
  - eexists. split; [reflexivity|]. eapply vector_step; [exact Hvec|done| | |apply (frame_refl Null 0)|by left|right; by left].
    + split; [simpl; lia|by left].
    + by split.
Qed.

Lemma vector_run mem0 os l s : vector mem0 l s → all_fit os l → ∃ s', run os s = Ok s' ∧ vector mem0 (foldl (flip spec_op) l os) s'.
Proof.
  revert l s. induction os as [|o os IH]; intros l s Hvec Hfit; [by exists s|]. destruct Hfit as [Ho Hfit]. simpl.
  destruct (vector_op mem0 l s o Hvec Ho) as (s' & E & Hvec'). rewrite (bind_eq _ _ _ E). by apply IH.
Qed.

Lemma vector_new mem0 : mem_ok mem0 → vector mem0 [] (new_sarray, mem0).
Proof. intros Hm. split; [done|split; [simpl; lia|by left]|by split|done|done]. Qed.


(** ** Arrays that share memory

    Any number of variables of type [SArray<V>], which may share elements. *)
Inductive cmd : Type :=
| DoResize (x : nat) (n : Z) (v : V)
| DoReserve (x : nat) (n : Z)
| DoPushBack (x : nat) (v : V)
| DoPopBack (x : nat)
| DoAppend (x y : nat)
| DoCopyFrom (x y : nat)
| DoAssign (x : nat) (l : list V)
| DoCopy (x y : nat)              (* [x = y], [force_reset] *)
| DoSegment (x y : nat) (from to : Z)
| DoClear (x : nat)
| DoFront (x : nat)
| DoBack (x : nat).

Definition vars : Type := (nat → sarray) * memory.

(** The new value of [x] *)
Definition set_var (x : nat) (s : vars) (r : result (sarray * memory)) : result vars :=
  r ← r; Ok (upd s.1 x r.1, r.2).

Definition exec (c : cmd) (s : vars) : result vars :=
  match c with
  | DoResize x n v => set_var x s (resize n v (s.1 x) s.2)
  | DoReserve x n => set_var x s (reserve n (s.1 x) s.2)
  | DoPushBack x v => set_var x s (push_back v (s.1 x) s.2)
  | DoPopBack x => set_var x s (Ok (pop_back (s.1 x), s.2))
  | DoAppend x y => set_var x s (append (V:=V) (x =? y)%nat (s.1 y) (s.1 x) s.2)
  | DoCopyFrom x y => set_var x s (CopyFrom_array (V:=V) (x =? y)%nat (s.1 y) (s.1 x) s.2)
  | DoAssign x l => set_var x s (CopyFrom_range l (s.1 x) s.2)
  | DoCopy x y => set_var x s (Ok (force_reset (s.1 y) (s.1 x), s.2))
  | DoSegment x y from to => set_var x s (a ← segment (V:=V) from to (s.1 y); Ok (a, s.2))
  | DoClear x => set_var x s (Ok (clear (s.1 x), s.2))
  | DoFront x => v ← front (V:=V) (s.1 x) s.2; Ok s
  | DoBack x => v ← back (V:=V) (s.1 x) s.2; Ok s
  end.

(** Sizes that are values of [size_t], not within a few of its end *)
Definition args_ok (c : cmd) : Prop :=
  match c with
  | DoResize _ n _ | DoReserve _ n => 0 ≤ n < 2 ^ 63
  | DoSegment _ _ from _ => 0 ≤ from
  | DoAssign _ l => Z.of_nat (length l) < 2 ^ 31
  | _ => True
  end.

Definition vars_ok (s : vars) : Prop := mem_ok s.2 ∧ ∀ x, wf s.2 (s.1 x).

(** What a call on well-formed arrays can give *)
Definition safe (mem : memory) (r : result (sarray * memory)) : Prop :=
  match r with
  | Ok (a, mem') => mem_ok mem' ∧ wf mem' a ∧ ∀ a0, wf mem a0 → wf mem' a0
  | Err (CheckFailed _) => True
  | Err (Undefined w) => w = "memcpy of overlapping memory"
  | Err (Blocked _) => False
  end.

Lemma resize_safe n v a mem : mem_ok mem → wf mem a → 0 ≤ n < 2 ^ 63 →
  resize n v a mem = Err (CheckFailed "std::bad_array_new_length") ∨
  ∃ a' mem', resize n v a mem = Ok (a', mem') ∧ mem_ok mem' ∧ wf mem' a' ∧ size_ a' = n ∧
    (∀ a0, wf mem a0 → wf mem' a0).
Proof.
  intros Hm Hwf Hn. pose proof Hwf as [Hs _]. destruct (decide (capacity_ a < n ∧ max_bytes < (n + 5) * Z.of_nat (sizeof V))) as [[H1 H2]|Hd].
  - left. apply resize_fails; [done|word_lia|lia|done].
  - right. destruct (resize_ok n v a mem Hm Hwf) as (a' & mem' & E & Hm' & Hwf' & Hs' & _ & Hf & _); [lia|lia|].
    exists a', mem'. split_and!; [done..|]. intros a0 Ha0. by eapply wf_frame.
Qed.

Lemma memcpy_safe dst src n mem :
  mem_ok mem → (overlap dst src n = false → allocated dst n mem) → valid src n mem →
  memcpy dst src n mem = Err (Undefined "memcpy of overlapping memory") ∨
  ∃ mem', memcpy dst src n mem = Ok mem' ∧ mem_ok mem' ∧ ∀ a, wf mem a → wf mem' a.
Proof.
  intros Hm Ha Hv. destruct (overlap dst src n) eqn:Ho; [left; unfold memcpy; by rewrite Ho|right].
  apply valid_bytes in Hv as (bs & <- & Hbs). destruct (memcpy_bytes dst src bs mem (Ha eq_refl) Hbs Ho) as (mem' & E & Hl & Hf & _).
  exists mem'. split_and!; [done|unfold mem_ok; by rewrite Hl|]. intros a Hwf. by eapply wf_frame.
Qed.

Lemma reserve_safe n a mem : mem_ok mem → wf mem a → 0 ≤ n < 2 ^ 63 → safe mem (reserve n a mem).
Proof.
  intros Hm Hwf Hn. unfold reserve. destruct (Z.leb_spec n (capacity_ a)); [done|]. pose proof Hwf as [Hs _].
  destruct (resize_safe n zero a mem Hm Hwf Hn) as [->|(a' & mem' & E & Hm' & [Hs' Hv'] & Hsz & Hall)]; [done|].
  rewrite (bind_eq _ _ _ E). simpl. split_and!; [done|split; [simpl in *; lia|done]|done].
Qed.

Lemma push_back_safe v a mem : mem_ok mem → wf mem a → safe mem (push_back v a mem).
Proof.
  intros Hm Hwf. pose proof (wf_size _ _ Hm Hwf) as [_ Hs].
  destruct (decide (size_ a = capacity_ a ∧ max_bytes < (size_ a * 2 + 10) * Z.of_nat (sizeof V))) as [[He Hbig]|Hd].
  - unfold push_back, reserve. rewrite (proj2 (Z.eqb_eq _ _) He). rewrite (uwrap_small 64) by word_lia.
    rewrite (proj2 (Z.leb_gt _ _)) by lia. rewrite resize_fails; [done|lia|word_lia|lia|lia].
  - destruct (push_back_ok v a mem Hm Hwf) as (a' & mem' & E & Hm' & Hwf' & Hf & _); [lia|]. rewrite E.
    split_and!; [done..|]. intros a0 Ha0. by eapply wf_frame.
Qed.

Lemma append_safe same arr a mem : mem_ok mem → wf mem a → wf mem arr → safe mem (append (V:=V) same arr a mem).
Proof.
  intros Hm Hwf Hwfr. unfold append. set (arr0 := if same then a else arr).
  assert (Hwf0 : wf mem arr0) by by destruct same. destruct (empty arr0) eqn:He; [done|]. apply Z.eqb_neq in He.
  pose proof (wf_size _ _ Hm Hwf) as [_ Hsa]. pose proof (wf_size _ _ Hm Hwf0) as [_ Hsr]. rewrite (uwrap_small 64 (_ + _)) by word_lia.
  destruct (resize_safe (size_ a + size_ arr0) zero a mem Hm Hwf) as [->|(a1 & mem1 & E & Hm1 & Hwf1 & Hs1 & Hall)]; [word_lia|done|].
  rewrite (bind_eq _ _ _ E). cbn beta iota. set (arr1 := if same then a1 else arr0).
  assert (Hwf1' : wf mem1 arr1) by (unfold arr1; destruct same; auto). pose proof (wf_size _ _ Hm1 Hwf1') as [Hs1' Hs1''].
  rewrite (uwrap_small 64) by word_lia. pose proof Hwf1' as [Hst Hvt]. pose proof Hwf1 as [Hsa1 Hva1].
  destruct (memcpy_safe (elem (V:=V) a1 (size_ a)) (ptr_ arr1) (Z.to_nat (size_ arr1 * Z.of_nat (sizeof V))) mem1 Hm1)
    as [Em|(mem2 & Em & Hm2 & Hall2)].
  - intros Ho. unfold arr1, arr0 in *. destruct same.
    + exfalso. pose proof sizeof_pos. unfold elem in Ho. destruct Hva1 as [Hz|(b & o & Hp & _)]; [nia|]. rewrite Hp in Ho. simpl in Ho.
      rewrite Nat.eqb_refl, !andb_false_iff, !Nat.ltb_ge in Ho. destruct Ho as [[|]|]; [done|nia|nia].
    + eapply allocated_add; [exact (valid_allocated _ _ _ Hva1)|]. nia.
  - eapply valid_le; [exact Hvt|]. nia.
  - by rewrite Em.
  - rewrite (bind_eq _ _ _ Em). split_and!; auto.
Qed.

Lemma CopyFrom_array_safe same other a mem :
  mem_ok mem → wf mem a → wf mem other → safe mem (CopyFrom_array (V:=V) same other a mem).
Proof.
  intros Hm Hwf Hwfo. unfold CopyFrom_array, CopyFrom. destruct same; [done|]. pose proof (wf_size _ _ Hm Hwfo) as [Hb Hs].
  destruct (resize_safe (size_ other) zero a mem Hm Hwf) as [->|(a1 & mem1 & E & Hm1 & Hwf1 & Hs1 & Hall)]; [word_lia|done|].
  rewrite (bind_eq _ _ _ E). cbn beta iota. rewrite (uwrap_small 64) by word_lia. pose proof Hwf1 as [Hsa1 Hva1].
  pose proof (Hall other Hwfo) as [Hso Hvo].
  destruct (memcpy_safe (ptr_ a1) (ptr_ other) (Z.to_nat (size_ other * Z.of_nat (sizeof V))) mem1 Hm1) as [Em|(mem2 & Em & Hm2 & Hall2)].
  - intros _. eapply allocated_take; [exact (valid_allocated _ _ _ Hva1)|nia].
  - eapply valid_le; [exact Hvo|nia].
  - by rewrite Em.
  - rewrite (bind_eq _ _ _ Em). split_and!; auto.
Qed.

Lemma CopyFrom_range_safe l a mem : mem_ok mem → Z.of_nat (length l) < 2 ^ 31 → safe mem (CopyFrom_range l a mem).
Proof.
  intros Hm Hl. destruct (decide (Z.of_nat (length l) * Z.of_nat (sizeof V) ≤ max_bytes)) as [Hle|Hgt].
  - destruct (CopyFrom_range_ok l a mem Hm Hl Hle) as (a' & mem' & E & Hm' & Hwf' & _ & Hf & _). rewrite E.
    split_and!; [done..|]. intros a0 Ha0. by eapply wf_frame.
  - unfold CopyFrom_range, new_array. rewrite (swrap_small 32) by word_lia. rewrite (proj2 (Z.leb_gt _ max_bytes)) by lia.
    by rewrite andb_false_r.
Qed.

Lemma segment_safe mem arr from to : mem_ok mem → wf mem arr → 0 ≤ from → safe mem (a ← segment (V:=V) from to arr; Ok (a, mem)).
Proof.
  intros Hm [Hs Hv] Hf. unfold segment. destruct (Z.leb_spec from to); [|done]. destruct (Z.leb_spec to (size_ arr)); [|done].
  split_and!; [done| |done]. split; [simpl; lia|]. simpl. eapply valid_add; [exact Hv|]. nia.
Qed.

Lemma read_safe mem a i : wf mem a → 0 ≤ i < size_ a → ∃ v : V, read (elem (V:=V) a i) mem = Ok v.
Proof.
  intros [Hs Hv] Hi. assert (valid (elem (V:=V) a i) (sizeof V) mem) as (bs & Hl & Hbs)%valid_bytes.
  { eapply valid_add; [exact Hv|]. assert (Z.to_nat i + 1 ≤ Z.to_nat (capacity_ a))%nat by lia. nia. }
  unfold read. rewrite <-Hl. rewrite (bind_eq _ _ _ Hbs), mapM_id_Some. by eexists.
Qed.

(** What the program can do in a state of its arrays *)
Definition safe_vars (r : result vars) : Prop :=
  match r with
  | Ok s => vars_ok s
  | Err (CheckFailed _) => True
  | Err (Undefined w) => w = "memcpy of overlapping memory"
  | Err (Blocked _) => False
  end.

Lemma set_var_safe x s r : vars_ok s → safe s.2 r → safe_vars (set_var x s r).
Proof.
  intros [Hm Hwf] Hr. destruct r as [[a mem']|f]; [|by destruct f]. destruct Hr as (Hm' & Hwf' & Hall). split; [done|]. intros y. simpl.
  destruct (decide (y = x)) as [->|]; [by rewrite upd_eq|]. rewrite upd_ne by done. by apply Hall.
Qed.

Lemma exec_safe c s : vars_ok s → args_ok c → safe_vars (exec c s).
Proof.
  intros Hok Hargs. pose proof Hok as [Hm Hwf]. destruct c as [x n v|x n|x v|x|x y|x y|x l|x y|x y from to|x|x|x]; cbn [exec args_ok] in *.
  - apply set_var_safe; [done|]. destruct (resize_safe n v (s.1 x) s.2 Hm (Hwf x) Hargs) as [->|(a' & mem' & -> & ? & ? & ? & ?)]; done.
  - by apply set_var_safe, reserve_safe.
  - by apply set_var_safe, push_back_safe.
  - apply set_var_safe; [done|]. split_and!; [done| |done]. destruct (Hwf x) as [Hs Hv]. unfold pop_back.
    destruct (Z.eqb_spec (size_ (s.1 x)) 0); split; simpl; (done || lia).
  - by apply set_var_safe, append_safe.
  - by apply set_var_safe, CopyFrom_array_safe.
  - by apply set_var_safe, CopyFrom_range_safe.
  - apply set_var_safe; [done|]. split_and!; [done| |done]. exact (Hwf y).
  - by apply set_var_safe, segment_safe.
  - apply set_var_safe; [done|]. split_and!; [done| |done]. split; [simpl; lia|by left].
  - unfold front. destruct (empty (s.1 x)) eqn:He; [done|]. apply Z.eqb_neq in He. destruct (Hwf x) as [Hs _].
    destruct (read_safe s.2 (s.1 x) 0 (Hwf x)) as [v E]; [lia|]. by rewrite (bind_eq _ _ _ E).
  - unfold back. destruct (empty (s.1 x)) eqn:He; [done|]. apply Z.eqb_neq in He. destruct (Hwf x) as [Hs _].
    destruct (read_safe s.2 (s.1 x) (size_ (s.1 x) - 1) (Hwf x)) as [v E]; [lia|]. by rewrite (bind_eq _ _ _ E).
Qed.

Fixpoint exec_all (cs : list cmd) (s : vars) : result vars :=
  match cs with [] => Ok s | c :: cs => s ← exec c s; exec_all cs s end.

(** The exception: appending an array to itself reads the size again after it
    has grown. *)
Lemma append_itself_undefined a mem :
  mem_ok mem → wf mem a → 0 < size_ a → (size_ a * 2 + 5) * Z.of_nat (sizeof V) ≤ max_bytes →
  append (V:=V) true a a mem = Err (Undefined "memcpy of overlapping memory").
Proof.
  intros Hm Hwf Hs Hb. pose proof (wf_size _ _ Hm Hwf) as [_ Hsa]. unfold append, empty. rewrite (proj2 (Z.eqb_neq _ _)) by lia.
  rewrite (uwrap_small 64) by word_lia. replace (size_ a + size_ a) with (size_ a * 2) by lia.
  destruct (resize_ok (size_ a * 2) zero a mem Hm Hwf) as (a1 & mem1 & E & Hm1 & Hwf1 & Hs1 & Hc1 & _); [lia|done|].
  rewrite (bind_eq _ _ _ E). cbn beta iota. pose proof (wf_size _ _ Hm1 Hwf1) as [Hs1' _]. rewrite (uwrap_small 64) by word_lia.
  unfold memcpy, elem. destruct Hwf1 as [_ [Hz|(b & o & -> & _)]]; [pose proof sizeof_pos; nia|]. simpl. pose proof sizeof_pos as Hsz.
  rewrite Nat.eqb_refl, !(proj2 (Nat.ltb_lt _ _)) by nia. done.
Qed.
End laws.

(** ** Any library

    A library that insists on valid pointers gives the same, or the call is
    undefined. *)
Definition any_pointer : Libc := {| empty_memcpy := λ _, true |}.

Section any_library.
Context (L : Libc) {V : Type} `{ReprLaws V}.

(** The outcome [r] with the library [L] against [r'] with [any_pointer]. *)
Definition same_or_invalid {A} (r r' : result A) : Prop :=
  r = r' ∨ r = Err (Undefined "memcpy with an invalid pointer") ∧ ∃ p, empty_memcpy p = false.

Lemma same_or_invalid_bind {A B} (r r' : result A) (f f' : A → result B) :
  same_or_invalid r r' → (∀ x, same_or_invalid (f x) (f' x)) → same_or_invalid (x ← r; f x) (x ← r'; f' x).
Proof.
  intros [->|[-> Hp]] Hf; [|right; by split]. destruct r' as [x|]; [apply Hf|by left].
Qed.

Lemma memcpy_any dst src n mem : same_or_invalid (memcpy (H:=L) dst src n mem) (memcpy (H:=any_pointer) dst src n mem).
Proof.
  unfold memcpy. destruct (overlap dst src n); [by left|]. cbn [negb].
  assert (∀ p, accepts (H:=any_pointer) p = true) as Hany by by intros [].
  assert (∀ p, accepts (H:=L) p = false → ∃ q, empty_memcpy q = false) as Hex by (intros [] Hp; [by eexists..|done]).
  rewrite !Hany, orb_true_r. destruct (n =? 0)%nat; [|by left]. cbn [negb orb].
  destruct (accepts dst) eqn:Ed, (accepts src) eqn:Es; cbn [andb]; [by left|right; split; eauto..].
Qed.

Ltac same_bind := apply same_or_invalid_bind; [|intros].

Lemma resize_any n v a mem : same_or_invalid (resize (L:=L) n v a mem) (resize (L:=any_pointer) (V:=V) n v a mem).
Proof.
  unfold resize. same_bind.
  - destruct (n <=? capacity_ a); [by left|]. same_bind; [by left|]. case_match. same_bind; [apply memcpy_any|by left].
  - case_match. destruct (n <=? size_ a); by left.
Qed.

Lemma reserve_any n a mem : same_or_invalid (reserve (L:=L) (V:=V) n a mem) (reserve (L:=any_pointer) (V:=V) n a mem).
Proof.
  unfold reserve. destruct (n <=? capacity_ a); [by left|]. same_bind; [apply resize_any|]. case_match. by left.
Qed.

Lemma exec_any c s : same_or_invalid (exec (L:=L) (V:=V) c s) (exec (L:=any_pointer) c s).
Proof.
  destruct c as [x n v|x n|x v|x|x y|x y|x l|x y|x y from to|x|x|x]; cbn [exec]; try by left.
  - same_bind; [apply resize_any|by left].
  - same_bind; [apply reserve_any|by left].
  - same_bind; [|by left]. unfold push_back. same_bind; [|by left].
    destruct (_ =? _); [apply reserve_any|by left].
  - same_bind; [|by left]. unfold append. destruct (empty _); [by left|]. same_bind; [apply resize_any|].
    case_match. same_bind; [apply memcpy_any|by left].
  - same_bind; [|by left]. unfold CopyFrom_array, CopyFrom. destruct (x =? y)%nat; [by left|]. same_bind; [apply resize_any|].
    case_match. same_bind; [apply memcpy_any|by left].
Qed.

(** C33. Any sequence of operations on any number of arrays that share memory
    (sizes below 2^63, lists shorter than 2^31): whatever is copied, cut into
    segments and grown, every array keeps to initialised memory of the program.
    The operations either succeed, and all arrays are well-formed again, or a
    check or an allocation fails; the only undefined behaviour is a [memcpy]
    between parts of one array that overlap, and a [memcpy] of 0 bytes with a
    pointer that was never set or is null, unless the library takes it. *)
Theorem sarrays_stay_well_formed cs :
  Forall args_ok cs →
  match exec_all (L:=L) (V:=V) cs (λ _, new_sarray, []) with
  | Ok s => vars_ok (V:=V) s
  | Err (CheckFailed _) => True
  | Err (Undefined w) => w = "memcpy of overlapping memory" ∨
                         w = "memcpy with an invalid pointer" ∧ ∃ p, empty_memcpy p = false
  | Err (Blocked _) => False
  end.
Proof.
  intros Hargs. assert (Hok : vars_ok (V:=V) (λ _, new_sarray, [])).
  { split; [by constructor|]. intros x. split; [simpl; lia|by left]. }
  revert Hok. generalize ((λ _, new_sarray, []) : vars). induction Hargs as [|c cs Hc Hcs IH]; intros s Hok; [done|]. cbn [exec_all].
  pose proof (exec_safe (L:=any_pointer) (λ _, eq_refl) c s Hok Hc) as Hs.
  destruct (exec_any c s) as [E|[E Hp]]; rewrite E; [|cbn; by right].
  destruct (exec c s) as [s'|f]; [by apply IH|]. destruct f; [done|by left|done].
Qed.

(** Where it does not, the first growth of a new array is undefined. *)
Theorem first_growth_undefined n v mem :
  empty_memcpy Indeterminate = false → 0 < n → (n + 5) * Z.of_nat (sizeof V) ≤ max_bytes →
  resize (L:=L) (V:=V) n v new_sarray mem = Err (Undefined "memcpy with an invalid pointer").
Proof.
  intros Hp Hn Hb. pose proof (sizeof_pos (V:=V)). unfold max_bytes in *. unfold resize. cbn [capacity_ new_sarray size_ ptr_].
  rewrite (proj2 (Z.leb_gt n 0)) by lia. rewrite (uwrap_small 64 (n + 5)) by (unfold in_u; pow2; nia).
  unfold new_array. rewrite (proj2 (Z.leb_le 0 _)), (proj2 (Z.leb_le _ max_bytes)) by (unfold max_bytes; lia).
  cbn [andb mbind result_bind]. unfold memcpy. cbn [overlap negb]. change (Z.to_nat (u64 (0 * Z.of_nat (sizeof V)))) with 0%nat.
  cbn [Nat.eqb negb orb accepts]. by rewrite Hp.
Qed.
End any_library.

(** ** Bytes and pairs of bytes *)
#[export] Instance byte_repr : Repr byte := {
  sizeof := 1; encode b := [b]; decode bs := default x00 (head bs); zero := x00; is_zero b := bool_decide (b = x00)
}.
#[export] Instance byte_laws : ReprLaws byte.
Proof. split; [simpl; lia|done|done| |done]. by intros v ->%bool_decide_eq_true_1. Qed.

(** ** Conversions

    An array as bytes has the bytes of its elements, and the bytes as an array of
    the type have its elements again, in the same memory. *)
Lemma encode_all_bytes (bs : list byte) : encode_all bs = bs.
Proof. unfold encode_all. induction bs as [|b bs IH]; [done|]. simpl. by f_equal. Qed.

Lemma cast_roundtrip {V} `{ReprLaws V} mem a (l : list V) x y :
  mem_ok mem → wf (V := V) mem a → contents mem a l →
  ∃ b a', assign (V := byte) (W := V) a x = Ok b ∧ contents mem b (encode_all l) ∧ wf (V := byte) mem b ∧
    assign (V := V) (W := byte) b y = Ok a' ∧ contents mem a' l ∧ ptr_ a' = ptr_ a.
Proof.
  intros Hm Hwf [Hs Hc]. pose proof (wf_size _ _ Hm Hwf) as [Hb _]. pose proof (wf_bytes _ _ Hm Hwf) as Hcb. pose proof Hwf as [Hsc Hv].
  pose proof (sizeof_pos (V := V)) as Hsz. unfold max_bytes in *. change (2 ^ 47) with 140737488355328 in *.
  unfold assign. change (Z.of_nat (sizeof byte)) with 1. rewrite !Z.mul_1_r, !Z.div_1_r.
  rewrite !(uwrap_small 64 (size_ a * _)) by word_lia. rewrite Z.eqb_refl.
  eexists _, _. split; [reflexivity|]. simpl. rewrite !Z.mul_1_r, !(uwrap_small 64 (size_ a * _)), Z.div_mul by (word_lia || lia).
  rewrite (uwrap_small 64 (size_ a * _)) by word_lia. rewrite Z.eqb_refl. split_and!; [split| |reflexivity|split; [done|exact Hc]|done].
  - simpl. rewrite encode_all_length. lia.
  - simpl. by rewrite encode_all_bytes.
  - split; simpl; rewrite (uwrap_small 64) by (unfold in_u; pow2; nia); [nia|]. eapply valid_le; [exact Hv|]. rewrite Nat.mul_1_r. nia.
Qed.

(** A 16-bit integer, low byte first *)
#[export] Instance short_repr : Repr (byte * byte) := {
  sizeof := 2; encode v := [v.1; v.2]; decode bs := (nth 0 bs x00, nth 1 bs x00); zero := (x00, x00);
  is_zero v := bool_decide (v = (x00, x00))
}.
#[export] Instance short_laws : ReprLaws (byte * byte).
Proof. split; [simpl; lia|done|by intros []| |done]. by intros v ->%bool_decide_eq_true_1. Qed.

#[local] Instance demo_libc : Libc := any_pointer.


Definition demo_cmds : list (cmd (V := byte)) :=
  [DoAssign 0 [x01; x02]; DoSegment 1 0 1 2; DoPushBack 1 x05; DoAppend 0 1; DoBack 0].

(** A library that takes no invalid pointer: segments, growth and appending. *)
Definition strict_libc : Libc := {| empty_memcpy := λ _, false |}.

Lemma sarrays_stay_well_formed_witness :
  ∃ s, exec_all (L := strict_libc) (V := byte) demo_cmds (λ _, new_sarray, []) = Ok s ∧ vars_ok (V := byte) s ∧ size_ (s.1 0%nat) = 4.
Proof.
  assert (Forall args_ok demo_cmds) as Hargs
    by (unfold demo_cmds; rewrite !Forall_cons; split_and!; [reflexivity|simpl; lia|exact I..|constructor]).
  pose proof (sarrays_stay_well_formed strict_libc (V := byte) demo_cmds Hargs) as H.
  destruct (exec_all demo_cmds _) as [s|f] eqn:E; [|vm_compute in E; discriminate E].
  exists s. split; [reflexivity|]. split; [exact H|]. vm_compute in E. injection E as <-. reflexivity.
Defined.
