(* ===== verification/HashMap.v ===== *)
(** * The hash map (include/ps/hash_table8.hpp)

    [emhash8::HashMap] keeps its pairs in one dense array and an index of
    buckets beside it.  A bucket holds the place of a pair, the high bits of
    its hash and the next bucket of its chain; the last bucket of a chain
    points to itself, and an empty bucket has a negative [next].  The chain of
    a hash value starts at its main bucket: a pair of another chain that sits
    there is moved away ([kickout_bucket]).

    The macros that select other layouts ([EMH_HIGH_LOAD], [EMH_PACK_TAIL],
    [EMH_SORT], [EMH_STATIS], [EMH_INT_HASH], [EMH_WYHASH_HASH],
    [EMH_SMALL_TYPE], [EMH_SAVE_MEM]) are not defined in this program, so that
    [size_type] is [uint32_t] and their code is not compiled. *)

From S2P Require Import Prelude.

Definition INACTIVE : Z := 2 ^ 32 - 1.
Definition EAD : nat := 2.

(** ** Single-precision arithmetic

    The few floating-point computations of the header: quotients and integers
    rounded to 24 significant bits. *)

(** The integer nearest to [a / b], ties to even. *)
Definition round_even (a b : Z) : Z :=
  let q := a / b in
  let r := a mod b in
  if 2 * r <? b then q else if b <? 2 * r then q + 1 else if Z.even q then q else q + 1.

(** [(float)n] for an unsigned [n]. *)
Definition f32_of (n : Z) : Z :=
  let s := Z.max 0 (Z.log2 n - 23) in round_even n (2 ^ s) * 2 ^ s.

(** A positive float, [significand / 2 ^ scale]. *)
Record f32 : Type := mkF32 { significand : Z; scale : Z }.

(** The quotient of two positive values. *)
Definition f32_quot (a b : Z) : f32 :=
  if a =? 0 then mkF32 0 0
  else
    let l := Z.log2 a - Z.log2 b in
    let k := if a * 2 ^ Z.max 0 (- l) <? b * 2 ^ Z.max 0 l then 24 - l else 23 - l in
    mkF32 (if 0 <=? k then round_even (a * 2 ^ k) b else round_even a (b * 2 ^ (- k))) k.

(** Comparison with the fraction [p / q] and conversion to an integer. *)
Definition f32_lt (x : f32) (p q : Z) : bool :=
  significand x * q * 2 ^ Z.max 0 (- scale x) <? p * 2 ^ Z.max 0 (scale x).
Definition f32_gt (x : f32) (p q : Z) : bool :=
  p * 2 ^ Z.max 0 (scale x) <? significand x * q * 2 ^ Z.max 0 (- scale x).
Definition f32_trunc (x : f32) : Z :=
  if 0 <=? scale x then significand x / 2 ^ scale x else significand x * 2 ^ (- scale x).

(** [EMH_DEFAULT_LOAD_FACTOR], [0.80f]: the float nearest to 8/10. *)
Definition EMH_DEFAULT_LOAD_FACTOR : f32 := f32_quot 8 10.

(** ** State *)
Record Index : Type := mkIndex { next : Z; slot : Z }.

#[export] Instance Index_eq_dec : EqDecision Index.
Proof. solve_decision. Defined.

Module HashMap.
(** [_pairs] lists the objects of the array, [_capacity] is the number it was
    allocated for. *)
Record t (K V : Type) : Type := mk {
  _index : list Index;
  _pairs : list (K * V);
  _capacity : Z;
  _mlf : Z;
  _mask : Z;
  _num_buckets : Z;
  _num_filled : Z;
  _last : Z;
  _etail : Z
}.
Arguments mk {K V}.
Arguments _index {K V}.
Arguments _pairs {K V}.
Arguments _capacity {K V}.
Arguments _mlf {K V}.
Arguments _mask {K V}.
Arguments _num_buckets {K V}.
Arguments _num_filled {K V}.
Arguments _last {K V}.
Arguments _etail {K V}.

Section table.
Context {K V : Type} `{EqDecision K}.
(** [HashT]; [trivial] is [is_triviall_destructable()], [V0] is [ValueT()]. *)
Context (hasher : K → Z) (trivial : bool) (V0 : V).
Implicit Types (h : t K V) (key : K).

Definition hash_key key : Z := u64 (hasher key).

(** ** Memory *)
Definition get_index h (n : Z) : result Index :=
  if (0 <=? n) && (n <? Z.of_nat (length (_index h)))
  then from_option_or (Undefined "_index[n]") (_index h !! Z.to_nat n)
  else Err (Undefined "_index[n]").
Definition set_index (n : Z) (e : Index) h : result (t K V) :=
  inside! (0 <=? n) && (n <? Z.of_nat (length (_index h))) or "_index[n]";
  Ok (mk (<[Z.to_nat n := e]> (_index h)) (_pairs h) (_capacity h) (_mlf h) (_mask h)
        (_num_buckets h) (_num_filled h) (_last h) (_etail h)).
Definition get_pair h (n : Z) : result (K * V) :=
  if (0 <=? n) && (n <? Z.of_nat (length (_pairs h)))
  then from_option_or (Undefined "_pairs[n]") (_pairs h !! Z.to_nat n)
  else Err (Undefined "_pairs[n]").
Definition set_pairs (ps : list (K * V)) (n : Z) h : t K V :=
  mk (_index h) ps (_capacity h) (_mlf h) (_mask h) (_num_buckets h) n (_last h) (_etail h).
Definition set_last (l : Z) h : t K V :=
  mk (_index h) (_pairs h) (_capacity h) (_mlf h) (_mask h) (_num_buckets h) (_num_filled h) l (_etail h).
Definition set_etail (b : Z) h : t K V :=
  mk (_index h) (_pairs h) (_capacity h) (_mlf h) (_mask h) (_num_buckets h) (_num_filled h) (_last h) b.

(** [(int)next < 0] *)
Definition negative (n : Z) : bool := i32 n <? 0.
(** [EMH_EMPTY] *)
Definition EMH_EMPTY h (n : Z) : result bool := e ← get_index h n; Ok (negative (next e)).
(** [slot & _mask] and [(size_type)(key_hash) & ~_mask] *)
Definition low h (s : Z) : Z := Z.land s (_mask h).
Definition high h (key_hash : Z) : Z := Z.ldiff (u32 key_hash) (_mask h).
(** [EMH_EQHASH] *)
Definition EMH_EQHASH h (e : Index) (key_hash : Z) : bool := high h key_hash =? Z.ldiff (slot e) (_mask h).

(** [size_type(key_hash & _mask)] *)
Definition bucket_of h (key_hash : Z) : Z := u32 (Z.land key_hash (_mask h)).
Definition hash_bucket h key : Z := Z.land (u32 (hash_key key)) (_mask h).
Definition hash_main h (bucket : Z) : result Z :=
  e ← get_index h bucket;
  p ← get_pair h (low h (slot e));
  Ok (hash_bucket h p.1).

(** ** Loops along a chain

    The loops have no exit of their own on a cyclic chain; [fuel] bounds the
    number of buckets visited. *)
Definition fuel h : nat := S (Z.to_nat (_num_buckets h)).
Definition endless {A} : result A := Err (Undefined "loop without end").

Fixpoint last_loop (f : nat) h (next_bucket : Z) : result Z :=
  match f with
  | O => endless
  | S f' =>
      e ← get_index h next_bucket;
      if next e =? next_bucket then Ok next_bucket else last_loop f' h (next e)
  end.

Definition find_last_bucket h (main_bucket : Z) : result Z :=
  e ← get_index h main_bucket;
  if next e =? main_bucket then Ok main_bucket else last_loop (fuel h) h (next e).

Fixpoint prev_loop (f : nat) h (bucket next_bucket : Z) : result Z :=
  match f with
  | O => endless
  | S f' =>
      e ← get_index h next_bucket;
      if next e =? bucket then Ok next_bucket else prev_loop f' h bucket (next e)
  end.

Definition find_prev_bucket h (main_bucket bucket : Z) : result Z :=
  e ← get_index h main_bucket;
  if next e =? bucket then Ok main_bucket else prev_loop (fuel h) h bucket (next e).

Fixpoint slot_loop (f : nat) h (s next_bucket : Z) : result Z :=
  match f with
  | O => endless
  | S f' =>
      e ← get_index h next_bucket;
      if s =? low h (slot e) then Ok next_bucket else slot_loop f' h s (next e)
  end.

(** [find_slot_bucket] returns the bucket of a place of the array, and the main
    bucket of its key. *)
Definition find_slot_bucket h (s : Z) : result (Z * Z) :=
  p ← get_pair h s;
  let bucket := bucket_of h (hash_key p.1) in
  e ← get_index h bucket;
  if s =? low h (slot e) then Ok (bucket, bucket)
  else x ← slot_loop (fuel h) h s (next e); Ok (x, bucket).

Definition slot_to_bucket h (s : Z) : result Z := x ← find_slot_bucket h s; Ok x.1.

(** Does the bucket [e] hold [key]? *)
Definition matches h key (key_hash : Z) (e : Index) : result bool :=
  if EMH_EQHASH h e key_hash then
    p ← get_pair h (low h (slot e));
    Ok (bool_decide (key = p.1))
  else Ok false.

(** The search loops of [find_filled_bucket] and [find_filled_slot]: [found]
    and [missing] are what they return. *)
Fixpoint find_loop (found : Z → Z → Z) (missing : Z) (f : nat) h key (key_hash next_bucket : Z)
    : result Z :=
  match f with
  | O => endless
  | S f' =>
      e ← get_index h next_bucket;
      b ← matches h key key_hash e;
      if b : bool then Ok (found next_bucket (low h (slot e)))
      else if next e =? next_bucket then Ok missing
      else find_loop found missing f' h key key_hash (next e)
  end.

Definition find_filled (found : Z → Z → Z) (missing : Z) h key (key_hash : Z) : result Z :=
  let bucket := bucket_of h key_hash in
  e ← get_index h bucket;
  if negative (next e) then Ok missing
  else
    b ← matches h key key_hash e;
    if b : bool then Ok (found bucket (low h (slot e)))
    else if next e =? bucket then Ok missing
    else find_loop found missing (fuel h) h key key_hash (next e).

Definition find_filled_bucket h key (key_hash : Z) : result Z :=
  find_filled (λ b _, b) INACTIVE h key key_hash.
Definition find_filled_slot h key : result Z :=
  find_filled (λ _ s, s) (_num_filled h) h key (hash_key key).

(** ** Empty buckets *)

(** The three quadratic probes: [k] is how many are left. *)
Fixpoint probe_loop (k : nat) h (bucket_from offset step : Z) : result (option Z) :=
  match k with
  | O => Ok None
  | S k' =>
      let bucket := Z.land (u32 (bucket_from + offset)) (_mask h) in
      b1 ← EMH_EMPTY h bucket;
      if b1 : bool then Ok (Some bucket)
      else
        b2 ← EMH_EMPTY h (bucket + 1);
        if b2 : bool then Ok (Some (bucket + 1))
        else probe_loop k' h bucket_from (u32 (offset + step)) (step + 1)
  end.

(** The search from [_last] and from the opposite side of the table. *)
Fixpoint last_probe (f : nat) h : result (Z * t K V) :=
  match f with
  | O => endless
  | S f' =>
      let l := u32 (Z.land (_last h) (_mask h) + 1) in
      let h := set_last l h in
      b1 ← EMH_EMPTY h l;
      if b1 : bool then Ok (l, h)
      else
        let medium := Z.land (u32 (_num_buckets h / 2 + l)) (_mask h) in
        b2 ← EMH_EMPTY h medium;
        if b2 : bool then Ok (medium, h) else last_probe f' h
  end.

Definition find_empty_bucket (bucket_from csize : Z) h : result (Z * t K V) :=
  b1 ← EMH_EMPTY h (bucket_from + 1);
  if b1 : bool then Ok (bucket_from + 1, h)
  else
    b2 ← EMH_EMPTY h (bucket_from + 2);
    if b2 : bool then Ok (bucket_from + 2, h)
    else
      o ← probe_loop 3 h bucket_from (u32 (1 + csize)) 3;
      match o with
      | Some b => Ok (b, h)
      | None => last_probe (fuel h) h
      end.

(** ** Room for a new pair *)

(** [_index[n].next = b] *)
Definition set_next (n b : Z) h : result (t K V) :=
  e ← get_index h n; set_index n (mkIndex b (slot e)) h.
(** [_index[n].slot = s] *)
Definition set_slot (n s : Z) h : result (t K V) :=
  e ← get_index h n; set_index n (mkIndex (next e) s) h.

Definition kickout_bucket (kmain bucket : Z) h : result (Z * t K V) :=
  e ← get_index h bucket;
  let next_bucket := next e in
  x ← find_empty_bucket next_bucket 2 h;
  let '(new_bucket, h) := x in
  prev_bucket ← find_prev_bucket h kmain bucket;
  let last := if next_bucket =? bucket then new_bucket else next_bucket in
  eb ← get_index h bucket;
  h ← set_index new_bucket (mkIndex last (slot eb)) h;
  h ← set_next prev_bucket new_bucket h;
  h ← set_next bucket INACTIVE h;
  Ok (bucket, h).

(** A new bucket behind the last one of a chain. *)
Definition extend_chain (tail_bucket csize : Z) h : result (Z * t K V) :=
  x ← find_empty_bucket tail_bucket csize h;
  h ← set_next tail_bucket x.1 x.2;
  Ok (x.1, h).

(** The loop of [find_or_allocate]: the bucket of the key, or the last bucket
    of the chain and its length. *)
Fixpoint alloc_loop (f : nat) h key (key_hash next_bucket csize : Z) : result (Z + Z * Z) :=
  match f with
  | O => endless
  | S f' =>
      e ← get_index h next_bucket;
      b ← matches h key key_hash e;
      if b : bool then Ok (inl next_bucket)
      else
        let csize := u32 (csize + 1) in
        if next e =? next_bucket then Ok (inr (next_bucket, csize))
        else alloc_loop f' h key key_hash (next e) csize
  end.

Definition find_or_allocate key (key_hash : Z) h : result (Z * t K V) :=
  let bucket := bucket_of h key_hash in
  e ← get_index h bucket;
  let next_bucket := next e in
  if negative next_bucket then Ok (bucket, h)
  else
    let s := low h (slot e) in
    b ← matches h key key_hash e;
    if b : bool then Ok (bucket, h)
    else
      p ← get_pair h s;
      let kmain := hash_bucket h p.1 in
      if negb (kmain =? bucket) then kickout_bucket kmain bucket h
      else if next_bucket =? bucket then extend_chain next_bucket 1 h
      else
        r ← alloc_loop (fuel h) h key key_hash next_bucket 1;
        match r with
        | inl b => Ok (b, h)
        | inr (tail_bucket, csize) => extend_chain tail_bucket csize h
        end.

Definition find_unique_bucket (key_hash : Z) h : result (Z * t K V) :=
  let bucket := bucket_of h key_hash in
  e ← get_index h bucket;
  let next_bucket := next e in
  if negative next_bucket then Ok (bucket, h)
  else
    kmain ← hash_main h bucket;
    if negb (kmain =? bucket) then kickout_bucket kmain bucket h
    else
      tail_bucket ← (if negb (next_bucket =? bucket) then find_last_bucket h next_bucket
                     else Ok next_bucket);
      extend_chain tail_bucket 2 h.

(** [EMH_NEW]: the pair is put behind the others. *)
Definition EMH_NEW key (val : V) (bucket key_hash : Z) h : result (t K V) :=
  inside! (_num_filled h <? _capacity h) or "_pairs + _num_filled";
  let n := _num_filled h in
  let h := set_etail bucket (set_pairs (_pairs h ++ [(key, val)]) (u32 (n + 1)) h) in
  set_index bucket (mkIndex bucket (Z.lor n (high h key_hash))) h.

(** ** Growing *)

(** [max_load_factor()] and the number of pairs allocated for [num_buckets];
    [num_buckets] is a power of two, so that the product is exact. *)
Definition max_load_factor (mlf : Z) : f32 := f32_quot (2 ^ 27) (f32_of mlf).
Definition pairs_for (num_buckets mlf : Z) : Z :=
  let f := max_load_factor mlf in
  f32_trunc (mkF32 (num_buckets * significand f) (scale f)) + 4.

Definition fresh_index (num_buckets : Z) : list Index :=
  replicate (Z.to_nat num_buckets) (mkIndex INACTIVE INACTIVE) ++ replicate EAD (mkIndex 0 0).

Definition rebuild (num_buckets : Z) h : result (t K V) :=
  let cap := pairs_for num_buckets (_mlf h) in
  inside! (_num_filled h <=? cap) or "new_pairs + slot";
  Ok (mk (fresh_index num_buckets) (_pairs h) cap (_mlf h) (_mask h) (_num_buckets h)
        (_num_filled h) (_last h) (_etail h)).

(** [while (num_buckets < required_buckets) num_buckets *= 2]; 32 doublings of
    an [unsigned int] are enough for every requirement that passes the
    assertion. *)
Fixpoint double_up (f : nat) (num_buckets required : Z) : result Z :=
  match f with
  | O => endless
  | S f' =>
      if num_buckets <? required then double_up f' (u32 (num_buckets * 2)) required
      else Ok num_buckets
  end.

(** The pairs [slot ...] get their buckets. *)
Fixpoint index_loop (s : Z) (ps : list (K * V)) h : result (t K V) :=
  match ps with
  | [] => Ok h
  | p :: ps' =>
      let key_hash := hash_key p.1 in
      x ← find_unique_bucket key_hash h;
      let '(bucket, h) := x in
      h ← set_index bucket (mkIndex bucket (Z.lor s (high h key_hash))) h;
      index_loop (s + 1) ps' h
  end.

Definition rehash (required_buckets : Z) h : result (t K V) :=
  if required_buckets <? _num_filled h then Ok h
  else
    check! (required_buckets <? 2 ^ 31) or "required_buckets < (uint64_t)max_size()";
    num_buckets ← double_up 33 (if 2 ^ 16 <? _num_filled h then 2 ^ 16 else 4) required_buckets;
    let h := mk (_index h) (_pairs h) (_capacity h) (_mlf h) (num_buckets - 1) num_buckets
               (_num_filled h) 0 (_etail h) in
    h ← rebuild num_buckets h;
    index_loop 0 (_pairs h) (set_etail INACTIVE h).

(** [reserve(num_elems, force)] *)
Definition required_for (num_elems mlf : Z) : Z := Z.shiftr (u64 (num_elems * mlf)) 27.
Definition reserve (num_elems : Z) h : result (bool * t K V) :=
  let required_buckets := required_for num_elems (_mlf h) in
  if required_buckets <? _mask h then Ok (false, h)
  else h ← rehash (required_buckets + 2) h; Ok (true, h).
Definition check_expand_need h : result (t K V) := x ← reserve (_num_filled h) h; Ok x.2.

(** ** Construction *)
Definition set_max_load_factor (mlf : f32) h : result (t K V) :=
  if f32_lt mlf 992 1000 && f32_gt mlf 1 4 then
    let m := f32_trunc (f32_quot (2 ^ 27 * 2 ^ scale mlf) (significand mlf)) in
    let h := mk (_index h) (_pairs h) (_capacity h) m (_mask h) (_num_buckets h) (_num_filled h)
               (_last h) (_etail h) in
    if 0 <? _num_buckets h then rehash (_num_buckets h) h else Ok h
  else Ok h.

Definition default_mlf : Z :=
  f32_trunc (f32_quot (2 ^ 27 * 2 ^ scale EMH_DEFAULT_LOAD_FACTOR) (significand EMH_DEFAULT_LOAD_FACTOR)).

(** [init]; [_last] and [_etail] have no value before [rehash] sets them. *)
Definition init (bucket : Z) (mlf : f32) : result (t K V) :=
  h ← set_max_load_factor mlf (mk [] [] 0 default_mlf 0 0 0 0 0);
  rehash bucket h.
Definition new : result (t K V) := init 2 EMH_DEFAULT_LOAD_FACTOR.

(** ** Look-up *)

(** An iterator is the place it points to. *)
Definition find h key : result Z := find_filled_slot h key.
Definition contains h key : result bool :=
  s ← find_filled_slot h key; Ok (negb (s =? _num_filled h)).
Definition count h key : result Z :=
  s ← find_filled_slot h key; Ok (if s =? _num_filled h then 0 else 1).
(** [at] reads the value behind the last pair when there is no such key. *)
Definition at_ h key : result V :=
  s ← find_filled_slot h key; p ← get_pair h s; Ok p.2.
Definition try_get h key : result (option V) :=
  s ← find_filled_slot h key;
  if negb (s =? _num_filled h) then p ← get_pair h s; Ok (Some p.2) else Ok None.
Definition get_or_return_default h key : result V :=
  s ← find_filled_slot h key;
  if s =? _num_filled h then Ok V0 else p ← get_pair h s; Ok p.2.

(** [_pairs[s].second = val] *)
Definition set_value (s : Z) (val : V) h : result (t K V) :=
  p ← get_pair h s;
  Ok (set_pairs (<[Z.to_nat s := (p.1, val)]> (_pairs h)) (_num_filled h) h).

Definition try_set key (val : V) h : result (bool * t K V) :=
  s ← find_filled_slot h key;
  if s =? _num_filled h then Ok (false, h) else h ← set_value s val h; Ok (true, h).

(** ** Insertion *)

(** The common part of the insertions: the bucket of the key, filled with [val]
    if the key is new; the result is the pair's place and whether it is new. *)
Definition do_insert key (val : V) h : result (Z * bool * t K V) :=
  let key_hash := hash_key key in
  x ← find_or_allocate key key_hash h;
  let '(bucket, h) := x in
  bempty ← EMH_EMPTY h bucket;
  h ← (if bempty : bool then EMH_NEW key val bucket key_hash h else Ok h);
  e ← get_index h bucket;
  Ok (low h (slot e), bempty, h).

Definition do_assign key (val : V) h : result (Z * bool * t K V) :=
  h ← check_expand_need h;
  let key_hash := hash_key key in
  x ← find_or_allocate key key_hash h;
  let '(bucket, h) := x in
  bempty ← EMH_EMPTY h bucket;
  h ← (if bempty : bool then EMH_NEW key val bucket key_hash h
       else e ← get_index h bucket; set_value (low h (slot e)) val h);
  e ← get_index h bucket;
  Ok (low h (slot e), bempty, h).

(** [insert], [emplace], [try_emplace] *)
Definition insert_ key (val : V) h : result (Z * bool * t K V) :=
  h ← check_expand_need h; do_insert key val h.

Fixpoint do_insert_all (l : list (K * V)) h : result (t K V) :=
  match l with
  | [] => Ok h
  | p :: l' => x ← do_insert p.1 p.2 h; do_insert_all l' x.2
  end.
(** [insert(first, last)] and [insert(ilist)] *)
Definition insert_range (l : list (K * V)) h : result (t K V) :=
  x ← reserve (Z.of_nat (length l) + _num_filled h) h;
  do_insert_all l x.2.

(** [insert_unique] and [emplace_unique] do not look for the key. *)
Definition insert_unique key (val : V) h : result (Z * t K V) :=
  h ← check_expand_need h;
  let key_hash := hash_key key in
  x ← find_unique_bucket key_hash h;
  let '(bucket, h) := x in
  h ← EMH_NEW key val bucket key_hash h;
  Ok (bucket, h).

Definition set_get key (val : V) h : result (V * t K V) :=
  h ← check_expand_need h;
  let key_hash := hash_key key in
  x ← find_or_allocate key key_hash h;
  let '(bucket, h) := x in
  bempty ← EMH_EMPTY h bucket;
  if bempty : bool then h ← EMH_NEW key val bucket key_hash h; Ok (V0, h)
  else
    e ← get_index h bucket;
    p ← get_pair h (low h (slot e));
    h ← set_value (low h (slot e)) val h;
    Ok (p.2, h).

(** [operator[]]: the place of the value, which is [ValueT()] for a new key. *)
Definition index_ key h : result (Z * t K V) :=
  h ← check_expand_need h;
  let key_hash := hash_key key in
  x ← find_or_allocate key key_hash h;
  let '(bucket, h) := x in
  bempty ← EMH_EMPTY h bucket;
  h ← (if bempty : bool then EMH_NEW key V0 bucket key_hash h else Ok h);
  e ← get_index h bucket;
  Ok (low h (slot e), h).

(** ** Removal *)
Definition erase_bucket (bucket main_bucket : Z) h : result (Z * t K V) :=
  e ← get_index h bucket;
  let next_bucket := next e in
  if bucket =? main_bucket then
    h ← (if negb (main_bucket =? next_bucket) then
           en ← get_index h next_bucket;
           set_index main_bucket
             (mkIndex (if next en =? next_bucket then main_bucket else next en) (slot en)) h
         else Ok h);
    Ok (next_bucket, h)
  else
    prev_bucket ← find_prev_bucket h main_bucket bucket;
    h ← set_next prev_bucket (if bucket =? next_bucket then prev_bucket else next_bucket) h;
    Ok (bucket, h).

(** The last pair takes the place [s] of the erased one. *)
Definition move_last (s last_slot ebucket : Z) h : result (t K V) :=
  last_bucket ← (if (_etail h =? INACTIVE) || (ebucket =? _etail h) then slot_to_bucket h last_slot
                 else Ok (_etail h));
  p ← get_pair h last_slot;
  _ ← get_pair h s;
  let h := set_pairs (<[Z.to_nat s := p]> (_pairs h)) (_num_filled h) h in
  e ← get_index h last_bucket;
  set_slot last_bucket (Z.lor s (Z.ldiff (slot e) (_mask h))) h.

Definition erase_slot (sbucket main_bucket : Z) h : result (t K V) :=
  e ← get_index h sbucket;
  let s := low h (slot e) in
  x ← erase_bucket sbucket main_bucket h;
  let '(ebucket, h) := x in
  let last_slot := u32 (_num_filled h - 1) in
  let h := set_pairs (_pairs h) last_slot h in
  h ← (if negb (s =? last_slot) then move_last s last_slot ebucket h else Ok h);
  let h := set_etail INACTIVE (set_pairs (take (Z.to_nat last_slot) (_pairs h)) last_slot h) in
  set_index ebucket (mkIndex INACTIVE 0) h.

(** [erase(key)] returns the number of pairs removed. *)
Definition erase key h : result (Z * t K V) :=
  let key_hash := hash_key key in
  sbucket ← find_filled_bucket h key key_hash;
  if sbucket =? INACTIVE then Ok (0, h)
  else
    h ← erase_slot sbucket (u32 (Z.land key_hash (_mask h))) h;
    Ok (1, h).

(** [erase(iterator)] returns the same place. *)
Definition erase_it (s : Z) h : result (Z * t K V) :=
  x ← find_slot_bucket h s;
  h ← erase_slot x.1 x.2 h;
  Ok (s, h).

(** [erase(first, last)]: first the erased pairs are replaced by those behind
    [last] ([n] of them), then the rest is cut off from the end. *)
Fixpoint erase_front (n : nat) (esize it : Z) h : result (Z * t K V) :=
  match n with
  | O => Ok (esize, h)
  | S n' =>
      if esize <=? 0 then Ok (esize - 1, h)
      else x ← erase_it it h; erase_front n' (esize - 1) (x.1 + 1) x.2
  end.
Fixpoint erase_back (n : nat) (it : Z) h : result (Z * t K V) :=
  match n with
  | O => Ok (it, h)
  | S n' => x ← erase_it it h; erase_back n' (x.1 - 1) x.2
  end.
Definition erase_range (first last : Z) h : result (Z * t K V) :=
  x ← erase_front (Z.to_nat (_num_filled h - last)) (last - first) first h;
  erase_back (Z.to_nat x.1) (_num_filled x.2 - 1) x.2.

(** The loop of [erase_if]; every turn comes one place nearer to the end. *)
Fixpoint erase_if_loop (f : nat) (pred : K * V → bool) (it : Z) h : result (t K V) :=
  match f with
  | O => endless
  | S f' =>
      if it =? _num_filled h then Ok h
      else
        p ← get_pair h it;
        if pred p then x ← erase_it it h; erase_if_loop f' pred x.1 x.2
        else erase_if_loop f' pred (it + 1) h
  end.
Definition erase_if (pred : K * V → bool) h : result (Z * t K V) :=
  h' ← erase_if_loop (S (Z.to_nat (_num_filled h))) pred 0 h;
  Ok (_num_filled h - _num_filled h', h').

(** [clearkv]: [while (_num_filled --)] leaves the counter at its largest
    value. *)
Definition clearkv h : t K V :=
  if trivial then h else set_pairs [] (2 ^ 32 - 1) h.
Definition wipe (n : nat) (idx : list Index) : list Index :=
  replicate n (mkIndex INACTIVE INACTIVE) ++ drop n idx.
Definition clear h : t K V :=
  let h := clearkv h in
  let idx := if 0 <? _num_filled h then wipe (Z.to_nat (_num_buckets h)) (_index h) else _index h in
  mk idx [] (_capacity h) (_mlf h) (_mask h) (_num_buckets h) 0 0 INACTIVE.

(** [load_factor()] *)
Definition load_factor h : f32 := f32_quot (f32_of (_num_filled h)) (f32_of (f32_of (_mask h) + 1)).

(** [shrink_to_fit()]: [min_factor] is a quarter of the default load factor. *)
Definition shrink_to_fit h : result (t K V) :=
  if f32_lt (load_factor h) (significand EMH_DEFAULT_LOAD_FACTOR) (4 * 2 ^ scale EMH_DEFAULT_LOAD_FACTOR)
     && (10 <? _num_buckets h)
  then rehash (_num_filled h + 1) h
  else Ok h.

(** [pop_back()], [pop_front()] *)
Definition pop_back h : result (t K V) := x ← erase_it (_num_filled h - 1) h; Ok x.2.
Definition pop_front h : result (t K V) := x ← erase_it 0 h; Ok x.2.

(** ** Whole tables *)
Definition swap h h' : t K V * t K V := (h', h).

(** [operator=(HashMap&&)]: the argument is left empty. *)
Definition move_assign h rhs : t K V * t K V := let '(h, rhs) := swap h rhs in (h, clear rhs).

(** [HashMap(HashMap&&)] *)
Definition move_new rhs : result (t K V * t K V) :=
  h ← init 0 EMH_DEFAULT_LOAD_FACTOR; Ok (move_assign h rhs).

(** [clone] copies everything but the sizes of the arrays. *)
Definition clone rhs h : result (t K V) :=
  inside! (_num_filled rhs <=? _capacity h) or "_pairs + slot";
  inside! (length (_index rhs) <=? length (_index h))%nat or "memcpy _index";
  Ok (mk (_index rhs) (_pairs rhs) (_capacity h) (_mlf rhs) (_mask rhs) (_num_buckets rhs)
        (_num_filled rhs) (_last rhs) (_etail rhs)).

Fixpoint insert_unique_all (l : list (K * V)) h : result (t K V) :=
  match l with
  | [] => Ok h
  | p :: l' => x ← insert_unique p.1 p.2 h; insert_unique_all l' x.2
  end.

(** New arrays for [num_buckets] buckets; their content is not set. *)
Definition alloc_tables (num_buckets mlf : Z) h : t K V :=
  mk (replicate (Z.to_nat num_buckets + EAD) (mkIndex 0 0)) [] (pairs_for num_buckets mlf) (_mlf h)
     (_mask h) (_num_buckets h) (_num_filled h) (_last h) (_etail h).

(** [HashMap(const HashMap&)] *)
Definition copy_new rhs : result (t K V) :=
  if f32_gt (load_factor rhs) 1 4 then
    clone rhs (alloc_tables (_num_buckets rhs) (_mlf rhs) (mk [] [] 0 0 0 0 0 0 0))
  else
    h ← init (u32 (_num_filled rhs + 2)) (max_load_factor (_mlf rhs));
    insert_unique_all (_pairs rhs) h.

(** [operator=(const HashMap&)] for another object *)
Definition copy_assign rhs h : result (t K V) :=
  if f32_lt (load_factor rhs) 1 4 then
    let h := clear h in
    let h := mk (_index h) [] 0 (_mlf h) (_mask h) (_num_buckets h) (_num_filled h) (_last h) (_etail h) in
    h ← rehash (_num_filled rhs + 2) h;
    insert_unique_all (_pairs rhs) h
  else
    let h := clearkv h in
    clone rhs (if _num_buckets h =? _num_buckets rhs then h
               else alloc_tables (_num_buckets rhs) (_mlf rhs) h).

(** [HashMap(ilist)] inserts without a check for room. *)
Definition init_list (l : list (K * V)) : result (t K V) :=
  h ← init (u32 (Z.of_nat (length l))) EMH_DEFAULT_LOAD_FACTOR;
  do_insert_all l h.

Fixpoint insert_all (l : list (K * V)) h : result (t K V) :=
  match l with
  | [] => Ok h
  | p :: l' => x ← insert_ p.1 p.2 h; insert_all l' x.2
  end.
(** [HashMap(first, last, bucket_count)] *)
Definition init_range (l : list (K * V)) (bucket_count : Z) : result (t K V) :=
  h ← init (u32 (Z.of_nat (length l) + bucket_count)) EMH_DEFAULT_LOAD_FACTOR;
  insert_all l h.

(** [merge]: the pairs of [rhs] with new keys move to this table. *)
Fixpoint merge_loop (f : nat) (rit : Z) h rhs : result (t K V * t K V) :=
  match f with
  | O => endless
  | S f' =>
      if rit =? _num_filled rhs then Ok (h, rhs)
      else
        p ← get_pair rhs rit;
        fit ← find h p.1;
        if fit =? _num_filled h then
          x ← insert_unique p.1 p.2 h;
          y ← erase_it rit rhs;
          merge_loop f' y.1 x.2 y.2
        else merge_loop f' (rit + 1) h rhs
  end.
Definition merge h rhs : result (t K V * t K V) :=
  if _num_filled h =? 0 then Ok (move_assign h rhs)
  else merge_loop (S (Z.to_nat (_num_filled rhs))) 0 h rhs.

(** [operator==] *)
Fixpoint same_pairs `{EqDecision V} (l : list (K * V)) rhs : result bool :=
  match l with
  | [] => Ok true
  | p :: l' =>
      oi ← find rhs p.1;
      if oi =? _num_filled rhs then Ok false
      else
        q ← get_pair rhs oi;
        if bool_decide (p.2 = q.2) then same_pairs l' rhs else Ok false
  end.
Definition equal `{EqDecision V} h rhs : result bool :=
  if negb (_num_filled h =? _num_filled rhs) then Ok false else same_pairs (_pairs h) rhs.

(** [reserve(required_buckets)] with as many buckets as there are pairs turns
    the index into counters. *)
Fixpoint count_loop (s : Z) (ps : list (K * V)) h : result (t K V) :=
  match ps with
  | [] => Ok h
  | p :: ps' =>
      let key_hash := hash_key p.1 in
      let bucket := bucket_of h key_hash in
      e ← get_index h bucket;
      h ← set_index bucket
            (if negative (next e) then mkIndex 1 (Z.lor s (high h key_hash))
             else mkIndex (u32 (next e + 1)) (Z.lor (slot e) (high h key_hash))) h;
      count_loop (s + 1) ps' h
  end.
Definition reserve1 (required_buckets : Z) h : result (bool * t K V) :=
  if negb (_num_filled h =? required_buckets) then reserve required_buckets h
  else
    let h := set_last 0 h in
    let h := mk (wipe (Z.to_nat (_num_buckets h)) (_index h)) (_pairs h) (_capacity h) (_mlf h)
               (_mask h) (_num_buckets h) (_num_filled h) (_last h) (_etail h) in
    h ← count_loop 0 (_pairs h) h;
    Ok (true, h).
End table.
(** [std::hash<int>] of the GNU library: the value itself. *)
Definition std_hash_int (k : Z) : Z := u64 k.

End HashMap.
