(* ===== verification/HashChains.v ===== *)
(** * Chains of the hash map's index

    What the index of [emhash8::HashMap] stands for: every main bucket has a
    chain of buckets, every bucket of a chain holds one pair of the table.
    The lemmas say how the chains change when the code writes to the index;
    they do not mention the code. *)

From S2P Require Import Prelude HashMap.

(** ** Entries *)
Implicit Types (I : list Index) (x y b : Z) (l : list Z) (ch : Z → list Z).

Definition ent I x : Index := default (mkIndex 0 0) (I !! Z.to_nat x).
Definition nxt I x : Z := next (ent I x).
Definition slt I x : Z := slot (ent I x).
Definition put x (e : Index) I : list Index := <[Z.to_nat x := e]> I.
Definition inb I x : Prop := 0 ≤ x < Z.of_nat (length I).

Lemma ent_put_eq I x e : inb I x → ent (put x e I) x = e.
Proof. intros Hx. unfold ent, put. rewrite list_lookup_insert_eq; [done|]. unfold inb in Hx. lia. Qed.

Lemma ent_put_ne I x y e : 0 ≤ x → 0 ≤ y → x ≠ y → ent (put x e I) y = ent I y.
Proof. intros. unfold ent, put. rewrite list_lookup_insert_ne; [done|]. lia. Qed.

Lemma length_put I x e : length (put x e I) = length I.
Proof. apply length_insert. Qed.

Lemma inb_put I x e y : inb (put x e I) y ↔ inb I y.
Proof. unfold inb. by rewrite length_put. Qed.

(** ** Paths *)

(** The buckets of [l] are linked in this order and the last one points to
    itself. *)
Fixpoint path I l : Prop :=
  match l with
  | [] => True
  | x :: l' => nxt I x = hd x l' ∧ path I l'
  end.

Lemma path_ext I I' l : (∀ x, x ∈ l → nxt I' x = nxt I x) → path I l → path I' l.
Proof.
  induction l as [|x l IH]; simpl; [done|]. intros Hn [Hx Hp]. split.
  - rewrite Hn; [done|left].
  - apply IH; [|done]. intros. apply Hn. by right.
Qed.

Lemma path_app_r I l1 l2 : path I (l1 ++ l2) → path I l2.
Proof. induction l1 as [|x l IH]; simpl; [done|]. intros [_ H]. by apply IH. Qed.

Lemma path_mid I l1 x l2 : path I (l1 ++ x :: l2) → nxt I x = hd x l2.
Proof. intros H%path_app_r. apply H. Qed.

(** A path whose end after [x] is replaced. *)
Lemma path_change I I' l1 x l2 l2' :
  path I (l1 ++ x :: l2) → (∀ y, y ∈ l1 → nxt I' y = nxt I y) → path I' (x :: l2') →
  path I' (l1 ++ x :: l2').
Proof.
  intros H Hn H2. induction l1 as [|z l1 IH]; simpl in *; [done|]. destruct H as [Hz H]. split.
  - rewrite Hn by left. rewrite Hz. by destruct l1.
  - apply IH; [done|]. intros. apply Hn. by right.
Qed.

(** ** All chains *)


(** Chains start at their main bucket, are linked, and do not meet. *)
Record links I (nb : Z) ch : Prop := {
  lk_head : ∀ b, ch b = [] ∨ ∃ l, ch b = b :: l;
  lk_path : ∀ b, path I (ch b);
  lk_range : ∀ b x, x ∈ ch b → 0 ≤ x < nb;
  lk_nodup : ∀ b, NoDup (ch b);
  lk_disj : ∀ b b' x, x ∈ ch b → x ∈ ch b' → b = b'
}.

(** The buckets outside of the chains are marked empty. *)
Definition empties I (nb : Z) ch : Prop :=
  ∀ x, 0 ≤ x < nb → (∃ b, x ∈ ch b) ∨ nxt I x = INACTIVE.

Lemma links_upd I I' nb ch b l :
  links I nb ch →
  (l = [] ∨ ∃ l', l = b :: l') → path I' l → NoDup l →
  (∀ x, x ∈ l → 0 ≤ x < nb ∧ ∀ b', x ∈ ch b' → b' = b) →
  (∀ b' y, b' ≠ b → y ∈ ch b' → nxt I' y = nxt I y) →
  links I' nb (upd ch b l).
Proof.
  intros [Hh Hp Hr Hn Hd] Hl Hpl Hnl Hin Hout. split; intros b1; destruct (decide (b1 = b)) as [->|Hb];
    rewrite ?upd_eq, ?(upd_ne _ _ _ _ Hb).
  - done.
  - apply Hh.
  - done.
  - eapply path_ext; [|apply Hp]. intros y Hy. by eapply Hout.
  - intros x Hx. by apply Hin.
  - apply Hr.
  - done.
  - apply Hn.
  - intros b2 x H1. destruct (decide (b2 = b)) as [->|Hb2]; [done|].
    rewrite upd_ne by done. intros H2. symmetry. by eapply (proj2 (Hin x H1)).
  - intros b2 x H1. destruct (decide (b2 = b)) as [->|Hb2].
    + rewrite upd_eq. intros H2. by eapply (proj2 (Hin x H2)).
    + rewrite upd_ne by done. intros H2. by eapply Hd.
Qed.

(** Links and emptiness do not depend on the slots. *)
Lemma links_ext I I' nb ch :
  links I nb ch → (∀ b x, x ∈ ch b → nxt I' x = nxt I x) → links I' nb ch.
Proof.
  intros [Hh Hp Hr Hn Hd] He. split; [done| |done..]. intros b. eapply path_ext; [|apply Hp].
  intros. by eapply He.
Qed.

Lemma chain_main I nb ch b : links I nb ch → ch b ≠ [] → 0 ≤ b < nb ∧ ∃ l, ch b = b :: l.
Proof.
  intros HL Hb. destruct (lk_head _ _ _ HL b) as [?|[l Hl]]; [done|]. split; [|by exists l].
  apply (lk_range _ _ _ HL b). rewrite Hl. left.
Qed.

Lemma next_in_chain I nb ch b x : links I nb ch → x ∈ ch b → 0 ≤ nxt I x < nb.
Proof.
  intros HL Hx. apply list_elem_of_split in Hx as (l1 & l2 & E).
  pose proof (lk_path _ _ _ HL b) as Hp. rewrite E in Hp. apply path_mid in Hp. rewrite Hp.
  apply (lk_range _ _ _ HL b). rewrite E. destruct l2 as [|y l2]; simpl; set_solver.
Qed.

Lemma chain_length I nb ch b : links I nb ch → (length (ch b) ≤ Z.to_nat nb)%nat.
Proof.
  intros HL. pose proof (lk_nodup _ _ _ HL b) as Hn.
  assert (ch b ⊆ seqZ 0 nb) as Hs.
  { intros x Hx. apply elem_of_seqZ. apply (lk_range _ _ _ HL) in Hx. lia. }
  pose proof (NoDup_submseteq _ _ Hn Hs) as Hsub. apply submseteq_length in Hsub.
  by rewrite length_seqZ in Hsub.
Qed.

(** ** What the buckets hold *)
Section data.
Context {K V : Type} (H : K → Z) (mask : Z).
Implicit Types (P : Z → option (K * V)).

Definition lo (s : Z) : Z := Z.land s mask.
Definition hi (s : Z) : Z := Z.ldiff s mask.
Definition main_of (k : K) : Z := lo (u32 (H k)).

(** The buckets of the chains and the places of the pairs [P] correspond one to
    one; a bucket of chain [b] holds a key whose main bucket is [b], and the
    high bits of its hash. *)
Record data I ch P : Prop := {
  dt_node : ∀ b x, x ∈ ch b → ∃ s p, P s = Some p ∧ 0 ≤ s ≤ mask ∧
    slt I x = Z.lor s (hi (u32 (H p.1))) ∧ main_of p.1 = b;
  dt_slot : ∀ s p, P s = Some p → ∃ x, x ∈ ch (main_of p.1) ∧ lo (slt I x) = s;
  dt_inj : ∀ b b' x y, x ∈ ch b → y ∈ ch b' → lo (slt I x) = lo (slt I y) → x = y
}.

Context (k : Z) (Hk : 0 ≤ k) (Hmask : mask = 2 ^ k - 1).

Lemma lo_mod s : lo s = s mod 2 ^ k.
Proof using Hk Hmask.
  unfold lo. rewrite Hmask, <- Z.land_ones by done. f_equal. rewrite Z.ones_equiv. lia.
Qed.

Lemma lo_range s : 0 ≤ lo s ≤ mask.
Proof using Hk Hmask.
  rewrite lo_mod. pose proof (Z.mod_pos_bound s (2 ^ k) ltac:(by apply Z.pow_pos_nonneg)). lia.
Qed.

Lemma lo_small s : 0 ≤ s ≤ mask → lo s = s.
Proof using Hk Hmask. intros. rewrite lo_mod. apply Z.mod_small. lia. Qed.

Lemma hi_small s : 0 ≤ s ≤ mask → hi s = 0.
Proof using Hk Hmask.
  intros Hs. unfold hi. rewrite <- (lo_small s Hs). unfold lo. apply Z.bits_inj'. intros n Hn.
  rewrite Z.ldiff_spec, Z.land_spec, Z.bits_0. by destruct (Z.testbit s n), (Z.testbit mask n).
Qed.

Lemma lo_lor s a : 0 ≤ s ≤ mask → lo (Z.lor s (hi a)) = s.
Proof using Hk Hmask.
  intros Hs. unfold lo, hi. rewrite Z.land_lor_distr_l, Z.land_ldiff, Z.lor_0_r. by apply lo_small.
Qed.

Lemma hi_lor s a : 0 ≤ s ≤ mask → hi (Z.lor s (hi a)) = hi a.
Proof using Hk Hmask.
  intros Hs. pose proof (hi_small s Hs) as E. unfold hi in *. apply Z.bits_inj'. intros n Hn.
  apply (f_equal (λ z, Z.testbit z n)) in E. rewrite Z.ldiff_spec, Z.bits_0 in E.
  rewrite !Z.ldiff_spec, Z.lor_spec, Z.ldiff_spec.
  destruct (Z.testbit s n), (Z.testbit a n), (Z.testbit mask n); done.
Qed.

Lemma dt_main I ch P b x :
  data I ch P → x ∈ ch b →
  ∃ p, P (lo (slt I x)) = Some p ∧ hi (slt I x) = hi (u32 (H p.1)) ∧ main_of p.1 = b.
Proof using Hk Hmask.
  intros D Hx. destruct (dt_node _ _ _ D b x Hx) as (s & p & Hs & Hr & -> & Hm).
  exists p. by rewrite lo_lor, hi_lor.
Qed.

(** The same pairs, or fewer, in other buckets: [f] tells where the content of
    a bucket was before. *)
Lemma data_map I I' ch ch' P P' (f : Z → Z) :
  data I ch P →
  (∀ b x, x ∈ ch' b → f x ∈ ch b ∧ slt I' x = slt I (f x)) →
  (∀ b b' x y, x ∈ ch' b → y ∈ ch' b' → f x = f y → x = y) →
  (∀ s p, P' s = Some p → P s = Some p ∧
     ∀ b x, x ∈ ch b → lo (slt I x) = s → ∃ x', x' ∈ ch' b ∧ f x' = x) →
  (∀ b x, x ∈ ch' b → is_Some (P' (lo (slt I' x)))) →
  data I' ch' P'.
Proof using Hk Hmask.
  intros D Hf Hinj HP HP'. split.
  - intros b x Hx. destruct (Hf b x Hx) as [Hfx Es].
    destruct (dt_node _ _ _ D b (f x) Hfx) as (s & p & Hs & Hr & Hsl & Hm).
    destruct (HP' b x Hx) as [p' Hp']. rewrite Es, Hsl, lo_lor in Hp' by done.
    assert (p' = p) as ->. { apply HP in Hp' as [Hp' _]. congruence. }
    exists s, p. by rewrite Es, Hsl.
  - intros s p Hp. destruct (HP s p Hp) as [Hp0 Hx].
    destruct (dt_slot _ _ _ D s p Hp0) as (x & Hx1 & Hx2).
    destruct (Hx _ x Hx1 Hx2) as (x' & Hx' & <-). exists x'. split; [done|].
    by rewrite (proj2 (Hf _ _ Hx')).
  - intros b b' x y Hx Hy E. destruct (Hf b x Hx) as [Hfx E1], (Hf b' y Hy) as [Hfy E2].
    rewrite E1, E2 in E. eapply Hinj; [done..|]. by eapply (dt_inj _ _ _ D).
Qed.

(** A new pair in a new bucket at the end of its chain. *)
Lemma data_add I ch P x s p :
  data I ch P → inb I x → (∀ b, x ∉ ch b) → 0 ≤ s ≤ mask → P s = None →
  (∀ b y, y ∈ ch b → 0 ≤ y) →
  data (put x (mkIndex x (Z.lor s (hi (u32 (H p.1))))) I)
    (upd ch (main_of p.1) (ch (main_of p.1) ++ [x]))
    (λ s', if decide (s' = s) then Some p else P s').
Proof using Hk Hmask.
  intros D Hb Hx Hs HPs Hpos. set (b0 := main_of p.1).
  set (e := mkIndex x _).
  assert (slt (put x e I) x = Z.lor s (hi (u32 (H p.1)))) as Ex by (unfold slt; by rewrite ent_put_eq).
  assert (∀ b y, y ∈ ch b → slt (put x e I) y = slt I y) as Ey.
  { intros b y Hy. unfold slt. rewrite ent_put_ne; [done|apply Hb|by eapply Hpos|].
    intros ->. by apply (Hx b). }
  assert (∀ b y, y ∈ upd ch b0 (ch b0 ++ [x]) b → (b = b0 ∧ y = x) ∨ y ∈ ch b) as Hcase.
  { intros b y. destruct (decide (b = b0)) as [->|]; [rewrite upd_eq|rewrite upd_ne by done; tauto].
    rewrite elem_of_app, list_elem_of_singleton. tauto. }
  assert (∀ b y, y ∈ ch b → lo (slt I y) ≠ s) as Hns.
  { intros b y Hy E. destruct (dt_main _ _ _ _ _ D Hy) as (q & Hq & _). rewrite E in Hq. congruence. }
  split.
  - intros b y [[-> ->]|Hy]%Hcase.
    + exists s, p. by rewrite decide_True.
    + destruct (dt_node _ _ _ D b y Hy) as (s' & q & Hq & Hr & Hsl & Hm). exists s', q.
      rewrite decide_False by (intros ->; congruence). by rewrite (Ey b).
  - intros s' q. case_decide as Es.
    + intros [= <-]. exists x. fold b0. rewrite upd_eq, Ex, lo_lor by done. split; [set_solver|done].
    + intros Hq. destruct (dt_slot _ _ _ D s' q Hq) as (y & Hy1 & Hy2). exists y.
      rewrite (Ey _ _ Hy1). split; [|done]. unfold upd. case_decide as Em; [|done]. rewrite <- Em.
      apply elem_of_app. by left.
  - intros b b' y z [[-> ->]|Hy]%Hcase [[-> ->]|Hz]%Hcase; [done| | |].
    + rewrite Ex, lo_lor, (Ey _ _ Hz) by done. intros E. by destruct (Hns _ _ Hz).
    + rewrite Ex, lo_lor, (Ey _ _ Hy) by done. intros E. by destruct (Hns _ _ Hy).
    + rewrite (Ey _ _ Hy), (Ey _ _ Hz). by eapply (dt_inj _ _ _ D).
Qed.

(** The pair of bucket [y] moves from its place to the free place [s]. *)
Lemma data_move I ch P b y s p :
  data I ch P → y ∈ ch b → inb I y → (∀ b y, y ∈ ch b → 0 ≤ y) →
  0 ≤ s ≤ mask → P s = None → P (lo (slt I y)) = Some p →
  data (put y (mkIndex (nxt I y) (Z.lor s (hi (slt I y)))) I) ch
    (λ s', if decide (s' = s) then Some p else if decide (s' = lo (slt I y)) then None else P s').
Proof using Hk Hmask.
  intros D Hy Hb Hpos Hs HPs HPy. set (e := mkIndex _ _).
  destruct (dt_main _ _ _ _ _ D Hy) as (p' & Hp' & Hhi & Hm). rewrite HPy in Hp'. injection Hp' as <-.
  assert (slt (put y e I) y = Z.lor s (hi (u32 (H p.1)))) as Ex.
  { unfold slt at 1. rewrite ent_put_eq by done. unfold e. cbn [slot]. by rewrite Hhi. }
  assert (∀ b z, z ∈ ch b → z ≠ y → slt (put y e I) z = slt I z) as Ez.
  { intros b' z Hz Hne. unfold slt. rewrite ent_put_ne; [done|apply Hb|by eapply Hpos|done]. }
  assert (∀ b z, z ∈ ch b → lo (slt I z) ≠ s) as Hns.
  { intros b' z Hz E. destruct (dt_main _ _ _ _ _ D Hz) as (q & Hq & _). rewrite E in Hq. congruence. }
  split.
  - intros b' z Hz. destruct (decide (z = y)) as [->|Hne].
    + exists s, p. rewrite decide_True by done. split; [done|]. split; [done|]. split; [done|].
      destruct (dt_main _ _ _ _ _ D Hz) as (q & Hq & _ & <-). congruence.
    + destruct (dt_node _ _ _ D b' z Hz) as (s' & q & Hq & Hr & Hsl & Hm'). exists s', q.
      rewrite decide_False by (intros ->; congruence). rewrite decide_False.
      * by rewrite (Ez b').
      * intros E. apply Hne. eapply (dt_inj _ _ _ D); [done..|]. by rewrite Hsl, lo_lor.
  - intros s' q. case_decide as Es; [|case_decide as Es'; [done|]].
    + intros [= <-]. exists y. rewrite Ex, lo_lor by done. rewrite Hm. done.
    + intros Hq. destruct (dt_slot _ _ _ D s' q Hq) as (z & Hz1 & Hz2). exists z. split; [done|].
      rewrite (Ez _ _ Hz1); [done|]. intros ->. by apply Es'.
  - intros b1 b2 z1 z2 H1 H2. destruct (decide (z1 = y)) as [->|N1], (decide (z2 = y)) as [->|N2]; [done| | |].
    + rewrite Ex, lo_lor, (Ez _ _ H2 N2) by done. intros E. by destruct (Hns _ _ H2).
    + rewrite Ex, lo_lor, (Ez _ _ H1 N1) by done. intros E. by destruct (Hns _ _ H1).
    + rewrite (Ez _ _ H1 N1), (Ez _ _ H2 N2). by eapply (dt_inj _ _ _ D).
Qed.

(** A table with fewer pairs than buckets has an empty bucket. *)
Lemma empty_bucket I ch P n :
  links I (mask + 1) ch → empties I (mask + 1) ch → data I ch P →
  (∀ s p, P s = Some p → 0 ≤ s < n) → n ≤ mask →
  ∃ x, 0 ≤ x ≤ mask ∧ nxt I x = INACTIVE.
Proof using Hk Hmask.
  intros HL HE D HP Hn.
  destruct (decide (Exists (λ x, nxt I x = INACTIVE) (seqZ 0 (mask + 1)))) as [Hx|Hx].
  { apply Exists_exists in Hx as (x & Hx%elem_of_seqZ & Ex). exists x. split; [lia|done]. }
  exfalso. assert (0 ≤ mask) by (pose proof (Z.pow_pos_nonneg 2 k); lia).
  assert (∀ x, x ∈ seqZ 0 (mask + 1) → ∃ b, x ∈ ch b) as Hall.
  { intros x Hi. destruct (HE x) as [?|E]; [apply elem_of_seqZ in Hi; lia|done|].
    destruct Hx. apply Exists_exists. by exists x. }
  assert (NoDup (map (λ x, lo (slt I x)) (seqZ 0 (mask + 1)))) as Hnd.
  { apply NoDup_fmap_2_strong; [|apply NoDup_seqZ]. intros x y Hxi Hyi E.
    destruct (Hall x Hxi) as [b Hb], (Hall y Hyi) as [b' Hb']. by eapply (dt_inj _ _ _ D). }
  apply NoDup_submseteq with (k := seqZ 0 (Z.max 0 n)) in Hnd.
  - apply submseteq_length in Hnd. rewrite length_map, !length_seqZ in Hnd. lia.
  - intros s Hs. apply list_elem_of_fmap in Hs as (x & -> & Hxi). destruct (Hall x Hxi) as [b Hb].
    destruct (dt_main _ _ _ _ _ D Hb) as (p & Hp & _). apply HP in Hp. apply elem_of_seqZ. lia.
Qed.
End data.

(** ** How the code changes the chains *)
Section changes.
Context I (nb : Z) ch (HL : links I nb ch) (Hnb : nb ≤ Z.of_nat (length I)) (Hmax : nb ≤ 2 ^ 31).

Lemma chain_inb b x : x ∈ ch b → inb I x.
Proof using HL Hnb Hmax. intros Hx. apply (lk_range _ _ _ HL) in Hx. unfold inb. lia. Qed.

Lemma empty_free x : nxt I x = INACTIVE → ∀ b, x ∉ ch b.
Proof using HL Hnb Hmax.
  intros E b Hx. apply (next_in_chain _ _ _ _ _ HL) in Hx. rewrite E in Hx. unfold INACTIVE in Hx. lia.
Qed.

Lemma nxt_put I' x e y :
  inb I' x → 0 ≤ y → nxt (put x e I') y = if decide (y = x) then next e else nxt I' y.
Proof using.
  intros Hx Hy. unfold nxt. case_decide as E; [subst; by rewrite ent_put_eq|].
  rewrite ent_put_ne; [done|apply Hx|done|done].
Qed.

Lemma slt_put I' x e y :
  inb I' x → 0 ≤ y → slt (put x e I') y = if decide (y = x) then slot e else slt I' y.
Proof using.
  intros Hx Hy. unfold slt. case_decide as E; [subst; by rewrite ent_put_eq|].
  rewrite ent_put_ne; [done|apply Hx|done|done].
Qed.

Lemma links_new_main b s :
  ch b = [] → 0 ≤ b < nb → (∀ b', b ∉ ch b') → links (put b (mkIndex b s) I) nb (upd ch b (ch b ++ [b])).
Proof using HL Hnb Hmax.
  intros Hb Hr Hf. rewrite Hb. simpl.
  assert (inb I b) by (unfold inb; lia). apply (links_upd I); [done|by right; exists []| | | |].
  - simpl. rewrite nxt_put, decide_True by (done || lia). done.
  - apply NoDup_singleton.
  - intros x ->%list_elem_of_singleton. split; [done|]. intros b' Hb'. by destruct (Hf b').
  - intros b' y Hne Hy. pose proof (lk_range _ _ _ HL _ _ Hy). rewrite nxt_put, decide_False by (done || lia || (intros ->; by eapply Hf)).
    done.
Qed.

(** The chain of [b] keeps its part up to [pr] and continues with [m]. *)
Lemma links_tail I' b l1 pr old m :
  ch b = l1 ++ pr :: old → path I' (pr :: m) → NoDup m →
  (∀ y, y ∈ m → y ∈ old ∨ (0 ≤ y < nb ∧ ∀ b', y ∉ ch b')) →
  (∀ b' y, y ∈ ch b' → y ∉ pr :: old → nxt I' y = nxt I y) →
  links I' nb (upd ch b (l1 ++ pr :: m)).
Proof using HL Hnb Hmax.
  intros Hb Hp Hm Hin Hout. pose proof (lk_nodup _ _ _ HL b) as Hnd. rewrite Hb in Hnd.
  apply NoDup_app in Hnd as (Hn1 & Hno & [Hpr Hn2]%NoDup_cons).
  assert (∀ y, y ∈ l1 ++ pr :: old → y ∈ ch b) as Hmem by (intros; by rewrite Hb).
  assert (∀ y, y ∈ m → y ∉ l1 ++ [pr]) as Hfresh.
  { intros y Hy Hy'. destruct (Hin y Hy) as [Ho|[_ Hf]].
    - apply elem_of_app in Hy' as [Hy'|Hy']; [by apply (Hno y Hy'); right|].
      apply list_elem_of_singleton in Hy' as ->. done.
    - apply (Hf b), Hmem. set_solver. }
  apply (links_upd I); [done| | | | |].
  - destruct (chain_main _ _ _ b HL) as (_ & l' & E); [rewrite Hb; by destruct l1|]. right.
    rewrite Hb in E. destruct l1 as [|z l1]; simpl in E; injection E as -> _; eexists; reflexivity.
  - pose proof (lk_path _ _ _ HL b) as Hpb. rewrite Hb in Hpb. eapply path_change; [exact Hpb| |done].
    intros y Hy. apply (Hout b); [apply Hmem; set_solver|by apply Hno].
  - apply NoDup_app. split; [done|]. split.
    + intros y Hy [->|Hy']%elem_of_cons; [by apply (Hno pr Hy); left|]. apply (Hfresh y Hy'). set_solver.
    + apply NoDup_cons. split; [|done]. intros Hy. apply (Hfresh pr Hy). set_solver.
  - intros y Hy. destruct (decide (y ∈ m)) as [Hym|Hym].
    + destruct (Hin y Hym) as [Ho|[Hr Hf]]; [|split; [done|]; intros b' Hb'; by destruct (Hf b')].
      assert (y ∈ ch b) by (apply Hmem; set_solver). split; [by eapply (lk_range _ _ _ HL)|].
      intros b' Hb'. by eapply (lk_disj _ _ _ HL).
    + assert (y ∈ ch b) by (apply Hmem; set_solver). split; [by eapply (lk_range _ _ _ HL)|].
      intros b' Hb'. by eapply (lk_disj _ _ _ HL).
  - intros b' y Hne Hy. apply (Hout b'); [done|]. intros Ho. apply Hne.
    eapply (lk_disj _ _ _ HL); [done|]. apply Hmem. set_solver.
Qed.

Lemma links_extend b l tl x s st :
  ch b = l ++ [tl] → 0 ≤ x < nb → (∀ b', x ∉ ch b') →
  links (put x (mkIndex x s) (put tl (mkIndex x st) I)) nb (upd ch b (ch b ++ [x])).
Proof using HL Hnb Hmax.
  intros Hb Hr Hf. assert (inb I x) by (unfold inb; lia).
  assert (tl ∈ ch b) as Htl by (rewrite Hb; set_solver).
  pose proof (chain_inb _ _ Htl) as Htl'. pose proof (lk_range _ _ _ HL _ _ Htl) as Htr.
  assert (tl ≠ x) by (intros ->; by apply (Hf b)).
  rewrite Hb, <- app_assoc. apply (links_tail _ b l tl []); [done| |apply NoDup_singleton| |].
  - simpl. rewrite !nxt_put by (rewrite ?inb_put; done || lia).
    rewrite decide_False, !decide_True by done. done.
  - intros y ->%list_elem_of_singleton. by right.
  - intros b' y Hy Hno. pose proof (lk_range _ _ _ HL _ _ Hy).
    rewrite !nxt_put by (rewrite ?inb_put; done || lia).
    rewrite !decide_False; [done|set_solver|intros ->; by apply (Hf b')].
Qed.

(** The middle of a chain: [x] follows [pr]. *)
Lemma chain_split b x : x ∈ ch b → x ≠ b → ∃ l1 pr l2, ch b = l1 ++ pr :: x :: l2.
Proof using HL.
  intros Hx Hne. destruct (chain_main _ _ _ b HL) as (_ & l & E); [by intros E; rewrite E in Hx; inversion Hx|].
  rewrite E in Hx. apply elem_of_cons in Hx as [?|Hx]; [done|].
  apply list_elem_of_split in Hx as (l1 & l2 & ->). rewrite E. clear E.
  destruct l1 as [|z l1 _] using rev_ind; [by exists [], b, l2|].
  exists (b :: l1), z, l2. simpl. by rewrite <- app_assoc.
Qed.

Lemma links_kickout km l1 pr bk l2 nw sn sp sb :
  ch km = l1 ++ pr :: bk :: l2 → 0 ≤ nw < nb → (∀ b', nw ∉ ch b') →
  let I' := put bk (mkIndex INACTIVE sb) (put pr (mkIndex nw sp) (put nw (mkIndex (hd nw l2) sn) I)) in
  links I' nb (upd ch km (l1 ++ pr :: nw :: l2)).
Proof using HL Hnb Hmax.
  intros Hb Hr Hf I'. assert (inb I nw) by (unfold inb; lia).
  assert (∀ y, y ∈ l1 ++ pr :: bk :: l2 → y ∈ ch km) as Hmem by (intros; by rewrite Hb).
  assert (pr ∈ ch km) as Hpr by (apply Hmem; set_solver).
  assert (bk ∈ ch km) as Hbk by (apply Hmem; set_solver).
  pose proof (chain_inb _ _ Hpr) as Hpr'. pose proof (chain_inb _ _ Hbk) as Hbk'.
  pose proof (lk_nodup _ _ _ HL km) as Hnd. rewrite Hb in Hnd.
  apply NoDup_app in Hnd as (_ & _ & [N1 [N2 N3]%NoDup_cons]%NoDup_cons).
  assert (nw ∉ l2) as Hnl by (intros ?; apply (Hf km), Hmem; set_solver).
  assert (∀ y, 0 ≤ y → nxt I' y = if decide (y = bk) then INACTIVE else if decide (y = pr) then nw
     else if decide (y = nw) then hd nw l2 else nxt I y) as E.
  { intros y Hy. unfold I'. by rewrite !nxt_put by (rewrite ?inb_put; done). }
  assert (pr ≠ nw) by (intros ->; by apply (Hf km)). assert (bk ≠ nw) by (intros ->; by apply (Hf km)).
  assert (pr ≠ bk) by set_solver.
  apply (links_tail _ km l1 pr (bk :: l2)); [done| | | |].
  - simpl. unfold inb in *. rewrite !E by lia. split; [by repeat case_decide|].
    split; [by repeat case_decide|]. pose proof (lk_path _ _ _ HL km) as Hp. rewrite Hb in Hp.
    apply path_app_r in Hp as (_ & _ & Hp). eapply path_ext; [|exact Hp]. intros y Hy.
    assert (y ∈ ch km) as Hy' by (apply Hmem; set_solver). apply (lk_range _ _ _ HL) in Hy'.
    rewrite E by lia. rewrite !decide_False; [done|set_solver..].
  - by apply NoDup_cons.
  - intros y [->|Hy]%elem_of_cons; [by right|left; by right].
  - intros b' y Hy Hno. pose proof (lk_range _ _ _ HL _ _ Hy). rewrite E by lia.
    rewrite !decide_False; [done|intros ->; by apply (Hf b')|set_solver..].
Qed.

(** Bucket [x] leaves its chain: [pr] is linked to what follows. *)
Lemma links_unlink b l1 pr x l2 sp :
  ch b = l1 ++ pr :: x :: l2 → links (put pr (mkIndex (hd pr l2) sp) I) nb (upd ch b (l1 ++ pr :: l2)).
Proof using HL Hnb Hmax.
  intros Hb. assert (∀ y, y ∈ l1 ++ pr :: x :: l2 → y ∈ ch b) as Hmem by (intros; by rewrite Hb).
  assert (pr ∈ ch b) as Hpr by (apply Hmem; set_solver). pose proof (chain_inb _ _ Hpr) as Hpr'.
  pose proof (lk_nodup _ _ _ HL b) as Hnd. rewrite Hb in Hnd.
  apply NoDup_app in Hnd as (_ & _ & [N1 [N2 N3]%NoDup_cons]%NoDup_cons).
  assert (∀ y, 0 ≤ y → y ≠ pr → nxt (put pr (mkIndex (hd pr l2) sp) I) y = nxt I y) as E.
  { intros y Hy Hne. by rewrite nxt_put, decide_False. }
  apply (links_tail _ b l1 pr (x :: l2)); [done| |done| |].
  - simpl. split; [rewrite nxt_put, decide_True; [done..|apply Hpr']|].
    pose proof (lk_path _ _ _ HL b) as Hp. rewrite Hb in Hp.
    apply path_app_r in Hp as (_ & _ & Hp). eapply path_ext; [|exact Hp]. intros y Hy.
    apply E; [|set_solver]. apply (lk_range _ _ _ HL b), Hmem. set_solver.
  - intros y Hy. left. by right.
  - intros b' y Hy Hno. apply E; [by apply (lk_range _ _ _ HL) in Hy as []|set_solver].
Qed.

Lemma links_drop b : links I nb ch → ch b = [b] → links I nb (upd ch b []).
Proof using.
  intros HL' Hb. apply (links_upd I); [done|by left|done|apply NoDup_nil_2| |done].
  intros x Hx. inversion Hx.
Qed.
End changes.
