(* ===== verification/HashMapFacts.v ===== *)
(** * The operations of the hash map

    The invariant of [emhash8::HashMap] and what its private routines do to the
    chains: searching, finding an empty bucket, kicking a foreign pair out,
    rehashing and erasing.  All accesses stay inside the arrays and all loops
    end. *)

From S2P Require Import Prelude HashMap HashChains.
Import HashMap.

Section facts.
Context {K V : Type} `{EqDecision K} (hasher : K → Z).
Implicit Types (h : t K V) (key : K) (P : Z → option (K * V)).

Abbreviation hk := (hash_key hasher).
Abbreviation idx := (_index).
Abbreviation nb := (_num_buckets).

Lemma fuel_eq h : fuel h = S (Z.to_nat (nb h)).
Proof using. done. Qed.

#[local] Opaque default_mlf pairs_for fuel.

(** ** The layout of a table *)
Record shape h : Prop := {
  sh_pow : ∃ k, 2 ≤ k ≤ 31 ∧ nb h = 2 ^ k;
  sh_mask : _mask h = nb h - 1;
  sh_len : Z.of_nat (length (idx h)) = nb h + 2;
  sh_pad : ∀ x, nb h ≤ x < nb h + 2 → nxt (idx h) x = 0;
  sh_filled : _num_filled h = Z.of_nat (length (_pairs h));
  sh_mlf : _mlf h = default_mlf;
  sh_cap : _num_filled h ≤ _capacity h;
  sh_alloc : _capacity h = pairs_for (nb h) default_mlf
}.

Lemma shape_bounds_pos (n : Z) : (∃ k, 2 ≤ k ≤ 31 ∧ n = 2 ^ k) → 4 ≤ n.
Proof using. intros (k & Hk & ->). change 4 with (2 ^ 2). apply Z.pow_le_mono_r; lia. Qed.

Lemma shape_bounds h : shape h → 4 ≤ nb h ≤ 2 ^ 31.
Proof using.
  intros S. destruct (sh_pow _ S) as (k & Hk & ->). split.
  - change 4 with (2 ^ 2). apply Z.pow_le_mono_r; lia.
  - apply Z.pow_le_mono_r; lia.
Qed.

Lemma get_index_Ok h x : shape h → 0 ≤ x < nb h + 2 → get_index h x = Ok (ent (idx h) x).
Proof using.
  intros S Hx. unfold get_index, ent. pose proof (sh_len _ S) as E.
  rewrite (proj2 (Z.leb_le 0 x)), (proj2 (Z.ltb_lt x _)) by lia. simpl.
  destruct (lookup_lt_is_Some_2 (idx h) (Z.to_nat x)) as [e ->]; [lia|done].
Qed.

Lemma get_pair_Ok h s p : 0 ≤ s → _pairs h !! Z.to_nat s = Some p → get_pair h s = Ok p.
Proof using.
  intros Hs Hp. unfold get_pair. pose proof (lookup_lt_Some _ _ _ Hp).
  rewrite (proj2 (Z.leb_le 0 s)), (proj2 (Z.ltb_lt s _)) by lia. simpl. by rewrite Hp.
Qed.

(** The table with another index. *)
Definition with_index I h : t K V :=
  mk I (_pairs h) (_capacity h) (_mlf h) (_mask h) (_num_buckets h) (_num_filled h) (_last h) (_etail h).

Lemma set_index_Ok h x e :
  shape h → 0 ≤ x < nb h + 2 → set_index x e h = Ok (with_index (put x e (idx h)) h).
Proof using.
  intros S Hx. unfold set_index. pose proof (sh_len _ S).
  by rewrite (proj2 (Z.leb_le 0 x)), (proj2 (Z.ltb_lt x _)) by lia.
Qed.

Lemma shape_inb h x : shape h → 0 ≤ x < nb h → inb (idx h) x.
Proof using. intros S Hx. pose proof (sh_len _ S). unfold inb. lia. Qed.

Lemma shape_put h x e : shape h → 0 ≤ x < nb h → shape (with_index (put x e (idx h)) h).
Proof using.
  intros S Hx. pose proof (shape_inb h x S Hx) as Hi. destruct S as [A1 A2 A3 A4 A5 A6 A7 A8].
  refine (Build_shape (with_index _ h) A1 A2 _ _ A5 A6 A7 A8); cbn [_index _num_buckets with_index].
  - by rewrite length_put.
  - intros y Hy. pose proof (shape_bounds_pos _ A1). rewrite nxt_put by (exact Hi || lia).
    rewrite decide_False by lia. by apply A4.
Qed.

Lemma shape_last h l : shape h → shape (set_last l h).
Proof using. intros [A1 A2 A3 A4 A5 A6 A7 A8]. exact (Build_shape (set_last l h) A1 A2 A3 A4 A5 A6 A7 A8). Qed.
Lemma shape_etail h b : shape h → shape (set_etail b h).
Proof using. intros [A1 A2 A3 A4 A5 A6 A7 A8]. exact (Build_shape (set_etail b h) A1 A2 A3 A4 A5 A6 A7 A8). Qed.

Lemma set_next_Ok h x b :
  shape h → 0 ≤ x < nb h →
  set_next x b h = Ok (with_index (put x (mkIndex b (slt (idx h) x)) (idx h)) h).
Proof using.
  intros S Hx. unfold set_next. rewrite get_index_Ok by (done || lia). simpl.
  by rewrite set_index_Ok by (done || lia).
Qed.

Lemma negative_small n : 0 ≤ n < 2 ^ 31 → negative n = false.
Proof using. intros Hn. unfold negative. apply Z.ltb_ge. rewrite swrap_small by word_lia. lia. Qed.
Lemma negative_INACTIVE : negative INACTIVE = true.
Proof using. done. Qed.

Lemma EMPTY_Ok h x : shape h → 0 ≤ x < nb h + 2 → EMH_EMPTY h x = Ok (negative (nxt (idx h) x)).
Proof using. intros S Hx. unfold EMH_EMPTY. by rewrite get_index_Ok. Qed.

(** ** Walking along a chain *)
Definition walk h (l : list Z) : Prop :=
  path (idx h) l ∧ NoDup l ∧ (∀ x, x ∈ l → 0 ≤ x < nb h).

Lemma walk_chain h ch b : links (idx h) (nb h) ch → walk h (ch b).
Proof using. intros HL. split; [apply HL|]. split; [apply HL|]. intros x. apply (lk_range _ _ _ HL). Qed.

Lemma walk_app_r h l1 l2 : walk h (l1 ++ l2) → walk h l2.
Proof using.
  intros (Hp & Hn & Hr). split; [by eapply path_app_r|]. split; [by apply NoDup_app in Hn as (_ & _ & ?)|].
  intros x Hx. apply Hr. set_solver.
Qed.

Lemma walk_cons h x l :
  walk h (x :: l) → walk h l ∧ 0 ≤ x < nb h ∧ nxt (idx h) x = hd x l ∧
  ((nxt (idx h) x =? x) = true ↔ l = []).
Proof using.
  intros W. split; [by apply (walk_app_r h [x])|]. destruct W as ([Hx Hp] & [Hno Hn]%NoDup_cons & Hr).
  split; [apply Hr; left|]. split; [done|]. rewrite Hx. destruct l as [|y l]; simpl.
  - by rewrite Z.eqb_refl.
  - split; [|done]. intros ->%Z.eqb_eq. destruct Hno. left.
Qed.

(** One turn of a loop: the entry is read and [next] is the next bucket. *)
Lemma last_loop_Ok h f x l y l' :
  shape h → walk h (x :: l) → x :: l = l' ++ [y] → (length l < f)%nat → last_loop f h x = Ok y.
Proof using.
  intros S. revert x l l'. induction f as [|f IH]; intros x l l' W E Hf; [lia|]. simpl.
  destruct (walk_cons _ _ _ W) as (W' & Hr & Hx & He). rewrite get_index_Ok by (done || lia). simpl.
  fold (nxt (idx h) x). destruct l as [|z l].
  - rewrite (proj2 He) by done. destruct l' as [|? []]; naive_solver.
  - destruct (nxt (idx h) x =? x) eqn:En; [by pose proof (proj1 He eq_refl)|]. rewrite Hx. simpl.
    destruct l' as [|w l']; [naive_solver|]. simpl in E. injection E as -> E. simpl in Hf.
    apply (IH z l l'); [done|done|lia].
Qed.

Lemma prev_loop_Ok h f y x l l1 pr l2 :
  shape h → walk h (x :: l) → x :: l = l1 ++ pr :: y :: l2 → (length l < f)%nat →
  prev_loop f h y x = Ok pr.
Proof using.
  intros S. revert x l l1. induction f as [|f IH]; intros x l l1 W E Hf; [lia|]. simpl.
  destruct (walk_cons _ _ _ W) as (W' & Hr & Hx & He). rewrite get_index_Ok by (done || lia). simpl.
  fold (nxt (idx h) x). rewrite Hx. destruct l1 as [|z l1].
  - injection E as -> ->. simpl. by rewrite Z.eqb_refl.
  - injection E as -> ->. destruct W as (_ & Hn & _). destruct (hd z (l1 ++ pr :: y :: l2) =? y) eqn:Ey.
    + apply Z.eqb_eq in Ey. destruct l1 as [|w l1]; simpl in *; subst; exfalso;
        repeat (apply NoDup_cons in Hn as [? Hn]); set_solver.
    + destruct l1 as [|w l1]; simpl in *.
      * apply (IH pr (y :: l2) []); [done|done|simpl; lia].
      * apply (IH w (l1 ++ pr :: y :: l2) (w :: l1)); [exact W'|done|lia].
Qed.

Lemma slot_loop_Ok h f s x l l1 y l2 :
  shape h → walk h (x :: l) → x :: l = l1 ++ y :: l2 → (length l < f)%nat →
  low h (slt (idx h) y) = s → (∀ z, z ∈ l1 → low h (slt (idx h) z) ≠ s) →
  slot_loop f h s x = Ok y.
Proof using.
  intros S. revert x l l1. induction f as [|f IH]; intros x l l1 W E Hf Hy Hz; [lia|]. simpl.
  destruct (walk_cons _ _ _ W) as (W' & Hr & Hx & He). rewrite get_index_Ok by (done || lia). simpl.
  fold (slt (idx h) x) (nxt (idx h) x). destruct l1 as [|z l1].
  - injection E as -> ->. rewrite Hy. by rewrite Z.eqb_refl.
  - injection E as -> ->. rewrite (proj2 (Z.eqb_neq s _)) by (intros ->; apply (Hz z); [left|done]).
    rewrite Hx. assert (∀ w, w ∈ l1 → low h (slt (idx h) w) ≠ s) as Hz' by (intros; apply Hz; by right).
    destruct l1 as [|w l1]; simpl in *.
    + apply (IH y l2 []); [done|done|lia|done|done].
    + apply (IH w (l1 ++ y :: l2) (w :: l1)); [done|done|lia|done|done].
Qed.

(** The search loops, for any test [m] that [matches] computes on the chain. *)
Definition search (m : Z → bool) (l : list Z) : option Z := List.find m l.

Lemma find_loop_Ok found missing h f key kh x l m :
  shape h → walk h (x :: l) → (length l < f)%nat →
  (∀ z, z ∈ x :: l → matches h key kh (ent (idx h) z) = Ok (m z)) →
  find_loop found missing f h key kh x =
    Ok (match search m (x :: l) with Some z => found z (low h (slt (idx h) z)) | None => missing end).
Proof using.
  intros S. revert x l. induction f as [|f IH]; intros x l W Hf Hm; [lia|]. simpl.
  destruct (walk_cons _ _ _ W) as (W' & Hr & Hx & He). rewrite get_index_Ok by (done || lia). simpl.
  rewrite Hm by left. simpl. destruct (m x); [done|]. fold (nxt (idx h) x). destruct l as [|y l].
  - by rewrite (proj2 He).
  - destruct (nxt (idx h) x =? x) eqn:En; [by pose proof (proj1 He eq_refl)|]. rewrite Hx. simpl.
    apply (IH y l); [done|simpl in Hf; lia|]. intros. apply Hm. by right.
Qed.

Lemma alloc_loop_Ok h f key kh x l m c :
  shape h → walk h (x :: l) → (length l < f)%nat →
  (∀ z, z ∈ x :: l → matches h key kh (ent (idx h) z) = Ok (m z)) →
  match search m (x :: l) with
  | Some z => alloc_loop f h key kh x c = Ok (inl z)
  | None => ∃ l' y c', x :: l = l' ++ [y] ∧ alloc_loop f h key kh x c = Ok (inr (y, c'))
  end.
Proof using.
  intros S. revert x l c. induction f as [|f IH]; intros x l c W Hf Hm; [lia|].
  destruct (walk_cons _ _ _ W) as (W' & Hr & Hx & He). simpl. rewrite get_index_Ok by (done || lia). simpl.
  rewrite Hm by left. simpl. destruct (m x); [done|]. fold (nxt (idx h) x). destruct l as [|y l].
  - rewrite (proj2 He) by done. simpl. by eexists [], x, _.
  - destruct (nxt (idx h) x =? x) eqn:En; [by pose proof (proj1 He eq_refl)|]. rewrite Hx. simpl hd.
    specialize (IH y l (u32 (c + 1)) W'). unfold search in *. simpl in Hf.
    destruct (List.find m (y :: l)) as [z|].
    + apply IH; [lia|]. intros. apply Hm. by right.
    + destruct IH as (l' & w & c' & E & Hc); [lia|intros; apply Hm; by right|].
      exists (x :: l'), w, c'. by rewrite E.
Qed.

(** ** Finding an empty bucket *)
Definition is_empty h x : Prop := 0 ≤ x < nb h ∧ nxt (idx h) x = INACTIVE.

(** The buckets that are not in use are marked, and only they. *)
Definition marked h : Prop :=
  ∀ x, 0 ≤ x < nb h → 0 ≤ nxt (idx h) x < nb h ∨ nxt (idx h) x = INACTIVE.

Lemma EMPTY_spec h x :
  shape h → marked h → 0 ≤ x < nb h + 2 →
  ∃ b : bool, EMH_EMPTY h x = Ok b ∧ (b = true ↔ is_empty h x).
Proof using.
  intros S M Hx. pose proof (shape_bounds h S). rewrite EMPTY_Ok by done. eexists. split; [done|].
  unfold is_empty. destruct (decide (x < nb h)) as [Hl|Hl].
  - destruct (M x) as [Hn|Hn]; [lia| |].
    + rewrite negative_small by lia. split; [done|]. unfold INACTIVE. lia.
    + rewrite Hn. rewrite negative_INACTIVE. split; [|done]. intros _. split; [lia|done].
  - rewrite (sh_pad _ S) by lia. rewrite negative_small by lia. split; [done|]. unfold INACTIVE. lia.
Qed.

Lemma mask_range h z : shape h → 0 ≤ Z.land z (_mask h) < nb h.
Proof using.
  intros S. destruct (sh_pow _ S) as (k & Hk & E). rewrite (sh_mask _ S), E.
  pose proof (lo_range (2 ^ k - 1) k ltac:(lia) eq_refl z) as Hr. unfold lo in Hr. lia.
Qed.

Lemma probe_loop_Ok k h from o st :
  shape h → marked h →
  ∃ r, probe_loop k h from o st = Ok r ∧ ∀ x, r = Some x → is_empty h x.
Proof using.
  intros S M. revert o st. induction k as [|k IH]; intros o st; simpl; [by exists None|].
  set (x := Z.land _ _). assert (0 ≤ x < nb h) as Hx by (by apply mask_range).
  destruct (EMPTY_spec h x S M ltac:(lia)) as (b1 & -> & H1). simpl. destruct b1.
  { exists (Some x). split; [done|]. intros ? [= <-]. by apply H1. }
  destruct (EMPTY_spec h (x + 1) S M ltac:(lia)) as (b2 & -> & H2). simpl. destruct b2; [|apply IH].
  exists (Some (x + 1)). split; [done|]. intros ? [= <-]. by apply H2.
Qed.

(** The turns [last_probe] needs at most to come to bucket [t]. *)
Definition turns h (t : Z) : Z :=
  let r := Z.land (_last h) (_mask h) in if r <? t then t - 1 - r else nb h - r + t - 1.

Lemma mask_mod h z : shape h → Z.land z (_mask h) = z mod nb h.
Proof using.
  intros S. destruct (sh_pow _ S) as (k & Hk & E). rewrite (sh_mask _ S), E.
  apply (lo_mod (2 ^ k - 1) k); [lia|done].
Qed.

Lemma half_double h : shape h → nb h / 2 + nb h / 2 = nb h ∧ 1 ≤ nb h / 2.
Proof using.
  intros S. destruct (sh_pow _ S) as (k & Hk & ->). rewrite (pow2_double k) by lia.
  rewrite Z.mul_comm, Z.div_mul by lia.
  split; [lia|]. assert (0 < 2 ^ (k - 1)) by (apply Z.pow_pos_nonneg; lia). lia.
Qed.

Lemma last_probe_Ok f h e l0 :
  shape h → marked h → is_empty h e →
  turns (set_last l0 h) (if e =? 0 then nb h / 2 else e) < Z.of_nat f →
  ∃ x l, last_probe f (set_last l0 h) = Ok (x, set_last l h) ∧ is_empty h x.
Proof using.
  intros S M He. pose proof (shape_bounds h S) as Hb. destruct (half_double h S) as [Hd1 Hd2].
  set (tg := if e =? 0 then nb h / 2 else e).
  assert (1 ≤ tg < nb h) as Ht.
  { unfold tg. destruct He as [He _]. destruct (Z.eqb_spec e 0); lia. }
  revert l0.
  induction f as [|f IH]; intros l0 Hf; [unfold turns in Hf; simpl in Hf;
    pose proof (mask_range h l0 S); destruct (Z.ltb_spec (Z.land l0 (_mask h)) tg); lia|].
  cbn [last_probe]. cbn [_last _mask set_last]. pose proof (mask_range h l0 S) as Hr.
  set (r := Z.land l0 (_mask h)) in *. rewrite (uwrap_small 32) by word_lia.
  change (set_last (r + 1) (set_last l0 h)) with (set_last (r + 1) h).
  destruct (EMPTY_spec (set_last (r + 1) h) (r + 1)) as (b1 & -> & H1); [by apply shape_last|exact M|simpl; lia|].
  simpl. destruct b1.
  { exists (r + 1), (r + 1). split; [done|]. by apply H1. }
  rewrite (uwrap_small 32) by word_lia.
  destruct (EMPTY_spec (set_last (r + 1) h) (Z.land (nb h / 2 + (r + 1)) (_mask h))) as (b2 & -> & H2);
    [by apply shape_last|exact M|simpl; pose proof (mask_range h (nb h / 2 + (r + 1)) S); lia|].
  simpl. destruct b2.
  { eexists _, (r + 1). split; [done|]. by apply H2. }
  apply IH. unfold turns in *. cbn [_last _mask _num_buckets set_last] in *. fold r in Hf.
  assert (r + 1 ≠ tg) as Hne.
  { intros E. unfold tg in E. destruct (Z.eqb_spec e 0) as [->|Hnz].
    - enough (false = true) by done. apply H2. rewrite E, Hd1, mask_mod, Z.mod_same by (done || lia).
      exact He.
    - enough (false = true) by done. apply H1. rewrite E. exact He. }
  rewrite (mask_mod h (r + 1) S). destruct (decide (r + 1 = nb h)) as [E|E].
  - rewrite E, Z.mod_same by lia. destruct (Z.ltb_spec r tg), (Z.ltb_spec 0 tg); lia.
  - rewrite Z.mod_small by lia. destruct (Z.ltb_spec r tg), (Z.ltb_spec (r + 1) tg); lia.
Qed.

Lemma find_empty_bucket_Ok h from csize :
  shape h → marked h → 0 ≤ from < nb h → (∃ e, is_empty h e) →
  ∃ x l, find_empty_bucket from csize h = Ok (x, set_last l h) ∧ is_empty h x.
Proof using.
  intros S M Hfr [e He]. unfold find_empty_bucket.
  assert (h = set_last (_last h) h) as Eh by (by destruct h).
  destruct (EMPTY_spec h (from + 1) S M ltac:(lia)) as (b1 & E1 & H1). rewrite (bind_eq _ _ _ E1). destruct b1.
  { exists (from + 1), (_last h). rewrite <- Eh. split; [done|]. by apply H1. }
  destruct (EMPTY_spec h (from + 2) S M ltac:(lia)) as (b2 & E2 & H2). rewrite (bind_eq _ _ _ E2). destruct b2.
  { exists (from + 2), (_last h). rewrite <- Eh. split; [done|]. by apply H2. }
  destruct (probe_loop_Ok 3 h from (u32 (1 + csize)) 3 S M) as ([x|] & Hp & Hx).
  - rewrite (bind_eq _ _ _ Hp). exists x, (_last h). rewrite <- Eh. split; [done|]. by apply Hx.
  - rewrite (bind_eq _ _ _ Hp). 
    replace (last_probe (fuel h) h) with (last_probe (fuel h) (set_last (_last h) h)) by (by rewrite <- Eh).
    apply (last_probe_Ok _ h e); [done..|]. rewrite <- Eh.
    pose proof (shape_bounds h S). destruct (half_double h S). destruct He as [He _].
    pose proof (mask_range h (_last h) S). unfold turns. rewrite fuel_eq.
    set (tg := if e =? 0 then nb h / 2 else e).
    assert (0 ≤ tg < nb h) by (unfold tg; destruct (Z.eqb_spec e 0); lia).
    destruct (Z.ltb_spec (Z.land (_last h) (_mask h)) tg); lia.
Qed.

(** ** Tables *)

(** The index of [h] holds the pairs [P], which are some of its array. *)
Record table h ch P : Prop := {
  tb_shape : shape h;
  tb_links : links (idx h) (nb h) ch;
  tb_empties : empties (idx h) (nb h) ch;
  tb_data : data hk (_mask h) (idx h) ch P;
  tb_pairs : ∀ s p, P s = Some p → 0 ≤ s ∧ _pairs h !! Z.to_nat s = Some p
}.

Lemma table_marked h ch P : table h ch P → marked h.
Proof using.
  intros T x Hx. destruct (tb_empties _ _ _ T x Hx) as [[b Hb]|E]; [|by right].
  left. by eapply next_in_chain; [apply T|].
Qed.

Lemma shape_lo h : shape h → ∃ k, 0 ≤ k ∧ _mask h = 2 ^ k - 1.
Proof using. intros S. destruct (sh_pow _ S) as (k & Hk & E). exists k. rewrite (sh_mask _ S), E. lia. Qed.

Abbreviation main h := (main_of hk (_mask h)).

Lemma bucket_of_main h key : shape h → bucket_of h (hk key) = main h key.
Proof using.
  intros S. pose proof (mask_range h (hk key) S). pose proof (shape_bounds h S).
  unfold bucket_of, main_of, lo. rewrite (uwrap_small 32) by word_lia. rewrite !mask_mod by done.
  unfold uwrap. destruct (sh_pow _ S) as (k & Hk & E). rewrite E.
  symmetry. apply Z.mod_mod_divide. exists (2 ^ (32 - k)). rewrite <- Z.pow_add_r by lia. f_equal. lia.
Qed.

Lemma main_range h key : shape h → 0 ≤ main h key < nb h.
Proof using. intros S. by apply mask_range. Qed.

(** Does bucket [x] hold [key]? *)
Definition has h key (x : Z) : bool :=
  match _pairs h !! Z.to_nat (low h (slt (idx h) x)) with
  | Some p => bool_decide (key = p.1)
  | None => false
  end.

Lemma node_pair h ch P b x :
  table h ch P → x ∈ ch b →
  ∃ p, P (low h (slt (idx h) x)) = Some p ∧ 0 ≤ low h (slt (idx h) x) ∧
    _pairs h !! Z.to_nat (low h (slt (idx h) x)) = Some p ∧
    hi (_mask h) (slt (idx h) x) = hi (_mask h) (u32 (hk p.1)) ∧ main h p.1 = b.
Proof using.
  intros T Hx. destruct (shape_lo h (tb_shape _ _ _ T)) as (k & Hk & Hm).
  destruct (dt_main _ _ k Hk Hm _ _ _ _ _ (tb_data _ _ _ T) Hx) as (p & Hp & Hh & Hb).
  exists p. destruct (tb_pairs _ _ _ T _ _ Hp). done.
Qed.

Lemma matches_Ok h ch P b x key :
  table h ch P → x ∈ ch b → matches h key (hk key) (ent (idx h) x) = Ok (has h key x).
Proof using.
  intros T Hx. destruct (node_pair h ch P b x T Hx) as (p & _ & Hs & Hp & Hh & _).
  unfold matches, has, EMH_EQHASH, high. fold (slt (idx h) x). unfold hi in Hh. rewrite Hh, Hp.
  destruct (Z.eqb_spec (Z.ldiff (u32 (hk key)) (_mask h)) (Z.ldiff (u32 (hk p.1)) (_mask h))) as [E|E].
  - by rewrite (get_pair_Ok _ _ _ Hs Hp).
  - rewrite bool_decide_eq_false_2; [done|]. by intros ->.
Qed.

Lemma has_main h ch P b x key : table h ch P → x ∈ ch b → has h key x = true → b = main h key.
Proof using.
  intros T Hx. destruct (node_pair h ch P b x T Hx) as (p & _ & _ & Hp & _ & Hb).
  unfold has. rewrite Hp. by intros ->%bool_decide_eq_true.
Qed.

Lemma search_None m l : (∀ z, z ∈ l → m z = false) → search m l = None.
Proof using.
  unfold search. induction l as [|x l IH]; intros Hm; simpl; [done|]. rewrite Hm by left. apply IH.
  intros. apply Hm. by right.
Qed.

Lemma fuel_chain h ch b l1 x l2 :
  links (idx h) (nb h) ch → ch b = l1 ++ x :: l2 → (length l2 < fuel h)%nat.
Proof using.
  intros HL E. pose proof (chain_length _ _ _ b HL) as Hl. rewrite E, length_app in Hl. simpl in Hl.
  rewrite fuel_eq. lia.
Qed.

(** The chain on which a main bucket lies, if any: its own one, or one of
    another main bucket. *)
Lemma main_bucket_cases h ch P b :
  table h ch P → 0 ≤ b < nb h →
  (ch b = [] ∧ nxt (idx h) b = INACTIVE ∧ ∀ b', b ∉ ch b') ∨
  (∃ l, ch b = b :: l) ∨
  (ch b = [] ∧ ∃ km, km ≠ b ∧ b ∈ ch km).
Proof using.
  intros T Hb. pose proof (tb_links _ _ _ T) as HL.
  destruct (lk_head _ _ _ HL b) as [E|E]; [|by right; left].
  destruct (tb_empties _ _ _ T b Hb) as [[km Hkm]|Ei].
  - right. right. split; [done|]. exists km. split; [|done]. intros ->. rewrite E in Hkm. inversion Hkm.
  - left. split; [done|]. split; [done|]. eapply empty_free; [exact HL| | |exact Ei].
    + pose proof (sh_len _ (tb_shape _ _ _ T)). lia.
    + apply (shape_bounds h (tb_shape _ _ _ T)).
Qed.

Lemma find_filled_Ok found missing h ch P key :
  table h ch P →
  find_filled found missing h key (hk key) =
    Ok (match search (has h key) (ch (main h key)) with
        | Some z => found z (low h (slt (idx h) z))
        | None => missing
        end).
Proof using.
  intros T. pose proof (tb_shape _ _ _ T) as S. pose proof (tb_links _ _ _ T) as HL.
  pose proof (main_range h key S) as Hr. pose proof (shape_bounds h S) as Hb.
  unfold find_filled. rewrite bucket_of_main by done. set (b := main h key) in *.
  rewrite get_index_Ok by (done || lia). simpl. fold (nxt (idx h) b) (slt (idx h) b).
  destruct (main_bucket_cases h ch P b T Hr) as [(E & -> & _)|Hocc].
  { by rewrite E, negative_INACTIVE. }
  assert (∃ b' l1 l2, ch b' = l1 ++ b :: l2 ∧ search (has h key) (b :: l2) = search (has h key) (ch b))
    as (b' & l1 & l2 & E & Es).
  { destruct Hocc as [[l E]|(E & km & Hne & Hkm)]; [exists b, [], l; by rewrite E|].
    pose proof Hkm as Hkm'. apply list_elem_of_split in Hkm as (l1 & l2 & E'). exists km, l1, l2.
    split; [done|]. rewrite E. apply search_None. intros z Hz.
    destruct (has h key z) eqn:Eh; [|done]. destruct Hne. eapply has_main; [exact T| |exact Eh].
    rewrite E'. set_solver. }
  assert (∀ z, z ∈ b :: l2 → matches h key (hk key) (ent (idx h) z) = Ok (has h key z)) as Hm.
  { intros z Hz. eapply (matches_Ok h ch P b'); [done|]. rewrite E. set_solver. }
  pose proof (walk_chain h ch b' HL) as W. rewrite E in W. apply walk_app_r in W.
  assert (b ∈ ch b') as Hbb by (rewrite E; set_solver).
  pose proof (next_in_chain _ _ _ _ _ HL Hbb). rewrite negative_small by lia.
  rewrite Hm by left. simpl. rewrite <- Es. destruct (walk_cons _ _ _ W) as (W' & _ & Hx & He).
  unfold search at 1. simpl. destruct (has h key b); [done|]. destruct l2 as [|y l2].
  - by rewrite (proj2 He).
  - destruct (nxt (idx h) b =? b) eqn:En; [by pose proof (proj1 He eq_refl)|]. rewrite Hx. simpl hd.
    rewrite (find_loop_Ok _ _ _ _ _ _ y l2 (has h key)); [done|done|done| |].
    + pose proof (fuel_chain h ch b' l1 b (y :: l2) HL E) as Hf. simpl in Hf. lia.
    + intros. apply Hm. by right.
Qed.
End facts.
