(* ===== verification/HashMapInsert.v ===== *)
(** * Room for a new pair in the hash map

    [kickout_bucket], [find_unique_bucket] and [find_or_allocate] make room for
    a pair at its place; writing the pair there gives a table with one pair
    more.  Rehashing fills an empty index in the same way. *)

From S2P Require Import Prelude HashMap HashChains HashMapFacts.
Import HashMap.

Section insert.
Context {K V : Type} `{EqDecision K} (hasher : K → Z).
Implicit Types (h : t K V) (key : K) (P : Z → option (K * V)).

Abbreviation hk := (hash_key hasher).
Abbreviation idx := (_index).
Abbreviation nb := (_num_buckets).
Abbreviation main h := (main_of hk (_mask h)).
Abbreviation table := (table hasher).

#[local] Opaque default_mlf pairs_for fuel.

Lemma find_prev_Ok h ch km l1 pr bk l2 :
  shape h → links (idx h) (nb h) ch → ch km = l1 ++ pr :: bk :: l2 →
  find_prev_bucket h km bk = Ok pr.
Proof using.
  intros S HL E. pose proof (walk_chain h ch km HL) as W. pose proof W as (_ & Hnd & _).
  destruct (chain_main _ _ _ km HL) as (Hkm & l & E'); [rewrite E; by destruct l1|].
  rewrite E' in W, Hnd. destruct (walk_cons _ _ _ W) as (W' & _ & Hx & _).
  unfold find_prev_bucket. rewrite get_index_Ok by (done || lia). simpl. fold (nxt (idx h) km). rewrite Hx.
  rewrite E in E'. destruct l1 as [|z l1].
  - injection E' as <- <-. simpl. by rewrite Z.eqb_refl.
  - injection E' as -> <-. apply NoDup_cons in Hnd as [Hno Hnd].
    rewrite (proj2 (Z.eqb_neq _ bk)).
    + destruct (l1 ++ pr :: bk :: l2) as [|w lw] eqn:Ew; [by destruct l1|]. simpl.
      eapply (prev_loop_Ok h _ bk w lw l1); [done|done|done|].
      pose proof (fuel_chain h ch km [km] w lw HL) as Hf. apply Hf. rewrite E. simpl. by rewrite Ew.
    + destruct l1 as [|w l1]; simpl in *; intros ->; [apply NoDup_cons in Hnd as [Hnd _]; set_solver|].
      apply NoDup_cons in Hnd as [Hnd _]. set_solver.
Qed.

(** A state of [h] with another index and [_last]. *)
Definition variant I (l : Z) h : t K V := with_index I (set_last l h).

Lemma table_set_last h ch P l : table h ch P → table (set_last l h) ch P.
Proof using. intros [S HL HE D HP]. split; [by apply shape_last|done..]. Qed.

(** Fewer than [nb] pairs leave an empty bucket. *)
Lemma table_empty_bucket h ch P n :
  table h ch P → (∀ s p, P s = Some p → 0 ≤ s < n) → n < nb h → ∃ e, is_empty h e.
Proof using.
  intros T HP Hn. destruct (shape_lo h (tb_shape _ _ _ _ T)) as (k & Hk & Hm).
  pose proof (sh_mask _ (tb_shape _ _ _ _ T)) as E. pose proof T as [S HL HE D _].
  replace (nb h) with (_mask h + 1) in HL, HE by lia.
  destruct (empty_bucket hk (_mask h) k Hk Hm (idx h) ch P n HL HE D HP) as (x & Hx & Ex); [lia|].
  exists x. split; [lia|done].
Qed.

(** The index after [kickout_bucket]: bucket [bk] behind [pr] is replaced by
    [nw]. *)
Definition kick_index I (nw pr bk : Z) (l2 : list Z) : list Index :=
  let I1 := put nw (mkIndex (hd nw l2) (slt I bk)) I in
  let I2 := put pr (mkIndex nw (slt I1 pr)) I1 in
  put bk (mkIndex INACTIVE (slt I2 bk)) I2.

Lemma kickout_run h ch P km bk l1 pr l2 :
  table h ch P → ch km = l1 ++ pr :: bk :: l2 → (∃ e, is_empty h e) →
  ∃ nw l, is_empty h nw ∧
    kickout_bucket km bk h = Ok (bk, variant (kick_index (idx h) nw pr bk l2) l h).
Proof using.
  intros T E He. pose proof T as [S HL HE D HP].
  assert (pr ∈ ch km) as Hpr by (rewrite E; set_solver).
  assert (bk ∈ ch km) as Hbk by (rewrite E; set_solver).
  pose proof (lk_range _ _ _ HL _ _ Hpr) as Hprr. pose proof (lk_range _ _ _ HL _ _ Hbk) as Hr.
  pose proof (lk_path _ _ _ HL km) as Hp. rewrite E in Hp.
  apply path_app_r in Hp as (_ & Hp & _).
  pose proof (lk_nodup _ _ _ HL km) as Hnd. rewrite E in Hnd.
  apply NoDup_app in Hnd as (_ & _ & [_ [N2 _]%NoDup_cons]%NoDup_cons).
  destruct (find_empty_bucket_Ok h (nxt (idx h) bk) 2 S (table_marked _ _ _ _ T)) as (nw & l & Ef & Hnw);
    [by eapply next_in_chain|done|].
  pose proof (proj1 Hnw) as Hnr.
  exists nw, l. split; [done|]. pose proof (shape_last h l S) as Sl.
  unfold kickout_bucket. rewrite (bind_eq _ _ _ (get_index_Ok h bk S ltac:(lia))).
  fold (nxt (idx h) bk). rewrite (bind_eq _ _ _ Ef).
  rewrite (bind_eq _ _ _ (find_prev_Ok (set_last l h) ch km l1 pr bk l2 Sl HL E)).
  rewrite (bind_eq _ _ _ (get_index_Ok (set_last l h) bk Sl ltac:(simpl; lia))).
  assert ((if nxt (idx h) bk =? bk then nw else nxt (idx h) bk) = hd nw l2) as ->.
  { rewrite Hp. destruct l2 as [|z l2]; simpl; [by rewrite Z.eqb_refl|].
    rewrite (proj2 (Z.eqb_neq z bk)); [done|]. set_solver. }
  rewrite (bind_eq _ _ _ (set_index_Ok (set_last l h) nw _ Sl ltac:(simpl; lia))).
  cbn [_index set_last]. fold (slt (idx h) bk). unfold kick_index. set (I1 := put nw _ (idx h)).
  pose proof (shape_put (set_last l h) nw _ Sl Hnr : shape (with_index I1 (set_last l h))) as S1.
  rewrite (bind_eq _ _ _ (set_next_Ok _ pr nw S1 Hprr)). cbn [_index with_index].
  set (I2 := put pr _ I1).
  pose proof (shape_put _ pr _ S1 Hprr : shape (with_index I2 (set_last l h))) as S2.
  exact (bind_eq _ _ _ (set_next_Ok _ bk INACTIVE S2 Hr)).
Qed.

Lemma kick_entries I nw pr bk l2 y :
  inb I nw → inb I pr → inb I bk → pr ≠ bk → pr ≠ nw → bk ≠ nw → 0 ≤ y →
  let I' := kick_index I nw pr bk l2 in
  nxt I' y = (if decide (y = bk) then INACTIVE else if decide (y = pr) then nw
     else if decide (y = nw) then hd nw l2 else nxt I y) ∧
  slt I' y = (if decide (y = nw) then slt I bk else slt I y).
Proof using.
  intros Hn Hp Hb N1 N2 N3 Hy I'. unfold I', kick_index.
  assert (0 ≤ pr ∧ 0 ≤ bk) as [] by (split; [apply Hp|apply Hb]). split.
  - by rewrite !nxt_put by (rewrite ?inb_put; done).
  - rewrite !slt_put by (rewrite ?inb_put; done). cbn [slot].
    repeat case_decide; subst; done.
Qed.

Lemma kickout_table h ch P km bk l1 pr l2 nw l :
  table h ch P → ch km = l1 ++ pr :: bk :: l2 → is_empty h nw →
  let h' := variant (kick_index (idx h) nw pr bk l2) l h in
  table h' (upd ch km (l1 ++ pr :: nw :: l2)) P ∧ is_empty h' bk ∧
  ∀ b, bk ∉ upd ch km (l1 ++ pr :: nw :: l2) b.
Proof using.
  intros T E [Hnr Hnw] h'. pose proof T as [S HL HE D HP].
  pose proof (shape_bounds h S) as Hb. pose proof (sh_len _ S) as Hlen.
  destruct (shape_lo h S) as (k & Hk & Hm).
  assert (∀ b, nw ∉ ch b) as Hfree by (eapply empty_free; [exact HL|lia|lia|done]).
  assert (∀ y, y ∈ l1 ++ pr :: bk :: l2 → y ∈ ch km) as Hmem by (intros; by rewrite E).
  assert (pr ∈ ch km) as Hpr by (apply Hmem; set_solver).
  assert (bk ∈ ch km) as Hbk by (apply Hmem; set_solver).
  pose proof (lk_range _ _ _ HL _ _ Hpr) as Hprr. pose proof (lk_range _ _ _ HL _ _ Hbk) as Hr.
  pose proof (lk_nodup _ _ _ HL km) as Hnd. rewrite E in Hnd.
  apply NoDup_app in Hnd as (_ & Hno & [N1 [N2 N3]%NoDup_cons]%NoDup_cons).
  assert (bk ≠ nw) as D1 by (intros ->; by apply (Hfree km)).
  assert (pr ≠ nw) as D2 by (intros ->; by apply (Hfree km)). assert (pr ≠ bk) as D3 by set_solver.
  set (ch' := upd ch km (l1 ++ pr :: nw :: l2)). set (I' := kick_index (idx h) nw pr bk l2) in *.
  pose proof (λ y, kick_entries (idx h) nw pr bk l2 y (shape_inb h nw S Hnr) (shape_inb h pr S Hprr)
    (shape_inb h bk S Hr) D3 D2 D1) as HI. fold I' in HI. cbn zeta in HI.
  assert (∀ b x, x ∈ ch' b ↔ (b = km ∧ x = nw) ∨ (x ∈ ch b ∧ x ≠ bk)) as Hch.
  { intros b x. unfold ch'. destruct (decide (b = km)) as [->|Hb']; [rewrite upd_eq, E|rewrite upd_ne by done].
    - split; [|set_solver]. intros Hx. destruct (decide (x = bk)) as [->|]; [|set_solver]. exfalso.
      apply elem_of_app in Hx as [Hx|Hx]; [by apply (Hno bk Hx); right; left|set_solver].
    - split; [|tauto]. intros Hx. right. split; [done|]. intros ->. by apply Hb', (lk_disj _ _ _ HL _ _ _ Hx). }
  assert (∀ b x, x ∈ ch b → 0 ≤ x) as Hpos by (intros b x Hx; apply (lk_range _ _ _ HL) in Hx; lia).
  assert (∀ b x, x ∈ ch b → x ≠ nw) as Hnn by (intros b x Hx ->; by apply (Hfree b)).
  split; [|split].
  - split; [| | | |done].
    + unfold h', variant, I', kick_index. set (I1 := put nw _ (idx h)). set (I2 := put pr _ I1).
      pose proof (shape_put (set_last l h) nw _ (shape_last h l S) Hnr : shape (with_index I1 (set_last l h))) as S1.
      pose proof (shape_put _ pr _ S1 Hprr : shape (with_index I2 (set_last l h))) as S2.
      exact (shape_put _ bk _ S2 Hr).
    + apply (links_kickout _ _ _ HL ltac:(lia) ltac:(lia) km l1 pr bk l2 nw); done.
    + intros x Hx. cbn [_index h' variant with_index] in *. rewrite (proj1 (HI x ltac:(lia))).
      destruct (decide (x = bk)); [by right|]. destruct (decide (x = nw)) as [->|]; [left; exists km; apply Hch; tauto|].
      destruct (HE x Hx) as [[b Hxb]|Ex]; [left; exists b; apply Hch; tauto|right].
      rewrite decide_False; [done|]. intros ->.
      pose proof (next_in_chain _ _ _ _ _ HL Hpr) as Hn. rewrite Ex in Hn. unfold INACTIVE in Hn. lia.
    + apply (data_map hk _ k Hk Hm (idx h) I' ch ch' P P (λ x, if decide (x = nw) then bk else x) D).
      * intros b x [[-> ->]|[Hx Hne]]%Hch.
        -- rewrite decide_True by done. split; [done|]. by rewrite (proj2 (HI nw ltac:(lia))), decide_True.
        -- rewrite decide_False by (by eapply Hnn). split; [done|].
           by rewrite (proj2 (HI x (Hpos _ _ Hx))), decide_False by (by eapply Hnn).
      * intros b b' x y Hx%Hch Hy%Hch. repeat case_decide; subst; naive_solver.
      * intros s p Hp. split; [done|]. intros b x Hx _. destruct (decide (x = bk)) as [->|].
        -- exists nw. rewrite decide_True by done. split; [|done]. apply Hch. left.
           split; [by apply (lk_disj _ _ _ HL _ _ _ Hx)|done].
        -- exists x. rewrite decide_False by (by eapply Hnn). split; [|done]. apply Hch. tauto.
      * intros b x Hx%Hch. destruct Hx as [[-> ->]|[Hx Hne]].
        -- rewrite (proj2 (HI nw ltac:(lia))), decide_True by done.
           destruct (node_pair _ _ _ _ _ _ T Hbk) as (p & Hp & _). by exists p.
        -- rewrite (proj2 (HI x (Hpos _ _ Hx))), decide_False by (by eapply Hnn).
           destruct (node_pair _ _ _ _ _ _ T Hx) as (p & Hp & _). by exists p.
  - split; [done|]. cbn [_index h' variant with_index]. by rewrite (proj1 (HI bk ltac:(lia))), decide_True.
  - intros b Hx%Hch. naive_solver.
Qed.

(** ** The place of a new pair *)

(** Bucket [x] of [h] can take a pair whose main bucket is [b]. *)
Record spot h ch P (b x : Z) : Prop := {
  sp_shape : shape h;
  sp_empty : is_empty h x;
  sp_free : ∀ b', x ∉ ch b';
  sp_pos : ∀ b' y, y ∈ ch b' → 0 ≤ y;
  sp_data : data hk (_mask h) (idx h) ch P;
  sp_links : ∀ s, links (put x (mkIndex x s) (idx h)) (nb h) (upd ch b (ch b ++ [x]));
  sp_empties : ∀ s, empties (put x (mkIndex x s) (idx h)) (nb h) (upd ch b (ch b ++ [x]))
}.

Lemma upd_add (ch : Z → list Z) b x b' y : y ∈ upd ch b (ch b ++ [x]) b' ↔ y ∈ ch b' ∨ (b' = b ∧ y = x).
Proof using.
  unfold upd. case_decide as E; [subst|]; rewrite ?elem_of_app, ?list_elem_of_singleton; naive_solver.
Qed.

(** Writing the pair there gives a table with one pair more. *)
Lemma place h ch P b x s p h' :
  spot h ch P b x → main h p.1 = b → 0 ≤ s ≤ _mask h → P s = None →
  shape h' → nb h' = nb h → idx h' = put x (mkIndex x (Z.lor s (hi (_mask h) (u32 (hk p.1))))) (idx h) →
  let P' s' := if decide (s' = s) then Some p else P s' in
  (∀ s p, P' s = Some p → 0 ≤ s ∧ _pairs h' !! Z.to_nat s = Some p) →
  table h' (upd ch b (ch b ++ [x])) P'.
Proof using.
  intros SP Hb Hs Hn S' Enb Ei P' HP'. destruct (shape_lo h (sp_shape _ _ _ _ _ SP)) as (k & Hk & Hm).
  pose proof (sp_empty _ _ _ _ _ SP) as [Hx _].
  split; [done| | | |done]; rewrite ?Ei, ?Enb.
  - apply SP.
  - apply SP.
  - rewrite (sh_mask _ S'), Enb, <- (sh_mask _ (sp_shape _ _ _ _ _ SP)). rewrite <- Hb.
    apply (data_add hk (_mask h) k Hk Hm); [apply SP| |apply SP|done|done|apply SP].
    by apply shape_inb; [apply SP|].
Qed.

Lemma spot_free h ch P b :
  table h ch P → ch b = [] → is_empty h b → (∀ b', b ∉ ch b') → spot h ch P b b.
Proof using.
  intros T Hb [Hr He] Hf. pose proof T as [S HL HE D HP].
  pose proof (shape_bounds h S). pose proof (sh_len _ S). split; [done|done|done| |done| |].
  - intros b' y Hy. apply (lk_range _ _ _ HL) in Hy. lia.
  - intros s. apply links_new_main; done || lia.
  - intros s x Hx. destruct (decide (x = b)) as [->|]; [left; exists b; apply upd_add; tauto|].
    destruct (HE x Hx) as [[b' Hb']|Ex]; [left; exists b'; apply upd_add; tauto|right].
    rewrite nxt_put, decide_False; [done..|by apply shape_inb|lia].
Qed.

Lemma variant_self h : h = variant (idx h) (_last h) h.
Proof using. by destruct h. Qed.

Lemma extend_Ok h ch P b l tl c :
  table h ch P → ch b = l ++ [tl] → (∃ e, is_empty h e) →
  ∃ x I' l', extend_chain tl c h = Ok (x, variant I' l' h) ∧ spot (variant I' l' h) ch P b x.
Proof using.
  intros T Hb He. pose proof T as [S HL HE D HP].
  pose proof (shape_bounds h S). pose proof (sh_len _ S).
  assert (tl ∈ ch b) as Htl by (rewrite Hb; set_solver). pose proof (lk_range _ _ _ HL _ _ Htl) as Htr.
  destruct (find_empty_bucket_Ok h tl c S (table_marked _ _ _ _ T) Htr He) as (x & l' & Ef & [Hx Hex]).
  assert (∀ b, x ∉ ch b) as Hfree by (eapply empty_free; [exact HL|lia|lia|done]).
  assert (tl ≠ x) as Hne by (intros ->; by apply (Hfree b)).
  pose proof (shape_last h l' S) as Sl. set (I' := put tl (mkIndex x (slt (idx h) tl)) (idx h)).
  exists x, I', l'. unfold extend_chain. rewrite (bind_eq _ _ _ Ef). cbn [fst snd].
  rewrite (bind_eq _ _ _ (set_next_Ok _ tl x Sl Htr)). split; [done|].
  assert (∀ b' y, y ∈ ch b' → 0 ≤ y) as Hpos by (intros b' y Hy; apply (lk_range _ _ _ HL) in Hy; lia).
  pose proof (shape_inb h tl S Htr) as Hti. pose proof (shape_inb h x S Hx) as Hxi.
  split; [exact (shape_put _ tl _ Sl Htr)| |done|done| | |]; cbn [_index _num_buckets _mask variant with_index set_last].
  - split; [done|]. cbn [_index variant with_index]. unfold I'. rewrite nxt_put, decide_False; [done..|lia].
  - destruct (shape_lo h S) as (k & Hk & Hm).
    assert (∀ y, 0 ≤ y → slt I' y = slt (idx h) y) as Es.
    { intros y Hy. unfold I'. rewrite slt_put by done. by case_decide; subst. }
    apply (data_map hk _ k Hk Hm (idx h) I' ch ch P P id D); [|done| |].
    + intros b' y Hy. split; [done|]. apply Es. by eapply Hpos.
    + intros s p Hp. split; [done|]. intros b' y Hy _. by exists y.
    + intros b' y Hy. rewrite Es by (by eapply Hpos). destruct (node_pair _ _ _ _ _ _ T Hy) as (p & Hp & _).
      by exists p.
  - intros s. by apply (links_extend _ _ _ HL ltac:(lia) ltac:(lia) b l tl).
  - intros s y Hy. destruct (decide (y = x)) as [->|]; [left; exists b; apply upd_add; tauto|].
    destruct (HE y Hy) as [[b' Hb']|Ey]; [left; exists b'; apply upd_add; tauto|right].
    unfold I'. rewrite !nxt_put by (rewrite ?inb_put; done || lia). rewrite !decide_False; [done| |done].
    intros ->. pose proof (next_in_chain _ _ _ _ _ HL Htl) as Hn. rewrite Ey in Hn. unfold INACTIVE in Hn. lia.
Qed.

(** A pair of another chain on the main bucket [b] is kicked out. *)
Lemma kickout_spot h ch P km b :
  table h ch P → ch b = [] → km ≠ b → b ∈ ch km → (∃ e, is_empty h e) →
  ∃ I' l ch', kickout_bucket km b h = Ok (b, variant I' l h) ∧ spot (variant I' l h) ch' P b b.
Proof using.
  intros T Hb Hne Hbk He.
  destruct (chain_split _ _ _ (tb_links _ _ _ _ T) km b Hbk ltac:(done)) as (l1 & pr & l2 & E).
  destruct (kickout_run h ch P km b l1 pr l2 T E He) as (nw & l & Hnw & Hk).
  destruct (kickout_table h ch P km b l1 pr l2 nw l T E Hnw) as (T' & Hem & Hfree).
  eexists _, l, _. split; [exact Hk|]. apply spot_free; [exact T'| |exact Hem|exact Hfree].
  by rewrite upd_ne by done.
Qed.

Lemma find_last_Ok h ch b l1 y l2 :
  shape h → links (idx h) (nb h) ch → ch b = l1 ++ y :: l2 →
  ∃ l tl, ch b = l ++ [tl] ∧ find_last_bucket h y = Ok tl.
Proof using.
  intros S HL E. pose proof (walk_chain h ch b HL) as W. rewrite E in W. apply walk_app_r in W.
  destruct (walk_cons _ _ _ W) as (W' & Hr & Hx & He).
  unfold find_last_bucket. rewrite get_index_Ok by (done || lia). simpl. fold (nxt (idx h) y).
  destruct l2 as [|z l2].
  - exists l1, y. split; [done|]. by rewrite (proj2 He).
  - destruct (nxt (idx h) y =? y) eqn:En; [by pose proof (proj1 He eq_refl)|]. rewrite Hx. simpl hd.
    destruct (exists_last (l := z :: l2)) as (l & tl & El); [done|].
    exists (l1 ++ y :: l), tl. rewrite E, El, <- app_assoc. split; [done|].
    eapply last_loop_Ok; [done|exact W'|exact El|].
    pose proof (fuel_chain h ch b l1 y (z :: l2) HL E) as Hf. simpl in Hf. lia.
Qed.

Lemma hash_main_Ok h ch P b x : table h ch P → x ∈ ch b → hash_main hasher h x = Ok b.
Proof using.
  intros T Hx. pose proof (tb_shape _ _ _ _ T) as S. pose proof (lk_range _ _ _ (tb_links _ _ _ _ T) _ _ Hx).
  destruct (node_pair _ _ _ _ _ _ T Hx) as (p & _ & Hs & Hp & _ & Hm).
  unfold hash_main. rewrite get_index_Ok by (done || lia). simpl. fold (slt (idx h) x).
  rewrite (get_pair_Ok _ _ _ Hs Hp). simpl. f_equal. exact Hm.
Qed.

Lemma find_unique_Ok h ch P key :
  table h ch P → (∃ e, is_empty h e) →
  ∃ x I' l ch', find_unique_bucket hasher (hk key) h = Ok (x, variant I' l h) ∧
    spot (variant I' l h) ch' P (main h key) x.
Proof using.
  intros T He. pose proof T as [S HL HE D HP]. pose proof (shape_bounds h S).
  pose proof (main_range hasher h key S) as Hr. unfold find_unique_bucket.
  rewrite (bucket_of_main hasher) by done. set (b := main h key) in *.
  rewrite (bind_eq _ _ _ (get_index_Ok h b S ltac:(lia))). fold (nxt (idx h) b).
  destruct (main_bucket_cases _ h ch P b T Hr) as [(E & Ei & Hf)|[[l E]|(E & km & Hne & Hkm)]].
  - rewrite Ei, negative_INACTIVE. exists b, (idx h), (_last h), ch. rewrite <- variant_self.
    split; [done|]. by apply spot_free.
  - assert (b ∈ ch b) as Hbb by (rewrite E; left).
    rewrite negative_small by (pose proof (next_in_chain _ _ _ _ _ HL Hbb); lia).
    rewrite (bind_eq _ _ _ (hash_main_Ok h ch P b b T Hbb)), Z.eqb_refl. cbn [negb].
    assert (∃ l' tl, ch b = l' ++ [tl] ∧
      (if negb (nxt (idx h) b =? b) then find_last_bucket h (nxt (idx h) b) else Ok (nxt (idx h) b)) = Ok tl)
      as (l' & tl & El & Etl).
    { pose proof (walk_chain h ch b HL) as W. rewrite E in W. destruct (walk_cons _ _ _ W) as (_ & _ & Hx & He').
      destruct l as [|y l]; [exists [], b; split; [done|]; rewrite (proj2 He') by done; simpl; by rewrite Hx|].
      destruct (nxt (idx h) b =? b) eqn:En; [by pose proof (proj1 He' eq_refl)|]. rewrite Hx. simpl.
      by apply (find_last_Ok h ch b [b] y l). }
    rewrite (bind_eq _ _ _ Etl).
    destruct (extend_Ok h ch P b l' tl 2 T El He) as (x & I' & lst & Ex & SP). by exists x, I', lst, ch.
  - rewrite negative_small by (pose proof (next_in_chain _ _ _ _ _ HL Hkm); lia).
    rewrite (bind_eq _ _ _ (hash_main_Ok h ch P km b T Hkm)), (proj2 (Z.eqb_neq km b)) by done. cbn [negb].
    destruct (kickout_spot h ch P km b T E Hne Hkm He) as (I' & lst & ch' & Ek & SP).
    by exists b, I', lst, ch'.
Qed.

(** [find_or_allocate]: the bucket of the key, or a place for it. *)
Lemma find_or_allocate_Ok h ch P key :
  table h ch P → (∃ e, is_empty h e) →
  match search (has h key) (ch (main h key)) with
  | Some z => find_or_allocate hasher key (hk key) h = Ok (z, h)
  | None => ∃ x I' l ch', find_or_allocate hasher key (hk key) h = Ok (x, variant I' l h) ∧
      spot (variant I' l h) ch' P (main h key) x
  end.
Proof using.
  intros T He. pose proof T as [S HL HE D HP]. pose proof (shape_bounds h S).
  pose proof (main_range hasher h key S) as Hr. unfold find_or_allocate.
  rewrite (bucket_of_main hasher) by done. set (b := main h key) in *.
  rewrite (bind_eq _ _ _ (get_index_Ok h b S ltac:(lia))). fold (nxt (idx h) b) (slt (idx h) b).
  destruct (main_bucket_cases _ h ch P b T Hr) as [(E & Ei & Hf)|[[l E]|(E & km & Hne & Hkm)]].
  - rewrite Ei, negative_INACTIVE, E. simpl. exists b, (idx h), (_last h), ch. rewrite <- variant_self.
    split; [done|]. by apply spot_free.
  - assert (b ∈ ch b) as Hbb by (rewrite E; left).
    rewrite negative_small by (pose proof (next_in_chain _ _ _ _ _ HL Hbb); lia).
    rewrite (bind_eq _ _ _ (matches_Ok _ h ch P b b key T Hbb)).
    destruct (node_pair _ _ _ _ _ _ T Hbb) as (p & _ & Hs & Hp & _ & Hm).
    rewrite E. unfold search. simpl. destruct (has h key b); [done|].
    rewrite (get_pair_Ok _ _ _ Hs Hp). simpl. change (hash_bucket hasher h p.1) with (main h p.1).
    rewrite Hm, Z.eqb_refl. cbn [negb].
    pose proof (walk_chain h ch b HL) as W. rewrite E in W. destruct (walk_cons _ _ _ W) as (W' & _ & Hx & He').
    destruct l as [|y l].
    + rewrite (proj2 He') by done. simpl. rewrite Hx. simpl.
      destruct (extend_Ok h ch P b [] b 1 T E He) as (x & I' & lst & Ex & SP). by exists x, I', lst, ch.
    + destruct (nxt (idx h) b =? b) eqn:En; [by pose proof (proj1 He' eq_refl)|]. rewrite Hx. simpl hd.
      pose proof (alloc_loop_Ok h (fuel h) key (hk key) y l (has h key) 1 S W') as Ha. unfold search in Ha.
      specialize (Ha ltac:(pose proof (fuel_chain h ch b [] b (y :: l) HL E) as Hf; simpl in Hf; lia)).
      specialize (Ha ltac:(intros z Hz; eapply (matches_Ok _ h ch P b); [done|rewrite E; by right])).
      destruct (List.find (has h key) (y :: l)) as [z|] eqn:Ef.
      * by rewrite Ha.
      * destruct Ha as (l' & tl & c' & El & ->). simpl.
        destruct (extend_Ok h ch P b (b :: l') tl c' T) as (x & I' & lst & Ex & SP); [by rewrite E, El|done|].
        by exists x, I', lst, ch.
  - rewrite negative_small by (pose proof (next_in_chain _ _ _ _ _ HL Hkm); lia).
    rewrite (bind_eq _ _ _ (matches_Ok _ h ch P km b key T Hkm)).
    assert (has h key b = false) as Eh.
    { destruct (has h key b) eqn:Eh; [|done]. destruct Hne. by eapply has_main. }
    rewrite Eh, E. simpl. destruct (node_pair _ _ _ _ _ _ T Hkm) as (p & _ & Hs & Hp & _ & Hm).
    rewrite (get_pair_Ok _ _ _ Hs Hp). simpl. change (hash_bucket hasher h p.1) with (main h p.1).
    rewrite Hm, (proj2 (Z.eqb_neq km b)) by done. cbn [negb].
    destruct (kickout_spot h ch P km b T E Hne Hkm He) as (I' & lst & ch' & Ek & SP).
    by exists b, I', lst, ch'.
Qed.
End insert.
