(* ===== verification/HashMapOps.v ===== *)
(** * The hash map as a finite map

    The invariant [valid] of [emhash8::HashMap]; rehashing, insertion, look-up
    and removal keep it and act on the array of pairs as they should. *)

From S2P Require Import Prelude HashMap HashChains HashMapFacts HashMapInsert.
Import HashMap.

(** ** Sizes

    With the default load factor a table of [nb] buckets has room for
    [0.8 * nb + 4] pairs and grows when [1.25 * n] reaches its mask. *)
Lemma pairs_for_eq n : pairs_for n default_mlf = n * 13421773 / 2 ^ 24 + 4.
Proof.
  assert (max_load_factor default_mlf = mkF32 13421773 24) as E by (by vm_compute).
  unfold pairs_for. by rewrite E.
Qed.

Lemma pairs_for_bound n : 0 ≤ n → n * 4 / 5 + 4 ≤ pairs_for n default_mlf.
Proof.
  intros Hn. rewrite pairs_for_eq. apply Z.add_le_mono_r.
  apply Z.div_le_lower_bound; [lia|]. pose proof (Z.mul_div_le (n * 4) 5 ltac:(lia)). nia.
Qed.

Lemma required_for_eq n : 0 ≤ n < 2 ^ 36 → required_for n default_mlf = 5 * n / 4.
Proof.
  intros Hn. assert (default_mlf = 5 * 2 ^ 25) as E by (by vm_compute).
  unfold required_for. rewrite E, (uwrap_small 64) by (unfold in_u; lia).
  rewrite Z.shiftr_div_pow2 by lia. replace (n * (5 * 2 ^ 25)) with ((5 * n) * 2 ^ 25) by lia.
  change (2 ^ 27) with (4 * 2 ^ 25). by rewrite Z.div_mul_cancel_r by lia.
Qed.

#[local] Opaque default_mlf pairs_for fuel.

Lemma double_up_Ok f j r :
  0 ≤ j ≤ 31 → 31 < j + Z.of_nat f → r ≤ 2 ^ 31 →
  ∃ k, j ≤ k ≤ 31 ∧ double_up f (2 ^ j) r = Ok (2 ^ k) ∧ r ≤ 2 ^ k ∧ (k = j ∨ 2 ^ (k - 1) < r).
Proof.
  revert j. induction f as [|f IH]; intros j Hj Hf Hr; [lia|]. simpl.
  destruct (Z.ltb_spec (2 ^ j) r) as [Hlt|Hge]; [|exists j; split; [lia|]; by auto].
  assert (j < 31) as Hj'. { destruct (decide (j = 31)) as [->|]; lia. }
  rewrite Z.mul_comm, <- Z.pow_succ_r by lia. rewrite (uwrap_small 32).
  - destruct (IH (Z.succ j)) as (k & Hk & E & Hk' & Hs); [lia..|]. exists k. split; [lia|]. split; [done|].
    split; [done|]. right. destruct Hs as [->|]; [|done]. by replace (Z.succ j - 1) with j by lia.
  - unfold in_u. split; [apply Z.pow_nonneg; lia|]. apply Z.pow_lt_mono_r; lia.
Qed.

Section ops.
Context {K V : Type} `{EqDecision K} (hasher : K → Z) (trivial : bool) (V0 : V).
Implicit Types (h : t K V) (key : K) (P : Z → option (K * V)).

Abbreviation hk := (hash_key hasher).
Abbreviation idx := (_index).
Abbreviation nb := (_num_buckets).
Abbreviation main h := (main_of hk (_mask h)).
Abbreviation table := (table hasher).
Abbreviation spot := (spot hasher).

(** ** Rehashing *)

(** The first [n] pairs of the array. *)
Definition upto (ps : list (K * V)) (n : Z) : Z → option (K * V) :=
  λ s, if decide (0 ≤ s < n) then ps !! Z.to_nat s else None.

Lemma upto_Some ps n s p : upto ps n s = Some p → 0 ≤ s < n ∧ ps !! Z.to_nat s = Some p.
Proof using. unfold upto. by case_decide. Qed.

Lemma data_ext I mask ch P P' :
  (∀ s, P s = P' s) → data hk mask I ch P → data hk mask I ch P'.
Proof using.
  intros E D. split.
  - intros b x Hx. destruct (dt_node _ _ _ _ _ D b x Hx) as (s & p & Hs & Hr). exists s, p. by rewrite <- E.
  - intros s p Hs. apply (dt_slot _ _ _ _ _ D). by rewrite E.
  - apply (dt_inj _ _ _ _ _ D).
Qed.

Lemma table_ext h ch P P' : (∀ s, P s = P' s) → table h ch P → table h ch P'.
Proof using.
  intros E [S HL HE D HP]. split; [done..|by eapply data_ext|]. intros s p Hs. apply HP. by rewrite E.
Qed.

(** Nothing is in a fresh index. *)
Lemma fresh_lookup n x :
  0 ≤ n → 0 ≤ x < n + 2 → nxt (fresh_index n) x = if decide (x < n) then INACTIVE else 0.
Proof using.
  intros Hn Hx. unfold nxt, ent, fresh_index. case_decide as E.
  - rewrite lookup_app_l by (rewrite length_replicate; lia).
    by rewrite lookup_replicate_2 by lia.
  - rewrite lookup_app_r by (rewrite length_replicate; lia). rewrite length_replicate.
    by rewrite lookup_replicate_2 by (unfold EAD; lia).
Qed.

(** A table all of whose buckets are marked empty holds nothing. *)
Lemma empty_table h :
  shape h → (∀ x, 0 ≤ x < nb h → nxt (idx h) x = INACTIVE) → table h (λ _, []) (upto (_pairs h) 0).
Proof using.
  intros S Ei. split; [done| | | |].
  - split; [by left|done|intros b x Hx; inversion Hx|intros; apply NoDup_nil_2|].
    intros b b' x Hx. inversion Hx.
  - intros x Hx. right. by apply Ei.
  - split; [intros b x Hx; inversion Hx| |intros b b' x y Hx; inversion Hx].
    intros s p Hs. apply upto_Some in Hs. lia.
  - intros s p Hs. apply upto_Some in Hs. lia.
Qed.

Lemma index_loop_Ok h ch s ps :
  table h ch (upto (_pairs h) s) → 0 ≤ s → ps = drop (Z.to_nat s) (_pairs h) →
  s + Z.of_nat (length ps) = _num_filled h → _num_filled h ≤ nb h →
  ∃ I' l ch', index_loop hasher s ps h = Ok (variant I' l h) ∧
    table (variant I' l h) ch' (upto (_pairs h) (_num_filled h)).
Proof using.
  revert h ch s. induction ps as [|p ps IH]; intros h ch s T Hs Hps Hl Hn; simpl in *.
  { exists (idx h), (_last h), ch. rewrite <- variant_self. replace (_num_filled h) with s by lia. done. }
  pose proof (tb_shape _ _ _ _ T) as S. pose proof (sh_mask _ S) as Hm.
  assert (_pairs h !! Z.to_nat s = Some p) as Hp.
  { rewrite <- (Nat.add_0_r (Z.to_nat s)), <- lookup_drop, <- Hps. done. }
  destruct (find_unique_Ok hasher h ch _ p.1 T) as (x & I1 & l1 & ch1 & Ef & SP).
  { eapply (table_empty_bucket _ _ _ _ s T); [|lia]. intros s' q Hq. by apply upto_Some in Hq as []. }
  rewrite (bind_eq _ _ _ Ef). set (h1 := variant I1 l1 h) in *.
  pose proof (sp_shape _ _ _ _ _ _ SP) as S1. pose proof (proj1 (sp_empty _ _ _ _ _ _ SP)) as Hx.
  rewrite (bind_eq _ _ _ (set_index_Ok h1 x _ S1 ltac:(lia))).
  set (h2 := with_index _ h1).
  assert (shape h2) as S2 by (by apply shape_put).
  assert (table h2 (upd ch1 (main h p.1) (ch1 (main h p.1) ++ [x])) (upto (_pairs h2) (s + 1))) as T2.
  { eapply table_ext; [|eapply (place hasher h1 ch1 _ _ x s p h2 SP); [done|simpl; lia| |done|done|done|]].
    - intros s'. simpl. unfold upto. destruct (decide (s' = s)) as [->|].
      + by rewrite decide_True by lia.
      + destruct (decide (0 ≤ s' < s)); [by rewrite decide_True by lia|by rewrite decide_False by lia].
    - unfold upto. by rewrite decide_False by lia.
    - intros s' q. simpl. case_decide as E; [intros [= <-]; by subst|]. intros Hq%upto_Some. naive_solver. }
  destruct (IH h2 _ (s + 1) T2) as (I' & l' & ch' & Ei & T'); [lia| |simpl; lia|simpl; lia|].
  { simpl. replace (Z.to_nat (s + 1)) with (Datatypes.S (Z.to_nat s)) by lia.
    pose proof (drop_S _ _ _ Hp) as Ed. rewrite <- Hps in Ed. by injection Ed. }
  exists I', l', ch'. split; [exact Ei|exact T'].
Qed.

(** A table whose index holds all pairs. *)
Definition full h : Z → option (K * V) := upto (_pairs h) (_num_filled h).

Lemma full_lookup h s p :
  shape h → 0 ≤ s → _pairs h !! Z.to_nat s = Some p → full h s = Some p.
Proof using.
  intros S Hs Hp. pose proof (lookup_lt_Some _ _ _ Hp). pose proof (sh_filled _ S).
  unfold full, upto. by rewrite decide_True by lia.
Qed.

(** [_etail] is the bucket of the last pair, unless it is unset. *)
Definition etail_ok h (ch : Z → list Z) : Prop :=
  _etail h = INACTIVE ∨ ∃ b, _etail h ∈ ch b ∧ low h (slt (idx h) (_etail h)) = _num_filled h - 1.

Record valid h : Prop := {
  va_table : ∃ ch, table h ch (full h) ∧ etail_ok h ch;
  va_keys : NoDup (_pairs h).*1
}.

Lemma valid_shape h : valid h → shape h.
Proof using. intros [(ch & T & _) _]. apply T. Qed.

Lemma rehash_Ok h r :
  _num_filled h = Z.of_nat (length (_pairs h)) → _mlf h = default_mlf → NoDup (_pairs h).*1 →
  _num_filled h ≤ r < 2 ^ 31 → _num_filled h ≤ r * 4 / 5 + 4 →
  ∃ h', rehash hasher r h = Ok h' ∧ valid h' ∧ _pairs h' = _pairs h ∧ r ≤ nb h' ∧
    (nb h' < 2 * r ∨ nb h' = if 2 ^ 16 <? _num_filled h then 2 ^ 16 else 4).
Proof using.
  intros Hn Hml Hnd Hr Hc. unfold rehash.
  rewrite (proj2 (Z.ltb_ge _ _)), (proj2 (Z.ltb_lt _ _)) by lia.
  destruct (double_up_Ok 33 (if 2 ^ 16 <? _num_filled h then 16 else 2) r) as (k & Hk & E & Hrk & Hs);
    [destruct (2 ^ 16 <? _num_filled h); lia..|].
  replace (if 2 ^ 16 <? _num_filled h then 2 ^ 16 else 4) with (2 ^ (if 2 ^ 16 <? _num_filled h then 16 else 2))
    by (by destruct (2 ^ 16 <? _num_filled h)).
  rewrite (bind_eq _ _ _ E).
  assert (2 ≤ k) as Hk2 by (destruct (2 ^ 16 <? _num_filled h); lia).
  assert (_num_filled h ≤ pairs_for (2 ^ k) default_mlf) as Hcap.
  { pose proof (pairs_for_bound (2 ^ k) ltac:(lia)).
    pose proof (Z.div_le_mono (r * 4) (2 ^ k * 4) 5 ltac:(lia) ltac:(lia)). lia. }
  unfold rebuild. cbn [_mlf _num_filled]. rewrite Hml, (proj2 (Z.leb_le _ _)) by done.
  cbn [mbind result_bind _pairs _mask _num_buckets _last _etail].
  set (h1 := set_etail INACTIVE _).
  assert (shape h1) as S1.
  { assert (0 < 2 ^ k) by (apply Z.pow_pos_nonneg; lia).
    refine (Build_shape h1 _ eq_refl _ _ Hn eq_refl Hcap eq_refl);
      cbn [h1 set_etail _index _num_buckets].
    - exists k. split; [lia|done].
    - unfold fresh_index. rewrite length_app, !length_replicate. unfold EAD. lia.
    - intros x Hx. rewrite fresh_lookup, decide_False by lia. done. }
  destruct (index_loop_Ok h1 (λ _, []) 0 (_pairs h1)) as (I' & l & ch & Ei & T);
    [apply empty_table; [done|]; intros x Hx; cbn in Hx |- *; rewrite fresh_lookup, decide_True by lia; done|done|done|by rewrite (sh_filled _ S1)|simpl; lia|].
  exists (variant I' l h1). split; [exact Ei|].
  split; [|split; [reflexivity|split; [exact Hrk|]]].
  2: { change (_num_buckets (variant I' l h1)) with (2 ^ k). destruct Hs as [->|Hs].
       - right. by destruct (2 ^ 16 <? _num_filled h).
       - left. rewrite (pow2_double k) by lia. lia. }
  split; [|exact Hnd].
  exists ch. split; [exact T|left; reflexivity].
Qed.

(** After [check_expand_need] there is room for one more pair. *)
Definition roomy h : Prop := _num_filled h < _capacity h ∧ _num_filled h < _mask h.

Lemma reserve_Ok h n :
  valid h → _num_filled h ≤ n ≤ 2 ^ 30 →
  ∃ b h', reserve hasher n h = Ok (b, h') ∧ valid h' ∧ _pairs h' = _pairs h ∧ 5 * n / 4 < _mask h'.
Proof using.
  intros Hv Hn. pose proof (valid_shape h Hv) as S. pose proof (sh_filled _ S).
  unfold reserve. rewrite (sh_mlf _ S), required_for_eq by lia.
  destruct (Z.ltb_spec (5 * n / 4) (_mask h)) as [Hlt|Hge]; [by exists false, h|].
  destruct (rehash_Ok h (5 * n / 4 + 2)) as (h' & E & Hv' & Hp & Hr & _);
    [done|apply S|apply Hv|pow2; div_lia|div_lia|].
  exists true, h'. rewrite (bind_eq _ _ _ E). pose proof (sh_mask _ (valid_shape h' Hv')).
  split; [done|]. split; [done|]. split; [done|lia].
Qed.

Lemma roomy_reserved h n : shape h → 5 * n / 4 < _mask h → 0 ≤ _num_filled h ≤ n → roomy h.
Proof using.
  intros S Hm Hn. pose proof (sh_mask _ S). pose proof (shape_bounds h S). split; [|div_lia].
  rewrite (sh_alloc _ S). pose proof (pairs_for_bound (nb h) ltac:(lia)). div_lia.
Qed.

Lemma expand_Ok h :
  valid h → _num_filled h ≤ 2 ^ 30 →
  ∃ h', check_expand_need hasher h = Ok h' ∧ valid h' ∧ _pairs h' = _pairs h ∧ roomy h'.
Proof using.
  intros Hv Hn. destruct (reserve_Ok h (_num_filled h) Hv ltac:(lia)) as (b & h' & E & Hv' & Hp & Hm).
  exists h'. unfold check_expand_need. rewrite (bind_eq _ _ _ E). split; [done|]. split; [done|].
  split; [done|]. pose proof (sh_filled _ (valid_shape h Hv)) as E1.
  pose proof (sh_filled _ (valid_shape h' Hv')) as E2. rewrite Hp in E2.
  apply (roomy_reserved h' (_num_filled h)); [by apply valid_shape|done|lia].
Qed.

(** ** Searching *)

(** What the search in the chain of a key says about the array. *)
Lemma search_pairs h ch key :
  table h ch (full h) →
  match search (has h key) (ch (main h key)) with
  | Some z => z ∈ ch (main h key) ∧
      ∃ v, 0 ≤ low h (slt (idx h) z) ∧ _pairs h !! Z.to_nat (low h (slt (idx h) z)) = Some (key, v)
  | None => key ∉ (_pairs h).*1
  end.
Proof using.
  intros T. pose proof (tb_shape _ _ _ _ T) as S. destruct (search _ _) as [z|] eqn:E; unfold search in E.
  - apply List.find_some in E as [Hz Hh]. apply list_elem_of_In in Hz. split; [done|].
    destruct (node_pair _ _ _ _ _ _ T Hz) as ([k v] & _ & Hs & Hp & _). unfold has in Hh. rewrite Hp in Hh.
    apply bool_decide_eq_true in Hh. simpl in Hh. subst k. by exists v.
  - intros Hk. apply list_elem_of_fmap in Hk as (p & -> & Hp). apply list_elem_of_lookup in Hp as [i Hi].
    destruct (dt_slot _ _ _ _ _ (tb_data _ _ _ _ T) (Z.of_nat i) p) as (x & Hx & Hl).
    { apply full_lookup; [done|lia|by rewrite Nat2Z.id]. }
    apply list_elem_of_In in Hx. apply (List.find_none _ _ E) in Hx. unfold has in Hx.
    change (low h (slt (idx h) x)) with (lo (_mask h) (slt (idx h) x)) in Hx.
    rewrite Hl, Nat2Z.id, Hi in Hx. by rewrite bool_decide_eq_true_2 in Hx.
Qed.

(** ** Insertion *)
Lemma EMH_NEW_Ok h ch I' l key val x :
  valid h → roomy h → key ∉ (_pairs h).*1 →
  spot (variant I' l h) ch (full h) (main h key) x →
  ∃ h', EMH_NEW key val x (hk key) (variant I' l h) = Ok h' ∧ valid h' ∧
    _pairs h' = _pairs h ++ [(key, val)] ∧ _mask h' = _mask h ∧
    (e ← get_index h' x; Ok (low h' (slot e))) = Ok (_num_filled h).
Proof using.
  intros Hv [Hc Hm] Hk SP. set (h1 := variant I' l h) in *. pose proof (valid_shape h Hv) as S.
  pose proof (sp_shape _ _ _ _ _ _ SP) as S1. pose proof (proj1 (sp_empty _ _ _ _ _ _ SP)) as Hx.
  pose proof (sh_filled _ S) as Hn. pose proof (shape_bounds h S) as Hb. pose proof (sh_mask _ S) as Emask.
  destruct (shape_lo h S) as (k & Hk0 & Hm2).
  unfold EMH_NEW. cbn [_num_filled _capacity h1 variant with_index set_last].
  rewrite (proj2 (Z.ltb_lt _ _)) by done. rewrite (uwrap_small 32) by (unfold in_u; lia).
  cbn [_pairs]. set (h2 := set_etail x _). set (e := mkIndex x _).
  assert (shape h2) as S2.
  { destruct S1 as [A1 A2 A3 A4 A5 A6 A7 A8]. refine (Build_shape h2 A1 A2 A3 A4 _ A6 _ A8).
    - change (_num_filled h + 1 = Z.of_nat (length (_pairs h ++ [(key, val)]))).
      rewrite length_app. simpl. lia.
    - change (_num_filled h + 1 ≤ _capacity h). lia. }
  rewrite (set_index_Ok h2 x e S2 ltac:(simpl; simpl in Hx; lia)).
  pose proof (shape_put h2 x e S2 Hx) as S3. set (h3 := with_index _ h2) in *.
  exists h3. split; [done|].
  assert (table h3 (upd ch (main h key) (ch (main h key) ++ [x])) (full h3)) as T3.
  { eapply table_ext; [|eapply (place hasher h1 ch (full h) _ x (_num_filled h) (key, val) h3 SP);
      [done|simpl; lia| |done|done|done|]].
    - intros s. unfold full, upto. change (_num_filled h3) with (_num_filled h + 1).
      change (_pairs h3) with (_pairs h ++ [(key, val)]). destruct (decide (s = _num_filled h)) as [->|].
      + rewrite decide_True by lia. rewrite lookup_app_r by lia. by rewrite Hn, Nat2Z.id, Nat.sub_diag.
      + destruct (decide (0 ≤ s < _num_filled h)); [|by rewrite decide_False by lia].
        rewrite decide_True by lia. by rewrite lookup_app_l by lia.
    - unfold full, upto. by rewrite decide_False by lia.
    - intros s p. change (_pairs h3) with (_pairs h ++ [(key, val)]). simpl. case_decide as E.
      + intros [= <-]. subst s. split; [lia|]. rewrite lookup_app_r by lia.
        by rewrite Hn, Nat2Z.id, Nat.sub_diag.
      + intros [Hs Hp]%upto_Some. split; [lia|]. by rewrite lookup_app_l by lia. }
  assert (slt (idx h3) x = slot e) as Es.
  { change (idx h3) with (put x e (idx h2)). unfold slt. by rewrite ent_put_eq by (by apply shape_inb). }
  assert (low h3 (slot e) = _num_filled h) as El.
  { apply (lo_lor (_mask h) k); [done|done|lia]. }
  split; [split|split; [done|split; [done|]]].
  - eexists. split; [exact T3|]. right. exists (main h key). split; [apply upd_add; by right|].
    change (_etail h3) with x. rewrite Es, El. change (_num_filled h3) with (_num_filled h + 1). lia.
  - change (_pairs h3) with (_pairs h ++ [(key, val)]). rewrite fmap_app. apply NoDup_app.
    split; [apply Hv|]. split; [|apply NoDup_singleton]. intros k' Hk' ->%list_elem_of_singleton. done.
  - rewrite (get_index_Ok h3 x S3 ltac:(simpl; simpl in Hx; lia)). cbn [mbind result_bind].
    change (slot (ent (idx h3) x)) with (slt (idx h3) x). by rewrite Es, El.
Qed.

(** What an insertion finds: the place of the key, or room for it. *)
Lemma allocate_cases h key :
  valid h → roomy h →
  (∃ z s v, find_or_allocate hasher key (hk key) h = Ok (z, h) ∧ EMH_EMPTY h z = Ok false ∧
     0 ≤ s ∧ _pairs h !! Z.to_nat s = Some (key, v) ∧ (e ← get_index h z; Ok (low h (slot e))) = Ok s) ∨
  ((key ∉ (_pairs h).*1) ∧ ∃ x h1, find_or_allocate hasher key (hk key) h = Ok (x, h1) ∧
     EMH_EMPTY h1 x = Ok true ∧
     ∀ val, ∃ h', EMH_NEW key val x (hk key) h1 = Ok h' ∧ valid h' ∧
       _pairs h' = _pairs h ++ [(key, val)] ∧ _mask h' = _mask h ∧
       (e ← get_index h' x; Ok (low h' (slot e))) = Ok (_num_filled h)).
Proof using.
  intros Hv Hr. pose proof (valid_shape h Hv) as S. destruct (va_table h Hv) as (ch & T & _).
  pose proof (shape_bounds h S) as Hb. pose proof (sh_mask _ S) as Em.
  assert (∃ e, is_empty h e) as He.
  { eapply (table_empty_bucket _ _ _ _ (_num_filled h) T); [intros s p Hp; by apply upto_Some in Hp as []|].
    destruct Hr. lia. }
  pose proof (find_or_allocate_Ok hasher h ch _ key T He) as Hf.
  pose proof (search_pairs h ch key T) as Hs. destruct (search _ _) as [z|].
  - left. destruct Hs as (Hz & v & Hs0 & Hs). exists z, (low h (slt (idx h) z)), v.
    pose proof (lk_range _ _ _ (tb_links _ _ _ _ T) _ _ Hz). split; [done|].
    rewrite EMPTY_Ok, get_index_Ok by (done || lia).
    rewrite negative_small by (pose proof (next_in_chain _ _ _ _ _ (tb_links _ _ _ _ T) Hz); lia). done.
  - right. split; [done|]. destruct Hf as (x & I' & l & ch' & Ef & SP). exists x, (variant I' l h).
    split; [done|]. destruct (sp_empty _ _ _ _ _ _ SP) as [Hx Hex].
    rewrite EMPTY_Ok by (apply SP || lia). rewrite Hex. split; [done|]. intros val. by eapply EMH_NEW_Ok.
Qed.
End ops.
