(* ===== verification/HashMapErase.v ===== *)
(** * Removal from the hash map

    [erase_slot] takes a bucket out of its chain, moves the last pair of the
    array to the free place and redirects the bucket of that pair. *)

From S2P Require Import Prelude HashMap HashChains HashMapFacts HashMapInsert HashMapOps.
Import HashMap.

Section erase.
Context {K V : Type} `{EqDecision K} (hasher : K → Z).
Implicit Types (h : t K V) (key : K) (P : Z → option (K * V)) (ch : Z → list Z).

Abbreviation hk := (hash_key hasher).
Abbreviation idx := (_index).
Abbreviation nb := (_num_buckets).
Abbreviation main h := (main_of hk (_mask h)).
Abbreviation table := (table hasher).
Abbreviation valid := (valid hasher).

#[local] Opaque default_mlf pairs_for fuel.

(** ** Taking a bucket out of its chain *)
Definition without P (s : Z) : Z → option (K * V) := λ s', if decide (s' = s) then None else P s'.

(** After [erase_bucket]: the pair at place [s] has no bucket any more, bucket
    [eb] is in no chain; all other buckets hold what they held. *)
Record unlinked h ch P (s : Z) (eb : Z) (I1 : list Index) ch1 : Prop := {
  un_length : length I1 = length (idx h);
  un_shape : shape (with_index I1 h);
  un_range : 0 ≤ eb < nb h;
  un_free : ∀ b, eb ∉ ch1 b;
  un_links : links I1 (nb h) ch1;
  un_data : data hk (_mask h) I1 ch1 (without P s);
  un_empties : ∀ x, 0 ≤ x < nb h → x ≠ eb → (∃ b, x ∈ ch1 b) ∨ nxt I1 x = INACTIVE;
  un_rest : ∀ b x, x ∈ ch b → x ≠ eb → low h (slt (idx h) x) ≠ s →
    x ∈ ch1 b ∧ slt I1 x = slt (idx h) x
}.

(** The three cases of [erase_bucket] have the same shape: the chain of [b]
    gets the content of [f x] in every bucket [x] it keeps, and bucket [x0]
    held the place [s]. *)
Lemma unlinked_intro h ch P b x0 s eb I1 l (f : Z → Z) :
  table h ch P → x0 ∈ ch b → low h (slt (idx h) x0) = s → eb ∈ ch b →
  shape (with_index I1 h) → links I1 (nb h) (upd ch b l) →
  (∀ x, x ∈ l → f x ∈ ch b ∧ f x ≠ x0 ∧ x ∈ ch b ∧ x ≠ eb ∧ slt I1 x = slt (idx h) (f x)) →
  (∀ x y, x ∈ l → y ∈ l → f x = f y → x = y) →
  (∀ x, x ∈ ch b → x ≠ x0 → ∃ x', x' ∈ l ∧ f x' = x) →
  (∀ x, x ∈ ch b → x ≠ eb → x ≠ x0 → f x = x) →
  (∀ x, x ∈ ch b → x ≠ eb → x ∈ l) →
  (∀ x, 0 ≤ x → x ∉ ch b → ent I1 x = ent (idx h) x) →
  unlinked h ch P s eb I1 (upd ch b l).
Proof using.
  intros T Hx0 Hs Heb S1 L1 Hf Hinj Hsurj Hid Hkeep Hout. pose proof T as [S HL HE D HP].
  destruct (shape_lo h S) as (k & Hk & Hm).
  assert (∀ b' x, b' ≠ b → x ∈ ch b' → (x ∉ ch b) ∧ (0 ≤ x)) as Hoth.
  { intros b' x Hne Hx. split; [|by apply (lk_range _ _ _ HL) in Hx as []].
    intros Hx'. apply Hne. by eapply (lk_disj _ _ _ HL). }
  assert (∀ b' x, x ∈ ch b' → x ≠ x0 → low h (slt (idx h) x) ≠ s) as Hns.
  { intros b' x Hx Hne E. apply Hne. eapply (dt_inj _ _ _ _ _ D); [done..|]. unfold low in *. unfold lo. congruence. }
  split.
  - pose proof (sh_len _ S1) as E1. pose proof (sh_len _ S) as E2. simpl in E1. lia.
  - done.
  - by eapply (lk_range _ _ _ HL).
  - intros b'. unfold upd. case_decide as E; [intros Hx; by destruct (Hf _ Hx) as (_ & _ & _ & ? & _)|].
    intros Hx. by eapply (proj1 (Hoth b' eb E Hx)).
  - done.
  - apply (data_map hk _ k Hk Hm (idx h) I1 ch _ P _ (λ x, if decide (x ∈ l) then f x else x) D).
    + intros b' x. unfold upd. case_decide as E; [subst b'|]; intros Hx.
      * rewrite decide_True by done. by destruct (Hf x Hx) as (? & _ & _ & _ & ?).
      * destruct (Hoth b' x E Hx) as [Hno Hpos]. rewrite decide_False by (intros Hl; by destruct (Hf x Hl) as (_ & _ & ? & _)).
        split; [done|]. unfold slt. by rewrite Hout.
    + intros b1 b2 x y H1 H2.
      assert (∀ b' z, z ∈ upd ch b l b' → z ∈ l ∨ ((z ∉ ch b) ∧ z ∈ ch b')) as Hc.
      { intros b' z. unfold upd. case_decide as E; [by left|]. intros Hz. right.
        split; [by apply (Hoth b' z E)|done]. }
      apply Hc in H1, H2. destruct (decide (x ∈ l)) as [Hx|Hx], (decide (y ∈ l)) as [Hy|Hy]; [by apply Hinj| | |done].
      * intros <-. destruct H2 as [?|[Hn _]]; [done|]. by destruct (Hf x Hx).
      * intros ->. destruct H1 as [?|[Hn _]]; [done|]. by destruct (Hf y Hy).
    + intros s' p. unfold without. case_decide as E; [done|]. intros Hp. split; [done|].
      intros b' x Hx Hl. unfold upd. case_decide as Eb; [subst b'|].
      * destruct (Hsurj x Hx) as (x' & Hx' & <-); [intros ->; by apply E; rewrite <- Hl, <- Hs|]. exists x'. by rewrite decide_True.
      * exists x. split; [done|]. rewrite decide_False; [done|]. intros Hl'.
        destruct (Hf x Hl') as (_ & _ & ? & _). by destruct (Hoth b' x Eb Hx).
    + intros b' x. unfold upd. case_decide as E; [subst b'|]; intros Hx.
      * destruct (Hf x Hx) as (Hfx & Hne & _ & _ & ->).
        destruct (node_pair _ _ _ _ _ _ T Hfx) as (p & Hp & _). unfold without. rewrite decide_False; [by exists p|].
        by eapply Hns.
      * destruct (Hoth b' x E Hx) as [Hno Hpos]. unfold slt. rewrite Hout by done. fold (slt (idx h) x).
        destruct (node_pair _ _ _ _ _ _ T Hx) as (p & Hp & _). unfold without. rewrite decide_False; [by exists p|].
        eapply Hns; [done|]. by intros ->.
  - intros x Hx Hne. destruct (decide (x ∈ ch b)) as [Hb|Hb].
    + left. exists b. rewrite upd_eq. by apply Hkeep.
    + unfold nxt. rewrite Hout by (done || lia). destruct (HE x Hx) as [[b' Hb']|?]; [|by right].
      left. exists b'. rewrite upd_ne; [done|]. by intros ->.
  - intros b' x Hx Hne Hlow. unfold upd. case_decide as E; [subst b'|].
    + assert (x ∈ l) as Hl by (by apply Hkeep). split; [done|].
      destruct (Hf x Hl) as (_ & _ & _ & _ & ->). by rewrite Hid; [|done|done|intros ->].
    + split; [done|]. destruct (Hoth b' x E Hx). unfold slt. by rewrite Hout.
Qed.

Lemma erase_bucket_Ok h ch P b x0 :
  table h ch P → x0 ∈ ch b →
  ∃ eb I1 ch1, erase_bucket x0 b h = Ok (eb, with_index I1 h) ∧
    unlinked h ch P (low h (slt (idx h) x0)) eb I1 ch1.
Proof using.
  intros T Hx0. pose proof T as [S HL HE D HP]. pose proof (shape_bounds h S). pose proof (sh_len _ S).
  assert (∀ x, x ∈ ch b → 0 ≤ x < nb h) as Hr by apply (lk_range _ _ _ HL).
  pose proof (lk_nodup _ _ _ HL b) as Hnd. pose proof (lk_path _ _ _ HL b) as Hp.
  unfold erase_bucket. rewrite (bind_eq _ _ _ (get_index_Ok h x0 S ltac:(specialize (Hr x0 Hx0); lia))).
  fold (nxt (idx h) x0). destruct (Z.eqb_spec x0 b) as [->|Hne].
  - destruct (chain_main _ _ _ b HL) as (Hb & l & E); [by intros E; rewrite E in Hx0; inversion Hx0|].
    rewrite E in Hnd, Hp, Hr. destruct Hp as [Hn Hp]. destruct l as [|y l].
    + rewrite Hn. simpl hd. rewrite Z.eqb_refl. cbn [negb].
      exists b, (idx h), (upd ch b []). split; [by destruct h|].
      assert (∀ x, x ∈ ch b → x = b) as Hone by (intros x Hx; rewrite E in Hx; by apply list_elem_of_singleton in Hx).
      apply (unlinked_intro h ch P b b _ b _ [] id T Hx0 eq_refl Hx0).
      * by destruct h.
      * by apply links_drop.
      * intros x Hx. inversion Hx.
      * intros x y Hx. inversion Hx.
      * intros x Hx Hxb. by apply Hone in Hx.
      * done.
      * intros x Hx Hxb. by apply Hone in Hx.
      * done.
    + apply NoDup_cons in Hnd as [Hnb [Hny Hnl]%NoDup_cons]. rewrite Hn. simpl hd.
      assert (b ≠ y) as Hby by set_solver. rewrite (proj2 (Z.eqb_neq b y)) by done. cbn [negb].
      assert (0 ≤ y < nb h) as Hy by (apply Hr; set_solver).
      rewrite (get_index_Ok h y S ltac:(lia)). cbn [mbind result_bind]. fold (nxt (idx h) y) (slt (idx h) y).
      assert ((if nxt (idx h) y =? y then b else nxt (idx h) y) = hd b l) as ->.
      { destruct Hp as [-> _]. destruct l as [|z l]; simpl; [by rewrite Z.eqb_refl|].
        rewrite (proj2 (Z.eqb_neq z y)); [done|set_solver]. }
      rewrite (set_index_Ok h b _ S ltac:(lia)). cbn [mbind result_bind].
      set (I1 := put b _ (idx h)). exists y, I1, (upd ch b (b :: l)). split; [done|].
      assert (∀ x, 0 ≤ x → x ≠ b → ent I1 x = ent (idx h) x) as HI
        by (intros x Hx Hxb; apply ent_put_ne; (done || lia)).
      apply (unlinked_intro h ch P b b _ y _ (b :: l) (λ x, if decide (x = b) then y else x) T Hx0 eq_refl).
      * rewrite E. set_solver.
      * exact (shape_put h b _ S Hb).
      * apply (links_unlink _ _ _ HL ltac:(lia) ltac:(lia) b [] b y l). done.
      * intros x Hx. rewrite E. destruct (decide (x = b)) as [->|Hxb].
        -- split; [set_solver|]. split; [done|]. split; [set_solver|]. split; [done|].
           unfold slt at 1, I1. by rewrite ent_put_eq by (by apply shape_inb).
        -- split; [set_solver|]. split; [done|]. split; [set_solver|]. split; [set_solver|].
           unfold slt. rewrite HI; [done| |done]. apply Hr. set_solver.
      * intros x z Hx Hz. repeat case_decide; subst; set_solver.
      * intros x Hx Hxb. rewrite E in Hx. destruct (decide (x = y)) as [->|Hxy].
        -- exists b. rewrite decide_True by done. split; [left|done].
        -- exists x. rewrite decide_False by done. split; [set_solver|done].
      * intros x Hx Hxy Hxb. by rewrite decide_False.
      * intros x Hx Hxy. rewrite E in Hx. set_solver.
      * intros x Hx Hxb. apply HI; [done|]. intros ->. apply Hxb. rewrite E. left.
  - destruct (chain_split _ _ _ HL b x0 Hx0 Hne) as (l1 & pr & l2 & E).
    rewrite (bind_eq _ _ _ (find_prev_Ok h ch b l1 pr x0 l2 S HL E)).
    rewrite E in Hnd, Hp. apply path_app_r in Hp as (_ & Hn & _).
    apply NoDup_app in Hnd as (_ & Hno & [N1 [N2 N3]%NoDup_cons]%NoDup_cons).
    assert (pr ∈ ch b) as Hpr by (rewrite E; set_solver). pose proof (Hr pr Hpr) as Hprr.
    assert ((if x0 =? nxt (idx h) x0 then pr else nxt (idx h) x0) = hd pr l2) as ->.
    { rewrite Hn. destruct l2 as [|z l2]; simpl; [by rewrite Z.eqb_refl|].
      rewrite (proj2 (Z.eqb_neq x0 z)); [done|set_solver]. }
    rewrite (bind_eq _ _ _ (set_next_Ok h pr _ S Hprr)).
    set (I1 := put pr _ (idx h)). exists x0, I1, (upd ch b (l1 ++ pr :: l2)). split; [done|].
    assert (∀ x, 0 ≤ x → slt I1 x = slt (idx h) x) as HI.
    { intros x Hx. unfold I1. rewrite slt_put by (done || by apply shape_inb). by case_decide; subst. }
    assert (∀ x, x ∈ l1 ++ pr :: l2 ↔ x ∈ ch b ∧ x ≠ x0) as Hl.
    { intros x. rewrite E. split; [|set_solver]. intros Hx. split; [set_solver|]. intros ->.
      apply elem_of_app in Hx as [Hx|Hx]; [by apply (Hno x0 Hx); right; left|set_solver]. }
    apply (unlinked_intro h ch P b x0 _ x0 _ (l1 ++ pr :: l2) id T Hx0 eq_refl Hx0).
    * exact (shape_put h pr _ S Hprr).
    * by apply (links_unlink _ _ _ HL ltac:(lia) ltac:(lia) b l1 pr x0 l2).
    * intros x [Hx Hxx]%Hl. simpl. split; [done|]. split; [done|]. split; [done|]. split; [done|].
      apply HI. by apply Hr.
    * done.
    * intros x Hx Hxx. exists x. split; [by apply Hl|done].
    * done.
    * intros x Hx Hxx. by apply Hl.
    * intros x Hx Hxb. apply ent_put_ne; [lia|done|]. by intros ->.
Qed.

(** ** The bucket of a place *)
Lemma find_slot_bucket_Ok h ch P s p :
  shape h → links (idx h) (nb h) ch → data hk (_mask h) (idx h) ch P → P s = Some p → 0 ≤ s →
  _pairs h !! Z.to_nat s = Some p →
  ∃ y, find_slot_bucket hasher h s = Ok (y, main h p.1) ∧ y ∈ ch (main h p.1) ∧ low h (slt (idx h) y) = s.
Proof using.
  intros S HL D HP Hs Hp. destruct (dt_slot _ _ _ _ _ D s p HP) as (y & Hy & Hl).
  change (low h (slt (idx h) y) = s) in Hl. exists y. split; [|done].
  set (b := main h p.1) in *. pose proof (main_range hasher h p.1 S : 0 ≤ b < nb h) as Hb.
  unfold find_slot_bucket. rewrite (bind_eq _ _ _ (get_pair_Ok _ _ _ Hs Hp)).
  rewrite (bucket_of_main hasher) by done. fold b.
  rewrite (bind_eq _ _ _ (get_index_Ok h b S ltac:(lia))). fold (slt (idx h) b) (nxt (idx h) b).
  destruct (chain_main _ _ _ b HL) as (_ & l & E); [by intros E; rewrite E in Hy; inversion Hy|].
  assert (∀ z, z ∈ ch b → low h (slt (idx h) z) = s → z = y) as Hu.
  { intros z Hz Hzs. eapply (dt_inj _ _ _ _ _ D); [done..|]. unfold low in *. unfold lo. congruence. }
  destruct (Z.eqb_spec s (low h (slt (idx h) b))) as [E1|E1].
  { rewrite (Hu b); [done|rewrite E; left|done]. }
  rewrite E in Hy. apply elem_of_cons in Hy as [->|Hy]; [by destruct E1|].
  pose proof (walk_chain h ch b HL) as W. rewrite E in W. destruct (walk_cons _ _ _ W) as (W' & _ & Hx & _).
  apply list_elem_of_split in Hy as (l1 & l2 & El). destruct l as [|z l]; [by destruct l1|].
  rewrite Hx. simpl hd.
  rewrite (slot_loop_Ok h (fuel h) s z l l1 y l2); [done|done|done|done| |done|].
  - pose proof (fuel_chain h ch b [] b (z :: l) HL E) as Hf. simpl in Hf. lia.
  - intros w Hw Hws. destruct W' as (_ & Hnd & _). rewrite El in Hnd.
    apply NoDup_app in Hnd as (_ & Hno & _). apply (Hno w Hw). rewrite (Hu w); [left| |done].
    rewrite E, El. set_solver.
Qed.

(** ** The array without one pair *)
Definition swap_remove (s : Z) (ps : list (K * V)) : list (K * V) :=
  take (length ps - 1) (match last ps with Some p => <[Z.to_nat s := p]> ps | None => ps end).

Lemma swap_remove_lookup s ps s' :
  0 ≤ s < Z.of_nat (length ps) →
  upto (swap_remove s ps) (Z.of_nat (length ps) - 1) s' =
  if decide (s' = s) then (if decide (s = Z.of_nat (length ps) - 1) then None else last ps)
  else if decide (s' = Z.of_nat (length ps) - 1) then None
  else upto ps (Z.of_nat (length ps)) s'.
Proof using.
  intros Hs. unfold upto, swap_remove. destruct (last ps) as [p|] eqn:El;
    [|apply last_None in El as ->; simpl in Hs; lia].
  destruct (decide (s' = s)) as [->|Hne].
  - destruct (decide (s = _)); [by rewrite decide_False by lia|]. rewrite decide_True by lia.
    rewrite lookup_take_lt by lia. apply list_lookup_insert_eq. lia.
  - destruct (decide (s' = _)) as [->|Hl]; [by rewrite decide_False by lia|].
    destruct (decide (0 ≤ s' < Z.of_nat (length ps))).
    + rewrite decide_True by lia. rewrite lookup_take_lt by lia. apply list_lookup_insert_ne. lia.
    + by rewrite decide_False by lia.
Qed.

Lemma swap_remove_length s ps :
  0 ≤ s < Z.of_nat (length ps) → length (swap_remove s ps) = (length ps - 1)%nat.
Proof using.
  intros Hs. unfold swap_remove. rewrite length_take. destruct (last ps); rewrite ?length_insert; lia.
Qed.

Lemma swap_remove_perm s ps p :
  0 ≤ s → ps !! Z.to_nat s = Some p → ps ≡ₚ p :: swap_remove s ps.
Proof using.
  intros Hs Hp. pose proof (lookup_lt_Some _ _ _ Hp) as Hl. unfold swap_remove.
  destruct ps as [|q ps _] using rev_ind; [done|]. rewrite last_snoc, length_app. cbn [length].
  rewrite length_app in Hl. cbn [length] in Hl. replace (length ps + 1 - 1)%nat with (length ps) by lia.
  destruct (decide (Z.to_nat s = length ps)) as [E|E].
  - rewrite E in *. rewrite list_lookup_middle in Hp by done. injection Hp as ->.
    rewrite insert_app_r_alt, Nat.sub_diag by lia. simpl. rewrite take_app_length.
    by rewrite Permutation_app_comm.
  - rewrite lookup_app_l in Hp by lia. rewrite insert_app_l by lia.
    rewrite take_app_le by (rewrite length_insert; lia). rewrite take_ge by (rewrite length_insert; lia).
    rewrite insert_take_drop by lia. rewrite <- (take_drop_middle ps _ p Hp) at 1.
    rewrite (Permutation_app_comm _ [q]). simpl. rewrite <- !Permutation_middle. apply Permutation_swap.
Qed.

Lemma get_index_inb h x : inb (idx h) x → get_index h x = Ok (ent (idx h) x).
Proof using.
  intros Hx. unfold get_index, ent, inb in *.
  rewrite (proj2 (Z.leb_le 0 x)), (proj2 (Z.ltb_lt x _)) by lia. simpl.
  destruct (lookup_lt_is_Some_2 (idx h) (Z.to_nat x)) as [e ->]; [lia|done].
Qed.
Lemma set_index_inb h x e : inb (idx h) x → set_index x e h = Ok (with_index (put x e (idx h)) h).
Proof using.
  intros Hx. unfold set_index, inb in *. by rewrite (proj2 (Z.leb_le 0 x)), (proj2 (Z.ltb_lt x _)) by lia.
Qed.

(** Searching a place does not depend on the number of pairs. *)
Lemma slot_to_bucket_pairs h n s :
  slot_to_bucket hasher (set_pairs (_pairs h) n h) s = slot_to_bucket hasher h s.
Proof using.
  assert (∀ f x, slot_loop f (set_pairs (_pairs h) n h) s x = slot_loop f h s x) as E.
  { induction f as [|f IH]; intros x; simpl; [done|]. change (get_index (set_pairs (_pairs h) n h) x) with (get_index h x).
    destruct (get_index h x); simpl; [|done]. unfold low. simpl. case_match; [done|apply IH]. }
  unfold slot_to_bucket, find_slot_bucket. change (get_pair (set_pairs (_pairs h) n h) s) with (get_pair h s).
  destruct (get_pair h s) as [p|]; [|done]. cbn [mbind result_bind].
  change (bucket_of (set_pairs (_pairs h) n h) (hk p.1)) with (bucket_of h (hk p.1)).
  change (get_index (set_pairs (_pairs h) n h)) with (get_index h).
  destruct (get_index h _) as [e|]; [|done]. cbn [mbind result_bind].
  change (low (set_pairs (_pairs h) n h) (slot e)) with (low h (slot e)).
  change (fuel (set_pairs (_pairs h) n h)) with (fuel h). by rewrite E.
Qed.

(** The index and the array after [move_last]. *)
Definition moved I1 (y s : Z) (p : K * V) (n : Z) h : t K V :=
  with_index (put y (mkIndex (nxt I1 y) (Z.lor s (hi (_mask h) (slt I1 y)))) I1)
    (set_pairs (<[Z.to_nat s := p]> (_pairs h)) n h).

Lemma move_last_Ok h ch s eb I1 ch1 q :
  valid h → unlinked h ch (full h) s eb I1 ch1 → etail_ok h ch →
  let n := _num_filled h - 1 in
  0 ≤ s < n → _pairs h !! Z.to_nat n = Some q →
  ∃ y, y ∈ ch1 (main h q.1) ∧ low h (slt I1 y) = n ∧
    move_last hasher s n eb (set_pairs (_pairs h) n (with_index I1 h)) = Ok (moved I1 y s q n h).
Proof using.
  intros Hv U He n Hs Hq. pose proof (valid_shape _ _ Hv) as S. pose proof (un_shape _ _ _ _ _ _ _ U) as S1.
  set (h1 := with_index I1 h) in *. pose proof (sh_filled _ S) as Hn. pose proof (sh_len _ S1) as Hlen.
  assert (without (full h) s n = Some q) as HP.
  { unfold without. rewrite decide_False by lia. apply full_lookup; [done|lia|done]. }
  destruct (find_slot_bucket_Ok h1 ch1 _ n q S1 (un_links _ _ _ _ _ _ _ U) (un_data _ _ _ _ _ _ _ U) HP)
    as (y & Ey & Hy & Hl); [lia|done|].
  exists y. split; [done|]. split; [done|].
  assert ((if (_etail h =? INACTIVE) || (eb =? _etail h)
           then slot_to_bucket hasher (set_pairs (_pairs h) n h1) n else Ok (_etail h)) = Ok y) as Eb.
  { destruct ((_etail h =? INACTIVE) || (eb =? _etail h)) eqn:Et.
    - change (_pairs h) with (_pairs h1). rewrite slot_to_bucket_pairs. unfold slot_to_bucket. by rewrite Ey.
    - apply orb_false_iff in Et as [E1%Z.eqb_neq E2%Z.eqb_neq]. destruct He as [He|(b & Hb & Hlb)]; [done|].
      destruct (un_rest _ _ _ _ _ _ _ U b (_etail h) Hb) as [Hb1 Es]; [done|fold n in Hlb; lia|].
      f_equal. eapply (dt_inj _ _ _ _ _ (un_data _ _ _ _ _ _ _ U)); [exact Hb1|exact Hy|].
      rewrite Es. etransitivity; [exact Hlb|symmetry; exact Hl]. }
  unfold move_last. cbn [_etail set_pairs h1 with_index]. rewrite (bind_eq _ _ _ Eb).
  assert (is_Some (_pairs h !! Z.to_nat s)) as [p Hp] by (apply lookup_lt_is_Some; lia).
  assert (inb I1 y) as Hyi.
  { pose proof (lk_range _ _ _ (un_links _ _ _ _ _ _ _ U) _ _ Hy). unfold inb. simpl in Hlen. lia. }
  rewrite (bind_eq _ _ q) by (apply get_pair_Ok; [lia|done]).
  rewrite (bind_eq _ _ p) by (apply get_pair_Ok; [lia|done]).
  set (h3 := set_pairs (<[Z.to_nat s := q]> _) _ _).
  rewrite (bind_eq _ _ _ (get_index_inb h3 y Hyi)).
  unfold set_slot. rewrite (bind_eq _ _ _ (get_index_inb h3 y Hyi)). by rewrite (set_index_inb h3 y _ Hyi).
Qed.

(** The state after [erase_slot]. *)
Definition erased I2 (eb s : Z) h : t K V :=
  mk (put eb (mkIndex INACTIVE 0) I2) (swap_remove s (_pairs h)) (_capacity h) (_mlf h) (_mask h)
     (_num_buckets h) (_num_filled h - 1) (_last h) INACTIVE.

Lemma erased_valid h ch s eb I1 ch1 I2 p :
  valid h → unlinked h ch (full h) s eb I1 ch1 → 0 ≤ s → _pairs h !! Z.to_nat s = Some p →
  length I2 = length I1 → (∀ x, 0 ≤ x → nxt I2 x = nxt I1 x) →
  data hk (_mask h) I2 ch1 (upto (swap_remove s (_pairs h)) (_num_filled h - 1)) →
  valid (erased I2 eb s h).
Proof using.
  intros Hv U Hs Hp Hl2 Hn2 D2. pose proof (valid_shape _ _ Hv) as S. pose proof (lookup_lt_Some _ _ _ Hp) as Hlt.
  pose proof (sh_filled _ S) as Hn. pose proof (sh_len _ S) as Hlen. destruct U as [Ul US Ur Uf UL UD UE _].
  assert (inb I2 eb) as Hei by (unfold inb; lia).
  assert (∀ x, 0 ≤ x → x ≠ eb → ent (put eb (mkIndex INACTIVE 0) I2) x = ent I2 x) as HI
    by (intros; apply ent_put_ne; (done || lia)).
  assert (∀ b x, x ∈ ch1 b → 0 ≤ x ∧ x ≠ eb) as Hc.
  { intros b x Hx. split; [by apply (lk_range _ _ _ UL) in Hx as []|]. intros ->. by apply (Uf b). }
  assert (shape (erased I2 eb s h)) as S'.
  { destruct S as [A1 A2 A3 A4 A5 A6 A7 A8]. refine (Build_shape (erased I2 eb s h) A1 A2 _ _ _ A6 _ A8); cbn.
    - rewrite length_put. lia.
    - intros x Hx. unfold nxt. rewrite HI by lia. fold (nxt I2 x). rewrite Hn2 by lia.
      by apply (sh_pad _ US).
    - rewrite swap_remove_length by lia. lia.
    - lia. }
  split.
  - exists ch1. split; [|by left]. split; [done| | | |].
    + eapply links_ext; [exact UL|]. intros b x Hx. destruct (Hc b x Hx). cbn. unfold nxt.
      rewrite HI by done. fold (nxt I2 x). by rewrite Hn2.
    + intros x Hx. cbn. destruct (decide (x = eb)) as [->|Hne].
      * right. unfold nxt. by rewrite ent_put_eq.
      * cbn in Hx. destruct (UE x Hx Hne) as [?|E]; [by left|right]. unfold nxt. rewrite HI by (done || lia).
        fold (nxt I2 x). rewrite Hn2 by lia. done.
    + destruct (shape_lo h S) as (k & Hk & Hm). cbn.
      apply (data_map hk _ k Hk Hm I2 _ ch1 ch1 _ _ id D2); [|done| |].
      * intros b x Hx. destruct (Hc b x Hx). split; [done|]. unfold slt. by rewrite HI.
      * intros s' q Hq. split; [done|]. intros b x Hx _. by exists x.
      * intros b x Hx. destruct (Hc b x Hx). unfold slt. rewrite HI by done. fold (slt I2 x).
        destruct (dt_main _ _ k Hk Hm _ _ _ _ _ D2 Hx) as (q & Hq & _). by exists q.
    + intros s' q Hq. by apply upto_Some in Hq as [[? _] ?].
  - cbn. pose proof (va_keys _ _ Hv) as Hnd. rewrite (swap_remove_perm s _ p Hs Hp) in Hnd.
    by apply NoDup_cons in Hnd as [_ ?].
Qed.

(** Without a move: the last pair itself is erased. *)
Lemma unlinked_last h ch s eb I1 ch1 :
  shape h → unlinked h ch (full h) s eb I1 ch1 → s = _num_filled h - 1 → 0 ≤ s →
  data hk (_mask h) I1 ch1 (upto (swap_remove s (_pairs h)) (_num_filled h - 1)).
Proof using.
  intros S U Es Hs. pose proof (sh_filled _ S) as Hn. eapply data_ext; [|apply (un_data _ _ _ _ _ _ _ U)].
  intros s'. unfold full. rewrite Hn, swap_remove_lookup by lia. unfold without.
  destruct (decide (s' = s)); [by rewrite decide_True by lia|]. by rewrite decide_False by lia.
Qed.

(** With the move of the last pair. *)
Lemma unlinked_moved h ch s eb I1 ch1 y q :
  shape h → unlinked h ch (full h) s eb I1 ch1 →
  let n := _num_filled h - 1 in
  0 ≤ s < n → _pairs h !! Z.to_nat n = Some q → y ∈ ch1 (main h q.1) → low h (slt I1 y) = n → n ≤ _mask h →
  data hk (_mask h) (put y (mkIndex (nxt I1 y) (Z.lor s (hi (_mask h) (slt I1 y)))) I1) ch1
    (upto (swap_remove s (_pairs h)) n).
Proof using.
  intros S U n Hs Hq Hy Hl Hm. pose proof (sh_filled _ S) as Hn. destruct (shape_lo h S) as (k & Hk & Hm2).
  pose proof (un_links _ _ _ _ _ _ _ U) as UL. pose proof (lk_range _ _ _ UL _ _ Hy) as Hyr.
  assert (lo (_mask h) (slt I1 y) = n) as Hl' by exact Hl.
  eapply data_ext; [|eapply (data_move hk (_mask h) k Hk Hm2 I1 ch1 _ _ y s q (un_data _ _ _ _ _ _ _ U) Hy)].
  - intros s'. cbn beta. rewrite Hl'. unfold n. rewrite Hn, swap_remove_lookup by lia.
    destruct (decide (s' = s)) as [->|].
    + rewrite decide_False by lia. rewrite last_lookup.
      replace (Nat.pred (length (_pairs h))) with (Z.to_nat n) by lia. by rewrite Hq.
    + destruct (decide (s' = _)); [done|]. unfold without, full. rewrite decide_False by done. by rewrite Hn.
  - unfold inb. rewrite (un_length _ _ _ _ _ _ _ U). pose proof (sh_len _ S). lia.
  - intros b z Hz. by apply (lk_range _ _ _ UL) in Hz as [].
  - lia.
  - unfold without. by rewrite decide_True.
  - rewrite Hl'. unfold without. rewrite decide_False by lia. apply full_lookup; [done|lia|done].
Qed.

Lemma erase_slot_Ok h ch b x0 p :
  valid h → table h ch (full h) → etail_ok h ch → x0 ∈ ch b →
  let s := low h (slt (idx h) x0) in
  _pairs h !! Z.to_nat s = Some p →
  ∃ h', erase_slot hasher x0 b h = Ok h' ∧ valid h' ∧ _pairs h' = swap_remove s (_pairs h).
Proof using.
  intros Hv T He Hx0 s Hp. pose proof T as [S HL HE D HP].
  destruct (node_pair _ _ _ _ _ _ T Hx0) as (p' & Hp' & Hs & _). fold s in Hp', Hs.
  pose proof (lookup_lt_Some _ _ _ Hp) as Hlt. pose proof (sh_filled _ S) as Hn.
  pose proof (shape_bounds h S) as Hb. pose proof (lk_range _ _ _ HL _ _ Hx0) as Hr.
  destruct (erase_bucket_Ok h ch (full h) b x0 T Hx0) as (eb & I1 & ch1 & Eb & U). fold s in U.
  set (n := _num_filled h - 1) in *.
  assert (∃ q, _pairs h !! Z.to_nat n = Some q ∧ last (_pairs h) = Some q) as (q & Hq & Hlast).
  { destruct (lookup_lt_is_Some_2 (_pairs h) (Z.to_nat n)) as [q Hq]; [lia|]. exists q. split; [done|].
    rewrite last_lookup. by replace (Nat.pred (length (_pairs h))) with (Z.to_nat n) by lia. }
  assert (n ≤ _mask h) as Hnm.
  { destruct (dt_slot _ _ _ _ _ D n q) as (y & _ & <-); [apply full_lookup; [done|lia|done]|].
    destruct (shape_lo h S) as (k & Hk & Hm). by apply (lo_range (_mask h) k Hk Hm). }
  assert (inb I1 eb) as Hei.
  { unfold inb. rewrite (un_length _ _ _ _ _ _ _ U). pose proof (un_range _ _ _ _ _ _ _ U). pose proof (sh_len _ S). lia. }
  pose proof (sh_mask _ S) as Em. unfold erase_slot.
  rewrite (bind_eq _ _ _ (get_index_Ok h x0 S ltac:(lia))), (bind_eq _ _ _ Eb). fold (slt (idx h) x0) s.
  cbn [_num_filled with_index]. fold n. rewrite (uwrap_small 32) by (unfold in_u; lia).
  assert (take (Z.to_nat n) (<[Z.to_nat s := q]> (_pairs h)) = swap_remove s (_pairs h)) as Etake.
  { unfold swap_remove. rewrite Hlast. f_equal. lia. }
  destruct (Z.eqb_spec s n) as [Es|Es]; cbn [negb].
  - exists (erased I1 eb s h). cbn [mbind result_bind]. split; [|split; [|done]].
    + cbn [_pairs set_pairs with_index]. rewrite <- (list_insert_id (_pairs h) (Z.to_nat s) q) by (by rewrite Es).
      rewrite Etake. by rewrite set_index_inb.
    + eapply erased_valid; [done|exact U|done|exact Hp|done|done|]. by eapply unlinked_last.
  - destruct (move_last_Ok h ch s eb I1 ch1 q Hv U He) as (y & Hy & Hl & Ey); [fold n; lia|done|].
    fold n in Hl, Ey. change (_pairs (with_index I1 h)) with (_pairs h). rewrite (bind_eq _ _ _ Ey).
    exists (erased (put y (mkIndex (nxt I1 y) (Z.lor s (hi (_mask h) (slt I1 y)))) I1) eb s h).
    split; [|split; [|done]].
    + cbn [_pairs set_pairs moved with_index]. rewrite Etake.
      rewrite set_index_inb; [done|]. cbn [_index set_etail set_pairs moved with_index]. by apply inb_put.
    + eapply erased_valid; [done|exact U|done|exact Hp|apply length_put| |].
      * intros x Hx. pose proof (lk_range _ _ _ (un_links _ _ _ _ _ _ _ U) _ _ Hy) as Hyr. rewrite nxt_put; [|..|done].
        -- by case_decide; subst.
        -- unfold inb. rewrite (un_length _ _ _ _ _ _ _ U). pose proof (sh_len _ S). lia.
      * eapply unlinked_moved; [done|exact U|fold n; lia|done|done|done|done].
Qed.
End erase.
