(* ===== verification/HashMapSpec.v ===== *)
(** * The hash map implements a finite map

    Every public operation of [emhash8::HashMap] on a valid table succeeds,
    leaves a valid table and acts on its content as the operation of a finite
    map does; sequences of operations give the answers of the finite map. *)

From S2P Require Import Prelude HashMap HashChains HashMapFacts HashMapInsert HashMapOps HashMapErase.
Import HashMap.

Lemma init_mlf {K V} `{EqDecision K} (hasher : K → Z) :
  set_max_load_factor hasher EMH_DEFAULT_LOAD_FACTOR (mk [] [] 0 default_mlf 0 0 0 0 0 : t K V) =
  Ok (mk [] [] 0 default_mlf 0 0 0 0 0).
Proof. vm_compute. reflexivity. Qed.

Section spec.
Context {K V : Type} `{Countable K} (hasher : K → Z) (trivial : bool) (V0 : V).
Implicit Types (h : t K V) (key : K).

Abbreviation valid := (valid hasher).

#[local] Opaque default_mlf pairs_for fuel.

Definition to_map h : gmap K V := list_to_map (_pairs h).

Lemma to_map_Some h key v : valid h → to_map h !! key = Some v ↔ (key, v) ∈ _pairs h.
Proof. intros Hv. symmetry. apply elem_of_list_to_map. apply Hv. Qed.
Lemma to_map_None h key : to_map h !! key = None ↔ key ∉ (_pairs h).*1.
Proof. symmetry. apply not_elem_of_list_to_map. Qed.

Lemma valid_filled h : valid h → _num_filled h = Z.of_nat (length (_pairs h)).
Proof. intros Hv. apply (valid_shape _ _ Hv). Qed.

Lemma valid_size h : valid h → _num_filled h = Z.of_nat (size (to_map h)).
Proof.
  intros Hv. rewrite (valid_filled h Hv). f_equal. unfold to_map.
  rewrite <- length_map_to_list, map_to_list_to_map by apply Hv. done.
Qed.

Lemma to_map_lookup h s key v :
  valid h → _pairs h !! s = Some (key, v) → to_map h !! key = Some v.
Proof. intros Hv Hs. apply to_map_Some; [done|]. by eapply list_elem_of_lookup_2. Qed.

(** The place of [key] in the array. *)
Definition place_of h key (s : Z) : Prop :=
  (s = _num_filled h ∧ to_map h !! key = None) ∨
  (0 ≤ s < _num_filled h ∧ ∃ v, _pairs h !! Z.to_nat s = Some (key, v) ∧ to_map h !! key = Some v).

Lemma find_spec h key : valid h → ∃ s, find_filled_slot hasher h key = Ok s ∧ place_of h key s.
Proof.
  intros Hv. destruct (va_table _ _ Hv) as (ch & T & _). unfold find_filled_slot.
  rewrite (find_filled_Ok hasher _ _ h ch (full h) key T). pose proof (search_pairs hasher h ch key T) as Hs.
  destruct (search _ _) as [z|].
  - destruct Hs as (_ & v & Hz & Hp). eexists. split; [done|]. right.
    pose proof (lookup_lt_Some _ _ _ Hp). rewrite (valid_filled h Hv). split; [lia|]. exists v.
    split; [done|]. by eapply to_map_lookup.
  - eexists. split; [done|]. left. split; [done|]. by apply to_map_None.
Qed.

(** ** Look-up *)
Lemma try_get_spec h key : valid h → try_get hasher h key = Ok (to_map h !! key).
Proof.
  intros Hv. destruct (find_spec h key Hv) as (s & E & Hs). unfold try_get. rewrite (bind_eq _ _ _ E).
  destruct Hs as [[-> ->]|(Hr & v & Hp & ->)]; [by rewrite Z.eqb_refl|].
  rewrite (proj2 (Z.eqb_neq _ _)) by lia. cbn [negb].
  by rewrite (bind_eq _ _ _ (get_pair_Ok h s _ ltac:(lia) Hp)).
Qed.

Lemma contains_spec h key :
  valid h → contains hasher h key = Ok (bool_decide (is_Some (to_map h !! key))).
Proof.
  intros Hv. destruct (find_spec h key Hv) as (s & E & Hs). unfold contains. rewrite (bind_eq _ _ _ E).
  destruct Hs as [[-> ->]|(Hr & v & Hp & ->)]; [by rewrite Z.eqb_refl|].
  by rewrite (proj2 (Z.eqb_neq _ _)) by lia.
Qed.

Lemma get_or_default_spec h key :
  valid h → get_or_return_default hasher V0 h key = Ok (default V0 (to_map h !! key)).
Proof.
  intros Hv. destruct (find_spec h key Hv) as (s & E & Hs). unfold get_or_return_default.
  rewrite (bind_eq _ _ _ E). destruct Hs as [[-> ->]|(Hr & v & Hp & ->)]; [by rewrite Z.eqb_refl|].
  rewrite (proj2 (Z.eqb_neq _ _)) by lia. by rewrite (bind_eq _ _ _ (get_pair_Ok h s _ ltac:(lia) Hp)).
Qed.

(** ** Changing a value *)
Lemma keys_same (ps : list (K * V)) i key v v' :
  ps !! i = Some (key, v) → (<[i := (key, v')]> ps).*1 = ps.*1.
Proof.
  intros Hi. rewrite list_fmap_insert. simpl. apply list_insert_id. by rewrite list_lookup_fmap, Hi.
Qed.

(** A table with other values for the same keys. *)
Lemma table_values h ch ps :
  table hasher h ch (full h) → ps.*1 = (_pairs h).*1 →
  table hasher (set_pairs ps (_num_filled h) h) ch (full (set_pairs ps (_num_filled h) h)).
Proof.
  intros [S HL HE D HP] Hk. assert (length ps = length (_pairs h)) as El by (rewrite <- !(length_fmap fst), Hk; done).
  assert (∀ s, fst <$> upto ps (_num_filled h) s = fst <$> full h s) as EP.
  { intros s. unfold full, upto. case_decide; [|done]. by rewrite <- !list_lookup_fmap, Hk. }
  assert (shape (set_pairs ps (_num_filled h) h)) as S'.
  { destruct S as [A1 A2 A3 A4 A5 A6 A7 A8].
    refine (Build_shape (set_pairs ps (_num_filled h) h) A1 A2 A3 A4 _ A6 A7 A8). cbn. by rewrite El. }
  split; [done|done|done| |intros s p Hp; by apply upto_Some in Hp as [[? _] ?]]. split.
  - intros b x Hx. destruct (dt_node _ _ _ _ _ D b x Hx) as (s & p & Hs & Hr & Hsl & Hm).
    specialize (EP s). rewrite Hs in EP. apply fmap_Some in EP as (p' & Hp' & Ep). exists s, p'. by rewrite <- Ep.
  - intros s p Hp. specialize (EP s). unfold full in Hp. cbn in Hp. rewrite Hp in EP. symmetry in EP.
    apply fmap_Some in EP as (p' & Hp' & Ep). rewrite Ep. by apply (dt_slot _ _ _ _ _ D).
  - apply (dt_inj _ _ _ _ _ D).
Qed.

Lemma set_value_spec h s key v val :
  valid h → 0 ≤ s → _pairs h !! Z.to_nat s = Some (key, v) →
  ∃ h', set_value s val h = Ok h' ∧ valid h' ∧ to_map h' = <[key := val]> (to_map h) ∧
    _index h' = _index h ∧ _mask h' = _mask h ∧ _pairs h' !! Z.to_nat s = Some (key, val).
Proof.
  intros Hv Hs Hp. unfold set_value. rewrite (bind_eq _ _ _ (get_pair_Ok _ _ _ Hs Hp)). eexists. split; [done|].
  destruct (va_table _ _ Hv) as (ch & T & He). cbn [fst]. set (ps := <[_ := _]> _).
  assert (ps.*1 = (_pairs h).*1) as Ek by (by eapply keys_same).
  assert (NoDup ps.*1) as Hnd by (rewrite Ek; apply Hv).
  assert (valid (set_pairs ps (_num_filled h) h)) as Hv'.
  { split; [|done]. exists ch. split; [by apply table_values|exact He]. }
  split; [done|]. split; [|split; [done|split; [done|]]].
  - apply map_eq. intros k. destruct (decide (k = key)) as [->|Hne].
    + rewrite lookup_insert_eq. eapply (to_map_lookup _ (Z.to_nat s)); [done|].
      apply list_lookup_insert_eq. by eapply lookup_lt_Some.
    + rewrite lookup_insert_ne by done. apply option_eq. intros v'. rewrite !to_map_Some by done.
      cbn [_pairs set_pairs]. rewrite !list_elem_of_lookup. split; intros [i Hi]; exists i.
      * apply list_lookup_insert_Some in Hi as [(_ & [= E _] & _)|[_ Hi]]; [by destruct Hne|done].
      * unfold ps. rewrite list_lookup_insert_ne; [done|]. intros <-. congruence.
  - apply list_lookup_insert_eq. by eapply lookup_lt_Some.
Qed.

Lemma try_set_spec h key val :
  valid h → ∃ h', try_set hasher key val h = Ok (bool_decide (is_Some (to_map h !! key)), h') ∧ valid h' ∧
    to_map h' = if decide (is_Some (to_map h !! key)) then <[key := val]> (to_map h) else to_map h.
Proof.
  intros Hv. destruct (find_spec h key Hv) as (s & E & Hs). unfold try_set. rewrite (bind_eq _ _ _ E).
  destruct Hs as [[-> ->]|(Hr & v & Hp & ->)].
  - rewrite Z.eqb_refl. exists h. rewrite decide_False by (by intros []). done.
  - rewrite (proj2 (Z.eqb_neq _ _)) by lia.
    destruct (set_value_spec h s key v val Hv ltac:(lia) Hp) as (h' & E' & Hv' & Hm & _).
    exists h'. rewrite (bind_eq _ _ _ E'). rewrite decide_True by done. done.
Qed.

(** ** Insertion *)
Lemma to_map_snoc h h' key val :
  valid h' → key ∉ (_pairs h).*1 → _pairs h' = _pairs h ++ [(key, val)] →
  to_map h' = <[key := val]> (to_map h).
Proof.
  intros Hv Hk E. unfold to_map. rewrite E.
  rewrite (list_to_map_proper _ ((key, val) :: _pairs h)); [done| |by rewrite Permutation_app_comm].
  rewrite <- E. apply Hv.
Qed.

Lemma snoc_lookup h h' (p : K * V) :
  valid h → _pairs h' = _pairs h ++ [p] → _pairs h' !! Z.to_nat (_num_filled h) = Some p.
Proof.
  intros Hv ->. rewrite (valid_filled h Hv), Nat2Z.id. by apply list_lookup_middle.
Qed.

(** The map after an insertion that does not overwrite. *)
Definition insert_new key (val : V) (m : gmap K V) : gmap K V :=
  match m !! key with Some _ => m | None => <[key := val]> m end.

Lemma do_insert_spec h key val :
  valid h → roomy h →
  ∃ s h', do_insert hasher key val h = Ok (s, bool_decide (to_map h !! key = None), h') ∧ valid h' ∧
    to_map h' = insert_new key val (to_map h) ∧ 0 ≤ s ∧
    _pairs h' !! Z.to_nat s = Some (key, default val (to_map h !! key)) ∧
    (length (_pairs h') ≤ S (length (_pairs h)))%nat ∧ _mask h' = _mask h.
Proof.
  intros Hv Hr. unfold do_insert, insert_new.
  destruct (allocate_cases hasher h key Hv Hr) as [(z & s & v & Ea & Ee & Hs & Hp & Ei)|(Hk & x & h1 & Ea & Ee & Hn)].
  - rewrite (bind_eq _ _ _ Ea), (bind_eq _ _ _ Ee). cbn [mbind result_bind]. pose proof (to_map_lookup h _ key v Hv Hp) as Em.
    destruct (get_index h z) as [e|]; [|done]. injection Ei as Ei. cbn [mbind result_bind]. rewrite Ei, Em.
    exists s, h. split; [done|]. split; [done|]. split; [done|]. split; [done|]. split; [done|]. split; [lia|done].
  - rewrite (bind_eq _ _ _ Ea), (bind_eq _ _ _ Ee). destruct (Hn val) as (h' & En & Hv' & Ep & Em & Ei).
    rewrite (bind_eq _ _ _ En). destruct (get_index h' x) as [e|]; [|done]. injection Ei as Ei.
    cbn [mbind result_bind]. rewrite Ei, (proj2 (to_map_None h key) Hk). exists (_num_filled h), h'.
    split; [done|]. split; [done|]. split; [by apply to_map_snoc|].
    split; [rewrite (valid_filled h Hv); lia|]. split; [by apply snoc_lookup|].
    split; [rewrite Ep, length_app; simpl; lia|done].
Qed.

Lemma expand_spec h :
  valid h → _num_filled h ≤ 2 ^ 30 →
  ∃ h', check_expand_need hasher h = Ok h' ∧ valid h' ∧ to_map h' = to_map h ∧ _pairs h' = _pairs h ∧ roomy h'.
Proof.
  intros Hv Hn. destruct (expand_Ok hasher h Hv Hn) as (h' & E & Hv' & Hp & Hr). exists h'.
  split; [done|]. split; [done|]. split; [|done]. unfold to_map. by rewrite Hp.
Qed.

Lemma insert_spec h key val :
  valid h → _num_filled h ≤ 2 ^ 30 →
  ∃ s h', insert_ hasher key val h = Ok (s, bool_decide (to_map h !! key = None), h') ∧ valid h' ∧
    to_map h' = insert_new key val (to_map h) ∧ 0 ≤ s ∧
    _pairs h' !! Z.to_nat s = Some (key, default val (to_map h !! key)).
Proof.
  intros Hv Hn. destruct (expand_spec h Hv Hn) as (h1 & E & Hv1 & Em & _ & Hr).
  unfold insert_. rewrite (bind_eq _ _ _ E).
  destruct (do_insert_spec h1 key val Hv1 Hr) as (s & h' & Ei & Hv' & Em' & Hs & Hp & _).
  rewrite Em in *. by exists s, h'.
Qed.

Lemma assign_spec h key val :
  valid h → _num_filled h ≤ 2 ^ 30 →
  ∃ s h', do_assign hasher key val h = Ok (s, bool_decide (to_map h !! key = None), h') ∧ valid h' ∧
    to_map h' = <[key := val]> (to_map h) ∧ 0 ≤ s ∧ _pairs h' !! Z.to_nat s = Some (key, val).
Proof.
  intros Hv Hn. destruct (expand_spec h Hv Hn) as (h1 & E & Hv1 & Em & _ & Hr).
  unfold do_assign. rewrite (bind_eq _ _ _ E). rewrite <- Em.
  destruct (allocate_cases hasher h1 key Hv1 Hr) as [(z & s & v & Ea & Ee & Hs & Hp & Ei)|(Hk & x & h2 & Ea & Ee & Hn')].
  - rewrite (bind_eq _ _ _ Ea), (bind_eq _ _ _ Ee). pose proof (to_map_lookup h1 _ key v Hv1 Hp) as Ek.
    destruct (get_index h1 z) as [e|] eqn:Ez; [|done]. injection Ei as Ei.
    destruct (set_value_spec h1 s key v val Hv1 Hs Hp) as (h' & E' & Hv' & Hm & Hix & Hmk & Hl).
    cbn [mbind result_bind]. rewrite Ei, E'. cbn [mbind result_bind].
    replace (get_index h' z) with (get_index h1 z) by (unfold get_index; by rewrite Hix). rewrite Ez.
    cbn [mbind result_bind]. replace (low h' (slot e)) with s by (unfold low; by rewrite Hmk).
    exists s, h'. by rewrite Ek.
  - rewrite (bind_eq _ _ _ Ea), (bind_eq _ _ _ Ee). destruct (Hn' val) as (h' & En & Hv' & Ep & _ & Ei).
    rewrite (bind_eq _ _ _ En). destruct (get_index h' x) as [e|]; [|done]. injection Ei as Ei.
    cbn [mbind result_bind]. rewrite Ei, (proj2 (to_map_None h1 key) Hk). exists (_num_filled h1), h'.
    split; [done|]. split; [done|]. split; [by apply to_map_snoc|].
    split; [rewrite (valid_filled h1 Hv1); lia|by apply snoc_lookup].
Qed.

Lemma index_spec h key :
  valid h → _num_filled h ≤ 2 ^ 30 →
  ∃ s h', index_ hasher V0 key h = Ok (s, h') ∧ valid h' ∧ to_map h' = insert_new key V0 (to_map h) ∧ 0 ≤ s ∧
    _pairs h' !! Z.to_nat s = Some (key, default V0 (to_map h !! key)).
Proof.
  intros Hv Hn. destruct (insert_spec h key V0 Hv Hn) as (s & h' & E & H'). exists s, h'. split; [|done].
  unfold insert_, do_insert in E. unfold index_. clear H'.
  destruct (check_expand_need hasher h) as [h1|]; [|done]. cbn [mbind result_bind] in *.
  destruct (find_or_allocate hasher key (hash_key hasher key) h1) as [[b h2]|]; [|done]. cbn [mbind result_bind] in *.
  destruct (EMH_EMPTY h2 b) as [e|]; [|done]. cbn [mbind result_bind] in *.
  destruct (if e then _ else _) as [h3|]; [|done]. cbn [mbind result_bind] in *.
  destruct (get_index h3 b) as [i|]; [|done]. cbn [mbind result_bind] in *. by injection E as -> _ ->.
Qed.

Lemma set_get_spec h key val :
  valid h → _num_filled h ≤ 2 ^ 30 →
  ∃ h', set_get hasher V0 key val h = Ok (default V0 (to_map h !! key), h') ∧ valid h' ∧
    to_map h' = <[key := val]> (to_map h).
Proof.
  intros Hv Hn. destruct (expand_spec h Hv Hn) as (h1 & E & Hv1 & Em & _ & Hr).
  unfold set_get. rewrite (bind_eq _ _ _ E). rewrite <- Em.
  destruct (allocate_cases hasher h1 key Hv1 Hr) as [(z & s & v & Ea & Ee & Hs & Hp & Ei)|(Hk & x & h2 & Ea & Ee & Hn')].
  - rewrite (bind_eq _ _ _ Ea), (bind_eq _ _ _ Ee). rewrite (to_map_lookup h1 _ key v Hv1 Hp).
    destruct (get_index h1 z) as [e|] eqn:Ez; [|done]. injection Ei as Ei.
    destruct (set_value_spec h1 s key v val Hv1 Hs Hp) as (h' & E' & Hv' & Hm & _).
    cbn [mbind result_bind]. rewrite Ei, (get_pair_Ok _ _ _ Hs Hp). cbn [mbind result_bind]. rewrite E'.
    by exists h'.
  - rewrite (bind_eq _ _ _ Ea), (bind_eq _ _ _ Ee). destruct (Hn' val) as (h' & En & Hv' & Ep & _ & _).
    rewrite (bind_eq _ _ _ En), (proj2 (to_map_None h1 key) Hk). exists h'.
    split; [done|]. split; [done|]. by apply to_map_snoc.
Qed.

(** [insert_unique] of a key that is not in the table. *)
Lemma insert_unique_spec h key val :
  valid h → _num_filled h ≤ 2 ^ 30 → to_map h !! key = None →
  ∃ b h', insert_unique hasher key val h = Ok (b, h') ∧ valid h' ∧ _pairs h' = _pairs h ++ [(key, val)] ∧
    to_map h' = <[key := val]> (to_map h).
Proof.
  intros Hv Hn Hk%to_map_None. destruct (expand_spec h Hv Hn) as (h1 & E & Hv1 & Em & Ep & Hr).
  unfold insert_unique. rewrite (bind_eq _ _ _ E). destruct (va_table _ _ Hv1) as (ch & T & _).
  assert (∃ e, is_empty h1 e) as He.
  { eapply (table_empty_bucket _ _ _ _ (_num_filled h1) T); [intros s p Hp; by apply upto_Some in Hp as []|].
    pose proof (sh_mask _ (tb_shape _ _ _ _ T)). destruct Hr. lia. }
  destruct (find_unique_Ok hasher h1 ch _ key T He) as (x & I' & l & ch' & Ef & SP).
  rewrite (bind_eq _ _ _ Ef). rewrite <- Ep in Hk.
  destruct (EMH_NEW_Ok hasher h1 ch' I' l key val x Hv1 Hr Hk SP) as (h' & En & Hv' & Ep' & _).
  rewrite (bind_eq _ _ _ En). exists x, h'. split; [done|]. split; [done|]. split; [by rewrite Ep', Ep|].
  rewrite <- Em. by apply to_map_snoc.
Qed.

(** ** Construction and removal *)
Lemma init_spec b :
  0 ≤ b < 2 ^ 31 →
  ∃ h : t K V, init hasher b EMH_DEFAULT_LOAD_FACTOR = Ok h ∧ valid h ∧ _pairs h = [] ∧
    b ≤ _num_buckets h < Z.max 5 (2 * b).
Proof.
  intros Hb. unfold init. rewrite (bind_eq _ _ _ (init_mlf hasher)).
  destruct (rehash_Ok hasher (mk [] [] 0 default_mlf 0 0 0 0 0 : t K V) b) as (h & E & Hv & Hp & Hn & Hm);
    [done|done|apply NoDup_nil_2|done|cbn; div_lia|].
  exists h. split; [done|]. split; [done|]. split; [done|].
  destruct Hm as [?|Hm]; [lia|]. assert (_num_buckets h = 4) by exact Hm. lia.
Qed.

Lemma new_spec : ∃ h : t K V, new hasher = Ok h ∧ valid h ∧ to_map h = ∅.
Proof.
  destruct (init_spec 2) as (h & E & Hv & Hp & _); [lia|]. exists h. split; [exact E|]. split; [done|].
  unfold to_map. by rewrite Hp.
Qed.

Lemma swap_remove_map h h' s key v :
  valid h → valid h' → 0 ≤ s → _pairs h !! Z.to_nat s = Some (key, v) →
  _pairs h' = swap_remove s (_pairs h) → to_map h' = delete key (to_map h).
Proof.
  intros Hv Hv' Hs Hp E. pose proof (swap_remove_perm s _ _ Hs Hp) as HP. rewrite <- E in HP.
  unfold to_map. rewrite (list_to_map_proper _ _ (va_keys _ _ Hv) HP). simpl. rewrite delete_insert_id; [done|].
  apply not_elem_of_list_to_map. pose proof (va_keys _ _ Hv) as Hnd. rewrite HP in Hnd.
  by apply NoDup_cons in Hnd as [? _].
Qed.

Lemma erase_spec h key :
  valid h →
  ∃ h', erase hasher key h = Ok ((if decide (is_Some (to_map h !! key)) then 1 else 0), h') ∧ valid h' ∧
    to_map h' = delete key (to_map h).
Proof.
  intros Hv. destruct (va_table _ _ Hv) as (ch & T & He). pose proof (tb_shape _ _ _ _ T) as S.
  unfold erase, find_filled_bucket. rewrite (bind_eq _ _ _ (find_filled_Ok hasher _ _ h ch (full h) key T)).
  pose proof (search_pairs hasher h ch key T) as Hs. destruct (search _ _) as [z|].
  - destruct Hs as (Hz & v & Hs & Hp). pose proof (to_map_lookup h _ key v Hv Hp) as Em.
    pose proof (lk_range _ _ _ (tb_links _ _ _ _ T) _ _ Hz) as Hr. pose proof (shape_bounds h S) as Hb.
    rewrite (proj2 (Z.eqb_neq z INACTIVE)) by (unfold INACTIVE; lia).
    change (u32 (Z.land (hash_key hasher key) (_mask h))) with (bucket_of h (hash_key hasher key)).
    rewrite (bucket_of_main hasher) by done.
    destruct (erase_slot_Ok hasher h ch _ z (key, v) Hv T He Hz Hp) as (h' & E & Hv' & Ep).
    rewrite (bind_eq _ _ _ E). exists h'. rewrite decide_True by (by rewrite Em). split; [done|]. split; [done|].
    by eapply swap_remove_map.
  - rewrite Z.eqb_refl. apply to_map_None in Hs. exists h. rewrite decide_False by (rewrite Hs; by intros []).
    split; [done|]. split; [done|]. by rewrite delete_id.
Qed.

Lemma erase_it_spec h s p :
  valid h → 0 ≤ s → _pairs h !! Z.to_nat s = Some p →
  ∃ h', erase_it hasher s h = Ok (s, h') ∧ valid h' ∧ _pairs h' = swap_remove s (_pairs h).
Proof.
  intros Hv Hs Hp. destruct (va_table _ _ Hv) as (ch & T & He). pose proof T as [S HL HE D HP].
  destruct (find_slot_bucket_Ok hasher h ch (full h) s p S HL D) as (y & Ey & Hy & Hl);
    [by apply full_lookup|done|done|].
  unfold erase_it. rewrite (bind_eq _ _ _ Ey). cbn [fst snd].
  destruct (erase_slot_Ok hasher h ch _ y p Hv T He Hy) as (h' & E & Hv' & Ep); [by rewrite Hl|].
  rewrite (bind_eq _ _ _ E). exists h'. rewrite Hl in Ep. done.
Qed.

Lemma wipe_lookup n (I : list Index) x :
  0 ≤ x → (n ≤ length I)%nat →
  nxt (wipe n I) x = if decide (x < Z.of_nat n) then INACTIVE else nxt I x.
Proof.
  intros Hx Hn. unfold nxt, ent, wipe. case_decide as E.
  - rewrite lookup_app_l by (rewrite length_replicate; lia). by rewrite lookup_replicate_2 by lia.
  - rewrite lookup_app_r by (rewrite length_replicate; lia). rewrite length_replicate, lookup_drop.
    by replace (n + (Z.to_nat x - n))%nat with (Z.to_nat x) by lia.
Qed.

(** [clear] marks all buckets empty. *)
Lemma clear_eq h :
  valid h →
  ∃ I', clear trivial h =
      mk I' [] (_capacity h) (_mlf h) (_mask h) (_num_buckets h) 0 0 INACTIVE ∧
    length I' = length (_index h) ∧
    ∀ x, 0 ≤ x < _num_buckets h + 2 → nxt I' x = if decide (x < _num_buckets h) then INACTIVE else 0.
Proof.
  intros Hv. destruct (va_table _ _ Hv) as (ch & T & _). pose proof T as [S HL HE D HP].
  pose proof (shape_bounds h S) as Hb. pose proof (sh_len _ S) as Hl. pose proof (sh_filled _ S) as Hn.
  set (W := wipe (Z.to_nat (_num_buckets h)) (_index h)).
  assert (length W = length (_index h) ∧ ∀ x, 0 ≤ x < _num_buckets h + 2 → nxt W x =
      if decide (x < _num_buckets h) then INACTIVE else 0) as HW.
  { split; [unfold W, wipe; rewrite length_app, length_replicate, length_drop; lia|]. intros x Hx.
    unfold W. rewrite wipe_lookup by lia. rewrite Z2Nat.id by lia. case_decide; [done|]. apply (sh_pad _ S). lia. }
  unfold clear, clearkv. destruct trivial; [|by exists W]. fold W.
  destruct (Z.ltb_spec 0 (_num_filled h)) as [|H0]; [by exists W|]. exists (_index h). split; [done|].
  split; [done|]. intros x Hx. case_decide.
  - destruct (HE x) as [[b Hbx]|E]; [lia| |done]. destruct (node_pair _ _ _ _ _ _ T Hbx) as (p & Hp & _).
    apply upto_Some in Hp. lia.
  - apply (sh_pad _ S). lia.
Qed.

Lemma clear_spec h : valid h → valid (clear trivial h) ∧ to_map (clear trivial h) = ∅.
Proof.
  intros Hv. split; [|done]. destruct (clear_eq h Hv) as (I' & -> & El & Ex).
  pose proof (valid_shape _ _ Hv) as S. pose proof (shape_bounds h S) as Hb. set (h' := mk _ _ _ _ _ _ _ _ _).
  assert (shape h') as S'.
  { pose proof (sh_filled _ S) as Hn. destruct S as [A1 A2 A3 A4 A5 A6 A7 A8].
    refine (Build_shape h' A1 A2 _ _ eq_refl A6 _ A8); cbn; [lia| |lia].
    intros x Hx. rewrite Ex, decide_False by lia. done. }
  split; [|apply NoDup_nil_2]. exists (λ _, []). split; [|by left]. apply (empty_table hasher h' S').
  intros x Hx. cbn in *. rewrite Ex, decide_True by lia. done.
Qed.

(** ** Sequences of operations *)
Inductive op : Type :=
| Insert key (val : V) | Assign key (val : V) | SetGet key (val : V) | Subscript key
| TryGet key | Contains key | GetOrDefault key | TrySet key (val : V) | Erase key | Clear | Size.

Inductive answer : Type := AVal (o : option V) | ABool (b : bool) | ANum (z : Z) | AUnit.

(** The operation on the table ... *)
Definition run_op (o : op) h : result (answer * t K V) :=
  match o with
  | Insert key val => x ← insert_ hasher key val h; Ok (ABool x.1.2, x.2)
  | Assign key val => x ← do_assign hasher key val h; Ok (ABool x.1.2, x.2)
  | SetGet key val => x ← set_get hasher V0 key val h; Ok (AVal (Some x.1), x.2)
  | Subscript key => x ← index_ hasher V0 key h; p ← get_pair x.2 x.1; Ok (AVal (Some p.2), x.2)
  | TryGet key => v ← try_get hasher h key; Ok (AVal v, h)
  | Contains key => b ← contains hasher h key; Ok (ABool b, h)
  | GetOrDefault key => v ← get_or_return_default hasher V0 h key; Ok (AVal (Some v), h)
  | TrySet key val => x ← try_set hasher key val h; Ok (ABool x.1, x.2)
  | Erase key => x ← erase hasher key h; Ok (ANum x.1, x.2)
  | Clear => Ok (AUnit, clear trivial h)
  | Size => Ok (ANum (_num_filled h), h)
  end.

(** ... and on a finite map. *)
Definition model_op (o : op) (m : gmap K V) : answer * gmap K V :=
  match o with
  | Insert key val => (ABool (bool_decide (m !! key = None)), insert_new key val m)
  | Assign key val => (ABool (bool_decide (m !! key = None)), <[key := val]> m)
  | SetGet key val => (AVal (Some (default V0 (m !! key))), <[key := val]> m)
  | Subscript key => (AVal (Some (default V0 (m !! key))), insert_new key V0 m)
  | TryGet key => (AVal (m !! key), m)
  | Contains key => (ABool (bool_decide (is_Some (m !! key))), m)
  | GetOrDefault key => (AVal (Some (default V0 (m !! key))), m)
  | TrySet key val => (ABool (bool_decide (is_Some (m !! key))),
                       if decide (is_Some (m !! key)) then <[key := val]> m else m)
  | Erase key => (ANum (if decide (is_Some (m !! key)) then 1 else 0), delete key m)
  | Clear => (AUnit, ∅)
  | Size => (ANum (Z.of_nat (size m)), m)
  end.

Fixpoint run_ops (l : list op) h : result (list answer * t K V) :=
  match l with
  | [] => Ok ([], h)
  | o :: l' => x ← run_op o h; y ← run_ops l' x.2; Ok (x.1 :: y.1, y.2)
  end.
Fixpoint model_ops (l : list op) (m : gmap K V) : list answer * gmap K V :=
  match l with
  | [] => ([], m)
  | o :: l' => let x := model_op o m in let y := model_ops l' x.2 in (x.1 :: y.1, y.2)
  end.

Lemma size_insert_new key val (m : gmap K V) : (size (insert_new key val m) ≤ S (size m))%nat.
Proof.
  unfold insert_new. destruct (m !! key) eqn:E; [lia|]. by rewrite map_size_insert_None.
Qed.

Lemma model_op_size o m : (size (model_op o m).2 ≤ S (size m))%nat.
Proof.
  assert (∀ key (val : V), (size (<[key := val]> m) ≤ S (size m))%nat) as Hi.
  { intros. rewrite map_size_insert. case_match; simpl; lia. }
  destruct o; cbn [model_op snd]; try (apply size_insert_new || apply Hi || lia).
  - case_decide; [apply Hi|lia].
  - rewrite map_size_delete. case_match; simpl; lia.
  - rewrite map_size_empty. lia.
Qed.

Lemma run_op_spec o h :
  valid h → (Z.of_nat (size (to_map h)) ≤ 2 ^ 30) →
  ∃ h', run_op o h = Ok ((model_op o (to_map h)).1, h') ∧ valid h' ∧ to_map h' = (model_op o (to_map h)).2.
Proof.
  intros Hv Hs. pose proof (valid_size h Hv) as En. rewrite <- En in Hs.
  destruct o as [key val|key val|key val|key|key|key|key|key val|key| |]; cbn [run_op model_op fst snd].
  - destruct (insert_spec h key val Hv Hs) as (s & h' & E & Hv' & Em & _). exists h'. by rewrite (bind_eq _ _ _ E).
  - destruct (assign_spec h key val Hv Hs) as (s & h' & E & Hv' & Em & _). exists h'. by rewrite (bind_eq _ _ _ E).
  - destruct (set_get_spec h key val Hv Hs) as (h' & E & Hv' & Em). exists h'. by rewrite (bind_eq _ _ _ E).
  - destruct (index_spec h key Hv Hs) as (s & h' & E & Hv' & Em & Hs' & Hp). exists h'.
    rewrite (bind_eq _ _ _ E). cbn [fst snd]. by rewrite (bind_eq _ _ _ (get_pair_Ok _ _ _ Hs' Hp)).
  - exists h. by rewrite (try_get_spec h key Hv).
  - exists h. by rewrite (contains_spec h key Hv).
  - exists h. by rewrite (get_or_default_spec h key Hv).
  - destruct (try_set_spec h key val Hv) as (h' & E & Hv' & Em). exists h'. by rewrite (bind_eq _ _ _ E).
  - destruct (erase_spec h key Hv) as (h' & E & Hv' & Em). exists h'. by rewrite (bind_eq _ _ _ E).
  - exists (clear trivial h). by destruct (clear_spec h Hv).
  - exists h. by rewrite En.
Qed.

Lemma run_ops_spec l h :
  valid h → Z.of_nat (size (to_map h)) + Z.of_nat (length l) ≤ 2 ^ 30 →
  ∃ h', run_ops l h = Ok ((model_ops l (to_map h)).1, h') ∧ valid h' ∧ to_map h' = (model_ops l (to_map h)).2.
Proof.
  revert h. induction l as [|o l IH]; intros h Hv Hs; [by exists h|]. cbn [length] in Hs.
  destruct (run_op_spec o h Hv ltac:(lia)) as (h1 & E1 & Hv1 & Em1). pose proof (model_op_size o (to_map h)) as Hz.
  destruct (IH h1 Hv1) as (h' & E & Hv' & Em); [rewrite Em1; lia|]. exists h'. cbn [run_ops model_ops].
  rewrite (bind_eq _ _ _ E1). cbn [fst snd]. rewrite (bind_eq _ _ _ E). by rewrite <- Em1.
Qed.

(** C3. The hash map implements a finite map: any sequence of at most [2 ^ 30]
    operations on a new table succeeds, with all accesses inside the arrays
    and all loops ended, gives the answers a finite map gives, and leaves a
    table that holds exactly that map's pairs - whatever the hash function. *)
Theorem hash_map_refines l :
  Z.of_nat (length l) ≤ 2 ^ 30 →
  ∃ h0 h, new hasher = Ok h0 ∧ run_ops l h0 = Ok ((model_ops l ∅).1, h) ∧ valid h ∧
    to_map h = (model_ops l ∅).2.
Proof.
  intros Hl. destruct new_spec as (h0 & E0 & Hv0 & Em0).
  destruct (run_ops_spec l h0 Hv0) as (h & E & Hv & Em); [rewrite Em0, map_size_empty; lia|].
  rewrite Em0 in E, Em. exists h0, h. exact (conj E0 (conj E (conj Hv Em))).
Qed.
End spec.
