(* ===== verification/HashMapBulk.v ===== *)
(** * Operations on whole hash maps

    Ranges, conditional removal, comparison, copies and merging; and the
    constructor and operations that write outside of their arrays. *)

From S2P Require Import Prelude HashMap HashChains HashMapFacts HashMapInsert HashMapOps HashMapErase HashMapSpec.
Import HashMap.

Lemma init_mlf_again {K V} `{EqDecision K} (hasher : K → Z) :
  set_max_load_factor hasher (max_load_factor default_mlf) (mk [] [] 0 default_mlf 0 0 0 0 0 : t K V) =
  Ok (mk [] [] 0 default_mlf 0 0 0 0 0).
Proof. vm_compute. reflexivity. Qed.

(** 31 pairs in 256 or more buckets are below the load at which
    [shrink_to_fit] acts. *)
Lemma load_of_31 j :
  8 ≤ j ≤ 31 →
  f32_lt (f32_quot (f32_of 31) (f32_of (f32_of (2 ^ j - 1) + 1)))
    (significand EMH_DEFAULT_LOAD_FACTOR) (4 * 2 ^ scale EMH_DEFAULT_LOAD_FACTOR) = true.
Proof.
  intros Hj. assert (j ∈ seqZ 8 24) as Hin by (apply elem_of_seqZ; lia). clear Hj. revert j Hin.
  apply Forall_forall. apply (bool_decide_unpack _). vm_compute. exact I.
Qed.

Section bulk.
Context {K V : Type} `{Countable K} (hasher : K → Z) (trivial : bool) (V0 : V).
Implicit Types (h rhs : t K V) (key : K).

Abbreviation valid := (valid hasher).

#[local] Opaque default_mlf pairs_for fuel.

(** ** Ranges *)

(** The map after the pairs of a range have been inserted, the first pair of a
    key counting. *)
Definition insert_news (l : list (K * V)) (m : gmap K V) : gmap K V :=
  foldl (λ m p, insert_new p.1 p.2 m) m l.

Lemma do_insert_all_spec l h n :
  valid h → _num_filled h + Z.of_nat (length l) ≤ n → 5 * n / 4 < _mask h →
  ∃ h', do_insert_all hasher l h = Ok h' ∧ valid h' ∧ to_map h' = insert_news l (to_map h).
Proof.
  revert h. induction l as [|p l IH]; intros h Hv Hn Hm; [by exists h|]. cbn [length] in Hn.
  pose proof (valid_filled hasher h Hv) as Ef.
  destruct (do_insert_spec hasher h p.1 p.2 Hv) as (s & h1 & E & Hv1 & Em & _ & _ & Hl & Emask).
  { apply (roomy_reserved h n); [by eapply valid_shape|done|lia]. }
  pose proof (valid_filled hasher h1 Hv1) as Ef1.
  destruct (IH h1 Hv1) as (h' & E' & Hv' & Em'); [lia|by rewrite Emask|]. exists h'.
  cbn [do_insert_all]. rewrite (bind_eq _ _ _ E). cbn [fst snd]. split; [exact E'|]. split; [done|].
  by rewrite Em', Em.
Qed.

Lemma insert_range_spec l h :
  valid h → _num_filled h + Z.of_nat (length l) ≤ 2 ^ 30 →
  ∃ h', insert_range hasher l h = Ok h' ∧ valid h' ∧ to_map h' = insert_news l (to_map h).
Proof.
  intros Hv Hn. pose proof (valid_filled hasher h Hv) as Ef.
  destruct (reserve_Ok hasher h (Z.of_nat (length l) + _num_filled h) Hv) as (b & h1 & E & Hv1 & Ep & Hm); [lia|].
  unfold insert_range. rewrite (bind_eq _ _ _ E). cbn [fst snd].
  assert (to_map h = to_map h1) as -> by (unfold to_map; by rewrite Ep).
  pose proof (valid_filled hasher h1 Hv1) as Ef1. rewrite Ep in Ef1.
  apply (do_insert_all_spec l h1 _ Hv1) in Hm; [done|lia].
Qed.

Lemma insert_all_spec l h :
  valid h → _num_filled h + Z.of_nat (length l) ≤ 2 ^ 30 →
  ∃ h', insert_all hasher l h = Ok h' ∧ valid h' ∧ to_map h' = insert_news l (to_map h).
Proof.
  revert h. induction l as [|p l IH]; intros h Hv Hn; cbn [length insert_all] in *; [by exists h|].
  destruct (insert_spec hasher h p.1 p.2 Hv) as (s & h1 & E & Hv1 & Em & _); [lia|].
  rewrite (bind_eq _ _ _ E). cbn [insert_news foldl snd]. rewrite <- Em. apply (IH h1 Hv1).
  rewrite (valid_size hasher h Hv) in Hn. rewrite (valid_size hasher h1 Hv1), Em.
  pose proof (size_insert_new p.1 p.2 (to_map h)). lia.
Qed.

Lemma init_range_spec l b :
  0 ≤ b → Z.of_nat (length l) + b ≤ 2 ^ 30 →
  ∃ h, init_range hasher l b = Ok h ∧ valid h ∧ to_map h = insert_news l ∅.
Proof.
  intros Hb Hl. unfold init_range. rewrite (uwrap_small 32) by (unfold in_u; lia).
  destruct (init_spec (V := V) hasher (Z.of_nat (length l) + b)) as (h0 & E & Hv & Hp & _); [lia|].
  rewrite (bind_eq _ _ _ E). destruct (insert_all_spec l h0 Hv) as (h & Ei & Hv' & Em).
  { rewrite (valid_filled hasher h0 Hv), Hp. cbn [length]. lia. }
  exists h. split; [exact Ei|]. split; [done|]. by rewrite Em; unfold to_map; rewrite Hp.
Qed.

(** ** Conditional removal *)
Lemma swap_remove_front (s : Z) (ps : list (K * V)) i :
  (i < Z.to_nat s)%nat → 0 ≤ s < Z.of_nat (length ps) → swap_remove s ps !! i = ps !! i.
Proof.
  intros Hi Hs. unfold swap_remove. rewrite lookup_take_lt by lia.
  destruct (last ps); [|done]. apply list_lookup_insert_ne. lia.
Qed.

Lemma erase_if_loop_spec pred f it h :
  valid h → 0 ≤ it ≤ _num_filled h → _num_filled h - it < Z.of_nat f →
  (∀ i p, (i < Z.to_nat it)%nat → _pairs h !! i = Some p → pred p = false) →
  ∃ h', erase_if_loop hasher f pred it h = Ok h' ∧ valid h' ∧
    _pairs h' ≡ₚ filter (λ p, pred p = false) (_pairs h).
Proof.
  revert it h. induction f as [|f IH]; intros it h Hv Hit Hf Hpre; [lia|]. cbn [erase_if_loop].
  pose proof (valid_filled hasher h Hv) as Ef. destruct (Z.eqb_spec it (_num_filled h)) as [E|E].
  { exists h. split; [done|]. split; [done|]. rewrite filter_true; [done|]. intros p Hp.
    apply list_elem_of_lookup in Hp as [i Hi]. apply (Hpre i p); [|done]. pose proof (lookup_lt_Some _ _ _ Hi). lia. }
  destruct (lookup_lt_is_Some_2 (_pairs h) (Z.to_nat it)) as [p Hp]; [lia|].
  rewrite (bind_eq _ _ _ (get_pair_Ok h it p ltac:(lia) Hp)). destruct (pred p) eqn:Epr.
  - destruct (erase_it_spec hasher h it p Hv ltac:(lia) Hp) as (h1 & E1 & Hv1 & Ep1).
    rewrite (bind_eq _ _ _ E1). cbn [fst snd]. pose proof (valid_filled hasher h1 Hv1) as Ef1.
    rewrite Ep1, swap_remove_length in Ef1 by lia.
    destruct (IH it h1 Hv1) as (h' & E' & Hv' & Hp'); [lia|lia| |].
    { intros i q Hi Hq. rewrite Ep1, swap_remove_front in Hq by lia. by eapply Hpre. }
    exists h'. split; [done|]. split; [done|]. rewrite Hp', Ep1.
    rewrite (swap_remove_perm it (_pairs h) p) at 2 by (done || lia).
    rewrite filter_cons, decide_False by (by rewrite Epr). done.
  - apply IH; [done|lia|lia|]. intros i q Hi Hq. destruct (decide (i = Z.to_nat it)) as [->|].
    + congruence.
    + apply (Hpre i q); [lia|done].
Qed.

Lemma filter_pairs_map pred h h' :
  valid h → valid h' → _pairs h' ≡ₚ filter (λ p, pred p = false) (_pairs h) →
  to_map h' = filter (λ kv, pred kv = false) (to_map h).
Proof.
  intros Hv Hv' Hp. apply map_eq. intros key. apply option_eq. intros v.
  rewrite map_lookup_filter_Some, !to_map_Some by done. rewrite Hp, list_elem_of_filter. tauto.
Qed.

(** Conditional removal terminates although the last pair moves to the
    place of each erased one: [erase_if] keeps exactly the pairs for which the
    predicate is false and returns how many it removed. *)
Theorem erase_if_filters pred h :
  valid h →
  ∃ h', erase_if hasher pred h = Ok (_num_filled h - _num_filled h', h') ∧ valid h' ∧
    to_map h' = filter (λ kv, pred kv = false) (to_map h).
Proof.
  intros Hv. pose proof (valid_filled hasher h Hv) as Ef.
  destruct (erase_if_loop_spec pred (S (Z.to_nat (_num_filled h))) 0 h Hv) as (h' & E & Hv' & Hp);
    [lia|lia|intros i p Hi; lia|].
  exists h'. unfold erase_if. rewrite (bind_eq _ _ _ E). split; [done|]. split; [done|].
  by apply filter_pairs_map.
Qed.

(** ** Copies *)
Lemma insert_unique_all_spec l h :
  valid h → NoDup l.*1 → (∀ key, key ∈ l.*1 → to_map h !! key = None) →
  _num_filled h + Z.of_nat (length l) ≤ 2 ^ 30 →
  ∃ h', insert_unique_all hasher l h = Ok h' ∧ valid h' ∧ _pairs h' = _pairs h ++ l.
Proof.
  revert h. induction l as [|p l IH]; intros h Hv Hnd Hnew Hn; [exists h; by rewrite app_nil_r|].
  cbn [length fmap list_fmap] in *. apply NoDup_cons in Hnd as [Hp Hnd].
  destruct (insert_unique_spec hasher h p.1 p.2 Hv) as (b & h1 & E & Hv1 & Ep & Em);
    [lia|apply Hnew; left|].
  pose proof (valid_filled hasher h Hv) as Ef. pose proof (valid_filled hasher h1 Hv1) as Ef1.
  rewrite Ep, length_app in Ef1. simpl in Ef1.
  destruct (IH h1 Hv1 Hnd) as (h' & E' & Hv' & Ep'); [|lia|].
  { intros key Hk. rewrite Em, lookup_insert_ne by (by intros <-). apply Hnew. by right. }
  exists h'. cbn [insert_unique_all]. rewrite (bind_eq _ _ _ E). split; [exact E'|]. split; [done|].
  rewrite Ep', Ep, <- app_assoc. by destruct p.
Qed.

Lemma valid_length_index h : valid h → length (_index h) = (Z.to_nat (_num_buckets h) + EAD)%nat.
Proof.
  intros Hv. pose proof (valid_shape _ _ Hv) as S. pose proof (sh_len _ S). pose proof (shape_bounds _ S).
  unfold EAD. lia.
Qed.

(** A copy holds the same pairs in the same order, whether the table is
    cloned bucket by bucket or, below a quarter of its load, built anew. *)
Theorem copy_holds_same_pairs rhs :
  valid rhs → _num_filled rhs + 2 ≤ 2 ^ 30 →
  ∃ h, copy_new hasher rhs = Ok h ∧ valid h ∧ _pairs h = _pairs rhs.
Proof.
  intros Hv Hn. pose proof (valid_shape _ _ Hv) as S. pose proof (valid_filled hasher rhs Hv) as Ef.
  unfold copy_new. destruct (f32_gt (load_factor rhs) 1 4).
  - exists rhs. split; [|done]. unfold clone, alloc_tables. cbn [_capacity _index _mlf].
    rewrite (sh_mlf _ S), <- (sh_alloc _ S), (proj2 (Z.leb_le _ _)) by apply (sh_cap _ S).
    rewrite length_replicate, (proj2 (Nat.leb_le _ _)) by (by rewrite valid_length_index).
    rewrite <- (sh_mlf _ S). by destruct rhs.
  - rewrite (uwrap_small 32) by (unfold in_u; lia). unfold init. rewrite (sh_mlf _ S).
    rewrite (bind_eq _ _ _ (init_mlf_again hasher)).
    destruct (rehash_Ok hasher (mk [] [] 0 default_mlf 0 0 0 0 0 : t K V) (_num_filled rhs + 2))
      as (h0 & E0 & Hv0 & Hp0 & _); [done|done|apply NoDup_nil_2|cbn; lia|cbn; div_lia|].
    rewrite (bind_eq _ _ _ E0).
    destruct (insert_unique_all_spec (_pairs rhs) h0 Hv0) as (h & E & Hv' & Ep).
    + apply Hv.
    + intros key _. unfold to_map. by rewrite Hp0.
    + rewrite (valid_filled hasher h0 Hv0), Hp0. cbn. lia.
    + exists h. split; [exact E|]. split; [done|]. by rewrite Ep, Hp0.
Qed.

(** ** Comparison *)
Lemma same_pairs_spec `{EqDecision V} (l : list (K * V)) (rhs : t K V) :
  valid rhs →
  same_pairs hasher l rhs = Ok (bool_decide (Forall (λ p, to_map rhs !! p.1 = Some p.2) l)).
Proof.
  intros Hv. induction l as [|p l IH]; [done|]. cbn [same_pairs].
  destruct (find_spec hasher rhs p.1 Hv) as (s & E & Hs). unfold find. rewrite (bind_eq _ _ _ E).
  destruct Hs as [[-> Hm]|(Hr & v & Hp & Hm)].
  - rewrite Z.eqb_refl, bool_decide_eq_false_2; [done|]. rewrite Forall_cons, Hm. by intros [].
  - rewrite (proj2 (Z.eqb_neq _ _)) by lia. rewrite (bind_eq _ _ _ (get_pair_Ok rhs s _ ltac:(lia) Hp)).
    cbn [snd]. rewrite IH. destruct (decide (p.2 = v)) as [Ev|Ev].
    + rewrite (bool_decide_eq_true_2 _ Ev). f_equal. apply bool_decide_ext. rewrite Forall_cons, Hm. naive_solver congruence.
    + rewrite (bool_decide_eq_false_2 _ Ev), bool_decide_eq_false_2; [done|]. rewrite Forall_cons, Hm.
      naive_solver congruence.
Qed.

(** [operator==] decides whether two tables hold the same map. *)
Theorem equal_decides `{EqDecision V} h (rhs : t K V) :
  valid h → valid rhs → equal hasher h rhs = Ok (bool_decide (to_map h = to_map rhs)).
Proof.
  intros Hv Hv'. unfold equal. destruct (Z.eqb_spec (_num_filled h) (_num_filled rhs)) as [En|En]; cbn [negb].
  - rewrite same_pairs_spec by done. f_equal. apply bool_decide_ext. rewrite Forall_forall. split.
    + intros HF. apply map_subseteq_size_eq.
      * apply map_subseteq_spec. intros key v Hk. apply (to_map_Some hasher) in Hk; [|done]. by apply HF in Hk.
      * rewrite !(valid_size hasher) in En by done. lia.
    + intros <- p Hp. apply (to_map_Some hasher); [done|]. by destruct p.
  - rewrite bool_decide_eq_false_2; [done|]. intros E. apply En. by rewrite !(valid_size hasher), E.
Qed.

(** ** Merging *)

(** The pairs of [m'] whose keys are in [m]. *)
Definition common (m m' : gmap K V) : gmap K V := filter (λ kv, is_Some (m !! kv.1)) m'.

Lemma common_lookup m m' key : common m m' !! key = if m !! key is Some _ then m' !! key else None.
Proof.
  unfold common. apply option_eq. intros v. rewrite map_lookup_filter_Some. simpl.
  destruct (m !! key); naive_solver.
Qed.

(** One pair moves over. *)
Lemma merge_step m m' key (v : V) :
  m !! key = None → m' !! key = Some v →
  <[key := v]> m ∪ delete key m' = m ∪ m' ∧ common (<[key := v]> m) (delete key m') = common m m'.
Proof.
  intros Hm Hm'. split; apply map_eq; intros k; rewrite ?common_lookup, ?lookup_union;
    (destruct (decide (k = key)) as [->|]; [rewrite lookup_insert_eq, lookup_delete_eq|
      rewrite lookup_insert_ne, lookup_delete_ne by done]); rewrite ?Hm, ?Hm'; done.
Qed.

Lemma merge_loop_spec f rit h rhs :
  valid h → valid rhs → 0 ≤ rit ≤ _num_filled rhs → _num_filled rhs - rit < Z.of_nat f →
  _num_filled h + (_num_filled rhs - rit) ≤ 2 ^ 30 →
  (∀ i p, (i < Z.to_nat rit)%nat → _pairs rhs !! i = Some p → is_Some (to_map h !! p.1)) →
  ∃ h' rhs', merge_loop hasher f rit h rhs = Ok (h', rhs') ∧ valid h' ∧ valid rhs' ∧
    to_map h' = to_map h ∪ to_map rhs ∧ to_map rhs' = common (to_map h) (to_map rhs).
Proof.
  revert rit h rhs. induction f as [|f IH]; intros rit h rhs Hv Hv' Hr Hf Hn Hpre; [lia|]. cbn [merge_loop].
  pose proof (valid_filled hasher h Hv) as Eh. pose proof (valid_filled hasher rhs Hv') as Er.
  destruct (Z.eqb_spec rit (_num_filled rhs)) as [E|E].
  { exists h, rhs. split; [done|]. split; [done|]. split; [done|].
    assert (∀ key, is_Some (to_map rhs !! key) → is_Some (to_map h !! key)) as Hsub.
    { intros key [v Hk]. apply (to_map_Some hasher) in Hk; [|done]. apply list_elem_of_lookup in Hk as [i Hi].
      apply (Hpre i (key, v)); [|done]. pose proof (lookup_lt_Some _ _ _ Hi). lia. }
    split; apply map_eq; intros key; rewrite ?lookup_union, ?common_lookup; specialize (Hsub key);
      destruct (to_map h !! key), (to_map rhs !! key); try done; by destruct Hsub. }
  destruct (lookup_lt_is_Some_2 (_pairs rhs) (Z.to_nat rit)) as [[key v] Hp]; [lia|].
  rewrite (bind_eq _ _ _ (get_pair_Ok rhs rit _ ltac:(lia) Hp)). cbn [fst snd].
  destruct (find_spec hasher h key Hv) as (s & Es & Hs). unfold find. rewrite (bind_eq _ _ _ Es).
  destruct Hs as [[-> Hk]|(Hs & v' & _ & Hk)].
  - rewrite Z.eqb_refl. destruct (insert_unique_spec hasher h key v Hv) as (b & h1 & E1 & Hv1 & Ep1 & Em1); [lia|done|].
    destruct (erase_it_spec hasher rhs rit _ Hv' ltac:(lia) Hp) as (rhs1 & E2 & Hv2 & Ep2).
    rewrite (bind_eq _ _ _ E1), (bind_eq _ _ _ E2). cbn [fst snd].
    pose proof (swap_remove_map hasher rhs rhs1 rit key v Hv' Hv2 ltac:(lia) Hp Ep2) as Em2.
    pose proof (valid_filled hasher h1 Hv1) as Eh1. pose proof (valid_filled hasher rhs1 Hv2) as Er1.
    rewrite Ep1, length_app in Eh1. cbn in Eh1. rewrite Ep2, swap_remove_length in Er1 by lia.
    destruct (IH rit h1 rhs1 Hv1 Hv2) as (h' & rhs' & E' & V1 & V2 & M1 & M2); [lia|lia|lia| |].
    { intros i p Hi Hpi. rewrite Ep2, swap_remove_front in Hpi by lia. rewrite Em1.
      destruct (decide (p.1 = key)) as [->|]; [by rewrite lookup_insert_eq|].
      rewrite lookup_insert_ne by done. by eapply Hpre. }
    exists h', rhs'. rewrite Em1, Em2 in M1, M2.
    destruct (merge_step (to_map h) (to_map rhs) key v Hk) as [X1 X2];
      [by eapply (to_map_lookup hasher)|]. by rewrite M1, M2, X1, X2.
  - rewrite (proj2 (Z.eqb_neq _ _)) by lia. apply IH; [done|done|lia|lia|lia|].
    intros i p Hi Hpi. destruct (decide (i = Z.to_nat rit)) as [->|].
    + rewrite Hp in Hpi. injection Hpi as <-. cbn [fst]. by rewrite Hk.
    + apply (Hpre i p); [lia|done].
Qed.

(** [merge] moves the pairs with new keys over: afterwards the table holds
    the union, with its own values for common keys, and the argument keeps
    exactly the pairs whose keys were there already. *)
Theorem merge_unions h rhs :
  valid h → valid rhs → _num_filled h + _num_filled rhs ≤ 2 ^ 30 →
  ∃ h' rhs', merge hasher trivial h rhs = Ok (h', rhs') ∧ valid h' ∧ valid rhs' ∧
    to_map h' = to_map h ∪ to_map rhs ∧ to_map rhs' = common (to_map h) (to_map rhs).
Proof.
  intros Hv Hv' Hn. unfold merge. pose proof (valid_filled hasher h Hv) as Eh.
  pose proof (valid_filled hasher rhs Hv') as Er.
  destruct (Z.eqb_spec (_num_filled h) 0) as [E|E].
  - assert (to_map h = ∅) as ->. { apply map_size_empty_inv. pose proof (valid_size hasher h Hv). lia. }
    destruct (clear_spec hasher trivial h Hv) as [Hc Em]. exists rhs, (clear trivial h). split; [done|].
    split; [done|]. split; [done|]. rewrite Em, (left_id_L ∅ (∪)). split; [done|].
    symmetry. apply map_empty. intros key. by rewrite common_lookup, lookup_empty.
  - apply merge_loop_spec; [done|done|lia|lia|lia|]. intros i p Hi. lia.
Qed.

(** ** Writes outside of the arrays *)
Lemma do_insert_overflow h key val :
  valid h → _num_filled h = _capacity h → _num_filled h < _mask h → to_map h !! key = None →
  do_insert hasher key val h = Err (Undefined "_pairs + _num_filled").
Proof.
  intros Hv Hc Hm Hk%to_map_None. destruct (va_table _ _ Hv) as (ch & T & _). pose proof (tb_shape _ _ _ _ T) as S.
  pose proof (sh_mask _ S) as Em.
  assert (∃ e, is_empty h e) as He.
  { eapply (table_empty_bucket _ _ _ _ (_num_filled h) T); [intros s p Hp; by apply upto_Some in Hp as []|lia]. }
  pose proof (find_or_allocate_Ok hasher h ch _ key T He) as Hf. pose proof (search_pairs hasher h ch key T) as Hs.
  destruct (search _ _) as [z|].
  { destruct Hs as (_ & v & _ & Hp). destruct Hk. apply list_elem_of_fmap. exists (key, v). split; [done|].
    by eapply list_elem_of_lookup_2. }
  destruct Hf as (x & I' & l & ch' & Ef & SP). destruct (sp_empty _ _ _ _ _ _ SP) as [Hx Hex].
  unfold do_insert. rewrite (bind_eq _ _ _ Ef).
  rewrite (bind_eq _ _ _ (EMPTY_Ok _ x (sp_shape _ _ _ _ _ _ SP) ltac:(lia))), Hex, negative_INACTIVE.
  unfold EMH_NEW. cbn [_num_filled _capacity variant with_index set_last]. by rewrite (proj2 (Z.ltb_ge _ _)) by lia.
Qed.

Lemma do_insert_all_overflow l h :
  valid h → NoDup l.*1 → (∀ key, key ∈ l.*1 → to_map h !! key = None) →
  _num_filled h ≤ _capacity h ≤ _mask h - 1 → _capacity h < _num_filled h + Z.of_nat (length l) →
  do_insert_all hasher l h = Err (Undefined "_pairs + _num_filled").
Proof.
  revert h. induction l as [|p l IH]; intros h Hv Hnd Hnew Hc Hn; cbn [length fmap list_fmap] in *; [lia|].
  apply NoDup_cons in Hnd as [Hp Hnd]. cbn [do_insert_all].
  destruct (decide (_num_filled h = _capacity h)) as [E|E].
  { rewrite do_insert_overflow; [done|done|done|lia|apply Hnew; left]. }
  assert (roomy h) as Hr by (split; lia).
  destruct (do_insert_spec hasher h p.1 p.2 Hv Hr) as (s & h1 & Ei & Hv1 & Em & _ & _ & Hl & Emask).
  rewrite (bind_eq _ _ _ Ei). cbn [fst snd]. unfold insert_new in Em. rewrite (Hnew p.1 ltac:(left)) in Em.
  pose proof (valid_shape _ _ Hv) as S. pose proof (valid_shape _ _ Hv1) as S1.
  assert (_capacity h1 = _capacity h) as Ec.
  { rewrite (sh_alloc _ S), (sh_alloc _ S1). f_equal. pose proof (sh_mask _ S). pose proof (sh_mask _ S1). lia. }
  assert (_num_filled h1 = _num_filled h + 1) as En1.
  { rewrite !(valid_size hasher) by done. rewrite Em, map_size_insert_None by (apply Hnew; left). lia. }
  apply IH; [done|done| |lia|lia].
  intros key Hk. rewrite Em, lookup_insert_ne by (by intros <-). apply Hnew. by right.
Qed.

(** C37. The constructor from a list allocates for the load factor but inserts
    without looking at it: a list of [2 ^ k] pairs with different keys, 32 or
    more, makes it write behind the end of its array. *)
Theorem list_constructor_overflows k (l : list (K * V)) :
  5 ≤ k ≤ 30 → Z.of_nat (length l) = 2 ^ k → NoDup l.*1 →
  init_list hasher l = Err (Undefined "_pairs + _num_filled").
Proof.
  intros Hk Hl Hnd. assert (2 ^ 5 ≤ 2 ^ k) by (apply Z.pow_le_mono_r; lia).
  assert (2 ^ k ≤ 2 ^ 30) by (apply Z.pow_le_mono_r; lia).
  unfold init_list. rewrite Hl, (uwrap_small 32) by (unfold in_u; lia).
  destruct (init_spec (V := V) hasher (2 ^ k)) as (h & E & Hv & Hp & Hb); [lia|]. rewrite (bind_eq _ _ _ E).
  pose proof (valid_shape _ _ Hv) as S. pose proof (sh_filled _ S) as Ef. rewrite Hp in Ef. cbn in Ef.
  assert (_num_buckets h = 2 ^ k) as Enb.
  { destruct (sh_pow _ S) as (j & Hj & Ej). rewrite Ej in *. f_equal. apply Z.le_antisymm.
    - destruct (Z.le_gt_cases j k) as [|Hgt]; [done|].
      assert (2 ^ (k + 1) ≤ 2 ^ j) by (apply Z.pow_le_mono_r; lia). rewrite Z.pow_add_r in * by lia. lia.
    - apply (Z.pow_le_mono_r_iff 2); lia. }
  pose proof (sh_mask _ S) as Em. pose proof (sh_alloc _ S) as Ec. rewrite Enb, pairs_for_eq in Ec.
  apply do_insert_all_overflow; [done|done| | |].
  - intros key _. unfold to_map. by rewrite Hp.
  - rewrite Ef, Ec, Em, Enb. div_lia.
  - rewrite Ef, Ec, Hl. div_lia.
Qed.

(** [shrink_to_fit] can choose a table too small for its pairs: with 31
    pairs left in a table of at least 256 buckets it allocates an array for 29
    pairs and copies 31 into it. *)
Theorem shrink_overflows h :
  valid h → _num_filled h = 31 → 256 ≤ _num_buckets h →
  shrink_to_fit hasher h = Err (Undefined "new_pairs + slot").
Proof.
  intros Hv Hn Hb. pose proof (valid_shape _ _ Hv) as S. destruct (sh_pow _ S) as (j & Hj & Ej).
  assert (8 ≤ j) as Hj8.
  { apply (Z.pow_le_mono_r_iff 2); [lia..|]. rewrite <- Ej. done. }
  unfold shrink_to_fit, load_factor. rewrite Hn, (sh_mask _ S), Ej, load_of_31 by lia.
  rewrite (proj2 (Z.ltb_lt 10 _)) by lia. cbn [andb]. unfold rehash. rewrite Hn.
  change (31 + 1 <? 31) with false. change (31 + 1 <? 2 ^ 31) with true.
  change (double_up 33 (if 2 ^ 16 <? 31 then 2 ^ 16 else 4) (31 + 1)) with (@Ok Z 32). cbn [mbind result_bind].
  unfold rebuild. cbn [_mlf _num_filled]. rewrite (sh_mlf _ S), pairs_for_eq. done.
Qed.
End bulk.

(** ** Examples *)
Definition diag (l : list Z) : list (Z * Z) := map (λ x, (x, x)) l.

(** What insertion of 31 pairs into 256 buckets leaves. *)
Lemma demo_31 :
  ∃ h, init_range std_hash_int (diag (seqZ 0 31)) 225 = Ok h ∧ valid std_hash_int h ∧
    _num_filled h = 31 ∧ _num_buckets h = 256.
Proof.
  destruct (init_range_spec std_hash_int (diag (seqZ 0 31)) 225) as (h & E & Hv & _);
    [lia|vm_compute; discriminate|].
  exists h. split; [exact E|]. split; [exact Hv|].
  assert (match init_range std_hash_int (diag (seqZ 0 31)) 225 with
          | Ok h => bool_decide (_num_filled h = 31 ∧ _num_buckets h = 256) | Err _ => false end = true) as Ev
    by (vm_compute; reflexivity).
  rewrite E in Ev. by apply bool_decide_eq_true in Ev.
Qed.

(** [reserve(n)] with [n] equal to the number of pairs replaces the links of
    the index by counters; the table then reads outside of its index when it
    looks for a key it does not hold. *)
Theorem reserve_breaks_lookup :
  (h ← init_range std_hash_int [(0, 7)] 3; find std_hash_int h 4) = Ok 1 ∧
  (h ← init_range std_hash_int [(0, 7)] 3; x ← reserve1 std_hash_int 1 h; find std_hash_int x.2 4) =
    Err (Undefined "_index[n]").
Proof. split; vm_compute; reflexivity. Qed.

Lemma hash_map_refines_witness :
  let ops := [Insert 5 50; Insert 9 90; Insert 5 51; Assign 9 91; Subscript 13; TryGet 5; Erase 5; TryGet 5; Size] in
  ∃ h0 h, new std_hash_int = Ok h0 ∧
    run_ops std_hash_int true 0 ops h0 =
      Ok ([ABool true; ABool true; ABool false; ABool false; AVal (Some 0); AVal (Some 50); ANum 1; AVal None; ANum 2], h) ∧
    to_map h !! 9 = Some 91 ∧ to_map h !! 5 = None.
Proof.
  intros ops. destruct (hash_map_refines std_hash_int true 0 ops) as (h0 & h & E0 & E & _ & Em); [cbn; lia|].
  exists h0, h. split; [exact E0|]. split; [exact E|]. rewrite Em. split; vm_compute; reflexivity.
Defined.

Lemma shrink_overflows_witness :
  ∃ h, init_range std_hash_int (diag (seqZ 0 31)) 225 = Ok h ∧
    shrink_to_fit std_hash_int h = Err (Undefined "new_pairs + slot").
Proof.
  destruct demo_31 as (h & E & Hv & En & Eb). exists h. split; [exact E|].
  apply (shrink_overflows std_hash_int h Hv En). lia.
Defined.

Lemma list_constructor_overflows_witness :
  init_list std_hash_int (diag (seqZ 0 32)) = Err (Undefined "_pairs + _num_filled").
Proof.
  apply (list_constructor_overflows std_hash_int 5); [lia|reflexivity|].
  apply (bool_decide_unpack _). vm_compute. exact I.
Defined.

Lemma merge_unions_witness :
  ∃ h rhs h' rhs', init_range std_hash_int [(1, 10); (2, 20)] 4 = Ok h ∧ init_range std_hash_int [(2, 21); (3, 30)] 4 = Ok rhs ∧
    merge std_hash_int true h rhs = Ok (h', rhs') ∧
    to_map h' = {[1 := 10; 2 := 20; 3 := 30]} ∧ to_map rhs' = {[2 := 21]}.
Proof.
  destruct (init_range_spec std_hash_int [(1, 10); (2, 20)] 4) as (h & E & Hv & Em); [lia|vm_compute; discriminate|].
  destruct (init_range_spec std_hash_int [(2, 21); (3, 30)] 4) as (r & E' & Hv' & Em'); [lia|vm_compute; discriminate|].
  destruct (merge_unions std_hash_int true h r Hv Hv') as (h' & r' & Er & _ & _ & Eh & Ec).
  { rewrite (valid_size _ _ Hv), (valid_size _ _ Hv'), Em, Em'. vm_compute. discriminate. }
  exists h, r, h', r'. split; [exact E|]. split; [exact E'|]. split; [exact Er|]. rewrite Eh, Ec, Em, Em'.
  split; vm_compute; reflexivity.
Defined.
