(* ===== verification/AFTensor.v ===== *)
(** * Tensor batches (include/ps/af_tensor_app.h)

    [AFTensorWorker] sends the tensors of a batch as key-value messages whose
    command marks the start, the middle and the end of the batch; every push
    goes to all servers, every pull to the server the tensor comes from.
    [AFTensorServer] collects the messages of a batch, also when batches of one
    worker overlap, and gives the complete batch to the application. *)

From S2P Require Import Prelude Message Env Postoffice Van Customer Slicer KVApp HashMap.
Import Van Customer KVPairs KVWorker.

(** ** Tensors *)

(** What the program uses of an [at::Tensor]. *)
Record Tensor : Type := mkTensor {
  data_ptr : Z;
  scalar_type : Z;
  tensor_sizes : list Z;
  itemsize : Z
}.

Definition numel (t : Tensor) : Z := foldr Z.mul 1 (tensor_sizes t).
Definition tensor_len (t : Tensor) : Z := numel t * itemsize t.

Record KeyTensor : Type := mkKeyTensor { kt_key : Z; kt_val : Tensor }.

(** [std::vector::operator[]] *)
Definition vec_index {A} (l : list A) (i : Z) : result A :=
  if 0 <=? i then from_option_or (Undefined "operator[]") (l !! Z.to_nat i)
  else Err (Undefined "operator[]").

(** ** Events *)

(** A pool of events; [true] means released. *)
Definition Occupy (released : bool) : bool * bool := (released, false).

(** [GetEvent]: the first event that can be occupied, or a new one. *)
Fixpoint GetEvent (events_ : list bool) : nat * list bool :=
  match events_ with
  | [] => (0%nat, [false])
  | released :: evs =>
      let '(occupied, released') := Occupy released in
      if occupied : bool then (0%nat, released' :: evs)
      else let '(i, evs') := GetEvent evs in (S i, released' :: evs')
  end.

Definition Release (i : nat) (events_ : list bool) : list bool := <[i := true]> events_.

(** ** The worker *)
Definition kDefaultEventBufferSize : nat := 16.
Definition AF_FLAG_BATCH_START : Z := 1.
Definition AF_FLAG_BATCH_MIDDLE : Z := 2.
Definition AF_FLAG_BATCH_END : Z := 3.

Record AFTensorRequest : Type := mkAFTensorRequest {
  req_push : list KeyTensor;
  req_pull : list KeyTensor;
  push_timestamps : list Z;
  pull_timestamps : list Z;
  req_event : option nat
}.

(** Where the push-pull thread is: before the look at [pushpull_stop_], inside
    [WaitAndPop], or gone. *)
Inductive place_in_loop : Type := LoopTop | InWaitAndPop | LoopLeft.

Module AFTensorWorker.
Record t : Type := mk {
  kv_ : KVWorker.t byte;
  batch_timestamps_ : HashMap.t Z (list Z);
  pushpull_queue_ : list AFTensorRequest;
  events_ : list bool;
  pushpull_stop_ : bool;
  pushpull_thread_ : place_in_loop
}.
End AFTensorWorker.
Import AFTensorWorker.

(** Values of type [char]. *)
Definition wire_char : wire byte :=
  mkWire DataType.OTHER 1 (λ b, [b]) (λ bs, default x00 (head bs)) x00.

Section worker.
Context (SendMsg : Message.t → Z).
(** The bytes a tensor's memory holds, and the addresses of the new arrays for
    a single key. *)
Context (tensor_bytes : Tensor → list byte) (key_address : Z → Z).

Definition server_count (w : KVWorker.t byte) : Z :=
  Z.of_nat (length (GetServerKeyRanges (postoffice_ (van w))).2).

Fixpoint alloc_timestamps (now : Z) (n : nat) (w : KVWorker.t byte)
    : result (list Z * KVWorker.t byte) :=
  match n with
  | O => Ok ([], w)
  | S n' =>
      x ← AllocTimestamp now w;
      y ← alloc_timestamps now n' x.2;
      Ok (x.1 :: y.1, y.2)
  end.

(** [ZBatchPushPull]: every push and every row of pulls gets a time stamp; the
    first one names the batch. *)
Definition ZBatchPushPull (now : Z) (push_tensors pull_tensors : list KeyTensor)
    (need_event : bool) (s : t) : result (Z * t) :=
  let n := server_count (kv_ s) in
  check! (0 <? n) or "zero servers and cannot pushpull";
  x ← alloc_timestamps now (length push_tensors) (kv_ s);
  let pull_batch_size := Z.quot (Z.of_nat (length pull_tensors)) n in
  y ← alloc_timestamps now (Z.to_nat pull_batch_size) x.2;
  let stamps := x.1 ++ y.1 in
  let '(ev, evs) := if need_event then let '(i, evs) := GetEvent (events_ s) in (Some i, evs)
                    else (None, events_ s) in
  let start_ts := hd 0 stamps in
  let req := mkAFTensorRequest push_tensors pull_tensors x.1 y.1 ev in
  table ← HashMap.insert_unique HashMap.std_hash_int start_ts (tail stamps) (batch_timestamps_ s);
  Ok (start_ts,
      s <| kv_ := y.2 |> <| events_ := evs |> <| pushpull_queue_ ::= (λ q, q ++ [req]) |>
        <| batch_timestamps_ := table.2 |>).

(** [GetAllHandlers] *)
Definition GetAllHandlers (timestamp : Z) (s : t) : result (list Z) :=
  v ← HashMap.try_get HashMap.std_hash_int (batch_timestamps_ s) timestamp;
  Ok (timestamp :: default [] v).

(** The waits for several requests, one after the other; [obs] has the looks of
    each.  [None]: a wait is still going on. *)
Fixpoint wait_each (c : Customer.t) (stamps : list Z) (timeout_ms : Z)
    (obs : list (list (Z * Z))) : option (result unit) :=
  match stamps with
  | [] => Some (Ok ())
  | ts :: stamps' =>
      match WaitRequest c ts timeout_ms (hd [] obs) with
      | Some (Ok _) => wait_each c stamps' timeout_ms (tail obs)
      | r => r
      end
  end.

(** [Wait]: for the request [timestamp] and the others of its batch, which is
    then forgotten. *)
Definition Wait (timestamp timeout_ms : Z) (obs : list (list (Z * Z))) (s : t) : option (result t) :=
  match WaitRequest (obj_ (kv_ s)) timestamp timeout_ms (hd [] obs) with
  | None => None
  | Some (Err e) => Some (Err e)
  | Some (Ok _) =>
      match HashMap.try_get HashMap.std_hash_int (batch_timestamps_ s) timestamp with
      | Err e => Some (Err e)
      | Ok None => Some (Ok s)
      | Ok (Some v) =>
          match wait_each (obj_ (kv_ s)) v timeout_ms (tail obs) with
          | None => None
          | Some (Err e) => Some (Err e)
          | Some (Ok _) =>
              Some (x ← HashMap.erase HashMap.std_hash_int timestamp (batch_timestamps_ s);
                    Ok (s <| batch_timestamps_ := x.2 |>))
          end
      end
  end.

(** The meta data of a message for tensor [t]. *)
Definition tensor_meta (ts cmd : Z) (push : bool) (key : Z) (t : Tensor) : Meta.t :=
  Meta.default
    <| Meta.request := true |> <| Meta.head := cmd |> <| Meta.push := push |>
    <| Meta.timestamp := ts |> <| Meta.addr := u64 (data_ptr t) |>
    <| Meta.val_len := i32 (tensor_len t) |> <| Meta.key := key |> <| Meta.is_tensor := 1 |>
    <| Meta.dtype := i8 (scalar_type t) |> <| Meta.shape := tensor_sizes t |>.

Definition tensor_message (ts cmd : Z) (push : bool) (kt : KeyTensor) : result Message.t :=
  let t := kt_val kt in
  m ← AddArray wire_key (SArray.mk (key_address (kt_key kt)) [kt_key kt]
                           DeviceType.CPU 0 DeviceType.CPU 0)
        (Message.mk (tensor_meta ts cmd push (kt_key kt) t) []);
  AddArray wire_char (SArray.mk (data_ptr t) (tensor_bytes t) DeviceType.CPU 0 DeviceType.CPU 0) m.

(** [ZPush_]: the tensor goes to every server. *)
Fixpoint broadcast (now : Z) (msg : Message.t) (servers : list Z) (w : KVWorker.t byte)
    : result (KVWorker.t byte) :=
  match servers with
  | [] => Ok w
  | i :: servers' =>
      w ← worker_send_msg SendMsg now msg i w;
      broadcast now msg servers' w
  end.

Definition ZPush_ (now ts : Z) (kt : KeyTensor) (cmd : Z) (w : KVWorker.t byte)
    : result (KVWorker.t byte) :=
  msg ← tensor_message ts cmd true kt;
  broadcast now msg (seqZ 0 (server_count w)) w.

(** [ZPull_]: server [i] is asked for the tensor [i * pull_batch_size + index]. *)
Definition pull_one (now ts : Z) (pulls : list KeyTensor) (batch index cmd i : Z)
    (w : KVWorker.t byte) : result (KVWorker.t byte) :=
  kt ← vec_index pulls (i * batch + index);
  msg ← tensor_message ts cmd false kt;
  w ← worker_send_msg SendMsg now msg i w;
  Ok (AddCallback ts (Some (EraseCallback ts)) w).

Fixpoint pull_from (now ts : Z) (pulls : list KeyTensor) (batch index cmd : Z) (servers : list Z)
    (w : KVWorker.t byte) : result (KVWorker.t byte) :=
  match servers with
  | [] => Ok w
  | i :: servers' =>
      w ← pull_one now ts pulls batch index cmd i w;
      pull_from now ts pulls batch index cmd servers' w
  end.

Definition ZPull_ (now ts : Z) (pulls : list KeyTensor) (index cmd : Z) (w : KVWorker.t byte)
    : result (KVWorker.t byte) :=
  let n := server_count w in
  pull_from now ts pulls (Z.quot (Z.of_nat (length pulls)) n) index cmd (seqZ 0 n) w.

(** The flags of the pushes and pulls of a batch. *)
Definition push_flag (i num_push : Z) (no_pulls : bool) : Z :=
  if i =? 0 then AF_FLAG_BATCH_START
  else if no_pulls && (i =? num_push - 1) then AF_FLAG_BATCH_END
  else AF_FLAG_BATCH_MIDDLE.
Definition pull_flag (first : bool) (i pull_batch_size : Z) : Z :=
  if first && (i =? 0) then AF_FLAG_BATCH_START
  else if i =? pull_batch_size - 1 then AF_FLAG_BATCH_END
  else AF_FLAG_BATCH_MIDDLE.

Fixpoint push_all_tensors (now : Z) (num_push : Z) (no_pulls : bool) (i : Z)
    (pushes : list KeyTensor) (stamps : list Z) (w : KVWorker.t byte) : result (KVWorker.t byte) :=
  match pushes with
  | [] => Ok w
  | kt :: pushes' =>
      ts ← vec_index stamps i;
      w ← ZPush_ now ts kt (push_flag i num_push no_pulls) w;
      push_all_tensors now num_push no_pulls (i + 1) pushes' stamps w
  end.

Fixpoint pull_all_tensors (now : Z) (first : bool) (batch : Z) (rows : list Z)
    (pulls : list KeyTensor) (stamps : list Z) (w : KVWorker.t byte) : result (KVWorker.t byte) :=
  match rows with
  | [] => Ok w
  | i :: rows' =>
      ts ← vec_index stamps i;
      w ← ZPull_ now ts pulls i (pull_flag first i batch) w;
      pull_all_tensors now first batch rows' pulls stamps w
  end.

(** [ZBatchPushPull_] *)
Definition send_batch (now : Z) (req : AFTensorRequest) (w : KVWorker.t byte)
    : result (KVWorker.t byte) :=
  let pushes := req_push req in
  let pulls := req_pull req in
  let n := server_count w in
  check! (1 <=? Z.of_nat (length pushes + length pulls)) or "push or pull";
  check! (0 <? n) or "zero servers and cannot pushpull";
  if (length pushes + length pulls =? 1)%nat then
    match pushes with
    | kt :: _ => ts ← vec_index (push_timestamps req) 0; ZPush_ now ts kt 0 w
    | [] => ts ← vec_index (pull_timestamps req) 0; ZPull_ now ts pulls 0 0 w
    end
  else
    w ← push_all_tensors now (Z.of_nat (length pushes)) (bool_decide (pulls = [])) 0 pushes
          (push_timestamps req) w;
    let pull_batch_size := Z.quot (Z.of_nat (length pulls)) n in
    pull_all_tensors now (bool_decide (pushes = [])) pull_batch_size (seqZ 0 pull_batch_size)
      pulls (pull_timestamps req) w.

(** A step of [PushPullWorker]: the look at [pushpull_stop_], or the oldest
    request of the queue, when there is one. *)
Definition PushPullWorker (now : Z) (s : t) : result t :=
  match pushpull_thread_ s with
  | LoopTop => Ok (s <| pushpull_thread_ := if pushpull_stop_ s then LoopLeft else InWaitAndPop |>)
  | InWaitAndPop =>
      match pushpull_queue_ s with
      | [] => Ok s
      | req :: q =>
          let evs := match req_event req with Some i => Release i (events_ s) | None => events_ s end in
          w ← send_batch now req (kv_ s);
          Ok (s <| kv_ := w |> <| events_ := evs |> <| pushpull_queue_ := q |>
                <| pushpull_thread_ := LoopTop |>)
      end
  | LoopLeft => Ok s
  end.

(** What [~AFTensorWorker] does before it joins the thread. *)
Definition stop_pushpull (s : t) : t :=
  s <| pushpull_stop_ := true |>
    <| pushpull_queue_ ::= (λ q, q ++ [mkAFTensorRequest [] [] [] [] None]) |>.

(** [AFTensorWorker(instance_idx)], with [gpu_] from the environment. *)
Definition new_worker (gpu : option Z) (kv : KVWorker.t byte) : result t :=
  check! (0 <=? default (-1) gpu) or "STEPMESH_GPU is not set";
  table ← HashMap.new HashMap.std_hash_int;
  Ok (AFTensorWorker.mk kv table [] (replicate kDefaultEventBufferSize true) false LoopTop).
End worker.

(** ** The server *)
Module AFTensorMeta.
Record t : Type := mk {
  sender : Z;
  sender_rank : Z;
  single : bool;
  last_timestamp : Z;
  push_metas : list KVMeta.t;
  push_tensors : list (Z * option Tensor);
  pull_metas : list KVMeta.t;
  pull_tensors : list (Z * option Tensor)
}.

(** [Add]; a pulled tensor has a key and no value. *)
Definition Add (kv_meta : KVMeta.t) (tensor : Z * option Tensor) (m : t) : t :=
  if KVMeta.push kv_meta then
    mk (sender m) (sender_rank m) (single m) (KVMeta.timestamp kv_meta)
       (push_metas m ++ [kv_meta]) (push_tensors m ++ [tensor]) (pull_metas m) (pull_tensors m)
  else
    mk (sender m) (sender_rank m) (single m) (KVMeta.timestamp kv_meta)
       (push_metas m) (push_tensors m) (pull_metas m ++ [kv_meta]) (pull_tensors m ++ [tensor]).
End AFTensorMeta.

Module AFTensorServer.
Record t : Type := mk {
  batch_data_ : gmap Z (option AFTensorMeta.t);
  reorder_buffer_ : list AFTensorMeta.t
}.
Definition new : t := mk ∅ [].
End AFTensorServer.
Import AFTensorServer.

(** What [KVHandler] does to the outside: [kv_.Response(req_meta)] and the call
    of the application's handler. *)
Inductive af_action : Type :=
| Respond (req_meta : KVMeta.t)
| Handle (meta : AFTensorMeta.t).

Section server.
(** [at::from_blob] on the data of a push; the size of an element follows from
    the type. *)
Context (itemsize_of : Z → Z) (tensor_bytes : Tensor → list byte) (key_address : Z → Z).

Definition FromBlob (req_meta : KVMeta.t) (req_data : KVPairs.t byte) : result (Z * option Tensor) :=
  k ← from_option_or (Undefined "keys[0]") (head (SArray.elems (keys req_data)));
  Ok (k, if KVMeta.push req_meta
         then Some (mkTensor (SArray.ptr_ (vals req_data)) (KVMeta.dtype req_meta)
                      (KVMeta.shape req_meta) (itemsize_of (KVMeta.dtype req_meta)))
         else None).

Definition new_meta (single : bool) (sender : Z) : AFTensorMeta.t :=
  AFTensorMeta.mk sender (IDtoRank sender) single 0 [] [] [] [].

(** The batch of the reorder buffer a message continues, with its place. *)
Definition continues (req : KVMeta.t) (m : AFTensorMeta.t) : bool :=
  (AFTensorMeta.sender m =? KVMeta.sender req) &&
  (KVMeta.timestamp req =? i32 (AFTensorMeta.last_timestamp m + 1)).

Fixpoint find_reorder (req : KVMeta.t) (l : list AFTensorMeta.t) : option (nat * AFTensorMeta.t) :=
  match l with
  | [] => None
  | m :: l' =>
      if continues req m then Some (0%nat, m)
      else match find_reorder req l' with
           | Some (i, m') => Some (S i, m')
           | None => None
           end
  end.

(** [reorder_buffer_.erase(begin() + i)] *)
Definition erase_at {A} (i : nat) (l : list A) : list A := take i l ++ drop (S i) l.

(** The last part of [KVHandler]: a finished batch is handed over and
    forgotten. *)
Definition finish_batch (cmd sender : Z) (place : option nat) (m : AFTensorMeta.t) (s : t)
    : list af_action * t :=
  if cmd =? AF_FLAG_BATCH_END then
    ([Handle m],
     match place with
     | None => AFTensorServer.mk (<[sender := None]> (batch_data_ s)) (reorder_buffer_ s)
     | Some i => AFTensorServer.mk (batch_data_ s) (erase_at i (reorder_buffer_ s))
     end)
  else ([], s).

(** [KVHandler]; [place] is the position in the reorder buffer of the batch the
    message belongs to, [None] the sender's current batch. *)
Definition KVHandler (req : KVMeta.t) (tensor : Z * option Tensor) (s : t)
    : result (list af_action * t) :=
  let sender := KVMeta.sender req in
  if KVMeta.cmd req =? 0 then
    Ok ([Handle (AFTensorMeta.Add req tensor (new_meta true sender))], s)
  else
    let responses := if KVMeta.push req then [Respond req] else [] in
    if KVMeta.cmd req =? AF_FLAG_BATCH_START then
      let s := match batch_data_ s !! sender with
               | Some (Some old) => AFTensorServer.mk (batch_data_ s) (reorder_buffer_ s ++ [old])
               | _ => s
               end in
      let m := AFTensorMeta.Add req tensor (new_meta false sender) in
      Ok (responses, AFTensorServer.mk (<[sender := Some m]> (batch_data_ s)) (reorder_buffer_ s))
    else
      match find_reorder req (reorder_buffer_ s) with
      | Some (i, m) =>
          let m := AFTensorMeta.Add req tensor m in
          let s := AFTensorServer.mk (batch_data_ s) (<[i := m]> (reorder_buffer_ s)) in
          let '(acts, s) := finish_batch (KVMeta.cmd req) sender (Some i) m s in
          Ok (responses ++ acts, s)
      | None =>
          match batch_data_ s !! sender with
          | Some (Some m) =>
              let m := AFTensorMeta.Add req tensor m in
              let s := AFTensorServer.mk (<[sender := Some m]> (batch_data_ s)) (reorder_buffer_ s) in
              let '(acts, s) := finish_batch (KVMeta.cmd req) sender None m s in
              Ok (responses ++ acts, s)
          | _ => Err (Undefined "af_meta is null")
          end
      end.

(** ** Responses of the application *)
Record AFTensorResponse : Type := mkAFTensorResponse {
  rsp_meta : KVMeta.t;
  rsp_pairs : KVPairs.t byte;
  rsp_event : option nat
}.

(** The key and the bytes of a tensor, as a key-value pair without lengths. *)
Definition tensor_pairs (kt : KeyTensor) : KVPairs.t byte :=
  KVPairs.mk
    (SArray.mk (key_address (kt_key kt)) [kt_key kt] DeviceType.CPU 0 DeviceType.CPU 0)
    (SArray.mk (data_ptr (kt_val kt)) (tensor_bytes (kt_val kt)) DeviceType.CPU 0 DeviceType.CPU 0)
    sarray0.

Definition find_key (key : Z) (tensors : list KeyTensor) : option KeyTensor :=
  List.find (λ kt, kt_key kt =? key) tensors.

(** The responses of a batch, in the order of its pulls; a pull whose key is
    not among the tensors gets none. *)
Fixpoint batch_responses (pulls : list KVMeta.t) (tensors : list KeyTensor) (need_event : bool)
    (events_ : list bool) : list AFTensorResponse * list bool :=
  match pulls with
  | [] => ([], events_)
  | kv_meta :: pulls' =>
      match find_key (KVMeta.key kv_meta) tensors with
      | None => batch_responses pulls' tensors need_event events_
      | Some kt =>
          let '(ev, evs) := if need_event then let '(i, evs) := GetEvent events_ in (Some i, evs)
                            else (None, events_) in
          let '(rs, evs) := batch_responses pulls' tensors need_event evs in
          (mkAFTensorResponse kv_meta (tensor_pairs kt) ev :: rs, evs)
      end
  end.

(** [AFTensorServer::Response]: what is answered at once and what is put in the
    queue of the response thread. *)
Definition af_response (meta : AFTensorMeta.t) (tensors : list KeyTensor) (need_event : bool)
    (events_ : list bool)
    : result (list (KVMeta.t * option KeyTensor) * list AFTensorResponse * list bool) :=
  if AFTensorMeta.single meta then
    if (length (AFTensorMeta.pull_tensors meta) =? 1)%nat then
      kt ← from_option_or (Undefined "tensors[0]") (head tensors);
      req ← from_option_or (Undefined "pull_metas[0]") (head (AFTensorMeta.pull_metas meta));
      let '(_, evs) := GetEvent events_ in
      Ok ([(req, Some kt)], [], evs)
    else if (length (AFTensorMeta.push_metas meta) =? 1)%nat then
      req ← from_option_or (Undefined "push_metas[0]") (head (AFTensorMeta.push_metas meta));
      Ok ([(req, None)], [], events_)
    else Ok ([], [], events_)
  else
    let '(rs, evs) := batch_responses (AFTensorMeta.pull_metas meta) tensors need_event events_ in
    Ok ([], rs, evs).

(** ** Registration of receive buffers *)

(** The address and length of the buffer of rank [i]: [chunk_size] is an int,
    its product with the uint32_t [i] an unsigned int. *)
Definition chunk_address (buffer_ptr chunk_size i : Z) : Z :=
  buffer_ptr + u32 (u32 chunk_size * u32 i).

Definition RegisterRecvTensor (tensor : Tensor) (element_size : Z) (worker_ranks ks : list Z)
    : result (list (Z * Z * Z * Z)) :=
  check! bool_decide (worker_ranks ≠ []) or "ranks or keys should not be empty";
  check! (length worker_ranks =? length ks)%nat or "rank list and key list have unequal size";
  let n := Z.of_nat (length worker_ranks) in
  let data_size := u64 (numel tensor * element_size) in
  let chunk_size := i32 (data_size / n) in
  check! (data_size mod n =? 0) or "tensor data size cannot be evenly chunked to different ranks";
  Ok (imap (λ i x, (x.1, x.2, chunk_address (data_ptr tensor) chunk_size (Z.of_nat i), chunk_size))
        (zip worker_ranks ks)).
End server.

(** ** The whole server: the key-value server it sits on, and the thread that
    sends the responses *)
Module AFServerApp.
Record t : Type := mk {
  core : AFTensorServer.t;
  kv_ : KVServer.t;
  events_ : list bool;
  response_queue_ : list AFTensorResponse;
  response_stop_ : bool;
  response_thread_ : place_in_loop
}.
End AFServerApp.

Section server_app.
Context (SendMsg : Message.t → Z) (tensor_bytes : Tensor → list byte) (key_address : Z → Z).
Context (itemsize_of : Z → Z).
Implicit Types s : AFServerApp.t.

(** [AFTensorServer(gpu)] on the key-value server [kv]. *)
Definition new_af_server (kv : KVServer.t) : AFServerApp.t :=
  AFServerApp.mk AFTensorServer.new kv (replicate 64 true) [] false LoopTop.

Definition answer (now : Z) (x : KVMeta.t * option KeyTensor) (kv : KVServer.t) : result KVServer.t :=
  kv_response wire_char SendMsg now x.1 (match x.2 with Some kt => tensor_pairs tensor_bytes key_address kt | None => kvpairs0 end) kv.

Fixpoint answer_all (now : Z) (l : list (KVMeta.t * option KeyTensor)) (kv : KVServer.t)
    : result KVServer.t :=
  match l with
  | [] => Ok kv
  | x :: l' => kv ← answer now x kv; answer_all now l' kv
  end.

(** [AFTensorServer::Response], complete. *)
Definition Response (now : Z) (meta : AFTensorMeta.t) (tensors : list KeyTensor) (need_event : bool) s
    : result AFServerApp.t :=
  x ← af_response tensor_bytes key_address meta tensors need_event (AFServerApp.events_ s);
  kv ← answer_all now x.1.1 (AFServerApp.kv_ s);
  Ok (s <| AFServerApp.kv_ := kv |> <| AFServerApp.events_ := x.2 |>
        <| AFServerApp.response_queue_ ::= (λ q, q ++ x.1.2) |>).

(** What [KVHandler] does to the outside; [request_handle_] is the application. *)
Fixpoint perform (request_handle_ : AFTensorMeta.t → AFServerApp.t → result AFServerApp.t) (now : Z)
    (acts : list af_action) s : result AFServerApp.t :=
  match acts with
  | [] => Ok s
  | Respond req :: acts' =>
      kv ← answer now (req, None) (AFServerApp.kv_ s);
      perform request_handle_ now acts' (s <| AFServerApp.kv_ := kv |>)
  | Handle m :: acts' => s ← request_handle_ m s; perform request_handle_ now acts' s
  end.

(** The request handler of the key-value server. *)
Definition on_request (request_handle_ : AFTensorMeta.t → AFServerApp.t → result AFServerApp.t) (now : Z)
    (req_meta : KVMeta.t) (req_data : KVPairs.t byte) s : result AFServerApp.t :=
  tensor ← FromBlob itemsize_of req_meta req_data;
  x ← KVHandler req_meta tensor (AFServerApp.core s);
  perform request_handle_ now x.1 (s <| AFServerApp.core := x.2 |>).

(** A step of [ResponseWorker]. *)
Definition ResponseWorker (now : Z) s : result AFServerApp.t :=
  match AFServerApp.response_thread_ s with
  | LoopTop =>
      Ok (s <| AFServerApp.response_thread_ :=
                 if AFServerApp.response_stop_ s then LoopLeft else InWaitAndPop |>)
  | InWaitAndPop =>
      match AFServerApp.response_queue_ s with
      | [] => Ok s
      | rsp :: q =>
          let s := s <| AFServerApp.response_queue_ := q |> in
          if AFServerApp.response_stop_ s then Ok (s <| AFServerApp.response_thread_ := LoopLeft |>)
          else
            kv ← kv_response wire_char SendMsg now (rsp_meta rsp) (rsp_pairs rsp) (AFServerApp.kv_ s);
            Ok (s <| AFServerApp.kv_ := kv |>
                  <| AFServerApp.events_ ::= (λ evs, match rsp_event rsp with
                                                     | Some i => AFTensor.Release i evs
                                                     | None => evs
                                                     end) |>
                  <| AFServerApp.response_thread_ := LoopTop |>)
      end
  | LoopLeft => Ok s
  end.

(** What [~AFTensorServer] does before it joins the thread. *)
Definition stop_server s : AFServerApp.t :=
  s <| AFServerApp.response_stop_ := true |>
    <| AFServerApp.response_queue_ ::=
         (λ q, q ++ [mkAFTensorResponse (KVMeta.mk 0 false 0 0 0 0 0 0 0 0 0 []) kvpairs0 None]) |>.

(** The messages [RegisterRecvTensor] hands to the van, one per rank; the memory
    at an address has the bytes [memory] says. *)
Fixpoint register_chunks (memory : Z → Z → list byte) (kv : KVServer.t) (l : list (Z * Z * Z * Z))
    : result (list Message.t) :=
  match l with
  | [] => Ok []
  | (rank, key, address, len) :: l' =>
      m ← register_message_with_rank wire_char kv rank
            (SArray.mk (key_address key) [key] DeviceType.CPU 0 DeviceType.CPU 0)
            (SArray.mk address (memory address len) DeviceType.CPU 0 DeviceType.CPU 0)
            (SArray.mk 0 [len] DeviceType.CPU 0 DeviceType.CPU 0) 0;
      ms ← register_chunks memory kv l';
      Ok (m :: ms)
  end.
End server_app.
