(* ===== verification/AFServer.v ===== *)
(** * Reassembly of tensor batches at the server

    The messages of a batch arrive in order, but batches of the same worker and
    of different workers may overlap in any way.  The theorem of this file
    shows that [AFTensorServer::KVHandler] hands every batch over exactly once,
    complete and in order. *)

From S2P Require Import Prelude Message Env Postoffice KVApp AFTensor.
Import AFTensorServer.

Abbreviation msg := (KVMeta.t * (Z * option Tensor))%type.
Implicit Types (m : msg) (b pre post : list msg).

(** ** Batches *)
Definition m_sender m : Z := KVMeta.sender m.1.
Definition m_ts m : Z := KVMeta.timestamp m.1.
Definition m_cmd m : Z := KVMeta.cmd m.1.
Definition stamp m : Z * Z := (m_sender m, m_ts m).

(** The messages of one batch: from one sender, with consecutive time stamps,
    marked as first, middle and last. *)
Definition batch_flag (n i : nat) : Z :=
  if decide (i = 0)%nat then AF_FLAG_BATCH_START
  else if decide (S i = n) then AF_FLAG_BATCH_END else AF_FLAG_BATCH_MIDDLE.

Record batch_wf b (sender t0 : Z) : Prop := {
  bw_length : (2 ≤ length b)%nat;
  bw_range : - 2 ^ 31 ≤ t0 ∧ t0 + Z.of_nat (length b) < 2 ^ 31;
  bw_msg : ∀ i m, b !! i = Some m →
    m_sender m = sender ∧ m_ts m = t0 + Z.of_nat i ∧ m_cmd m = batch_flag (length b) i
}.

(** The batch as the application gets it. *)
Definition meta_of b : AFTensorMeta.t :=
  foldl (λ a m, AFTensorMeta.Add m.1 m.2 a)
    (new_meta false (match b with m :: _ => m_sender m | [] => 0 end)) b.

Lemma meta_of_snoc pre m : pre ≠ [] → meta_of (pre ++ [m]) = AFTensorMeta.Add m.1 m.2 (meta_of pre).
Proof. intros Hne. unfold meta_of. rewrite foldl_app. by destruct pre. Qed.

Lemma meta_of_single m : meta_of [m] = AFTensorMeta.Add m.1 m.2 (new_meta false (m_sender m)).
Proof. done. Qed.

Lemma Add_sender k x a : AFTensorMeta.sender (AFTensorMeta.Add k x a) = AFTensorMeta.sender a.
Proof. unfold AFTensorMeta.Add. by destruct (KVMeta.push k). Qed.
Lemma Add_last k x a : AFTensorMeta.last_timestamp (AFTensorMeta.Add k x a) = KVMeta.timestamp k.
Proof. unfold AFTensorMeta.Add. by destruct (KVMeta.push k). Qed.

Lemma meta_of_sender m pre : AFTensorMeta.sender (meta_of (m :: pre)) = m_sender m.
Proof.
  unfold meta_of. generalize (m :: pre) as l. intros l.
  transitivity (AFTensorMeta.sender (new_meta false (m_sender m))); [|done].
  generalize (new_meta false (m_sender m)) as a. induction l as [|x l IH]; intros a; simpl; [done|].
  by rewrite IH, Add_sender.
Qed.

Lemma meta_of_last pre m : AFTensorMeta.last_timestamp (meta_of (pre ++ [m])) = m_ts m.
Proof. unfold meta_of. rewrite foldl_app. simpl. apply Add_last. Qed.

(** ** Overlapping batches *)

(** The batches under way: the messages that have arrived and those to come. *)
Abbreviation entry := (list msg * list msg)%type.
Implicit Types (e : entry) (bs rest : list entry).

Definition whole e : list msg := e.1 ++ e.2.
Definition is_open e : Prop := e.1 ≠ [] ∧ e.2 ≠ [].
Definition opens bs : list (list msg) := (filter is_open bs).*1.
Definition finished bs : list (list msg) := (filter (λ e, e.2 = []) bs).*1.

(** The next message of any of the batches arrives, again and again. *)
Inductive deliveries : list entry → list msg → list entry → Prop :=
| deliveries_nil bs : deliveries bs [] bs
| deliveries_cons bs pre m post rest tr bs' :
    bs ≡ₚ (pre, m :: post) :: rest →
    deliveries ((pre ++ [m], post) :: rest) tr bs' →
    deliveries bs (m :: tr) bs'.

Fixpoint handle_trace (tr : list msg) (s : t) : result (list af_action * t) :=
  match tr with
  | [] => Ok ([], s)
  | m :: tr' =>
      x ← KVHandler m.1 m.2 s;
      y ← handle_trace tr' x.2;
      Ok (x.1 ++ y.1, y.2)
  end.

Definition handled (acts : list af_action) : list AFTensorMeta.t :=
  omap (λ a, match a with Handle m => Some m | Respond _ => None end) acts.
Definition responded (acts : list af_action) : list KVMeta.t :=
  omap (λ a, match a with Respond r => Some r | Handle _ => None end) acts.

(** All batches are well formed and no two messages have the same sender and
    time stamp. *)
Definition run_ok bs : Prop :=
  Forall (λ e, ∃ sender t0, batch_wf (whole e) sender t0) bs ∧
  NoDup (stamp <$> concat (map whole bs)).

Lemma run_ok_perm bs bs' : bs ≡ₚ bs' → run_ok bs → run_ok bs'.
Proof.
  intros Hp [HF Hn]. split; [by rewrite <- Hp|].
  assert (concat (map whole bs) ≡ₚ concat (map whole bs')) as E.
  { clear -Hp. induction Hp; simpl; [done|by rewrite IHHp| |by etrans].
    by rewrite !app_assoc, (Permutation_app_comm (whole y)). }
  by rewrite <- E.
Qed.

(** The batches that are the current ones of their senders. *)
Definition currents (bd : gmap Z (option AFTensorMeta.t)) : list AFTensorMeta.t :=
  omap snd (map_to_list bd).

Lemma currents_delete bd k :
  currents bd ≡ₚ option_list (mjoin (bd !! k)) ++ currents (delete k bd).
Proof.
  unfold currents. destruct (bd !! k) as [o|] eqn:E.
  - rewrite <- (map_to_list_delete bd k o E). simpl. by destruct o.
  - simpl. by rewrite delete_id.
Qed.

Lemma currents_insert bd k o :
  currents (<[k := o]> bd) ≡ₚ option_list o ++ currents (delete k bd).
Proof. rewrite (currents_delete _ k), lookup_insert_eq, delete_insert_eq. by destruct o. Qed.

Lemma currents_elem bd x : x ∈ currents bd → ∃ k, bd !! k = Some (Some x).
Proof.
  unfold currents. intros ([k o] & Hin & Ho)%list_elem_of_omap. simpl in Ho. subst o.
  exists k. by apply elem_of_map_to_list.
Qed.

Lemma find_reorder_Some req l i x :
  find_reorder req l = Some (i, x) → l !! i = Some x ∧ continues req x = true.
Proof.
  revert i. induction l as [|y l IH]; intros i; simpl; [done|].
  destruct (continues req y) eqn:E; [by intros [= <- <-]|].
  destruct (find_reorder req l) as [[j z]|]; [|done]. intros [= <- <-]. by apply IH.
Qed.

Lemma find_reorder_None req l x : find_reorder req l = None → x ∈ l → continues req x = false.
Proof.
  induction l as [|y l IH]; simpl; [by intros _ ?%elem_of_nil|].
  destruct (continues req y) eqn:E; [done|]. destruct (find_reorder req l) as [[j z]|]; [done|].
  intros _ [->|Hx]%elem_of_cons; [done|by apply IH].
Qed.

(** The place of a message in its batch. *)
Lemma batch_place pre m post sender t0 :
  batch_wf (pre ++ m :: post) sender t0 →
  m_sender m = sender ∧ m_ts m = t0 + Z.of_nat (length pre) ∧
  m_cmd m = batch_flag (length pre + S (length post)) (length pre).
Proof.
  intros Hb. pose proof (bw_msg _ _ _ Hb (length pre) m) as H.
  rewrite length_app in H. apply H. by apply list_lookup_middle.
Qed.

Lemma batch_continues pre m post sender t0 :
  batch_wf (pre ++ m :: post) sender t0 → pre ≠ [] → continues m.1 (meta_of pre) = true.
Proof.
  intros Hb Hne. destruct (batch_place _ _ _ _ _ Hb) as (Hs & Ht & _).
  pose proof (bw_range _ _ _ Hb) as Hr. rewrite length_app in Hr. simpl in Hr.
  unfold continues. apply andb_true_iff. split; apply Z.eqb_eq.
  - destruct pre as [|m0 pre]; [done|]. rewrite meta_of_sender. fold (m_sender m). rewrite Hs.
    by apply (bw_msg _ _ _ Hb 0).
  - destruct pre as [|ml pre' _] using rev_ind; [done|]. rewrite meta_of_last.
    rewrite length_app in *. simpl in *. rewrite <- app_assoc in Hb. simpl in Hb.
    destruct (batch_place _ _ _ _ _ Hb) as (_ & Htl & _). fold (m_ts m).
    rewrite swrap_small; [lia|lia|]. unfold in_s. lia.
Qed.

(** A batch that a message continues has received the message with the time
    stamp before. *)
Lemma continues_stamp m pre' post' sender' t0' :
  batch_wf (pre' ++ post') sender' t0' → pre' ≠ [] → continues m.1 (meta_of pre') = true →
  ∃ ml, ml ∈ pre' ∧ m_sender ml = m_sender m ∧ m_ts ml + 1 = m_ts m.
Proof.
  intros Hb Hne Hc. pose proof (bw_range _ _ _ Hb) as Hr. rewrite length_app in Hr.
  destruct pre' as [|ml p' _] using rev_ind; [done|]. exists ml.
  rewrite <- app_assoc in Hb. simpl in Hb.
  destruct (batch_place _ _ _ _ _ Hb) as (Hs & Ht & _). rewrite length_app in Hr. simpl in Hr.
  unfold continues in Hc. apply andb_true_iff in Hc as [Hcs%Z.eqb_eq Hct%Z.eqb_eq].
  rewrite meta_of_last, swrap_small in Hct by (lia || unfold in_s; lia).
  split; [apply elem_of_app; right; by left|]. fold (m_ts m) in Hct. split; [|lia].
  fold (m_sender m) in Hcs. rewrite <- Hcs, Hs.
  destruct p' as [|m0 p']; simpl; rewrite meta_of_sender; [by rewrite Hs|].
  symmetry. by apply (bw_msg _ _ _ Hb 0).
Qed.

(** No other open batch is continued by a message. *)
Lemma others_not_continued pre m post rest x :
  run_ok ((pre, m :: post) :: rest) → pre ≠ [] → x ∈ map meta_of (opens rest) →
  continues m.1 x = false.
Proof.
  intros [HF Hn] Hne Hx. destruct (continues m.1 x) eqn:Hc; [|done]. exfalso.
  apply list_elem_of_fmap in Hx as (pre' & -> & Hpre').
  apply list_elem_of_fmap in Hpre' as ([p' post'] & -> & [[Ho _] He]%list_elem_of_filter).
  apply Forall_cons in HF as [(sender & t0 & Hb) HF]. rewrite Forall_forall in HF.
  destruct (HF _ He) as (sender' & t0' & Hb'). simpl in *. unfold whole in Hb, Hb'. simpl in Hb, Hb'.
  destruct (continues_stamp m p' post' sender' t0' Hb' Ho Hc) as (ml' & Hin' & Hs' & Ht').
  destruct (continues_stamp m pre (m :: post) sender t0 Hb Hne) as (ml & Hin & Hs & Ht).
  { by apply (batch_continues pre m post sender t0). }
  cbn [map concat] in Hn. rewrite fmap_app in Hn. apply NoDup_app in Hn as (_ & Hdis & _).
  apply (Hdis (stamp ml)).
  - apply list_elem_of_fmap_2. unfold whole. simpl. apply elem_of_app. by left.
  - replace (stamp ml) with (stamp ml') by (unfold stamp; f_equal; [congruence|lia]).
    apply list_elem_of_fmap_2. apply list_elem_of_In, in_concat. exists (whole (p', post')).
    split; [by apply in_map, list_elem_of_In|]. apply list_elem_of_In. unfold whole. simpl.
    apply elem_of_app. by left.
Qed.

(** The server's tables hold exactly the open batches. *)
Record tables (s : t) bs : Prop := {
  tab_open : reorder_buffer_ s ++ currents (batch_data_ s) ≡ₚ map meta_of (opens bs);
  tab_keys : ∀ k x, batch_data_ s !! k = Some (Some x) → AFTensorMeta.sender x = k
}.

Lemma opens_perm bs bs' : bs ≡ₚ bs' → opens bs ≡ₚ opens bs'.
Proof. intros Hp. unfold opens. by rewrite Hp. Qed.

Lemma tables_perm s bs bs' : bs ≡ₚ bs' → tables s bs → tables s bs'.
Proof. intros Hp [H1 H2]. split; [|done]. by rewrite H1, (opens_perm _ _ Hp). Qed.

Lemma opens_cons pre post rest :
  opens ((pre, post) :: rest) =
  if decide (pre ≠ [] ∧ post ≠ []) then pre :: opens rest else opens rest.
Proof. unfold opens. rewrite filter_cons. unfold is_open at 1 2. simpl. by case_decide. Qed.

(** What a message does to the tables and to the outside. *)
Definition step_result (s : t) pre m post rest : Prop :=
  ∃ acts s', KVHandler m.1 m.2 s = Ok (acts, s') ∧ tables s' ((pre ++ [m], post) :: rest) ∧
    handled acts = (if decide (post = []) then [meta_of (pre ++ [m])] else []) ∧
    responded acts = (if KVMeta.push m.1 then [m.1] else []).

Lemma step_start s m post rest sender t0 :
  batch_wf (m :: post) sender t0 → tables s (([], m :: post) :: rest) →
  step_result s [] m post rest.
Proof.
  intros Hb [Ho Hk]. destruct (batch_place [] m post sender t0 Hb) as (Hs & _ & Hc).
  pose proof (bw_length _ _ _ Hb) as Hl. simpl in Hl, Hc. unfold batch_flag in Hc.
  rewrite decide_True in Hc by done. unfold m_cmd in Hc. unfold step_result, KVHandler. rewrite Hc.
  change (AF_FLAG_BATCH_START =? 0) with false. rewrite Z.eqb_refl. cbv iota zeta.
  assert (post ≠ []) as Hpost by (destruct post; simpl in *; [lia|done]).
  eexists _, _. split; [reflexivity|]. split; [|split].
  - rewrite opens_cons, decide_False in Ho by (intros [? _]; done).
    split.
    + rewrite opens_cons, decide_True by done. cbn [batch_data_ reorder_buffer_ app map].
      rewrite meta_of_single, <- Ho, currents_insert. fold (m_sender m).
      rewrite (currents_delete (batch_data_ s) (m_sender m)).
      destruct (batch_data_ s !! m_sender m) as [[old|]|]; simpl; rewrite ?app_assoc;
        rewrite <- Permutation_middle; rewrite ?app_nil_r; rewrite <- ?app_assoc; done.
    + intros k x. cbn [batch_data_]. fold (m_sender m).
      assert (∀ k x, match batch_data_ s !! m_sender m with
        | Some (Some old) => AFTensorServer.mk (batch_data_ s) (reorder_buffer_ s ++ [old])
        | _ => s end.(batch_data_) !! k = Some (Some x) → AFTensorMeta.sender x = k) as Hk'.
      { destruct (batch_data_ s !! m_sender m) as [[?|]|]; exact Hk. }
      intros [[<- [= <-]]|[_ Hx]]%lookup_insert_Some; [|by apply Hk'].
      by rewrite Add_sender.
  - rewrite decide_False by done. by destruct (KVMeta.push m.1).
  - by destruct (KVMeta.push m.1).
Qed.

(** The open batches after a message that continues [pre]. *)
Lemma opens_continue pre m post rest :
  opens ((pre ++ [m], post) :: rest) =
  if decide (post = []) then opens rest else (pre ++ [m]) :: opens rest.
Proof.
  rewrite opens_cons. assert (pre ++ [m] ≠ []) by by destruct pre.
  destruct (decide (post = [])) as [->|]; [rewrite decide_False by tauto|rewrite decide_True by tauto]; done.
Qed.

Lemma erase_middle {A} (l1 l2 : list A) x : erase_at (length l1) (l1 ++ x :: l2) = l1 ++ l2.
Proof.
  unfold erase_at. rewrite take_app_length. f_equal.
  change (x :: l2) with ([x] ++ l2). rewrite app_assoc.
  apply drop_app_length'. rewrite length_app. simpl. lia.
Qed.

(** The command of a message that is not the first of its batch. *)
Lemma continue_cmd pre m post sender t0 :
  batch_wf (pre ++ m :: post) sender t0 → pre ≠ [] →
  (m_cmd m =? 0) = false ∧ (m_cmd m =? AF_FLAG_BATCH_START) = false ∧
  (m_cmd m =? AF_FLAG_BATCH_END) = bool_decide (post = []).
Proof.
  intros Hb Hne. destruct (batch_place pre m post sender t0 Hb) as (_ & _ & Hc).
  rewrite Hc. unfold batch_flag. rewrite decide_False by by destruct pre.
  case_decide as Hend; [rewrite bool_decide_eq_true_2|rewrite bool_decide_eq_false_2]; try done;
    destruct post; simpl in *; try done; lia.
Qed.

(** The batch is in the reorder buffer. *)
Lemma step_in_reorder s pre m post rest sender t0 l1 l2 :
  batch_wf (pre ++ m :: post) sender t0 → pre ≠ [] → tables s ((pre, m :: post) :: rest) →
  reorder_buffer_ s = l1 ++ meta_of pre :: l2 →
  find_reorder m.1 (reorder_buffer_ s) = Some (length l1, meta_of pre) →
  step_result s pre m post rest.
Proof.
  intros Hb Hne [Ho Hk] Hl Hf. rewrite opens_cons, decide_True in Ho by done. cbn [map] in Ho.
  destruct (continue_cmd pre m post sender t0 Hb Hne) as (E0 & E1 & E2).
  unfold step_result, KVHandler. fold (m_cmd m) (m_sender m). rewrite E0, E1, Hf. cbv zeta.
  rewrite <- meta_of_snoc by done. set (x' := meta_of (pre ++ [m])).
  assert ((l1 ++ l2) ++ currents (batch_data_ s) ≡ₚ map meta_of (opens rest)) as Ho'.
  { rewrite Hl in Ho. rewrite <- app_assoc in Ho |- *. simpl in Ho.
    rewrite <- Permutation_middle in Ho. by apply (Permutation_cons_inv (a := meta_of pre)). }
  assert (<[length l1 := x']> (reorder_buffer_ s) = l1 ++ x' :: l2) as ->.
  { rewrite Hl. by rewrite <- (Nat.add_0_r (length l1)), insert_app_r. }
  unfold finish_batch. rewrite E2. case_bool_decide as Hpost.
  - eexists _, _. split; [reflexivity|]. split; [|by destruct (KVMeta.push m.1); rewrite ?decide_True].
    split; [|done]. cbn [batch_data_ reorder_buffer_].
    by rewrite erase_middle, opens_continue, decide_True.
  - eexists _, _. split; [reflexivity|]. split; [|by destruct (KVMeta.push m.1); rewrite ?decide_False].
    split; [|done]. cbn [batch_data_ reorder_buffer_]. rewrite opens_continue, decide_False by done.
    cbn [map]. rewrite <- Ho', <- !app_assoc. simpl. by rewrite <- Permutation_middle.
Qed.

(** The batch is the current one of its sender. *)
Lemma step_in_current s pre m post rest sender t0 :
  batch_wf (pre ++ m :: post) sender t0 → pre ≠ [] → tables s ((pre, m :: post) :: rest) →
  find_reorder m.1 (reorder_buffer_ s) = None →
  batch_data_ s !! m_sender m = Some (Some (meta_of pre)) →
  step_result s pre m post rest.
Proof.
  intros Hb Hne [Ho Hk] Hf Hx. rewrite opens_cons, decide_True in Ho by done. cbn [map] in Ho.
  destruct (continue_cmd pre m post sender t0 Hb Hne) as (E0 & E1 & E2).
  unfold step_result, KVHandler. fold (m_cmd m) (m_sender m). rewrite E0, E1, Hf, Hx. cbv zeta.
  pose proof (Hk _ _ Hx) as Hsx. rewrite <- (Add_sender m.1 m.2), <- meta_of_snoc in Hsx by done.
  rewrite <- meta_of_snoc by done. set (x' := meta_of (pre ++ [m])) in *.
  assert (reorder_buffer_ s ++ currents (delete (m_sender m) (batch_data_ s)) ≡ₚ map meta_of (opens rest)) as Ho'.
  { rewrite (currents_delete _ (m_sender m)), Hx in Ho. simpl in Ho.
    rewrite <- Permutation_middle in Ho. by apply (Permutation_cons_inv (a := meta_of pre)). }
  unfold finish_batch. rewrite E2. case_bool_decide as Hpost.
  - eexists _, _. split; [reflexivity|]. split; [|by destruct (KVMeta.push m.1); rewrite ?decide_True].
    split; cbn [batch_data_ reorder_buffer_]; rewrite insert_insert_eq.
    + by rewrite currents_insert, opens_continue, decide_True.
    + intros k' y [[_ [=]]|[_ Hy]]%lookup_insert_Some. by apply Hk.
  - eexists _, _. split; [reflexivity|]. split; [|by destruct (KVMeta.push m.1); rewrite ?decide_False].
    split; cbn [batch_data_ reorder_buffer_].
    + rewrite currents_insert, opens_continue, decide_False by done. cbn [map].
      rewrite <- Ho'. simpl. by rewrite <- Permutation_middle.
    + intros k' y [[<- [= <-]]|[_ Hy]]%lookup_insert_Some; [done|by apply Hk].
Qed.

Lemma step_any s pre m post rest :
  run_ok ((pre, m :: post) :: rest) → tables s ((pre, m :: post) :: rest) →
  step_result s pre m post rest.
Proof.
  intros Hrun Htab. pose proof Hrun as [HF _]. apply Forall_cons in HF as [(sender & t0 & Hb) _].
  unfold whole in Hb. simpl in Hb.
  destruct (decide (pre = [])) as [->|Hne]; [by apply (step_start s m post rest sender t0)|].
  pose proof (tab_open _ _ Htab) as Ho. rewrite opens_cons, decide_True in Ho by done. cbn [map] in Ho.
  destruct (find_reorder m.1 (reorder_buffer_ s)) as [[i y]|] eqn:Ef.
  - pose proof (find_reorder_Some _ _ _ _ Ef) as [Hi Hcont].
    assert (y = meta_of pre) as ->.
    { assert (y ∈ meta_of pre :: map meta_of (opens rest)) as [->|Hy]%elem_of_cons; [|done|].
      - rewrite <- Ho. apply elem_of_app. left. by apply list_elem_of_lookup_2 with i.
      - by rewrite (others_not_continued pre m post rest y Hrun Hne Hy) in Hcont. }
    apply list_elem_of_split_length in Hi as (l1 & l2 & Hl & ->).
    by apply (step_in_reorder s pre m post rest sender t0 l1 l2).
  - assert (meta_of pre ∈ currents (batch_data_ s)) as [k Hx]%currents_elem.
    { assert (meta_of pre ∈ reorder_buffer_ s ++ currents (batch_data_ s)) as [Hx|Hx]%elem_of_app;
        [|exfalso|done].
      - rewrite Ho. by left.
      - pose proof (find_reorder_None _ _ _ Ef Hx) as Hf.
        by rewrite (batch_continues pre m post sender t0) in Hf. }
    apply (step_in_current s pre m post rest sender t0); [done..|].
    assert (m_sender m = k) as ->; [|done].
    rewrite <- (tab_keys _ _ Htab k _ Hx). destruct pre as [|m0 pre]; [done|]. rewrite meta_of_sender.
    destruct (batch_place _ _ _ _ _ Hb) as (-> & _). symmetry. by apply (bw_msg _ _ _ Hb 0).
Qed.

Lemma finished_cons pre post rest :
  finished ((pre, post) :: rest) =
  if decide (post = []) then pre :: finished rest else finished rest.
Proof. unfold finished. rewrite filter_cons. simpl. by case_decide. Qed.

Lemma deliveries_handled bs tr bs' s :
  deliveries bs tr bs' → run_ok bs → tables s bs →
  ∃ acts s', handle_trace tr s = Ok (acts, s') ∧ tables s' bs' ∧
    handled acts ++ map meta_of (finished bs) ≡ₚ map meta_of (finished bs') ∧
    responded acts = map fst (filter (λ m, KVMeta.push m.1) tr).
Proof.
  intros Hd. revert s. induction Hd as [bs|bs pre m post rest tr bs' Hp Hd IH]; intros s Hrun Htab.
  { by exists [], s. }
  apply (run_ok_perm _ _ Hp) in Hrun. apply (tables_perm _ _ _ Hp) in Htab.
  destruct (step_any s pre m post rest Hrun Htab) as (acts & s1 & Hk & Htab1 & Hh & Hr).
  destruct (IH s1) as (acts' & s' & Ht & Htab' & Hh' & Hr'); [|done|].
  { destruct Hrun as [HF Hn]. unfold run_ok. cbn [map concat whole fst snd] in *.
    rewrite Forall_cons in HF |- *. unfold whole in *. simpl in *. by rewrite <- app_assoc. }
  exists (acts ++ acts'), s'. cbn [handle_trace]. rewrite Hk. cbn [mbind result_bind fst snd].
  rewrite Ht. split; [done|]. split; [done|]. split.
  - unfold handled in *. rewrite omap_app, Hh, <- Hh'.
    assert (finished bs ≡ₚ finished ((pre, m :: post) :: rest)) as -> by (unfold finished; by rewrite Hp).
    rewrite !finished_cons. rewrite (decide_False (P := m :: post = [])) by done.
    destruct (decide (post = [])); simpl; [apply Permutation_middle|done].
  - unfold responded in *. rewrite omap_app, Hr, Hr', filter_cons.
    destruct (KVMeta.push m.1) eqn:E; [rewrite decide_True by done|rewrite decide_False by exact id]; done.
Qed.

(** C17. Overlapping batches are kept apart: whatever way the batches of any
    number of workers overlap, as long as the messages of each batch arrive in
    order, the server accepts every message, answers each push at once, hands
    over exactly the batches that are complete, each once and with all its
    messages in order, and keeps exactly the incomplete ones. *)
Theorem overlapping_batches_reassembled (batches : list (list msg)) tr bs' :
  let bs := map (pair []) batches in
  run_ok bs → deliveries bs tr bs' →
  ∃ acts s, handle_trace tr AFTensorServer.new = Ok (acts, s) ∧
    handled acts ≡ₚ map meta_of (finished bs') ∧
    responded acts = map fst (filter (λ m, KVMeta.push m.1) tr) ∧
    reorder_buffer_ s ++ currents (batch_data_ s) ≡ₚ map meta_of (opens bs').
Proof.
  intros bs Hrun Hd.
  assert (opens bs = []) as Eo.
  { unfold bs. clear. induction batches as [|b l IH]; [done|]. cbn [map]. rewrite opens_cons.
    by rewrite decide_False by tauto. }
  assert (finished bs = []) as Ef.
  { destruct Hrun as [HF _]. unfold bs in *. clear -HF. induction batches as [|b l IH]; [done|].
    cbn [map] in *. apply Forall_cons in HF as [(s0 & t0 & Hb) HF]. rewrite finished_cons.
    pose proof (bw_length _ _ _ Hb) as Hl. unfold whole in Hl. simpl in Hl.
    rewrite decide_False by (intros ->; simpl in Hl; lia). by apply IH. }
  destruct (deliveries_handled bs tr bs' AFTensorServer.new Hd Hrun) as (acts & s & H1 & H2 & H3 & H4).
  { split; [by rewrite Eo|]. intros k x. simpl. by rewrite lookup_empty. }
  exists acts, s. rewrite Ef, app_nil_r in H3. split; [done|]. split; [done|]. split; [done|].
  apply (tab_open _ _ H2).
Qed.

(** Two batches of worker 9: the second one starts after the first message of
    the first one and ends before it. *)
Definition demo_part (ts cmd : Z) (push : bool) : msg :=
  (KVMeta.mk cmd push 9 ts 0 ts 0 0 0 1 0 [], (ts, None)).
Definition demo_batch1 : list msg := [demo_part 0 1 true; demo_part 1 2 true; demo_part 2 3 false].
Definition demo_batch2 : list msg := [demo_part 3 1 true; demo_part 4 3 false].

Lemma demo_batches_ok : run_ok (map (pair []) [demo_batch1; demo_batch2]).
Proof.
  split; [|apply (bool_decide_unpack _); vm_compute; exact I].
  constructor; [exists 9, 0|constructor; [exists 9, 3|constructor]]; (split; [simpl; lia|simpl; lia|]);
    intros i m Hi; repeat (destruct i as [|i]; [injection Hi as <-; done|]); done.
Qed.

Lemma overlapping_batches_reassembled_witness :
  ∃ acts s, handle_trace [demo_part 0 1 true; demo_part 3 1 true; demo_part 1 2 true; demo_part 4 3 false]
      AFTensorServer.new = Ok (acts, s) ∧
    handled acts ≡ₚ [meta_of demo_batch2] ∧
    reorder_buffer_ s ++ currents (batch_data_ s) ≡ₚ [meta_of [demo_part 0 1 true; demo_part 1 2 true]].
Proof.
  destruct (overlapping_batches_reassembled [demo_batch1; demo_batch2]
    [demo_part 0 1 true; demo_part 3 1 true; demo_part 1 2 true; demo_part 4 3 false]
    [(demo_batch2, []); ([demo_part 0 1 true; demo_part 1 2 true], [demo_part 2 3 false])])
    as (acts & s & H1 & H2 & _ & H3); [apply demo_batches_ok| |].
  - eapply (deliveries_cons _ [] (demo_part 0 1 true) (tail demo_batch1) [([], demo_batch2)]);
      [reflexivity|]. eapply deliveries_cons; [apply Permutation_swap|].
    eapply deliveries_cons; [apply Permutation_swap|]. eapply deliveries_cons; [apply Permutation_swap|].
    apply deliveries_nil.
  - exists acts, s. split; [exact H1|]. split; [exact H2|exact H3].
Defined.
