(* ===== verification/AFWorker.v ===== *)
(** * What a tensor worker sends

    The messages of [AFTensorWorker::ZBatchPushPull_]: every server gets the
    same pushes and its own share of the pulls, marked and stamped as one
    batch, so that the server can put the batch together. *)

From S2P Require Import Prelude Message Env Postoffice Van VanFacts Customer Slicer KVApp KVFacts AFTensor AFServer.
Import Van Customer KVPairs KVWorker.

(** One message of a batch: receiver, time stamp, command, direction, tensor. *)
Record item : Type := mkItem {
  it_server : Z; it_ts : Z; it_cmd : Z; it_push : bool; it_tensor : KeyTensor
}.

Section worker.
Context (SendMsg : Message.t → Z) (tensor_bytes : Tensor → list byte) (key_address : Z → Z).
Context (Hsend : ∀ m, 0 < SendMsg m).
Implicit Types w : KVWorker.t byte.

Definition server_id w (r : Z) : Z :=
  GroupServerRankToInstanceID (Postoffice.group_size_ (postoffice_ (van w))) r (instance_idx_ w).

(** [msg] is the message of [it]. *)
Definition is_message w (it : item) (msg : Message.t) : Prop :=
  let m := Message.meta msg in
  Meta.recver m = server_id w (it_server it) ∧ Meta.timestamp m = it_ts it ∧
  Meta.head m = it_cmd it ∧ Meta.push m = it_push it ∧ Meta.request m = true ∧
  Meta.simple_app m = false ∧ Meta.key m = kt_key (it_tensor it).

(** What sending leaves alone. *)
Definition kept w w' : Prop :=
  obj_ w' = obj_ w ∧ instance_idx_ w' = instance_idx_ w ∧
  postoffice_ (van w') = postoffice_ (van w) ∧ resender_ (van w') = None.

(** [w'] is [w] after the messages of [its] have been sent. *)
Definition sends w (its : list item) w' : Prop :=
  kept w w' ∧ ∃ msgs, log (van w') = log (van w) ++ map Sent msgs ∧ Forall2 (is_message w) its msgs.

Lemma sends_nil w : resender_ (van w) = None → sends w [] w.
Proof. intros Hr. split; [done|]. exists []. by rewrite app_nil_r. Qed.

Lemma sends_app w its w1 its' w2 : sends w its w1 → sends w1 its' w2 → sends w (its ++ its') w2.
Proof.
  intros [(Ho & Hi & Hp & Hr) (ms & Hl & HF)] [(Ho' & Hi' & Hp' & Hr') (ms' & Hl' & HF')]. split.
  - repeat split; congruence.
  - exists (ms ++ ms'). rewrite Hl', Hl, map_app, app_assoc. split; [done|]. apply Forall2_app; [done|].
    eapply Forall2_impl; [exact HF'|]. intros it m. unfold is_message, server_id. by rewrite Hp, Hi.
Qed.

Lemma sends_kept w its w' : sends w its w' → kept w w'.
Proof. by intros [H _]. Qed.

Lemma tensor_meta_fields ts cmd push key t :
  let a := tensor_meta ts cmd push key t in
  Meta.data_type a = [] ∧ Meta.timestamp a = ts ∧ Meta.head a = cmd ∧ Meta.push a = push ∧
  Meta.request a = true ∧ Meta.simple_app a = false ∧ Meta.key a = key.
Proof. by repeat split. Qed.

Lemma tensor_message_Ok ts cmd push kt :
  ∃ msg, tensor_message tensor_bytes key_address ts cmd push kt = Ok msg ∧
    same_route (tensor_meta ts cmd push (kt_key kt) (kt_val kt)) (Message.meta msg).
Proof.
  destruct (tensor_meta_fields ts cmd push (kt_key kt) (kt_val kt)) as [E _].
  unfold tensor_message, AddArray.
  match goal with |- context [Message.AddData ?d ?a (Message.mk ?m [])] =>
    destruct (AddData_route d a (Message.mk m [])) as (m1 & -> & L1 & D1 & R1) end.
  { cbn [Message.data Message.meta]. by rewrite E. }
  cbn [mbind result_bind].
  match goal with |- context [Message.AddData ?d ?a m1] =>
    destruct (AddData_route d a m1 L1) as (m2 & -> & _ & _ & R2) end.
  exists m2. split; [done|]. by eapply same_route_trans.
Qed.

Lemma send_item now msg it w :
  resender_ (van w) = None →
  same_route (tensor_meta (it_ts it) (it_cmd it) (it_push it) (kt_key (it_tensor it)) (kt_val (it_tensor it)))
    (Message.meta msg) →
  ∃ w', worker_send_msg SendMsg now msg (it_server it) w = Ok w' ∧ sends w [it] w'.
Proof using Hsend.
  intros Hr HR. unfold worker_send_msg. fold (server_id w (it_server it)).
  match goal with |- context [Send SendMsg now ?x (van w)] => set (m := x) end.
  destruct (Send_plain SendMsg now m (van w) Hsend Hr) as (v' & -> & Hl & Hr' & Hp).
  cbn [mbind result_bind snd]. eexists. split; [reflexivity|]. split; [done|].
  exists [m]. split; [exact Hl|]. constructor; [|constructor].
  destruct (tensor_meta_fields (it_ts it) (it_cmd it) (it_push it) (kt_key (it_tensor it)) (kt_val (it_tensor it)))
    as (_ & E1 & E2 & E3 & E4 & E5 & E6).
  destruct HR as (_ & _ & R1 & _ & R4 & R3 & R5 & R2 & _ & _ & _ & R6).
  unfold is_message. subst m. cbn [Message.meta].
  split; [reflexivity|]. split_and!; etransitivity; [|eassumption| |eassumption| |eassumption| |eassumption
    | |eassumption| |eassumption]; assumption.
Qed.

Lemma server_count_kept w w' : kept w w' → server_count w' = server_count w.
Proof. intros (_ & _ & Hp & _). unfold server_count. by rewrite Hp. Qed.

Lemma kept_plain w w' : kept w w' → resender_ (van w') = None.
Proof. by intros (_ & _ & _ & H). Qed.

Lemma broadcast_Ok now msg ts cmd kt servers w :
  resender_ (van w) = None →
  same_route (tensor_meta ts cmd true (kt_key kt) (kt_val kt)) (Message.meta msg) →
  ∃ w', broadcast SendMsg now msg servers w = Ok w' ∧
    sends w (map (λ r, mkItem r ts cmd true kt) servers) w'.
Proof using Hsend.
  intros Hr HR. revert w Hr. induction servers as [|r servers IH]; intros w Hr; cbn [broadcast map].
  { exists w. split; [done|]. by apply sends_nil. }
  destruct (send_item now msg (mkItem r ts cmd true kt) w Hr HR) as (w1 & E & S1).
  cbn [it_server] in E. rewrite E.
  cbn [mbind result_bind]. destruct (IH w1) as (w' & -> & S2); [by eapply kept_plain, sends_kept|].
  exists w'. split; [done|]. by apply (sends_app w [mkItem r ts cmd true kt] w1).
Qed.

Lemma ZPush_Ok now ts kt cmd w :
  resender_ (van w) = None →
  ∃ w', ZPush_ SendMsg tensor_bytes key_address now ts kt cmd w = Ok w' ∧
    sends w (map (λ r, mkItem r ts cmd true kt) (seqZ 0 (server_count w))) w'.
Proof using Hsend.
  intros Hr. unfold ZPush_. destruct (tensor_message_Ok ts cmd true kt) as (msg & -> & HR).
  cbn [mbind result_bind]. by apply broadcast_Ok.
Qed.

Lemma AddCallback_kept ts cb w w' : kept w w' → kept w (AddCallback ts cb w').
Proof. unfold kept, AddCallback. by destruct cb. Qed.

Lemma sends_callback w its w' ts cb : sends w its w' → sends w its (AddCallback ts cb w').
Proof. intros [Hk Hm]. split; [by apply AddCallback_kept|]. unfold AddCallback. by destruct cb. Qed.

Lemma pull_one_Ok now ts pulls batch index cmd r w kt :
  resender_ (van w) = None → vec_index pulls (r * batch + index) = Ok kt →
  ∃ w', pull_one SendMsg tensor_bytes key_address now ts pulls batch index cmd r w = Ok w' ∧
    sends w [mkItem r ts cmd false kt] w'.
Proof using Hsend.
  intros Hr Hv. unfold pull_one.
  destruct (tensor_message_Ok ts cmd false kt) as (msg & E & HR).
  destruct (send_item now msg (mkItem r ts cmd false kt) w Hr HR) as (w1 & E1 & S1).
  cbn [it_server] in E1. exists (AddCallback ts (Some (EraseCallback ts)) w1).
  split; [|by apply sends_callback].
  rewrite (bind_eq _ _ _ Hv), (bind_eq _ _ _ E). exact (bind_eq _ _ _ E1).
Qed.

Lemma pull_from_Ok now ts pulls batch index cmd servers w (kt : Z → KeyTensor) :
  resender_ (van w) = None →
  (∀ r, r ∈ servers → vec_index pulls (r * batch + index) = Ok (kt r)) →
  ∃ w', pull_from SendMsg tensor_bytes key_address now ts pulls batch index cmd servers w = Ok w' ∧
    sends w (map (λ r, mkItem r ts cmd false (kt r)) servers) w'.
Proof using Hsend.
  revert w. induction servers as [|r servers IH]; intros w Hr Hv; cbn [pull_from map].
  { exists w. split; [done|]. by apply sends_nil. }
  destruct (pull_one_Ok now ts pulls batch index cmd r w (kt r) Hr) as (w1 & E & S1); [apply Hv; left|].
  destruct (IH w1) as (w' & E' & S2); [by eapply kept_plain, sends_kept|intros; apply Hv; by right|].
  exists w'. rewrite E. cbn [mbind result_bind]. split; [exact E'|].
  exact (sends_app w [mkItem r ts cmd false (kt r)] w1 _ w' S1 S2).
Qed.

(** The messages of the pushes: push [i] goes to all [n] servers. *)
Definition push_items (n num_push : Z) (no_pulls : bool) (stamps : Z → Z) (i : Z)
    (pushes : list KeyTensor) : list item :=
  concat (imap (λ k kt, map (λ r, mkItem r (stamps (i + Z.of_nat k))
                          (push_flag (i + Z.of_nat k) num_push no_pulls) true kt) (seqZ 0 n)) pushes).

(** ... and of the pulls: row [i] asks server [r] for tensor [kt r i]. *)
Definition pull_items (n batch : Z) (first : bool) (stamps : Z → Z) (kt : Z → Z → KeyTensor)
    (rows : list Z) : list item :=
  concat (map (λ i, map (λ r, mkItem r (stamps i) (pull_flag first i batch) false (kt r i)) (seqZ 0 n)) rows).

Lemma push_all_Ok now num_push no_pulls i pushes stamps f w :
  resender_ (van w) = None →
  (∀ k, i ≤ k < i + Z.of_nat (length pushes) → vec_index stamps k = Ok (f k)) →
  ∃ w', push_all_tensors SendMsg tensor_bytes key_address now num_push no_pulls i pushes stamps w = Ok w' ∧
    sends w (push_items (server_count w) num_push no_pulls f i pushes) w'.
Proof using Hsend.
  revert i w. induction pushes as [|kt pushes IH]; intros i w Hr Hf; cbn [push_all_tensors].
  { exists w. split; [done|]. by apply sends_nil. }
  cbn [length] in Hf. rewrite (bind_eq _ _ (f i)) by (apply Hf; lia).
  destruct (ZPush_Ok now (f i) kt (push_flag i num_push no_pulls) w Hr) as (w1 & E & S1).
  rewrite (bind_eq _ _ _ E). pose proof (sends_kept _ _ _ S1) as K1.
  destruct (IH (i + 1) w1 (kept_plain _ _ K1)) as (w' & E' & S2); [intros; apply Hf; lia|].
  exists w'. split; [exact E'|]. unfold push_items. rewrite imap_cons. cbn [concat].
  replace (i + Z.of_nat 0) with i by lia. eapply sends_app; [exact S1|].
  rewrite (server_count_kept _ _ K1) in S2. unfold push_items in S2.
  assert (∀ A (g1 g2 : nat → KeyTensor → A) l, (∀ k x, g1 k x = g2 k x) → imap g1 l = imap g2 l) as Hext.
  { intros A g1 g2 l Hg. by apply imap_ext. }
  erewrite Hext; [exact S2|]. intros k x. simpl.
  by replace (i + Z.of_nat (S k)) with (i + 1 + Z.of_nat k) by lia.
Qed.

Lemma pull_all_Ok now first batch rows pulls stamps f kt w :
  resender_ (van w) = None → batch = Z.quot (Z.of_nat (length pulls)) (server_count w) →
  (∀ i, i ∈ rows → vec_index stamps i = Ok (f i)) →
  (∀ i r, i ∈ rows → r ∈ seqZ 0 (server_count w) → vec_index pulls (r * batch + i) = Ok (kt r i)) →
  ∃ w', pull_all_tensors SendMsg tensor_bytes key_address now first batch rows pulls stamps w = Ok w' ∧
    sends w (pull_items (server_count w) batch first f kt rows) w'.
Proof using Hsend.
  revert w. induction rows as [|i rows IH]; intros w Hr Hb Hf Hk; cbn [pull_all_tensors].
  { exists w. split; [done|]. by apply sends_nil. }
  rewrite (bind_eq _ _ (f i)) by (apply Hf; left). unfold ZPull_. rewrite <- Hb.
  destruct (pull_from_Ok now (f i) pulls batch i (pull_flag first i batch) (seqZ 0 (server_count w)) w
    (λ r, kt r i) Hr) as (w1 & E & S1); [intros; apply Hk; [left|done]|].
  rewrite (bind_eq _ _ _ E). pose proof (sends_kept _ _ _ S1) as K1.
  pose proof (server_count_kept _ _ K1) as Ec.
  destruct (IH w1 (kept_plain _ _ K1)) as (w' & E' & S2);
    [by rewrite Ec|intros; apply Hf; by right|rewrite Ec; intros; apply Hk; [by right|done]|].
  exists w'. split; [exact E'|]. rewrite Ec in S2. by eapply sends_app.
Qed.

(** ** One server's share *)

(** The share of server [r]: all pushes, then tensors [r * nb ...] of the pulls. *)
Definition share (stamps : Z → Z) (np nb : nat) (pushes : list KeyTensor) (kt : Z → Z → KeyTensor)
    (r : Z) : list item :=
  imap (λ k x, mkItem r (stamps (Z.of_nat k)) (batch_flag (np + nb) k) true x) pushes ++
  map (λ i, mkItem r (stamps (Z.of_nat np + i)) (batch_flag (np + nb) (np + Z.to_nat i)) false (kt r i))
    (seqZ 0 (Z.of_nat nb)).

Lemma filter_row (P : item → Prop) `{∀ x, Decision (P x)} (g : Z → item) n r :
  0 ≤ r < n → (∀ r', 0 ≤ r' < n → P (g r') ↔ r' = r) → filter P (map g (seqZ 0 n)) = [g r].
Proof using.
  intros Hr HP. replace n with (r + (1 + (n - r - 1))) by lia.
  rewrite (seqZ_app 0 r), (seqZ_app (0 + r) 1), !map_app, !filter_app by lia.
  assert (∀ l, (∀ r', r' ∈ l → 0 ≤ r' < n ∧ r' ≠ r) → filter P (map g l) = []) as Hno.
  { intros l Hl. induction l as [|x l IH]; [done|]. cbn [map]. rewrite filter_cons, decide_False.
    - apply IH. intros. apply Hl. by right.
    - destruct (Hl x) as [Hx Hne]; [left|]. by rewrite HP. }
  rewrite (Hno (seqZ 0 r)), (Hno (seqZ (0 + r + 1) _)) by (intros r' ?%elem_of_seqZ; lia).
  rewrite app_nil_r. assert (seqZ (0 + r) 1 = [r]) as -> by (rewrite seqZ_cons by lia; simpl; f_equal; lia).
  cbn [map app]. rewrite filter_cons, decide_True; [done|].
  by rewrite HP.
Qed.

(** The servers have different ids. *)
Definition servers_distinct w : Prop :=
  let gs := Postoffice.group_size_ (postoffice_ (van w)) in
  0 ≤ instance_idx_ w < gs ∧ server_count w * gs < 2 ^ 30 - 8.

Lemma server_id_inj w r r' :
  servers_distinct w → 0 ≤ r < server_count w → 0 ≤ r' < server_count w →
  server_id w r' = server_id w r ↔ r' = r.
Proof using.
  intros [Hi Hb] Hr Hr'. split; [|by intros ->]. unfold server_id, GroupServerRankToInstanceID.
  set (gs := Postoffice.group_size_ _) in *.
  assert (∀ x, 0 ≤ x < server_count w → rank_ok (x * gs + instance_idx_ w)) as Hok.
  { intros x Hx. unfold rank_ok. nia. }
  assert (∀ x, 0 ≤ x < server_count w → i32 (x * gs + instance_idx_ w) = x * gs + instance_idx_ w) as E.
  { intros x Hx. pose proof (Hok x Hx) as Hx'. unfold rank_ok in Hx'. apply swrap_small; [lia|]. word_lia. }
  rewrite !E, !ServerRankToID_eq by (done || by apply Hok). nia.
Qed.

Lemma pull_flag_batch np nb i :
  (2 ≤ np + nb)%nat → 0 ≤ i < Z.of_nat nb →
  pull_flag (bool_decide (np = 0%nat)) i (Z.of_nat nb) = batch_flag (np + nb) (np + Z.to_nat i).
Proof using.
  intros H2 Hi. unfold pull_flag, batch_flag.
  destruct (Z.eqb_spec i 0), (Z.eqb_spec i (Z.of_nat nb - 1)); repeat case_decide; case_bool_decide;
    simpl; (done || lia).
Qed.

Lemma push_flag_batch np nb k :
  (2 ≤ np + nb)%nat → (k < np)%nat →
  push_flag (Z.of_nat k) (Z.of_nat np) (bool_decide (nb = 0%nat)) = batch_flag (np + nb) k.
Proof using.
  intros H2 Hi. unfold push_flag, batch_flag.
  destruct (Z.eqb_spec (Z.of_nat k) 0), (Z.eqb_spec (Z.of_nat k) (Z.of_nat np - 1));
    repeat case_decide; try case_bool_decide; simpl; (done || lia).
Qed.

(** What is sent to server [r]. *)
Definition sent_to w r (msgs : list Message.t) : list Message.t :=
  filter (λ m, Meta.recver (Message.meta m) = server_id w r) msgs.

Lemma share_of_items w np nb pushes stamps kt r :
  servers_distinct w → (2 ≤ np + nb)%nat → np = length pushes → 0 ≤ r < server_count w →
  filter (λ it, server_id w (it_server it) = server_id w r)
    (push_items (server_count w) (Z.of_nat np) (bool_decide (nb = 0%nat)) stamps 0 pushes ++
     pull_items (server_count w) (Z.of_nat nb) (bool_decide (np = 0%nat)) (λ i, stamps (Z.of_nat np + i)) kt
       (seqZ 0 (Z.of_nat nb))) =
  share stamps np nb pushes kt r.
Proof using.
  intros Hd H2 Hnp Hr. rewrite filter_app. unfold share, push_items, pull_items. f_equal.
  - apply filter_concat_imap. intros k x Hk. rewrite <- (push_flag_batch np nb k) by lia.
    rewrite (filter_row _ _ (server_count w) r Hr); [done|]. intros r' Hr'. simpl. by apply server_id_inj.
  - rewrite (filter_concat _ _ (λ i, mkItem r (stamps (Z.of_nat np + i))
      (batch_flag (np + nb) (np + Z.to_nat i)) false (kt r i))); [done|].
    intros i Hi%elem_of_seqZ. rewrite <- pull_flag_batch by lia.
    rewrite (filter_row _ _ (server_count w) r Hr); [done|]. intros r' Hr'. simpl. by apply server_id_inj.
Qed.

(** The rows of a request: one pull of every server per row. *)
Definition rows (n : Z) (req : AFTensorRequest) : nat :=
  Z.to_nat (Z.quot (Z.of_nat (length (req_pull req))) n).

(** The time stamps are consecutive, one for every push and every row, and the
    pulls, if any, fill at least one row. *)
Record request_ok w (req : AFTensorRequest) (t0 : Z) : Prop := {
  ro_servers : 0 < server_count w;
  ro_size : (2 ≤ length (req_push req) + rows (server_count w) req)%nat;
  ro_rows : req_pull req = [] ∨ (1 ≤ rows (server_count w) req)%nat;
  ro_push : push_timestamps req = seqZ t0 (Z.of_nat (length (req_push req)));
  ro_pull : pull_timestamps req =
    seqZ (t0 + Z.of_nat (length (req_push req))) (Z.of_nat (rows (server_count w) req))
}.

Lemma vec_index_seqZ a n i : 0 ≤ i < n → vec_index (seqZ a n) i = Ok (a + i).
Proof using.
  intros Hi. unfold vec_index. rewrite (proj2 (Z.leb_le 0 i)) by lia.
  rewrite lookup_seqZ_lt by lia. simpl. f_equal. lia.
Qed.

Lemma vec_index_in {A} (d : A) l i : 0 ≤ i < Z.of_nat (length l) → vec_index l i = Ok (nth (Z.to_nat i) l d).
Proof using.
  intros Hi. unfold vec_index. rewrite (proj2 (Z.leb_le 0 i)) by lia.
  destruct (lookup_lt_is_Some_2 l (Z.to_nat i)) as [x Hx]; [lia|]. rewrite Hx. simpl. f_equal.
  symmetry. by apply nth_lookup_Some.
Qed.

(** Tensor [i] of server [r]'s share of the pulls. *)
Definition share_pull (pulls : list KeyTensor) (nb : nat) (r i : Z) : KeyTensor :=
  nth (Z.to_nat (r * Z.of_nat nb + i)) pulls (mkKeyTensor 0 (mkTensor 0 0 [] 0)).

Lemma rows_quot n req : 0 < n → Z.of_nat (rows n req) = Z.quot (Z.of_nat (length (req_pull req))) n.
Proof using. intros Hn. unfold rows. rewrite Z2Nat.id; [done|]. apply Z.quot_pos; lia. Qed.

Lemma rows_fit n req r i :
  0 < n → 0 ≤ r < n → 0 ≤ i < Z.of_nat (rows n req) →
  0 ≤ r * Z.of_nat (rows n req) + i < Z.of_nat (length (req_pull req)).
Proof using.
  intros Hn Hr Hi. pose proof (rows_quot n req Hn) as E. rewrite Z.quot_div_nonneg in E by lia.
  pose proof (Z.mul_div_le (Z.of_nat (length (req_pull req))) n Hn). nia.
Qed.

Lemma send_batch_Ok now req w t0 :
  resender_ (van w) = None → request_ok w req t0 →
  let np := length (req_push req) in
  let nb := rows (server_count w) req in
  ∃ w', send_batch SendMsg tensor_bytes key_address now req w = Ok w' ∧
    sends w (push_items (server_count w) (Z.of_nat np) (bool_decide (nb = 0%nat)) (Z.add t0) 0 (req_push req) ++
       pull_items (server_count w) (Z.of_nat nb) (bool_decide (np = 0%nat)) (λ i, t0 + (Z.of_nat np + i))
         (share_pull (req_pull req) nb) (seqZ 0 (Z.of_nat nb))) w'.
Proof using Hsend.
  intros Hr [Hn H2 Hrow Hpu Hpl] np nb. unfold send_batch.
  pose proof (rows_quot _ req Hn) as Hq. fold nb in H2, Hrow, Hpl, Hq.
  assert (nb ≤ length (req_pull req))%nat as Hle.
  { apply Nat2Z.inj_le. rewrite Hq. apply Z.quot_le_upper_bound; nia. }
  rewrite (proj2 (Z.leb_le _ _)), (proj2 (Z.ltb_lt _ _)), (proj2 (Nat.eqb_neq _ _)) by lia.
  assert (bool_decide (req_pull req = []) = bool_decide (nb = 0%nat)) as ->.
  { apply bool_decide_ext. split; [intros E; rewrite E in Hle; simpl in Hle; lia|]. destruct Hrow; [done|lia]. }
  assert (bool_decide (req_push req = []) = bool_decide (np = 0%nat)) as ->.
  { apply bool_decide_ext. unfold np. by rewrite length_zero_iff_nil. }
  destruct (push_all_Ok now (Z.of_nat np) (bool_decide (nb = 0%nat)) 0 (req_push req) (push_timestamps req)
    (Z.add t0) w Hr) as (w1 & E1 & S1).
  { intros k Hk. rewrite Hpu. apply vec_index_seqZ. lia. }
  pose proof (sends_kept _ _ _ S1) as K1. pose proof (server_count_kept _ _ K1) as Ec.
  destruct (pull_all_Ok now (bool_decide (np = 0%nat)) (Z.of_nat nb) (seqZ 0 (Z.of_nat nb)) (req_pull req)
    (pull_timestamps req) (λ i, t0 + (Z.of_nat np + i)) (share_pull (req_pull req) nb) w1 (kept_plain _ _ K1))
    as (w' & E2 & S2).
  { by rewrite Ec. }
  { intros i Hi%elem_of_seqZ. rewrite Hpl, vec_index_seqZ by lia. f_equal. unfold np. lia. }
  { rewrite Ec. intros i r Hi%elem_of_seqZ Hr'%elem_of_seqZ. apply vec_index_in. apply rows_fit; lia. }
  exists w'. rewrite (bind_eq _ _ _ E1), <- Hq. split; [exact E2|].
  rewrite Ec in S2. by eapply sends_app.
Qed.

Lemma share_length stamps np nb pushes kt r :
  np = length pushes → length (share stamps np nb pushes kt r) = (np + nb)%nat.
Proof using. intros ->. unfold share. rewrite length_app, length_imap, length_map, length_seqZ. lia. Qed.

Lemma share_lookup stamps np nb pushes kt r i it :
  np = length pushes → share stamps np nb pushes kt r !! i = Some it →
  it_ts it = stamps (Z.of_nat i) ∧ it_cmd it = batch_flag (np + nb) i.
Proof using.
  intros -> Hi. unfold share in Hi. apply lookup_app_Some in Hi as [Hi|[Hge Hi]].
  - rewrite list_lookup_imap in Hi. apply fmap_Some in Hi as (x & _ & ->). done.
  - rewrite length_imap in Hge, Hi. apply list_lookup_fmap_Some in Hi as (k & -> & Hk).
    apply lookup_seqZ in Hk as [-> Hk]. simpl. split; f_equal; lia.
Qed.
End worker.

(** The message [m] of node [me] as server [srv] describes it to its handler. *)
Definition arrive (srv : KVServer.t) (me : Z) (m : Message.t) (x : Z * option Tensor) : msg :=
  (request_meta srv ((Message.meta m) <| Meta.sender := me |>), x).

Lemma arrive_fields srv me m x :
  m_sender (arrive srv me m x) =
    WorkerRankToID (InstanceIDtoGroupRank (Postoffice.group_size_ (postoffice_ (KVServer.van srv))) me) ∧
  m_ts (arrive srv me m x) = Meta.timestamp (Message.meta m) ∧
  m_cmd (arrive srv me m x) = Meta.head (Message.meta m).
Proof. done. Qed.

(** C18. A tensor batch reaches every server as one batch: when there is no
    resender, the time stamps of a request are consecutive and below 2^31, its
    pulls fill at least one row of the servers (or there are none), and every
    server gets at least two messages, the worker sends every server all pushes in
    order, followed by that server's own slice of the pulls; at the server those
    messages are a well-formed batch, whatever tensors come with them. *)
Theorem batch_reaches_every_server SendMsg tensor_bytes key_address now req w t0 :
  (∀ m, 0 < SendMsg m) → resender_ (van w) = None → servers_distinct w → request_ok w req t0 →
  let np := length (req_push req) in
  let nb := rows (server_count w) req in
  - 2 ^ 31 ≤ t0 → t0 + Z.of_nat (np + nb) < 2 ^ 31 →
  ∃ w' msgs, send_batch SendMsg tensor_bytes key_address now req w = Ok w' ∧
    log (van w') = log (van w) ++ map Sent msgs ∧
    ∀ r, 0 ≤ r < server_count w →
      map (λ m, (Meta.push (Message.meta m), Meta.key (Message.meta m))) (sent_to w r msgs) =
        map (λ x, (true, kt_key x)) (req_push req) ++
        map (λ i, (false, kt_key (share_pull (req_pull req) nb r i))) (seqZ 0 (Z.of_nat nb)) ∧
      ∀ srv me xs, length xs = (np + nb)%nat →
        batch_wf (zip_with (arrive srv me) (sent_to w r msgs) xs)
          (WorkerRankToID (InstanceIDtoGroupRank
             (Postoffice.group_size_ (postoffice_ (KVServer.van srv))) me)) t0.
Proof.
  intros Hs Hr Hd Hq np nb Ht0 Ht1.
  destruct (send_batch_Ok SendMsg tensor_bytes key_address Hs now req w t0 Hr Hq) as (w' & E & _ & msgs & Hl & HF).
  exists w', msgs. split; [exact E|]. split; [exact Hl|]. intros r Hr'.
  assert (Forall2 (is_message w) (share (Z.add t0) np nb (req_push req) (share_pull (req_pull req) nb) r)
    (sent_to w r msgs)) as HR.
  { rewrite <- (share_of_items w) by (done || apply Hq). unfold sent_to.
    eapply filter_forall2; [exact HF|]. intros it m (-> & _). done. }
  split.
  - transitivity (map (λ it, (it_push it, kt_key (it_tensor it)))
      (share (Z.add t0) np nb (req_push req) (share_pull (req_pull req) nb) r)).
    + clear -HR. induction HR as [|it m l l' Hm HF IH]; [done|]. cbn [map]. rewrite IH.
      by destruct Hm as (_ & _ & _ & -> & _ & _ & ->).
    + unfold share. rewrite map_app, map_map. f_equal. by apply map_imap_const.
  - intros srv me xs Hx. pose proof (Forall2_length _ _ _ HR) as HL. rewrite share_length in HL by done.
    pose proof (ro_size _ _ _ Hq) as H2. fold np nb in H2.
    assert (length (zip_with (arrive srv me) (sent_to w r msgs) xs) = (np + nb)%nat) as HL'.
    { rewrite length_zip_with. lia. }
    split; rewrite ?HL'; [lia|lia|]. intros i x Hi. apply lookup_zip_with_Some in Hi as (m & y & -> & Hm & _).
    destruct (Forall2_lookup_r _ _ _ _ _ HR Hm) as (it & Hit & (_ & E1 & E2 & _)).
    apply share_lookup in Hit as [F1 F2]; [|done].
    destruct (arrive_fields srv me m y) as (-> & -> & ->). rewrite E1, E2, F1, F2. done.
Qed.
