(* ===== verification/AFBatch.v ===== *)
(** * Batches at the worker

    The handles of the batches: [AFTensorWorker::ZBatchPushPull] records the time
    stamps of a batch in the hash table, [GetAllHandlers] and [Wait] find them
    there.  The requests it queues are the ones that reach every server as one
    batch.  The calls for which this fails are shown to fail. *)

From S2P Require Import Prelude Message Env Postoffice Van VanFacts Customer Slicer KVApp KVFacts.
From S2P Require Import HashMap HashMapOps HashMapSpec AFTensor AFServer AFWorker.
Import Van Customer KVPairs KVWorker AFTensorWorker.
Import HashMap (std_hash_int, _num_filled).

Abbreviation table_ok := (valid std_hash_int).

(** The recorded batches are named by time stamps given out before. *)
Definition stamps_ok (s : AFTensorWorker.t) : Prop :=
  table_ok (batch_timestamps_ s) ∧
  ∀ k, is_Some (to_map (batch_timestamps_ s) !! k) → 0 ≤ k < Z.of_nat (length (tracker_ (obj_ (kv_ s)))).

Lemma handlers_eq ts s :
  table_ok (batch_timestamps_ s) →
  GetAllHandlers ts s = Ok (ts :: default [] (to_map (batch_timestamps_ s) !! ts)).
Proof. intros Hv. unfold GetAllHandlers. by rewrite (bind_eq _ _ _ (try_get_spec std_hash_int _ ts Hv)). Qed.

Lemma alloc_timestamps_Ok now n w ids :
  GetNodeIDs (postoffice_ (van w)) kServerGroup = Ok ids →
  ∃ c, alloc_timestamps now n w = Ok (seqZ (Z.of_nat (length (tracker_ (obj_ w)))) (Z.of_nat n), w <| obj_ := c |>) ∧
    length (tracker_ c) = (length (tracker_ (obj_ w)) + n)%nat.
Proof.
  intros Hids. revert w Hids. induction n as [|n IH]; intros w Hids; cbn [alloc_timestamps].
  { exists (obj_ w). split; [|lia]. by destruct w. }
  unfold AllocTimestamp. rewrite (NewRequest_Ok _ now (obj_ w) ids Hids). cbn [mbind result_bind fst snd].
  match goal with |- context [alloc_timestamps now n ?x] => set (w1 := x) end.
  destruct (IH w1 Hids) as (c & E & Hc). rewrite (bind_eq _ _ _ E).
  assert (length (tracker_ (obj_ w1)) = S (length (tracker_ (obj_ w)))) as El.
  { subst w1. cbn. rewrite length_app. cbn. lia. }
  exists c. rewrite El in *. split; [|lia]. cbn [fst snd]. rewrite (seqZ_cons _ (Z.of_nat (S n))) by lia.
  replace (Z.succ (Z.of_nat (length (tracker_ (obj_ w))))) with (Z.of_nat (S (length (tracker_ (obj_ w))))) by lia.
  replace (Z.pred (Z.of_nat (S n))) with (Z.of_nat n) by lia. reflexivity.
Qed.

Section worker.
Context (SendMsg : Message.t → Z) (tensor_bytes : Tensor → list byte) (key_address : Z → Z).
Implicit Types (s : AFTensorWorker.t) (pushes pulls : list KeyTensor).

(** The time stamps a batch gets. *)
Definition stamps_needed (n : Z) pushes pulls : nat :=
  length pushes + Z.to_nat (Z.quot (Z.of_nat (length pulls)) n).

Lemma seqZ_split a (n m : nat) :
  seqZ a (Z.of_nat n) ++ seqZ (a + Z.of_nat n) (Z.of_nat m) = seqZ a (Z.of_nat (n + m)).
Proof using. rewrite Nat2Z.inj_add. symmetry. apply seqZ_app; lia. Qed.

(** What [ZBatchPushPull] returns and leaves: the request, the table and the
    rest of the state. *)
Lemma ZBatchPushPull_eq now pushes pulls need_event s ids :
  GetNodeIDs (postoffice_ (van (kv_ s))) kServerGroup = Ok ids → 0 < server_count (kv_ s) →
  let t0 := Z.of_nat (length (tracker_ (obj_ (kv_ s)))) in
  let n := stamps_needed (server_count (kv_ s)) pushes pulls in
  let start := hd 0 (seqZ t0 (Z.of_nat n)) in
  ∃ c req evs, length (tracker_ c) = (length (tracker_ (obj_ (kv_ s))) + n)%nat ∧
    req_push req = pushes ∧ req_pull req = pulls ∧
    push_timestamps req = seqZ t0 (Z.of_nat (length pushes)) ∧
    pull_timestamps req = seqZ (t0 + Z.of_nat (length pushes)) (Z.of_nat (rows (server_count (kv_ s)) req)) ∧
    ZBatchPushPull now pushes pulls need_event s =
      (table ← HashMap.insert_unique std_hash_int start (tail (seqZ t0 (Z.of_nat n))) (batch_timestamps_ s);
       Ok (start, s <| kv_ := (kv_ s) <| obj_ := c |> |> <| events_ := evs |>
                    <| pushpull_queue_ ::= (λ q, q ++ [req]) |> <| batch_timestamps_ := table.2 |>)).
Proof using.
  intros Hids Hn t0 n start. unfold ZBatchPushPull. rewrite (proj2 (Z.ltb_lt _ _) Hn).
  destruct (alloc_timestamps_Ok now (length pushes) (kv_ s) ids Hids) as (c1 & E1 & L1).
  rewrite (bind_eq _ _ _ E1). cbn [fst snd].
  destruct (alloc_timestamps_Ok now (Z.to_nat (Z.quot (Z.of_nat (length pulls)) (server_count (kv_ s))))
    ((kv_ s) <| obj_ := c1 |>) ids) as (c & E2 & L2); [exact Hids|].
  rewrite (bind_eq _ _ _ E2). cbn [fst snd]. change (obj_ ((kv_ s) <| obj_ := c1 |>)) with c1 in *.
  rewrite L1, Nat2Z.inj_add, seqZ_split in *. fold t0 n.
  destruct (if need_event then _ else _) as [ev evs].
  exists c, (mkAFTensorRequest pushes pulls (seqZ t0 (Z.of_nat (length pushes)))
    (seqZ (t0 + Z.of_nat (length pushes))
       (Z.of_nat (Z.to_nat (Z.quot (Z.of_nat (length pulls)) (server_count (kv_ s)))))) ev), evs.
  split; [unfold n, stamps_needed; lia|]. by split_and!.
Qed.

(** The handle of a batch stands for all of it: [ZBatchPushPull] returns the
    first time stamp of the batch, [GetAllHandlers] of it lists exactly the
    time stamps of the queued request, the handles of earlier batches keep
    their meaning, and the queued request is one that reaches every server. *)
Theorem batch_handle_recorded now pushes pulls need_event s ids :
  GetNodeIDs (postoffice_ (van (kv_ s))) kServerGroup = Ok ids → 0 < server_count (kv_ s) →
  stamps_ok s → _num_filled (batch_timestamps_ s) ≤ 2 ^ 30 →
  (1 ≤ stamps_needed (server_count (kv_ s)) pushes pulls)%nat →
  ∃ ts s' req, ZBatchPushPull now pushes pulls need_event s = Ok (ts, s') ∧ stamps_ok s' ∧
    pushpull_queue_ s' = pushpull_queue_ s ++ [req] ∧ req_push req = pushes ∧ req_pull req = pulls ∧
    GetAllHandlers ts s' = Ok (push_timestamps req ++ pull_timestamps req) ∧
    (∀ ts', ts' ≠ ts → GetAllHandlers ts' s' = GetAllHandlers ts' s) ∧
    ((2 ≤ stamps_needed (server_count (kv_ s)) pushes pulls)%nat →
     pulls = [] ∨ (1 ≤ rows (server_count (kv_ s)) req)%nat → request_ok (kv_ s') req ts).
Proof using.
  intros Hids Hn [Hv Hk] Hroom Hst.
  destruct (ZBatchPushPull_eq now pushes pulls need_event s ids Hids Hn)
    as (c & req & evs & Hc & Epu & Epl & Tpu & Tpl & E).
  set (t0 := Z.of_nat (length (tracker_ (obj_ (kv_ s))))) in *.
  set (n := stamps_needed _ _ _) in *. rewrite (seqZ_cons t0 (Z.of_nat n)) in E by lia. cbn [hd tail] in E.
  assert (to_map (batch_timestamps_ s) !! t0 = None) as Hnew.
  { apply eq_None_not_Some. intros Hs%Hk. unfold t0 in Hs. lia. }
  destruct (insert_unique_spec std_hash_int (batch_timestamps_ s) t0 (seqZ (Z.succ t0) (Z.pred (Z.of_nat n)))
    Hv Hroom Hnew) as (b & h' & Ei & Hv' & _ & Em).
  rewrite (bind_eq _ _ _ Ei) in E. cbn [snd] in E.
  match type of E with _ = Ok (_, ?x) => set (s' := x) in E end.
  assert (pushpull_queue_ s' = pushpull_queue_ s ++ [req]) as Hq by reflexivity.
  assert (batch_timestamps_ s' = h') as Hb by reflexivity. assert (obj_ (kv_ s') = c) as Ho by reflexivity.
  assert (server_count (kv_ s') = server_count (kv_ s)) as Hsc by reflexivity.
  clearbody s'. exists t0, s', req. rewrite <- Hb in Hv', Em. split; [exact E|]. split_and!; try done.
  - split; [done|]. intros k. rewrite Em, Ho, Hc. destruct (decide (k = t0)) as [->|Hne].
    + intros _. unfold t0. lia.
    + rewrite lookup_insert_ne by done. intros Hs%Hk. lia.
  - rewrite handlers_eq by done. f_equal. rewrite Em, lookup_insert_eq. cbn [default].
    rewrite Tpu, Tpl. unfold rows. rewrite Epl, seqZ_split. symmetry. apply seqZ_cons. unfold n, stamps_needed in Hst. lia.
  - intros ts' Hne. rewrite !handlers_eq by done. by rewrite Em, lookup_insert_ne.
  - intros H2 Hr. unfold n, stamps_needed in H2. subst pushes pulls. split; rewrite ?Hsc; try done.
Qed.

Lemma wait_loop_saw tr timeout spin looks :
  wait_loop tr timeout spin looks = Some (Ok ()) → ∃ now, (count tr, now) ∈ looks.
Proof using.
  revert spin. induction looks as [|[x now] looks IH]; intros spin; cbn [wait_loop]; [done|].
  destruct (Z.eqb_spec (count tr) x) as [<-|_]; [intros _; exists now; left|].
  destruct (spin <? kMaxSpinCount); [|destruct (_ <? _); [done|]].
  all: intros [now' ?]%IH; exists now'; by right.
Qed.

(** Position [i] of [obs] has a look that finds request [h] complete. *)
Definition seen_complete (c : Customer.t) (obs : list (list (Z * Z))) (i : nat) (h : Z) : Prop :=
  ∃ tr looks now, get_tracker c h = Ok tr ∧ obs !! i = Some looks ∧ (count tr, now) ∈ looks.

Lemma WaitRequest_saw c h timeout obs :
  WaitRequest c h timeout (hd [] obs) = Some (Ok ()) → seen_complete c obs 0 h.
Proof using.
  unfold WaitRequest. destruct (get_tracker c h) as [tr|] eqn:E; [|done]. intros Hw.
  apply wait_loop_saw in Hw as [now Hin]. destruct obs as [|looks obs]; [by apply not_elem_of_nil in Hin|].
  by exists tr, looks, now.
Qed.

Lemma wait_each_saw c stamps timeout obs :
  wait_each c stamps timeout obs = Some (Ok ()) →
  ∀ i h, stamps !! i = Some h → seen_complete c obs i h.
Proof using.
  revert obs. induction stamps as [|ts stamps IH]; intros obs; cbn [wait_each]; [done|].
  destruct (WaitRequest c ts timeout (hd [] obs)) as [[[]|e]|] eqn:E; try done.
  apply WaitRequest_saw in E. intros Hw [|i] h; cbn [lookup list_lookup]; [by intros [= <-]|].
  intros Hi. destruct (IH (tail obs) Hw i h Hi) as (tr & looks & now & ? & Ho & ?). exists tr, looks, now.
  split; [done|]. split; [|done]. by destruct obs.
Qed.

(** C26. [Wait] on a batch returns only after a look has found every request of
    the batch complete; then the batch is forgotten and no other one is. *)
Theorem wait_ends_with_batch ts timeout_ms obs s s' :
  stamps_ok s → AFTensor.Wait ts timeout_ms obs s = Some (Ok s') →
  ∃ handlers, GetAllHandlers ts s = Ok handlers ∧
    (∀ i h, handlers !! i = Some h →
       seen_complete (obj_ (kv_ s)) obs i h) ∧
    stamps_ok s' ∧ GetAllHandlers ts s' = Ok [ts] ∧
    (∀ ts', ts' ≠ ts → GetAllHandlers ts' s' = GetAllHandlers ts' s).
Proof using.
  intros [Hv Hk] Hw. unfold AFTensor.Wait in Hw. rewrite (try_get_spec std_hash_int _ ts Hv) in Hw.
  destruct (WaitRequest _ _ _ _) as [[[]|e]|] eqn:E0; try done. apply WaitRequest_saw in E0.
  exists (ts :: default [] (to_map (batch_timestamps_ s) !! ts)). split; [by apply handlers_eq|].
  destruct (to_map (batch_timestamps_ s) !! ts) as [v|] eqn:Et; cbn [default].
  - destruct (wait_each _ _ _ _) as [[[]|e]|] eqn:E1; try done.
    destruct (erase_spec std_hash_int (batch_timestamps_ s) ts Hv) as (h' & E & Hv' & Em).
    rewrite (bind_eq _ _ _ E) in Hw. cbn [snd] in Hw. injection Hw as Hw.
    assert (batch_timestamps_ s' = h' ∧ kv_ s' = kv_ s) as [Hb Ho] by (by subst s').
    clear Hw. rewrite <- Hb in Hv', Em. split_and!.
    + intros [|i] h; cbn; [by intros [= <-]|]. intros Hi.
      destruct (wait_each_saw _ _ _ _ E1 i h Hi) as (tr & looks & now & ? & Hl & ?).
      exists tr, looks, now. split; [done|]. split; [|done]. by destruct obs.
    + split; [done|]. intros k. rewrite Em, Ho. intros [x [_ Hx]%lookup_delete_Some]. by apply Hk; exists x.
    + by rewrite handlers_eq, Em, lookup_delete_eq by done.
    + intros ts' Hne. by rewrite !handlers_eq, Em, lookup_delete_ne by done.
  - injection Hw as <-. split_and!; [|done| |done].
    + intros [|i] h; cbn; [by intros [= <-]|done].
    + by rewrite handlers_eq, Et by done.
Qed.

(** ** Calls that fail *)

(** The destructor of an idle worker ends the process: its thread, which
    waits in [WaitAndPop] past the look at the stop flag, takes the empty
    request that should wake it up and fails the check for a push or a pull. *)
Theorem idle_destructor_aborts now s :
  pushpull_thread_ s = InWaitAndPop → pushpull_queue_ s = [] →
  PushPullWorker SendMsg tensor_bytes key_address now (stop_pushpull s) = Err (CheckFailed "push or pull").
Proof using. intros Ht Hq. unfold PushPullWorker. cbn. by rewrite Ht, Hq. Qed.

(** A call that gets no time stamps. *)
Lemma few_pulls_request now pulls need_event s :
  Z.of_nat (length pulls) < server_count (kv_ s) →
  stamps_ok s → _num_filled (batch_timestamps_ s) ≤ 2 ^ 30 → to_map (batch_timestamps_ s) !! 0 = None →
  ∃ s' ev, ZBatchPushPull now [] pulls need_event s = Ok (0, s') ∧ kv_ s' = kv_ s ∧
    pushpull_queue_ s' = pushpull_queue_ s ++ [mkAFTensorRequest [] pulls [] [] ev].
Proof using.
  intros Hl [Hv _] Hroom H0. unfold ZBatchPushPull.
  rewrite (proj2 (Z.ltb_lt _ _)), Z.quot_small by lia. cbn [length alloc_timestamps mbind result_bind fst snd app hd tail].
  change (Z.to_nat 0) with 0%nat. cbn [alloc_timestamps mbind result_bind fst snd app hd tail].
  destruct (if need_event then _ else _) as [ev evs].
  destruct (insert_unique_spec std_hash_int (batch_timestamps_ s) 0 [] Hv Hroom H0) as (b & h' & E & _).
  rewrite (bind_eq _ _ _ E). eexists _, ev. by split_and!.
Qed.

(** A batch of pulls, two or more but fewer than there are servers, is
    lost: the caller gets handle 0, that of the first batch, and when the
    thread takes the request it sends nothing. *)
Theorem few_pulls_lost now pulls need_event s :
  (2 ≤ length pulls)%nat → Z.of_nat (length pulls) < server_count (kv_ s) →
  stamps_ok s → _num_filled (batch_timestamps_ s) ≤ 2 ^ 30 → to_map (batch_timestamps_ s) !! 0 = None →
  ∃ s' req, ZBatchPushPull now [] pulls need_event s = Ok (0, s') ∧ kv_ s' = kv_ s ∧
    pushpull_queue_ s' = pushpull_queue_ s ++ [req] ∧
    send_batch SendMsg tensor_bytes key_address now req (kv_ s') = Ok (kv_ s').
Proof using.
  intros H2 Hl Hs Hr H0. destruct (few_pulls_request now pulls need_event s Hl Hs Hr H0) as (s' & ev & E & Ek & Eq).
  eexists s', _. split; [exact E|]. split; [done|]. split; [exact Eq|]. rewrite Ek. unfold send_batch.
  cbn [req_push req_pull push_timestamps pull_timestamps length].
  rewrite (proj2 (Z.leb_le _ _)), (proj2 (Z.ltb_lt _ _)), (proj2 (Nat.eqb_neq _ _)) by lia.
  by rewrite Z.quot_small by lia.
Qed.

(** One pull from several servers reads a time stamp that was never
    allocated. *)
Theorem lone_pull_undefined now pull need_event s :
  2 ≤ server_count (kv_ s) → stamps_ok s → _num_filled (batch_timestamps_ s) ≤ 2 ^ 30 →
  to_map (batch_timestamps_ s) !! 0 = None →
  ∃ s' req, ZBatchPushPull now [] [pull] need_event s = Ok (0, s') ∧
    pushpull_queue_ s' = pushpull_queue_ s ++ [req] ∧
    send_batch SendMsg tensor_bytes key_address now req (kv_ s') = Err (Undefined "operator[]").
Proof using.
  intros H2 Hs Hr H0. destruct (few_pulls_request now [pull] need_event s) as (s' & ev & E & Ek & Eq);
    [cbn; lia|done..|].
  eexists s', _. split; [exact E|]. split; [exact Eq|]. rewrite Ek. unfold send_batch. cbn [req_push req_pull length].
  rewrite (proj2 (Z.leb_le _ _)), (proj2 (Z.ltb_lt _ _)) by lia. done.
Qed.

(** A batch that only pulls one tensor from each of several servers never
    ends: every server gets one message, marked as the start of a batch, and
    its handler keeps waiting for the rest. *)
Theorem lone_row_never_ends now pulls t0 ev w :
  (∀ m, 0 < SendMsg m) → resender_ (van w) = None → 2 ≤ server_count w →
  Z.of_nat (length pulls) = server_count w →
  ∃ w' msgs, send_batch SendMsg tensor_bytes key_address now (mkAFTensorRequest [] pulls [] [t0] ev) w = Ok w' ∧
    log (van w') = log (van w) ++ map Sent msgs ∧ length msgs = length pulls ∧
    ∀ m srv me x st, m ∈ msgs →
      ∃ st', KVHandler (arrive srv me m x).1 (arrive srv me m x).2 st = Ok ([], st').
Proof using.
  intros Hs Hr H2 Hl. unfold send_batch. cbn [req_push req_pull push_timestamps pull_timestamps length push_all_tensors].
  rewrite (proj2 (Z.leb_le _ _)), (proj2 (Z.ltb_lt _ _)), (proj2 (Nat.eqb_neq _ _)) by lia.
  rewrite Hl, Z.quot_same by lia. cbn [mbind result_bind]. change (seqZ 0 1) with [0].
  destruct (pull_all_Ok SendMsg tensor_bytes key_address Hs now true 1 [0] pulls [t0] (λ _, t0)
    (share_pull pulls 1) w Hr) as (w' & E & _ & msgs & Hlog & HF).
  { by rewrite Hl, Z.quot_same by lia. }
  { by intros i ->%list_elem_of_singleton. }
  { intros i r ->%list_elem_of_singleton Hr'%elem_of_seqZ. unfold share_pull. apply vec_index_in. lia. }
  exists w', msgs. split; [exact E|]. split; [exact Hlog|]. split.
  - rewrite <- (Forall2_length _ _ _ HF). unfold pull_items. cbn [map concat].
    rewrite app_nil_r, length_map, length_seqZ. lia.
  - intros m srv me x st Hm. apply list_elem_of_lookup in Hm as [i Hm].
    destruct (Forall2_lookup_r _ _ _ _ _ HF Hm) as (it & Hit & (_ & _ & Hc & Hp & _)).
    unfold pull_items in Hit. cbn [map concat] in Hit. rewrite app_nil_r in Hit.
    apply list_lookup_fmap_Some in Hit as (r & -> & _). cbn [it_cmd it_push] in Hc, Hp.
    unfold KVHandler. destruct (arrive_fields srv me m x) as (_ & _ & Ec). unfold m_cmd in Ec.
    rewrite Ec, Hc. assert (KVMeta.push (arrive srv me m x).1 = false) as -> by exact Hp.
    eexists. reflexivity.
Qed.
End worker.

(** ** Examples *)

(** A tensor worker of a cluster of three servers, with two requests tracked. *)
Definition demo_kv : KVWorker.t byte :=
  KVWorker.mk (Customer.mk 0 0 [mkTracker 3 0 0 0; mkTracker 3 0 0 0]) (van demo_worker) (worker0 demo_worker)
    0 false ∅ ∅ ∅ ∅ [].
Definition demo_af (table : HashMap.t Z (list Z)) : AFTensorWorker.t :=
  AFTensorWorker.mk demo_kv table [] (replicate kDefaultEventBufferSize true) false InWaitAndPop.
Definition demo_tensor (k : Z) : KeyTensor := mkKeyTensor k (mkTensor (4096 * k) 6 [2; 2] 4).

Lemma demo_ids : ∃ ids, GetNodeIDs (postoffice_ (van demo_kv)) kServerGroup = Ok ids.
Proof. eexists. vm_compute. reflexivity. Qed.
Lemma demo_servers : server_count demo_kv = 3.
Proof. vm_compute. reflexivity. Qed.

(** The new table, and one with a batch in it. *)
Lemma demo_new_table :
  ∃ h : HashMap.t Z (list Z), HashMap.new std_hash_int = Ok h ∧ stamps_ok (demo_af h) ∧
    _num_filled h ≤ 2 ^ 30 ∧ to_map h = ∅.
Proof.
  destruct (new_spec (V := list Z) std_hash_int) as (h & E & Hv & Em). exists h. split; [exact E|].
  split; [|split; [|exact Em]].
  - split; [exact Hv|]. intros k. cbn. rewrite Em, lookup_empty. by intros [? ?].
  - rewrite (valid_size std_hash_int h Hv), Em, map_size_empty. lia.
Qed.
Lemma demo_batch_table :
  ∃ h : HashMap.t Z (list Z), stamps_ok (demo_af h) ∧ to_map h = {[0 := [1]]}.
Proof.
  destruct demo_new_table as (h0 & _ & [Hv _] & Hn & Em).
  destruct (insert_unique_spec std_hash_int h0 0 [1] Hv Hn) as (b & h & _ & Hv' & _ & Em'); [by rewrite Em|].
  rewrite Em, insert_empty in Em'. exists h. split; [|exact Em']. split; [exact Hv'|]. intros k. cbn. rewrite Em'.
  intros [x [<- _]%lookup_singleton_Some]. lia.
Qed.

Lemma batch_handle_recorded_witness :
  ∃ h ts s', stamps_ok (demo_af h) ∧
    ZBatchPushPull 5 [demo_tensor 1; demo_tensor 2] (map demo_tensor [3; 4; 5]) true (demo_af h) = Ok (ts, s') ∧
    stamps_ok s'.
Proof.
  destruct demo_new_table as (h & _ & Hs & Hn & _). destruct demo_ids as [ids Hids].
  destruct (batch_handle_recorded 5 [demo_tensor 1; demo_tensor 2] (map demo_tensor [3; 4; 5]) true (demo_af h) ids
    Hids) as (ts & s' & req & E & Hs' & _);
    [by cbn; rewrite demo_servers|exact Hs|exact Hn|cbn [demo_af kv_]; rewrite demo_servers; vm_compute; lia|].
  exists h, ts, s'. exact (conj Hs (conj E Hs')).
Defined.

Lemma wait_ends_with_batch_witness :
  ∃ h s', AFTensor.Wait 0 10000 [[(2, 7); (3, 8)]; [(3, 9)]] (demo_af h) = Some (Ok s') ∧
    GetAllHandlers 0 (demo_af h) = Ok [0; 1] ∧ GetAllHandlers 0 s' = Ok [0].
Proof.
  destruct demo_batch_table as (h & Hs & Em). destruct Hs as [Hv Hk].
  destruct (erase_spec std_hash_int h 0 Hv) as (h' & E & _).
  assert (AFTensor.Wait 0 10000 [[(2, 7); (3, 8)]; [(3, 9)]] (demo_af h) = Some (Ok (demo_af h'))) as Hw.
  { unfold AFTensor.Wait. cbn [demo_af batch_timestamps_ kv_]. rewrite (try_get_spec std_hash_int h 0 Hv), Em.
    rewrite lookup_singleton_eq, (bind_eq _ _ _ E). reflexivity. }
  destruct (wait_ends_with_batch 0 10000 _ (demo_af h) _ (conj Hv Hk) Hw) as (hs & Eh & _ & _ & Eh' & _).
  exists h, (demo_af h'). split; [exact Hw|]. split; [|exact Eh'].
  rewrite handlers_eq by exact Hv. cbn [demo_af batch_timestamps_]. by rewrite Em.
Defined.

Lemma idle_destructor_aborts_witness :
  ∃ h, HashMap.new std_hash_int = Ok h ∧
    PushPullWorker (λ _, 1) (λ _, []) (λ k, k) 5 (stop_pushpull (demo_af h)) = Err (CheckFailed "push or pull").
Proof.
  destruct demo_new_table as (h & E & _). exists h. split; [exact E|].
  apply (idle_destructor_aborts (λ _, 1) (λ _, []) (λ k, k) 5 (demo_af h)); reflexivity.
Defined.

Lemma few_pulls_lost_witness :
  ∃ h s' req, ZBatchPushPull 5 [] (map demo_tensor [3; 4]) false (demo_af h) = Ok (0, s') ∧
    pushpull_queue_ s' = [req] ∧ send_batch (λ _, 1) (λ _, []) (λ k, k) 5 req (kv_ s') = Ok (kv_ s').
Proof.
  destruct demo_new_table as (h & _ & Hs & Hn & Em).
  destruct (few_pulls_lost (λ _, 1) (λ _, []) (λ k, k) 5 (map demo_tensor [3; 4]) false (demo_af h))
    as (s' & req & E & _ & Eq & Es);
    [cbn; lia|cbn [demo_af kv_]; rewrite demo_servers; cbn; lia|exact Hs|exact Hn|cbn; by rewrite Em|].
  exists h, s', req. exact (conj E (conj Eq Es)).
Defined.

Lemma lone_pull_undefined_witness :
  ∃ h s' req, ZBatchPushPull 5 [] [demo_tensor 3] false (demo_af h) = Ok (0, s') ∧
    pushpull_queue_ s' = [req] ∧
    send_batch (λ _, 1) (λ _, []) (λ k, k) 5 req (kv_ s') = Err (Undefined "operator[]").
Proof.
  destruct demo_new_table as (h & _ & Hs & Hn & Em).
  destruct (lone_pull_undefined (λ _, 1) (λ _, []) (λ k, k) 5 (demo_tensor 3) false (demo_af h))
    as (s' & req & E & Eq & Es);
    [cbn [demo_af kv_]; rewrite demo_servers; lia|exact Hs|exact Hn|cbn; by rewrite Em|].
  exists h, s', req. exact (conj E (conj Eq Es)).
Defined.

Lemma lone_row_never_ends_witness :
  ∃ w' msgs, send_batch (λ _, 1) (λ _, []) (λ k, k) 5
      (mkAFTensorRequest [] (map demo_tensor [3; 4; 5]) [] [0] None) demo_kv = Ok w' ∧
    log (van w') = log (van demo_kv) ++ map Sent msgs ∧ length msgs = 3%nat.
Proof.
  destruct (lone_row_never_ends (λ _, 1) (λ _, []) (λ k, k) 5 (map demo_tensor [3; 4; 5]) 0 None demo_kv)
    as (w' & msgs & E & Hl & Hlen & _); [done|done|by rewrite demo_servers|by rewrite demo_servers|].
  exists w', msgs. exact (conj E (conj Hl Hlen)).
Defined.

Lemma batch_reaches_every_server_witness :
  let req := mkAFTensorRequest [demo_tensor 1; demo_tensor 2] (map demo_tensor [3; 4; 5]) [0; 1] [2] None in
  ∃ w' msgs, send_batch (λ _, 1) (λ _, []) (λ k, k) 5 req demo_kv = Ok w' ∧
    log (van w') = log (van demo_kv) ++ map Sent msgs ∧
    map (λ m, (Meta.push (Message.meta m), Meta.key (Message.meta m))) (sent_to demo_kv 1 msgs) =
      [(true, 1); (true, 2); (false, 4)].
Proof.
  intros req. destruct (batch_reaches_every_server (λ _, 1) (λ _, []) (λ k, k) 5 req demo_kv 0)
    as (w' & msgs & E & Hl & Hr); [done|done| | |lia|vm_compute; reflexivity|].
  - split; [vm_compute; split; congruence|]. rewrite demo_servers. vm_compute. reflexivity.
  - split; rewrite ?demo_servers; [lia|vm_compute; lia|right; vm_compute; lia|reflexivity|reflexivity].
  - exists w', msgs. split; [exact E|]. split; [exact Hl|].
    destruct (Hr 1) as [-> _]; [rewrite demo_servers; lia|]. unfold rows. rewrite demo_servers. reflexivity.
Defined.
