(* ===== verification/AFResponse.v ===== *)
(** * The answers of a tensor server

    What [AFTensorServer::Response] and the response thread do with a batch the
    application has handled: every pull is answered, to the worker that asked,
    and the events the answers waited for are free again. *)

From S2P Require Import Prelude Message Env Postoffice Van VanFacts Customer Slicer KVApp KVFacts KVServerFacts.
From S2P Require Import AFTensor AFServer.
Import Van Customer KVPairs.
Import AFServerApp.

(** ** Events *)
Lemma GetEvent_spec evs i evs' :
  GetEvent evs = (i, evs') → ∀ j, evs' !! j = Some false → j = i ∨ evs !! j = Some false.
Proof.
  revert i evs'. induction evs as [|r evs IH]; intros i evs'; cbn [GetEvent Occupy].
  { intros [= <- <-] [|j]; cbn; [by left|done]. }
  destruct r.
  - intros [= <- <-] [|j]; cbn; [by left|by right].
  - destruct (GetEvent evs) as [i0 evs0] eqn:E. intros [= <- <-] [|j]; cbn; [by right|].
    intros [->|Hj]%(IH _ _ eq_refl); [by left|by right].
Qed.

(** An event that is occupied belongs to one of the responses. *)
Definition held_by (rs : list AFTensorResponse) (evs : list bool) : Prop :=
  ∀ j, evs !! j = Some false → Some j ∈ map rsp_event rs.

Section responses.
Context (SendMsg : Message.t → Z) (tensor_bytes : Tensor → list byte) (key_address : Z → Z).
Context (Hsend : ∀ m, 0 < SendMsg m).
Implicit Types (s : AFServerApp.t) (tensors : list KeyTensor) (pulls : list KVMeta.t).

Abbreviation pairs_of := (tensor_pairs tensor_bytes key_address).

(** [rsp] is the response to [req] with the tensor of its key. *)
Definition response_for tensors (req : KVMeta.t) (rsp : AFTensorResponse) : Prop :=
  rsp_meta rsp = req ∧ ∃ kt, find_key (KVMeta.key req) tensors = Some kt ∧ rsp_pairs rsp = pairs_of kt.

Lemma batch_responses_Ok pulls tensors need_event evs :
  (∀ req, req ∈ pulls → is_Some (find_key (KVMeta.key req) tensors)) →
  ∃ rs evs', batch_responses tensor_bytes key_address pulls tensors need_event evs = (rs, evs') ∧
    Forall2 (response_for tensors) pulls rs ∧
    ∀ j, evs' !! j = Some false → Some j ∈ map rsp_event rs ∨ evs !! j = Some false.
Proof using.
  revert evs. induction pulls as [|req pulls IH]; intros evs Hf; cbn [batch_responses].
  { exists [], evs. split; [done|]. split; [constructor|]. by right. }
  destruct (Hf req) as [kt Hk]; [left|]. rewrite Hk.
  destruct (if need_event then _ else _) as [ev evs1] eqn:Ee.
  assert (∀ j, evs1 !! j = Some false → Some j = ev ∨ evs !! j = Some false) as He.
  { destruct need_event; [|injection Ee as <- <-; by right]. destruct (GetEvent evs) as [i evs0] eqn:E.
    injection Ee as <- <-. intros j [->|?]%(GetEvent_spec _ _ _ E); [by left|by right]. }
  destruct (IH evs1) as (rs & evs' & -> & HF & Hevs); [intros; apply Hf; by right|].
  exists (mkAFTensorResponse req (pairs_of kt) ev :: rs), evs'. split; [done|]. split.
  - constructor; [|done]. split; [done|]. by exists kt.
  - intros j [Hj|[->|Hj]%He]%Hevs; cbn [map rsp_event]; [left; by right|left; by left|by right].
Qed.

(** ** The thread *)
Fixpoint run_thread (now : Z) (n : nat) s : result AFServerApp.t :=
  match n with
  | O => Ok s
  | S n' => s ← ResponseWorker SendMsg now s; run_thread now n' s
  end.

(** [msg] answers [req] with the pairs [res], for the server [kv]. *)
Definition answers (kv : KVServer.t) (req : KVMeta.t) (res : KVPairs.t byte) (msg : Message.t) : Prop :=
  let m := Message.meta msg in
  Meta.recver m = GroupWorkerRankToInstanceID (Postoffice.group_size_ (postoffice_ (KVServer.van kv)))
                    (IDtoRank (KVMeta.sender req)) (KVServer.instance_idx_ kv) ∧
  Meta.request m = false ∧ Meta.timestamp m = KVMeta.timestamp req ∧ Meta.key m = KVMeta.key req ∧
  Meta.customer_id m = KVMeta.customer_id req ∧ Message.data msg = kv_arrays wire_char res.

(** What sending answers leaves alone. *)
Definition same_server (kv kv' : KVServer.t) : Prop :=
  KVServer.instance_idx_ kv' = KVServer.instance_idx_ kv ∧
  postoffice_ (KVServer.van kv') = postoffice_ (KVServer.van kv) ∧ resender_ (KVServer.van kv') = None.

Lemma kv_answer now req res kv :
  resender_ (KVServer.van kv) = None →
  ∃ kv' msg, kv_response wire_char SendMsg now req res kv = Ok kv' ∧ same_server kv kv' ∧
    log (KVServer.van kv') = log (KVServer.van kv) ++ [Sent msg] ∧ answers kv req res msg.
Proof using Hsend.
  intros Hr. unfold kv_response, response_message. cbv zeta.
  set (to := GroupWorkerRankToInstanceID _ _ _).
  destruct (response_meta_fields (app_id_ (KVServer.obj_ kv)) to req)
    as (E0 & E1 & E2 & E3 & E4 & E5 & E6 & E7 & E8 & E9).
  destruct (add_kvs_Ok wire_char res _ E0) as (msg & -> & Hd & HR). cbn [mbind result_bind].
  destruct (Send_plain SendMsg now msg (KVServer.van kv) Hsend Hr) as (v' & -> & Hl & Hr' & Hp).
  eexists _, msg. split; [reflexivity|]. split; [by split_and!|]. split; [exact Hl|].
  destruct HR as (_ & Rc & Rt & Rr & Rq & Rp & _ & Rh & _ & Ra & Rv & Rk).
  unfold answers. rewrite Rr, Rq, Rt, Rc, Rk, E1, E2, E3, E4, E7.
  exact (conj eq_refl (conj eq_refl (conj eq_refl (conj eq_refl (conj eq_refl Hd))))).
Qed.

(** The two steps of the thread for one response. *)
Lemma thread_turn now rsp q s :
  response_thread_ s = LoopTop → response_stop_ s = false → response_queue_ s = rsp :: q →
  resender_ (KVServer.van (kv_ s)) = None →
  ∃ s' msg, run_thread now 2 s = Ok s' ∧ response_thread_ s' = LoopTop ∧ response_stop_ s' = false ∧
    response_queue_ s' = q ∧ same_server (kv_ s) (kv_ s') ∧
    events_ s' = match rsp_event rsp with Some i => AFTensor.Release i (events_ s) | None => events_ s end ∧
    log (KVServer.van (kv_ s')) = log (KVServer.van (kv_ s)) ++ [Sent msg] ∧
    answers (kv_ s) (rsp_meta rsp) (rsp_pairs rsp) msg.
Proof using Hsend.
  intros Ht Hst Hq Hr. destruct s as [co kv evs qu stop th]. cbn in Ht, Hst, Hq, Hr. subst th stop qu.
  destruct (kv_answer now (rsp_meta rsp) (rsp_pairs rsp) kv Hr) as (kv' & msg & E & Hs & Hl & Ha).
  exists (AFServerApp.mk co kv' (match rsp_event rsp with Some i => AFTensor.Release i evs | None => evs end) q false LoopTop), msg.
  split; [|by split_and!]. cbn [run_thread]. unfold ResponseWorker at 1. cbn [response_thread_ response_stop_ mbind result_bind].
  unfold ResponseWorker. cbn. rewrite E. reflexivity.
Qed.

Lemma held_release rsp q evs :
  held_by (rsp :: q) evs →
  held_by q (match rsp_event rsp with Some i => AFTensor.Release i evs | None => evs end).
Proof using.
  intros Hh j. destruct (rsp_event rsp) as [i|] eqn:Ei.
  - unfold AFTensor.Release. destruct (decide (i = j)) as [->|Hne].
    + intros Hj. pose proof (lookup_lt_Some _ _ _ Hj) as Hlt. rewrite length_insert in Hlt.
      by rewrite list_lookup_insert_eq in Hj.
    + rewrite list_lookup_insert_ne by done. intros Hj%Hh. cbn [map] in Hj. rewrite Ei in Hj.
      apply list_elem_of_In in Hj as [[= ?]|Hj]; [done|by apply list_elem_of_In].
  - intros Hj%Hh. cbn [map] in Hj. rewrite Ei in Hj. apply list_elem_of_In in Hj as [?|Hj]; [done|].
    by apply list_elem_of_In.
Qed.

Lemma run_thread_app now a b s s1 :
  run_thread now a s = Ok s1 → run_thread now (a + b) s = run_thread now b s1.
Proof using.
  revert s. induction a as [|a IH]; intros s; cbn [run_thread Nat.add]; [by intros [= ->]|].
  destruct (ResponseWorker SendMsg now s) as [s2|]; [|done]. cbn [mbind result_bind]. apply IH.
Qed.

Lemma answers_same kv kv' req res msg : same_server kv kv' → answers kv' req res msg → answers kv req res msg.
Proof using. intros (Hi & Hp & _). unfold answers. by rewrite Hi, Hp. Qed.

Lemma thread_answers now rs s :
  response_thread_ s = LoopTop → response_stop_ s = false → response_queue_ s = rs →
  resender_ (KVServer.van (kv_ s)) = None → held_by rs (events_ s) →
  ∃ s' msgs, run_thread now (2 * length rs) s = Ok s' ∧ response_queue_ s' = [] ∧ held_by [] (events_ s') ∧
    log (KVServer.van (kv_ s')) = log (KVServer.van (kv_ s)) ++ map Sent msgs ∧
    Forall2 (λ rsp msg, answers (kv_ s) (rsp_meta rsp) (rsp_pairs rsp) msg) rs msgs.
Proof using Hsend.
  revert s. induction rs as [|rsp rs IH]; intros s Ht Hst Hq Hr Hh.
  { exists s, []. rewrite app_nil_r. by split_and!. }
  destruct (thread_turn now rsp rs s Ht Hst Hq Hr) as (s1 & msg & E & Ht1 & Hst1 & Hq1 & Hs & He & Hl & Ha).
  destruct (IH s1 Ht1 Hst1 Hq1) as (s' & msgs & E' & Hq' & Hh' & Hl' & HF);
    [apply Hs|rewrite He; by apply held_release|].
  exists s', (msg :: msgs). replace (2 * length (rsp :: rs))%nat with (2 + 2 * length rs)%nat by (cbn [length]; lia).
  rewrite (run_thread_app now _ _ _ _ E). split_and!; try done.
  - rewrite Hl', Hl, <- app_assoc. done.
  - constructor; [done|]. eapply Forall2_impl; [exact HF|]. intros r m. exact (answers_same _ _ _ _ _ Hs).
Qed.

(** C27. Every pull of a batch is answered: when the application responds to a
    batch with tensors for all keys pulled, the response thread sends, in the
    order of the pulls, one answer to each pull, to the instance of the worker
    that asked, with the request's time stamp and key and the tensor of that
    key; afterwards the queue is empty and all events are free. *)
Theorem batch_pulls_answered now meta tensors need_event s :
  AFTensorMeta.single meta = false →
  (∀ req, req ∈ AFTensorMeta.pull_metas meta → is_Some (find_key (KVMeta.key req) tensors)) →
  response_thread_ s = LoopTop → response_stop_ s = false → response_queue_ s = [] →
  resender_ (KVServer.van (kv_ s)) = None → Forall (λ e, e = true) (events_ s) →
  ∃ s1 s2 msgs, Response SendMsg tensor_bytes key_address now meta tensors need_event s = Ok s1 ∧
    run_thread now (2 * length (AFTensorMeta.pull_metas meta)) s1 = Ok s2 ∧
    response_queue_ s2 = [] ∧ Forall (λ e, e = true) (events_ s2) ∧
    log (KVServer.van (kv_ s2)) = log (KVServer.van (kv_ s)) ++ map Sent msgs ∧
    Forall2 (λ req msg, ∃ kt, find_key (KVMeta.key req) tensors = Some kt ∧
      answers (kv_ s) req (pairs_of kt) msg) (AFTensorMeta.pull_metas meta) msgs.
Proof using Hsend.
  intros Hsi Hf Ht Hst Hq Hr Hev. unfold Response, af_response. rewrite Hsi.
  destruct (batch_responses_Ok (AFTensorMeta.pull_metas meta) tensors need_event (events_ s) Hf)
    as (rs & evs & -> & HF & Hevs). cbn [mbind result_bind fst snd answer_all].
  match goal with |- context [Ok ?x = Ok _] => set (s1 := x) end.
  destruct (thread_answers now rs s1) as (s2 & msgs & E & Hq2 & Hh & Hl & HA); try done.
  - unfold s1. cbn. by rewrite Hq.
  - intros j [Hj|Hj]%Hevs; [done|]. by pose proof (Forall_lookup_1 _ _ _ _ Hev Hj).
  - exists s1, s2, msgs. rewrite (Forall2_length _ _ _ HF). split_and!; try done.
    + apply Forall_lookup. intros j [] Hj; [done|]. by apply Hh, elem_of_nil in Hj.
    + clear -HF HA. revert msgs HA. induction HF as [|req rsp l l' (<- & kt & Hk & Hp) _ IH]; intros msgs HA.
      * by apply Forall2_nil_inv_l in HA as ->.
      * apply Forall2_cons_inv_l in HA as (m & ms & Ha & HA & ->). constructor; [|by apply IH].
        exists kt. split; [done|]. by rewrite <- Hp.
Qed.

(** The response thread can be stopped: after the destructor's request it
    leaves its loop within two steps, whatever it was doing, and sends nothing
    more. *)
Theorem server_thread_stops now s :
  ∃ s', run_thread now 2 (stop_server s) = Ok s' ∧ response_thread_ s' = LoopLeft ∧ kv_ s' = kv_ s.
Proof using.
  destruct s as [co kv evs q stop th]. destruct th; [eexists; by split_and!| |eexists; by split_and!].
  destruct q; eexists; by split_and!.
Qed.
End responses.

(** ** Receive buffers *)
Section chunks.
Context (tensor : Tensor) (element_size : Z) (worker_ranks ks : list Z) (c : Z).
Context (Hne : worker_ranks ≠ []) (Hlen : length worker_ranks = length ks).
Context (Hsize : numel tensor * element_size = Z.of_nat (length worker_ranks) * c) (Hc : 0 ≤ c < 2 ^ 31).
Context (Hn : Z.of_nat (length worker_ranks) < 2 ^ 32).

Lemma register_eq :
  RegisterRecvTensor tensor element_size worker_ranks ks =
  Ok (imap (λ i x, (x.1, x.2, data_ptr tensor + u32 (c * Z.of_nat i), c)) (zip worker_ranks ks)).
Proof using Hne Hlen Hsize Hc Hn.
  assert (0 < Z.of_nat (length worker_ranks)) as Hpos by (destruct worker_ranks; [done|cbn; lia]).
  unfold RegisterRecvTensor. rewrite (bool_decide_eq_true_2 _ Hne), (proj2 (Nat.eqb_eq _ _) Hlen), Hsize.
  rewrite (uwrap_small 64) by (unfold in_u; nia).
  rewrite (Z.mul_comm (Z.of_nat _)), Z.div_mul, Z.mod_mul by lia. rewrite Z.eqb_refl.
  rewrite (swrap_small 32) by (unfold in_s; lia). f_equal. apply imap_ext. intros i [r k] Hi.
  apply lookup_lt_Some in Hi. rewrite length_zip_with in Hi. unfold chunk_address. cbn [fst snd].
  by rewrite (uwrap_small 32 c), (uwrap_small 32 (Z.of_nat i)) by (unfold in_u; lia).
Qed.
End chunks.

(** The receive buffers of a tensor below 4 GiB tile it: rank number [i]
    gets the [i]-th of the equal chunks the tensor's memory consists of. *)
Theorem recv_chunks_tile tensor element_size worker_ranks ks c :
  worker_ranks ≠ [] → length worker_ranks = length ks → 0 ≤ c < 2 ^ 31 →
  numel tensor * element_size = Z.of_nat (length worker_ranks) * c → numel tensor * element_size < 2 ^ 32 →
  Z.of_nat (length worker_ranks) < 2 ^ 32 →
  ∃ l, RegisterRecvTensor tensor element_size worker_ranks ks = Ok l ∧ length l = length worker_ranks ∧
    ∀ i rank key, worker_ranks !! i = Some rank → ks !! i = Some key →
      l !! i = Some (rank, key, data_ptr tensor + c * Z.of_nat i, c).
Proof.
  intros Hne Hlen Hc Hs Hb Hn. eexists. split; [by apply register_eq|]. split.
  { rewrite length_imap, length_zip_with. lia. }
  intros i rank key Hr Hk. rewrite list_lookup_imap, (lookup_zip_with pair), Hr, Hk. cbn.
  pose proof (lookup_lt_Some _ _ _ Hr). rewrite uwrap_small by (unfold in_u; nia). done.
Qed.

(** The receive buffers of a larger tensor overlap: where [i] chunks are
    exactly 4 GiB, rank number [i] gets the buffer of rank number 0. *)
Theorem recv_chunks_overlap tensor element_size worker_ranks ks c i r0 k0 r k :
  length worker_ranks = length ks → 0 ≤ c < 2 ^ 31 → c * Z.of_nat i = 2 ^ 32 →
  numel tensor * element_size = Z.of_nat (length worker_ranks) * c → Z.of_nat (length worker_ranks) < 2 ^ 32 →
  worker_ranks !! 0%nat = Some r0 → ks !! 0%nat = Some k0 → worker_ranks !! i = Some r → ks !! i = Some k →
  ∃ l, RegisterRecvTensor tensor element_size worker_ranks ks = Ok l ∧
    l !! 0%nat = Some (r0, k0, data_ptr tensor, c) ∧ l !! i = Some (r, k, data_ptr tensor, c).
Proof.
  intros Hlen Hc Hi Hs Hn Hr0 Hk0 Hr Hk. eexists. split; [apply (register_eq _ _ _ _ c); try done; by intros ->|].
  rewrite !list_lookup_imap, !(lookup_zip_with pair), Hr0, Hk0, Hr, Hk. cbn [mbind option_bind fmap option_fmap option_map fst snd].
  rewrite Hi. cbn [Z.of_nat]. rewrite Z.mul_0_r. change (u32 0) with 0. change (u32 (2 ^ 32)) with 0.
  rewrite Z.add_0_r. done.
Qed.

(** ** Example *)
Definition demo_pull (ts key : Z) : KVMeta.t := KVMeta.mk 2 false 9 ts 0 key 0 0 0 1 0 [].
Definition demo_pulls : AFTensorMeta.t :=
  AFTensorMeta.mk 9 0 false 2 [] [] [demo_pull 1 7; demo_pull 2 8] [(7, None); (8, None)].
Definition demo_tensors : list KeyTensor :=
  [mkKeyTensor 8 (mkTensor 64 6 [2] 4); mkKeyTensor 7 (mkTensor 32 6 [2] 4)].

Lemma batch_pulls_answered_witness :
  ∃ s1 s2, Response (λ _, 1) (λ t, [x01]) (λ k, k) 5 demo_pulls demo_tensors true (new_af_server demo_server) = Ok s1 ∧
    run_thread (λ _, 1) 5 4 s1 = Ok s2 ∧ response_queue_ s2 = [].
Proof.
  destruct (batch_pulls_answered (λ _, 1) (λ t, [x01]) (λ k, k) (λ _, eq_refl) 5 demo_pulls demo_tensors true
    (new_af_server demo_server)) as (s1 & s2 & msgs & E1 & E2 & Hq & _); [done| |done|done|done|done| |].
  - apply Forall_forall. repeat constructor; eexists; reflexivity.
  - repeat constructor.
  - exists s1, s2. exact (conj E1 (conj E2 Hq)).
Defined.

Definition demo_big (n : Z) : Tensor := mkTensor 4096 6 [n] 4.

Lemma recv_chunks_tile_witness :
  ∃ l, RegisterRecvTensor (demo_big 1024) 4 [0; 1; 2; 3] [5; 6; 7; 8] = Ok l ∧
    l !! 2%nat = Some (2, 7, 4096 + 1024 * 2, 1024).
Proof.
  destruct (recv_chunks_tile (demo_big 1024) 4 [0; 1; 2; 3] [5; 6; 7; 8] 1024) as (l & E & _ & Hl);
    [done|done|lia|done|done|done|].
  exists l. split; [exact E|]. by apply (Hl 2%nat).
Defined.

Lemma recv_chunks_overlap_witness :
  ∃ l, RegisterRecvTensor (demo_big (2 ^ 31)) 4 (seqZ 0 8) (seqZ 0 8) = Ok l ∧
    l !! 0%nat = Some (0, 0, 4096, 2 ^ 30) ∧ l !! 4%nat = Some (4, 4, 4096, 2 ^ 30).
Proof. apply (recv_chunks_overlap (demo_big (2 ^ 31)) 4 (seqZ 0 8) (seqZ 0 8) (2 ^ 30) 4 0 0 4 4); try done; lia. Defined.
