(* ===== verification/RdmaMemory.v ===== *)
(** * Memory of the RDMA transport (src/van_common.h, src/rdma_utils.h)

    The memory of a node as the network adapter sees it: bytes at addresses,
    blocks the allocators have handed out and regions registered for remote
    access, and the tables built on them: [MemoryAllocator],
    [BackendMemoryAllocator] and [AddressPool].

    The allocator of the C library and the registration of memory with the
    adapter are not part of the sources: [malloc] is any function that returns
    a page-aligned block apart from all others, and the [n]-th registration
    gets the keys [mr_keys n]. *)

From S2P Require Import Prelude Message Env Postoffice.

Definition kMaxDataFields : nat := 4.
Definition kMaxAddressEntries : Z := 10240.
Definition kMempoolChunkSize : Z := 64.

(** ** Alignment *)
Definition align_floor (v align : Z) : Z := v - v mod align.
Definition align_ceil (v align : Z) : Z := align_floor (u64 (v + align - 1)) align.
Definition DIVUP (x y : Z) : Z := u64 (x + y - 1) / y.
Definition ROUNDUP (x y : Z) : Z := u64 (DIVUP x y * y).

(** The [int] versions of src/rdma_utils.h. *)
Definition AlignTo (input alignment : Z) : Z := i32 (Z.quot input alignment * alignment).
Definition DivUp (x y : Z) : Z := Z.quot (i32 (x + y - 1)) y.
Definition RoundUp (x y : Z) : Z := i32 (DivUp x y * y).

(** ** Bytes at addresses *)
Definition memory : Type := Z → byte.

Definition read_bytes (m : memory) (a : Z) (n : nat) : list byte :=
  map (λ i, m (a + Z.of_nat i)) (seq 0 n).
Definition write_bytes (a : Z) (bs : list byte) (m : memory) : memory :=
  λ x, if bool_decide (a ≤ x < a + Z.of_nat (length bs)) then nth (Z.to_nat (x - a)) bs x00 else m x.

(** ** Memory regions *)

(** [struct ibv_mr] *)
Record ibv_mr : Type := mkMR { mr_addr : Z; mr_length : Z; lkey : Z; rkey : Z }.

(** The range [a, a + n) lies inside the region. *)
Definition covers (r : ibv_mr) (a n : Z) : bool :=
  (mr_addr r <=? a) && (a + n <=? mr_addr r + mr_length r).

(** A node's memory, the blocks in use and the regions registered so far, the
    latest first. *)
Record host : Type := mkHost {
  mem : memory;
  blocks : list (Z * Z);
  regions : list ibv_mr
}.

Section memory.
Context (pagesize : Z) (malloc : list (Z * Z) → Z → Z) (mr_keys : nat → Z * Z).
Implicit Types h : host.

(** [ibv_reg_mr] *)
Definition ibv_reg_mr (addr length : Z) h : ibv_mr * host :=
  let '(lk, rk) := mr_keys (List.length (regions h)) in
  let r := mkMR addr length lk rk in
  (r, h <| regions ::= cons r |>).

(** The region a remote key stands for. *)
Definition find_region (key : Z) h : option ibv_mr := List.find (λ r, rkey r =? key) (regions h).

(** [aligned_malloc]: the size of the block is rounded up in an [int], then
    [size] bytes are set to zero. *)
Definition aligned_malloc (size : Z) h : result (Z * host) :=
  let size_aligned := i32 (ROUNDUP size pagesize) in
  check! (0 <=? size_aligned) or "posix_memalign error";
  let p := malloc (blocks h) size_aligned in
  inside! (size <=? size_aligned) or "memset";
  Ok (p, h <| blocks ::= cons (p, size_aligned) |>
           <| mem ::= write_bytes p (repeat x00 (Z.to_nat size)) |>).

(** ** [MemoryAllocator]: page-aligned buffers with their regions *)
Record MemoryAllocator : Type := mkMemoryAllocator { mr_ : gmap Z ibv_mr; used_list : gmap Z Z }.

Definition Alloc (size : Z) (al : MemoryAllocator) h : result (Z * MemoryAllocator * host) :=
  if size =? 0 then Ok (0, al, h)
  else
    let size := align_ceil size pagesize in
    x ← aligned_malloc size h;
    let '(p, h) := x in
    check! negb (p =? 0) or "p";
    let '(mr, h) := ibv_reg_mr p size h in
    Ok (p, mkMemoryAllocator (<[p := mr]> (mr_ al))
             (match used_list al !! p with Some _ => used_list al | None => <[p := size]> (used_list al) end), h).

Definition Addr2MR (addr : Z) (al : MemoryAllocator) : result ibv_mr :=
  from_option_or (CheckFailed "cannot find the associated memory region") (mr_ al !! addr).
Definition LocalKey (addr : Z) (al : MemoryAllocator) : result Z := mr ← Addr2MR addr al; Ok (lkey mr).
Definition RemoteKey (addr : Z) (al : MemoryAllocator) : result Z := mr ← Addr2MR addr al; Ok (rkey mr).

(** ** [BackendMemoryAllocator]: one device buffer per key *)
Definition backend : Type := gmap Z ibv_mr.

(** The memory of [Backend::Alloc] is a block of the node like any other. *)
Definition backend_alloc (key requested_size : Z) (b : backend) h : result (Z * backend * host) :=
  match b !! key with
  | Some mr =>
      check! (requested_size <=? mr_length mr) or "Existing buffer is too small";
      Ok (mr_addr mr, b, h)
  | None =>
      let ptr := malloc (blocks h) requested_size in
      let h := h <| blocks ::= cons (ptr, requested_size) |> in
      let '(mr, h) := ibv_reg_mr ptr requested_size h in
      Ok (ptr, <[key := mr]> b, h)
  end.

Definition GetRemoteKey (key : Z) (b : backend) : Z :=
  match b !! key with Some mr => rkey mr | None => 0 end.
End memory.

(** ** [DecodeKey]: the bytes of a key array as one number *)
Fixpoint decode_bytes (bs : list byte) (coef key : Z) : Z :=
  match bs with
  | [] => key
  | b :: bs' => decode_bytes bs' (u64 (coef * 256)) (u64 (key + u64 (coef * byte.unsigned b)))
  end.
Definition DecodeKey (keys : SArray.t byte) : Z := decode_bytes (SArray.elems keys) 1 0.

(** [DecodeWorkerKey]: the key relative to the server's range. *)
Definition DecodeWorkerKey (po : Postoffice.t) (my_rank key : Z) : result Z :=
  r ← from_option_or (Undefined "GetServerKeyRanges()") ((GetServerKeyRanges po).2 !! Z.to_nat my_rank);
  Ok (u64 (key - begin r)).

(** ** [AddressPool]: addresses named by small numbers *)
Record AddressPool (T : Type) : Type := mkPool { indices_ : list Z; table_ : list (option T) }.
Arguments mkPool {T}.
Arguments indices_ {T}.
Arguments table_ {T}.

Section pool.
Context {T : Type}.
Implicit Types p : AddressPool T.

Definition pool_size (size : option Z) : Z := default kMaxAddressEntries size.

(** The constructor; [size] is BYTEPS_ADDRESS_POOL_SIZE.  A negative size makes
    [new T *[]] fail. *)
Definition new_pool (size : option Z) : result (AddressPool T) :=
  let n := pool_size size in
  inside! (0 <=? n) or "new T *[kMaxEntries]";
  Ok (mkPool (seqZ 0 n) (replicate (Z.to_nat n) None)).

(** [table_[index]] *)
Definition entry p (index : Z) : result (option T) :=
  inside! ((0 <=? index) && (index <? Z.of_nat (length (table_ p)))) or "table_[index]";
  from_option_or (Undefined "table_[index]") (table_ p !! Z.to_nat index).

Definition set_entry (index : Z) (o : option T) p : AddressPool T :=
  mkPool (indices_ p) (<[Z.to_nat index := o]> (table_ p)).

Definition GetAddress (index : Z) p : result T :=
  o ← entry p index;
  from_option_or (CheckFailed "table_[index]") o.

Definition GetAddressAndRelease (index : Z) p : result (T * AddressPool T) :=
  o ← entry p index;
  ptr ← from_option_or (CheckFailed "ptr") o;
  let p := set_entry index None p in
  Ok (ptr, mkPool (indices_ p ++ [index]) (table_ p)).

Definition StoreAddress (ptr : T) p : result (Z * AddressPool T) :=
  match indices_ p with
  | [] => Err (CheckFailed "Address pool size is too small")
  | idx :: rest =>
      o ← entry p idx;
      check! (match o with None => true | Some _ => false end) or "table_[idx]";
      Ok (idx, set_entry idx (Some ptr) (mkPool rest (table_ p)))
  end.
End pool.
