(* ===== verification/RdmaTransport.v ===== *)
(** * The RDMA transport between two nodes (src/rdma_utils.h, src/rdma_transport.h)

    A connection ([Endpoint]) and what [RDMATransport] posts on it: the two
    rendezvous messages, which announce a message and answer with the buffers
    for it, and the remote writes that bring the message there.  The build is
    the one of CMakeLists.txt and setup.py, with STEPMESH_USE_GDR: a server
    receives meta data and values in separate buffers, any other node receives
    meta data only.  [ibv_post_send] appends to the list of posted work
    requests, or fails: which requests it accepts is up to the verbs library and
    the adapter, the class [Verbs]. *)

From S2P Require Import Prelude Message Env Postoffice Codec RdmaMemory.

(** ** Data of src/rdma_utils.h *)
Definition kRendezvousStart : Z := 0.
Definition kRendezvousReply : Z := 1.

Record RendezvousStart : Type := mkStart {
  st_meta_len : Z; st_data_num : Z; st_data_len : list Z; st_origin_addr : Z; st_key : Z
}.
Record RendezvousReply : Type := mkReply {
  rp_meta_addr : Z; rp_meta_rkey : Z; rp_data_addr : Z; rp_data_rkey : Z; rp_origin_addr : Z; rp_idx : Z
}.
Record BufferContext : Type := mkBufferContext {
  bc_buffer : Z; bc_meta_buffer : Z; bc_gpu_data_buffer : Z; bc_meta_len : Z; bc_data_num : Z;
  bc_data_len : list Z
}.
Record MessageBuffer : Type := mkMessageBuffer {
  inline_len : Z; inline_buf : Z; mb_data : list (SArray.t byte); mrs : list (ibv_mr * Z)
}.
(** [RemoteTuple]; the last part is the address of the message buffer. *)
Record RemoteTuple : Type := mkRemoteTuple {
  rt_meta_addr : Z; rt_meta_rkey : Z; rt_data_addr : Z; rt_data_rkey : Z; rt_idx : Z; rt_msg_buf : Z
}.

(** ** Work requests *)
Inductive work : Type :=
(** [IBV_WR_SEND_WITH_IMM] of a rendezvous message *)
| PostStart (req : RendezvousStart)
| PostReply (resp : RendezvousReply)
(** [IBV_WR_RDMA_WRITE], with immediate data or not; an inline write carries the
    bytes that were in the buffer when it was posted *)
| PostWrite (local len lkey raddr rkey : Z) (imm : option Z) (inline : option (list byte)).

(** ** [Endpoint], with the transport that belongs to it *)
Module Endpoint.
Record t : Type := mk {
  node_id : Z;
  multi_qp_ : bool;
  qp_pkt_count : list Z;
  free_start_ctx : nat;
  free_reply_ctx : nat;
  is_server_ : bool;
  mem_allocator_ : backend;
  posted : list (Z * work)
}.
End Endpoint.
Import Endpoint.

(** [ibv_post_send] of the verbs library: whether it accepts a work request for a
    queue pair of a connection with work requests that are not executed yet.  It
    may refuse one when the send queue is full, or when the bytes of an inline
    write are more than the queue pair has room for. *)
Class Verbs : Type := { post_accepts : list (Z * work) → Z → work → bool }.

Definition inline_size (w : work) : Z :=
  match w with PostWrite _ _ _ _ _ _ (Some bs) => Z.of_nat (length bs) | _ => 0 end.

(** What [Init] asks for as [attr.cap.max_inline_data]. *)
Definition max_inline_data : Z := 256.

(** The depths of the queues: the role decides the defaults, the environment
    can override them. *)
Definition depths (scheduler : bool) (start_depth rx_depth : option Z) : Z * Z * Z :=
  let '(kStart, kRx) := if scheduler then (256, 16) else (128, 256) in
  let kStart := default kStart start_depth in
  let kRx := default kRx rx_depth in
  (kStart, kRx, kRx).

(** [Init] for queue pair number [inited]: the receive contexts it posts. *)
Definition posted_contexts (QP_NUM kRxDepth inited : Z) : list Z :=
  if inited <? QP_NUM then map (λ i, i + inited * QP_NUM) (seqZ 0 (Z.quot kRxDepth QP_NUM)) else [].

(** [SetQPLag]: STEPMESH_SPLIT_QP_LAG=1 turns on the use of all queue pairs. *)
Definition SetQPLag (split_val : option Z) (ep : Endpoint.t) : Endpoint.t :=
  if default (-1) split_val =? 1 then ep <| multi_qp_ := true |> else ep.

Section transport.
Context {verbs : Verbs}.
Context (pagesize : Z) (malloc : list (Z * Z) → Z → Z) (mr_keys : nat → Z * Z).
Context (QP_NUM : Z).
Implicit Types (ep : Endpoint.t) (h : host) (al : MemoryAllocator) (mb : MessageBuffer).

Definition enqueue (qp : Z) (w : work) ep : Endpoint.t :=
  ep <| posted ::= (λ l, l ++ [(qp, w)]) |>.
Definition ibv_post_send (qp : Z) (w : work) ep : result Endpoint.t :=
  check! post_accepts (posted ep) qp w or "ibv_post_send failed.";
  Ok (enqueue qp w ep).
Lemma ibv_post_send_Ok qp w ep ep' :
  ibv_post_send qp w ep = Ok ep' ↔ post_accepts (posted ep) qp w = true ∧ ep' = enqueue qp w ep.
Proof. unfold ibv_post_send. destruct (post_accepts _ _ _); naive_solver. Qed.

Fixpoint post_all (l : list (Z * work)) ep : result Endpoint.t :=
  match l with
  | [] => Ok ep
  | (qp, w) :: l => ep ← ibv_post_send qp w ep; post_all l ep
  end.

(** [RDMAWriteWithImm]; [prev_wr] goes first. *)
Definition RDMAWriteWithImm al h mb (remote_addr rkey idx : Z) (inline_write : bool)
    (prev_wr : option work) ep : result Endpoint.t :=
  lk ← LocalKey (inline_buf mb) al;
  let len := u32 (inline_len mb) in
  let wr := PostWrite (inline_buf mb) len lk remote_addr rkey (Some idx)
              (if inline_write then Some (read_bytes (mem h) (inline_buf mb) (Z.to_nat len)) else None) in
  ep ← match prev_wr with Some w => ibv_post_send 0 w ep | None => Ok ep end;
  ibv_post_send 0 wr ep.

(** [msg.data[i].size()] for [i] below [n] *)
Fixpoint data_sizes (n : nat) (data : list (SArray.t byte)) : result (list Z) :=
  match n, data with
  | O, _ => Ok []
  | S n', a :: data' => l ← data_sizes n' data'; Ok (SArray.size a :: l)
  | S _, [] => Err (Undefined "msg.data[i]")
  end.

(** [SendRendezvousBegin]; [msg_buf] is the address of the buffer [mb]. *)
Definition SendRendezvousBegin (msg : Message.t) (msg_buf : Z) mb ep : result Endpoint.t :=
  match free_start_ctx ep with
  | O => Err (Blocked "free_start_ctx")
  | S n =>
      let data_num := length (mb_data mb) in
      inside! bool_decide (data_num ≤ kMaxDataFields)%nat or "req->data_len[i]";
      lens ← data_sizes data_num (Message.data msg);
      let req := mkStart (inline_len mb) (Z.of_nat data_num) lens msg_buf (Meta.key (Message.meta msg)) in
      ibv_post_send 0 (PostStart req) (ep <| free_start_ctx := n |>)
  end.

Definition total (l : list Z) : Z := foldl (λ s x, u64 (s + x)) 0 l.

(** The buffer that [QueryRecvBuffer] found, unless its address is null. *)
Definition found (q : option (Z * Z * Z)) : option (Z * Z * Z) :=
  match q with Some (buffer, _, _) => if buffer =? 0 then None else q | None => None end.

(** The buffer for the values of a message: one registered for the sender and
    the key, or a new one of the key's own. *)
Definition data_buffer (query : Z → Z → result (option (Z * Z * Z))) (req : RendezvousStart) ep h
    : result (Z * Z * Endpoint.t * host) :=
  if 0 <? total (st_data_len req) then
    len1 ← from_option_or (Undefined "req->data_len[1]") (st_data_len req !! 1%nat);
    q ← query (st_key req) (node_id ep);
    match found q with
    | Some (buffer, size, rk) =>
        check! (len1 <=? size) or "size >= req->data_len[1]";
        check! negb (rk =? 0) or "rkey != 0";
        Ok (buffer, rk, ep, h)
    | None =>
        x ← backend_alloc malloc mr_keys (st_key req) len1 (mem_allocator_ ep) h;
        let '(buffer, b, h) := x in
        check! negb (buffer =? 0) or "Failed to allocate GPU data buffer";
        Ok (buffer, GetRemoteKey (st_key req) b, ep <| mem_allocator_ := b |>, h)
    end
  else Ok (0, 0, ep, h).

(** The answer to a rendezvous: the buffers are stored in the pool under the
    index the writes will carry. *)
Definition reply_with (req : RendezvousStart) (ctx : BufferContext) (meta_addr meta_rkey data_addr data_rkey : Z)
    (pool : AddressPool BufferContext) ep : result (AddressPool BufferContext * Endpoint.t) :=
  match free_reply_ctx ep with
  | O => Err (Blocked "free_reply_ctx")
  | S n =>
      x ← StoreAddress ctx pool;
      let resp := mkReply meta_addr meta_rkey data_addr data_rkey (st_origin_addr req) x.1 in
      ep ← ibv_post_send 0 (PostReply resp) (ep <| free_reply_ctx := n |>);
      Ok (x.2, ep)
  end.

Definition SendRendezvousReply (query : Z → Z → result (option (Z * Z * Z))) (req : RendezvousStart)
    (pool : AddressPool BufferContext) al h ep
    : result (AddressPool BufferContext * MemoryAllocator * host * Endpoint.t) :=
  inside! bool_decide (length (st_data_len req) ≤ kMaxDataFields)%nat or "buf_ctx->data_len[i]";
  let ctx := mkBufferContext 0 0 0 (i32 (st_meta_len req)) (st_data_num req) (st_data_len req) in
  x ← Alloc pagesize malloc mr_keys (st_meta_len req) al h;
  let '(buffer, al, h) := x in
  check! negb (buffer =? 0) or "buffer";
  if is_server_ ep then
    d ← data_buffer query req ep h;
    let '(data_addr, data_rkey, ep, h) := d in
    rk ← RemoteKey buffer al;
    y ← reply_with req (ctx <| bc_meta_buffer := buffer |> <| bc_gpu_data_buffer := data_addr |>)
          buffer rk data_addr data_rkey pool ep;
    Ok (y.1, al, h, y.2)
  else
    rk ← RemoteKey buffer al;
    y ← reply_with req (ctx <| bc_buffer := buffer |>) buffer rk 0 0 pool ep;
    Ok (y.1, al, h, y.2).

Definition Send al h mb (t : RemoteTuple) ep : result Endpoint.t :=
  RDMAWriteWithImm al h mb (rt_meta_addr t) (rt_meta_rkey t) (rt_idx t) true None ep.

(** ** Values over several queue pairs *)

(** The ranges [qp, offset, length] a value of [size] bytes is cut into: queue
    pair 0 takes its share and the rest of the division. *)
Definition qp_ranges (size : Z) : list (Z * Z * Z) :=
  let chunk := u32 (size / QP_NUM) in
  let first := u32 (chunk + size mod QP_NUM) in
  (0, 0, first) :: map (λ qp, (qp, first + (qp - 1) * chunk, chunk)) (seqZ 1 (QP_NUM - 1)).

(** One more packet on every queue pair. *)
Definition count_packets ep : Endpoint.t :=
  ep <| qp_pkt_count ::= imap (λ i c, if Z.of_nat i <? QP_NUM then u64 (c + 1) else c) |>.

(** The counters go into the packed meta data. *)
Definition set_slave_counters (counters : list Z) (bs : list byte) : result (list byte) :=
  raw ← from_option_or (Undefined "bool")
          (RawMeta.of_fields (read_fields 0 RawMeta.layout (take sizeof_RawMeta bs)));
  let raw := raw <| RawMeta.slave_qp_num := QP_NUM - 1 |>
                 <| RawMeta.slave_qp_counter ::= imap (λ i c, if Z.of_nat i <? QP_NUM then nth i counters 0 else c) |> in
  Ok (write_fields 0 RawMeta.layout (RawMeta.to_fields raw) (take sizeof_RawMeta bs) ++ drop sizeof_RawMeta bs).

Definition write_counters mb ep h : result host :=
  let n := Z.to_nat (inline_len mb) in
  bs ← set_slave_counters (qp_pkt_count ep) (read_bytes (mem h) (inline_buf mb) n);
  Ok (h <| mem ::= write_bytes (inline_buf mb) bs |>).

(** The part of a value on the queue pair [qp], after the first one. *)
Definition slave_write (local lkey raddr rkey idx : Z) (r : Z * Z * Z) : Z * work :=
  let '(qp, off, len) := r in
  (qp, PostWrite (local + off) len lkey (raddr + off) rkey (Some (Z.lor idx 32768)) None).

(** The value and then the meta data, on one queue pair or on all of them. *)
Definition send_value al h mb (t : RemoteTuple) (local size lkey raddr rkey : Z) (chained : bool) ep
    : result (host * Endpoint.t) :=
  if multi_qp_ ep then
    let ep := count_packets ep in
    h ← write_counters mb ep h;
    match qp_ranges size with
    | (_, off, len0) :: rest =>
        ep ← ibv_post_send 0 (PostWrite (local + off) len0 lkey (raddr + off) rkey None None) ep;
        ep ← RDMAWriteWithImm al h mb (rt_meta_addr t) (rt_meta_rkey t) (rt_idx t) true None ep;
        ep ← post_all (map (slave_write local lkey raddr rkey (rt_idx t)) rest) ep;
        Ok (h, ep)
    | [] => Ok (h, ep)
    end
  else
    let data_wr := PostWrite local (u32 size) lkey raddr rkey None None in
    ep ← (if chained then RDMAWriteWithImm al h mb (rt_meta_addr t) (rt_meta_rkey t) (rt_idx t) true (Some data_wr) ep
          else ep ← ibv_post_send 0 data_wr ep;
               RDMAWriteWithImm al h mb (rt_meta_addr t) (rt_meta_rkey t) (rt_idx t) true None ep);
    Ok (h, ep).

Definition SendPushRequest (msg : Message.t) al h mb (t : RemoteTuple) ep : result (host * Endpoint.t) :=
  check! (length (mrs mb) =? 1)%nat or "msg_buf->mrs.size()";
  check! (2 <=? length (Message.data msg))%nat or "msg.data.size() >= 2";
  vals ← from_option_or (Undefined "msg.data[1]") (Message.data msg !! 1%nat);
  mr ← from_option_or (Undefined "msg_buf->mrs[0]") (mrs mb !! 0%nat);
  check! (SArray.size vals <=? mr.2) or "msg.data[1].size() <= msg_buf->mrs[0].second";
  send_value al h mb t (mr_addr mr.1) (SArray.size vals) (lkey mr.1) (rt_data_addr t) (rt_data_rkey t)
    true ep.

Definition SendPullRequest al h mb (t : RemoteTuple) ep : result Endpoint.t :=
  check! (length (mrs mb) =? 0)%nat or "msg_buf->mrs.size()";
  Send al h mb t ep.

Definition SendPushResponse al h mb (t : RemoteTuple) ep : result Endpoint.t :=
  check! (length (mrs mb) =? 0)%nat or "msg_buf->mrs.size()";
  Send al h mb t ep.

(** [SendPullResponse]: the values go to the address the request named. *)
Definition SendPullResponse (msg : Message.t) al h mb (t : RemoteTuple) (lk : Z) ep : result (host * Endpoint.t) :=
  check! (length (mrs mb) =? 0)%nat or "msg_buf->mrs.size()";
  let m := Message.meta msg in
  vals ← from_option_or (Undefined "msg_buf->data[1]") (mb_data mb !! 1%nat);
  check! (u64 (Meta.val_len m) =? SArray.size vals) or "val len";
  send_value al h mb t (SArray.ptr_ vals) (Meta.val_len m) lk (Meta.addr m) (u32 (Meta.option_ m)) false ep.

(** ** Receiving *)

(** [CreateFunctionalSarray]: a copy of a value in memory of its own. *)
Definition CreateFunctionalSarray (value : list byte) h : SArray.t byte * host :=
  let size := Z.of_nat (length value) in
  let p := malloc (blocks h) size in
  (SArray.mk p value DeviceType.CPU 0 DeviceType.CPU 0,
   h <| blocks ::= cons (p, size) |> <| mem ::= write_bytes p value |>).

(** [vals.reset(addr, len, ...)]: the array is the memory at the address. *)
Definition array_at (addr len : Z) h : SArray.t byte :=
  SArray.mk addr (read_bytes (mem h) addr (Z.to_nat len)) DeviceType.CPU 0 DeviceType.CPU 0.

Definition key_array (msg : Message.t) h := CreateFunctionalSarray (enc_u64 (Meta.key (Message.meta msg))) h.
Definition len_array (msg : Message.t) h := CreateFunctionalSarray (enc_int (Meta.val_len (Message.meta msg))) h.

Definition add_arrays (l : list (SArray.t byte)) (msg : Message.t) : Message.t :=
  Message.mk (Message.meta msg) (Message.data msg ++ l).

Definition sizes (l : list (SArray.t byte)) : Z := i32 (foldr Z.add 0 (map SArray.size l)).

Definition RecvPushResponse (msg : Message.t) (ctx : BufferContext) h : result (Z * Message.t * host) :=
  check! (bc_data_num ctx =? 0) or "buffer_ctx->data_num";
  Ok (0, msg, h).

Definition RecvPullRequest (msg : Message.t) h : Z * Message.t * host :=
  let '(ks, h) := key_array msg h in
  let l := [ks; SArray.mk 0 [] DeviceType.CPU 0 DeviceType.CPU 0] in
  (sizes l, add_arrays l msg, h).

(** Keys, the memory at [addr] and lengths. *)
Definition recv_values (msg : Message.t) (addr : Z) h : Z * Message.t * host :=
  let '(ks, h) := key_array msg h in
  let '(ls, h) := len_array msg h in
  let l := [ks; array_at addr (u32 (Meta.val_len (Message.meta msg))) h; ls] in
  (sizes l, add_arrays l msg, h).

(** [RecvPushRequest]; only servers get push requests, but the code has a path
    for other nodes, which looks behind the meta data. *)
Definition RecvPushRequest (msg : Message.t) (ctx : BufferContext) (meta_len : Z) (is_server : bool) h
    : result (Z * Message.t * host) :=
  let m := Message.meta msg in
  check! Meta.push m && Meta.request m or "msg->meta.push && msg->meta.request";
  if is_server then
    check! (2 <=? bc_data_num ctx) or "buffer_ctx->data_num >= 2";
    check! negb (bc_meta_buffer ctx =? 0) or "Meta buffer is null in RecvPushRequest";
    check! negb (bc_gpu_data_buffer ctx =? 0) or "GPU data buffer is null in RecvPushRequest";
    Ok (recv_values msg (bc_gpu_data_buffer ctx) h)
  else
    check! (bc_data_num ctx =? 3) or "buffer_ctx->data_num";
    Ok (recv_values msg (bc_buffer ctx + align_ceil (u64 meta_len) pagesize) h).

Definition RecvPullResponse (msg : Message.t) h : Z * Message.t * host :=
  recv_values msg (Meta.addr (Message.meta msg)) h.
End transport.
