(* ===== verification/RdmaConnect.v ===== *)
(** * Connections of the RDMA van (src/rdma_van.h, src/rdma_transport.h)

    How the van makes the queue pairs of a connection: [Connect] on one side,
    the events of the connection manager on both.  An endpoint counts the events
    of its queue pairs in [inComingCount]; which queue pair an event is taken for
    depends on that counter alone. *)

From S2P Require Import Prelude Message Env Codec RdmaMemory RdmaTransport.

(** [Endpoint::ConnectionStatus] *)
Inductive ConnectionStatus : Type := IDLE | CONNECTING | CONNECTED | REJECTED.
#[export] Instance ConnectionStatus_eq_dec : EqDecision ConnectionStatus.
Proof. solve_decision. Defined.

(** The parts of an endpoint that describe its connection: one status and one
    identifier ([rdma_cm_id]) per queue pair; [receives] are the receive contexts
    posted on each identifier. *)
Record link : Type := mkLink {
  link_node : Z;
  status_list : list ConnectionStatus;
  cm_ids : list (option Z);
  inComingCount : Z;
  inited : Z;
  split : bool;
  receives : list (Z * list Z)
}.
#[export] Instance link_eq_dec : EqDecision link.
Proof. solve_decision. Defined.

(** An endpoint of the van: made by [Connect], or by a connection request from a
    host name, a node id and a port. *)
Inductive owner : Type := Active (node : Z) | Passive (host : list byte) (node port : Z).
#[export] Instance owner_eq_dec : EqDecision owner.
Proof. solve_decision. Defined.

(** The connections of a van: [ids] is [id->context], [next_id] the next
    identifier of [rdma_create_id]. *)
Record manager : Type := mkManager {
  links : owner → option link;
  ids : Z → option owner;
  next_id : Z;
  polling : bool
}.

(** [RDMA_CM_EVENT_*] *)
Inductive cm_event : Type :=
| CONNECT_REQUEST (id : Z) (host : list byte) (node port : Z)
| ADDR_RESOLVED (id : Z)
| ROUTE_RESOLVED (id : Z)
| ESTABLISHED (id : Z)
| DISCONNECTED (id : Z)
| REJECTED_EVENT (id : Z).

(** What the van asks of the connection manager. *)
Inductive cm_command : Type :=
| resolve_addr (id : Z) | resolve_route (id : Z) | connect (id : Z) | accept (id : Z) | destroy (id : Z).

Section connections.
Context (QP_NUM kRxDepth : Z) (split_qp_lag : option Z).
Implicit Types (l : link) (m : manager).

Definition new_link : link :=
  mkLink kEmpty (replicate QP_MAX_NUM IDLE) (replicate QP_MAX_NUM None) 0 0 false [].

Definition qps : list Z := seqZ 0 QP_NUM.

(** [status_list[i]] and [cm_ids[i]], with the bound of the arrays *)
Definition status_at l (i : Z) : result ConnectionStatus :=
  inside! (0 <=? i) or "status_list[i]";
  from_option_or (Undefined "status_list[i]") (status_list l !! Z.to_nat i).
Definition set_status_at (i : Z) (s : ConnectionStatus) l : result link :=
  inside! ((0 <=? i) && (i <? Z.of_nat (length (status_list l)))) or "status_list[i]";
  Ok (l <| status_list ::= <[Z.to_nat i := s]> |>).
Definition set_cm_id (i id : Z) l : result link :=
  inside! ((0 <=? i) && (i <? Z.of_nat (length (cm_ids l)))) or "cm_ids[i]";
  Ok (l <| cm_ids ::= <[Z.to_nat i := Some id]> |>).

(** [GetAllStatus] *)
Fixpoint all_status (p : ConnectionStatus → bool) (qs : list Z) l : result bool :=
  match qs with
  | [] => Ok true
  | i :: qs' => s ← status_at l i; r ← all_status p qs' l; Ok (p s && r)
  end.
Definition GetAllStatus (s : ConnectionStatus) (eq : bool) l : result bool :=
  all_status (λ s', if eq then bool_decide (s = s') else bool_decide (s ≠ s')) qps l.

(** [SetStatus]: the queue pairs with this identifier *)
Definition SetStatus (id : Z) (s : ConnectionStatus) l : link :=
  l <| status_list ::= imap (λ i s', if bool_decide (Z.of_nat i < QP_NUM ∧ cm_ids l !! i = Some (Some id)) then s else s') |>.

(** [Init] for one identifier *)
Definition Init (id : Z) l : link :=
  l <| receives ::= (λ r, r ++ [(id, posted_contexts QP_NUM kRxDepth (inited l))]) |>
    <| inited ::= (λ n, uwrap 8 (n + 1)) |>.

(** The counter goes back to zero after the last queue pair. *)
Definition wrap_count l : link :=
  if inComingCount l =? QP_NUM then l <| inComingCount := 0 |> else l.

Definition find_link (o : owner) m : result link := from_option_or (Undefined "endpoint") (links m o).
Definition context_of (id : Z) m : result owner := from_option_or (Undefined "id->context") (ids m id).
Definition set_link (o : owner) l m : manager := m <| links ::= (λ f, upd f o (Some l)) |>.

(** ** [Connect] *)

(** The checks, and whether there is a connection to make: not between workers,
    nor between servers. *)
Definition connect_wanted (node my_node : Node.t) : result bool :=
  check! negb (Node.id node =? kEmpty) or "node.id";
  check! negb (Node.port node =? kEmpty) or "node.port";
  check! negb (length (Node.hostname node) =? 0)%nat or "node.hostname.size()";
  Ok (negb (bool_decide (Node.role node = Node.role my_node) && negb (Node.id node =? Node.id my_node))).

(** The start: a new endpoint for the node takes the place of an old one. *)
Definition begin_connect (node : Z) m : manager := set_link (Active node) (new_link <| link_node := node |>) m.

(** One round: every queue pair that is neither connecting nor connected gets a
    new identifier. *)
Fixpoint connect_qps (node : Z) (qs : list Z) m : result (manager * list cm_command) :=
  match qs with
  | [] => Ok (m, [])
  | i :: qs' =>
      l ← find_link (Active node) m;
      s ← status_at l i;
      if bool_decide (s = CONNECTING ∨ s = CONNECTED) then connect_qps node qs' m
      else
        let old := match cm_ids l !! Z.to_nat i with Some (Some id) => [destroy id] | _ => [] end in
        let id := next_id m in
        l ← set_cm_id i id l;
        l ← set_status_at i CONNECTING l;
        let m := (set_link (Active node) l m) <| ids ::= (λ f, upd f id (Some (Active node))) |> <| next_id := id + 1 |> in
        r ← connect_qps node qs' m;
        Ok (r.1, old ++ [resolve_addr id] ++ r.2)
  end.

Definition connect_round (node : Z) m : result (manager * list cm_command) := connect_qps node qps m.

(** The condition the round waits for, and the end of the loop. *)
Definition round_over (node : Z) m : result bool := l ← find_link (Active node) m; GetAllStatus CONNECTING false l.
Definition connect_done (node : Z) m : result bool := l ← find_link (Active node) m; GetAllStatus CONNECTED true l.

(** ** The events *)
Definition OnConnectRequest (id : Z) (host : list byte) (node port : Z) m : result (manager * list cm_command) :=
  let o := Passive host node port in
  let l := (default new_link (links m o)) <| link_node := node |> in
  l ← set_cm_id (inComingCount l) id l;
  let l := Init id (l <| inComingCount ::= Z.succ |>) in
  let l := wrap_count l in
  Ok ((set_link o l m) <| ids ::= (λ f, upd f id (Some o)) |>, [accept id]).

Definition OnAddrResolved (id : Z) m : result (manager * list cm_command) := Ok (m, [resolve_route id]).

Definition OnRouteResolved (id : Z) m : result (manager * list cm_command) :=
  o ← context_of id m;
  l ← find_link o m;
  let l := wrap_count ((Init id l) <| inComingCount ::= Z.succ |>) in
  Ok (set_link o l m, [connect id]).

(** [SetQPLag] looks at the queue pair of every identifier. *)
Definition set_qp_lag l : result link :=
  if default (-1) split_qp_lag =? 1 then
    inside! forallb (λ i, match cm_ids l !! Z.to_nat i with Some (Some _) => true | _ => false end) qps
      or "cm_ids[qpIndex]->qp";
    Ok (l <| split := true |>)
  else Ok l.

Definition OnConnected (id : Z) m : result (manager * list cm_command) :=
  o ← context_of id m;
  l ← find_link o m;
  l ← set_status_at (inComingCount l) CONNECTED l;
  let l := l <| inComingCount ::= Z.succ |> in
  _ ← GetAllStatus CONNECTED true l;
  l ← (if inComingCount l =? QP_NUM then l ← set_qp_lag l; Ok (l <| inComingCount := 0 |>) else Ok l);
  Ok ((set_link o l m) <| polling := true |>, []).

Definition OnDisconnected (id : Z) m : result (manager * list cm_command) :=
  o ← context_of id m;
  l ← find_link o m;
  Ok (set_link o (SetStatus id IDLE l) m, []).

Definition OnRejected (id : Z) m : result (manager * list cm_command) :=
  o ← context_of id m;
  l ← find_link o m;
  check! (match links m (Active (link_node l)) with Some _ => true | None => false end) or "Connection not ready.";
  Ok (set_link o (SetStatus id REJECTED l) m, []).

(** One event of [PollEvents] *)
Definition on_event (e : cm_event) m : result (manager * list cm_command) :=
  match e with
  | CONNECT_REQUEST id host node port => OnConnectRequest id host node port m
  | ADDR_RESOLVED id => OnAddrResolved id m
  | ROUTE_RESOLVED id => OnRouteResolved id m
  | ESTABLISHED id => OnConnected id m
  | DISCONNECTED id => OnDisconnected id m
  | REJECTED_EVENT id => OnRejected id m
  end.

Fixpoint on_events (es : list cm_event) m : result (manager * list cm_command) :=
  match es with
  | [] => Ok (m, [])
  | e :: es' => r ← on_event e m; r' ← on_events es' r.1; Ok (r'.1, r.2 ++ r'.2)
  end.

(** ** [Disconnect] waits for all queue pairs to be idle. *)
Definition disconnected l : result bool := all_status (λ s, bool_decide (s = IDLE)) qps l.
End connections.

(** ** [Bind]: the port of the listener

    [bind_addr port] tells whether the port can be taken; [rnd] are the ports
    drawn after a failure. *)
Fixpoint bind_ports (bind_addr : Z → bool) (rnd : nat → Z) (i : nat) (max_retry : nat) (port : Z) : Z :=
  if bind_addr port then port
  else
    match max_retry with
    | O => -1
    | S r => bind_ports bind_addr rnd (S i) r (10000 + rnd i mod 40000)
    end.

Definition Bind (num_ports port : Z) (max_retry : nat) (bind_addr : Z → bool) (rnd : nat → Z) : result Z :=
  check! (num_ports =? 1) or "RDMA van does not support multiple ports";
  Ok (bind_ports bind_addr rnd 0 max_retry port).

(** ** [Start]: the number of work requests a completion queue takes *)
Definition concurrent_ok (max_wr start_depth rx_depth : option Z) : result unit :=
  match max_wr with
  | Some n =>
      let start := default 128 start_depth in
      let rx := default 2048 rx_depth in
      check! (i32 (start + rx + rx) <=? n) or "kMaxConcurrentWorkRequest >= kStartDepth + kReplyDepth + kRxDepth";
      Ok tt
  | None => Ok tt
  end.

(** ** Which queue pair an event is taken for *)
Section two_queue_pairs.
Context (kRxDepth : Z).

(** Endpoint [o] is [l], and the identifiers of its queue pairs point to it. *)
Definition serves (m : manager) (o : owner) (qids : list Z) (l : link) : Prop :=
  links m o = Some l ∧ ∀ id, id ∈ qids → ids m id = Some o.

Lemma serves_set m o qids l l' : serves m o qids l → serves (set_link o l' m) o qids l'.
Proof. intros [_ H]. split; [apply upd_eq|exact H]. Qed.

(** What an event of a queue pair does to its endpoint. *)
Definition link_event (e : cm_event) (l : link) : result link :=
  match e with
  | ROUTE_RESOLVED id => Ok (wrap_count 2 ((Init 2 kRxDepth id l) <| inComingCount ::= Z.succ |>))
  | ESTABLISHED id =>
      l ← set_status_at (inComingCount l) CONNECTED l;
      let l := l <| inComingCount ::= Z.succ |> in
      _ ← GetAllStatus 2 CONNECTED true l;
      Ok (if inComingCount l =? 2 then l <| inComingCount := 0 |> else l)
  | REJECTED_EVENT id => Ok (SetStatus 2 id REJECTED l)
  | _ => Err (Undefined "other events")
  end.
Fixpoint link_events (es : list cm_event) (l : link) : result link :=
  match es with [] => Ok l | e :: es' => l ← link_event e l; link_events es' l end.

Definition event_id (e : cm_event) : Z :=
  match e with
  | CONNECT_REQUEST id _ _ _ | ADDR_RESOLVED id | ROUTE_RESOLVED id | ESTABLISHED id | DISCONNECTED id
  | REJECTED_EVENT id => id
  end.

Lemma on_link_event e m node qids l l' :
  serves m (Active node) qids l → link_node l = node → event_id e ∈ qids → link_event e l = Ok l' →
  ∃ m' cmds, on_event 2 kRxDepth None e m = Ok (m', cmds) ∧ serves m' (Active node) qids l' ∧ next_id m' = next_id m.
Proof.
  intros Hs Hn Hid H. pose proof Hs as [Hl Hids]. specialize (Hids _ Hid).
  destruct e as [|id|id|id|id|id]; simpl in H, Hid, Hids |- *; try discriminate;
    unfold OnRouteResolved, OnConnected, OnRejected, context_of, find_link; rewrite Hids; cbn [from_option_or mbind result_bind];
    rewrite Hl; cbn [from_option_or mbind result_bind].
  - injection H as <-. eexists _, _. split; [reflexivity|]. split; [by eapply serves_set|done].
  - apply bind_Ok in H as (l1 & H1 & H). apply bind_Ok in H as (b & H2 & [= <-]).
    rewrite (bind_eq _ _ _ H1). cbv zeta. rewrite (bind_eq _ _ _ H2). unfold set_qp_lag. cbn [default Z.eqb].
    destruct (_ =? 2); cbn [mbind result_bind]; eexists _, _; (split; [reflexivity|]);
      (split; [split; [apply upd_eq|apply Hs]|done]).
  - injection H as <-. rewrite Hn, Hl. eexists _, _. split; [reflexivity|]. split; [by eapply serves_set|done].
Qed.

Lemma link_event_node e l l' : link_event e l = Ok l' → link_node l' = link_node l.
Proof.
  destruct e; simpl; try discriminate.
  - intros [= <-]. unfold wrap_count. by case_match.
  - intros (l1 & H1 & H)%bind_Ok. apply bind_Ok in H as (b & _ & [= <-]). unfold set_status_at in H1.
    destruct (_ && _); [|discriminate]. injection H1 as <-. by case_match.
  - by intros [= <-].
Qed.

Lemma on_link_events es m node qids l l' :
  serves m (Active node) qids l → link_node l = node → Forall (λ e, event_id e ∈ qids) es → link_events es l = Ok l' →
  ∃ m' cmds, on_events 2 kRxDepth None es m = Ok (m', cmds) ∧ serves m' (Active node) qids l' ∧ next_id m' = next_id m.
Proof.
  intros Hs Hn Hes. revert m l Hs Hn. induction Hes as [|e es He Hes IH]; intros m l Hs Hn; cbn [link_events on_events].
  - intros [= <-]. eauto.
  - intros (l1 & H1 & H)%bind_Ok. destruct (on_link_event e m node qids l l1 Hs Hn He H1) as (m1 & c1 & E1 & Hs1 & N1).
    destruct (IH m1 l1 Hs1) as (m2 & c2 & E2 & Hs2 & N2); [by rewrite (link_event_node _ _ _ H1)|done|].
    rewrite (bind_eq _ _ _ E1). cbn [fst snd]. rewrite (bind_eq _ _ _ E2).
    exists m2, (c1 ++ c2). split; [reflexivity|]. split; [done|congruence].
Qed.

(** Both queue pairs are connecting. *)
Definition started (node id0 : Z) : link := mkLink node [CONNECTING; CONNECTING] [Some id0; Some (id0 + 1)] 0 0 false [].

(** The queue pair [i] of a round. *)
Lemma connect_one node i qs m l s old qids :
  serves m (Active node) qids l → status_list l !! i = Some s → cm_ids l !! i = Some old → s = IDLE ∨ s = REJECTED →
  ∃ m1, connect_qps node (Z.of_nat i :: qs) m =
      (r ← connect_qps node qs m1;
       Ok (r.1, match old with Some id => [destroy id] | None => [] end ++ [resolve_addr (next_id m)] ++ r.2)) ∧
    next_id m1 = next_id m + 1 ∧
    serves m1 (Active node) (next_id m :: qids)
      (l <| cm_ids ::= <[i := Some (next_id m)]> |> <| status_list ::= <[i := CONNECTING]> |>).
Proof.
  intros [Hl Hids] Hs Hc Hst. pose proof (lookup_lt_Some _ _ _ Hs). pose proof (lookup_lt_Some _ _ _ Hc).
  cbn [connect_qps]. unfold find_link, status_at. rewrite Hl. cbn [from_option_or mbind result_bind].
  rewrite (proj2 (Z.leb_le 0 (Z.of_nat i))), Nat2Z.id, Hs by lia. cbn [from_option_or mbind result_bind].
  rewrite bool_decide_eq_false_2 by (destruct Hst; naive_solver). rewrite Hc. unfold set_cm_id, set_status_at.
  rewrite (proj2 (andb_true_iff _ _)) by (split; lia). cbn [mbind result_bind]. simpl status_list.
  rewrite (proj2 (andb_true_iff _ _)) by (split; lia). cbn [mbind result_bind]. rewrite Nat2Z.id.
  eexists. split; [by destruct old|]. split; [done|]. split; [apply upd_eq|].
  intros id Hid. simpl. destruct (decide (id = next_id m)) as [->|Hne]; [apply upd_eq|rewrite upd_ne by done].
  apply Hids. by apply elem_of_cons in Hid as [|].
Qed.

Lemma connect_skip node i qs m l s qids :
  serves m (Active node) qids l → status_list l !! i = Some s → s = CONNECTING ∨ s = CONNECTED →
  connect_qps node (Z.of_nat i :: qs) m = connect_qps node qs m.
Proof.
  intros [Hl _] Hs Hst. cbn [connect_qps]. unfold find_link, status_at. rewrite Hl. cbn [from_option_or mbind result_bind].
  rewrite (proj2 (Z.leb_le 0 (Z.of_nat i))), Nat2Z.id, Hs by lia. cbn [from_option_or mbind result_bind].
  by rewrite bool_decide_eq_true_2.
Qed.

Lemma first_round node m :
  let id0 := next_id m in
  ∃ m', connect_round 2 node (begin_connect node m) = Ok (m', [resolve_addr id0; resolve_addr (id0 + 1)]) ∧
    serves m' (Active node) [id0; id0 + 1] (started node id0) ∧ next_id m' = id0 + 2.
Proof.
  intros id0. unfold connect_round, qps. change (seqZ 0 2) with [Z.of_nat 0; Z.of_nat 1].
  assert (serves (begin_connect node m) (Active node) [] (new_link <| link_node := node |>)) as H0.
  { split; [apply upd_eq|]. by intros id ?%elem_of_nil. }
  destruct (connect_one node 0 [Z.of_nat 1] _ _ IDLE None [] H0 eq_refl eq_refl (or_introl eq_refl)) as (m1 & E1 & N1 & H1).
  destruct (connect_one node 1 [] _ _ IDLE None _ H1 eq_refl eq_refl (or_introl eq_refl)) as (m2 & E2 & N2 & [H2 H2']).
  change (next_id (begin_connect node m)) with id0 in *. rewrite N1 in *.
  exists m2. rewrite E1, E2. split; [reflexivity|]. split; [|lia]. split; [exact H2|].
  intros id Hid. apply H2'. rewrite !elem_of_cons in *. naive_solver.
Qed.

(** All orders of two sequences. *)
Fixpoint interleave {A} (l : list A) : list A → list (list A) :=
  fix go l' :=
    match l, l' with
    | [], _ => [l']
    | _, [] => [l]
    | a :: tl, b :: tl' => map (cons a) (interleave tl l') ++ map (cons b) (go tl')
    end.

(** Both routes are resolved before a queue pair is established. *)
Definition routes_first (es : list cm_event) : bool :=
  match es with ROUTE_RESOLVED _ :: ROUTE_RESOLVED _ :: _ => true | _ => false end.

Lemma interleaved_links node id0 es :
  es ∈ interleave [ROUTE_RESOLVED id0; ESTABLISHED id0] [ROUTE_RESOLVED (id0 + 1); ESTABLISHED (id0 + 1)] →
  ∃ l, link_events es (started node id0) = Ok l ∧
    GetAllStatus 2 CONNECTED true l = Ok (routes_first es) ∧ GetAllStatus 2 CONNECTING false l = Ok (routes_first es) ∧
    Forall (λ e, event_id e ∈ [id0; id0 + 1]) es.
Proof.
  intros Hes. simpl in Hes. repeat (apply elem_of_cons in Hes as [->|Hes]); [..|by apply elem_of_nil in Hes];
    (eexists; split; [cbv -[posted_contexts]; reflexivity|]); (split; [reflexivity|]); (split; [reflexivity|]);
    repeat (constructor; [simpl; set_solver|]); constructor.
Qed.

(** A connection of two queue pairs: whatever the order of the events of the two,
    [Connect] ends if both routes are resolved before the first queue pair is
    established; in the other orders it waits for ever, because the counter names
    the wrong queue pair: all events have come and one queue pair is still
    connecting. *)
Theorem connect_needs_routes_first node m es :
  let id0 := next_id m in
  es ∈ interleave [ROUTE_RESOLVED id0; ESTABLISHED id0] [ROUTE_RESOLVED (id0 + 1); ESTABLISHED (id0 + 1)] →
  ∃ m1 m2 c1 c2, connect_round 2 node (begin_connect node m) = Ok (m1, c1) ∧
    on_events 2 kRxDepth None es m1 = Ok (m2, c2) ∧
    connect_done 2 node m2 = Ok (routes_first es) ∧ round_over 2 node m2 = Ok (routes_first es).
Proof.
  intros id0 Hes. destruct (first_round node m) as (m1 & E1 & Hs & _). fold id0 in E1, Hs.
  destruct (interleaved_links node id0 es Hes) as (l & El & Hd & Hr & Hid).
  destruct (on_link_events es m1 node _ _ l Hs eq_refl Hid El) as (m2 & c2 & E2 & [Hl _] & _).
  exists m1, m2, [resolve_addr id0; resolve_addr (id0 + 1)], c2. split; [exact E1|]. split; [exact E2|].
  unfold connect_done, round_over, find_link. rewrite Hl. exact (conj Hd Hr).
Qed.

Lemma reject_second node s0 s1 id0 c n sp r :
  SetStatus 2 (id0 + 1) REJECTED (mkLink node [s0; s1] [Some id0; Some (id0 + 1)] c n sp r) =
    mkLink node [s0; REJECTED] [Some id0; Some (id0 + 1)] c n sp r.
Proof.
  change (mkLink node (imap (λ i s', if bool_decide (Z.of_nat i < 2 ∧
    [Some id0; Some (id0 + 1)] !! i = Some (Some (id0 + 1))) then REJECTED else s') [s0; s1])
    [Some id0; Some (id0 + 1)] c n sp r = mkLink node [s0; REJECTED] [Some id0; Some (id0 + 1)] c n sp r).
  f_equal. cbn [imap]. unfold compose. rewrite bool_decide_eq_false_2, bool_decide_eq_true_2; [done|done|].
  intros [_ [= ?]]. lia.
Qed.

Lemma rejected_links node id0 :
  link_events [ROUTE_RESOLVED id0; ROUTE_RESOLVED (id0 + 1); ESTABLISHED id0; REJECTED_EVENT (id0 + 1)] (started node id0)
    = Ok (mkLink node [CONNECTED; REJECTED] [Some id0; Some (id0 + 1)] 1 2 false
            [(id0, posted_contexts 2 kRxDepth 0); (id0 + 1, posted_contexts 2 kRxDepth 1)]).
Proof. rewrite <-(reject_second node CONNECTED CONNECTING). cbv -[posted_contexts SetStatus Z.add]. reflexivity. Qed.

Lemma retried_links node id0 id2 r :
  ∃ l, link_events [ROUTE_RESOLVED id2; ESTABLISHED id2] (mkLink node [CONNECTED; CONNECTING] [Some id0; Some id2] 1 2 false r)
      = Ok l ∧
    GetAllStatus 2 CONNECTED true l = Ok false ∧ GetAllStatus 2 CONNECTING false l = Ok false.
Proof. eexists. split; [cbv -[posted_contexts]; reflexivity|]. split; reflexivity. Qed.

(** A queue pair that was rejected is tried again, but when the other one was
    established the counter is off by one: the second attempt never ends. *)
Theorem rejected_retry_hangs node m :
  let id0 := next_id m in
  let id1 := id0 + 1 in
  let id2 := id0 + 2 in
  ∃ m1 m2 m3 m4 c1 c2 c4,
    connect_round 2 node (begin_connect node m) = Ok (m1, c1) ∧
    on_events 2 kRxDepth None [ROUTE_RESOLVED id0; ROUTE_RESOLVED id1; ESTABLISHED id0; REJECTED_EVENT id1] m1 = Ok (m2, c2) ∧
    round_over 2 node m2 = Ok true ∧ connect_done 2 node m2 = Ok false ∧
    connect_round 2 node m2 = Ok (m3, [destroy id1; resolve_addr id2]) ∧
    on_events 2 kRxDepth None [ROUTE_RESOLVED id2; ESTABLISHED id2] m3 = Ok (m4, c4) ∧
    connect_done 2 node m4 = Ok false ∧ round_over 2 node m4 = Ok false.
Proof.
  intros id0 id1 id2. destruct (first_round node m) as (m1 & E1 & Hs1 & N1). fold id0 in E1, Hs1, N1.
  assert (Forall (λ e, event_id e ∈ [id0; id1])
    [ROUTE_RESOLVED id0; ROUTE_RESOLVED id1; ESTABLISHED id0; REJECTED_EVENT id1]) as Hid
    by (repeat (constructor; [simpl; set_solver|]); constructor).
  destruct (on_link_events _ m1 node _ _ _ Hs1 eq_refl Hid (rejected_links node id0)) as (m2 & c2 & E2 & Hs2 & N2).
  rewrite N1 in N2.
  destruct (connect_one node 1 [] m2 _ REJECTED (Some id1) _ Hs2 eq_refl eq_refl (or_intror eq_refl)) as (m3 & E3 & N3 & Hs3).
  rewrite N2 in E3, Hs3. fold id2 in E3, Hs3.
  destruct (retried_links node id0 id2 [(id0, posted_contexts 2 kRxDepth 0); (id1, posted_contexts 2 kRxDepth 1)])
    as (l4 & El4 & Hd4 & Hr4).
  assert (Forall (λ e, event_id e ∈ [id2; id0; id1]) [ROUTE_RESOLVED id2; ESTABLISHED id2]) as Hid2
    by (repeat (constructor; [simpl; set_solver|]); constructor).
  destruct (on_link_events _ m3 node _ _ _ Hs3 eq_refl Hid2 El4) as (m4 & c4 & E4 & [Hl4 _] & _).
  exists m1, m2, m3, m4, [resolve_addr id0; resolve_addr id1], c2, c4.
  split; [exact E1|]. split; [exact E2|].
  unfold round_over, connect_done, find_link. rewrite (proj1 Hs2), Hl4.
  split; [reflexivity|]. split; [reflexivity|]. split; [|exact (conj E4 (conj Hd4 Hr4))].
  unfold connect_round, qps. change (seqZ 0 2) with [Z.of_nat 0; Z.of_nat 1].
  rewrite (connect_skip node 0 _ m2 _ CONNECTED _ Hs2 eq_refl (or_intror eq_refl)), E3. reflexivity.
Qed.

(** The side that accepts. *)
Lemma on_request id host node port m l l1 qids :
  let o := Passive host node port in
  default new_link (links m o) = l → (∀ id, id ∈ qids → ids m id = Some o) →
  set_cm_id (inComingCount l) id (l <| link_node := node |>) = Ok l1 →
  ∃ m', on_event 2 kRxDepth None (CONNECT_REQUEST id host node port) m = Ok (m', [accept id]) ∧
    serves m' o (id :: qids) (wrap_count 2 (Init 2 kRxDepth id (l1 <| inComingCount ::= Z.succ |>))).
Proof.
  intros o <- Hids H1. cbn [on_event]. unfold OnConnectRequest. fold o. cbv zeta. rewrite (bind_eq _ _ _ H1).
  eexists. split; [reflexivity|]. split; [apply upd_eq|]. intros id' Hin. simpl.
  destruct (decide (id' = id)) as [->|Hne]; [apply upd_eq|rewrite upd_ne by done]. apply Hids.
  by apply elem_of_cons in Hin as [|].
Qed.

Lemma on_established id m o qids l l' :
  serves m o qids l → id ∈ qids → link_event (ESTABLISHED id) l = Ok l' →
  ∃ m', on_event 2 kRxDepth None (ESTABLISHED id) m = Ok (m', []) ∧ serves m' o qids l'.
Proof.
  intros Hs Hid H. pose proof Hs as [Hl Hids]. simpl in H |- *. unfold OnConnected, context_of, find_link.
  rewrite (Hids _ Hid). cbn [from_option_or mbind result_bind]. rewrite Hl. cbn [from_option_or mbind result_bind].
  apply bind_Ok in H as (l1 & H1 & H). apply bind_Ok in H as (b & H2 & [= <-]).
  rewrite (bind_eq _ _ _ H1). cbv zeta. rewrite (bind_eq _ _ _ H2). unfold set_qp_lag. cbn [default Z.eqb].
  destruct (_ =? 2); cbn [mbind result_bind]; eexists; (split; [reflexivity|]); (split; [apply upd_eq|apply Hs]).
Qed.

(** A node accepts two queue pairs: when the first is established before the
    second is asked for, the second takes its place, and the endpoint is left
    with one identifier instead of two. *)
Theorem accept_loses_queue_pair host node port m id0 id1 :
  links m (Passive host node port) = None →
  ∃ m' c l, on_events 2 kRxDepth None
      [CONNECT_REQUEST id0 host node port; ESTABLISHED id0; CONNECT_REQUEST id1 host node port; ESTABLISHED id1] m
      = Ok (m', c) ∧
    links m' (Passive host node port) = Some l ∧ cm_ids l = [Some id1; None] ∧ status_list l = [IDLE; CONNECTED].
Proof.
  intros Hnone. set (o := Passive host node port) in *. set (r := λ id n : Z, (id, posted_contexts 2 kRxDepth n)).
  destruct (on_request id0 host node port m new_link
    (mkLink node [IDLE; IDLE] [Some id0; None] 0 0 false []) []) as (m1 & E1 & H1);
    [fold o; by rewrite Hnone|by intros ? ?%elem_of_nil|reflexivity|]. fold o in H1.
  destruct (on_established id0 m1 o _ _ (mkLink node [IDLE; CONNECTED] [Some id0; None] 0 1 false [r id0 0]) H1)
    as (m2 & E2 & H2); [left|reflexivity|].
  destruct (on_request id1 host node port m2 (mkLink node [IDLE; CONNECTED] [Some id0; None] 0 1 false [r id0 0])
    (mkLink node [IDLE; CONNECTED] [Some id1; None] 0 1 false [r id0 0]) [id0]) as (m3 & E3 & H3);
    [fold o; by rewrite (proj1 H2)|apply H2|reflexivity|]. fold o in H3.
  destruct (on_established id1 m3 o _ _ (mkLink node [IDLE; CONNECTED] [Some id1; None] 0 2 false [r id0 0; r id1 1]) H3)
    as (m4 & E4 & H4); [left|reflexivity|].
  eexists m4, _, _. cbn [on_events]. rewrite (bind_eq _ _ _ E1). cbn [fst snd]. rewrite (bind_eq _ _ _ E2). cbn [fst snd].
  rewrite (bind_eq _ _ _ E3). cbn [fst snd]. rewrite (bind_eq _ _ _ E4). split; [reflexivity|].
  split; [exact (proj1 H4)|]. split; reflexivity.
Qed.
End two_queue_pairs.

(** The receive contexts of the two queue pairs of an endpoint overlap: from the
    third on, the first half is posted on both, and the last quarter and more of
    them on neither. *)
Theorem receive_contexts_shared kRxDepth i :
  0 < kRxDepth →
  (2 ≤ i < kRxDepth / 2 → i ∈ posted_contexts 2 kRxDepth 0 ∧ i ∈ posted_contexts 2 kRxDepth 1) ∧
  (kRxDepth / 2 + 2 ≤ i < kRxDepth → (i ∉ posted_contexts 2 kRxDepth 0) ∧ (i ∉ posted_contexts 2 kRxDepth 1)).
Proof.
  intros Hd. unfold posted_contexts. simpl. rewrite Z.quot_div_nonneg by lia.
  assert (∀ k, i ∈ map (λ j, j + k) (seqZ 0 (kRxDepth / 2)) ↔ k ≤ i < kRxDepth / 2 + k) as Hin.
  { intros k. rewrite list_elem_of_fmap. setoid_rewrite elem_of_seqZ. split.
    - intros (j & -> & ?). lia.
    - intros ?. exists (i - k). lia. }
  rewrite (Hin (0 * 2)), (Hin (1 * 2)). lia.
Qed.

(** [Bind] returns the first of its ports that can be taken, and [-1] after
    [max_retry + 1] attempts. *)
Lemma bind_ports_spec bind_addr rnd i max_retry port :
  let p := bind_ports bind_addr rnd i max_retry port in
  bind_addr p = true ∧ (p = port ∨ 10000 ≤ p < 50000) ∨ p = -1.
Proof.
  revert i port. induction max_retry as [|r IH]; intros i port; simpl; destruct (bind_addr port) eqn:E; auto.
  pose proof (Z.mod_pos_bound (rnd i) 40000).
  destruct (IH (S i) (10000 + rnd i mod 40000)) as [[H1 H2]|H1]; [left; split; [done|lia]|by right].
Qed.

(** A van without connections. *)
Definition demo_manager : manager := mkManager (λ _, None) (λ _, None) 1 false.

Lemma connect_needs_routes_first_witness :
  let late := [ROUTE_RESOLVED 1; ESTABLISHED 1; ROUTE_RESOLVED 2; ESTABLISHED 2] in
  ∃ m1 m2 c1 c2, connect_round 2 8 (begin_connect 8 demo_manager) = Ok (m1, c1) ∧
    on_events 2 256 None late m1 = Ok (m2, c2) ∧
    connect_done 2 8 m2 = Ok false ∧ round_over 2 8 m2 = Ok false.
Proof. apply (connect_needs_routes_first 256 8 demo_manager). apply list_elem_of_In. simpl. tauto. Defined.
