(* ===== verification/RdmaLifecycle.v ===== *)
(** * Start and end of the RDMA van (src/rdma_van.h, src/rdma_transport.h)

    The objects of the verbs library a van makes (event channel, identifiers,
    protection domain, completion queue, queue pairs, memory regions), when it
    makes them, and [Stop], which destroys them.  The library is the list of its
    objects: destroying an object twice, or one that others still need, is
    undefined or an error, as its manual pages say. *)

From S2P Require Import Prelude.

(** ** Objects of the library *)
Inductive res : Type := Channel | CmId | Pd | Cq | Qp | Mr.
#[export] Instance res_eq_dec : EqDecision res.
Proof. solve_decision. Defined.

Record verbs : Type := mkVerbs { live : list (Z * res); next : Z }.

Definition create (r : res) (vs : verbs) : Z * verbs :=
  (next vs, mkVerbs ((next vs, r) :: live vs) (next vs + 1)).

Definition is_live (h : Z) (r : res) (vs : verbs) : bool := bool_decide ((h, r) ∈ live vs).

Definition destroy (what : string) (h : Z) (r : res) (vs : verbs) : result verbs :=
  inside! is_live h r vs or what;
  Ok (mkVerbs (filter (λ x, x.1 ≠ h) (live vs)) (next vs)).

Definition any (r : res) (vs : verbs) : bool := existsb (λ x, bool_decide (x.2 = r)) (live vs).

(** Queue pairs must be destroyed before their completion queue, identifiers
    before their channel. *)
Definition ibv_destroy_cq (h : Z) (vs : verbs) : result verbs :=
  check! negb (any Qp vs) or "Failed to destroy CQ";
  destroy "ibv_destroy_cq" h Cq vs.
Definition rdma_destroy_event_channel (h : Z) (vs : verbs) : result verbs :=
  inside! negb (any CmId vs) or "rdma_destroy_event_channel";
  destroy "rdma_destroy_event_channel" h Channel vs.

Fixpoint dereg_all (hs : list Z) (vs : verbs) : result verbs :=
  match hs with
  | [] => Ok vs
  | h :: hs' => vs ← destroy "ibv_dereg_mr" h Mr vs; dereg_all hs' vs
  end.
Fixpoint reg_many (n : nat) (vs : verbs) : list Z * verbs :=
  match n with
  | O => ([], vs)
  | S n' => let '(h, vs) := create Mr vs in let '(hs, vs) := reg_many n' vs in (h :: hs, vs)
  end.

(** ** [Endpoint]: an identifier per queue pair with its [qp], the regions of the
       contexts once [Init] has made them, and those of the transport *)
Record endpoint : Type := mkEndpoint {
  slots : list (option (Z * option Z));
  ctx_mrs : option (list Z);
  trans_mrs : list Z;
  ep_count : Z
}.

Module Resources.
Record t : Type := mk {
  vb : verbs;
  should_stop_ : bool;
  event_channel_ : option Z;
  cm_event_polling_thread_ : bool;
  cq_polling_thread_ : bool;
  listener_ : option Z;
  context_ : bool;
  pd_ : option Z;
  cq_ : option Z;
  mem_allocator_ : option (list Z);
  mem_mr_ : gmap Z (Z * Z);                (* by address: region and length *)
  endpoints_ : gmap Z endpoint;            (* by node *)
  incoming_ : gmap Z endpoint              (* by peer *)
}.
End Resources.
Import Resources.

Definition new_van : Resources.t :=
  Resources.mk (mkVerbs [] 1) false None false false None false None None None ∅ ∅ ∅.

Section van.
Context (QP_NUM : nat) (contexts : nat).   (* kStartDepth + kReplyDepth + kRxDepth *)
Implicit Types (v : Resources.t) (ep : endpoint) (vs : verbs).

Definition new_endpoint : endpoint := mkEndpoint (replicate QP_NUM None) None [] 0.

(** ** Making objects *)

(** [Start]: the channel and the thread for its events. *)
Definition rdma_Start v : Resources.t :=
  let v := v <| should_stop_ := false |> in
  match event_channel_ v with
  | None =>
      let '(h, vs) := create Channel (vb v) in
      v <| vb := vs |> <| event_channel_ := Some h |> <| cm_event_polling_thread_ := true |>
  | Some _ => v
  end.

(** [rdma_create_id] *)
Definition rdma_create_id v : result (Z * verbs) :=
  ch ← from_option_or (Undefined "event_channel_") (event_channel_ v);
  inside! is_live ch Channel (vb v) or "event_channel_";
  Ok (create CmId (vb v)).

Definition rdma_Bind v : result Resources.t :=
  x ← rdma_create_id v;
  Ok (v <| vb := x.2 |> <| listener_ := Some x.1 |>).

Definition InitContext v : Resources.t :=
  let '(pd, vs) := create Pd (vb v) in
  let v := v <| vb := vs |> <| context_ := true |> <| pd_ := Some pd |> <| mem_allocator_ := Some [] |> in
  match cq_ v with
  | None => let '(cq, vs) := create Cq (vb v) in v <| vb := vs |> <| cq_ := Some cq |>
  | Some _ => v
  end.
Definition need_context v : Resources.t := if context_ v then v else InitContext v.

(** [Endpoint::Init] for the identifier of slot [i]. *)
Definition init_endpoint (i : nat) ep vs : result (endpoint * verbs) :=
  match slots ep !! i with
  | Some (Some (id, None)) =>
      let '(qp, vs) := create Qp vs in
      let ep := ep <| slots ::= <[i := Some (id, Some qp)]> |> in
      match ctx_mrs ep with
      | Some _ => Ok (ep, vs)
      | None => let '(hs, vs) := reg_many contexts vs in Ok (ep <| ctx_mrs := Some hs |>, vs)
      end
  | Some (Some (_, Some _)) => Err (CheckFailed "Create RDMA queue pair failed")
  | _ => Err (Undefined "rdma_create_qp")
  end.

Definition bump ep : endpoint :=
  ep <| ep_count ::= (λ c, if c + 1 =? Z.of_nat QP_NUM then 0 else c + 1) |>.

(** ** Destroying them *)

(** [rdma_destroy_qp] and [rdma_destroy_id] *)
Definition destroy_slot (o : option (Z * option Z)) vs : result verbs :=
  match o with
  | Some (id, Some qp) =>
      vs ← destroy "rdma_destroy_qp" qp Qp vs;
      destroy "rdma_destroy_id" id CmId vs
  | Some (_, None) => Err (Undefined "id->qp")
  | None => Err (Undefined "rdma_destroy_qp(nullptr)")
  end.
Fixpoint destroy_slots (l : list (option (Z * option Z))) vs : result verbs :=
  match l with
  | [] => Ok vs
  | o :: l' => vs ← destroy_slot o vs; destroy_slots l' vs
  end.

(** The destructor; without [Init] the fields [buffer] of the contexts have no
    value.  The transport and its regions go last. *)
Definition destroy_endpoint ep vs : result verbs :=
  hs ← from_option_or (Undefined "rx_ctx[i].buffer") (ctx_mrs ep);
  vs ← dereg_all hs vs;
  vs ← destroy_slots (slots ep) vs;
  dereg_all (trans_mrs ep) vs.
Fixpoint clear_endpoints (l : list (Z * endpoint)) vs : result verbs :=
  match l with
  | [] => Ok vs
  | (_, ep) :: l' => vs ← destroy_endpoint ep vs; clear_endpoints l' vs
  end.

(** [Stop], after [Van::Stop]; [mem_mr_], [cq_], [event_channel_] and
    [listener_] keep their values. *)
Definition rdma_Stop v : result Resources.t :=
  let v := v <| should_stop_ := true |> in
  inside! cq_polling_thread_ v or "cq_polling_thread_->join()";
  inside! cm_event_polling_thread_ v or "cm_event_polling_thread_->join()";
  vs ← dereg_all (default [] (mem_allocator_ v)) (vb v);
  vs ← clear_endpoints (map_to_list (incoming_ v)) vs;
  vs ← clear_endpoints (map_to_list (endpoints_ v)) vs;
  cq ← from_option_or (Undefined "ibv_destroy_cq(nullptr)") (cq_ v);
  vs ← ibv_destroy_cq cq vs;
  vs ← dereg_all (map (λ x, x.2.1) (map_to_list (mem_mr_ v))) vs;
  id ← from_option_or (Undefined "rdma_destroy_id(nullptr)") (listener_ v);
  vs ← destroy "rdma_destroy_id" id CmId vs;
  ch ← from_option_or (Undefined "rdma_destroy_event_channel(nullptr)") (event_channel_ v);
  vs ← rdma_destroy_event_channel ch vs;
  Ok (v <| vb := vs |> <| cq_polling_thread_ := false |> <| cm_event_polling_thread_ := false |>
        <| mem_allocator_ := None |> <| incoming_ := ∅ |> <| endpoints_ := ∅ |>).

(** ** What happens in between *)
Inductive event : Type :=
| Connect (node : Z)                     (* [Connect]: a new endpoint for the node *)
| ConnectSlot (node : Z) (i : nat)       (* a queue pair of a round of [Connect] *)
| RouteResolved (node : Z) (i : nat)
| ConnectRequest (peer : Z)
| Established (active : bool) (key : Z)
| RegisterMemory (addr len : Z)
| AllocBuffer                            (* [MemoryAllocator::Alloc] *)
| AllocDevice (active : bool) (key : Z). (* [BackendMemoryAllocator::Alloc] of the transport *)

Definition table (active : bool) v : gmap Z endpoint := if active then endpoints_ v else incoming_ v.
Definition put_endpoint (active : bool) (key : Z) ep v : Resources.t :=
  if active then v <| endpoints_ ::= <[key := ep]> |> else v <| incoming_ ::= <[key := ep]> |>.
Definition find_endpoint (active : bool) (key : Z) v : result endpoint :=
  from_option_or (Undefined "endpoint") (table active v !! key).

Definition accept_request (peer : Z) v : result Resources.t :=
  x ← rdma_create_id v;
  let v := v <| vb := x.2 |> in
  let ep := default new_endpoint (incoming_ v !! peer) in
  let i := Z.to_nat (ep_count ep) in
  inside! (i <? length (slots ep))%nat or "cm_ids[inComingCount]";
  let ep := ep <| slots ::= <[i := Some (x.1, None)]> |> in
  let v := need_context v in
  y ← init_endpoint i ep (vb v);
  vs ← dereg_all (trans_mrs y.1) y.2;
  Ok (put_endpoint false peer (bump (y.1 <| trans_mrs := [] |>)) (v <| vb := vs |>)).

Definition handle (e : event) v : result Resources.t :=
  match e with
  | Connect node =>
      vs ← match endpoints_ v !! node with Some ep => destroy_endpoint ep (vb v) | None => Ok (vb v) end;
      Ok (put_endpoint true node new_endpoint (v <| vb := vs |>))
  | ConnectSlot node i =>
      ep ← find_endpoint true node v;
      o ← from_option_or (Undefined "cm_ids[qpIndex]") (slots ep !! i);
      vs ← match o with Some _ => destroy_slot o (vb v) | None => Ok (vb v) end;
      x ← rdma_create_id (v <| vb := vs |>);
      Ok (put_endpoint true node (ep <| slots ::= <[i := Some (x.1, None)]> |>) (v <| vb := x.2 |>))
  | RouteResolved node i =>
      ep ← find_endpoint true node v;
      let v := need_context v in
      y ← init_endpoint i ep (vb v);
      Ok (put_endpoint true node (bump y.1) (v <| vb := y.2 |>))
  | ConnectRequest peer => accept_request peer v
  | Established active key =>
      ep ← find_endpoint active key v;
      Ok (put_endpoint active key (bump ep) (v <| cq_polling_thread_ := true |>))
  | RegisterMemory addr len =>
      _ ← from_option_or (Undefined "mem_allocator_->GetPD()") (mem_allocator_ v);
      if match mem_mr_ v !! addr with Some (_, n) => len <=? n | None => false end then Ok v
      else
        let '(h, vs) := create Mr (vb v) in
        Ok (v <| vb := vs |> <| mem_mr_ ::= <[addr := (h, len)]> |>)
  | AllocBuffer =>
      hs ← from_option_or (Undefined "mem_allocator_->Alloc()") (mem_allocator_ v);
      let '(h, vs) := create Mr (vb v) in
      Ok (v <| vb := vs |> <| mem_allocator_ := Some (h :: hs) |>)
  | AllocDevice active key =>
      ep ← find_endpoint active key v;
      let '(h, vs) := create Mr (vb v) in
      Ok (put_endpoint active key (ep <| trans_mrs ::= cons h |>) (v <| vb := vs |>))
  end.
Fixpoint handle_all (l : list event) v : result Resources.t :=
  match l with [] => Ok v | e :: l' => v ← handle e v; handle_all l' v end.
End van.
