(* ===== verification/RdmaStop.v ===== *)
(** * The RDMA van gives everything back (src/rdma_van.h)

    The objects of the verbs library that are alive are those the van refers to,
    whatever was connected, allocated and registered_mrs before; [Stop] destroys
    them in an order the library accepts.  What a later [Start] finds. *)

From S2P Require Import Prelude RdmaLifecycle.
Import Resources.

#[local] Arguments create : simpl never.

(** ** Ownership *)

(** The objects are those of [l], each with a handle of its own. *)
Definition owns (vs : verbs) (l : list (Z * res)) : Prop :=
  live vs ≡ₚ l ∧ NoDup (live vs).*1 ∧ ∀ x, x ∈ live vs → x.1 < next vs.

#[export] Instance owns_proper vs : Proper ((≡ₚ) ==> iff) (owns vs).
Proof. intros l l' H. unfold owns. by rewrite H. Qed.

Lemma owns_create r vs l h vs' : owns vs l → create r vs = (h, vs') → owns vs' ((h, r) :: l).
Proof.
  intros (Hp & Hn & Hlt) [= <- <-]. split_and!; cbn.
  - by rewrite Hp.
  - constructor; [|done]. intros (x & Hx & Hin)%list_elem_of_fmap. specialize (Hlt x Hin). lia.
  - intros x [->|Hx]%elem_of_cons; [cbn; lia|]. specialize (Hlt x Hx). lia.
Qed.

Lemma filter_handle (h : Z) (r : res) (l : list (Z * res)) :
  NoDup ((h, r) :: l).*1 → filter (λ x, x.1 ≠ h) ((h, r) :: l) = l.
Proof.
  intros [Hnin Hnd]%NoDup_cons. rewrite filter_cons_False by (cbn; tauto). apply filter_true.
  intros x Hx Hh. apply Hnin. cbn. rewrite <- Hh. by apply list_elem_of_fmap_2.
Qed.

Lemma owns_destroy what h r vs l :
  owns vs ((h, r) :: l) → ∃ vs', destroy what h r vs = Ok vs' ∧ owns vs' l.
Proof.
  intros (Hp & Hn & Hlt). unfold destroy, is_live. rewrite bool_decide_eq_true_2 by (rewrite Hp; by left).
  eexists. split; [reflexivity|]. unfold owns. cbn [live next].
  assert (filter (λ x, x.1 ≠ h) (live vs) ≡ₚ l) as HP.
  { rewrite Hp. rewrite filter_handle; [done|]. by rewrite <- Hp. }
  split_and!; [done| |].
  - rewrite HP. rewrite Hp in Hn. by apply NoDup_cons in Hn as [_ ?].
  - intros x [_ Hx]%list_elem_of_filter. by apply Hlt.
Qed.

Definition mrs (hs : list Z) : list (Z * res) := map (λ h, (h, Mr)) hs.

Lemma owns_dereg_all hs vs l : owns vs (mrs hs ++ l) → ∃ vs', dereg_all hs vs = Ok vs' ∧ owns vs' l.
Proof.
  revert vs. induction hs as [|h hs IH]; intros vs Ho; cbn in *; [by exists vs|].
  destruct (owns_destroy "ibv_dereg_mr" _ _ _ _ Ho) as (vs1 & -> & H1). cbn. by apply IH.
Qed.

Lemma owns_reg_many n vs l hs vs' : owns vs l → reg_many n vs = (hs, vs') → owns vs' (mrs hs ++ l).
Proof.
  revert vs l hs. induction n as [|n IH]; intros vs l hs Ho; cbn [reg_many]; [by intros [= <- <-]|].
  destruct (create Mr vs) as [h vs1] eqn:E1, (reg_many n vs1) as [hs1 vs2] eqn:E2. intros [= <- <-]. cbn.
  pose proof (IH _ _ _ (owns_create _ _ _ _ _ Ho E1) E2) as H. rewrite <- Permutation_middle in H. done.
Qed.

Lemma any_owned r vs l : owns vs l → (∀ x, x ∈ l → x.2 ≠ r) → any r vs = false.
Proof.
  intros (Hp & _) Hl. apply not_true_iff_false. intros (x & Hx & Hb)%existsb_exists.
  apply bool_decide_eq_true in Hb. apply list_elem_of_In in Hx. rewrite Hp in Hx. by apply (Hl x).
Qed.

(** ** What endpoints and the van refer to *)
Definition slot_res (o : option (Z * option Z)) : list (Z * res) :=
  match o with
  | Some (id, Some qp) => [(qp, Qp); (id, CmId)]
  | Some (id, None) => [(id, CmId)]
  | None => []
  end.
Definition ep_res (ep : endpoint) : list (Z * res) :=
  mrs (default [] (ctx_mrs ep)) ++ flat_map slot_res (slots ep) ++ mrs (trans_mrs ep).
Definition eps_res (m : gmap Z endpoint) : list (Z * res) := flat_map (λ x, ep_res x.2) (map_to_list m).
Definition opt_res (r : res) (o : option Z) : list (Z * res) := match o with Some h => [(h, r)] | None => [] end.
Definition registered_mrs (v : Resources.t) : list Z := map (λ x, x.2.1) (map_to_list (mem_mr_ v)).

Definition van_res (v : Resources.t) : list (Z * res) :=
  mrs (default [] (mem_allocator_ v)) ++ eps_res (incoming_ v) ++ eps_res (endpoints_ v) ++
  opt_res Cq (cq_ v) ++ mrs (registered_mrs v) ++ opt_res CmId (listener_ v) ++ opt_res Channel (event_channel_ v) ++
  opt_res Pd (pd_ v).

(** An endpoint whose queue pairs were all made. *)
Definition complete (ep : endpoint) : bool :=
  forallb (λ o, match o with Some (_, Some _) => true | _ => false end) (slots ep) &&
  match ctx_mrs ep with Some _ => true | None => false end.

Lemma owns_destroy_slots ss vs l :
  forallb (λ o, match o with Some (_, Some _) => true | _ => false end) ss = true →
  owns vs (flat_map slot_res ss ++ l) → ∃ vs', destroy_slots ss vs = Ok vs' ∧ owns vs' l.
Proof.
  revert vs. induction ss as [|o ss IH]; intros vs Hc Ho; cbn in *; [by exists vs|].
  apply andb_prop in Hc as [Hc1 Hc]. destruct o as [[id [qp|]]|]; try done. cbn in *.
  destruct (owns_destroy "rdma_destroy_qp" _ _ _ _ Ho) as (vs1 & -> & H1). cbn.
  destruct (owns_destroy "rdma_destroy_id" _ _ _ _ H1) as (vs2 & -> & H2). cbn. by apply IH.
Qed.

Lemma owns_destroy_endpoint ep vs l :
  complete ep = true → owns vs (ep_res ep ++ l) → ∃ vs', destroy_endpoint ep vs = Ok vs' ∧ owns vs' l.
Proof.
  intros [Hs Hm]%andb_prop. unfold ep_res, destroy_endpoint. destruct (ctx_mrs ep) as [hs|]; [|done]. cbn.
  intros Ho. rewrite <- !app_assoc in Ho. destruct (owns_dereg_all _ _ _ Ho) as (vs1 & -> & H1). cbn.
  destruct (owns_destroy_slots _ _ _ Hs H1) as (vs2 & -> & H2). cbn. by apply owns_dereg_all.
Qed.

Lemma owns_clear l vs rest :
  forallb (λ x, complete x.2) l = true → owns vs (flat_map (λ x, ep_res x.2) l ++ rest) →
  ∃ vs', clear_endpoints l vs = Ok vs' ∧ owns vs' rest.
Proof.
  revert vs. induction l as [|[k ep] l IH]; intros vs Hc Ho; cbn in *; [by exists vs|].
  apply andb_prop in Hc as [Hc1 Hc]. rewrite <- app_assoc in Ho.
  destruct (owns_destroy_endpoint _ _ _ Hc1 Ho) as (vs1 & -> & H1). cbn. by apply IH.
Qed.

(** ** [Stop] *)
Definition stoppable (v : Resources.t) : bool :=
  cq_polling_thread_ v && cm_event_polling_thread_ v &&
  forallb (λ x, complete x.2) (map_to_list (incoming_ v)) && forallb (λ x, complete x.2) (map_to_list (endpoints_ v)) &&
  match cq_ v, listener_ v, event_channel_ v with Some _, Some _, Some _ => true | _, _, _ => false end.

(** What is left without queue pairs and identifiers. *)
Lemma mrs_res hs x : x ∈ mrs hs → x.2 = Mr.
Proof. intros (y & -> & _)%list_elem_of_fmap. done. Qed.
Lemma opt_res_res r o x : x ∈ opt_res r o → x.2 = r.
Proof. destruct o; cbn; [by intros ->%list_elem_of_singleton|by intros ?%elem_of_nil]. Qed.

Ltac no_kind :=
  intros x Hx; rewrite ?elem_of_app in Hx;
  repeat match goal with H : _ ∨ _ |- _ => destruct H as [H|H] end;
  first [apply mrs_res in Hx|apply opt_res_res in Hx]; rewrite Hx; discriminate.

Lemma Stop_gives_back v lost :
  stoppable v = true → owns (vb v) (van_res v ++ mrs lost) →
  ∃ v', rdma_Stop v = Ok v' ∧ owns (vb v') (opt_res Pd (pd_ v) ++ mrs lost) ∧ event_channel_ v' = event_channel_ v.
Proof.
  unfold stoppable. rewrite !andb_true_iff. intros [[[[Hq Hc] Hin] Hep] Hm] Ho. unfold van_res in Ho.
  destruct (cq_ v) as [cq|] eqn:Ecq, (listener_ v) as [id|] eqn:Eid, (event_channel_ v) as [ch|] eqn:Ech; try done.
  rewrite <- !app_assoc in Ho. unfold rdma_Stop. cbn -[map_to_list]. rewrite Hq, Hc. cbn -[map_to_list].
  destruct (owns_dereg_all _ _ _ Ho) as (vs1 & -> & H1). cbn -[map_to_list].
  destruct (owns_clear _ _ _ Hin H1) as (vs2 & -> & H2). cbn -[map_to_list].
  destruct (owns_clear _ _ _ Hep H2) as (vs3 & -> & H3). cbn -[map_to_list].
  rewrite Ecq. cbn -[map_to_list]. unfold ibv_destroy_cq.
  rewrite (any_owned Qp vs3 (opt_res Cq (Some cq) ++ mrs (registered_mrs v) ++ opt_res CmId (Some id) ++
    opt_res Channel (Some ch) ++ opt_res Pd (pd_ v) ++ mrs lost) H3) by no_kind. cbn [negb].
  destruct (owns_destroy "ibv_destroy_cq" _ _ _ _ H3) as (vs4 & -> & H4). cbn -[map_to_list].
  destruct (owns_dereg_all (registered_mrs v) _ _ H4) as (vs5 & E5 & H5). unfold registered_mrs in E5. rewrite E5. cbn -[map_to_list].
  rewrite Eid. cbn. destruct (owns_destroy "rdma_destroy_id" _ _ _ _ H5) as (vs6 & -> & H6). cbn.
  rewrite Ech. cbn. unfold rdma_destroy_event_channel.
  rewrite (any_owned CmId vs6 (opt_res Channel (Some ch) ++ opt_res Pd (pd_ v) ++ mrs lost) H6) by no_kind. cbn [negb].
  destruct (owns_destroy "rdma_destroy_event_channel" _ _ _ _ H6) as (vs7 & -> & H7). cbn.
  eexists. split; [reflexivity|]. done.
Qed.

(** ** The events keep the account *)
Lemma eps_res_split (m : gmap Z endpoint) k :
  eps_res m ≡ₚ from_option ep_res [] (m !! k) ++ eps_res (delete k m).
Proof.
  unfold eps_res. destruct (m !! k) as [ep|] eqn:E; cbn [from_option].
  - rewrite <- (map_to_list_delete m k ep E). done.
  - by rewrite delete_id.
Qed.
Lemma eps_res_insert (m : gmap Z endpoint) k ep : eps_res (<[k := ep]> m) ≡ₚ ep_res ep ++ eps_res (delete k m).
Proof. by rewrite (eps_res_split _ k), lookup_insert_eq, delete_insert_eq. Qed.

(** Everything but endpoint [k]. *)
Definition other_res (active : bool) (k : Z) (v : Resources.t) : list (Z * res) :=
  van_res (if active then v <| endpoints_ ::= delete k |> else v <| incoming_ ::= delete k |>).

Lemma van_res_split active k v :
  van_res v ≡ₚ from_option ep_res [] (table active v !! k) ++ other_res active k v.
Proof.
  unfold other_res, van_res, table. destruct active; cbn.
  - rewrite (eps_res_split (endpoints_ v) k). solve_Permutation.
  - rewrite (eps_res_split (incoming_ v) k). solve_Permutation.
Qed.
Lemma van_res_set active k ep v : van_res (put_endpoint active k ep v) ≡ₚ ep_res ep ++ other_res active k v.
Proof.
  unfold other_res, van_res, put_endpoint. destruct active; cbn.
  - rewrite (eps_res_insert (endpoints_ v) k). solve_Permutation.
  - rewrite (eps_res_insert (incoming_ v) k). solve_Permutation.
Qed.

Lemma slots_insert (l : list (option (Z * option Z))) i o o' :
  l !! i = Some o → flat_map slot_res (<[i := o']> l) ++ slot_res o ≡ₚ flat_map slot_res l ++ slot_res o'.
Proof.
  revert i. induction l as [|x l IH]; intros [|i] Hi; try done; cbn.
  - injection Hi as ->. solve_Permutation.
  - rewrite <- !app_assoc, IH by done. done.
Qed.

Lemma ep_res_slot ep i o o' :
  slots ep !! i = Some o → ep_res (ep <| slots ::= <[i := o']> |>) ++ slot_res o ≡ₚ ep_res ep ++ slot_res o'.
Proof.
  intros Hi. unfold ep_res. cbn. pose proof (slots_insert _ _ _ o' Hi) as H.
  set (c := mrs (default [] (ctx_mrs ep))). set (t := mrs (trans_mrs ep)).
  transitivity (c ++ t ++ flat_map slot_res (<[i := o']> (slots ep)) ++ slot_res o); [solve_Permutation|].
  rewrite H. solve_Permutation.
Qed.

Section events.
Context (QP_NUM contexts : nat).

(** The van owns what it refers to, besides regions [lost]; before the first
    connection there is no domain. *)
Record account (v : Resources.t) (lost : list (Z * res)) : Prop := {
  acc_owns : owns (vb v) (van_res v ++ lost);
  acc_context : context_ v = false → pd_ v = None ∧ mem_allocator_ v = None;
  acc_thread : is_Some (event_channel_ v) → cm_event_polling_thread_ v = true
}.

Lemma account_need_context v lost : account v lost → account (need_context v) lost.
Proof.
  intros Hacc. unfold need_context. destruct (context_ v) eqn:E; [exact Hacc|]. destruct Hacc as [Ho Hc Ht].
  destruct (Hc E) as [Hpd Hal]. unfold InitContext. destruct (create Pd (vb v)) as [pd vs1] eqn:E1.
  pose proof (owns_create _ _ _ _ _ Ho E1) as H1. cbn.
  destruct (cq_ v) as [cq|] eqn:Ecq; cbn.
  - constructor; cbn; [|done|done]. eapply owns_proper; [|exact H1]. unfold van_res. cbn. rewrite Hpd, Hal, Ecq. cbn. solve_Permutation.
  - unfold const. destruct (create Cq vs1) as [c vs2] eqn:E2. pose proof (owns_create _ _ _ _ _ H1 E2) as H2.
    constructor; cbn; [|done|done]. eapply owns_proper; [|exact H2]. unfold van_res. cbn. rewrite Hpd, Hal, Ecq. cbn. solve_Permutation.
Qed.

Lemma account_perm v l l' : l ≡ₚ l' → account v l → account v l'.
Proof. intros Hp [Ho Hc Ht]. constructor; [|done|done]. by rewrite <- Hp. Qed.

Lemma account_set active k ep v vs lost lost0 :
  account v lost0 → owns vs (ep_res ep ++ other_res active k v ++ lost) →
  account (put_endpoint active k ep (v <| vb := vs |>)) lost.
Proof.
  intros [_ Hc Ht] Ho. constructor.
  - assert (vb (put_endpoint active k ep (v <| vb := vs |>)) = vs) as -> by by destruct active.
    rewrite van_res_set. assert (other_res active k (v <| vb := vs |>) = other_res active k v) as -> by by destruct active.
    by rewrite <- app_assoc.
  - by destruct active.
  - by destruct active.
Qed.

Lemma account_split active k v lost :
  account v lost → owns (vb v) (from_option ep_res [] (table active v !! k) ++ other_res active k v ++ lost).
Proof. intros [Ho _ _]. by rewrite (van_res_split active k), <- app_assoc in Ho. Qed.

Lemma ep_res_new : ep_res (new_endpoint QP_NUM) = [].
Proof.
  unfold ep_res, new_endpoint. cbn. rewrite app_nil_r. induction QP_NUM as [|n IH]; [done|]. exact IH.
Qed.

Lemma destroy_slot_Ok o vs vs' rest :
  owns vs (slot_res o ++ rest) → destroy_slot o vs = Ok vs' → owns vs' rest.
Proof.
  intros Ho. destruct o as [[id [qp|]]|]; try done. intros E.
  destruct (owns_destroy_slots [Some (id, Some qp)] vs rest eq_refl Ho) as (vs1 & E1 & H1).
  cbn [destroy_slots] in E1. rewrite E in E1. by injection E1 as <-.
Qed.

Lemma destroy_slots_complete ss vs vs' : destroy_slots ss vs = Ok vs' →
  forallb (λ o, match o with Some (_, Some _) => true | _ => false end) ss = true.
Proof.
  revert vs. induction ss as [|o ss IH]; intros vs; cbn; [done|]. intros (vs1 & E & H)%bind_Ok.
  destruct o as [[id [qp|]]|]; try done. by eapply IH.
Qed.
Lemma destroy_endpoint_Ok ep vs vs' rest :
  owns vs (ep_res ep ++ rest) → destroy_endpoint ep vs = Ok vs' → owns vs' rest.
Proof.
  intros Ho E. assert (complete ep = true) as Hc.
  { unfold destroy_endpoint, complete in *. destruct (ctx_mrs ep) as [hs|]; [|done]. cbn in E.
    apply bind_Ok in E as (vs1 & _ & E). apply bind_Ok in E as (vs2 & E2 & _). by rewrite (destroy_slots_complete _ _ _ E2). }
  destruct (owns_destroy_endpoint ep vs rest Hc Ho) as (vs1 & E1 & H1). rewrite E in E1. by injection E1 as <-.
Qed.

Lemma init_endpoint_owns i ep vs ep' vs' rest :
  owns vs (ep_res ep ++ rest) → init_endpoint contexts i ep vs = Ok (ep', vs') → owns vs' (ep_res ep' ++ rest).
Proof.
  intros Ho. unfold init_endpoint. destruct (slots ep !! i) as [[[id [qp|]]|]|] eqn:Es; try done.
  destruct (create Qp vs) as [qp vs1] eqn:E1. pose proof (owns_create _ _ _ _ _ Ho E1) as H1.
  pose proof (ep_res_slot ep i _ (Some (id, Some qp)) Es) as Hp. cbn [slot_res] in Hp.
  change [(qp, Qp); (id, CmId)] with ([(qp, Qp)] ++ [(id, CmId)]) in Hp. rewrite app_assoc in Hp.
  apply Permutation_app_inv_r in Hp. cbv zeta. set (ep1 := ep <| slots ::= _ |>) in *.
  assert (owns vs1 (ep_res ep1 ++ rest)) as H2 by (rewrite Hp; rewrite <- app_assoc; cbn; by rewrite <- Permutation_middle).
  destruct (ctx_mrs ep1) as [hs|] eqn:Ec; [by intros [= <- <-]|].
  destruct (reg_many contexts vs1) as [hs vs2] eqn:E2. intros [= <- <-].
  pose proof (owns_reg_many _ _ _ _ _ H2 E2) as H3. unfold ep_res in *. rewrite Ec in H3. cbn in *.
  by rewrite <- !app_assoc in *.
Qed.

Lemma create_id_Ok v h vs : rdma_create_id v = Ok (h, vs) → create CmId (vb v) = (h, vs).
Proof.
  unfold rdma_create_id. intros (ch & _ & E)%bind_Ok. destruct (is_live _ _ _); [|done]. congruence.
Qed.

(** A new identifier: the van does not refer to it yet. *)
Lemma account_new_id v lost h vs :
  account v lost → rdma_create_id v = Ok (h, vs) → account (v <| vb := vs |>) ((h, CmId) :: lost).
Proof.
  intros [Ho Hc Ht] E%create_id_Ok. pose proof (owns_create _ _ _ _ _ Ho E) as H. constructor; [|done|done].
  rewrite <- Permutation_middle. exact H.
Qed.

(** A peer connects once: the place for its identifier is free. *)
Definition slot_free (e : event) (v : Resources.t) : Prop :=
  match e with
  | ConnectRequest peer =>
      let ep := default (new_endpoint QP_NUM) (incoming_ v !! peer) in
      slots ep !! Z.to_nat (ep_count ep) = Some None
  | _ => True
  end.

Lemma need_context_tables v : incoming_ (need_context v) = incoming_ v ∧ endpoints_ (need_context v) = endpoints_ v.
Proof.
  unfold need_context, InitContext. destruct (context_ v); [done|]. destruct (create Pd (vb v)). cbn.
  destruct (cq_ v); [done|]. by destruct (create Cq _).
Qed.

Lemma ep_res_no_trans ep : ep_res ep ≡ₚ mrs (trans_mrs ep) ++ ep_res (ep <| trans_mrs := [] |>).
Proof. unfold ep_res. cbn. solve_Permutation. Qed.

Lemma account_request peer v v' lost :
  account v lost → slot_free (ConnectRequest peer) v → accept_request QP_NUM contexts peer v = Ok v' → account v' lost.
Proof.
  intros Ha Hf E. unfold accept_request in E. apply bind_Ok in E as ([id vs] & Eid & E). cbn beta zeta in E.
  pose proof (account_need_context _ _ (account_new_id _ _ _ _ Ha Eid)) as Ha2.
  change (incoming_ (v <| vb := (id, vs).2 |>)) with (incoming_ v) in E. cbn [fst snd] in E.
  cbn in Hf. set (ep := default _ _) in Hf, E. destruct (_ <? _)%nat; [|done].
  set (v2 := need_context (v <| vb := vs |>)) in *. apply bind_Ok in E as ([ep2 vs2] & Ei & E).
  apply bind_Ok in E as (vs3 & Ed & E). injection E as <-. cbn [fst snd] in *.
  pose proof (ep_res_slot ep _ _ (Some (id, None)) Hf) as Hp. cbn [slot_res] in Hp. rewrite app_nil_r in Hp.
  pose proof (account_split false peer _ _ Ha2) as Ho. cbn [table] in Ho.
  assert (incoming_ v2 = incoming_ v) as Hin by exact (proj1 (need_context_tables (v <| vb := vs |>))). rewrite Hin in Ho.
  assert (from_option ep_res [] (incoming_ v !! peer) = ep_res ep) as Heq.
  { unfold ep. destruct (incoming_ v !! peer); [done|]. symmetry. apply ep_res_new. }
  rewrite Heq in Ho.
  assert (owns vs2 (ep_res ep2 ++ other_res false peer v2 ++ lost)) as H2.
  { eapply init_endpoint_owns; [|exact Ei]. rewrite Hp. eapply owns_proper; [|exact Ho]. solve_Permutation. }
  rewrite (ep_res_no_trans ep2), <- app_assoc in H2. destruct (owns_dereg_all _ _ _ H2) as (vs4 & E4 & H4).
  rewrite Ed in E4. injection E4 as <-.
  exact (account_set false peer (bump QP_NUM (ep2 <| trans_mrs := [] |>)) v2 vs3 lost _ Ha2 H4).
Qed.

(** An identifier in the place of another one. *)
Lemma account_slot node i ep o v vs id vs1 lost :
  account v lost → endpoints_ v !! node = Some ep → slots ep !! i = Some o →
  (match o with Some _ => destroy_slot o (vb v) | None => Ok (vb v) end) = Ok vs →
  rdma_create_id (v <| vb := vs |>) = Ok (id, vs1) →
  account (put_endpoint true node (ep <| slots ::= <[i := Some (id, None)]> |>) (v <| vb := vs1 |>)) lost.
Proof.
  intros Ha Eep Eo Ed Eid. pose proof (account_split true node _ _ Ha) as Ho. cbn [table] in Ho. rewrite Eep in Ho.
  cbn [from_option] in Ho. pose proof (ep_res_slot ep i o (Some (id, None)) Eo) as Hp. cbn [slot_res] in Hp.
  pose proof (ep_res_slot ep i o None Eo) as Hp0. cbn [slot_res] in Hp0. rewrite app_nil_r in Hp0.
  set (ep0 := ep <| slots ::= <[i := None]> |>) in *. set (ep1 := ep <| slots ::= <[i := Some (id, None)]> |>) in *.
  assert (owns vs (ep_res ep0 ++ other_res true node v ++ lost)) as H1.
  { assert (owns (vb v) (slot_res o ++ ep_res ep0 ++ other_res true node v ++ lost)) as H0.
    { eapply owns_proper; [|exact Ho]. rewrite <- Hp0. solve_Permutation. }
    destruct o; [by eapply destroy_slot_Ok|]. by injection Ed as <-. }
  apply create_id_Ok in Eid. pose proof (owns_create _ _ _ _ _ H1 Eid) as H2.
  assert (ep_res ep1 ≡ₚ (id, CmId) :: ep_res ep0) as HP.
  { apply (Permutation_app_inv_r (slot_res o)). rewrite Hp, <- Hp0. solve_Permutation. }
  eapply account_set; [exact Ha|]. rewrite HP. exact H2.
Qed.

(** Memory regions: for an address, for a buffer, for the values of a key. *)
Lemma registered_insert addr x v :
  registered_mrs (v <| mem_mr_ ::= <[addr := x]> |>) ≡ₚ x.1 :: registered_mrs (v <| mem_mr_ ::= delete addr |>).
Proof.
  unfold registered_mrs. cbn. rewrite <- (insert_delete_eq (mem_mr_ v) addr x), map_to_list_insert by apply lookup_delete_eq. done.
Qed.
Lemma registered_split addr v :
  registered_mrs v ≡ₚ from_option (λ x, [x.1]) [] (mem_mr_ v !! addr) ++ registered_mrs (v <| mem_mr_ ::= delete addr |>).
Proof.
  unfold registered_mrs. cbn. destruct (mem_mr_ v !! addr) as [x|] eqn:E; cbn.
  - by rewrite <- (map_to_list_delete _ _ _ E).
  - by rewrite delete_id.
Qed.

(** The region that an event leaves without an owner: the one registered for an
    address before, when the address is registered again with a larger size. *)
Definition replaced (e : event) (v : Resources.t) : list Z :=
  match e with
  | RegisterMemory addr len =>
      match mem_mr_ v !! addr with Some (h, n) => if len <=? n then [] else [h] | None => [] end
  | _ => []
  end.

Lemma account_handle e v v' lost :
  account v (mrs lost) → slot_free e v → handle QP_NUM contexts e v = Ok v' → account v' (mrs (replaced e v ++ lost)).
Proof.
  intros Ha Hf. destruct e as [node|node i|node i|peer|active key|addr len| |active key]; cbn [handle replaced app].
  - intros (vs & E & [= <-])%bind_Ok.
    apply (account_set true node (new_endpoint QP_NUM) v vs (mrs lost) _ Ha). rewrite ep_res_new. cbn [app].
    pose proof (account_split true node _ _ Ha) as Ho. cbn [table] in Ho. destruct (endpoints_ v !! node) as [ep|].
    + by eapply destroy_endpoint_Ok.
    + by injection E as <-.
  - intros (ep & Eep & E)%bind_Ok. apply bind_Ok in E as (o & Eo & E). apply bind_Ok in E as (vs & Ed & E).
    apply bind_Ok in E as ([id vs1] & Eid & [= <-]). apply from_option_or_Ok in Eep, Eo.
    exact (account_slot node i ep o v vs id vs1 _ Ha Eep Eo Ed Eid).
  - intros (ep & Eep & E)%bind_Ok. apply bind_Ok in E as ([ep2 vs2] & Ei & [= <-]).
    apply from_option_or_Ok in Eep. pose proof (account_need_context _ _ Ha) as Ha2.
    pose proof (account_split true node _ _ Ha2) as Ho. cbn [table] in *.
    rewrite (proj2 (need_context_tables v)), Eep in Ho.
    refine (account_set true node (bump QP_NUM ep2) (need_context v) vs2 (mrs lost) _ Ha2 _).
    change (ep_res (bump QP_NUM ep2)) with (ep_res ep2). by eapply init_endpoint_owns.
  - intros E. by eapply account_request.
  - intros (ep & Eep & [= <-])%bind_Ok. apply from_option_or_Ok in Eep.
    pose proof (account_split active key _ _ Ha) as Ho. rewrite Eep in Ho.
    pose proof (account_set active key (bump QP_NUM ep) v (vb v) _ _ Ha Ho) as [H1 H2 H3].
    constructor; destruct active; assumption.
  - intros (hs & Eal & E)%bind_Ok. destruct (match mem_mr_ v !! addr with Some (_, n) => len <=? n | None => false end) eqn:Efit.
    { injection E as <-. destruct (mem_mr_ v !! addr) as [[h n]|]; [|done]. by rewrite Efit. }
    assert (match mem_mr_ v !! addr with Some (h, n) => if len <=? n then [] else [h] | None => [] end =
            from_option (λ x, [x.1]) [] (mem_mr_ v !! addr)) as ->
      by (destruct (mem_mr_ v !! addr) as [[h n]|]; [by rewrite Efit|done]).
    destruct (create Mr (vb v)) as [h vs] eqn:Ec. injection E as <-. destruct Ha as [Ho Hc Ht]. constructor; [|done|done].
    refine (proj1 (owns_proper _ _ _ _) (owns_create _ _ _ _ _ Ho Ec)). unfold van_res, mrs.
    rewrite registered_insert, (registered_split addr v), !map_app. cbn. solve_Permutation.
  - intros (hs & Eal & E)%bind_Ok. apply from_option_or_Ok in Eal. destruct (create Mr (vb v)) as [h vs] eqn:Ec.
    injection E as <-. destruct Ha as [Ho Hc Ht]. constructor; [| |done].
    + refine (proj1 (owns_proper _ _ _ _) (owns_create _ _ _ _ _ Ho Ec)). unfold van_res. cbn. by rewrite Eal.
    + intros H. cbn in H. destruct (Hc H) as [_ Hn]. by rewrite Eal in Hn.
  - intros (ep & Eep & E)%bind_Ok. apply from_option_or_Ok in Eep. destruct (create Mr (vb v)) as [h vs] eqn:Ec.
    injection E as <-. pose proof (account_split active key _ _ Ha) as Ho. rewrite Eep in Ho.
    refine (account_set active key _ v vs (mrs lost) _ Ha _).
    refine (proj1 (owns_proper _ _ _ _) (owns_create _ _ _ _ _ Ho Ec)). cbn [from_option]. unfold ep_res. cbn. solve_Permutation.
Qed.

(** Events one after the other, with the regions they leave without an owner. *)
Inductive run : Resources.t → list event → list Z → Resources.t → Prop :=
| run_nil v : run v [] [] v
| run_cons v e v1 l lost v2 :
    slot_free e v → handle QP_NUM contexts e v = Ok v1 → run v1 l lost v2 → run v (e :: l) (replaced e v ++ lost) v2.

Lemma account_run v l lost v' lost0 :
  run v l lost v' → account v (mrs lost0) → account v' (mrs (lost ++ lost0)).
Proof.
  intros Hr. revert lost0. induction Hr as [|v e v1 l lost v2 Hf He Hr IH]; intros lost0 Ha; [done|].
  pose proof (IH _ (account_handle _ _ _ _ Ha Hf He)) as H1. eapply account_perm; [|exact H1].
  unfold mrs. rewrite !map_app. solve_Permutation.
Qed.

(** C34. [Stop] gives everything back: after [Start], [Bind] and any
    connections, requests, registrations and allocations, with no peer
    connecting twice, a van whose connections are complete stops without a fault;
    of the objects of the verbs library exactly the protection domain is left, and
    the regions [lost] in the run, those of addresses that were registered again
    with a larger size: everything else was given back.  But the van cannot be started again: the channel it keeps was destroyed. *)
Theorem rdma_stop_gives_back v0 l lost v :
  rdma_Bind (rdma_Start new_van) = Ok v0 → run v0 l lost v → stoppable v = true →
  ∃ v', rdma_Stop v = Ok v' ∧ live (vb v') ≡ₚ opt_res Pd (pd_ v) ++ mrs lost ∧
    rdma_Bind (rdma_Start v') = Err (Undefined "event_channel_").
Proof.
  intros E0 Hr Hs. assert (account v0 (mrs [])) as H0.
  { vm_compute in E0. injection E0 as <-. constructor; [|done|done]. split_and!; [vm_compute; solve_Permutation| |].
    - vm_compute. repeat constructor; intros Hx; rewrite ?elem_of_cons, ?elem_of_nil in Hx; naive_solver lia.
    - cbn. intros x Hx. rewrite !elem_of_cons, elem_of_nil in Hx. destruct Hx as [->|[->|[]]]; cbn; lia. }
  pose proof (account_run _ _ _ _ _ Hr H0) as [Ho Hc Ht]. rewrite app_nil_r in Ho.
  destruct (Stop_gives_back _ _ Hs Ho) as (v' & Es & (Hp & Hnd & Hlt) & Hch). exists v'. split_and!; [done|done|].
  unfold stoppable in Hs. rewrite !andb_true_iff in Hs. destruct Hs as [_ Hm].
  destruct (cq_ v), (listener_ v), (event_channel_ v) as [ch|]; try done.
  unfold rdma_Bind, rdma_create_id, rdma_Start. cbn. rewrite Hch. cbn. rewrite Hch. cbn.
  unfold is_live. rewrite bool_decide_eq_false_2; [done|]. rewrite Hp.
  intros [Hx|Hx]%elem_of_app; [apply opt_res_res in Hx|apply mrs_res in Hx]; discriminate Hx.
Qed.
End events.

(** ** Examples with two queue pairs *)
Definition demo_events : list event :=
  [Connect 1; ConnectSlot 1 0; ConnectSlot 1 1; RouteResolved 1 0; RouteResolved 1 1; Established true 1; Established true 1;
   ConnectRequest 9; ConnectRequest 9; Established false 9; Established false 9;
   AllocBuffer; RegisterMemory 4096 100; RegisterMemory 4096 200; AllocDevice false 9].
Definition demo_bound : Resources.t := match rdma_Bind (rdma_Start new_van) with Ok v => v | Err _ => new_van end.
Definition demo_van : Resources.t := match handle_all 2 3 demo_events demo_bound with Ok v => v | Err _ => new_van end.

(** The region of the first registration of address 4096 is replaced. *)
Definition demo_lost : list Z := [20].

Lemma demo_events_run : run 2 3 demo_bound demo_events demo_lost demo_van.
Proof.
  assert (∃ lost, run 2 3 demo_bound demo_events lost demo_van ∧ lost = demo_lost) as (lost & Hr & <-); [|exact Hr].
  eexists. split.
  - unfold demo_events. repeat (eapply run_cons; [vm_compute; first [exact I|reflexivity]|vm_compute; reflexivity|]).
    vm_compute. apply run_nil.
  - vm_compute. reflexivity.
Qed.

Lemma rdma_stop_gives_back_witness :
  ∃ v', rdma_Stop demo_van = Ok v' ∧ live (vb v') ≡ₚ opt_res Pd (pd_ demo_van) ++ mrs demo_lost ∧
    length (live (vb v')) = 2%nat ∧ rdma_Bind (rdma_Start v') = Err (Undefined "event_channel_").
Proof.
  destruct (rdma_stop_gives_back 2 3 demo_bound demo_events demo_lost demo_van) as (v' & H1 & H2 & H3).
  - vm_compute. reflexivity.
  - exact demo_events_run.
  - vm_compute. reflexivity.
  - exists v'. split_and!; [done|done| |done]. by rewrite H2.
Defined.

(** A peer that comes back connects again over the same endpoint: the identifiers
    and queue pairs of its first connection are lost, and [Stop] fails. *)
Theorem peer_connects_twice :
  (v ← handle_all 2 3 [ConnectRequest 9; ConnectRequest 9; Established false 9; Established false 9;
                       ConnectRequest 9; ConnectRequest 9; Established false 9; Established false 9] demo_bound;
   rdma_Stop v) = Err (CheckFailed "Failed to destroy CQ").
Proof. vm_compute. reflexivity. Qed.

(** Without any connection there is no thread to join; and an endpoint whose
    connection is pending cannot be replaced. *)
Theorem stop_without_connection : rdma_Stop demo_bound = Err (Undefined "cq_polling_thread_->join()").
Proof. vm_compute. reflexivity. Qed.
Theorem pending_endpoint_replaced :
  handle_all 2 3 [Connect 1; ConnectSlot 1 0; Connect 1] demo_bound = Err (Undefined "rx_ctx[i].buffer").
Proof. vm_compute. reflexivity. Qed.
