(* ===== verification/RdmaVan.v ===== *)
(** * The RDMA van (src/rdma_van.h)

    [RDMAVan] on the connections of RdmaTransport.v: the first message of a key
    to a node is announced by a rendezvous, and the buffers it gets are kept
    for the later messages of that key; completions of the adapter are handled
    by [PollCQ] and lead to messages for [RecvMsg].  Compiled with
    STEPMESH_USE_GDR and without STEPMESH_ENABLE_TRACE. *)

From S2P Require Import Prelude Message Env Postoffice Codec RdmaMemory RdmaTransport.
Import Endpoint.

(** A connection as a node sees it: the one it made to a peer, over which it
    sends messages, or the one a peer made to it. *)
Inductive conn : Type := Out (peer : Z) | In (peer : Z).

(** An entry of [recv_buffers_]. *)
Record notification : Type := mkNotification { nt_conn : conn; nt_ctx : BufferContext; nt_cmd : Z }.

Module RDMAVan.
Record t : Type := mk {
  my_id : Z;
  host_ : host;
  mem_allocator_ : MemoryAllocator;
  mem_mr_ : gmap Z ibv_mr;
  addr_pool_ : AddressPool BufferContext;
  endpoints_ : gmap Z Endpoint.t;
  incoming_ : gmap Z Endpoint.t;
  push_addr_ : gmap (Z * Z) RemoteTuple;      (* by key and receiver *)
  pull_addr_ : gmap (Z * Z) RemoteTuple;
  msg_bufs : list MessageBuffer;              (* the one at address [i] is number [i - 1] *)
  msgbuf_cache_ : gmap Z Message.t;
  registered_recv_buffers_ : gmap Z (list (Z * SArray.t byte));
  recv_buffers_ : list notification
}.
End RDMAVan.
Import RDMAVan.

Definition IsValidPushpull (msg : Message.t) : bool :=
  Control.empty (Meta.control (Message.meta msg)) && negb (Meta.simple_app (Message.meta msg)).

Definition get_endpoint (c : conn) (v : RDMAVan.t) : result Endpoint.t :=
  match c with
  | Out p => from_option_or (CheckFailed "failed to found enpoints") (endpoints_ v !! p)
  | In p => from_option_or (Undefined "endpoint") (incoming_ v !! p)
  end.
Definition set_endpoint (c : conn) (ep : Endpoint.t) (v : RDMAVan.t) : RDMAVan.t :=
  match c with
  | Out p => v <| endpoints_ ::= <[p := ep]> |>
  | In p => v <| incoming_ ::= <[p := ep]> |>
  end.

(** The message buffer at an address. *)
Definition get_buf (a : Z) (v : RDMAVan.t) : result MessageBuffer :=
  inside! (1 <=? a) or "msg_buf";
  from_option_or (Undefined "msg_buf") (msg_bufs v !! Z.to_nat (a - 1)).
Definition set_buf (a : Z) (mb : MessageBuffer) (v : RDMAVan.t) : RDMAVan.t :=
  v <| msg_bufs ::= <[Z.to_nat (a - 1) := mb]> |>.

Section van.
Context {verbs : Verbs}.
Context (pagesize : Z) (malloc : list (Z * Z) → Z → Z) (mr_keys : nat → Z * Z).
Context (QP_NUM : Z).
Implicit Types (v : RDMAVan.t) (msg : Message.t).

(** ** Registered memory *)
Definition register (addr len : Z) v : RDMAVan.t :=
  let '(mr, h) := ibv_reg_mr mr_keys addr len (host_ v) in
  v <| host_ := h |> <| mem_mr_ ::= <[addr := mr]> |>.

Definition registered (addr len : Z) v : bool :=
  match mem_mr_ v !! addr with Some mr => len <=? mr_length mr | None => false end.

(** The arrays of a message: the second one that is not empty gets registered. *)
Fixpoint register_arrays (data : list (SArray.t byte)) (sa_cnt : nat) v : RDMAVan.t :=
  match data with
  | [] => v
  | sa :: data' =>
      if SArray.size sa =? 0 then register_arrays data' sa_cnt v
      else
        let v := if negb (registered (SArray.ptr_ sa) (SArray.size sa) v) && (sa_cnt =? 1)%nat
                 then register (SArray.ptr_ sa) (SArray.size sa) v else v in
        register_arrays data' (S sa_cnt) v
  end.

Definition RegisterMemory msg v : result RDMAVan.t :=
  let v := register_arrays (Message.data msg) 0 v in
  let m := Message.meta msg in
  if IsValidPushpull msg && negb (Meta.push m) && Meta.request m then
    check! (0 <? Meta.val_len m) or "msg.meta.val_len";
    Ok (if registered (Meta.addr m) (Meta.val_len m) v then v else register (Meta.addr m) (Meta.val_len m) v)
  else Ok v.

(** [RegisterRecvBuffer] *)
Definition RegisterRecvBuffer msg v : result RDMAVan.t :=
  v ← RegisterMemory msg v;
  ks ← from_option_or (Undefined "msg.data[0]") (Message.data msg !! 0%nat);
  vs ← from_option_or (Undefined "msg.data[1]") (Message.data msg !! 1%nat);
  let key := DecodeKey ks in
  Ok (v <| registered_recv_buffers_ ::=
           (λ m, <[key := default [] (m !! key) ++ [(Meta.sender (Message.meta msg), vs)]]> m) |>).

(** [QueryRecvBuffer]: address, size and remote key of the first buffer
    registered for the key and the node. *)
Definition QueryRecvBuffer v (key node_id : Z) : result (option (Z * Z * Z)) :=
  match List.find (λ x, x.1 =? node_id) (default [] (registered_recv_buffers_ v !! key)) with
  | Some (_, buf) =>
      mr ← from_option_or (CheckFailed "mem_mr_.find(t.second.data())") (mem_mr_ v !! SArray.ptr_ buf);
      Ok (Some (SArray.ptr_ buf, SArray.size buf, rkey mr))
  | None => Ok None
  end.

(** ** Buffers of messages *)

(** [PackMeta] into the buffer [mb]. *)
Definition pack_into (mb : MessageBuffer) (meta : Meta.t) (h : host) : result host :=
  x ← PackMeta false QP_NUM meta (Some (read_bytes (mem h) (inline_buf mb) (Z.to_nat (inline_len mb)))) (λ _, []);
  Ok (h <| mem ::= write_bytes (inline_buf mb) x.1 |>).

Definition PrepareNewMsgBuf msg v : result (Z * RDMAVan.t) :=
  let meta_len := u64 (GetPackMetaLen (Message.meta msg)) in
  x ← Alloc pagesize malloc mr_keys meta_len (mem_allocator_ v) (host_ v);
  let '(p, al, h) := x in
  let mb := mkMessageBuffer meta_len p (Message.data msg) [] in
  h ← pack_into mb (Message.meta msg) h;
  Ok (Z.of_nat (length (msg_bufs v)) + 1,
      v <| mem_allocator_ := al |> <| host_ := h |> <| msg_bufs ::= (λ l, l ++ [mb]) |>).

Definition StoreMsgBuf (msg_buf : Z) msg v : result RDMAVan.t :=
  check! bool_decide (msgbuf_cache_ v !! msg_buf = None) or "msgbuf_cache_.find(msg_buf)";
  Ok (v <| msgbuf_cache_ ::= <[msg_buf := msg]> |>).
Definition GetFirstMsg (msg_buf : Z) v : result Message.t :=
  from_option_or (CheckFailed "msgbuf_cache_.find(msg_buf)") (msgbuf_cache_ v !! msg_buf).
Definition ReleaseFirstMsg (msg_buf : Z) v : result RDMAVan.t :=
  _ ← GetFirstMsg msg_buf v;
  Ok (v <| msgbuf_cache_ ::= delete msg_buf |>).

(** [PrepareData]: the region of the values of a push request. *)
Definition PrepareData msg (msg_buf : Z) v : result RDMAVan.t :=
  if negb (Meta.push (Message.meta msg) && Meta.request (Message.meta msg)) then Ok v
  else
    mb ← get_buf msg_buf v;
    sa ← from_option_or (Undefined "msg_buf->data[1]") (mb_data mb !! 1%nat);
    if SArray.size sa =? 0 then Ok v
    else
      mr ← from_option_or (CheckFailed "mem_mr_.find(sa.data())") (mem_mr_ v !! SArray.ptr_ sa);
      Ok (set_buf msg_buf (mb <| mrs ::= (λ l, l ++ [(mr, SArray.size sa)]) |>) v).

(** [AddMeta] *)
Definition AddMeta msg v : result Message.t :=
  let m := Message.meta msg in
  m ← (if Meta.request m then
         ks ← from_option_or (Undefined "msg.data[0]") (Message.data msg !! 0%nat);
         Ok (m <| Meta.key := DecodeKey ks |>)
       else Ok m);
  m ← (if negb (Meta.push m) && Meta.request m then
         mr ← from_option_or (Undefined "mem_mr_[val_addr]") (mem_mr_ v !! Meta.addr m);
         Ok (m <| Meta.option_ := i32 (rkey mr) |>)
       else Ok m);
  Ok (Message.mk m (Message.data msg)).

(** ** Remote buffers *)
Definition remote_of (is_push : bool) v : gmap (Z * Z) RemoteTuple :=
  if is_push then push_addr_ v else pull_addr_ v.
Definition HasRemoteInfo (key : Z) (is_push : bool) (recver : Z) v : bool :=
  bool_decide (is_Some (remote_of is_push v !! (key, recver))).
Definition GetRemoteAndLocalInfo (key : Z) (is_push : bool) (recver : Z) v : result RemoteTuple :=
  from_option_or (Undefined "push_addr_[key][recver]") (remote_of is_push v !! (key, recver)).
Definition StoreRemoteAndLocalInfo (msg_buf : Z) (resp : RendezvousReply) v : result RDMAVan.t :=
  msg ← GetFirstMsg msg_buf v;
  let m := Message.meta msg in
  let t := mkRemoteTuple (rp_meta_addr resp) (rp_meta_rkey resp) (rp_data_addr resp) (rp_data_rkey resp)
             (rp_idx resp) msg_buf in
  Ok (if Meta.push m then v <| push_addr_ ::= <[(Meta.key m, Meta.recver m) := t]> |>
      else v <| pull_addr_ ::= <[(Meta.key m, Meta.recver m) := t]> |>).

(** ** Sending *)

(** The transport's function for the kind of message, over connection [c]. *)
Definition send_kind (c : conn) msg (t : RemoteTuple) (mb : MessageBuffer) v : result RDMAVan.t :=
  let m := Message.meta msg in
  ep ← get_endpoint c v;
  let al := mem_allocator_ v in
  let h := host_ v in
  match Meta.push m, Meta.request m with
  | true, true =>
      x ← SendPushRequest QP_NUM msg al h mb t ep;
      Ok (set_endpoint c x.2 (v <| host_ := x.1 |>))
  | true, false => ep ← SendPushResponse al h mb t ep; Ok (set_endpoint c ep v)
  | false, true => ep ← SendPullRequest al h mb t ep; Ok (set_endpoint c ep v)
  | false, false =>
      vals ← from_option_or (Undefined "msg_buf->data[1]") (mb_data mb !! 1%nat);
      mr ← from_option_or (CheckFailed "mem_mr_.find(msg_buf->data[1].data())") (mem_mr_ v !! SArray.ptr_ vals);
      x ← SendPullResponse QP_NUM msg al h mb t (lkey mr) ep;
      Ok (set_endpoint c x.2 (v <| host_ := x.1 |>))
  end.

(** A new buffer and the rendezvous for it. *)
Definition begin_rendezvous (c : conn) msg (valid : bool) v : result RDMAVan.t :=
  x ← PrepareNewMsgBuf msg v;
  let '(msg_buf, v) := x in
  v ← StoreMsgBuf msg_buf msg v;
  v ← (if valid then PrepareData msg msg_buf v else Ok v);
  mb ← get_buf msg_buf v;
  ep ← get_endpoint c v;
  ep ← SendRendezvousBegin msg msg_buf mb ep;
  Ok (set_endpoint c ep v).

(** [msg_buf->data[i] = msg.data[i]] *)
Definition replace_data (data old : list (SArray.t byte)) : result (list (SArray.t byte)) :=
  inside! (length data <=? length old)%nat or "msg_buf->data[i]";
  Ok (data ++ drop (length data) old).

(** [SendMsg] *)
Definition SendMsg msg v : result (Z * RDMAVan.t) :=
  let remote_id := Meta.recver (Message.meta msg) in
  check! negb (remote_id =? kEmpty) or "remote_id";
  _ ← get_endpoint (Out remote_id) v;
  let meta_len := GetPackMetaLen (Message.meta msg) in
  let total_len := i32 (meta_len + Meta.data_size (Message.meta msg)) in
  check! negb (meta_len =? 0) or "meta_len";
  v ← RegisterMemory msg v;
  if negb (IsValidPushpull msg) then
    v ← begin_rendezvous (Out remote_id) msg false v;
    Ok (total_len, v)
  else
    msg ← AddMeta msg v;
    let m := Message.meta msg in
    if negb (HasRemoteInfo (Meta.key m) (Meta.push m) remote_id v) then
      v ← begin_rendezvous (Out remote_id) msg true v;
      Ok (total_len, v)
    else
      t ← GetRemoteAndLocalInfo (Meta.key m) (Meta.push m) remote_id v;
      mb ← get_buf (rt_msg_buf t) v;
      check! (inline_len mb =? u64 meta_len) or "msg_buf->inline_len";
      check! negb (inline_buf mb =? 0) or "msg_buf->inline_buf";
      data ← replace_data (Message.data msg) (mb_data mb);
      let mb := mb <| mb_data := data |> in
      let v := set_buf (rt_msg_buf t) mb v in
      h ← pack_into mb m (host_ v);
      v ← send_kind (Out remote_id) msg t mb (v <| host_ := h |>);
      Ok (total_len, v).

(** ** Completions: one entry of [PollCQ] *)
Inductive completion : Type :=
| SendDone (c : conn) (reply : bool)                 (* [IBV_WC_SEND] *)
| WriteDone                                          (* [IBV_WC_RDMA_WRITE] *)
| RecvStart (c : conn) (req : RendezvousStart)       (* [IBV_WC_RECV], kRendezvousStart *)
| RecvReply (c : conn) (resp : RendezvousReply)      (* [IBV_WC_RECV], kRendezvousReply *)
| RecvImm (c : conn) (imm : Z).                      (* [IBV_WC_RECV_RDMA_WITH_IMM] *)

(** The reply to a rendezvous: the buffers are remembered and the message that
    waited is written there. *)
Definition on_reply (c : conn) (resp : RendezvousReply) v : result RDMAVan.t :=
  let msg_buf := rp_origin_addr resp in
  v ← StoreRemoteAndLocalInfo msg_buf resp v;
  msg ← GetFirstMsg msg_buf v;
  let m := Message.meta msg in
  t ← GetRemoteAndLocalInfo (Meta.key m) (Meta.push m) (Meta.recver m) v;
  mb ← get_buf msg_buf v;
  v ← (if negb (IsValidPushpull msg) then
         ep ← get_endpoint c v;
         ep ← RDMAWriteWithImm (mem_allocator_ v) (host_ v) mb (rp_meta_addr resp) (rp_meta_rkey resp)
                (rp_idx resp) false None ep;
         Ok (set_endpoint c ep v)
       else send_kind c msg t mb v);
  ReleaseFirstMsg msg_buf v.

Definition on_start (c : conn) (req : RendezvousStart) v : result RDMAVan.t :=
  ep ← get_endpoint c v;
  x ← SendRendezvousReply pagesize malloc mr_keys (QueryRecvBuffer v) req (addr_pool_ v) (mem_allocator_ v)
        (host_ v) ep;
  let '(pool, al, h, ep) := x in
  Ok (set_endpoint c ep (v <| addr_pool_ := pool |> <| mem_allocator_ := al |> <| host_ := h |>)).

(** The immediate data of a write: the index of the buffers, or, with bit 15, a
    part of a value on another queue pair. *)
Definition imm_cmd (addr_idx : Z) : Z := Z.land (Z.shiftr (Z.land addr_idx 65535) 16) 65535.
Definition is_slave (addr_idx : Z) : bool := negb (Z.land addr_idx 32768 =? 0).

Definition on_imm (c : conn) (addr_idx : Z) v : result RDMAVan.t :=
  if is_slave addr_idx then
    ep ← get_endpoint c v;
    Ok (set_endpoint c (ep <| qp_pkt_count ::= alter (λ k, u64 (k + 1)) 1%nat |>) v)
  else
    ctx ← GetAddress addr_idx (addr_pool_ v);
    Ok (v <| recv_buffers_ ::= (λ q, q ++ [mkNotification c ctx (imm_cmd addr_idx)]) |>).

Definition PollCQ (wc : completion) v : result RDMAVan.t :=
  match wc with
  | SendDone c reply =>
      ep ← get_endpoint c v;
      Ok (set_endpoint c (if reply then ep <| free_reply_ctx ::= S |> else ep <| free_start_ctx ::= S |>) v)
  | WriteDone => Ok v
  | RecvStart c req => on_start c req v
  | RecvReply c resp => on_reply c resp v
  | RecvImm c imm => on_imm c imm v
  end.

(** ** Receiving *)

(** The values that came over other queue pairs have all arrived. *)
Definition slaves_arrived (raw : RawMeta.t) (ep : Endpoint.t) : bool :=
  forallb (λ i, nth i (RawMeta.slave_qp_counter raw) 0 <=? nth i (qp_pkt_count ep) 0)
    (seq 1 (Z.to_nat (RawMeta.slave_qp_num raw))).

(** [RecvMsg] once the meta data are unpacked: the data of a message. *)
Definition recv_data (n : notification) (is_server : bool) (m : Meta.t) v : result (Z * Message.t * RDMAVan.t) :=
  let ctx := nt_ctx n in
  let meta_len := GetPackMetaLen m in
  if negb (IsValidPushpull (Message.mk m [])) then Ok (meta_len, Message.mk m [], v)
  else
    let m := if nt_cmd n =? 0 then m else m <| Meta.head := Z.land (nt_cmd n) 255 |> in
    let msg := Message.mk m [] in
    x ← (match Meta.push m, Meta.request m with
         | true, true => RecvPushRequest pagesize malloc msg ctx meta_len is_server (host_ v)
         | false, true => Ok (RecvPullRequest malloc msg (host_ v))
         | true, false => RecvPushResponse msg ctx (host_ v)
         | false, false => Ok (RecvPullResponse malloc msg (host_ v))
         end);
    let '(len, msg, h) := x in
    Ok (i32 (meta_len + len), msg, v <| host_ := h |>).

(** [RecvMsg]; the spinning on the counters is [Blocked]. *)
Definition RecvMsg v : result (Z * Message.t * RDMAVan.t) :=
  match recv_buffers_ v with
  | [] => Err (Blocked "recv_buffers_")
  | n :: rest =>
      let v := v <| recv_buffers_ := rest |> in
      let ctx := nt_ctx n in
      ep ← get_endpoint (nt_conn n) v;
      let m0 := Meta.default <| Meta.recver := my_id v |> <| Meta.sender := node_id ep |> in
      let meta_buf := if is_server_ ep then bc_meta_buffer ctx else bc_buffer ctx in
      check! negb (meta_buf =? 0) or "meta_buf";
      let bs := read_bytes (mem (host_ v)) meta_buf (Z.to_nat (bc_meta_len ctx)) in
      inside! bool_decide (sizeof_RawMeta ≤ length bs)%nat or "raw";
      raw ← from_option_or (Undefined "bool")
              (RawMeta.of_fields (read_fields 0 RawMeta.layout (take sizeof_RawMeta bs)));
      if negb (slaves_arrived raw ep) then Err (Blocked "qp_pkt_count")
      else
        m ← UnpackMeta false bs m0;
        recv_data n (is_server_ ep) m v
  end.
End van.
