(* ===== verification/IpcTransport.v ===== *)
(** * The shared memory transport (src/rdma_transport.h, [IPCTransport])

    Between two processes of one machine the RDMA van moves only meta data: the
    values of a key are in a shared memory object, at a place both sides compute
    from the key.  A push leaves the values there and the server takes the array
    from there; the answer to a pull is copied there, by one of several threads,
    before its meta data are written to the worker.

    Shared memory is modelled with its aliasing: an object has bytes of its own,
    and an address inside a mapping of it reads and writes these bytes, so that
    two mappings of one object show the same values. *)

From S2P Require Import Prelude Message Env Postoffice Codec RdmaMemory RdmaTransport RdmaVan.
From Stdlib Require Import Strings.Ascii.
Import Endpoint.

Definition kShmPrefix : string := "BytePS_ShM_".
Definition kShmPciePrefix : string := "BytePS_Pcie_".

(** ** The machine's shared memory *)
Record mapping : Type := mkMapping { map_addr : Z; map_size : Z; map_object : string }.
Record machine : Type := mkMachine { objects : gmap string (list byte); mappings : list mapping }.

(** The mapping an address lies in. *)
Definition mapped (a : Z) (mc : machine) : option mapping :=
  List.find (λ m, (map_addr m <=? a) && (a <? map_addr m + map_size m)) (mappings mc).

(** The byte at an address: of an object, or of the process's own memory. *)
Definition load (h : host) (mc : machine) (a : Z) : byte :=
  match mapped a mc with
  | Some m => nth (Z.to_nat (a - map_addr m)) (default [] (objects mc !! map_object m)) x00
  | None => mem h a
  end.
Definition load_bytes (h : host) (mc : machine) (a len : Z) : list byte :=
  map (λ i, load h mc (a + i)) (seqZ 0 len).

(** Bytes of a list, and the list with other bytes there. *)
Definition slice (off len : Z) (l : list byte) : list byte := take (Z.to_nat len) (drop (Z.to_nat off) l).
Definition splice (off : Z) (bs l : list byte) : list byte :=
  take (Z.to_nat off) l ++ bs ++ drop (Z.to_nat off + length bs) l.

(** The place [a, a + len) lies inside a mapping. *)
Definition inside_mapping (a len : Z) (mc : machine) : option mapping :=
  match mapped a mc with
  | Some m => if (0 <=? len) && (a + len <=? map_addr m + map_size m) then Some m else None
  | None => None
  end.

(** [memcpy] to a place of shared memory. *)
Definition memcpy_shared (dst src len : Z) (h : host) (mc : machine) : result machine :=
  m ← from_option_or (Undefined "memcpy") (inside_mapping dst len mc);
  Ok (mc <| objects ::= alter (splice (dst - map_addr m) (load_bytes h mc src len)) (map_object m) |>).

(** ** [std::hex]: lower-case hexadecimal digits *)
Definition hex_digit (d : Z) : ascii :=
  ascii_of_nat (Z.to_nat (if d <? 10 then 48 + d else 87 + d)).
Fixpoint hex_go (fuel : nat) (n : Z) (acc : string) : string :=
  match fuel with
  | O => acc
  | S f => if n =? 0 then acc else hex_go f (n / 16) (String (hex_digit (n mod 16)) acc)
  end.
(** A [uint64_t] has at most 16 digits. *)
Definition hex (n : Z) : string := if n =? 0 then "0" else hex_go 16 n "".

(** ** The transport *)

(** A copy for the threads; [cp_msg_buf] is the address of the message buffer. *)
Record AsyncCopy : Type := mkCopy {
  cp_msg_buf : Z; cp_remote : RemoteTuple; cp_dst : Z; cp_src : Z; cp_len : Z; cp_shutdown : bool
}.

Module IPCTransport.
Record t : Type := mk {
  ipc_copy_nthreads_ : Z;
  async_copy_queue_ : list (list AsyncCopy);
  cpy_counter_ : Z;
  byteps_partition_bytes_ : Z;
  shm_prefix_ : string;
  key_shm_addr_ : gmap Z Z;
  enable_async_copy_ : bool;
  encoding_scheme_version_ : Z
}.
End IPCTransport.
Import IPCTransport.

Section ipc.
Context {verbs : Verbs}.
Context (pagesize : Z) (malloc : list (Z * Z) → Z → Z).
(** [mmap]: the address of a new mapping of [size] bytes, beside the ones there
    are, or failure. *)
Context (mmap : list mapping → Z → option Z).
Implicit Types (e : Environment) (t : IPCTransport.t) (mc : machine) (h : host) (msg : Message.t).

(** The name of the shared memory objects, up to the key. *)
Definition shm_prefix e (local_size pcie_size : Z) : string :=
  (if pcie_size <? local_size
   then kShmPciePrefix +:+ pretty (Z.quot local_size pcie_size - 1) +:+ "_Shm_"
   else kShmPrefix) +:+ GetEnv e "BYTEPS_JOB_ID" "0" +:+ "_".

(** The constructor; an [int] division by zero is undefined. *)
Definition new_ipc e : result IPCTransport.t :=
  let nthreads := GetEnv_int e "BYTEPS_IPC_COPY_NUM_THREADS" 4 in
  let bytes := GetEnv_int e "BYTEPS_PARTITION_BYTES" 4096000 in
  let scheme := GetEnv_int e "BYTEPS_ENCODING_SCHEME_VERSION" 0 in
  let local_size := GetEnv_int e "BYTEPS_LOCAL_SIZE" 8 in
  let unit := i32 (local_size * pagesize) in
  inside! negb (unit =? 0) or "DivUp(x, 0)";
  let async := negb (GetEnv_int e "BYTEPS_IPC_ENABLE_ASYNC_COPY" 1 =? 0) in
  let pcie_size := GetEnv_int e "BYTEPS_PCIE_SWITCH_SIZE" 8 in
  inside! negb (pcie_size =? 0) or "byteps_local_size % byteps_nccl_pcie_size";
  let pcie_size := if Z.rem local_size pcie_size =? 0 then pcie_size else local_size in
  Ok (IPCTransport.mk nthreads (replicate (Z.to_nat nthreads) []) 0 (RoundUp bytes unit)
        (shm_prefix e local_size pcie_size) ∅ async scheme).

(** ** The place of a key *)

(** The number of a key inside its object. *)
Definition seq_num t (worker_key : Z) : Z :=
  worker_key mod (if encoding_scheme_version_ t =? 1 then 2 ^ 10 else 2 ^ 16).
Definition base_key t (worker_key : Z) : Z := worker_key - seq_num t worker_key.
Definition offset t (worker_key : Z) : Z := u64 (u64 (byteps_partition_bytes_ t) * seq_num t worker_key).
Definition shm_name t (base : Z) : string := shm_prefix_ t +:+ hex base.

(** [GetSharedMemory]; [po] is the process's server postoffice. *)
Definition GetSharedMemory (po : Postoffice.t) (my_rank key : Z) t mc : result (Z * IPCTransport.t * machine) :=
  worker_key ← DecodeWorkerKey po my_rank key;
  let base := base_key t worker_key in
  match key_shm_addr_ t !! base with
  | Some addr => Ok (u64 (addr + offset t worker_key), t, mc)
  | None =>
      obj ← from_option_or (CheckFailed "shm_open failed") (objects mc !! shm_name t base);
      let size := Z.of_nat (length obj) in
      addr ← from_option_or (CheckFailed "base_ptr != (void*)-1") (mmap (mappings mc) size);
      Ok (u64 (addr + offset t worker_key), t <| key_shm_addr_ ::= <[base := addr]> |>,
          mc <| mappings ::= cons (mkMapping addr size (shm_name t base)) |>)
  end.

(** ** Sending *)

(** [SendPushRequest]: the values are in shared memory already. *)
Definition ipc_SendPushRequest al h (mb : MessageBuffer) (r : RemoteTuple) (ep : Endpoint.t) : result Endpoint.t :=
  Send al h mb r ep.

(** [async_copy_queue_[cnt % ipc_copy_nthreads_]->Push(m)] *)
Definition push_copy (m : AsyncCopy) t : result IPCTransport.t :=
  let n := u64 (ipc_copy_nthreads_ t) in
  inside! negb (n =? 0) or "cnt % ipc_copy_nthreads_";
  let i := Z.to_nat (cpy_counter_ t mod n) in
  q ← from_option_or (Undefined "async_copy_queue_[i]") (async_copy_queue_ t !! i);
  Ok (t <| cpy_counter_ ::= (λ c, u64 (c + 1)) |> <| async_copy_queue_ ::= <[i := q ++ [m]]> |>).

(** [SendPullResponse]; [mb] is the message buffer at [rt_msg_buf r]. *)
Definition ipc_SendPullResponse (po : Postoffice.t) (my_rank : Z) msg al h (mb : MessageBuffer) (r : RemoteTuple)
    t mc (ep : Endpoint.t) : result (IPCTransport.t * machine * Endpoint.t) :=
  vals ← from_option_or (Undefined "msg_buf->data[1]") (mb_data mb !! 1%nat);
  let addr := SArray.ptr_ vals in
  check! negb (addr =? 0) or "msg_buf->data[1].data()";
  x ← GetSharedMemory po my_rank (Meta.key (Message.meta msg)) t mc;
  let '(shm_addr, t, mc) := x in
  check! negb (shm_addr =? 0) or "GetSharedMemory(shm_prefix_, msg.meta.key)";
  let len := Meta.val_len (Message.meta msg) in
  if enable_async_copy_ t then
    t ← push_copy (mkCopy (rt_msg_buf r) r shm_addr addr len false) t;
    Ok (t, mc, ep)
  else
    mc ← memcpy_shared shm_addr addr len h mc;
    ep ← Send al h mb r ep;
    Ok (t, mc, ep).

(** One round of [AsyncCopyThread] number [i], [None] when it ends.  The tuple
    has the address of the values as its third part in the build with
    STEPMESH_USE_GDR, and [std::get<2>] is what the code takes for the index. *)
Definition AsyncCopyThread (i : nat) (get_buf : Z → result MessageBuffer) al h t mc (ep : Endpoint.t)
    : result (option (IPCTransport.t * machine * Endpoint.t)) :=
  q ← from_option_or (Undefined "async_copy_queue_[i]") (async_copy_queue_ t !! i);
  match q with
  | [] => Err (Blocked "async_copy_queue_")
  | m :: rest =>
      let t := t <| async_copy_queue_ ::= <[i := rest]> |> in
      if cp_shutdown m then Ok None
      else if cp_len m =? 0 then Ok (Some (t, mc, ep))
      else
        check! negb (cp_dst m =? 0) or "m.dst";
        check! negb (cp_src m =? 0) or "m.src";
        mc ← memcpy_shared (cp_dst m) (cp_src m) (cp_len m) h mc;
        mb ← get_buf (cp_msg_buf m);
        let raddr := rt_meta_addr (cp_remote m) in
        let rkey := rt_meta_rkey (cp_remote m) in
        let idx := u32 (rt_data_addr (cp_remote m)) in
        ep ← RDMAWriteWithImm al h mb raddr rkey idx false None ep;
        Ok (Some (t, mc, ep))
  end.

(** The destructor: a last entry for every queue that has a thread. *)
Definition shutdown_copies t : IPCTransport.t :=
  t <| async_copy_queue_ ::= map (λ q, q ++ [mkCopy 0 (mkRemoteTuple 0 0 0 0 0 0) 0 0 0 true]) |>.

(** ** Receiving *)

(** [RecvPushRequest]: the array is the memory at the key's place; what lies
    outside the mapping has no value. *)
Definition ipc_RecvPushRequest (po : Postoffice.t) (my_rank : Z) msg h t mc
    : result (Z * Message.t * host * IPCTransport.t * machine) :=
  let '(ks, h) := key_array malloc msg h in
  x ← GetSharedMemory po my_rank (Meta.key (Message.meta msg)) t mc;
  let '(addr, t, mc) := x in
  let len := Meta.val_len (Message.meta msg) in
  _ ← from_option_or (Undefined "vals") (inside_mapping addr len mc);
  let vals := SArray.mk addr (load_bytes h mc addr len) DeviceType.CPU 0 DeviceType.CPU 0 in
  let '(ls, h) := len_array malloc msg h in
  let l := [ks; vals; ls] in
  Ok (sizes l, add_arrays l msg, h, t, mc).
End ipc.
