(* ===== verification/IpcFacts.v ===== *)
(** * Values in shared memory (src/rdma_transport.h, [IPCTransport])

    Every key has a place of its own in the shared memory of a machine: a push
    of a local worker reaches the server with the bytes at the place of its key,
    and the copy of an answer puts its values there and leaves the places of
    all other keys alone. *)

From S2P Require Import Prelude Message Env Postoffice Codec RdmaMemory RdmaTransport RdmaVan IpcTransport.
From Stdlib Require Import Strings.Ascii.
Import Endpoint IPCTransport.

(** ** Hexadecimal names *)
Definition hex_value (c : ascii) : Z :=
  let n := Z.of_nat (nat_of_ascii c) in if n <? 58 then n - 48 else n - 87.
Fixpoint unhex (acc : Z) (s : string) : Z :=
  match s with EmptyString => acc | String c s' => unhex (acc * 16 + hex_value c) s' end.

Lemma hex_value_digit d : 0 ≤ d < 16 → hex_value (hex_digit d) = d.
Proof.
  intros Hd. unfold hex_value, hex_digit.
  assert (∀ n : nat, (n < 16)%nat → hex_value (hex_digit (Z.of_nat n)) = Z.of_nat n) as Hall.
  { intros n Hn. do 16 (destruct n; [reflexivity|]). lia. }
  specialize (Hall (Z.to_nat d)). rewrite Z2Nat.id in Hall by lia. apply Hall. lia.
Qed.

(** Reading the digits back. *)
Lemma unhex_go fuel n acc :
  0 ≤ n < 16 ^ Z.of_nat fuel → unhex 0 (hex_go fuel n acc) = unhex n acc.
Proof.
  revert n acc. induction fuel as [|fuel IH]; intros n acc Hn; simpl hex_go.
  - replace n with 0 by (simpl in Hn; lia). done.
  - destruct (Z.eqb_spec n 0) as [->|Hn0]; [done|].
    rewrite Nat2Z.inj_succ, Z.pow_succ_r in Hn by lia.
    rewrite IH; [|split; [apply Z.div_pos; lia|apply Z.div_lt_upper_bound; lia]].
    simpl unhex. rewrite hex_value_digit by (apply Z.mod_pos_bound; lia). f_equal.
    pose proof (Z.div_mod n 16). lia.
Qed.

Lemma unhex_hex n : in_u 64 n → unhex 0 (hex n) = n.
Proof.
  intros Hn. unfold hex. destruct (Z.eqb_spec n 0) as [->|H0]; [done|].
  rewrite (unhex_go 16 n ""); [done|]. change (16 ^ Z.of_nat 16) with (2 ^ 64). exact Hn.
Qed.

Lemma append_inj (p s s' : string) : p +:+ s = p +:+ s' → s = s'.
Proof. induction p as [|c p IH]; intros H; [done|]. injection H as H. by apply IH. Qed.

Lemma shm_name_inj t a b : in_u 64 a → in_u 64 b → shm_name t a = shm_name t b → a = b.
Proof. intros Ha Hb H%append_inj. by rewrite <- (unhex_hex a Ha), H, unhex_hex. Qed.

(** ** Slices *)
Lemma slice_splice off bs l :
  0 ≤ off → off + Z.of_nat (length bs) ≤ Z.of_nat (length l) →
  slice off (Z.of_nat (length bs)) (splice off bs l) = bs.
Proof.
  intros Ho Hl. unfold slice, splice. rewrite Nat2Z.id, drop_app_ge by (rewrite length_take; lia).
  rewrite length_take, Nat.min_l, Nat.sub_diag, drop_0 by lia. apply take_app_length.
Qed.

Lemma splice_length off bs l :
  0 ≤ off → off + Z.of_nat (length bs) ≤ Z.of_nat (length l) → length (splice off bs l) = length l.
Proof. intros. unfold splice. rewrite !length_app, length_take, length_drop. lia. Qed.

Lemma splice_lookup off bs l (i : nat) :
  0 ≤ off → off + Z.of_nat (length bs) ≤ Z.of_nat (length l) →
  (Z.of_nat i < off ∨ off + Z.of_nat (length bs) ≤ Z.of_nat i) → splice off bs l !! i = l !! i.
Proof.
  intros Ho Hl [Hi|Hi]; unfold splice.
  - rewrite lookup_app_l by (rewrite length_take; lia). apply lookup_take_lt. lia.
  - rewrite lookup_app_r by (rewrite length_take; lia). rewrite lookup_app_r by (rewrite length_take; lia).
    rewrite lookup_drop, length_take. f_equal. lia.
Qed.

Lemma slice_lookup off len l i :
  slice off len l !! i = if decide (i < Z.to_nat len)%nat then l !! (Z.to_nat off + i)%nat else None.
Proof.
  unfold slice. case_decide.
  - by rewrite lookup_take_lt, lookup_drop.
  - apply lookup_take_ge. lia.
Qed.

(** Bytes elsewhere are kept. *)
Lemma slice_splice_ne off bs l off' len' :
  0 ≤ off → off + Z.of_nat (length bs) ≤ Z.of_nat (length l) → 0 ≤ off' →
  (off' + len' ≤ off ∨ off + Z.of_nat (length bs) ≤ off') →
  slice off' len' (splice off bs l) = slice off' len' l.
Proof.
  intros Ho Hl Ho' Hd. apply list_eq. intros i. rewrite !slice_lookup. case_decide; [|done].
  apply splice_lookup; [done|done|]. lia.
Qed.

(** ** Mappings *)
Definition within (m : mapping) (a : Z) : Prop := map_addr m ≤ a < map_addr m + map_size m.

(** Mappings lie apart, and each shows an object of its size. *)
Record machine_ok (mc : machine) : Prop := {
  mo_apart : ∀ m1 m2 a, m1 ∈ mappings mc → m2 ∈ mappings mc → within m1 a → within m2 a → m1 = m2;
  mo_object : ∀ m, m ∈ mappings mc → 0 < map_addr m ∧ map_addr m + map_size m ≤ 2 ^ 64 ∧
    ∃ obj, objects mc !! map_object m = Some obj ∧ Z.of_nat (length obj) = map_size m
}.

(** The addresses a transport remembers are those of mappings of the objects
    named after the keys. *)
Definition cache_ok (t : IPCTransport.t) (mc : machine) : Prop :=
  ∀ base addr, key_shm_addr_ t !! base = Some addr →
  ∃ size, mkMapping addr size (shm_name t base) ∈ mappings mc.

(** [mmap] gives fresh addresses. *)
Definition mmap_ok (mmap : list mapping → Z → option Z) : Prop :=
  ∀ ms size a, mmap ms size = Some a →
  0 < a ∧ a + size ≤ 2 ^ 64 ∧ ∀ m x, m ∈ ms → within m x → ¬ (a ≤ x < a + size).

(** The bytes at the place of a key. *)
Definition stored (t : IPCTransport.t) (mc : machine) (worker_key len : Z) : option (list byte) :=
  slice (offset t worker_key) len <$> objects mc !! shm_name t (base_key t worker_key).

Lemma mapped_unique mc m a : machine_ok mc → m ∈ mappings mc → within m a → mapped a mc = Some m.
Proof.
  intros Hok Hm Ha. unfold mapped. destruct (List.find _ _) as [m'|] eqn:E.
  - apply List.find_some in E as [Hin Hb]. rewrite list_elem_of_In in *. f_equal.
    apply (mo_apart _ Hok m' m a); [by apply list_elem_of_In|by apply list_elem_of_In| |done].
    unfold within. apply andb_prop in Hb as [H1 H2]. lia.
  - apply list_elem_of_In in Hm. pose proof (List.find_none _ _ E _ Hm) as Hb. cbv beta in Hb.
    unfold within in Ha. apply andb_false_iff in Hb. lia.
Qed.

Lemma inside_mapping_at mc m off len :
  machine_ok mc → m ∈ mappings mc → 0 ≤ off → 0 < len → off + len ≤ map_size m →
  inside_mapping (map_addr m + off) len mc = Some m.
Proof.
  intros Hok Hm Ho Hl Hs. unfold inside_mapping. rewrite (mapped_unique mc m) by (done || unfold within; lia).
  by rewrite !(proj2 (Z.leb_le _ _)) by lia.
Qed.

(** Reading through a mapping reads the object. *)
Lemma load_bytes_at h mc m off len obj :
  machine_ok mc → m ∈ mappings mc → objects mc !! map_object m = Some obj →
  Z.of_nat (length obj) = map_size m → 0 ≤ off → 0 ≤ len → off + len ≤ map_size m →
  load_bytes h mc (map_addr m + off) len = slice off len obj.
Proof.
  intros Hok Hm Hobj Hsz Ho Hl Hs. apply list_eq. intros i. unfold load_bytes.
  rewrite slice_lookup, list_lookup_fmap. case_decide as Hi.
  - rewrite lookup_seqZ_lt by lia. simpl. unfold load. rewrite (mapped_unique mc m) by (done || unfold within; lia).
    rewrite Hobj. simpl. destruct (lookup_lt_is_Some_2 obj (Z.to_nat off + i)) as [b Hb]; [lia|]. rewrite Hb.
    f_equal. rewrite nth_lookup. replace (Z.to_nat _) with (Z.to_nat off + i)%nat by lia. by rewrite Hb.
  - by rewrite lookup_seqZ_ge by lia.
Qed.

Lemma load_bytes_length h mc a len : length (load_bytes h mc a len) = Z.to_nat len.
Proof. unfold load_bytes. by rewrite length_map, length_seqZ. Qed.

(** ** Places *)
Section places.
Context (t : IPCTransport.t).
Context (Hbytes : 0 < byteps_partition_bytes_ t < 2 ^ 31).

Lemma seq_num_range wk : 0 ≤ wk → 0 ≤ seq_num t wk < 2 ^ 16.
Proof.
  intros. unfold seq_num. destruct (_ =? 1).
  - pose proof (Z.mod_pos_bound wk (2 ^ 10) ltac:(lia)). lia.
  - apply Z.mod_pos_bound. lia.
Qed.

Lemma offset_eq wk : 0 ≤ wk → offset t wk = byteps_partition_bytes_ t * seq_num t wk.
Proof.
  intros Hwk. pose proof (seq_num_range wk Hwk). unfold offset.
  rewrite (uwrap_small 64 (byteps_partition_bytes_ t)) by word_lia. apply uwrap_small.
  unfold in_u. split; [nia|]. apply (Z.lt_trans _ (2 ^ 31 * 2 ^ 16)); [nia|lia].
Qed.

Lemma base_key_range wk : in_u 64 wk → in_u 64 (base_key t wk).
Proof.
  intros Hwk. unfold base_key. pose proof (seq_num_range wk ltac:(word_lia)).
  assert (seq_num t wk ≤ wk); [|word_lia].
  unfold seq_num. destruct (_ =? 1); apply Z.mod_le; word_lia.
Qed.

(** Two keys have places in different objects, or apart in the same one. *)
Lemma places_apart wk wk' len len' :
  in_u 64 wk → in_u 64 wk' → wk ≠ wk' →
  len ≤ byteps_partition_bytes_ t → len' ≤ byteps_partition_bytes_ t →
  shm_name t (base_key t wk) ≠ shm_name t (base_key t wk') ∨
  offset t wk + len ≤ offset t wk' ∨ offset t wk' + len' ≤ offset t wk.
Proof.
  intros Hwk Hwk' Hne Hl Hl'. destruct (decide (base_key t wk = base_key t wk')) as [Hb|Hb].
  - right. rewrite !offset_eq by word_lia. unfold base_key in Hb.
    assert (seq_num t wk ≠ seq_num t wk') by lia. nia.
  - left. intros Hn%shm_name_inj; [done|by apply base_key_range|by apply base_key_range].
Qed.
End places.

(** ** [GetSharedMemory] *)
Section shared.
Context (mmap : list mapping → Z → option Z) (Hmmap : mmap_ok mmap).
Context (po : Postoffice.t) (my_rank : Z).

(** What a transport is configured with; the rest are tables that grow. *)
Definition same_config (t t' : IPCTransport.t) : Prop :=
  ∃ cache, t' = t <| key_shm_addr_ := cache |>.

Lemma machine_ok_map mc name obj addr :
  machine_ok mc → objects mc !! name = Some obj → mmap (mappings mc) (Z.of_nat (length obj)) = Some addr →
  machine_ok (mc <| mappings ::= cons (mkMapping addr (Z.of_nat (length obj)) name) |>).
Proof.
  intros Hok Hobj Ha. destruct (Hmmap _ _ _ Ha) as (Hpos & Hend & Hfree). constructor; cbn.
  - intros m1 m2 a H1 H2 Hw1 Hw2. rewrite elem_of_cons in H1, H2.
    destruct H1 as [->|H1], H2 as [->|H2]; [done| | |by apply (mo_apart _ Hok _ _ a)].
    + by destruct (Hfree m2 a H2 Hw2).
    + by destruct (Hfree m1 a H1 Hw1).
  - intros m Hm. rewrite elem_of_cons in Hm. destruct Hm as [->|Hm]; [|by apply (mo_object _ Hok)].
    cbn. split_and!; [done|done|]. by exists obj.
Qed.

(** The address of a key's place: in a mapping of its object, which stays where
    it is once it was mapped. *)
Lemma GetSharedMemory_spec t mc key wk obj :
  machine_ok mc → cache_ok t mc → DecodeWorkerKey po my_rank key = Ok wk →
  objects mc !! shm_name t (base_key t wk) = Some obj →
  is_Some (mmap (mappings mc) (Z.of_nat (length obj))) →
  0 ≤ offset t wk < Z.of_nat (length obj) →
  ∃ m t' mc', GetSharedMemory mmap po my_rank key t mc = Ok (map_addr m + offset t wk, t', mc') ∧
    m ∈ mappings mc' ∧ map_object m = shm_name t (base_key t wk) ∧ map_size m = Z.of_nat (length obj) ∧
    0 < map_addr m ∧ machine_ok mc' ∧ cache_ok t' mc' ∧ same_config t t' ∧ objects mc' = objects mc ∧
    ∀ a, (∀ b, mmap (mappings mc) (Z.of_nat (length obj)) = Some b → ¬ (b ≤ a < b + Z.of_nat (length obj))) →
      mapped a mc' = mapped a mc.
Proof.
  intros Hok Hc Hwk Hobj [addr Ha] Hoff. unfold GetSharedMemory. rewrite (bind_eq _ _ _ Hwk).
  destruct (key_shm_addr_ t !! base_key t wk) as [a|] eqn:E.
  - destruct (Hc _ _ E) as [size Hin]. destruct (mo_object _ Hok _ Hin) as (Hpos & Hend & obj' & Hobj' & Hsz).
    cbn in Hpos, Hend, Hobj', Hsz. rewrite Hobj in Hobj'. injection Hobj' as <-.
    exists (mkMapping a size (shm_name t (base_key t wk))), t, mc. cbn.
    rewrite uwrap_small by (unfold in_u; lia). split_and!; try done. by exists (key_shm_addr_ t); destruct t.
  - rewrite (bind_eq _ _ obj) by by rewrite Hobj. cbv zeta. rewrite (bind_eq _ _ addr) by by rewrite Ha.
    destruct (Hmmap _ _ _ Ha) as (Hpos & Hend & _).
    eexists (mkMapping addr (Z.of_nat (length obj)) (shm_name t (base_key t wk))), _, _. cbn.
    rewrite uwrap_small by (unfold in_u; lia). split_and!; try reflexivity; try done; try (by left).
    + by apply machine_ok_map.
    + intros base a. cbn. destruct (decide (base = base_key t wk)) as [->|Hne].
      * rewrite lookup_insert_eq. intros [= <-]. eexists. by left.
      * rewrite lookup_insert_ne by done. intros [size Hin]%Hc. exists size. by right.
    + by eexists.
    + intros a Hfree. unfold mapped. cbn. specialize (Hfree addr Ha).
      destruct ((addr <=? a) && (a <? addr + Z.of_nat (length obj))) eqn:Eb; [|done].
      apply andb_prop in Eb as [? ?]. lia.
Qed.
End shared.

(** The arrays with the key and the length are copies of their bytes. *)
Definition arrays_of (msg : Message.t) (vals : list byte) (data : list (SArray.t byte)) : Prop :=
  map SArray.elems data =
    [enc_u64 (Meta.key (Message.meta msg)); vals; enc_int (Meta.val_len (Message.meta msg))].

(** C39. A push request from a local worker reaches the server with
    the bytes the worker left at the place of the key, whether the object was
    mapped before or is mapped now, and later calls find the object again. *)
Theorem ipc_push_reads_place malloc mmap po my_rank msg h t mc wk obj :
  let len := Meta.val_len (Message.meta msg) in
  mmap_ok mmap → machine_ok mc → cache_ok t mc →
  DecodeWorkerKey po my_rank (Meta.key (Message.meta msg)) = Ok wk → 0 ≤ wk →
  0 < byteps_partition_bytes_ t < 2 ^ 31 →
  objects mc !! shm_name t (base_key t wk) = Some obj →
  is_Some (mmap (mappings mc) (Z.of_nat (length obj))) →
  0 < len → offset t wk + len ≤ Z.of_nat (length obj) →
  ∃ n data h' t' mc',
    ipc_RecvPushRequest malloc mmap po my_rank msg h t mc =
      Ok (n, Message.mk (Message.meta msg) (Message.data msg ++ data), h', t', mc') ∧
    arrays_of msg (slice (offset t wk) len obj) data ∧
    machine_ok mc' ∧ cache_ok t' mc' ∧ same_config t t' ∧ objects mc' = objects mc.
Proof.
  intros len Hmmap Hok Hc Hwk Hwk0 Hb Hobj Hmm Hlen Hfit.
  assert (0 ≤ offset t wk) as Ho by (rewrite offset_eq by done; pose proof (seq_num_range t wk Hwk0); nia).
  destruct (GetSharedMemory_spec mmap Hmmap po my_rank t mc _ wk obj Hok Hc Hwk Hobj Hmm ltac:(lia))
    as (m & t' & mc' & E & Hin & Hname & Hsz & Hpos & Hok' & Hc' & Hcfg & Hobjs & _).
  unfold ipc_RecvPushRequest. destruct (key_array malloc msg h) as [ks h1] eqn:Ek.
  rewrite (bind_eq _ _ _ E). cbv beta iota zeta. fold len.
  rewrite (bind_eq _ _ m) by (rewrite inside_mapping_at by (done || lia); done).
  destruct (len_array malloc msg h1) as [ls h2] eqn:El.
  eexists _, [ks; _; ls], h2, t', mc'. split; [reflexivity|]. split_and!; try done.
  unfold arrays_of. cbn [map SArray.elems].
  rewrite (load_bytes_at _ mc' m (offset t wk) len obj) by (try done; try lia; by rewrite Hobjs, Hname).
  unfold key_array, CreateFunctionalSarray in Ek. unfold len_array, CreateFunctionalSarray in El.
  injection Ek as <- <-. injection El as <- <-. done.
Qed.

(** ** Copies *)

(** An object changed in place keeps the mappings right. *)
Lemma machine_ok_splice mc m off bs obj :
  machine_ok mc → objects mc !! map_object m = Some obj → 0 ≤ off →
  off + Z.of_nat (length bs) ≤ Z.of_nat (length obj) →
  machine_ok (mc <| objects ::= alter (splice off bs) (map_object m) |>).
Proof.
  intros Hok Hobj Ho Hl. constructor; cbn; [by apply (mo_apart _ Hok)|].
  intros m' Hm'. destruct (mo_object _ Hok _ Hm') as (H1 & H2 & obj' & Ho' & Hsz).
  split_and!; [done|done|]. destruct (decide (map_object m' = map_object m)) as [Heq|Hne].
  - rewrite Heq in *. rewrite Hobj in Ho'. injection Ho' as <-. exists (splice off bs obj).
    by rewrite lookup_alter_eq, Hobj, splice_length.
  - exists obj'. by rewrite lookup_alter_ne.
Qed.

(** A copy to the place of a key puts the bytes there and nowhere else. *)
Lemma memcpy_place t mc m wk obj h src len :
  0 < byteps_partition_bytes_ t < 2 ^ 31 → in_u 64 wk →
  machine_ok mc → m ∈ mappings mc → map_object m = shm_name t (base_key t wk) →
  objects mc !! map_object m = Some obj → map_size m = Z.of_nat (length obj) →
  0 < len ≤ byteps_partition_bytes_ t → offset t wk + len ≤ Z.of_nat (length obj) →
  ∃ mc', memcpy_shared (map_addr m + offset t wk) src len h mc = Ok mc' ∧
    stored t mc' wk len = Some (load_bytes h mc src len) ∧
    (∀ wk' len', in_u 64 wk' → wk' ≠ wk → len' ≤ byteps_partition_bytes_ t →
       stored t mc' wk' len' = stored t mc wk' len') ∧
    machine_ok mc' ∧ mappings mc' = mappings mc.
Proof.
  intros Hb Hwk Hok Hin Hname Hobj Hsz Hlen Hfit.
  assert (∀ k, in_u 64 k → 0 ≤ offset t k) as Ho.
  { intros k Hk. rewrite offset_eq by (done || word_lia). pose proof (seq_num_range t k ltac:(word_lia)). nia. }
  pose proof (load_bytes_length h mc src len) as Hll. set (bs := load_bytes h mc src len) in *.
  assert (Z.of_nat (length bs) = len) as Hbs by lia.
  eexists. unfold memcpy_shared. rewrite (bind_eq _ _ m) by (rewrite inside_mapping_at by (done || lia || auto); done).
  fold bs. replace (map_addr m + offset t wk - map_addr m) with (offset t wk) by lia.
  specialize (Ho wk Hwk) as Howk. split; [reflexivity|]. split_and!.
  - unfold stored. cbn. rewrite <- Hname, lookup_alter_eq, Hobj. cbn. f_equal.
    rewrite <- Hbs. apply slice_splice; lia.
  - intros wk' len' Hwk' Hne Hl'. unfold stored. cbn. specialize (Ho wk' Hwk').
    destruct (places_apart t Hb wk wk' len len' Hwk Hwk' ltac:(done) ltac:(lia) Hl') as [Hn|Hd].
    + rewrite lookup_alter_ne by congruence. done.
    + destruct (decide (shm_name t (base_key t wk') = map_object m)) as [->|Hn].
      * rewrite lookup_alter_eq, Hobj. cbn. f_equal. apply slice_splice_ne; lia.
      * by rewrite lookup_alter_ne by congruence.
  - apply (machine_ok_splice mc m _ _ obj); auto. lia.
  - done.
Qed.

(** What the source of a copy shows does not depend on a new mapping beside it. *)
Lemma load_bytes_mono h mc mc' src len :
  objects mc' = objects mc →
  (∀ a, src ≤ a < src + len → mapped a mc' = mapped a mc) →
  load_bytes h mc' src len = load_bytes h mc src len.
Proof.
  intros Hobj Hm. unfold load_bytes. apply map_ext_in. intros i Hi%list_elem_of_In%elem_of_seqZ.
  unfold load. rewrite Hm by lia. by rewrite Hobj.
Qed.

(** C10. An answer to a pull of a local worker: it is handed to the
    next copying thread, which puts the values at the place of the key, in the
    object the worker has mapped too, leaves the places of all other keys as
    they were, and only then writes the meta data to the worker, if the verbs
    library takes the write, with the third part of the tuple as its index. *)
Theorem ipc_answer_shared {verbs : Verbs} mmap po my_rank msg al h mb r t mc ep wk obj vals lk get_buf :
  let len := Meta.val_len (Message.meta msg) in
  let n := u64 (ipc_copy_nthreads_ t) in
  let i := Z.to_nat (cpy_counter_ t mod n) in
  let write := PostWrite (inline_buf mb) (u32 (inline_len mb)) lk (rt_meta_addr r) (rt_meta_rkey r)
                 (Some (u32 (rt_data_addr r))) None in
  mmap_ok mmap → machine_ok mc → cache_ok t mc →
  DecodeWorkerKey po my_rank (Meta.key (Message.meta msg)) = Ok wk → in_u 64 wk →
  0 < byteps_partition_bytes_ t < 2 ^ 31 →
  objects mc !! shm_name t (base_key t wk) = Some obj →
  is_Some (mmap (mappings mc) (Z.of_nat (length obj))) →
  0 < len ≤ byteps_partition_bytes_ t → offset t wk + len ≤ Z.of_nat (length obj) →
  mb_data mb !! 1%nat = Some vals → 0 < SArray.ptr_ vals →
  (∀ b, mmap (mappings mc) (Z.of_nat (length obj)) = Some b →
     SArray.ptr_ vals + len ≤ b ∨ b + Z.of_nat (length obj) ≤ SArray.ptr_ vals) →
  enable_async_copy_ t = true → n ≠ 0 → async_copy_queue_ t !! i = Some [] →
  get_buf (rt_msg_buf r) = Ok mb → LocalKey (inline_buf mb) al = Ok lk →
  post_accepts (posted ep) 0 write = true →
  ∃ t1 mc1 t2 mc2 ep2,
    ipc_SendPullResponse mmap po my_rank msg al h mb r t mc ep = Ok (t1, mc1, ep) ∧
    AsyncCopyThread i get_buf al h t1 mc1 ep = Ok (Some (t2, mc2, ep2)) ∧
    stored t mc2 wk len = Some (load_bytes h mc (SArray.ptr_ vals) len) ∧
    (∀ wk' len', in_u 64 wk' → wk' ≠ wk → len' ≤ byteps_partition_bytes_ t →
       stored t mc2 wk' len' = stored t mc wk' len') ∧
    posted ep2 = posted ep ++ [(0, write)] ∧
    machine_ok mc2 ∧ cache_ok t2 mc2 ∧ async_copy_queue_ t2 !! i = Some [].
Proof.
  intros len n i write Hmmap Hok Hc Hdec Hwk Hb Hobj Hmm Hlen Hfit Hvals Hptr Hapart Has Hn Hq Hbuf Hlk Hpost.
  assert (0 ≤ offset t wk) as Ho.
  { rewrite offset_eq by (done || word_lia). pose proof (seq_num_range t wk ltac:(word_lia)). nia. }
  destruct (GetSharedMemory_spec mmap Hmmap po my_rank t mc _ wk obj Hok Hc Hdec Hobj Hmm ltac:(lia))
    as (m & t' & mc' & E & Hin & Hname & Hsz & Hpos & Hok' & Hc' & [cache ->] & Hobjs & Hmap).
  destruct (memcpy_place t mc' m wk obj h (SArray.ptr_ vals) len Hb Hwk Hok' Hin Hname ltac:(by rewrite Hobjs, Hname) Hsz Hlen Hfit)
    as (mc2 & Ecpy & Hst & Hframe & Hok2 & Hmaps).
  eexists _, mc', _, mc2, _. split_and!.
  - unfold ipc_SendPullResponse. rewrite Hvals. rewrite (bind_eq _ _ vals eq_refl). cbv zeta.
    rewrite (proj2 (Z.eqb_neq (SArray.ptr_ vals) 0)) by lia. cbn [negb]. rewrite (bind_eq _ _ _ E). cbv beta iota zeta.
    rewrite (proj2 (Z.eqb_neq (map_addr m + _) 0)) by lia. cbn [negb]. cbn. rewrite Has.
    unfold push_copy. cbn. fold n. rewrite (proj2 (Z.eqb_neq n 0) Hn). cbn [negb]. fold i. rewrite Hq. reflexivity.
  - unfold AsyncCopyThread. cbn. rewrite list_lookup_insert_eq by (by eapply lookup_lt_Some). cbn. fold len.
    rewrite !(proj2 (Z.eqb_neq _ 0)) by lia. cbn [negb]. rewrite (bind_eq _ _ _ Ecpy), (bind_eq _ _ _ Hbuf).
    unfold RDMAWriteWithImm. rewrite Hlk. cbn [mbind result_bind]. unfold ibv_post_send. fold write. rewrite Hpost. reflexivity.
  - rewrite Hst. f_equal. apply load_bytes_mono; [done|]. intros a Ha. apply Hmap. intros b Hb'. specialize (Hapart b Hb'). lia.
  - intros wk' len' H1 H2 H3. rewrite Hframe by done. unfold stored. by rewrite Hobjs.
  - reflexivity.
  - done.
  - intros base addr Hb'. cbn in Hb'. destruct (Hc' base addr Hb') as [size Hs]. exists size. by rewrite Hmaps.
  - cbn. apply list_lookup_insert_eq. rewrite length_insert. by eapply lookup_lt_Some.
Qed.

(** ** Answers and copying threads in any order *)
Section answers.
Context {verbs : Verbs}.
Context (mmap : list mapping → Z → option Z) (po : Postoffice.t) (my_rank : Z).
Context (get_buf : Z → result MessageBuffer) (al : MemoryAllocator) (h : host).

Inductive ipc_event : Type :=
| Answer (msg : Message.t) (mb : MessageBuffer) (r : RemoteTuple)
| Copy (i : nat).

Definition ipc_state : Type := IPCTransport.t * machine * Endpoint.t.

Definition ipc_step (s : ipc_state) (ev : ipc_event) : result ipc_state :=
  let '(t, mc, ep) := s in
  match ev with
  | Answer msg mb r => ipc_SendPullResponse mmap po my_rank msg al h mb r t mc ep
  | Copy i =>
      o ← AsyncCopyThread i get_buf al h t mc ep;
      from_option_or (Blocked "thread ended") o
  end.

Fixpoint ipc_run (s : ipc_state) (evs : list ipc_event) : result ipc_state :=
  match evs with
  | [] => Ok s
  | ev :: evs' => s ← ipc_step s ev; ipc_run s evs'
  end.

(** What is to be sent: the message buffer, where to, and the number of bytes. *)
Definition copy_of (m : AsyncCopy) : Z * RemoteTuple * Z := (cp_msg_buf m, cp_remote m, cp_len m).
Definition has_values (x : Z * RemoteTuple * Z) : Prop := x.2 ≠ 0.
#[local] Instance has_values_dec x : Decision (has_values x).
Proof. unfold has_values. apply _. Defined.

Definition pending (t : IPCTransport.t) : list (Z * RemoteTuple * Z) :=
  filter has_values (map copy_of (concat (async_copy_queue_ t))).
Definition answered (evs : list ipc_event) : list (Z * RemoteTuple * Z) :=
  filter has_values (flat_map (λ ev, match ev with
    | Answer msg _ r => [(rt_msg_buf r, r, Meta.val_len (Message.meta msg))]
    | Copy _ => []
    end) evs).

(** The write that announces an answer. *)
Definition write_for (x : Z * RemoteTuple * Z) : result (Z * work) :=
  mb ← get_buf x.1.1;
  lk ← LocalKey (inline_buf mb) al;
  Ok (0, PostWrite (inline_buf mb) (u32 (inline_len mb)) lk (rt_meta_addr x.1.2) (rt_meta_rkey x.1.2)
           (Some (u32 (rt_data_addr x.1.2))) None).

Lemma concat_insert {A} (qs : list (list A)) i q q' :
  qs !! i = Some q → concat (<[i := q']> qs) ++ q ≡ₚ concat qs ++ q'.
Proof.
  revert i. induction qs as [|q0 qs IH]; intros [|i] Hi; try done; cbn.
  - injection Hi as ->. rewrite (Permutation_app_comm q' (concat qs)), <- app_assoc, (Permutation_app_comm q').
    by rewrite app_assoc, (Permutation_app_comm (concat qs)).
  - rewrite <- !app_assoc. f_equiv. by apply IH.
Qed.
Lemma concat_push {A} (qs : list (list A)) i q m :
  qs !! i = Some q → concat (<[i := q ++ [m]]> qs) ≡ₚ concat qs ++ [m].
Proof.
  intros Hq. apply (Permutation_app_inv_r q). rewrite <- app_assoc, (Permutation_app_comm [m] q).
  by apply concat_insert.
Qed.
Lemma concat_pop {A} (qs : list (list A)) i m rest :
  qs !! i = Some (m :: rest) → concat (<[i := rest]> qs) ++ [m] ≡ₚ concat qs.
Proof.
  intros Hq. apply (Permutation_app_inv_r rest). rewrite <- app_assoc. by apply concat_insert.
Qed.

Lemma GetSharedMemory_config key t mc a t' mc' :
  GetSharedMemory mmap po my_rank key t mc = Ok (a, t', mc') → same_config t t'.
Proof.
  unfold GetSharedMemory. intros (wk & _ & E)%bind_Ok. destruct (key_shm_addr_ t !! _).
  - injection E as _ <- _. by exists (key_shm_addr_ t); destruct t.
  - apply bind_Ok in E as (obj & _ & E). apply bind_Ok in E as (b & _ & E). injection E as _ <- _. by eexists.
Qed.

(** One event moves an answer to the queues, or from them to the network. *)
Lemma ipc_step_moves t mc ep ev t' mc' ep' :
  enable_async_copy_ t = true → ipc_step (t, mc, ep) ev = Ok (t', mc', ep') →
  enable_async_copy_ t' = true ∧
  ∃ ws sent, posted ep' = posted ep ++ ws ∧ Forall2 (λ w x, write_for x = Ok w) ws sent ∧
    sent ++ pending t' ≡ₚ pending t ++ answered [ev].
Proof.
  intros Has. destruct ev as [msg mb r|i]; cbn [ipc_step].
  - unfold ipc_SendPullResponse. intros (vals & _ & E)%bind_Ok. destruct (negb _); [|done].
    apply bind_Ok in E as ([[a t1] mc1] & E1 & E). destruct (GetSharedMemory_config _ _ _ _ _ _ E1) as [cache ->].
    cbn beta iota zeta in E. destruct (negb _); [|done]. cbn in E. rewrite Has in E.
    apply bind_Ok in E as (t2 & E2 & E). injection E as <- <- <-. unfold push_copy in E2. cbn in E2.
    destruct (negb _); [|done]. apply bind_Ok in E2 as (q & Hq & E2). apply from_option_or_Ok in Hq. injection E2 as <-.
    split; [done|]. exists [], []. rewrite app_nil_r. split_and!; [done|constructor|]. unfold pending, answered.
    rewrite <- filter_app. apply filter_Permutation. cbn. rewrite (concat_push _ _ _ _ Hq). by rewrite map_app.
  - intros (o & E & Ho)%bind_Ok. apply from_option_or_Ok in Ho as ->. unfold AsyncCopyThread in E.
    apply bind_Ok in E as (q & Hq & E). apply from_option_or_Ok in Hq. destruct q as [|m rest]; [done|].
    pose proof (concat_pop _ _ _ _ Hq) as HP.
    destruct (cp_shutdown m); [done|]. destruct (Z.eqb_spec (cp_len m) 0) as [H0|H0].
    + injection E as <- <- <-. split; [done|]. exists [], []. rewrite app_nil_r. split_and!; [done|constructor|].
      unfold pending, answered. cbn. rewrite app_nil_r. rewrite <- HP, map_app, filter_app. cbn [map].
      rewrite filter_cons_False by (unfold has_values; cbn; lia). by rewrite filter_nil, app_nil_r.
    + destruct (negb _); [|done]. destruct (negb _); [|done]. apply bind_Ok in E as (mc1 & _ & E).
      apply bind_Ok in E as (mb & Hmb & E). apply bind_Ok in E as (ep1 & Ew & E). injection E as <- <- <-.
      split; [done|]. unfold RDMAWriteWithImm in Ew. apply bind_Ok in Ew as (lk & Hlk & Ew).
      apply ibv_post_send_Ok in Ew as [_ ->].
      eexists [_], [copy_of m]. split_and!; [reflexivity| |].
      * constructor; [|constructor]. unfold write_for. cbn. by rewrite Hmb; cbn; rewrite Hlk.
      * unfold pending, answered. cbn. rewrite app_nil_r. rewrite <- HP, map_app, filter_app. cbn [map].
        rewrite filter_cons_True, filter_nil by done. apply Permutation_cons_append.
Qed.

(** Every answer with values is announced once, after its copy, by
    whichever thread, and none is lost: what was sent and what the threads still
    have is what was answered.  Answers without values are in neither. *)
Theorem answers_announced_once t mc ep evs t' mc' ep' :
  enable_async_copy_ t = true → pending t = [] → ipc_run (t, mc, ep) evs = Ok (t', mc', ep') →
  ∃ ws sent, posted ep' = posted ep ++ ws ∧ Forall2 (λ w x, write_for x = Ok w) ws sent ∧
    sent ++ pending t' ≡ₚ answered evs.
Proof.
  intros Has Hnil. change (answered evs) with ([] ++ answered evs). rewrite <- Hnil. clear Hnil.
  revert t mc ep Has. induction evs as [|ev evs IH]; intros t mc ep Has; cbn [ipc_run].
  - intros [= <- <- <-]. exists [], []. rewrite !app_nil_r. split_and!; [done|constructor|done].
  - intros ([[t1 mc1] ep1] & E1 & E)%bind_Ok.
    destruct (ipc_step_moves _ _ _ _ _ _ _ Has E1) as (Has1 & ws1 & s1 & Hp1 & HF1 & HP1).
    destruct (IH _ _ _ Has1 E) as (ws2 & s2 & Hp2 & HF2 & HP2).
    exists (ws1 ++ ws2), (s1 ++ s2). rewrite Hp2, Hp1, app_assoc. split_and!; [done|by apply Forall2_app|].
    rewrite <- app_assoc, HP2. rewrite app_assoc, HP1, <- app_assoc. f_equiv.
    unfold answered. rewrite <- filter_app. f_equiv. cbn. by rewrite app_nil_r.
Qed.
End answers.

(** ** The index of an announcement *)

(** A node that is no server answers a rendezvous without a place for values. *)
Lemma reply_without_values {verbs : Verbs} pagesize malloc mr_keys query req pool al h ep pool' al' h' ep' :
  is_server_ ep = false →
  SendRendezvousReply pagesize malloc mr_keys query req pool al h ep = Ok (pool', al', h', ep') →
  ∃ resp, posted ep' = posted ep ++ [(0, PostReply resp)] ∧ rp_data_addr resp = 0.
Proof.
  intros Hs. unfold SendRendezvousReply. destruct (bool_decide _); [|done].
  intros ([[b al1] h1] & _ & E)%bind_Ok. cbv beta iota zeta in E. destruct (negb _); [|done]. rewrite Hs in E.
  apply bind_Ok in E as (rk & _ & E). apply bind_Ok in E as (y & Ey & E). injection E as <- <- <- <-.
  unfold reply_with in Ey. destruct (free_reply_ctx ep) as [|n]; [done|]. apply bind_Ok in Ey as (x & _ & Ey).
  apply bind_Ok in Ey as (ep1 & [_ ->]%ibv_post_send_Ok & [= <-]). eexists. split; [reflexivity|done].
Qed.

(** The announcement of a copied answer to a worker carries index 0,
    whatever index the worker gave to the buffers for it: the copying thread takes
    the third part of the tuple for the index, which is the address of the
    place for values, and a worker has none. *)
Theorem copied_answer_names_index_zero {verbs : Verbs} pagesize malloc mr_keys query req pool al_w h_w ep_w pool' al' h' ep_w'
    resp msg_buf i get_buf al h t mc ep m rest t' mc' ep' :
  is_server_ ep_w = false →
  SendRendezvousReply pagesize malloc mr_keys query req pool al_w h_w ep_w = Ok (pool', al', h', ep_w') →
  posted ep_w' = posted ep_w ++ [(0, PostReply resp)] →
  async_copy_queue_ t !! i = Some (m :: rest) → cp_shutdown m = false → cp_len m ≠ 0 →
  cp_remote m = mkRemoteTuple (rp_meta_addr resp) (rp_meta_rkey resp) (rp_data_addr resp) (rp_data_rkey resp)
                  (rp_idx resp) msg_buf →
  AsyncCopyThread i get_buf al h t mc ep = Ok (Some (t', mc', ep')) →
  ∃ local len lk, posted ep' = posted ep ++
    [(0, PostWrite local len lk (rp_meta_addr resp) (rp_meta_rkey resp) (Some 0) None)].
Proof.
  intros Hs Hr Hp Hq Hsd Hlen Hrem E. destruct (reply_without_values _ _ _ _ _ _ _ _ _ _ _ _ _ Hs Hr) as (resp' & Hp' & H0).
  rewrite Hp in Hp'. apply app_inv_head in Hp'. injection Hp' as <-.
  unfold AsyncCopyThread in E. rewrite Hq in E. cbn in E. rewrite Hsd, (proj2 (Z.eqb_neq _ _) Hlen) in E.
  destruct (negb _); [|done]. destruct (negb _); [|done]. apply bind_Ok in E as (mc1 & _ & E).
  apply bind_Ok in E as (mb & Hmb & E). apply bind_Ok in E as (ep1 & Ew & E). injection E as <- <- <-.
  unfold RDMAWriteWithImm in Ew. apply bind_Ok in Ew as (lk & _ & Ew). apply ibv_post_send_Ok in Ew as [_ ->].
  eexists _, _, lk. cbn. rewrite Hrem. cbn. by rewrite H0.
Qed.

(** ** An example: two keys in one object *)
Definition top_of (ms : list mapping) : Z := foldr (λ m x, Z.max x (map_addr m + map_size m)) 4096 ms.
Definition demo_mmap (ms : list mapping) (size : Z) : option Z :=
  if top_of ms + size <=? 2 ^ 64 then Some (top_of ms) else None.

Lemma top_of_spec ms : 4096 ≤ top_of ms ∧ ∀ m, m ∈ ms → map_addr m + map_size m ≤ top_of ms.
Proof.
  induction ms as [|m ms [IH1 IH2]]; cbn; [split; [done|]; intros m Hm; by apply elem_of_nil in Hm|].
  fold (top_of ms). split; [lia|]. intros m' [->|Hm]%elem_of_cons; [lia|]. specialize (IH2 m' Hm). lia.
Qed.
Lemma demo_mmap_ok : mmap_ok demo_mmap.
Proof.
  intros ms size a. unfold demo_mmap. destruct (Z.leb_spec (top_of ms + size) (2 ^ 64)); [|done]. intros [= <-].
  destruct (top_of_spec ms) as [H1 H2]. split_and!; [lia|lia|]. intros m x Hm Hw. specialize (H2 m Hm). unfold within in Hw. lia.
Qed.

Definition demo_ipc : IPCTransport.t :=
  match new_ipc 4096 (env_of [("BYTEPS_PARTITION_BYTES", "4000"); ("BYTEPS_LOCAL_SIZE", "1")]) with
  | Ok t => t
  | Err _ => IPCTransport.mk 0 [] 0 0 "" ∅ false 0
  end.
Definition demo_object : list byte := replicate 4096 x00 ++ [x61; x62; x63] ++ replicate 4093 x00.
Definition demo_machine : machine := mkMachine {["BytePS_ShM_0_0" := demo_object]} [].
Definition demo_meta (push request : bool) : Meta.t :=
  Meta.default <| Meta.push := push |> <| Meta.request := request |> <| Meta.key := 1 |> <| Meta.val_len := 3 |>.
Definition demo_memory : host := mkHost (λ a, if a =? 65 then x78 else x79) [] [].

Lemma demo_machine_ok : machine_ok demo_machine.
Proof. constructor; intros ?; intros; by (exfalso; eapply (not_elem_of_nil (A:=mapping)); eassumption). Qed.
Lemma demo_cache_ok : cache_ok demo_ipc demo_machine.
Proof. intros base addr H. vm_compute in H. discriminate H. Qed.

Lemma ipc_push_reads_place_witness :
  ∃ n data h' t' mc',
    ipc_RecvPushRequest (λ _ _, 0) demo_mmap demo_po 0 (Message.mk (demo_meta true true) []) demo_memory
      demo_ipc demo_machine = Ok (n, Message.mk (demo_meta true true) ([] ++ data), h', t', mc') ∧
    arrays_of (Message.mk (demo_meta true true) []) (slice 4096 3 demo_object) data ∧
    machine_ok mc' ∧ cache_ok t' mc' ∧ same_config demo_ipc t' ∧ objects mc' = objects demo_machine.
Proof.
  apply (ipc_push_reads_place (λ _ _, 0) demo_mmap demo_po 0 (Message.mk (demo_meta true true) []) demo_memory
           demo_ipc demo_machine 1 demo_object).
  - exact demo_mmap_ok.
  - exact demo_machine_ok.
  - exact demo_cache_ok.
  - vm_compute. reflexivity.
  - lia.
  - vm_compute. split; reflexivity.
  - vm_compute. reflexivity.
  - vm_compute. eexists. reflexivity.
  - vm_compute. reflexivity.
  - vm_compute. discriminate.
Defined.

Definition demo_vals : SArray.t byte := SArray.mk 64 [x79; x78; x79] DeviceType.CPU 0 DeviceType.CPU 0.
Definition demo_buffer : MessageBuffer := mkMessageBuffer 8 32 [SArray.mk 0 [] DeviceType.CPU 0 DeviceType.CPU 0; demo_vals] [].
Definition demo_allocator : MemoryAllocator := mkMemoryAllocator {[32 := mkMR 32 4096 7 8]} ∅.
Definition demo_endpoint : Endpoint.t := Endpoint.mk 9 false [] 1 1 true ∅ [].
Definition demo_tuple : RemoteTuple := mkRemoteTuple 1000 5 0 0 17 1.

(** An adapter whose send queues have room for four work requests. *)
#[local] Instance demo_verbs : Verbs := {| post_accepts := λ l _ _, (length l <? 4)%nat |}.

Lemma ipc_answer_shared_witness :
  ∃ t1 mc1 t2 mc2 ep2,
    ipc_SendPullResponse demo_mmap demo_po 0 (Message.mk (demo_meta false false) []) demo_allocator demo_memory
      demo_buffer demo_tuple demo_ipc demo_machine demo_endpoint = Ok (t1, mc1, demo_endpoint) ∧
    AsyncCopyThread 0 (λ _, Ok demo_buffer) demo_allocator demo_memory t1 mc1 demo_endpoint = Ok (Some (t2, mc2, ep2)) ∧
    stored demo_ipc mc2 1 3 = Some [x79; x78; x79] ∧
    (∀ wk' len', in_u 64 wk' → wk' ≠ 1 → len' ≤ 4096 → stored demo_ipc mc2 wk' len' = stored demo_ipc demo_machine wk' len') ∧
    posted ep2 = [(0, PostWrite 32 8 7 1000 5 (Some 0) None)] ∧
    machine_ok mc2 ∧ cache_ok t2 mc2 ∧ async_copy_queue_ t2 !! 0%nat = Some [].
Proof.
  apply (ipc_answer_shared demo_mmap demo_po 0 (Message.mk (demo_meta false false) []) demo_allocator demo_memory
           demo_buffer demo_tuple demo_ipc demo_machine demo_endpoint 1 demo_object demo_vals 7).
  - exact demo_mmap_ok.
  - exact demo_machine_ok.
  - exact demo_cache_ok.
  - vm_compute. reflexivity.
  - vm_compute. split; [discriminate|reflexivity].
  - vm_compute. split; reflexivity.
  - vm_compute. reflexivity.
  - vm_compute. eexists. reflexivity.
  - vm_compute. split; [reflexivity|discriminate].
  - vm_compute. discriminate.
  - reflexivity.
  - reflexivity.
  - intros b Hb. left. vm_compute in Hb. injection Hb as <-. vm_compute. discriminate.
  - vm_compute. reflexivity.
  - vm_compute. discriminate.
  - vm_compute. reflexivity.
  - reflexivity.
  - vm_compute. reflexivity.
  - reflexivity.
Defined.
