(* ===== verification/RdmaFacts.v ===== *)
(** * Facts on the memory and the tables of the RDMA transport

    Reading and writing memory, registered regions, the pool of addresses, the
    key of a message and the parts of a value on several queue pairs. *)

From coqutil Require Import Word.LittleEndianList.
From S2P Require Import Prelude Message Env Postoffice Codec RdmaMemory RdmaTransport.

(** ** Memory *)
Lemma length_read m a n : length (read_bytes m a n) = n.
Proof. unfold read_bytes. by rewrite length_map, length_seq. Qed.

Lemma read_lookup m a n i : (i < n)%nat → read_bytes m a n !! i = Some (m (a + Z.of_nat i)).
Proof. intros Hi. unfold read_bytes. rewrite list_lookup_fmap, lookup_seq_lt by done. done. Qed.

Lemma read_ext m m' a n :
  (∀ x, a ≤ x < a + Z.of_nat n → m x = m' x) → read_bytes m a n = read_bytes m' a n.
Proof.
  intros He. apply list_eq. intros i. destruct (decide (i < n)%nat).
  - rewrite !read_lookup by done. f_equal. apply He. lia.
  - rewrite !lookup_ge_None_2; [done| |]; rewrite length_read; lia.
Qed.

Lemma write_same m a bs x : a ≤ x < a + Z.of_nat (length bs) → write_bytes a bs m x = nth (Z.to_nat (x - a)) bs x00.
Proof. intros Hx. unfold write_bytes. by rewrite bool_decide_eq_true_2. Qed.
Lemma write_other m a bs x : ¬ (a ≤ x < a + Z.of_nat (length bs)) → write_bytes a bs m x = m x.
Proof. intros Hx. unfold write_bytes. by rewrite bool_decide_eq_false_2. Qed.

Lemma read_write m a bs : read_bytes (write_bytes a bs m) a (length bs) = bs.
Proof.
  apply list_eq. intros i. destruct (decide (i < length bs)%nat) as [Hi|Hi].
  - rewrite read_lookup, write_same by lia. replace (Z.to_nat (a + Z.of_nat i - a)) with i by lia.
    destruct (lookup_lt_is_Some_2 bs i Hi) as [b Hb]. rewrite Hb. f_equal. by apply nth_lookup_Some.
  - rewrite !lookup_ge_None_2; [done|lia|rewrite length_read; lia].
Qed.

(** Two ranges have no address in common. *)
Definition apart (a n b m : Z) : Prop := a + n ≤ b ∨ b + m ≤ a.

Lemma read_write_apart m a n b bs :
  apart a (Z.of_nat n) b (Z.of_nat (length bs)) → read_bytes (write_bytes b bs m) a n = read_bytes m a n.
Proof. intros Ha. apply read_ext. intros x Hx. apply write_other. unfold apart in Ha. lia. Qed.

(** ** The allocator and the keys *)
Section memory.
Context (pagesize : Z) (malloc : list (Z * Z) → Z → Z) (mr_keys : nat → Z * Z).

(** A block of [malloc] is apart from all blocks in use, and not at the null
    pointer. *)
Definition malloc_fresh : Prop :=
  ∀ bs n, 0 ≤ n → 0 < malloc bs n ∧ ∀ a k, (a, k) ∈ bs → apart (malloc bs n) n a k.

(** Different registrations have different remote keys, which are never zero,
    and different local keys. *)
Definition keys_distinct : Prop :=
  (∀ i j, (mr_keys i).2 = (mr_keys j).2 → i = j) ∧ (∀ i j, (mr_keys i).1 = (mr_keys j).1 → i = j) ∧
  ∀ i, 0 < (mr_keys i).2.

Definition region_at (addr n : Z) (k : nat) : ibv_mr := mkMR addr n (mr_keys k).1 (mr_keys k).2.

Lemma ibv_reg_mr_eq addr n h :
  ibv_reg_mr mr_keys addr n h =
    (region_at addr n (length (regions h)), h <| regions ::= cons (region_at addr n (length (regions h))) |>).
Proof. unfold ibv_reg_mr, region_at. by destruct (mr_keys (length (regions h))). Qed.

(** Every region has the keys of its registration. *)
Definition keyed (l : list ibv_mr) : Prop :=
  ∀ i r, l !! i = Some r → (lkey r, rkey r) = mr_keys (length l - S i).

Lemma keyed_cons addr n l : keyed l → keyed (region_at addr n (length l) :: l).
Proof.
  intros Hk [|i] r Hr; simpl in *.
  - simplify_eq. simpl. rewrite Nat.sub_0_r. by destruct (mr_keys (length l)).
  - by apply Hk.
Qed.

Context (Hkeys : keys_distinct).

Lemma keyed_unique l r r' :
  keyed l → r ∈ l → r' ∈ l → rkey r = rkey r' ∨ lkey r = lkey r' → r = r'.
Proof.
  intros Hk [i Hi]%list_elem_of_lookup [j Hj]%list_elem_of_lookup Heq. destruct Hkeys as (H2 & H1 & _).
  pose proof (Hk i r Hi) as Ei. pose proof (Hk j r' Hj) as Ej.
  pose proof (lookup_lt_Some _ _ _ Hi). pose proof (lookup_lt_Some _ _ _ Hj).
  assert (length l - S i = length l - S j)%nat as E.
  { destruct Heq as [E|E]; [apply H2|apply H1]; rewrite <-Ei, <-Ej; simpl; done. }
  assert (i = j) by lia. congruence.
Qed.

Lemma find_unique (f : ibv_mr → Z) l r :
  r ∈ l → (∀ r', r' ∈ l → f r' = f r → r' = r) → List.find (λ r', f r' =? f r) l = Some r.
Proof.
  intros Hin Hu. destruct (List.find _ l) as [r'|] eqn:E.
  - apply List.find_some in E as [Hi E%Z.eqb_eq]. apply list_elem_of_In in Hi. f_equal. by apply Hu.
  - eapply List.find_none in E; [|by apply list_elem_of_In]. simpl in E. lia.
Qed.

Lemma find_by_rkey h r : keyed (regions h) → r ∈ regions h → find_region (rkey r) h = Some r.
Proof. intros Hk Hr. apply find_unique; [done|]. intros r' Hr' E. eapply keyed_unique; eauto. Qed.
Lemma find_by_lkey h r :
  keyed (regions h) → r ∈ regions h → List.find (λ r', lkey r' =? lkey r) (regions h) = Some r.
Proof. intros Hk Hr. apply find_unique; [done|]. intros r' Hr' E. eapply keyed_unique; eauto. Qed.
End memory.

(** ** Sizes of allocations *)
Section sizes.
Context (pagesize : Z) (Hpage : 0 < pagesize < 2 ^ 31).

(** Rounding up to whole pages, where the sum does not pass 64 bits. *)
Lemma align_ceil_spec n :
  0 ≤ n < 2 ^ 63 → n ≤ align_ceil n pagesize < n + pagesize ∧ align_ceil n pagesize mod pagesize = 0.
Proof.
  intros Hn. unfold align_ceil, align_floor. rewrite (uwrap_small 64) by word_lia.
  split; [div_lia|]. rewrite Zminus_mod_idemp_r, Z.sub_diag. apply Z.mod_0_l. lia.
Qed.

Lemma ROUNDUP_spec n :
  0 ≤ n < 2 ^ 63 → n ≤ ROUNDUP n pagesize < n + pagesize.
Proof.
  intros Hn. unfold ROUNDUP, DIVUP. rewrite (uwrap_small 64 (n + _ - 1)) by word_lia.
  assert (n ≤ (n + pagesize - 1) / pagesize * pagesize < n + pagesize) by div_lia.
  rewrite (uwrap_small 64) by word_lia. done.
Qed.
End sizes.

(** ** Parts of a value on several queue pairs *)

Section ranges.
Context (QP_NUM : Z) (Hq : 0 < QP_NUM).

(** The share of a queue pair, and what queue pair 0 has on top. *)
Lemma qp_ranges_eq size :
  0 ≤ size < 2 ^ 32 →
  let chunk := size / QP_NUM in
  let first := chunk + size mod QP_NUM in
  0 ≤ chunk ∧ 0 ≤ first ∧ first + (QP_NUM - 1) * chunk = size ∧
  qp_ranges QP_NUM size =
    (0, 0, first) :: map (λ qp, (qp, first + (qp - 1) * chunk, chunk)) (seqZ 1 (QP_NUM - 1)).
Proof.
  intros Hs chunk first. pose proof (Z.div_mod size QP_NUM ltac:(lia)) as Hd.
  pose proof (Z.mod_pos_bound size QP_NUM Hq). assert (0 ≤ chunk) by (apply Z.div_pos; lia).
  assert (first + (QP_NUM - 1) * chunk = size) as Hf by (unfold first, chunk in *; lia).
  assert (0 ≤ (QP_NUM - 1) * chunk) by nia. assert (0 ≤ first) by (unfold first, chunk in *; lia).
  split_and!; [done..|]. unfold qp_ranges. fold chunk.
  rewrite (uwrap_small 32 chunk) by (unfold first in *; word_lia). fold first.
  by rewrite (uwrap_small 32 first) by word_lia.
Qed.

Lemma u32_le z : 0 ≤ z → 0 ≤ u32 z ≤ z ∧ u32 z < 2 ^ 32.
Proof. intros. unfold uwrap. pose proof (Z.mod_le z (2 ^ 32)). pose proof (Z.mod_pos_bound z (2 ^ 32)). lia. Qed.

(** All parts of a value lie inside it, also when its size has more than 32 bits. *)
Lemma qp_ranges_inside size qp off len :
  0 ≤ size → (qp, off, len) ∈ qp_ranges QP_NUM size → 0 ≤ off ∧ 0 ≤ len ∧ off + len ≤ size.
Proof.
  intros Hs. unfold qp_ranges. pose proof (Z.div_mod size QP_NUM ltac:(lia)). pose proof (Z.mod_pos_bound size QP_NUM Hq).
  assert (0 ≤ size / QP_NUM) as Hd by (apply Z.div_pos; lia). destruct (u32_le _ Hd) as [Hc _].
  set (chunk := u32 (size / QP_NUM)) in *. clearbody chunk.
  destruct (u32_le (chunk + size mod QP_NUM) ltac:(lia)) as [Hf _]. set (first := u32 _) in *. clearbody first.
  assert (QP_NUM * chunk ≤ QP_NUM * (size / QP_NUM)) by nia. assert (0 ≤ (QP_NUM - 1) * chunk) by nia.
  intros [E|(q & E & Hin%elem_of_seqZ)%list_elem_of_fmap]%elem_of_cons; simplify_eq; [lia|]. nia.
Qed.

(** The bytes of a part. *)
Definition part (bs : list byte) (r : Z * Z * Z) : list byte :=
  take (Z.to_nat r.2) (drop (Z.to_nat r.1.2) bs).

Lemma parts_consecutive bs first chunk n :
  0 ≤ first → 0 ≤ chunk →
  concat (map (λ qp, part bs (qp, first + (qp - 1) * chunk, chunk)) (seqZ 1 (Z.of_nat n))) =
    take (n * Z.to_nat chunk) (drop (Z.to_nat first) bs).
Proof.
  intros H1 H2. induction n as [|n IH]; [done|].
  rewrite seqZ_S, map_app, concat_app, IH. simpl. rewrite app_nil_r. unfold part. simpl.
  replace (Z.to_nat (first + (1 + Z.of_nat n - 1) * chunk)) with (Z.to_nat first + n * Z.to_nat chunk)%nat by nia.
  rewrite <-drop_drop, Nat.add_comm, <-take_take_drop. done.
Qed.

(** The parts, in the order of the queue pairs, make up the value. *)
Lemma qp_ranges_tile bs :
  Z.of_nat (length bs) < 2 ^ 32 →
  concat (map (part bs) (qp_ranges QP_NUM (Z.of_nat (length bs)))) = bs.
Proof.
  intros Hl. destruct (qp_ranges_eq (Z.of_nat (length bs)) ltac:(lia)) as (H0 & H1 & H2 & ->). simpl.
  set (chunk := Z.of_nat (length bs) / QP_NUM) in *. set (first := chunk + _) in *. clearbody chunk first.
  rewrite map_map. replace (QP_NUM - 1) with (Z.of_nat (Z.to_nat (QP_NUM - 1))) by lia.
  rewrite parts_consecutive by done. unfold part. simpl. rewrite drop_0.
  rewrite (take_ge (drop _ bs)); [apply take_drop|]. rewrite length_drop. nia.
Qed.
End ranges.

(** ** Keys *)

(** [DecodeKey] reads the bytes of a number back, modulo 2^64. *)
Lemma decode_bytes_split n z coef key :
  decode_bytes (le_split n z) (u64 coef) (u64 key) = u64 (key + coef * (z mod 2 ^ (8 * Z.of_nat n))).
Proof.
  revert z coef key. induction n as [|n IH]; intros z coef key; [simpl; rewrite Z.mod_1_r; f_equal; lia|].
  change (le_split (S n) z) with (byte.of_Z z :: le_split n (Z.shiftr z 8)). cbn [decode_bytes].
  rewrite byte.unsigned_of_Z. unfold byte.wrap.
  assert (u64 (u64 coef * 256) = u64 (coef * 256)) as -> by apply Zmult_mod_idemp_l.
  assert (u64 (u64 key + u64 (u64 coef * (z mod 2 ^ 8))) = u64 (key + coef * (z mod 2 ^ 8))) as ->.
  { unfold uwrap. rewrite Zmult_mod_idemp_l. symmetry. apply Zplus_mod. }
  rewrite IH, Z.shiftr_div_pow2 by lia. f_equal.
  replace (8 * Z.of_nat (S n)) with (8 + 8 * Z.of_nat n) by lia.
  rewrite Z.pow_add_r, Z.rem_mul_r by lia. lia.
Qed.

Lemma DecodeKey_enc key (a : SArray.t byte) :
  in_u 64 key → SArray.elems a = enc_u64 key → DecodeKey a = key.
Proof.
  intros Hk E. unfold DecodeKey. rewrite E. unfold enc_u64.
  change 1 with (u64 1) at 1. change 0 with (u64 0). rewrite decode_bytes_split.
  rewrite Z.mod_small by exact Hk. rewrite Z.mul_1_l. by apply uwrap_small.
Qed.

(** ** The pool of addresses *)
Section pool.
Context {T : Type}.
Implicit Types p : AddressPool T.

(** The free numbers, each once, are those of the empty entries. *)
Definition pool_ok p : Prop :=
  NoDup (indices_ p) ∧
  ∀ i, i ∈ indices_ p ↔ 0 ≤ i ∧ table_ p !! Z.to_nat i = Some None.

Lemma new_pool_ok size p : new_pool size = Ok p → pool_ok p ∧ Z.of_nat (length (indices_ p)) = pool_size size.
Proof.
  unfold new_pool. destruct (0 <=? pool_size size) eqn:E; [|discriminate]. intros [= <-].
  apply Z.leb_le in E. unfold pool_ok. simpl. rewrite length_seqZ. split; [|lia]. split; [apply NoDup_seqZ|].
  intros i. rewrite elem_of_seqZ, lookup_replicate. split; [intros; split_and!; lia || done|].
  intros (? & _ & ?). lia.
Qed.

Lemma entry_lookup p i o : 0 ≤ i → table_ p !! Z.to_nat i = Some o → entry p i = Ok o.
Proof.
  intros Hi Ho. unfold entry. pose proof (lookup_lt_Some _ _ _ Ho).
  rewrite (proj2 (andb_true_iff _ _)) by (split; lia). by rewrite Ho.
Qed.

(** Storing succeeds as long as a number is free; the number was free, names the
    new address from then on, and the other numbers keep theirs. *)
Lemma StoreAddress_spec p x i rest :
  pool_ok p → indices_ p = i :: rest →
  ∃ p', StoreAddress x p = Ok (i, p') ∧ pool_ok p' ∧ indices_ p' = rest ∧ GetAddress i p' = Ok x ∧
    ∀ j, j ≠ i → 0 ≤ j → entry p' j = entry p j.
Proof.
  intros [Hnd Hfree] Hi. destruct (proj1 (Hfree i)) as [Hi0 He]; [rewrite Hi; left|].
  pose proof (lookup_lt_Some _ _ _ He) as Hlt. rewrite Hi in Hnd. apply NoDup_cons in Hnd as [Hni Hnd].
  unfold StoreAddress. rewrite Hi, (entry_lookup _ _ _ Hi0 He). simpl.
  eexists. split_and!; [reflexivity| |done| |].
  - split; [done|]. intros j. simpl. destruct (decide (j = i)) as [->|Hne].
    + rewrite list_lookup_insert_eq by done. naive_solver.
    + transitivity (j ∈ indices_ p); [rewrite Hi, elem_of_cons; naive_solver|]. rewrite Hfree.
      split; intros [? ?]; (split; [done|]); [rewrite list_lookup_insert_ne by lia|rewrite list_lookup_insert_ne in * by lia]; done.
  - unfold GetAddress. erewrite entry_lookup; [|done|by apply list_lookup_insert_eq]. done.
  - intros j Hne Hj. unfold entry, set_entry. simpl. rewrite length_insert.
    by rewrite list_lookup_insert_ne by lia.
Qed.

Lemma StoreAddress_full p x : indices_ p = [] → StoreAddress x p = Err (CheckFailed "Address pool size is too small").
Proof. unfold StoreAddress. by intros ->. Qed.

(** Releasing a number gives back its address and frees the number. *)
Lemma GetAddressAndRelease_spec p i x :
  pool_ok p → 0 ≤ i → GetAddress i p = Ok x →
  ∃ p', GetAddressAndRelease i p = Ok (x, p') ∧ pool_ok p' ∧ indices_ p' = indices_ p ++ [i].
Proof.
  intros [Hnd Hfree] Hi. unfold GetAddress, GetAddressAndRelease. destruct (entry p i) as [[y|]|] eqn:E; [|done..].
  simpl. intros [= ->]. eexists; split_and!; [reflexivity| |done].
  unfold entry in E. destruct (_ && _) eqn:Hb; [|discriminate]. apply from_option_or_Ok in E.
  assert (i ∉ indices_ p) as Hni by (rewrite Hfree; intros [_ ?]; congruence).
  pose proof (lookup_lt_Some _ _ _ E).
  split; simpl.
  - apply NoDup_app. split_and!; [done| |apply NoDup_singleton]. intros j Hj ->%list_elem_of_singleton. done.
  - intros j. rewrite elem_of_app, list_elem_of_singleton, Hfree. destruct (decide (j = i)) as [->|Hne].
    + rewrite list_lookup_insert_eq by done. naive_solver.
    + split.
      * intros [[? ?]|]; [|done]. split; [done|]. by rewrite list_lookup_insert_ne by lia.
      * intros [? ?]. rewrite list_lookup_insert_ne in * by lia. by left.
Qed.
End pool.
