(* ===== verification/RdmaSystem.v ===== *)
(** * Nodes connected by RDMA

    Nodes that run the RDMA van, connected by adapters that execute the posted
    work requests of every queue pair in order, at any time, and report them to
    both ends.  The steps of all nodes interleave freely. *)

From S2P Require Import Prelude Message Env Postoffice Codec RdmaMemory RdmaTransport RdmaVan RdmaFacts.
Import Endpoint RDMAVan.

(** ** The network adapters *)
Section adapter.
Implicit Types h : host.

(** The bytes a write takes from its node. *)
Definition nic_read (local len lk : Z) (inline : option (list byte)) h : result (list byte) :=
  match inline with
  | Some bs => Ok bs
  | None =>
      match List.find (λ r, lkey r =? lk) (regions h) with
      | Some r =>
          inside! covers r local len or "local protection error";
          Ok (read_bytes (mem h) local (Z.to_nat len))
      | None => Err (Undefined "local protection error")
      end
  end.

(** A write into the memory of the other node. *)
Definition nic_write (raddr rk : Z) (bs : list byte) h : result host :=
  match find_region rk h with
  | Some r =>
      inside! covers r raddr (Z.of_nat (length bs)) or "remote access error";
      Ok (h <| mem ::= write_bytes raddr bs |>)
  | None => Err (Undefined "remote access error")
  end.

(** What a work request of a node does to the other node, whose end of the
    connection is [c], and the completions at both ends. *)
Definition nic_execute (w : work) (mine : conn) (c : conn) h (v : RDMAVan.t)
    : result (RDMAVan.t * list completion * completion) :=
  match w with
  | PostStart req => Ok (v, [RecvStart c req], SendDone mine false)
  | PostReply resp => Ok (v, [RecvReply c resp], SendDone mine true)
  | PostWrite local len lk raddr rk imm inline =>
      bs ← nic_read local len lk inline h;
      h' ← nic_write raddr rk bs (host_ v);
      Ok (v <| host_ := h' |>, match imm with Some i => [RecvImm c i] | None => [] end, WriteDone)
  end.
End adapter.

(** The other end of a connection of node [x]. *)
Definition peer (c : conn) : Z := match c with Out y => y | In y => y end.
Definition other_end (x : Z) (c : conn) : conn := match c with Out _ => In x | In _ => Out x end.

(** [pulls y]: the address, length and remote key in the meta data of the pull
    requests that node [y] has sent. *)
Record system : Type := mkSystem {
  vans : Z → RDMAVan.t; cqs : Z → list completion; pulls : Z → list (Z * Z * Z)
}.

Section protocol.
Context {verbs : Verbs}.
Context (pagesize : Z) (malloc : list (Z * Z) → Z → Z) (mr_keys : nat → Z * Z) (QP_NUM : Z).
Context (server : Z → bool).

(** The work requests of connection [c] of [v], and [v] with others. *)
Definition posted_on (c : conn) (v : RDMAVan.t) : list (Z * work) :=
  match get_endpoint c v with Ok ep => posted ep | Err _ => [] end.
Definition set_posted (c : conn) (l : list (Z * work)) (v : RDMAVan.t) : RDMAVan.t :=
  match get_endpoint c v with Ok ep => set_endpoint c (ep <| posted := l |>) v | Err _ => v end.

(** A region of [h] with remote key [rk] around [addr, addr + n). *)
Definition reaches (h : host) (addr n rk : Z) : Prop :=
  ∃ r, r ∈ regions h ∧ rkey r = rk ∧ covers r addr n = true.
Definition holds (h : host) (addr n lk : Z) : Prop :=
  ∃ r, r ∈ regions h ∧ lkey r = lk ∧ covers r addr n = true.

Definition is_pull_request (msg : Message.t) : bool :=
  IsValidPushpull msg && negb (Meta.push (Message.meta msg)) && Meta.request (Message.meta msg).

(** The range and the key in the meta data of a pull request that [SendMsg]
    sends: as its first steps leave them. *)
Definition pull_range (msg : Message.t) (v : RDMAVan.t) : list (Z * Z * Z) :=
  if is_pull_request msg then
    match v1 ← RegisterMemory mr_keys msg v; AddMeta msg v1 with
    | Ok msg' => let m := Message.meta msg' in [(Meta.addr m, Meta.val_len m, u32 (Meta.option_ m))]
    | Err _ => []
    end
  else [].

(** What the applications of node [x] may send: meta data of less than 2 GiB; the
    first array of a message, its keys, is not empty; the arrays of a data message
    have less than 4 GiB, and pushes with values go to servers.  The length in a
    pull request is an [int] and the remote key of its memory a [uint32_t].  The
    answer to a pull carries the address, the length and the key of a pull request
    that its receiver has sent ([KVServer] takes them from the request into
    [KVMeta], and [Response] back); nothing is assumed of what they stand for. *)
Definition sendable (s : system) (x : Z) (msg : Message.t) : Prop :=
  let m := Message.meta msg in
  0 < GetPackMetaLen m ∧
  (∀ ks, Message.data msg !! 0%nat = Some ks → SArray.size ks ≠ 0) ∧
  (is_pull_request msg = true → Meta.val_len m < 2 ^ 31 ∧
     ∀ v1 mr, RegisterMemory mr_keys msg (vans s x) = Ok v1 → mem_mr_ v1 !! Meta.addr m = Some mr → in_u 32 (rkey mr)) ∧
  (IsValidPushpull msg = true →
  (∀ sa, sa ∈ Message.data msg → SArray.size sa < 2 ^ 32) ∧
  (Meta.push m = true → Meta.request m = true → server (Meta.recver m) = true) ∧
  (Meta.push m = false → Meta.request m = false →
     (Meta.addr m, Meta.val_len m, u32 (Meta.option_ m)) ∈ pulls s (Meta.recver m))).

(** A buffer for receiving has a key, and its values are not empty. *)
Definition registrable (msg : Message.t) : Prop :=
  ∃ ks vs rest, Message.data msg = ks :: vs :: rest ∧ SArray.size ks ≠ 0 ∧ SArray.size vs ≠ 0.

Inductive step (s : system) : system → Prop :=
| step_send x msg n v' :
    sendable s x msg → SendMsg pagesize malloc mr_keys QP_NUM msg (vans s x) = Ok (n, v') →
    step s (mkSystem (upd (vans s) x v') (cqs s) (upd (pulls s) x (pulls s x ++ pull_range msg (vans s x))))
| step_register x msg v' :
    registrable msg → RegisterRecvBuffer mr_keys msg (vans s x) = Ok v' →
    step s (mkSystem (upd (vans s) x v') (cqs s) (pulls s))
| step_poll x wc rest v' :
    cqs s x = wc :: rest → PollCQ pagesize malloc mr_keys QP_NUM wc (vans s x) = Ok v' →
    step s (mkSystem (upd (vans s) x v') (upd (cqs s) x rest) (pulls s))
| step_recv x n msg v' :
    RecvMsg pagesize malloc (vans s x) = Ok (n, msg, v') →
    step s (mkSystem (upd (vans s) x v') (cqs s) (pulls s))
| step_execute x c l1 qp w l2 vy wcs done :
    posted_on c (vans s x) = l1 ++ (qp, w) :: l2 → Forall (λ q, q.1 ≠ qp) l1 →
    let s1 := upd (vans s) x (set_posted c (l1 ++ l2) (vans s x)) in
    nic_execute w c (other_end x c) (host_ (vans s x)) (s1 (peer c)) = Ok (vy, wcs, done) →
    let q1 := upd (cqs s) x (cqs s x ++ [done]) in
    step s (mkSystem (upd s1 (peer c) vy) (upd q1 (peer c) (q1 (peer c) ++ wcs)) (pulls s)).

(** ** The steps as functions *)
Inductive action : Type :=
| Sending (x : Z) (msg : Message.t)
| Registering (x : Z) (msg : Message.t)
| Polling (x : Z)
| Receiving (x : Z)
| Executing (x : Z) (c : conn).          (* the first work request of the connection *)

(** The new state, and the message received. *)
Definition perform (a : action) (s : system) : result (system * option Message.t) :=
  match a with
  | Sending x msg =>
      r ← SendMsg pagesize malloc mr_keys QP_NUM msg (vans s x);
      Ok (mkSystem (upd (vans s) x r.2) (cqs s) (upd (pulls s) x (pulls s x ++ pull_range msg (vans s x))), None)
  | Registering x msg =>
      v ← RegisterRecvBuffer mr_keys msg (vans s x);
      Ok (mkSystem (upd (vans s) x v) (cqs s) (pulls s), None)
  | Polling x =>
      match cqs s x with
      | [] => Err (Blocked "ibv_poll_cq")
      | wc :: rest =>
          v ← PollCQ pagesize malloc mr_keys QP_NUM wc (vans s x);
          Ok (mkSystem (upd (vans s) x v) (upd (cqs s) x rest) (pulls s), None)
      end
  | Receiving x =>
      r ← RecvMsg pagesize malloc (vans s x);
      Ok (mkSystem (upd (vans s) x r.2) (cqs s) (pulls s), Some r.1.2)
  | Executing x c =>
      match posted_on c (vans s x) with
      | [] => Err (Blocked "posted")
      | (qp, w) :: l =>
          let s1 := upd (vans s) x (set_posted c l (vans s x)) in
          r ← nic_execute w c (other_end x c) (host_ (vans s x)) (s1 (peer c));
          let q1 := upd (cqs s) x (cqs s x ++ [r.2]) in
          Ok (mkSystem (upd s1 (peer c) r.1.1) (upd q1 (peer c) (q1 (peer c) ++ r.1.2)) (pulls s), None)
      end
  end.

Fixpoint perform_all (l : list action) (s : system) : result (system * list Message.t) :=
  match l with
  | [] => Ok (s, [])
  | a :: l' =>
      r ← perform a s;
      r' ← perform_all l' r.1;
      Ok (r'.1, option_list r.2 ++ r'.2)
  end.

(** What the applications do is allowed. *)
Definition allowed (a : action) (s : system) : Prop :=
  match a with
  | Sending x msg => sendable s x msg
  | Registering _ msg => registrable msg
  | _ => True
  end.

Lemma perform_step a s s' o : allowed a s → perform a s = Ok (s', o) → step s s'.
Proof.
  intros Ha. destruct a as [x msg|x msg|x|x|x c]; simpl in *.
  - intros ([n v] & H & [= <- <-])%bind_Ok. by eapply step_send.
  - intros (v & H & [= <- <-])%bind_Ok. by eapply step_register.
  - destruct (cqs s x) as [|wc rest] eqn:E; [done|]. intros (v & H & [= <- <-])%bind_Ok. by eapply step_poll.
  - intros ([[n msg] v] & H & [= <- <-])%bind_Ok. by eapply step_recv.
  - destruct (posted_on c (vans s x)) as [|[qp w] l] eqn:E; [done|].
    intros ([[vy wcs] d] & H & [= <- <-])%bind_Ok. by eapply (step_execute s x c [] qp w l).
Qed.

(** The nodes after the connections have been made: nothing sent, nothing
    registered. *)
Definition fresh (x : Z) (v : RDMAVan.t) : Prop :=
  regions (host_ v) = [] ∧ mr_ (mem_allocator_ v) = ∅ ∧ mem_mr_ v = ∅ ∧ push_addr_ v = ∅ ∧ pull_addr_ v = ∅ ∧
  msg_bufs v = [] ∧ msgbuf_cache_ v = ∅ ∧ registered_recv_buffers_ v = ∅ ∧
  (∀ y ep, endpoints_ v !! y = Some ep → posted ep = [] ∧ Endpoint.mem_allocator_ ep = ∅) ∧
  (∀ y ep, incoming_ v !! y = Some ep →
     posted ep = [] ∧ is_server_ ep = server x ∧ Endpoint.mem_allocator_ ep = ∅).
Definition initial (s : system) : Prop := ∀ x, fresh x (vans s x) ∧ cqs s x = [] ∧ pulls s x = [].

Inductive reachable : system → Prop :=
| reach_init s : initial s → reachable s
| reach_step s s' : reachable s → step s s' → reachable s'.
End protocol.
