(* ===== verification/RdmaSafety.v ===== *)
(** * Remote writes stay inside registered memory

    The invariant ties every announced message, every answer and every
    remembered buffer to a region registered at the receiving node, so that no
    work request ever leaves the registered memory of the two nodes. *)

From S2P Require Import Prelude Message Env Postoffice Codec RdmaMemory RdmaTransport RdmaVan RdmaFacts RdmaSystem.
Import Endpoint RDMAVan.

Lemma get_set_endpoint c c' ep ep0 v :
  get_endpoint c (set_endpoint c' ep v) = Ok ep0 ↔ c = c' ∧ ep0 = ep ∨ c ≠ c' ∧ get_endpoint c v = Ok ep0.
Proof.
  destruct c as [y|y], c' as [y'|y']; simpl; try (destruct (decide (y = y')) as [->|Hne];
    [rewrite lookup_insert_eq|rewrite lookup_insert_ne by done]); simpl; naive_solver.
Qed.

Section invariant.
Context {verbs : Verbs}.
Context (pagesize : Z) (malloc : list (Z * Z) → Z → Z) (mr_keys : nat → Z * Z) (QP_NUM : Z).
Context (server : Z → bool).
Implicit Types (v : RDMAVan.t) (env : Z → RDMAVan.t) (msg : Message.t) (b : MessageBuffer).

(** ** What ties the parts of two nodes together *)

(** The work request finds its memory at both ends. *)
Definition write_ok (h h' : host) (local len lk raddr rk : Z) (inline : option (list byte)) : Prop :=
  0 ≤ len ∧ reaches h' raddr len rk ∧
  match inline with Some bs => Z.of_nat (length bs) = len | None => holds h local len lk end.

(** The values of a message are registered, or there are none. *)
Definition array_ok v (sa : SArray.t byte) : Prop :=
  SArray.size sa = 0 ∨ registered (SArray.ptr_ sa) (SArray.size sa) v = true.

Definition buf_ok v b : Prop :=
  (∃ mr, mr_ (mem_allocator_ v) !! inline_buf b = Some mr ∧ inline_len b ≤ mr_length mr) ∧
  0 ≤ inline_len b < 2 ^ 31 ∧
  (∀ mr len, (mr, len) ∈ mrs b → mr ∈ regions (host_ v) ∧ 0 ≤ len ≤ mr_length mr) ∧
  (∀ vals, mb_data b !! 1%nat = Some vals → array_ok v vals).

(** The remote buffers [meta] and [data] are large enough for buffer [b]. *)
Definition room (h : host) b (meta meta_rkey data data_rkey : Z) : Prop :=
  reaches h meta (inline_len b) meta_rkey ∧
  ∀ mr len, (mr, len) ∈ mrs b → reaches h data len data_rkey.

(** The buffer at [a] waits for the answer of node [y]. *)
Definition waits v (a y : Z) b : Prop :=
  get_buf a v = Ok b ∧
  ∀ msg, msgbuf_cache_ v !! a = Some msg → Meta.recver (Message.meta msg) = y.

(** A rendezvous of [v] with node [y] announces what will be written. *)
Definition start_ok v (y : Z) (req : RendezvousStart) : Prop :=
  ∃ b, waits v (st_origin_addr req) y b ∧ st_meta_len req = inline_len b ∧ 0 ≤ st_meta_len req < 2 ^ 31 ∧
    ∀ mr len, (mr, len) ∈ mrs b →
      st_data_len req !! 1%nat = Some len ∧ 0 < total (st_data_len req) ∧ server y = true.

(** The answer of node [y] to [v] has buffers at node [y], whose host is [h]. *)
Definition reply_ok v (h : host) (y : Z) (resp : RendezvousReply) : Prop :=
  ∃ b, waits v (rp_origin_addr resp) y b ∧
    room h b (rp_meta_addr resp) (rp_meta_rkey resp) (rp_data_addr resp) (rp_data_rkey resp).

(** A work request of node [x], which is [v], on connection [c]. *)
Definition work_ok (x : Z) v env (c : conn) (w : work) : Prop :=
  match c, w with
  | Out y, PostStart req => start_ok v y req
  | Out y, PostWrite local len lk raddr rk _ inline =>
      write_ok (host_ v) (host_ (env y)) local len lk raddr rk inline
  | In y, PostReply resp => reply_ok (env y) (host_ v) x resp
  | _, _ => False
  end.

(** A completion at node [x]. *)
Definition completion_ok (x : Z) env (wc : completion) : Prop :=
  match wc with
  | RecvStart (In y) req => start_ok (env y) x req
  | RecvStart (Out _) _ => False
  | RecvReply (Out y) resp => reply_ok (env x) (host_ (env y)) y resp
  | RecvReply (In _) _ => False
  | _ => True
  end.

(** The answer to a pull goes to memory its receiver has registered. *)
Definition answer_ok env msg : Prop :=
  let m := Message.meta msg in
  IsValidPushpull msg = true → Meta.push m = false → Meta.request m = false →
  0 ≤ Meta.val_len m < 2 ^ 31 ∧
  reaches (host_ (env (Meta.recver m))) (Meta.addr m) (Meta.val_len m) (u32 (Meta.option_ m)).

(** The invariant of node [x]. *)
Record node_ok (x : Z) env v : Prop := {
  ok_keys : keyed mr_keys (regions (host_ v));
  ok_alloc a mr : mr_ (mem_allocator_ v) !! a = Some mr →
    mr ∈ regions (host_ v) ∧ mr_addr mr = a ∧ 0 < mr_length mr ∧ ∃ k, 0 < k ∧ (a, k) ∈ blocks (host_ v);
  ok_mr a mr : mem_mr_ v !! a = Some mr → mr ∈ regions (host_ v) ∧ mr_addr mr = a ∧ 0 ≤ mr_length mr;
  ok_bufs a b : get_buf a v = Ok b → buf_ok v b;
  ok_tuples p key y t : remote_of p v !! (key, y) = Some t →
    ∃ b, get_buf (rt_msg_buf t) v = Ok b ∧
      room (host_ (env y)) b (rt_meta_addr t) (rt_meta_rkey t) (rt_data_addr t) (rt_data_rkey t);
  ok_posted c ep qp w : get_endpoint c v = Ok ep → (qp, w) ∈ posted ep → work_ok x v env c w;
  ok_incoming y ep : get_endpoint (In y) v = Ok ep → is_server_ ep = server x;
  ok_backend c ep key mr : get_endpoint c v = Ok ep → Endpoint.mem_allocator_ ep !! key = Some mr →
    mr ∈ regions (host_ v);
  ok_cache a msg : msgbuf_cache_ v !! a = Some msg → answer_ok env msg ∧ is_ok (get_buf a v) = true;
  ok_registered key node buf : (node, buf) ∈ default [] (registered_recv_buffers_ v !! key) →
    registered (SArray.ptr_ buf) (SArray.size buf) v = true
}.

(** ** A node grows: it keeps its regions and its buffers *)
Record extends v v' : Prop := {
  ex_regions r : r ∈ regions (host_ v) → r ∈ regions (host_ v');
  ex_bufs a b : get_buf a v = Ok b →
    (∃ b', get_buf a v' = Ok b' ∧ inline_len b' = inline_len b ∧ mrs b' = mrs b) ∧
    ∀ msg, msgbuf_cache_ v' !! a = Some msg → msgbuf_cache_ v !! a = Some msg
}.

#[export] Instance extends_preorder : PreOrder extends.
Proof.
  split.
  - intros v. constructor; eauto.
  - intros v1 v2 v3 [Hr Hb] [Hr' Hb']. constructor; [eauto|]. intros a b H.
    destruct (Hb a b H) as [(b' & H' & E1 & E2) Hc].
    destruct (Hb' a b' H') as [(b2 & H2 & E3 & E4) Hc']. split; [|eauto].
    exists b2. split_and!; congruence.
Qed.

Lemma reaches_mono v v' a n rk : extends v v' → reaches (host_ v) a n rk → reaches (host_ v') a n rk.
Proof. intros E (r & Hr & ?). exists r. split; [by apply (ex_regions _ _ E)|done]. Qed.

Lemma room_mono v v' b b' m mk d dk :
  extends v v' → inline_len b' = inline_len b → mrs b' = mrs b →
  room (host_ v) b m mk d dk → room (host_ v') b' m mk d dk.
Proof. intros E El Em [H1 H2]. unfold room. rewrite El, Em. split; eauto using reaches_mono. Qed.

Lemma waits_mono v v' a y b :
  extends v v' → waits v a y b → ∃ b', waits v' a y b' ∧ inline_len b' = inline_len b ∧ mrs b' = mrs b.
Proof.
  intros E [Hb Hc]. destruct (ex_bufs _ _ E a b Hb) as [(b' & Hb' & ? & ?) Hc'].
  exists b'. split; [split; eauto|done].
Qed.

Lemma start_mono v v' y req : extends v v' → start_ok v y req → start_ok v' y req.
Proof.
  intros E (b & Hw & Hl & Hn & Hm). destruct (waits_mono _ _ _ _ _ E Hw) as (b' & Hw' & El & Em).
  exists b'. split; [done|]. split; [congruence|]. split; [done|]. by rewrite Em.
Qed.

Lemma reply_mono v v' w w' y resp :
  extends v v' → extends w w' → reply_ok v (host_ w) y resp → reply_ok v' (host_ w') y resp.
Proof.
  intros E E' (b & Hw & Hr). destruct (waits_mono _ _ _ _ _ E Hw) as (b' & Hw' & El & Em).
  exists b'. split; [done|]. by eapply room_mono.
Qed.

Lemma write_mono v v' w w' local len lk raddr rk inline :
  extends v v' → extends w w' → write_ok (host_ v) (host_ w) local len lk raddr rk inline →
  write_ok (host_ v') (host_ w') local len lk raddr rk inline.
Proof.
  intros E E' (Hl & Hr & Hi). split_and!; [done|by eapply reaches_mono|]. destruct inline; [done|].
  destruct Hi as (r & Hr' & ?). exists r. split; [by apply (ex_regions _ _ E)|done].
Qed.

Definition env_extends env env' : Prop := ∀ y, extends (env y) (env' y).

Lemma work_mono x v v' env env' c w :
  extends v v' → env_extends env env' → work_ok x v env c w → work_ok x v' env' c w.
Proof. intros E E'. destruct c, w; simpl; eauto using start_mono, reply_mono, write_mono. Qed.

Lemma completion_mono x env env' wc : env_extends env env' → completion_ok x env wc → completion_ok x env' wc.
Proof. intros E. destruct wc as [| |[]|[]|]; simpl; eauto using start_mono, reply_mono. Qed.

Lemma answer_mono env env' msg : env_extends env env' → answer_ok env msg → answer_ok env' msg.
Proof. intros E H H1 H2 H3. destruct (H H1 H2 H3). split; [done|]. by eapply reaches_mono; [apply E|]. Qed.

(** The invariant of a node holds on when the others grow. *)
Lemma node_mono x v env env' : env_extends env env' → node_ok x env v → node_ok x env' v.
Proof.
  intros E []. constructor; eauto.
  - intros p key y t Ht. destruct (ok_tuples0 p key y t Ht) as (b & Hb & Hr). exists b. split; [done|].
    by eapply room_mono; [apply E| | |].
  - intros c ep qp w Hep Hw. eapply work_mono; [reflexivity|done|]. by eapply ok_posted0.
  - intros a msg Ha. destruct (ok_cache0 a msg Ha). split; [by eapply answer_mono|done].
Qed.

(** ** Changes of one node *)
Definition grows (x : Z) env v v' : Prop := extends v v' ∧ node_ok x env v'.

Lemma grows_trans x env v v' v'' : grows x env v v' → grows x env v' v'' → grows x env v v''.
Proof. intros [E _] [E' H]. split; [by etransitivity|done]. Qed.

Lemma buf_mono v v' b :
  extends v v' →
  (∀ a mr, mr_ (mem_allocator_ v) !! a = Some mr → mr_ (mem_allocator_ v') !! a = Some mr) →
  (∀ a n, registered a n v = true → registered a n v' = true) →
  buf_ok v b → buf_ok v' b.
Proof.
  intros E Ha Hr ((mr & H1 & H2) & H3 & H4 & H5). split_and!; try lia.
  - exists mr. auto.
  - intros mr' len Hin. destruct (H4 mr' len Hin). split; [by apply (ex_regions _ _ E)|done].
  - intros vals Hv. destruct (H5 vals Hv); [by left|right]. auto.
Qed.

(** More regions, blocks and other contents of the memory. *)
Lemma grow_host x env v h :
  node_ok x env v → keyed mr_keys (regions h) → (∀ r, r ∈ regions (host_ v) → r ∈ regions h) →
  (∀ blk, blk ∈ blocks (host_ v) → blk ∈ blocks h) →
  grows x env v (v <| host_ := h |>).
Proof.
  intros [] Hk Hr Hb. assert (extends v (v <| host_ := h |>)) as E by (constructor; [exact Hr|eauto]).
  split; [done|]. constructor; [exact Hk|..|exact ok_tuples0| |exact ok_incoming0| |exact ok_cache0|exact ok_registered0].
  - intros a mr Hm. destruct (ok_alloc0 a mr Hm) as (? & ? & ? & k & ? & ?). eauto 8.
  - intros a mr Hm. destruct (ok_mr0 a mr Hm). auto.
  - intros a b Hg. apply (buf_mono v); auto. exact (ok_bufs0 a b Hg).
  - intros c ep qp w Hep Hw. apply (work_mono x v _ env); [done|intros y; reflexivity|]. exact (ok_posted0 c ep qp w Hep Hw).
  - intros c ep key mr Hep Hm. apply Hr. exact (ok_backend0 c ep key mr Hep Hm).
Qed.

(** A new entry of [mem_mr_], not shorter than an old one. *)
Lemma grow_mem_mr x env v a mr :
  node_ok x env v → mr ∈ regions (host_ v) → mr_addr mr = a → 0 ≤ mr_length mr →
  (∀ n, registered a n v = true → n ≤ mr_length mr) →
  grows x env v (v <| mem_mr_ ::= <[a := mr]> |>).
Proof.
  intros [] Hin Ha Hl Hn. set (v' := v <| mem_mr_ ::= <[a := mr]> |>).
  assert (extends v v') as E by (constructor; eauto).
  assert (∀ a' n, registered a' n v = true → registered a' n v' = true) as Hreg.
  { intros a' n Hr. unfold registered, v'. simpl. destruct (decide (a = a')) as [<-|].
    - rewrite lookup_insert_eq. apply Z.leb_le. auto.
    - rewrite lookup_insert_ne by done. exact Hr. }
  split; [done|]. constructor; [done|done|..|exact ok_tuples0|exact ok_posted0|exact ok_incoming0|exact ok_backend0|exact ok_cache0|].
  - intros a' mr' Hm. change (<[a := mr]> (mem_mr_ v) !! a' = Some mr') in Hm.
    apply lookup_insert_Some in Hm as [(<- & <-)|(_ & Hm)]; [done|]. exact (ok_mr0 a' mr' Hm).
  - intros a' b Hg. apply (buf_mono v); auto. exact (ok_bufs0 a' b Hg).
  - intros key node buf Hb. apply Hreg. exact (ok_registered0 key node buf Hb).
Qed.

(** More buffers of the allocator. *)
Lemma grow_alloc x env v al :
  node_ok x env v →
  (∀ a mr, mr_ (mem_allocator_ v) !! a = Some mr → mr_ al !! a = Some mr) →
  (∀ a mr, mr_ al !! a = Some mr → mr_ (mem_allocator_ v) !! a = None →
    mr ∈ regions (host_ v) ∧ mr_addr mr = a ∧ 0 < mr_length mr ∧ ∃ k, 0 < k ∧ (a, k) ∈ blocks (host_ v)) →
  grows x env v (v <| RDMAVan.mem_allocator_ := al |>).
Proof.
  intros [] Ha Hn. set (v' := v <| RDMAVan.mem_allocator_ := al |>).
  assert (extends v v') as E by (constructor; eauto).
  split; [done|]. constructor; [done| |done| |exact ok_tuples0|exact ok_posted0|exact ok_incoming0|exact ok_backend0|exact ok_cache0|exact ok_registered0].
  - intros a mr Hm. destruct (mr_ (mem_allocator_ v) !! a) as [mr'|] eqn:Eo; [|by apply Hn].
    specialize (Ha a mr' Eo). change (mr_ al !! a = Some mr) in Hm. assert (mr' = mr) as -> by congruence. exact (ok_alloc0 a mr Eo).
  - intros a' b Hg. apply (buf_mono v); auto. exact (ok_bufs0 a' b Hg).
Qed.

(** A message in a buffer of its own waits for an answer. *)
Definition add_message (b : MessageBuffer) msg v : RDMAVan.t :=
  v <| msg_bufs ::= (λ l, l ++ [b]) |>
    <| msgbuf_cache_ ::= <[Z.of_nat (length (msg_bufs v)) + 1 := msg]> |>.

Lemma get_buf_Ok a v b : get_buf a v = Ok b ↔ 1 ≤ a ∧ msg_bufs v !! Z.to_nat (a - 1) = Some b.
Proof.
  unfold get_buf. destruct (1 <=? a) eqn:E; [|split; [discriminate|lia]].
  rewrite from_option_or_Ok. split; [intros ->; split; [lia|done]|by intros [_ ->]].
Qed.

Lemma get_buf_add a b msg v b' :
  get_buf a (add_message b msg v) = Ok b' ↔
    get_buf a v = Ok b' ∨ a = Z.of_nat (length (msg_bufs v)) + 1 ∧ b' = b.
Proof.
  rewrite !get_buf_Ok. unfold add_message. simpl. rewrite lookup_snoc_Some. split.
  - intros [Ha [[_ H]|[H ->]]]; [by left|]. right. split; [lia|done].
  - intros [[Ha H]|[-> ->]].
    + split; [done|]. left. split; [by eapply lookup_lt_Some|done].
    + split; [lia|]. right. split; [lia|done].
Qed.

Lemma set_buf_add b b' msg v :
  set_buf (Z.of_nat (length (msg_bufs v)) + 1) b' (add_message b msg v) = add_message b' msg v.
Proof.
  transitivity ((add_message b msg v) <| msg_bufs := <[(length (msg_bufs v) + 0)%nat := b']> (msg_bufs v ++ [b]) |>).
  - replace (length (msg_bufs v) + 0)%nat with (Z.to_nat (Z.of_nat (length (msg_bufs v)) + 1 - 1)) by lia. done.
  - by rewrite insert_app_r.
Qed.

Lemma grow_message x env v b msg :
  node_ok x env v → buf_ok v b → answer_ok env msg → grows x env v (add_message b msg v).
Proof.
  intros [] Hbuf Hans. set (v' := add_message b msg v). set (a0 := Z.of_nat (length (msg_bufs v)) + 1).
  assert (∀ b', get_buf a0 v ≠ Ok b') as Hnew.
  { intros b' [_ Hl]%get_buf_Ok. apply lookup_lt_Some in Hl. lia. }
  assert (∀ a msg', msgbuf_cache_ v' !! a = Some msg' → a = a0 ∧ msg' = msg ∨ msgbuf_cache_ v !! a = Some msg') as Hca.
  { intros a msg' Hm. change (<[a0 := msg]> (msgbuf_cache_ v) !! a = Some msg') in Hm.
    apply lookup_insert_Some in Hm as [[<- <-]|[_ Hm]]; auto. }
  assert (extends v v') as E.
  { constructor; [done|]. intros a b' Hg. split.
    - exists b'. split; [|done]. apply get_buf_add. by left.
    - intros msg' [[-> _]|Hm]%Hca; [by destruct (Hnew b')|done]. }
  split; [done|]. constructor; try done.
  - intros a b' [Hg|[_ ->]]%get_buf_add; [|exact Hbuf]. exact (ok_bufs0 a b' Hg).
  - intros p key y t Ht. destruct (ok_tuples0 p key y t Ht) as (b' & Hb & Hr). exists b'. split; [|done].
    apply get_buf_add. by left.
  - intros c ep qp w Hep Hw. apply (work_mono x v _ env); [done|intros y; reflexivity|]. exact (ok_posted0 c ep qp w Hep Hw).
  - intros a msg' [[-> ->]|Hm]%Hca.
    + split; [done|]. assert (get_buf a0 v' = Ok b) as -> by (apply get_buf_add; auto). done.
    + destruct (ok_cache0 a msg' Hm) as [? Hg]. split; [done|]. destruct (get_buf a v) as [b'|] eqn:Eg; [|done].
      assert (get_buf a v' = Ok b') as -> by (apply get_buf_add; auto). done.
Qed.

(** Other arrays in a buffer. *)
Lemma get_buf_set a a' v b b0 b' :
  get_buf a v = Ok b0 →
  get_buf a' (set_buf a b v) = Ok b' ↔ a' = a ∧ b' = b ∨ a' ≠ a ∧ get_buf a' v = Ok b'.
Proof.
  rewrite !get_buf_Ok. intros [Ha Hl]. unfold set_buf. simpl. destruct (decide (a' = a)) as [->|Hne].
  - rewrite list_lookup_insert_eq by (by eapply lookup_lt_Some). naive_solver.
  - split.
    + intros [Ha' H]. rewrite list_lookup_insert_ne in H by lia. auto.
    + intros [[? _]|(_ & Ha' & H)]; [done|]. split; [done|]. by rewrite list_lookup_insert_ne by lia.
Qed.

Lemma grow_data x env v a b data :
  node_ok x env v → get_buf a v = Ok b → (∀ vals, data !! 1%nat = Some vals → array_ok v vals) →
  grows x env v (set_buf a (b <| mb_data := data |>) v).
Proof.
  intros [] Hb Hd. set (v' := set_buf a _ v).
  assert (∀ a' b', get_buf a' v = Ok b' →
    ∃ b'', get_buf a' v' = Ok b'' ∧ inline_len b'' = inline_len b' ∧ mrs b'' = mrs b') as Hget.
  { intros a' b' Hg. destruct (decide (a' = a)) as [->|Hne].
    - exists (b <| mb_data := data |>). split; [by eapply get_buf_set; [done|left]|].
      assert (b' = b) as -> by congruence. done.
    - exists b'. split; [|done]. eapply get_buf_set; [done|]. by right. }
  assert (extends v v') as E by (constructor; eauto).
  split; [done|]. constructor; try done.
  - intros a' b' Hg. apply (get_buf_set a a' v _ b b' Hb) in Hg as [[-> ->]|[_ Hg]]; [|exact (ok_bufs0 a' b' Hg)].
    destruct (ok_bufs0 a b Hb) as (H1 & H2 & H3 & _). exact (conj H1 (conj H2 (conj H3 Hd))).
  - intros p key y t Ht. destruct (ok_tuples0 p key y t Ht) as (b' & Hb' & Hr).
    destruct (Hget _ _ Hb') as (b'' & H1 & H2 & H3). exists b''. split; [done|].
    apply (room_mono (env y) (env y) b'); [reflexivity|done..].
  - intros c ep qp w Hep Hw. apply (work_mono x v _ env); [done|intros y; reflexivity|]. exact (ok_posted0 c ep qp w Hep Hw).
  - intros a' msg Hm. destruct (ok_cache0 a' msg Hm) as [? Hg]. split; [done|].
    destruct (get_buf a' v) as [b'|] eqn:Eg; [|done]. by destruct (Hget _ _ Eg) as (b'' & -> & _).
Qed.

(** The answer has been handled. *)
Lemma grow_release x env v a :
  node_ok x env v → grows x env v (v <| msgbuf_cache_ ::= delete a |>).
Proof.
  intros []. set (v' := v <| msgbuf_cache_ ::= delete a |>).
  assert (∀ a' msg, msgbuf_cache_ v' !! a' = Some msg → msgbuf_cache_ v !! a' = Some msg) as Hc.
  { intros a' msg Hm. change (delete a (msgbuf_cache_ v) !! a' = Some msg) in Hm. by apply lookup_delete_Some in Hm as [_ ?]. }
  assert (extends v v') as E.
  { constructor; [done|]. intros a' b Hg. split; [exists b; done|apply Hc]. }
  split; [done|]. constructor; try done.
  - intros c ep qp w Hep Hw. apply (work_mono x v _ env); [done|intros y; reflexivity|]. exact (ok_posted0 c ep qp w Hep Hw).
  - intros a' msg Hm%Hc. exact (ok_cache0 a' msg Hm).
Qed.

(** The buffers of an answer are remembered. *)
Definition store_tuple (p : bool) (key y : Z) (t : RemoteTuple) v : RDMAVan.t :=
  if p then v <| push_addr_ ::= <[(key, y) := t]> |> else v <| pull_addr_ ::= <[(key, y) := t]> |>.

Lemma remote_store p p' key y t v k :
  remote_of p' (store_tuple p key y t v) !! k =
    if bool_decide (p' = p ∧ k = (key, y)) then Some t else remote_of p' v !! k.
Proof.
  case_bool_decide as Hd.
  - destruct Hd as [-> ->]. destruct p; simpl; apply lookup_insert_eq.
  - destruct p, p'; simpl; try done; rewrite lookup_insert_ne; naive_solver.
Qed.

Lemma grow_tuple x env v p key y t b :
  node_ok x env v → get_buf (rt_msg_buf t) v = Ok b →
  room (host_ (env y)) b (rt_meta_addr t) (rt_meta_rkey t) (rt_data_addr t) (rt_data_rkey t) →
  grows x env v (store_tuple p key y t v).
Proof.
  intros [] Hb Hr. assert (extends v (store_tuple p key y t v)) as E by (destruct p; constructor; eauto).
  split; [done|].
  assert (∀ p' key' y' t', remote_of p' (store_tuple p key y t v) !! (key', y') = Some t' →
    ∃ b, get_buf (rt_msg_buf t') v = Ok b ∧
      room (host_ (env y')) b (rt_meta_addr t') (rt_meta_rkey t') (rt_data_addr t') (rt_data_rkey t')) as Ht.
  { intros p' key' y' t'. rewrite remote_store. case_bool_decide as Hd; [|apply ok_tuples0].
    intros [= <-]. destruct Hd as [_ [= -> ->]]. eauto. }
  destruct p; (constructor; [exact ok_keys0|exact ok_alloc0|exact ok_mr0|exact ok_bufs0|exact Ht
    |exact ok_posted0|exact ok_incoming0|exact ok_backend0|exact ok_cache0|exact ok_registered0]).
Qed.

(** A connection with other work requests. *)
Lemma grow_endpoint x env v c ep ep' :
  node_ok x env v → get_endpoint c v = Ok ep →
  (∀ qp w, (qp, w) ∈ posted ep' → (qp, w) ∈ posted ep ∨ work_ok x v env c w) →
  is_server_ ep' = is_server_ ep →
  (∀ key mr, Endpoint.mem_allocator_ ep' !! key = Some mr → mr ∈ regions (host_ v)) →
  grows x env v (set_endpoint c ep' v).
Proof.
  intros Hok Hc Hp Hs Hm. assert (extends v (set_endpoint c ep' v)) as E by (destruct c; constructor; eauto).
  split; [done|].
  assert (∀ c0 ep0 qp w, get_endpoint c0 (set_endpoint c ep' v) = Ok ep0 → (qp, w) ∈ posted ep0 →
    work_ok x (set_endpoint c ep' v) env c0 w) as H1.
  { intros c0 ep0 qp w Hg Hw. apply (work_mono x v _ env); [done|intros y; reflexivity|].
    apply get_set_endpoint in Hg as [[-> ->]|[_ Hg]]; [|by eapply ok_posted].
    destruct (Hp qp w Hw); [|done]. by eapply ok_posted. }
  assert (∀ y ep0, get_endpoint (In y) (set_endpoint c ep' v) = Ok ep0 → is_server_ ep0 = server x) as H2.
  { intros y ep0 [[<- ->]|[_ Hg]]%get_set_endpoint; [rewrite Hs|]; by eapply ok_incoming. }
  assert (∀ c0 ep0 key mr, get_endpoint c0 (set_endpoint c ep' v) = Ok ep0 →
    Endpoint.mem_allocator_ ep0 !! key = Some mr → mr ∈ regions (host_ v)) as H3.
  { intros c0 ep0 key mr [[_ ->]|[_ Hg]]%get_set_endpoint; [apply Hm|]. by eapply ok_backend. }
  destruct Hok, c; (constructor; [exact ok_keys0|exact ok_alloc0|exact ok_mr0|exact ok_bufs0|exact ok_tuples0
    |exact H1|exact H2|exact H3|exact ok_cache0|exact ok_registered0]).
Qed.

(** What the invariant does not speak of. *)
Lemma grow_pool x env v p : node_ok x env v → grows x env v (v <| addr_pool_ := p |>).
Proof. intros []. split; [constructor; eauto|]. constructor; done. Qed.
Lemma grow_recv_buffers x env v q : node_ok x env v → grows x env v (v <| recv_buffers_ := q |>).
Proof. intros []. split; [constructor; eauto|]. constructor; done. Qed.

(** ** Registering and allocating *)
Lemma register_regions a n v :
  register mr_keys a n v =
    v <| host_ ::= (λ h, h <| regions ::= cons (region_at mr_keys a n (length (regions h))) |>) |>
      <| mem_mr_ ::= <[a := region_at mr_keys a n (length (regions (host_ v)))]> |>.
Proof. unfold register. by rewrite ibv_reg_mr_eq. Qed.

Lemma registered_register a n a' n' v :
  registered a n v = false → registered a' n' v = true ∨ a' = a ∧ n' = n →
  registered a' n' (register mr_keys a n v) = true.
Proof.
  rewrite register_regions. unfold registered. simpl. intros Hn H. destruct (decide (a' = a)) as [->|Hne].
  - rewrite lookup_insert_eq. simpl. destruct (mem_mr_ v !! a); destruct H as [?|[_ ->]]; try done; lia.
  - rewrite lookup_insert_ne by done. by destruct H as [|[? _]].
Qed.

Lemma grow_register x env v a n :
  node_ok x env v → 0 ≤ n → registered a n v = false → grows x env v (register mr_keys a n v).
Proof.
  intros Hok Hn Hr. rewrite register_regions. eapply grows_trans.
  - apply (grow_host x env v ((host_ v) <| regions ::= cons (region_at mr_keys a n (length (regions (host_ v)))) |>)); [done|..].
    + apply keyed_cons, Hok.
    + intros r. by right.
    + done.
  - apply grow_mem_mr; [|by left|done|done|].
    + apply grow_host; [done| |intros r; by right|done]. apply keyed_cons, Hok.
    + intros n' Hn'. change (registered a n' v = true) in Hn'. unfold registered in *. simpl.
      destruct (mem_mr_ v !! a); [lia|done].
Qed.

(** [v] grows and keeps what is registered. *)
Definition registers (x : Z) env v v' : Prop :=
  grows x env v v' ∧ ∀ a n, registered a n v = true → registered a n v' = true.

Lemma registers_refl x env v : node_ok x env v → registers x env v v.
Proof. intros H. split; [split; [reflexivity|done]|done]. Qed.
Lemma registers_trans x env v v' v'' : registers x env v v' → registers x env v' v'' → registers x env v v''.
Proof. intros [G R] [G' R']. split; [by eapply grows_trans|auto]. Qed.

Lemma registers_register x env v a n :
  node_ok x env v → 0 ≤ n → registered a n v = false → registers x env v (register mr_keys a n v).
Proof. intros Hok Hn Hr. split; [by apply grow_register|]. intros. apply registered_register; auto. Qed.

Lemma register_arrays_ok x env data n v :
  node_ok x env v → registers x env v (register_arrays mr_keys data n v).
Proof.
  revert n v. induction data as [|sa data IH]; intros n v Hok; simpl; [by apply registers_refl|].
  destruct (SArray.size sa =? 0); [by apply IH|].
  destruct (negb _ && _) eqn:E; [|by apply IH]. apply andb_true_iff in E as [E%negb_true_iff _].
  assert (registers x env v (register mr_keys (SArray.ptr_ sa) (SArray.size sa) v)) as H.
  { apply registers_register; [done|unfold SArray.size; lia|done]. }
  eapply registers_trans; [exact H|]. apply IH, H.
Qed.

(** The second array of a message with a key is registered. *)
Lemma register_arrays_second x env ks vs rest v :
  node_ok x env v → SArray.size ks ≠ 0 → array_ok (register_arrays mr_keys (ks :: vs :: rest) 0 v) vs.
Proof.
  intros Hok Hk. cbn [register_arrays]. rewrite (proj2 (Z.eqb_neq _ _) Hk), andb_false_r.
  destruct (SArray.size vs =? 0) eqn:E; [left; lia|right].
  destruct (registered (SArray.ptr_ vs) (SArray.size vs) v) eqn:Er; simpl.
  - by apply (register_arrays_ok x env).
  - apply (register_arrays_ok x env); [|apply registered_register; auto].
    apply grow_register; [done|unfold SArray.size; lia|done].
Qed.

Lemma RegisterMemory_ok x env v msg v' :
  node_ok x env v → RegisterMemory mr_keys msg v = Ok v' →
  (∀ ks, Message.data msg !! 0%nat = Some ks → SArray.size ks ≠ 0) →
  grows x env v v' ∧ ∀ vs, Message.data msg !! 1%nat = Some vs → array_ok v' vs.
Proof.
  intros Hok Hr Hk. unfold RegisterMemory in Hr. pose proof (register_arrays_ok x env (Message.data msg) 0 v Hok) as Ha.
  set (v1 := register_arrays mr_keys (Message.data msg) 0 v) in *.
  assert (∀ vs, Message.data msg !! 1%nat = Some vs → array_ok v1 vs) as Hv.
  { intros vs Hvs. unfold v1. destruct (Message.data msg) as [|ks [|vs' rest]]; [done..|].
    simpl in Hvs. simplify_eq. apply (register_arrays_second x env); auto. }
  assert (registers x env v1 v') as H1.
  { destruct (_ && _ && _); [|simplify_eq; apply registers_refl, Ha].
    destruct (0 <? _) eqn:El; [|discriminate]. simplify_eq.
    destruct (registered (Meta.addr _) _ v1) eqn:E; [apply registers_refl, Ha|].
    apply registers_register; [apply Ha|lia|done]. }
  split; [eapply grows_trans; [apply Ha|apply H1]|].
  intros vs Hvs. destruct (Hv vs Hvs); [by left|right]. by apply H1.
Qed.

Context (Hpage : 0 < pagesize < 2 ^ 31) (Hmalloc : malloc_fresh malloc).

(** A new buffer: a region of its own around the bytes asked for. *)
Lemma Alloc_spec size al h p al' h' :
  0 < size < 2 ^ 63 → Alloc pagesize malloc mr_keys size al h = Ok (p, al', h') →
  ∃ mr k, mr_ al' = <[p := mr]> (mr_ al) ∧ mr_addr mr = p ∧ size ≤ mr_length mr < 2 ^ 31 ∧ 0 < k ∧
    p = malloc (blocks h) k ∧ blocks h' = (p, k) :: blocks h ∧
    mr = region_at mr_keys p (mr_length mr) (length (regions h)) ∧ regions h' = mr :: regions h.
Proof.
  intros Hs. unfold Alloc. rewrite (proj2 (Z.eqb_neq size 0)) by lia. unfold aligned_malloc.
  pose proof (align_ceil_spec pagesize Hpage size ltac:(lia)) as [Ha _].
  set (n := align_ceil size pagesize) in *. clearbody n.
  pose proof (swrap_range 32 (ROUNDUP n pagesize) ltac:(lia)) as Hw.
  set (k := i32 (ROUNDUP n pagesize)) in *. clearbody k.
  destruct (0 <=? k); [|discriminate]. destruct (n <=? k) eqn:En; [|discriminate]. cbn [mbind result_bind].
  set (q := malloc (blocks h) k). destruct (negb (q =? 0)); [|discriminate].
  rewrite ibv_reg_mr_eq. intros [= <- <- <-]. simpl. unfold in_s in Hw. simpl in Hw.
  exists (region_at mr_keys q n (length (regions h))), k. split_and!; simpl; reflexivity || lia.
Qed.

Lemma Alloc_ok x env v size p al h :
  node_ok x env v → 0 < size < 2 ^ 63 →
  Alloc pagesize malloc mr_keys size (mem_allocator_ v) (host_ v) = Ok (p, al, h) →
  grows x env v (v <| RDMAVan.mem_allocator_ := al |> <| host_ := h |>) ∧
  ∃ mr, mr_ al !! p = Some mr ∧ mr_addr mr = p ∧ size ≤ mr_length mr < 2 ^ 31 ∧ mr ∈ regions h.
Proof.
  intros Hok Hs Ha. destruct (Alloc_spec _ _ _ _ _ _ Hs Ha) as (mr & k & Hmr & Hp & Hl & Hk & Hf & Hb & Er & Hr).
  split; [|exists mr; rewrite Hmr, lookup_insert_eq, Hr; split_and!; try done; try lia; by left].
  change (grows x env v (v <| host_ := h |> <| RDMAVan.mem_allocator_ := al |>)).
  assert (grows x env v (v <| host_ := h |>)) as Hg.
  { apply grow_host; [done|rewrite Hr, Er; apply keyed_cons, Hok|intros ?; rewrite Hr; by right|intros ?; rewrite Hb; by right]. }
  eapply grows_trans; [exact Hg|]. apply grow_alloc; [apply Hg|..]; simpl.
  - intros a mr' Hm. rewrite Hmr. destruct (decide (a = p)) as [->|Hne]; [|by rewrite lookup_insert_ne].
    destruct (ok_alloc _ _ _ Hok _ _ Hm) as (_ & _ & _ & k' & Hk' & Hin).
    destruct (Hmalloc (blocks (host_ v)) k ltac:(lia)) as [_ Hap]. specialize (Hap _ _ Hin).
    unfold apart in Hap. lia.
  - intros a mr' Hm Hn. rewrite Hmr in Hm. apply lookup_insert_Some in Hm as [[<- <-]|[_ Hm]]; [|congruence].
    split_and!; [|done|lia|].
    + change (mr ∈ regions h). rewrite Hr. by left.
    + exists k. split; [done|]. change ((p, k) ∈ blocks h). rewrite Hb. by left.
Qed.

(** ** Announcing a message *)
Lemma PrepareData_ok b msg v v' :
  mb_data b = Message.data msg → mrs b = [] →
  PrepareData msg (Z.of_nat (length (msg_bufs v)) + 1) (add_message b msg v) = Ok v' →
  ∃ l, v' = add_message (b <| mrs := l |>) msg v ∧
    ∀ mr len, (mr, len) ∈ l →
      Meta.push (Message.meta msg) = true ∧ Meta.request (Message.meta msg) = true ∧
      ∃ vals, Message.data msg !! 1%nat = Some vals ∧ mem_mr_ v !! SArray.ptr_ vals = Some mr ∧
        len = SArray.size vals ∧ len ≠ 0.
Proof.
  intros Hd Hm. unfold PrepareData. destruct (_ && _) eqn:Epr; simpl;
    [|intros [= <-]; exists []; split; [destruct b; simpl in *; by subst|set_solver]].
  apply andb_true_iff in Epr as [Ep Er].
  assert (get_buf (Z.of_nat (length (msg_bufs v)) + 1) (add_message b msg v) = Ok b) as ->
    by (apply get_buf_add; auto).
  cbn [mbind result_bind]. rewrite Hd. destruct (Message.data msg !! 1%nat) as [vals|] eqn:Ev; [|discriminate].
  cbn [from_option_or mbind result_bind]. destruct (SArray.size vals =? 0) eqn:Es.
  - intros [= <-]. exists []. split; [destruct b; simpl in *; by subst|set_solver].
  - change (mem_mr_ (add_message b msg v)) with (mem_mr_ v). destruct (mem_mr_ v !! SArray.ptr_ vals) as [mr|] eqn:Emr; [|discriminate].
    cbn [from_option_or mbind result_bind]. intros [= <-]. exists [(mr, SArray.size vals)]. split.
    + set (b' := b <| mrs := [(mr, SArray.size vals)] |>).
      assert (b <| mrs ::= (λ l, l ++ [(mr, SArray.size vals)]) |> = b') as -> by (destruct b; simpl in *; by subst).
      apply set_buf_add.
    + intros mr' len [= -> ->]%list_elem_of_singleton. split_and!; [done..|]. exists vals. split_and!; try done. lia.
Qed.

Lemma data_sizes_eq n data l : data_sizes n data = Ok l → l = map SArray.size (take n data) ∧ length l = n.
Proof.
  revert data l. induction n as [|n IH]; intros [|a data] l; simpl; try (by intros [= <-]).
  destruct (data_sizes n data) as [l'|] eqn:E; [|discriminate]. intros [= <-].
  destruct (IH _ _ E) as [El En]. simpl. split; [by rewrite El|by rewrite En].
Qed.

Lemma total_pos (l : list Z) i len :
  Forall (λ z, 0 ≤ z < 2 ^ 32) l → (length l ≤ 4)%nat → l !! i = Some len → 0 < len → 0 < total l.
Proof.
  assert (∀ s, Forall (λ z, 0 ≤ z < 2 ^ 32) l → 0 ≤ s → s + 2 ^ 32 * Z.of_nat (length l) < 2 ^ 64 →
    s ≤ foldl (λ s x, u64 (s + x)) s l ∧
    ∀ i len, l !! i = Some len → s + len ≤ foldl (λ s x, u64 (s + x)) s l) as H.
  { induction l as [|z l IH]; intros s Hl Hs Hb; simpl; [split; [lia|done]|]. apply Forall_cons in Hl as [Hz Hl].
    simpl length in Hb. rewrite (uwrap_small 64) by word_lia. destruct (IH (s + z)) as [H1 H2]; [done|lia|lia|].
    split; [lia|]. intros [|j] len' Hj; simpl in Hj; [simplify_eq; lia|]. specialize (H2 _ _ Hj). lia. }
  intros Hl Hlen Hi Hp. destruct (H 0) as [_ H']; [done|lia|lia|]. specialize (H' i len Hi). unfold total. lia.
Qed.

(** The memory changes, the regions and blocks stay. *)
Definition same_host (h h' : host) : Prop := regions h' = regions h ∧ blocks h' = blocks h.

Lemma grow_same_host x env v h : node_ok x env v → same_host (host_ v) h → grows x env v (v <| host_ := h |>).
Proof. intros Hok [Er Eb]. apply grow_host; rewrite ?Er, ?Eb; try done. apply Hok. Qed.

Lemma pack_into_same b m h h' : pack_into QP_NUM b m h = Ok h' → same_host h h'.
Proof. unfold pack_into. intros (y & _ & [= <-])%bind_Ok. done. Qed.

(** The work requests of [ep'] are those of [ep] and ones with [P]. *)
Definition posts (P : work → Prop) (ep ep' : Endpoint.t) : Prop :=
  is_server_ ep' = is_server_ ep ∧ Endpoint.mem_allocator_ ep' = Endpoint.mem_allocator_ ep ∧
  ∀ qp w, (qp, w) ∈ posted ep' → (qp, w) ∈ posted ep ∨ P w.

Lemma posts_trans P ep ep' ep'' : posts P ep ep' → posts P ep' ep'' → posts P ep ep''.
Proof.
  intros (H1 & H2 & H3) (H1' & H2' & H3'). split_and!; [congruence..|].
  intros qp w [Hw|Hw]%H3'; [by apply H3|by right].
Qed.

Lemma posts_one (P : work → Prop) qp w ep ep' : P w → ibv_post_send qp w ep = Ok ep' → posts P ep ep'.
Proof.
  intros Hw [_ ->]%ibv_post_send_Ok. split_and!; [done..|]. intros qp' w' [?|[= -> ->]%list_elem_of_singleton]%elem_of_app; auto.
Qed.

Lemma grow_posts x env v c ep ep' :
  node_ok x env v → get_endpoint c v = Ok ep → posts (work_ok x v env c) ep ep' →
  grows x env v (set_endpoint c ep' v).
Proof.
  intros Hok Hc (Hs & Hm & Hp). apply (grow_endpoint _ _ _ _ ep); try done.
  intros key mr. rewrite Hm. by eapply ok_backend.
Qed.

Lemma SendRendezvousBegin_ok P msg a b ep ep' :
  SendRendezvousBegin msg a b ep = Ok ep' →
  (∀ lens, data_sizes (length (mb_data b)) (Message.data msg) = Ok lens → (length (mb_data b) ≤ 4)%nat →
     P (PostStart (mkStart (inline_len b) (Z.of_nat (length (mb_data b))) lens a (Meta.key (Message.meta msg))))) →
  posts P ep ep'.
Proof.
  unfold SendRendezvousBegin. intros H HP. destruct (free_start_ctx ep) as [|n]; [discriminate|].
  case_bool_decide as Hn; [|discriminate]. apply bind_Ok in H as (lens & Hl & H).
  apply (posts_trans _ _ (ep <| free_start_ctx := n |>)); [split_and!; [done..|]; by left|].
  eapply posts_one; [|exact H]. by apply HP.
Qed.

(** What a message must have to be announced to node [y]. *)
Definition announced (y : Z) msg : Prop :=
  Meta.recver (Message.meta msg) = y ∧ 0 < GetPackMetaLen (Message.meta msg) ∧
  (IsValidPushpull msg = true → Meta.push (Message.meta msg) = true → Meta.request (Message.meta msg) = true →
     server y = true ∧ ∀ sa, sa ∈ Message.data msg → SArray.size sa < 2 ^ 32).

Lemma announce_start v b msg y l lens :
  announced y msg → mb_data b = Message.data msg → 0 ≤ inline_len b < 2 ^ 31 →
  data_sizes (length (mb_data b)) (Message.data msg) = Ok lens → (length (mb_data b) ≤ 4)%nat →
  (∀ mr len, (mr, len) ∈ l → IsValidPushpull msg = true ∧
      Meta.push (Message.meta msg) = true ∧ Meta.request (Message.meta msg) = true ∧
      ∃ vals, Message.data msg !! 1%nat = Some vals ∧ mem_mr_ v !! SArray.ptr_ vals = Some mr ∧
        len = SArray.size vals ∧ len ≠ 0) →
  start_ok (add_message (b <| mrs := l |>) msg v) y
    (mkStart (inline_len b) (Z.of_nat (length (mb_data b))) lens (Z.of_nat (length (msg_bufs v)) + 1)
       (Meta.key (Message.meta msg))).
Proof.
  intros (Hy & Hl & Hsrv) Hd Hil Hlens H4 Hmrs. apply data_sizes_eq in Hlens as [Hlens Hlen].
  rewrite Hd, firstn_all in Hlens. exists (b <| mrs := l |>). split; [split|split; [done|split; [done|]]].
  - apply get_buf_add. right. exact (conj eq_refl eq_refl).
  - intros msg' Hm. simpl in Hm. change (<[Z.of_nat (length (msg_bufs v)) + 1 := msg]> (msgbuf_cache_ v) !!
      (Z.of_nat (length (msg_bufs v)) + 1) = Some msg') in Hm. rewrite lookup_insert_eq in Hm. by simplify_eq.
  - intros mr len Hin. destruct (Hmrs mr len Hin) as (Hvp & Hp & Hr & vals & Hv & _ & -> & Hz).
    destruct (Hsrv Hvp Hp Hr) as [Hs Hsz]. assert (lens !! 1%nat = Some (SArray.size vals)) as Hl1.
    { rewrite Hlens, list_lookup_fmap, Hv. done. }
    split_and!; [done| |done]. eapply (total_pos lens 1%nat); [|lia|exact Hl1|unfold SArray.size in *; lia].
    rewrite Hlens. apply Forall_fmap, Forall_forall. intros sa Hsa. simpl. specialize (Hsz sa Hsa).
    unfold SArray.size in *. lia.
Qed.

Lemma GetPackMetaLen_below m : GetPackMetaLen m < 2 ^ 31.
Proof. unfold GetPackMetaLen. apply swrap_range. lia. Qed.

(** The buffer of a new message. *)
Lemma new_buf_ok x env v al msg n p mr l :
  node_ok x env v → mem_allocator_ v = al → mr_ al !! p = Some mr → 0 ≤ n ≤ mr_length mr → n < 2 ^ 31 →
  (∀ vals, Message.data msg !! 1%nat = Some vals → array_ok v vals) →
  (∀ mr len, (mr, len) ∈ l → ∃ vals, Message.data msg !! 1%nat = Some vals ∧
      mem_mr_ v !! SArray.ptr_ vals = Some mr ∧ len = SArray.size vals ∧ len ≠ 0) →
  buf_ok v (mkMessageBuffer n p (Message.data msg) l).
Proof.
  intros Hok <- Hmr Hn Hn' Hd Hl. split_and!; simpl; [exists mr; split; [done|lia]|lia|lia| |exact Hd].
  intros mr' len Hin. destruct (Hl mr' len Hin) as (vals & Hv & Hm & -> & Hz).
  destruct (ok_mr _ _ _ Hok _ _ Hm) as (Hr & _ & _). split; [done|].
  destruct (Hd vals Hv) as [|Hreg]; [done|]. unfold registered in Hreg. rewrite Hm in Hreg.
  unfold SArray.size in *. lia.
Qed.

Lemma begin_rendezvous_ok x env v y msg valid v' :
  node_ok x env v → begin_rendezvous pagesize malloc mr_keys QP_NUM (Out y) msg valid v = Ok v' →
  announced y msg → answer_ok env msg → (∀ vals, Message.data msg !! 1%nat = Some vals → array_ok v vals) →
  valid = IsValidPushpull msg →
  grows x env v v'.
Proof.
  intros Hok H Hann Hans Hdata Hvalid. pose proof Hann as (_ & Hlen & _). unfold begin_rendezvous, PrepareNewMsgBuf in H.
  pose proof (GetPackMetaLen_below (Message.meta msg)) as Hrange.
  rewrite (uwrap_small 64 (GetPackMetaLen _)) in H by word_lia.
  set (n := GetPackMetaLen (Message.meta msg)) in *. clearbody n.
  apply bind_Ok in H as ([a w] & H1 & H). apply bind_Ok in H1 as ([[p al] h] & Ha & H1).
  apply bind_Ok in H1 as (h' & Hpack & [= <- <-]).
  destruct (Alloc_ok x env v n p al h Hok ltac:(lia) Ha) as (Hg1 & mr & Hmr & Hmra & Hmrl & Hmrin).
  set (v1 := v <| RDMAVan.mem_allocator_ := al |> <| host_ := h' |>) in *.
  assert (grows x env v v1) as Hg.
  { eapply grows_trans; [exact Hg1|].
    change v1 with (v <| RDMAVan.mem_allocator_ := al |> <| host_ := h |> <| host_ := h' |>).
    apply grow_same_host; [apply Hg1|]. by eapply pack_into_same. }
  set (b := mkMessageBuffer n p (Message.data msg) []) in *.
  apply bind_Ok in H as (w & Hst & H). unfold StoreMsgBuf in Hst. destruct (bool_decide _); [|discriminate].
  assert (w = add_message b msg v1) as -> by (injection Hst as <-; reflexivity). clear Hst.
  apply bind_Ok in H as (w & Hw & H).
  assert (∃ l, w = add_message (b <| mrs := l |>) msg v1 ∧
    ∀ mr len, (mr, len) ∈ l → IsValidPushpull msg = true ∧
      Meta.push (Message.meta msg) = true ∧ Meta.request (Message.meta msg) = true ∧
      ∃ vals, Message.data msg !! 1%nat = Some vals ∧ mem_mr_ v1 !! SArray.ptr_ vals = Some mr ∧
        len = SArray.size vals ∧ len ≠ 0) as (l & -> & Hl).
  { rewrite <-Hvalid. destruct valid.
    { destruct (PrepareData_ok b msg v1 w eq_refl eq_refl Hw) as (l & El & Hl). exists l. split; [exact El|].
      intros mr' len Hin. exact (conj eq_refl (Hl mr' len Hin)). } injection Hw as <-. exists []. split; [reflexivity|].
    intros ? ? Hin. destruct (not_elem_of_nil _ Hin). }
  clear Hw. assert (grows x env v1 (add_message (b <| mrs := l |>) msg v1)) as Hg2.
  { apply grow_message; [apply Hg| |exact Hans]. assert (0 ≤ n ≤ mr_length mr) as Hn by lia.
    refine (new_buf_ok x env v1 al msg n p mr l (proj2 Hg) eq_refl Hmr Hn Hrange Hdata _).
    intros mr' len Hin. exact (proj2 (proj2 (proj2 (Hl mr' len Hin)))). }
  apply bind_Ok in H as (b' & Hb' & H). apply get_buf_add in Hb' as [Hb'|[_ ->]].
  { apply get_buf_Ok in Hb' as [_ Hb']. apply lookup_lt_Some in Hb'. change (msg_bufs v1) with (msg_bufs v) in Hb'. lia. }
  apply bind_Ok in H as (ep & Hep & H). apply bind_Ok in H as (ep' & Hep' & [= <-]).
  eapply grows_trans; [exact Hg|]. eapply grows_trans; [exact Hg2|].
  refine (grow_posts x env _ (Out y) ep ep' (proj2 Hg2) Hep _).
  eapply SendRendezvousBegin_ok; [exact Hep'|]. intros lens Hl1 Hl2.
  exact (announce_start v1 b msg y l lens Hann eq_refl (conj (Z.lt_le_incl _ _ Hlen) Hrange) Hl1 Hl2 Hl).
Qed.

(** ** Writing a message *)
Context (Hq : 0 < QP_NUM).

Lemma RDMAWriteWithImm_ok x env v y b h raddr rk idx inl prev ep ep' :
  node_ok x env v → buf_ok v b → reaches (host_ (env y)) raddr (inline_len b) rk →
  (∀ w, prev = Some w → work_ok x v env (Out y) w) →
  RDMAWriteWithImm (mem_allocator_ v) h b raddr rk idx inl prev ep = Ok ep' →
  posts (work_ok x v env (Out y)) ep ep'.
Proof.
  intros Hok ((mr & Hmr & Hlen) & Hb & _ & _) Hr Hprev H. unfold RDMAWriteWithImm, LocalKey, Addr2MR in H.
  rewrite Hmr in H. cbn [from_option_or mbind result_bind] in H. rewrite (uwrap_small 32) in H by word_lia.
  apply bind_Ok in H as (ep1 & H1 & H). apply (posts_trans _ _ ep1).
  { destruct prev as [w|]; [by eapply posts_one; [apply Hprev|]|]. injection H1 as <-. split_and!; [done..|]. by left. }
  eapply posts_one; [|exact H]. destruct (ok_alloc _ _ _ Hok _ _ Hmr) as (Hin & Ha & _). split_and!; [lia|done|].
  destruct inl; [rewrite length_read; lia|]. exists mr. split_and!; [done..|].
  unfold covers. apply andb_true_iff. lia.
Qed.

(** A part of a write is as good as the write. *)
Lemma write_part h h' local len lk raddr rk off n :
  write_ok h h' local len lk raddr rk None → 0 ≤ off → 0 ≤ n → off + n ≤ len →
  write_ok h h' (local + off) n lk (raddr + off) rk None.
Proof.
  intros (Hl & (r & Hr & Hrk & Hc) & (r' & Hr' & Hlk & Hc')) Ho Hn Hle. unfold covers in *.
  apply andb_true_iff in Hc, Hc'. split_and!; [done|exists r|exists r'];
    (split_and!; [done..|]); unfold covers; apply andb_true_iff; lia.
Qed.

Lemma write_counters_same b ep h h' : write_counters QP_NUM b ep h = Ok h' → same_host h h'.
Proof. unfold write_counters. intros (bs & _ & [= <-])%bind_Ok. done. Qed.

Lemma post_all_ok (P : work → Prop) l ep ep' :
  (∀ q, q ∈ l → P q.2) → post_all l ep = Ok ep' → posts P ep ep'.
Proof.
  revert ep. induction l as [|[qp w] l IH]; intros ep Hl; cbn [post_all].
  - intros [= <-]. split_and!; [done..|]. by left.
  - intros (ep1 & H1 & H)%bind_Ok. eapply posts_trans; [eapply posts_one; [|exact H1]; apply (Hl (qp, w)); left|].
    apply IH; [|done]. intros q ?. apply Hl. by right.
Qed.

Lemma slave_writes_ok x env v y local len lk raddr rk idx rest ep ep' :
  write_ok (host_ v) (host_ (env y)) local len lk raddr rk None →
  (∀ r, r ∈ rest → 0 ≤ r.1.2 ∧ 0 ≤ r.2 ∧ r.1.2 + r.2 ≤ len) →
  post_all (map (slave_write local lk raddr rk idx) rest) ep = Ok ep' →
  posts (work_ok x v env (Out y)) ep ep'.
Proof.
  intros Hw Hin. apply post_all_ok. intros q Hw'.
  apply list_elem_of_fmap in Hw' as ([[qp off] n] & -> & Hr). destruct (Hin _ Hr) as (? & ? & ?).
  by apply (write_part _ _ _ len).
Qed.

Lemma send_value_ok x env v y b t local len lk raddr rk chained ep h ep' :
  node_ok x env v → buf_ok v b → 0 ≤ len →
  reaches (host_ (env y)) (rt_meta_addr t) (inline_len b) (rt_meta_rkey t) →
  write_ok (host_ v) (host_ (env y)) local len lk raddr rk None →
  send_value QP_NUM (mem_allocator_ v) (host_ v) b t local len lk raddr rk chained ep = Ok (h, ep') →
  same_host (host_ v) h ∧ posts (work_ok x v env (Out y)) ep ep'.
Proof.
  intros Hok Hb Hlen Hm Hw.
  assert (write_ok (host_ v) (host_ (env y)) local (u32 len) lk raddr rk None) as Hw32.
  { rewrite <-(Z.add_0_r local), <-(Z.add_0_r raddr). pose proof (u32_le len Hlen). apply (write_part _ _ _ len); [done|lia..]. }
  unfold send_value.
  assert (∀ h prev ep1 ep2, (∀ w, prev = Some w → work_ok x v env (Out y) w) →
    RDMAWriteWithImm (mem_allocator_ v) h b (rt_meta_addr t) (rt_meta_rkey t) (rt_idx t) true prev ep1 = Ok ep2 →
    posts (work_ok x v env (Out y)) ep1 ep2) as Hmeta
    by (intros h1 prev ep1 ep2 Hp; exact (RDMAWriteWithImm_ok x env v y b h1 _ _ _ _ prev ep1 ep2 Hok Hb Hm Hp)).
  destruct (multi_qp_ ep).
  - assert (∀ r, r ∈ qp_ranges QP_NUM len → 0 ≤ r.1.2 ∧ 0 ≤ r.2 ∧ r.1.2 + r.2 ≤ len) as Hin
      by (intros [[qp off] n]; by apply qp_ranges_inside).
    intros (h1 & Hc%write_counters_same & H)%bind_Ok. revert Hin H. generalize (qp_ranges QP_NUM len).
    intros [|[[q off] n] rest] Hin H; [injection H as <- <-; split; [done|]; split_and!; [done..|]; by left|].
    apply bind_Ok in H as (ep0 & H0 & H). apply bind_Ok in H as (ep1 & H1 & H). apply bind_Ok in H as (ep2 & H2 & [= <- <-]).
    split; [done|]. apply (posts_trans _ _ ep1).
    + eapply posts_trans; [|eapply Hmeta; [|exact H1]; discriminate].
      apply (posts_trans _ _ (count_packets QP_NUM ep)); [split_and!; [done..|]; by left|]. eapply posts_one; [|exact H0].
      destruct (Hin (q, off, n)) as (? & ? & ?); [left|]. by apply (write_part _ _ _ len).
    + eapply slave_writes_ok with (len := len); [done| |exact H2]. intros r Hr. apply Hin. by right.
  - intros (ep1 & H1 & [= <- <-])%bind_Ok. split; [done|]. destruct chained.
    + eapply Hmeta; [|exact H1]. by intros w [= <-].
    + apply bind_Ok in H1 as (ep0 & H0 & H1). eapply posts_trans; [|eapply Hmeta; [|exact H1]; discriminate].
      eapply posts_one; [|exact H0]. exact Hw32.
Qed.

(** The values of a push fit into the buffer of the rendezvous. *)
Lemma push_write_ok h' v b mr len lkd size daddr drk :
  buf_ok v b → (mr, len) ∈ mrs b → 0 ≤ size ≤ len → reaches h' daddr len drk → lkd = lkey mr →
  write_ok (host_ v) h' (mr_addr mr) size lkd daddr drk None.
Proof.
  intros (_ & _ & Hm & _) Hin Hs (r & Hr & Hk & Hc) ->. destruct (Hm mr len Hin) as [Hmr Hl]. unfold covers in Hc.
  apply andb_true_iff in Hc. split_and!; [lia|exists r|exists mr]; (split_and!; [done..|]); unfold covers;
    apply andb_true_iff; lia.
Qed.

Lemma SendPushRequest_ok x env v y msg t b ep h ep' :
  node_ok x env v → buf_ok v b →
  room (host_ (env y)) b (rt_meta_addr t) (rt_meta_rkey t) (rt_data_addr t) (rt_data_rkey t) →
  SendPushRequest QP_NUM msg (mem_allocator_ v) (host_ v) b t ep = Ok (h, ep') →
  same_host (host_ v) h ∧ posts (work_ok x v env (Out y)) ep ep'.
Proof.
  intros Hok Hb [Hm Hd]. unfold SendPushRequest. destruct (_ =? 1)%nat; [|discriminate].
  destruct (2 <=? _)%nat; [|discriminate]. intros (vals & _ & H)%bind_Ok.
  apply bind_Ok in H as ([mr len] & Hmr%from_option_or_Ok & H). simpl in H.
  destruct (_ <=? _) eqn:El; [|discriminate]. apply Z.leb_le in El. apply list_elem_of_lookup_2 in Hmr.
  assert (0 ≤ SArray.size vals) as H0 by (unfold SArray.size; lia).
  eapply send_value_ok; [exact Hok|exact Hb| |exact Hm| |exact H]; [lia|].
  eapply push_write_ok; [exact Hb|exact Hmr|lia|by eapply Hd|done].
Qed.

(** The values of an answer go where the request wanted them. *)
Lemma SendPullResponse_ok x env v y msg t b mr vals ep h ep' :
  node_ok x env v → buf_ok v b → reaches (host_ (env y)) (rt_meta_addr t) (inline_len b) (rt_meta_rkey t) →
  Meta.recver (Message.meta msg) = y → IsValidPushpull msg = true →
  Meta.push (Message.meta msg) = false → Meta.request (Message.meta msg) = false → answer_ok env msg →
  mb_data b !! 1%nat = Some vals → mem_mr_ v !! SArray.ptr_ vals = Some mr →
  SendPullResponse QP_NUM msg (mem_allocator_ v) (host_ v) b t (lkey mr) ep = Ok (h, ep') →
  same_host (host_ v) h ∧ posts (work_ok x v env (Out y)) ep ep'.
Proof.
  intros Hok Hb Hm <- Hvalid Hp Hr Hans Hvals Hmr. unfold SendPullResponse. destruct (_ =? 0)%nat; [|discriminate].
  rewrite Hvals. cbn [from_option_or mbind result_bind]. destruct (_ =? _) eqn:El; [|discriminate]. apply Z.eqb_eq in El.
  destruct (Hans Hvalid Hp Hr) as [Hlen Hreach]. rewrite (uwrap_small 64) in El by word_lia.
  intros H.
  destruct (ok_mr _ _ _ Hok _ _ Hmr) as (Hin & Ha & Hl0).
  eapply send_value_ok; [exact Hok|exact Hb| |exact Hm| |exact H]; [lia|]. split_and!; [lia|done|].
  exists mr. split_and!; [done..|]. destruct Hb as (_ & _ & _ & Hv). unfold covers. apply andb_true_iff.
  destruct (Hv vals Hvals) as [|Hreg]; [lia|]. unfold registered in Hreg. rewrite Hmr in Hreg. lia.
Qed.

(** The message at [a] is written to the buffers of [t] at node [y]. *)
Lemma send_kind_ok x env v y msg t a b v' :
  node_ok x env v → get_buf a v = Ok b →
  room (host_ (env y)) b (rt_meta_addr t) (rt_meta_rkey t) (rt_data_addr t) (rt_data_rkey t) →
  Meta.recver (Message.meta msg) = y → IsValidPushpull msg = true → answer_ok env msg →
  send_kind QP_NUM (Out y) msg t b v = Ok v' → grows x env v v'.
Proof.
  intros Hok Hg [Hm Hd] Hy Hvalid Hans H. pose proof (ok_bufs _ _ _ Hok _ _ Hg) as Hb.
  unfold send_kind in H. apply bind_Ok in H as (ep & Hep & H).
  assert (∀ h ep', same_host (host_ v) h ∧ posts (work_ok x v env (Out y)) ep ep' →
    grows x env v (set_endpoint (Out y) ep' (v <| host_ := h |>))) as Hfin.
  { intros h ep' [Hh Hp]. pose proof (grow_same_host x env v h Hok Hh) as Hg1.
    eapply grows_trans; [exact Hg1|]. refine (grow_posts x env _ (Out y) ep ep' (proj2 Hg1) Hep _).
    destruct Hp as (H1 & H2 & H3). split_and!; [done..|]. intros qp w Hw. destruct (H3 qp w Hw) as [|Hwk]; [by left|right].
    apply (work_mono x v _ env); [apply Hg1|intros z; reflexivity|exact Hwk]. }
  assert (∀ ep', Send (mem_allocator_ v) (host_ v) b t ep = Ok ep' → grows x env v (set_endpoint (Out y) ep' v)) as Hsend.
  { intros ep' Hs. unfold Send in Hs. refine (grow_posts x env v (Out y) ep ep' Hok Hep _).
    eapply RDMAWriteWithImm_ok; [exact Hok|exact Hb|exact Hm| |exact Hs]. discriminate. }
  destruct (Meta.push (Message.meta msg)) eqn:Ep, (Meta.request (Message.meta msg)) eqn:Er.
  - apply bind_Ok in H as ([h ep'] & Hs & [= <-]). apply Hfin.
    exact (SendPushRequest_ok x env v y msg t b ep h ep' Hok Hb (conj Hm Hd) Hs).
  - apply bind_Ok in H as (ep' & Hs & [= <-]). unfold SendPushResponse in Hs.
    destruct (_ =? 0)%nat; [|discriminate]. exact (Hsend ep' Hs).
  - apply bind_Ok in H as (ep' & Hs & [= <-]). unfold SendPullRequest in Hs.
    destruct (_ =? 0)%nat; [|discriminate]. exact (Hsend ep' Hs).
  - apply bind_Ok in H as (vals & Hv%from_option_or_Ok & H). apply bind_Ok in H as (mr & Hmr%from_option_or_Ok & H).
    apply bind_Ok in H as ([h ep'] & Hs & [= <-]). apply Hfin.
    exact (SendPullResponse_ok x env v y msg t b mr vals ep h ep' Hok Hb Hm Hy Hvalid Ep Er Hans Hv Hmr Hs).
Qed.

(** ** Completions *)
Lemma on_reply_ok x env v y resp v' :
  node_ok x env v → reply_ok v (host_ (env y)) y resp → on_reply QP_NUM (Out y) resp v = Ok v' → grows x env v v'.
Proof.
  intros Hok (b & [Hb Hw] & Hroom) H. unfold on_reply in H. apply bind_Ok in H as (v1 & Hst & H).
  unfold StoreRemoteAndLocalInfo in Hst. apply bind_Ok in Hst as (msg & Hmsg%from_option_or_Ok & Hst).
  specialize (Hw msg Hmsg). set (t := mkRemoteTuple _ _ _ _ _ _) in Hst.
  assert (v1 = store_tuple (Meta.push (Message.meta msg)) (Meta.key (Message.meta msg)) y t v) as E.
  { injection Hst as <-. rewrite Hw. by destruct (Meta.push _). }
  assert (grows x env v v1) as Hg by (rewrite E; by apply (grow_tuple x env v _ _ y t b)).
  assert (msgbuf_cache_ v1 = msgbuf_cache_ v) as Ec by (rewrite E; by destruct (Meta.push _)).
  assert (get_buf (rp_origin_addr resp) v1 = Ok b) as Hb1 by (rewrite E; by destruct (Meta.push _)).
  assert (remote_of (Meta.push (Message.meta msg)) v1 !! (Meta.key (Message.meta msg), y) = Some t) as Hrem.
  { rewrite E, remote_store. by rewrite bool_decide_eq_true_2. }
  assert (answer_ok env msg) as Hans by (by apply (ok_cache _ _ _ Hok _ _ Hmsg)). clear E Hst.
  unfold GetFirstMsg at 1 in H. rewrite Ec, Hmsg in H. cbn [from_option_or mbind result_bind] in H.
  unfold GetRemoteAndLocalInfo in H. rewrite Hw, Hrem, Hb1 in H. cbn [from_option_or mbind result_bind] in H.
  apply bind_Ok in H as (v2 & H2 & H). apply bind_Ok in H as (_ & _ & [= <-]).
  assert (grows x env v1 v2) as Hg2.
  { destruct (IsValidPushpull msg) eqn:Ev; simpl in H2.
    - exact (send_kind_ok x env v1 y msg t _ b v2 (proj2 Hg) Hb1 Hroom Hw Ev Hans H2).
    - apply bind_Ok in H2 as (ep & Hep & H2). apply bind_Ok in H2 as (ep' & Hs & [= <-]).
      refine (grow_posts x env v1 (Out y) ep ep' (proj2 Hg) Hep _).
      eapply RDMAWriteWithImm_ok; [apply Hg|eapply ok_bufs; [apply Hg|exact Hb1]|apply Hroom| |exact Hs]. discriminate. }
  eapply grows_trans; [exact Hg|]. eapply grows_trans; [exact Hg2|]. apply grow_release, Hg2.
Qed.

Lemma GetRemoteKey_insert key mr (bk : gmap Z ibv_mr) : GetRemoteKey key (<[key := mr]> bk) = rkey mr.
Proof. unfold GetRemoteKey, backend. by rewrite lookup_insert_eq. Qed.

(** The buffer for values at the receiver. *)
Lemma found_Some q x : found q = Some x → q = Some x.
Proof. destruct q as [[[b s] k]|]; simpl; [|done]. by destruct (b =? 0). Qed.

Lemma data_buffer_ok x env w c req ep addr rk ep' h :
  node_ok x env w → get_endpoint c w = Ok ep →
  data_buffer malloc mr_keys (QueryRecvBuffer w) req ep (host_ w) = Ok (addr, rk, ep', h) →
  grows x env w (w <| host_ := h |>) ∧ posted ep' = posted ep ∧ is_server_ ep' = is_server_ ep ∧
  free_reply_ctx ep' = free_reply_ctx ep ∧
  (∀ key mr, Endpoint.mem_allocator_ ep' !! key = Some mr → mr ∈ regions h) ∧
  (0 < total (st_data_len req) → ∀ len, st_data_len req !! 1%nat = Some len → reaches h addr len rk).
Proof.
  intros Hok Hep. unfold data_buffer.
  assert (∀ h', h' = host_ w → grows x env w (w <| host_ := h' |>)) as Hsame
    by (intros h' ->; apply grow_same_host; done).
  assert (∀ key mr, Endpoint.mem_allocator_ ep !! key = Some mr → mr ∈ regions (host_ w)) as Hback
    by (intros; by eapply ok_backend).
  destruct (0 <? total _) eqn:Et; [|intros [= <- <- <- <-]; split_and!; auto; lia].
  intros (len & Hlen%from_option_or_Ok & H)%bind_Ok. rewrite Hlen.
  apply bind_Ok in H as (q & Hquery & H). destruct (found q) as [[[buffer size] rk1]|] eqn:Eq.
  - apply found_Some in Eq as ->. unfold QueryRecvBuffer in Hquery.
    destruct (List.find _ _) as [[node buf]|] eqn:Ef; [|discriminate Hquery].
    apply bind_Ok in Hquery as (mr & Hmr%from_option_or_Ok & [= <- <- <-]).
    destruct (len <=? _) eqn:El; [|discriminate]. destruct (negb _); [|discriminate]. injection H as <- <- <- <-.
    apply List.find_some in Ef as [Hin%list_elem_of_In _]. pose proof (ok_registered _ _ _ Hok _ _ _ Hin) as Hreg.
    unfold registered in Hreg. rewrite Hmr in Hreg. destruct (ok_mr _ _ _ Hok _ _ Hmr) as (Hr & Ha & _).
    split_and!; auto. intros _ ? [= <-]. exists mr. split_and!; [done..|]. unfold covers. apply andb_true_iff. lia.
  - apply bind_Ok in H as ([[buffer bk] h1] & Hal & H). destruct (negb _); [|discriminate].
    injection H as <- <- <- <-. unfold backend_alloc in Hal.
    destruct (Endpoint.mem_allocator_ ep !! st_key req) as [mr|] eqn:Em.
    + destruct (len <=? mr_length mr) eqn:El; [|discriminate]. injection Hal as <- <- <-.
      split_and!; auto. intros _ ? [= <-]. exists mr. split_and!; [by eapply Hback|unfold GetRemoteKey; by rewrite Em|].
      unfold covers. apply andb_true_iff. lia.
    + rewrite ibv_reg_mr_eq in Hal. injection Hal as <- <- <-. split_and!; auto.
      * apply grow_host; [done|apply keyed_cons, Hok|by right|by right].
      * intros key mr Hm. simpl in Hm. unfold const, backend in Hm.
        apply lookup_insert_Some in Hm as [[_ <-]|[_ Hm]]; [by left|right]. by eapply Hback.
      * intros _ ? [= <-]. eexists. split_and!; [left|by rewrite GetRemoteKey_insert|]. unfold covers. simpl. apply andb_true_iff. lia.
Qed.

Lemma reply_with_ok req ctx ma mk da dk pool ep pool' ep' :
  reply_with req ctx ma mk da dk pool ep = Ok (pool', ep') →
  ∃ idx, posts (eq (PostReply (mkReply ma mk da dk (st_origin_addr req) idx))) ep ep'.
Proof.
  unfold reply_with. destruct (free_reply_ctx ep) as [|n]; [discriminate|].
  intros ([idx p] & _ & H)%bind_Ok. apply bind_Ok in H as (ep1 & H & [= <- <-]). exists idx.
  apply (posts_trans _ _ (ep <| free_reply_ctx := n |>)); [split_and!; [done..|]; by left|].
  eapply posts_one; [|exact H]. done.
Qed.

(** The answer is posted when its buffers are there. *)
Lemma reply_posted (x : Z) env y req b mr h da dk ep1 ep ctx pool pool' ep' :
  waits (env y) (st_origin_addr req) x b → inline_len b ≤ mr_length mr → mr ∈ regions h →
  (∀ mr len, (mr, len) ∈ mrs b → reaches h da len dk) →
  posted ep1 = posted ep → is_server_ ep1 = is_server_ ep →
  (∀ key mr, Endpoint.mem_allocator_ ep1 !! key = Some mr → mr ∈ regions h) →
  reply_with req ctx (mr_addr mr) (rkey mr) da dk pool ep1 = Ok (pool', ep') →
  is_server_ ep' = is_server_ ep ∧
  (∀ key mr, Endpoint.mem_allocator_ ep' !! key = Some mr → mr ∈ regions h) ∧
  ∀ qp w, (qp, w) ∈ posted ep' → (qp, w) ∈ posted ep ∨ ∃ resp, w = PostReply resp ∧ reply_ok (env y) h x resp.
Proof.
  intros Hw Hl Hin Hd Ep Es Hb Hr. destruct (reply_with_ok _ _ _ _ _ _ _ _ _ _ Hr) as (idx & H1 & H2 & H3).
  split_and!; [congruence|by rewrite H2|]. intros qp w [H|H]%H3; [left; congruence|right].
  subst w. eexists. split; [done|]. exists b. split; [done|]. split; [|exact Hd].
  exists mr. split_and!; [done..|]. unfold covers. simpl. apply andb_true_iff. lia.
Qed.

(** The buffers of an answer are large enough. *)
Lemma SendRendezvousReply_ok x env v y req ep pool al h ep' :
  node_ok x env v → get_endpoint (In y) v = Ok ep → start_ok (env y) x req →
  SendRendezvousReply pagesize malloc mr_keys (QueryRecvBuffer v) req (addr_pool_ v) (mem_allocator_ v) (host_ v) ep
    = Ok (pool, al, h, ep') →
  grows x env v (v <| RDMAVan.mem_allocator_ := al |> <| host_ := h |>) ∧ is_server_ ep' = is_server_ ep ∧
  (∀ key mr, Endpoint.mem_allocator_ ep' !! key = Some mr → mr ∈ regions h) ∧
  ∀ qp w, (qp, w) ∈ posted ep' → (qp, w) ∈ posted ep ∨ ∃ resp, w = PostReply resp ∧ reply_ok (env y) h x resp.
Proof.
  intros Hok Hep (b & Hwait & Hml & Hmr & Hmrs). unfold SendRendezvousReply.
  destruct (bool_decide _); [|discriminate]. intros ([[buffer al'] h1] & Ha & H)%bind_Ok.
  destruct (negb (buffer =? 0)) eqn:Ebuf; [|discriminate].
  destruct (decide (st_meta_len req = 0)) as [Ez|Hnz].
  { unfold Alloc in Ha. rewrite Ez in Ha. simpl in Ha. by simplify_eq. }
  destruct (Alloc_ok x env v (st_meta_len req) buffer al' h1 Hok ltac:(lia) Ha) as (Hg & mr & Hm & Haddr & Hlen & Hin).
  assert (RemoteKey buffer al' = Ok (rkey mr)) as Hrk by (unfold RemoteKey, Addr2MR; by rewrite Hm).
  set (w := v <| RDMAVan.mem_allocator_ := al' |> <| host_ := h1 |>) in *.
  destruct (is_server_ ep) eqn:Es.
  - apply bind_Ok in H as ([[[da dk] ep1] h2] & Hd & H).
    destruct (data_buffer_ok x env w (In y) req ep da dk ep1 h2 (proj2 Hg) Hep Hd) as (Hg2 & Hp & Hs & _ & Hb & Hreach).
    rewrite Hrk in H. cbn [mbind result_bind] in H. apply bind_Ok in H as ([pool2 ep2] & Hr & [= <- <- <- <-]).
    split; [exact (grows_trans _ _ _ _ _ Hg Hg2)|]. rewrite <-Es. rewrite <-Haddr in Hr.
    refine (reply_posted x env y req b mr h2 da dk ep1 ep _ _ _ _ Hwait _ _ _ Hp Hs Hb Hr); [lia| |].
    + exact (ex_regions _ _ (proj1 Hg2) mr Hin).
    + intros mr' len Hmem. destruct (Hmrs mr' len Hmem) as (Hl1 & Ht & _). exact (Hreach Ht len Hl1).
  - rewrite Hrk in H. cbn [mbind result_bind] in H. apply bind_Ok in H as ([pool2 ep2] & Hr & [= <- <- <- <-]). split; [exact Hg|].
    rewrite <-Es. rewrite <-Haddr in Hr.
    refine (reply_posted x env y req b mr h1 0 0 ep ep _ _ _ _ Hwait _ Hin _ eq_refl eq_refl _ Hr); [lia| |].
    + intros mr' len Hmem. destruct (Hmrs mr' len Hmem) as (_ & _ & Hsrv).
      pose proof (ok_incoming _ _ _ Hok y ep Hep). congruence.
    + intros key mr' Hk. apply (ex_regions _ _ (proj1 Hg)). exact (ok_backend _ _ _ Hok _ _ _ _ Hep Hk).
Qed.

Lemma on_start_ok x env v y req v' :
  node_ok x env v → start_ok (env y) x req → on_start pagesize malloc mr_keys (In y) req v = Ok v' → grows x env v v'.
Proof.
  intros Hok Hst H. unfold on_start in H. apply bind_Ok in H as (ep & Hep & H).
  apply bind_Ok in H as ([[[pool al] h] ep'] & Hs & [= <-]).
  destruct (SendRendezvousReply_ok _ _ _ _ _ _ _ _ _ _ Hok Hep Hst Hs) as (Hg & Hsrv & Hb & Hp).
  set (w := v <| addr_pool_ := pool |> <| RDMAVan.mem_allocator_ := al |> <| host_ := h |>).
  assert (grows x env v w) as Hgw.
  { eapply grows_trans; [exact Hg|]. exact (grow_pool x env _ pool (proj2 Hg)). }
  eapply grows_trans; [exact Hgw|]. refine (grow_endpoint x env w (In y) ep ep' (proj2 Hgw) Hep _ Hsrv Hb).
  intros qp wk Hw. destruct (Hp qp wk Hw) as [|(resp & -> & Hr)]; [by left|right]. exact Hr.
Qed.

Lemma PollCQ_ok x env v wc v' :
  node_ok x env v → env x = v → completion_ok x env wc → PollCQ pagesize malloc mr_keys QP_NUM wc v = Ok v' →
  grows x env v v'.
Proof.
  intros Hok Hx Hc H. assert (grows x env v v) as Hrefl by (split; [reflexivity|done]).
  assert (∀ c ep ep', get_endpoint c v = Ok ep → posts (work_ok x v env c) ep ep' → grows x env v (set_endpoint c ep' v))
    as Hset by (intros; by eapply grow_posts).
  destruct wc as [c reply| |[y|y] req|[y|y] resp|c imm]; simpl in H, Hc; try done.
  - apply bind_Ok in H as (ep & Hep & [= <-]). apply (Hset c ep); [done|].
    destruct reply; (split_and!; [done..|]); by left.
  - by simplify_eq.
  - by eapply on_start_ok.
  - rewrite Hx in Hc. by eapply on_reply_ok.
  - unfold on_imm in H. destruct (is_slave imm).
    + apply bind_Ok in H as (ep & Hep & [= <-]). apply (Hset c ep); [done|]. split_and!; [done..|]. by left.
    + apply bind_Ok in H as (ctx & _ & [= <-]). by apply (grow_recv_buffers x env v).
Qed.

(** ** The operations of the applications *)
Lemma AddMeta_same msg v msg' :
  AddMeta msg v = Ok msg' →
  Message.data msg' = Message.data msg ∧ IsValidPushpull msg' = IsValidPushpull msg ∧
  Meta.push (Message.meta msg') = Meta.push (Message.meta msg) ∧
  Meta.request (Message.meta msg') = Meta.request (Message.meta msg) ∧
  Meta.recver (Message.meta msg') = Meta.recver (Message.meta msg) ∧
  GetPackMetaLen (Message.meta msg') = GetPackMetaLen (Message.meta msg) ∧
  (Meta.request (Message.meta msg) = false → msg' = msg).
Proof.
  unfold AddMeta. destruct (Meta.request (Message.meta msg)) eqn:Er.
  - intros (m1 & H1 & H)%bind_Ok. apply bind_Ok in H1 as (ks & _ & [= <-]). apply bind_Ok in H as (m2 & H2 & [= <-]).
    destruct (_ && _); [apply bind_Ok in H2 as (mr & _ & [= <-])|injection H2 as <-]; split_and!; done.
  - cbn [mbind result_bind]. rewrite Er, andb_false_r. cbn [mbind result_bind]. intros [= <-]. by destruct msg.
Qed.

Lemma replace_data_ok v b data data' :
  buf_ok v b → (∀ vals, data !! 1%nat = Some vals → array_ok v vals) → replace_data data (mb_data b) = Ok data' →
  ∀ vals, data' !! 1%nat = Some vals → array_ok v vals.
Proof.
  intros (_ & _ & _ & Hb) Hd. unfold replace_data. destruct (_ <=? _)%nat; [|discriminate]. intros [= <-] vals Hv.
  apply lookup_app_Some in Hv as [Hv|[Hl Hv]]; [by apply Hd|]. rewrite lookup_drop in Hv. apply Hb.
  by replace (length data + (1 - length data))%nat with 1%nat in Hv by lia.
Qed.

(** The memory that pull requests name is registered where they come from. *)
Definition range_ok (h : host) (r : Z * Z * Z) : Prop := 0 ≤ r.1.2 < 2 ^ 31 ∧ reaches h r.1.1 r.1.2 r.2.
Definition pulls_ok (s : system) : Prop := ∀ y, Forall (range_ok (host_ (vans s y))) (pulls s y).

Lemma range_mono v v' r : extends v v' → range_ok (host_ v) r → range_ok (host_ v') r.
Proof. intros E [Hl Hr]. split; [done|]. by eapply reaches_mono. Qed.

Lemma RegisterMemory_registers msg v v1 :
  is_pull_request msg = true → RegisterMemory mr_keys msg v = Ok v1 →
  0 < Meta.val_len (Message.meta msg) ∧
  ∃ mr, mem_mr_ v1 !! Meta.addr (Message.meta msg) = Some mr ∧ Meta.val_len (Message.meta msg) ≤ mr_length mr.
Proof.
  unfold is_pull_request, RegisterMemory. intros ->. destruct (0 <? _) eqn:Hpos; [|done]. intros [= <-].
  split; [lia|]. destruct (registered _ _ _) eqn:E.
  - unfold registered in E. destruct (mem_mr_ _ !! _) as [mr|]; [|done]. exists mr. split; [done|lia].
  - unfold register. rewrite ibv_reg_mr_eq. eexists. split; [apply lookup_insert_eq|]. cbn. lia.
Qed.

Lemma AddMeta_pull msg v msg' mr :
  is_pull_request msg = true → mem_mr_ v !! Meta.addr (Message.meta msg) = Some mr → AddMeta msg v = Ok msg' →
  let m := Message.meta msg' in
  Meta.addr m = Meta.addr (Message.meta msg) ∧ Meta.val_len m = Meta.val_len (Message.meta msg) ∧
  Meta.option_ m = i32 (rkey mr).
Proof.
  unfold is_pull_request, AddMeta. intros [[_ Ep]%andb_true_iff Er]%andb_true_iff Hmr. rewrite Er.
  destruct (Message.data msg !! 0%nat) as [ks|]; [|done]. cbn. rewrite Ep, Er. cbn. rewrite Hmr. cbn. by intros [= <-].
Qed.

(** What a pull request names is registered once its memory is. *)
Lemma pull_range_ok x s msg v1 :
  node_ok x (vans s) v1 → sendable mr_keys server s x msg → RegisterMemory mr_keys msg (vans s x) = Ok v1 →
  Forall (range_ok (host_ v1)) (pull_range mr_keys msg (vans s x)).
Proof.
  intros Hok (_ & _ & Hpull & _) Hreg. unfold pull_range. destruct (is_pull_request msg) eqn:Ep; [|constructor].
  destruct (Hpull eq_refl) as [Hlen Hkey]. destruct (RegisterMemory_registers _ _ _ Ep Hreg) as (Hpos & mr & Emr & Hmr).
  rewrite Hreg. cbn [mbind result_bind]. destruct (AddMeta msg v1) as [msg'|] eqn:Ha; [|constructor].
  destruct (AddMeta_pull _ _ _ _ Ep Emr Ha) as (-> & -> & ->). constructor; [|constructor].
  destruct (ok_mr _ _ _ Hok _ _ Emr) as (Hin & Haddr & _). split; [simpl; lia|]. exists mr. split; [done|].
  specialize (Hkey v1 mr Hreg Emr). cbn [fst snd]. split.
  - rewrite uwrap_swrap by done. by rewrite uwrap_small.
  - unfold covers. lia.
Qed.

Lemma SendMsg_ok x s msg n v' :
  node_ok x (vans s) (vans s x) → sendable mr_keys server s x msg → pulls_ok s →
  SendMsg pagesize malloc mr_keys QP_NUM msg (vans s x) = Ok (n, v') →
  ∃ v1, RegisterMemory mr_keys msg (vans s x) = Ok v1 ∧ grows x (vans s) (vans s x) v1 ∧ grows x (vans s) v1 v'.
Proof.
  intros Hok (Hlen & Hkey & _ & Hvalid) Hpulls H. unfold SendMsg in H. destruct (negb (_ =? kEmpty)); [|discriminate].
  set (total_len := i32 _) in H. clearbody total_len.
  apply bind_Ok in H as (ep & _ & H). destruct (negb (_ =? 0)); [|discriminate].
  apply bind_Ok in H as (v1 & Hreg & H). destruct (RegisterMemory_ok x (vans s) _ msg v1 Hok Hreg Hkey) as [Hg Harr].
  assert (announced (Meta.recver (Message.meta msg)) msg) as Hann.
  { split_and!; [done..|]. intros Hv Hp Hr. destruct (Hvalid Hv) as (Hsz & Hsrv & _). auto. }
  assert (answer_ok (vans s) msg) as Hans.
  { intros Hv Hp Hr. destruct (Hvalid Hv) as (_ & _ & Hin). specialize (Hin Hp Hr).
    exact (proj1 (Forall_forall _ _) (Hpulls _) _ Hin). }
  exists v1. split; [exact Hreg|]. split; [exact Hg|]. destruct (IsValidPushpull msg) eqn:Ev; cbn [negb] in H.
  2: { apply bind_Ok in H as (v2 & Hb & [= <- <-]). exact (begin_rendezvous_ok x (vans s) v1 _ msg false v2 (proj2 Hg) Hb Hann Hans Harr (eq_sym Ev)). }
  apply bind_Ok in H as (msg' & Ham & H). destruct (AddMeta_same _ _ _ Ham) as (Ed & Ev' & Ep & Er & Ey & El & Esame).
  assert (answer_ok (vans s) msg') as Hans'.
  { intros Hv' Hp' Hr'. rewrite Er in Hr'. rewrite (Esame Hr') in *. by apply Hans. }
  assert (announced (Meta.recver (Message.meta msg)) msg') as Hann'
    by (unfold announced; rewrite Ed, Ev', Ep, Er, El, Ey; exact Hann).
  assert (∀ vals, Message.data msg' !! 1%nat = Some vals → array_ok v1 vals) as Harr' by (rewrite Ed; exact Harr).
  rewrite <-Ev' in Ev. destruct (negb _).
  { apply bind_Ok in H as (v2 & Hb & [= <- <-]).
    exact (begin_rendezvous_ok x (vans s) v1 _ msg' true v2 (proj2 Hg) Hb Hann' Hans' Harr' (eq_sym Ev)). }
  apply bind_Ok in H as (t & Ht%from_option_or_Ok & H). apply bind_Ok in H as (b & Hb & H).
  destruct (ok_tuples _ _ _ (proj2 Hg) _ _ _ _ Ht) as (b0 & Hb0 & Hroom).
  rewrite Hb in Hb0. injection Hb0 as <-. destruct (inline_len b =? u64 (GetPackMetaLen (Message.meta msg))); [|discriminate H].
  destruct (negb (inline_buf b =? 0)); [|discriminate H]. apply bind_Ok in H as (data & Hdata & H).
  set (b' := b <| mb_data := data |>) in H. set (v2 := set_buf (rt_msg_buf t) b' v1) in H.
  assert (grows x (vans s) v1 v2) as Hg2.
  { apply grow_data; [apply Hg|exact Hb|].
    exact (replace_data_ok v1 b _ data (ok_bufs _ _ _ (proj2 Hg) _ _ Hb) Harr' Hdata). }
  apply bind_Ok in H as (h & Hpack%pack_into_same & H). apply bind_Ok in H as (v3 & Hsend & [= <- <-]).
  pose proof (grow_same_host x (vans s) v2 h (proj2 Hg2) Hpack) as Hg3.
  eapply grows_trans; [exact Hg2|]. eapply grows_trans; [exact Hg3|].
  refine (send_kind_ok x (vans s) _ _ msg' t (rt_msg_buf t) b' v3 (proj2 Hg3) _ Hroom Ey Ev Hans' Hsend).
  apply (get_buf_set (rt_msg_buf t) _ v1 b' b b' Hb). left. exact (conj eq_refl eq_refl).
Qed.

Lemma RegisterRecvBuffer_ok x env v msg v' :
  node_ok x env v → registrable msg → RegisterRecvBuffer mr_keys msg v = Ok v' → grows x env v v'.
Proof.
  intros Hok (ks & vs & rest & Ed & Hks & Hvs) H. unfold RegisterRecvBuffer in H.
  apply bind_Ok in H as (v1 & Hreg & H). rewrite Ed in H. cbn [lookup list_lookup from_option_or mbind result_bind] in H.
  destruct (RegisterMemory_ok x env v msg v1 Hok Hreg) as [Hg Harr]; [rewrite Ed; by intros ? [= <-]|].
  destruct (Harr vs) as [|Hr]; [by rewrite Ed|done|]. injection H as <-.
  eapply grows_trans; [exact Hg|]. destruct Hg as [_ []]. split; [constructor; eauto|]. constructor; try done.
  intros key node buf Hin. simpl in Hin. destruct (decide (key = DecodeKey ks)) as [->|Hne].
  - rewrite lookup_insert_eq in Hin. simpl in Hin.
    apply elem_of_app in Hin as [Hin|[= -> ->]%list_elem_of_singleton]; [exact (ok_registered0 _ _ _ Hin)|exact Hr].
  - rewrite lookup_insert_ne in Hin by done. exact (ok_registered0 _ _ _ Hin).
Qed.

(** Receiving takes new blocks for keys and lengths. *)
Definition more_blocks (h h' : host) : Prop :=
  regions h' = regions h ∧ ∀ blk, blk ∈ blocks h → blk ∈ blocks h'.

Lemma recv_values_blocks msg addr h x :
  Ok (recv_values malloc msg addr h) = Ok x → more_blocks h x.2.
Proof.
  intros E%Ok_inj. rewrite <-E. split; [done|]. intros blk Hb. do 2 right. exact Hb.
Qed.

Lemma RecvMsg_ok x env v n msg v' :
  node_ok x env v → RecvMsg pagesize malloc v = Ok (n, msg, v') → grows x env v v'.
Proof.
  intros Hok H. unfold RecvMsg in H. destruct (recv_buffers_ v) as [|nt rest]; [discriminate|].
  set (w := v <| recv_buffers_ := rest |>) in H. pose proof (grow_recv_buffers x env v rest Hok) as Hg.
  change (grows x env v w) in Hg. apply bind_Ok in H as (ep & _ & H). destruct (negb (_ =? 0)); [|discriminate].
  destruct (bool_decide _); [|discriminate]. apply bind_Ok in H as (raw & _ & H).
  destruct (negb _); [discriminate|]. apply bind_Ok in H as (m & _ & H).
  unfold recv_data in H. set (ml := GetPackMetaLen m) in H. clearbody ml. destruct (negb _); [injection H as <- <- <-; exact Hg|]. apply bind_Ok in H as ([[len msg'] h] & Hr & H).
  assert (more_blocks (host_ w) h) as [Er Eb].
  { clear H. destruct (Meta.push _), (Meta.request _).
    - unfold RecvPushRequest in Hr. destruct (_ && _); [|discriminate]. destruct (is_server_ ep).
      + destruct (2 <=? _); [|discriminate]. destruct (negb _); [|discriminate]. destruct (negb _); [|discriminate].
        exact (recv_values_blocks _ _ _ _ Hr).
      + destruct (_ =? 3); [|discriminate]. exact (recv_values_blocks _ _ _ _ Hr).
    - unfold RecvPushResponse in Hr. destruct (_ =? 0); [|discriminate]. injection Hr as <- <- <-. done.
    - apply Ok_inj in Hr. change h with (len, msg', h).2. rewrite <-Hr. split; [done|].
      intros blk Hb. right. exact Hb.
    - exact (recv_values_blocks _ _ _ _ Hr). }
  injection H as <- <- <-. eapply grows_trans; [exact Hg|].
  apply grow_host; [apply Hg|rewrite Er; apply Hg|by rewrite Er|exact Eb].
Qed.
End invariant.
