(* ===== verification/RdmaWrites.v ===== *)
(** * No work request leaves the registered memory

    The invariant of RdmaSafety.v for all nodes and all completions on the way
    to them, kept by every step of RdmaSystem.v, and what follows for the
    adapters. *)

From S2P Require Import Prelude Message Env Postoffice Codec RdmaMemory RdmaTransport RdmaVan RdmaFacts RdmaSystem RdmaSafety.
Import Endpoint RDMAVan.

Section system.
Context {verbs : Verbs}.
Context (pagesize : Z) (malloc : list (Z * Z) → Z → Z) (mr_keys : nat → Z * Z) (QP_NUM : Z).
Context (server : Z → bool).
Context (Hpage : 0 < pagesize < 2 ^ 31) (Hmalloc : malloc_fresh malloc) (Hq : 0 < QP_NUM).

Definition system_ok (s : system) : Prop :=
  pulls_ok s ∧ ∀ x, node_ok mr_keys server x (vans s) (vans s x) ∧ Forall (completion_ok server x (vans s)) (cqs s x).

Lemma upd_extends (f : Z → RDMAVan.t) x v : extends (f x) v → env_extends f (upd f x v).
Proof.
  intros E y. destruct (decide (y = x)) as [->|]; [by rewrite upd_eq|rewrite upd_ne by done]. reflexivity.
Qed.

(** A node grows, the completions stay good ones. *)
Lemma system_grows s x v q p :
  system_ok s → grows mr_keys server x (vans s) (vans s x) v →
  (∀ y, Forall (completion_ok server y (vans s)) (q y)) → Forall (range_ok (host_ v)) p →
  system_ok (mkSystem (upd (vans s) x v) q (upd (pulls s) x (pulls s x ++ p))).
Proof.
  intros [Hpulls Hs] [E Hok] Hc Hp. pose proof (upd_extends (vans s) x v E) as Ee. split.
  { intros y. simpl. destruct (decide (y = x)) as [->|]; [rewrite !upd_eq|rewrite !upd_ne by done; apply Hpulls].
    apply Forall_app. split; [|done]. eapply Forall_impl; [apply Hpulls|]. intros r. by apply range_mono. }
  intros y. simpl. split.
  - apply (node_mono mr_keys server y _ (vans s)); [done|].
    destruct (decide (y = x)) as [->|]; [by rewrite upd_eq|rewrite upd_ne by done]. apply Hs.
  - eapply Forall_impl; [apply Hc|]. intros wc. by apply completion_mono.
Qed.

Lemma system_grows_same s x v q :
  system_ok s → grows mr_keys server x (vans s) (vans s x) v →
  (∀ y, Forall (completion_ok server y (vans s)) (q y)) → system_ok (mkSystem (upd (vans s) x v) q (pulls s)).
Proof.
  intros Hs Hg Hc. destruct (system_grows s x v q [] Hs Hg Hc (Forall_nil_2 _)) as [Hp Hn]. split; [|exact Hn].
  intros y. specialize (Hp y). simpl in *. destruct (decide (y = x)) as [->|].
  - rewrite !upd_eq, app_nil_r in *. done.
  - rewrite !upd_ne in * by done. done.
Qed.

Lemma initial_ok s : initial server s → system_ok s.
Proof.
  intros H. split; [intros x; destruct (H x) as (_ & _ & ->); constructor|].
  intros x. destruct (H x) as ((Hr & Ha & Hm & Hp1 & Hp2 & Hb & Hc & Hg & Ho & Hi) & -> & _).
  split; [|constructor]. constructor.
  - rewrite Hr. by intros i r.
  - intros a mr. by rewrite Ha, lookup_empty.
  - intros a mr. by rewrite Hm, lookup_empty.
  - intros a b [_ Hl]%get_buf_Ok. by rewrite Hb in Hl.
  - intros [] key y t; simpl; rewrite ?Hp1, ?Hp2; by rewrite lookup_empty.
  - intros [y|y] ep qp w Hep%from_option_or_Ok Hin; [destruct (Ho y ep Hep) as [E _]|destruct (Hi y ep Hep) as [E _]];
      rewrite E in Hin; by apply elem_of_nil in Hin.
  - intros y ep Hep%from_option_or_Ok. by destruct (Hi y ep Hep) as (_ & ? & _).
  - intros [y|y] ep key mr Hep%from_option_or_Ok; [destruct (Ho y ep Hep) as [_ ->]|destruct (Hi y ep Hep) as (_ & _ & ->)];
      by intros ?%lookup_empty_Some.
  - intros a msg. by rewrite Hc, lookup_empty.
  - intros key node buf. rewrite Hg, lookup_empty. by intros ?%elem_of_nil.
Qed.

(** A work request is taken from its queue. *)
Lemma set_posted_ok x s c l1 q l2 :
  system_ok s → posted_on c (vans s x) = l1 ++ q :: l2 →
  grows mr_keys server x (vans s) (vans s x) (set_posted c (l1 ++ l2) (vans s x)) ∧
  work_ok server x (vans s x) (vans s) c q.2 ∧
  host_ (set_posted c (l1 ++ l2) (vans s x)) = host_ (vans s x).
Proof.
  intros Hs. unfold posted_on, set_posted. destruct (get_endpoint c (vans s x)) as [ep|] eqn:Hep; intros Hp;
    [|by destruct l1]. destruct (proj2 Hs x) as [Hok _]. split_and!.
  - apply (grow_endpoint _ _ _ _ _ _ ep); [done|done| |done|].
    + intros qp w Hin. left. rewrite Hp. simpl in Hin. set_solver.
    + intros key mr Hk. by eapply ok_backend.
  - destruct q as [qp w]. eapply (ok_posted _ _ _ _ _ Hok c ep qp); [done|]. rewrite Hp. set_solver.
  - by destruct c.
Qed.

(** The other end hears of what was announced or answered. *)
Lemma execute_completions x c w env h v vy wcs done :
  work_ok server x (env x) env c w → nic_execute w c (other_end x c) h v = Ok (vy, wcs, done) →
  Forall (completion_ok server (peer c) env) wcs ∧ completion_ok server x env done ∧
  (vy = v ∨ ∃ h', vy = v <| host_ := h' |> ∧ same_host (host_ v) h').
Proof.
  intros Hw. destruct w as [req|resp|local len lk raddr rk imm inl]; simpl.
  - intros [= <- <- <-]. split_and!; [|done|by left]. constructor; [|done]. by destruct c.
  - intros [= <- <- <-]. split_and!; [|done|by left]. constructor; [|done]. by destruct c.
  - intros (bs & _ & H)%bind_Ok. apply bind_Ok in H as (h' & Hh & [= <- <- <-]).
    split_and!; [by destruct imm; repeat constructor|done|right]. exists h'. split; [done|].
    unfold nic_write in Hh. destruct (find_region rk (host_ v)); [|done].
    destruct (covers _ _ _); [|done]. injection Hh as <-. done.
Qed.

Lemma step_ok s s' : system_ok s → step pagesize malloc mr_keys QP_NUM server s s' → system_ok s'.
Proof.
  intros Hs Hstep. pose proof (λ x, proj1 (proj2 Hs x)) as Hn. pose proof (λ x, proj2 (proj2 Hs x)) as Hc.
  destruct Hstep as [x msg n v' Hsend H|x msg v' Hreg H|x wc rest v' Hq' H|x n msg v' H|x c l1 qp w l2 vy wcs done Hp _ s1 H q1].
  - destruct (SendMsg_ok pagesize malloc mr_keys QP_NUM server Hpage Hmalloc Hq x s msg n v' (Hn x) Hsend (proj1 Hs) H)
      as (v1 & Hreg & Hg1 & Hg2). apply system_grows; [done|by eapply grows_trans|exact Hc|].
    eapply Forall_impl; [eapply pull_range_ok; [apply Hg1|done..]|]. intros r. apply range_mono, Hg2.
  - apply system_grows_same; [done| |exact Hc]. by eapply RegisterRecvBuffer_ok.
  - pose proof (Hc x) as Hx. rewrite Hq' in Hx. apply Forall_cons in Hx as [Hwc Hrest].
    apply system_grows_same; [done|by eapply PollCQ_ok|]. intros y.
    destruct (decide (y = x)) as [->|]; [by rewrite upd_eq|by rewrite upd_ne].
  - apply system_grows_same; [done| |exact Hc]. by eapply RecvMsg_ok.
  - destruct (set_posted_ok x s c l1 (qp, w) l2 Hs Hp) as (Hg & Hw & Hh). simpl in Hw.
    destruct (execute_completions x c w (vans s) _ _ _ _ _ Hw H) as (Hcs & Hd & Hvy).
    assert (∀ y, Forall (completion_ok server y (vans s)) (q1 y)) as Hq1.
    { intros y. unfold q1. destruct (decide (y = x)) as [->|]; [rewrite upd_eq|by rewrite upd_ne].
      apply Forall_app. split; [done|by constructor]. }
    assert (∀ q, (∀ y, Forall (completion_ok server y (vans s)) (q y)) → system_ok (mkSystem s1 q (pulls s))) as Hs1
      by (intros q; by apply system_grows_same).
    set (q2 := upd q1 (peer c) _).
    assert (∀ y, Forall (completion_ok server y (vans s)) (q2 y)) as Hq2.
    { intros y. unfold q2. destruct (decide (y = peer c)) as [->|]; [rewrite upd_eq|by rewrite upd_ne].
      by apply Forall_app. }
    specialize (Hs1 q2 Hq2). apply (system_grows_same (mkSystem s1 q2 (pulls s))); [done| |intros y; apply Hs1]. simpl.
    destruct Hvy as [->|(h' & -> & Hsame)]; [split; [reflexivity|apply (proj2 Hs1 (peer c))]|].
    apply grow_same_host; [apply (proj2 Hs1 (peer c))|done].
Qed.

Lemma reachable_ok s : reachable pagesize malloc mr_keys QP_NUM server s → system_ok s.
Proof. induction 1; [by apply initial_ok|by eapply step_ok]. Qed.

Context (Hkeys : keys_distinct mr_keys).

(** A good write finds its regions by their keys. *)
Lemma write_executes h h' local len lk raddr rk imm inl mine c v :
  keyed mr_keys (regions h) → keyed mr_keys (regions (host_ v)) → h' = host_ v →
  write_ok h h' local len lk raddr rk inl →
  ∃ r, nic_execute (PostWrite local len lk raddr rk imm inl) mine c h v = Ok r.
Proof.
  intros Hk Hk' -> (Hl & (r & Hr & <- & Hcov) & Hloc). simpl.
  assert (∃ bs, nic_read local len lk inl h = Ok bs ∧ Z.of_nat (length bs) = len) as (bs & -> & Hbs).
  { unfold nic_read. destruct inl as [bs|]; [eauto|]. destruct Hloc as (r' & Hr' & <- & Hcov').
    rewrite (find_by_lkey mr_keys Hkeys) by done. rewrite Hcov'. eexists; split; [done|]. rewrite length_read. lia. }
  cbn [mbind result_bind]. unfold nic_write. rewrite (find_by_rkey mr_keys Hkeys), Hbs, Hcov by done. simpl. eauto.
Qed.

Lemma posted_executes s x c qp w :
  system_ok s → (qp, w) ∈ posted_on c (vans s x) →
  ∃ r, nic_execute w c (other_end x c) (host_ (vans s x)) (vans s (peer c)) = Ok r.
Proof.
  intros Hs Hin. unfold posted_on in Hin.
  destruct (get_endpoint c (vans s x)) as [ep|] eqn:Hep; [|by apply elem_of_nil in Hin].
  pose proof (ok_posted _ _ _ _ _ (proj1 (proj2 Hs x)) c ep qp w Hep Hin) as Hw.
  destruct c as [y|y], w; simpl in Hw; try done; try by eexists.
  eapply write_executes; [apply (proj1 (proj2 Hs x))|apply (proj1 (proj2 Hs y))|done|exact Hw].
Qed.

(** C4. Remote writes never leave registered memory: in every state that nodes
    reach by sending, receiving, registering buffers and handling completions,
    while the adapters execute work requests in any interleaving, each work
    request on any connection can be executed. Pull answers carry the address, the
    length and the key of a pull request that their receiver has sent; that these
    stand for registered memory is proved. The local bytes of a request lie in a
    region registered at the sender, and its remote bytes in one region of the receiver
    that its key stands for. *)
Theorem writes_stay_registered s x c qp w :
  reachable pagesize malloc mr_keys QP_NUM server s → (qp, w) ∈ posted_on c (vans s x) →
  ∃ r, nic_execute w c (other_end x c) (host_ (vans s x)) (vans s (peer c)) = Ok r.
Proof. intros Hs%reachable_ok Hin. by eapply posted_executes. Qed.
End system.
