(* ===== verification/RdmaDelivery.v ===== *)
(** * A push over RDMA arrives

    The first push of a key: the rendezvous, the two remote writes and the
    notification bring the meta data and the values of the message to the
    server, byte for byte. *)

From S2P Require Import Prelude Message Env Postoffice Codec RdmaMemory RdmaTransport RdmaVan RdmaFacts RdmaSystem RdmaSafety RdmaWrites.
Import Endpoint RDMAVan.

Section delivery.
Context {verbs : Verbs}.
Context (pagesize : Z) (malloc : list (Z * Z) → Z → Z) (mr_keys : nat → Z * Z) (QP_NUM : Z).
Context (Hpage : 0 < pagesize < 2 ^ 31) (Hmalloc : malloc_fresh malloc).

(** ** Allocations succeed *)
Lemma Alloc_total size al h :
  0 < size → size + 2 * pagesize < 2 ^ 31 →
  ∃ k n used, let p := malloc (blocks h) k in let mr := region_at mr_keys p n (length (regions h)) in
    size ≤ n ≤ k ∧
    Alloc pagesize malloc mr_keys size al h =
      Ok (p, mkMemoryAllocator (<[p := mr]> (mr_ al)) used,
          h <| blocks ::= cons (p, k) |> <| mem ::= write_bytes p (repeat x00 (Z.to_nat n)) |> <| regions ::= cons mr |>).
Proof.
  intros Hs Hb. unfold Alloc. rewrite (proj2 (Z.eqb_neq size 0)) by lia. unfold aligned_malloc.
  pose proof (align_ceil_spec pagesize Hpage size ltac:(lia)) as [Ha _].
  set (n := align_ceil size pagesize) in *. clearbody n.
  pose proof (ROUNDUP_spec pagesize Hpage n ltac:(lia)) as Hr.
  rewrite (swrap_small 32 (ROUNDUP n pagesize)) by (lia || word_lia).
  set (k := ROUNDUP n pagesize) in *. clearbody k.
  rewrite (proj2 (Z.leb_le 0 k)), (proj2 (Z.leb_le n k)) by lia. cbn [mbind result_bind].
  destruct (Hmalloc (blocks h) k ltac:(lia)) as [Hp _].
  rewrite (proj2 (Z.eqb_neq (malloc (blocks h) k) 0)) by lia. cbn [negb]. rewrite ibv_reg_mr_eq.
  eexists k, n, _. split; [lia|reflexivity].
Qed.

Lemma data_sizes_total data : data_sizes (length data) data = Ok (map SArray.size data).
Proof. induction data as [|a data IH]; [done|]. simpl. by rewrite IH. Qed.

(** Registering memory changes neither its bytes nor the blocks. *)
Lemma register_arrays_frame data n v :
  ∃ h mm, register_arrays mr_keys data n v = v <| host_ := h |> <| mem_mr_ := mm |> ∧
    mem h = mem (host_ v) ∧ blocks h = blocks (host_ v).
Proof.
  revert n v. induction data as [|sa data IH]; intros n v; simpl; [exists (host_ v), (mem_mr_ v); by destruct v|].
  destruct (SArray.size sa =? 0); [apply IH|]. destruct (_ && _); [|apply IH].
  destruct (IH (S n) (register mr_keys (SArray.ptr_ sa) (SArray.size sa) v)) as (h & mm & -> & Hm & Hb).
  exists h, mm. split; [by rewrite register_regions|]. rewrite Hm, Hb, register_regions. done.
Qed.

Lemma GetPackMetaLen_large m : meta_wf m → 288 ≤ GetPackMetaLen m.
Proof.
  intros (_ & _ & _ & _ & _ & _ & _ & _ & Hsz). unfold GetPackMetaLen. pose proof sizeof_RawMeta_eq as H288.
  rewrite swrap_small by (lia || word_lia). lia.
Qed.
Lemma GetPackMetaLen_pos m : meta_wf m → 0 < GetPackMetaLen m.
Proof. intros H%GetPackMetaLen_large. lia. Qed.

(** ** The sender announces the message *)
Context (Hqp : QP_NUM ≤ Z.of_nat QP_MAX_NUM).

(** [PackMeta] fills the buffer of a message. *)
Lemma pack_into_packed b m h :
  meta_wf m → inline_len b = GetPackMetaLen m →
  ∃ bs old, pack_into QP_NUM b m h = Ok (h <| mem ::= write_bytes (inline_buf b) bs |>) ∧
    length bs = Z.to_nat (GetPackMetaLen m) ∧ bs = packed false m old ∧
    (length (packed_nodes m) * sizeof_RawNode ≤ length old)%nat.
Proof.
  intros Hwf Hl. pose proof (GetPackMetaLen_pos m Hwf) as Hpos. unfold pack_into. rewrite Hl.
  destruct (PackMeta_packed false QP_NUM m (Some (read_bytes (mem h) (inline_buf b) (Z.to_nat (GetPackMetaLen m))))
    (λ _, []) Hwf Hqp) as (bs & old & Hp & Hlen & Ht & Ho); [rewrite length_read; lia|].
  rewrite length_read in Hlen. rewrite take_ge in Ht by lia.
  exists bs, old. rewrite (bind_eq _ _ _ Hp). auto.
Qed.

(** The memory of [h] holds the packed meta data [m] at [p]. *)
Definition holds_meta (h : host) (p : Z) (m : Meta.t) : Prop :=
  ∃ old, read_bytes (mem h) p (Z.to_nat (GetPackMetaLen m)) = packed false m old ∧
    (length (packed_nodes m) * sizeof_RawNode ≤ length old)%nat.

Lemma PrepareData_push b msg v vs mr :
  Meta.push (Message.meta msg) = true → Meta.request (Message.meta msg) = true →
  mb_data b = Message.data msg → Message.data msg !! 1%nat = Some vs → SArray.size vs ≠ 0 →
  mem_mr_ v !! SArray.ptr_ vs = Some mr →
  PrepareData msg (Z.of_nat (length (msg_bufs v)) + 1) (add_message b msg v) =
    Ok (add_message (b <| mrs ::= (λ l, l ++ [(mr, SArray.size vs)]) |>) msg v).
Proof.
  intros Hp Hr Hd Hvs Hsz Hmr. unfold PrepareData. rewrite Hp, Hr. cbn [andb negb].
  assert (get_buf (Z.of_nat (length (msg_bufs v)) + 1) (add_message b msg v) = Ok b) as Hb
    by (apply get_buf_add; right; exact (conj eq_refl eq_refl)).
  rewrite (bind_eq _ _ _ Hb), Hd, Hvs. cbn [from_option_or mbind result_bind].
  rewrite (proj2 (Z.eqb_neq _ _) Hsz). change (mem_mr_ (add_message b msg v)) with (mem_mr_ v). rewrite Hmr.
  cbn [from_option_or mbind result_bind]. by rewrite set_buf_add.
Qed.

(** The verbs library accepts a work request on a connection with at most one
    that waits, when it has at most [n] inline bytes. *)
Definition roomy (n : Z) : Prop :=
  ∀ l qp w, (length l < 2)%nat → inline_size w ≤ n → post_accepts l qp w = true.

Lemma post_roomy n qp w ep :
  roomy n → (length (posted ep) < 2)%nat → inline_size w ≤ n → ibv_post_send qp w ep = Ok (enqueue qp w ep).
Proof. intros Hr Hl Hw. unfold ibv_post_send. by rewrite Hr. Qed.

Lemma post_first n w ep :
  roomy n → 0 ≤ n → posted ep = [] → inline_size w = 0 → ibv_post_send 0 w ep = Ok (enqueue 0 w ep).
Proof. intros Hr Hn He Hw. apply (post_roomy n); [done| |lia]. rewrite He. simpl. lia. Qed.

Lemma begin_push v y msg ep n0 vs mr :
  let m := Message.meta msg in
  let n := GetPackMetaLen m in
  let a := Z.of_nat (length (msg_bufs v)) + 1 in
  roomy n → posted ep = [] → get_endpoint (Out y) v = Ok ep → free_start_ctx ep = S n0 → Meta.push m = true → Meta.request m = true →
  meta_wf m → n + 2 * pagesize < 2 ^ 31 → (length (Message.data msg) ≤ 4)%nat →
  Message.data msg !! 1%nat = Some vs → SArray.size vs ≠ 0 → mem_mr_ v !! SArray.ptr_ vs = Some mr →
  msgbuf_cache_ v !! a = None →
  ∃ k al h, let p := malloc (blocks (host_ v)) k in
    let b := mkMessageBuffer n p (Message.data msg) [(mr, SArray.size vs)] in
    let req := mkStart n (Z.of_nat (length (Message.data msg))) (map SArray.size (Message.data msg)) a (Meta.key m) in
    begin_rendezvous pagesize malloc mr_keys QP_NUM (Out y) msg true v =
      Ok (set_endpoint (Out y) (enqueue 0 (PostStart req) (ep <| free_start_ctx := n0 |>))
            (add_message b msg (v <| RDMAVan.mem_allocator_ := al |> <| host_ := h |>))) ∧
    n ≤ k ∧ holds_meta h p m ∧ is_Some (mr_ al !! p) ∧
    ∀ a' l, apart a' (Z.of_nat l) p k → read_bytes (mem h) a' l = read_bytes (mem (host_ v)) a' l.
Proof.
  intros m n a Hroom Hidle Hep Hctx Hpush Hreq Hwf Hn H4 Hvs Hsz Hmr Hcache.
  pose proof (GetPackMetaLen_pos m Hwf) as Hpos. fold n in Hpos.
  destruct (Alloc_total n (mem_allocator_ v) (host_ v) Hpos Hn) as (k & na & used & Hk & Halloc).
  set (p := malloc (blocks (host_ v)) k) in *. set (mrp := region_at mr_keys p na _) in Halloc.
  set (al := mkMemoryAllocator _ used) in Halloc. set (h1 := (host_ v) <| blocks ::= _ |> <| mem ::= _ |> <| regions ::= _ |>) in Halloc.
  set (b0 := mkMessageBuffer n p (Message.data msg) []).
  destruct (pack_into_packed b0 m h1 Hwf eq_refl) as (bs & old & Hpack & Hlen & Hbs & Hold).
  set (h2 := h1 <| mem ::= write_bytes (inline_buf b0) bs |>) in Hpack.
  exists k, al, h2. intros p' b req. subst p'. change (malloc (blocks (host_ v)) k) with p in b.
  assert (a = Z.of_nat (length (msg_bufs (v <| RDMAVan.mem_allocator_ := al |> <| host_ := h2 |>))) + 1) as Ea by done.
  split; [|split; [lia|split; [|split]]].
  - unfold begin_rendezvous, PrepareNewMsgBuf. rewrite (uwrap_small 64 (GetPackMetaLen _)) by (fold m n; word_lia).
    fold m n. rewrite (bind_eq _ _ _ Halloc). cbv beta iota. fold b0. rewrite (bind_eq _ _ _ Hpack).
    cbn [mbind result_bind]. unfold StoreMsgBuf. rewrite (bool_decide_eq_true_2 _ Hcache). cbn [mbind result_bind].
    set (v1 := v <| RDMAVan.mem_allocator_ := al |> <| host_ := h2 |>) in *.
    fold a. change (v1 <| msg_bufs ::= _ |> <| msgbuf_cache_ ::= _ |>) with (add_message b0 msg v1).
    assert (PrepareData msg a (add_message b0 msg v1) = Ok (add_message b msg v1)) as Hdata
      by exact (PrepareData_push b0 msg v1 vs mr Hpush Hreq eq_refl Hvs Hsz Hmr).
    rewrite (bind_eq _ _ _ Hdata).
    assert (get_buf a (add_message b msg v1) = Ok b) as Hb by (apply get_buf_add; right; exact (conj eq_refl eq_refl)).
    rewrite (bind_eq _ _ _ Hb). assert (get_endpoint (Out y) (add_message b msg v1) = Ok ep) as Hep1 by exact Hep.
    rewrite (bind_eq _ _ _ Hep1). unfold SendRendezvousBegin. rewrite Hctx. change (mb_data b) with (Message.data msg).
    rewrite bool_decide_eq_true_2 by exact H4. rewrite (bind_eq _ _ _ (data_sizes_total (Message.data msg))).
    match goal with |- context [ibv_post_send 0 ?w ?e] =>
      rewrite (post_first n w e Hroom (Z.lt_le_incl _ _ Hpos) Hidle eq_refl) end.
    reflexivity.
  - exists old. split; [|exact Hold]. subst bs.
    change (read_bytes (write_bytes p (packed false m old) (mem h1)) p (Z.to_nat n) = packed false m old).
    replace (Z.to_nat n) with (length (packed false m old)) by exact Hlen. apply read_write.
  - exists mrp. apply lookup_insert_eq.
  - intros a' l Hap. unfold h2. simpl. rewrite !read_write_apart; [done| |].
    + rewrite repeat_length. unfold apart in *. lia.
    + change (inline_buf b0) with p. rewrite Hlen. fold n. unfold apart in *. rewrite Z2Nat.id; lia.
Qed.

Context (server : Z → bool).

(** A push request that can be sent: a key, values, meta data that fit. *)
Record push_ready (msg : Message.t) (ks vs : SArray.t byte) : Prop := {
  pr_data : ∃ rest, Message.data msg = ks :: vs :: rest ∧ (length rest ≤ 2)%nat;
  pr_sizes : ∀ sa, sa ∈ Message.data msg → SArray.size sa < 2 ^ 32;
  pr_key : SArray.size ks ≠ 0;
  pr_vals : 0 < SArray.size vs < 2 ^ 31;
  pr_valid : IsValidPushpull msg = true;
  pr_push : Meta.push (Message.meta msg) = true;
  pr_request : Meta.request (Message.meta msg) = true;
  pr_len : Meta.val_len (Message.meta msg) = SArray.size vs;
  pr_wf : meta_wf ((Message.meta msg) <| Meta.key := DecodeKey ks |>);
  pr_size : GetPackMetaLen (Message.meta msg) + 2 * pagesize < 2 ^ 31
}.

(** The message with its key. *)
Definition keyed_msg (msg : Message.t) (ks : SArray.t byte) : Message.t :=
  Message.mk ((Message.meta msg) <| Meta.key := DecodeKey ks |>) (Message.data msg).

Lemma send_first v x env msg ks vs ep n0 :
  let y := Meta.recver (Message.meta msg) in
  let msg' := keyed_msg msg ks in
  let n := GetPackMetaLen (Message.meta msg) in
  let a := Z.of_nat (length (msg_bufs v)) + 1 in
  node_ok mr_keys server x env v → push_ready msg ks vs → roomy n → posted ep = [] → y ≠ kEmpty →
  get_endpoint (Out y) v = Ok ep → free_start_ctx ep = S n0 → push_addr_ v !! (DecodeKey ks, y) = None →
  ∃ t k al h mm mr, let p := malloc (blocks (host_ v)) k in
    let b := mkMessageBuffer n p (Message.data msg) [(mr, SArray.size vs)] in
    let req := mkStart n (Z.of_nat (length (Message.data msg))) (map SArray.size (Message.data msg)) a (DecodeKey ks) in
    SendMsg pagesize malloc mr_keys QP_NUM msg v =
      Ok (t, set_endpoint (Out y) (enqueue 0 (PostStart req) (ep <| free_start_ctx := n0 |>))
            (add_message b msg' (v <| mem_mr_ := mm |> <| RDMAVan.mem_allocator_ := al |> <| host_ := h |>))) ∧
    n ≤ k ∧ holds_meta h p (Message.meta msg') ∧ is_Some (mr_ al !! p) ∧ mr_addr mr = SArray.ptr_ vs ∧
    ∀ a' l, apart a' (Z.of_nat l) p k → read_bytes (mem h) a' l = read_bytes (mem (host_ v)) a' l.
Proof.
  intros y msg' n a Hok [(rest & Hd & Hrest) _ Hkey Hvals Hvalid Hpush Hreq Hvl Hwf Hn] Hroom Hidle Hy Hep Hctx Hrem.
  pose proof (register_arrays_ok mr_keys server x env (Message.data msg) 0 v Hok) as [[_ Hok1] _].
  pose proof (register_arrays_second mr_keys server x env ks vs rest v Hok Hkey) as Hsecond. rewrite <-Hd in Hsecond.
  destruct (register_arrays_frame (Message.data msg) 0 v) as (h1 & mm & E & Hm1 & Hb1). rewrite E in Hok1, Hsecond.
  set (v1 := v <| host_ := h1 |> <| mem_mr_ := mm |>) in *.
  assert (∃ mr, mm !! SArray.ptr_ vs = Some mr ∧ mr_addr mr = SArray.ptr_ vs) as (mr & Hmr & Hmra).
  { destruct Hsecond as [|Hr]; [lia|]. unfold registered in Hr. change (mem_mr_ v1) with mm in Hr.
    destruct (mm !! SArray.ptr_ vs) as [mr|] eqn:Emr; [|done]. exists mr. split; [done|].
    by apply (ok_mr _ _ _ _ _ Hok1). }
  assert (msgbuf_cache_ v1 !! a = None) as Hcache.
  { destruct (msgbuf_cache_ v1 !! a) as [m|] eqn:Ec; [|done].
    destruct (ok_cache _ _ _ _ _ Hok a m Ec) as [_ Hb]. destruct (get_buf a v) as [b|] eqn:Eb; [|done].
    apply get_buf_Ok in Eb as [_ Hl]. apply lookup_lt_Some in Hl. lia. }
  assert (Message.data msg' !! 1%nat = Some vs) as Hvs by (simpl; by rewrite Hd).
  assert (length (Message.data msg') ≤ 4)%nat as H4 by (simpl; rewrite Hd; simpl; lia).
  assert (SArray.size vs ≠ 0) as Hsz by lia.
  destruct (begin_push v1 y msg' ep n0 vs mr Hroom Hidle Hep Hctx Hpush Hreq Hwf Hn H4 Hvs Hsz Hmr Hcache)
    as (k & al & h & Hbegin & Hk & Hmeta & Hal & Hap).
  change (host_ v1) with h1 in Hbegin, Hmeta, Hal, Hap. rewrite Hb1 in Hbegin, Hmeta, Hal, Hap. rewrite Hm1 in Hap.
  set (t := i32 (GetPackMetaLen (Message.meta msg) + Meta.data_size (Message.meta msg))).
  exists t, k, al, h, mm, mr. intros p b req.
  split; [|exact (conj Hk (conj Hmeta (conj Hal (conj Hmra Hap))))].
  assert (RegisterMemory mr_keys msg v = Ok v1) as Hreg
    by (unfold RegisterMemory; rewrite E, Hvalid, Hpush; done).
  assert (AddMeta msg v1 = Ok msg') as Hadd.
  { unfold AddMeta. rewrite Hreq, Hd. cbn [lookup list_lookup from_option_or mbind result_bind].
    assert (Meta.push ((Message.meta msg) <| Meta.key := DecodeKey ks |>) = true) as -> by exact Hpush.
    cbn [negb andb mbind result_bind].
    unfold msg', keyed_msg. by rewrite Hd. }
  pose proof (GetPackMetaLen_pos _ Hwf) as Hpos.
  assert (0 < GetPackMetaLen (Message.meta msg)) as Hpos' by exact Hpos. clear Hpos.
  unfold SendMsg. fold y t. rewrite (proj2 (Z.eqb_neq _ _) Hy). cbn [negb]. rewrite (bind_eq _ _ _ Hep).
  rewrite (proj2 (Z.eqb_neq (GetPackMetaLen (Message.meta msg)) 0)) by lia. cbn [negb].
  rewrite (bind_eq _ _ _ Hreg), Hvalid. cbn [negb]. rewrite (bind_eq _ _ _ Hadd).
  assert (HasRemoteInfo (Meta.key (Message.meta msg')) (Meta.push (Message.meta msg')) y v1 = false) as ->.
  { unfold HasRemoteInfo, remote_of. change (Meta.push (Message.meta msg')) with (Meta.push (Message.meta msg)).
    rewrite Hpush. change (push_addr_ v1 !! _) with (push_addr_ v !! (DecodeKey ks, y)). by rewrite Hrem. }
  cbn [negb]. rewrite (bind_eq _ _ _ Hbegin). reflexivity.
Qed.

(** ** The server answers with buffers *)

(** The buffers of a rendezvous: meta data at [ma], values at [da]. *)
Definition answer_ctx (req : RendezvousStart) (ma da : Z) : BufferContext :=
  mkBufferContext 0 ma da (i32 (st_meta_len req)) (st_data_num req) (st_data_len req).

Lemma data_buffer_new query req ep h len :
  0 < total (st_data_len req) → st_data_len req !! 1%nat = Some len → 0 ≤ len →
  query (st_key req) (node_id ep) = Ok None → Endpoint.mem_allocator_ ep !! st_key req = None →
  let da := malloc (blocks h) len in
  let mr := region_at mr_keys da len (length (regions h)) in
  data_buffer malloc mr_keys query req ep h =
    Ok (da, rkey mr, ep <| Endpoint.mem_allocator_ := <[st_key req := mr]> (Endpoint.mem_allocator_ ep) |>,
        h <| blocks ::= cons (da, len) |> <| regions ::= cons mr |>).
Proof.
  intros Ht Hl H0 Hquery Hm da mr. unfold data_buffer. rewrite (proj2 (Z.ltb_lt _ _) Ht), Hl.
  cbn [from_option_or mbind result_bind]. rewrite (bind_eq _ _ _ Hquery). unfold backend_alloc. rewrite Hm, ibv_reg_mr_eq.
  cbn [mbind result_bind]. destruct (Hmalloc (blocks h) len H0) as [Hda _]. fold da in Hda |- *.
  rewrite (proj2 (Z.eqb_neq da 0)) by lia. cbn [negb]. by rewrite GetRemoteKey_insert.
Qed.

(** The first entry of a pool. *)
Lemma reply_with_total n req ctx ma mk da dk pool ep r0 i rest :
  roomy n → 0 ≤ n → posted ep = [] → pool_ok pool → indices_ pool = i :: rest → free_reply_ctx ep = S r0 →
  ∃ pool', reply_with req ctx ma mk da dk pool ep =
      Ok (pool', enqueue 0 (PostReply (mkReply ma mk da dk (st_origin_addr req) i)) (ep <| free_reply_ctx := r0 |>)) ∧
    GetAddress i pool' = Ok ctx.
Proof.
  intros Hroom Hn Hidle Hp Hi Hr. destruct (StoreAddress_spec pool ctx i rest Hp Hi) as (pool' & Hst & _ & _ & Hget & _).
  exists pool'. split; [|done]. unfold reply_with. rewrite Hr, (bind_eq _ _ _ Hst).
  match goal with |- context [ibv_post_send 0 ?w ?e] => rewrite (bind_eq _ _ _ (post_first n w e Hroom Hn Hidle eq_refl)) end.
  done.
Qed.

Lemma answer_first n v c ep req len r0 i rest :
  roomy n → 0 ≤ n → posted ep = [] → get_endpoint c v = Ok ep → is_server_ ep = true → free_reply_ctx ep = S r0 →
  0 < st_meta_len req → st_meta_len req + 2 * pagesize < 2 ^ 31 → (length (st_data_len req) ≤ 4)%nat →
  0 < total (st_data_len req) → st_data_len req !! 1%nat = Some len → 0 ≤ len →
  QueryRecvBuffer v (st_key req) (node_id ep) = Ok None → Endpoint.mem_allocator_ ep !! st_key req = None →
  pool_ok (addr_pool_ v) → indices_ (addr_pool_ v) = i :: rest →
  ∃ k al h pool ep' mk dk, let ma := malloc (blocks (host_ v)) k in
    let da := malloc ((ma, k) :: blocks (host_ v)) len in
    on_start pagesize malloc mr_keys c req v =
      Ok (set_endpoint c ep' (v <| addr_pool_ := pool |> <| RDMAVan.mem_allocator_ := al |> <| host_ := h |>)) ∧
    st_meta_len req ≤ k ∧ blocks h = (da, len) :: (ma, k) :: blocks (host_ v) ∧
    GetAddress i pool = Ok (answer_ctx req ma da) ∧
    posted ep' = posted ep ++ [(0, PostReply (mkReply ma mk da dk (st_origin_addr req) i))] ∧
    is_server_ ep' = true ∧ node_id ep' = node_id ep.
Proof.
  intros Hroom Hn0 Hidle Hep Hsrv Hctx Hn Hn' H4 Ht Hl H0 Hquery Hback Hp Hi.
  destruct (Alloc_total (st_meta_len req) (mem_allocator_ v) (host_ v) Hn Hn') as (k & na & used & Hk & Halloc).
  set (ma := malloc (blocks (host_ v)) k) in *. set (mrp := region_at mr_keys ma na _) in Halloc.
  set (al := mkMemoryAllocator _ used) in Halloc.
  set (h1 := (host_ v) <| blocks ::= _ |> <| mem ::= _ |> <| regions ::= _ |>) in Halloc.
  pose proof (data_buffer_new (QueryRecvBuffer v) req ep h1 len Ht Hl H0 Hquery Hback) as Hdata. cbv zeta in Hdata.
  change (blocks h1) with ((ma, k) :: blocks (host_ v)) in Hdata. set (da := malloc (_ :: _) len) in Hdata.
  set (mrd := region_at mr_keys da len _) in Hdata. set (ep1 := ep <| Endpoint.mem_allocator_ := _ |>) in Hdata.
  set (h2 := h1 <| blocks ::= _ |> <| regions ::= _ |>) in Hdata.
  destruct (reply_with_total n req (answer_ctx req ma da) ma (rkey mrp) da (rkey mrd) (addr_pool_ v) ep1 r0 i rest Hroom Hn0 Hidle Hp Hi Hctx)
    as (pool & Hreply & Hget).
  set (ep' := enqueue 0 _ _) in Hreply.
  exists k, al, h2, pool, ep', (rkey mrp), (rkey mrd). fold ma. cbv zeta. fold da.
  split; [|split; [lia|split; [reflexivity|split; [exact Hget|split_and!; [reflexivity|exact Hsrv|reflexivity]]]]].
  unfold on_start. rewrite (bind_eq _ _ _ Hep). unfold SendRendezvousReply.
  rewrite bool_decide_eq_true_2 by exact H4. rewrite (bind_eq _ _ _ Halloc). cbv beta iota.
  destruct (Hmalloc (blocks (host_ v)) k ltac:(lia)) as [Hma _]. fold ma in Hma.
  rewrite (proj2 (Z.eqb_neq ma 0)) by lia. cbn [negb]. rewrite Hsrv, (bind_eq _ _ _ Hdata). cbv beta iota.
  assert (RemoteKey ma al = Ok (rkey mrp)) as Hrk by (unfold RemoteKey, Addr2MR, al; simpl; by rewrite lookup_insert_eq).
  rewrite (bind_eq _ _ _ Hrk). rewrite (bind_eq _ _ _ Hreply). reflexivity.
Qed.

(** ** The sender writes values and meta data *)
Lemma reply_writes v a msg vs b mr mrp ep ma mk da dk i :
  let y := Meta.recver (Message.meta msg) in
  roomy (inline_len b) → posted ep = [] → msgbuf_cache_ v !! a = Some msg → get_buf a v = Ok b → mrs b = [(mr, SArray.size vs)] →
  IsValidPushpull msg = true → Meta.push (Message.meta msg) = true → Meta.request (Message.meta msg) = true →
  Message.data msg !! 1%nat = Some vs → SArray.size vs < 2 ^ 32 → 0 ≤ inline_len b < 2 ^ 32 →
  mr_ (mem_allocator_ v) !! inline_buf b = Some mrp → get_endpoint (Out y) v = Ok ep → multi_qp_ ep = false →
  ∃ v' ep', on_reply QP_NUM (Out y) (mkReply ma mk da dk a i) v = Ok v' ∧ host_ v' = host_ v ∧
    get_endpoint (Out y) v' = Ok ep' ∧
    posted ep' = posted ep ++
      [(0, PostWrite (mr_addr mr) (SArray.size vs) (lkey mr) da dk None None);
       (0, PostWrite (inline_buf b) (inline_len b) (lkey mrp) ma mk (Some i)
             (Some (read_bytes (mem (host_ v)) (inline_buf b) (Z.to_nat (inline_len b)))))].
Proof.
  intros y Hroom Hidle Hc Hb Hmrs Hvalid Hp Hr Hvs Hsz Hn Hmrp Hep Hqp1.
  assert (2 ≤ length (Message.data msg))%nat as H2 by (apply lookup_lt_Some in Hvs; lia).
  set (tup := mkRemoteTuple ma mk da dk i a).
  set (v1 := v <| push_addr_ ::= <[(Meta.key (Message.meta msg), y) := tup]> |>).
  set (w1 := PostWrite (mr_addr mr) _ _ _ _ _ _). set (w2 := PostWrite (inline_buf b) _ _ _ _ _ _).
  set (ep' := enqueue 0 w2 (enqueue 0 w1 ep)).
  assert (send_kind QP_NUM (Out y) msg tup b v1 = Ok (set_endpoint (Out y) ep' (v1 <| host_ := host_ v |>))) as Hsend.
  { unfold send_kind. assert (get_endpoint (Out y) v1 = Ok ep) as Hep1 by exact Hep.
    rewrite (bind_eq _ _ _ Hep1), Hp, Hr. unfold SendPushRequest. rewrite Hmrs, Hvs.
    cbn [length Nat.eqb lookup list_lookup from_option_or mbind result_bind].
    rewrite (proj2 (Nat.leb_le _ _) H2). cbn [mbind result_bind snd fst]. rewrite Z.leb_refl.
    unfold send_value. rewrite (uwrap_small 32 (SArray.size vs)) by (unfold SArray.size in *; word_lia).
    rewrite Hqp1. unfold RDMAWriteWithImm, LocalKey, Addr2MR.
    change (mem_allocator_ v1) with (mem_allocator_ v). rewrite Hmrp. cbn [from_option_or mbind result_bind].
    rewrite (uwrap_small 32 (inline_len b)) by word_lia. fold w1 w2.
    rewrite (bind_eq _ _ _ (post_first _ w1 ep Hroom (proj1 Hn) Hidle eq_refl)).
    assert (ibv_post_send 0 w2 (enqueue 0 w1 ep) = Ok ep') as Hw2.
    { apply (post_roomy (inline_len b)); [exact Hroom| |].
      - simpl. rewrite Hidle. simpl. lia.
      - simpl. rewrite length_read. lia. }
    rewrite (bind_eq _ _ _ Hw2). reflexivity. }
  eexists _, ep'. split; [|split; [|split]].
  - assert (StoreRemoteAndLocalInfo a (mkReply ma mk da dk a i) v = Ok v1) as H1.
    { unfold StoreRemoteAndLocalInfo, GetFirstMsg. rewrite Hc. cbn [from_option_or mbind result_bind]. by rewrite Hp. }
    assert (GetFirstMsg a v1 = Ok msg) as H3 by (unfold GetFirstMsg; simpl; by rewrite Hc).
    assert (GetRemoteAndLocalInfo (Meta.key (Message.meta msg)) (Meta.push (Message.meta msg)) y v1 = Ok tup) as H4.
    { unfold GetRemoteAndLocalInfo, remote_of. rewrite Hp. simpl. by rewrite lookup_insert_eq. }
    assert (get_buf a v1 = Ok b) as H5 by exact Hb.
    unfold on_reply. cbn [rp_origin_addr]. rewrite (bind_eq _ _ _ H1), (bind_eq _ _ _ H3). cbv zeta.
    fold y. rewrite (bind_eq _ _ _ H4), (bind_eq _ _ _ H5), Hvalid. cbn [negb]. rewrite (bind_eq _ _ _ Hsend).
    unfold ReleaseFirstMsg.
    assert (GetFirstMsg a (set_endpoint (Out y) ep' (v1 <| host_ := host_ v |>)) = Ok msg) as H6 by exact H3.
    rewrite (bind_eq _ _ _ H6). reflexivity.
  - reflexivity.
  - change (get_endpoint (Out y) (set_endpoint (Out y) ep' v1) = Ok ep').
    apply (proj2 (get_set_endpoint (Out y) (Out y) ep' ep' v1)). left. exact (conj eq_refl eq_refl).
  - unfold ep'. simpl. by rewrite <-app_assoc.
Qed.

(** ** The adapters write *)
Lemma execute_write local len lk raddr rk imm inl mine c h v r :
  nic_execute (PostWrite local len lk raddr rk imm inl) mine c h v = Ok r →
  r = (v <| host_ ::= (λ h', h' <| mem ::= write_bytes raddr (match inl with Some bs => bs
         | None => read_bytes (mem h) local (Z.to_nat len) end) |>) |>,
       match imm with Some i => [RecvImm c i] | None => [] end, WriteDone).
Proof.
  simpl. intros (bs & Hr & H)%bind_Ok. apply bind_Ok in H as (h' & Hw & [= <-]).
  assert (bs = match inl with Some bs => bs | None => read_bytes (mem h) local (Z.to_nat len) end) as ->.
  { unfold nic_read in Hr. destruct inl as [bs'|]; [by injection Hr|].
    destruct (List.find _ _); [|discriminate]. destruct (covers _ _ _); [|discriminate]. by injection Hr. }
  unfold nic_write in Hw. destruct (find_region rk (host_ v)); [|discriminate].
  destruct (covers _ _ _); [|discriminate]. by injection Hw as <-.
Qed.

(** ** The server receives *)
Lemma imm_cmd_zero i : imm_cmd i = 0.
Proof.
  unfold imm_cmd. change 65535 with (Z.ones 16). rewrite (Z.land_ones i) by lia.
  rewrite Z.shiftr_div_pow2, Z.div_small by (lia || apply Z.mod_pos_bound; lia). done.
Qed.

Lemma copied_apart value h a n :
  (a, Z.of_nat n) ∈ blocks h →
  let h' := (CreateFunctionalSarray malloc value h).2 in
  read_bytes (mem h') a n = read_bytes (mem h) a n ∧ (a, Z.of_nat n) ∈ blocks h'.
Proof.
  intros Hin h'. split; [|by right]. apply read_write_apart.
  destruct (Hmalloc (blocks h) (Z.of_nat (length value)) ltac:(lia)) as [_ Hap]. specialize (Hap _ _ Hin).
  unfold apart in *. lia.
Qed.

(** The arrays a server gives to the application for a push. *)
Lemma recv_values_elems msg da n h :
  (da, Z.of_nat n) ∈ blocks h → u32 (Meta.val_len (Message.meta msg)) = Z.of_nat n → Message.data msg = [] →
  ∃ l msg' h', recv_values malloc msg da h = (l, msg', h') ∧ Message.meta msg' = Message.meta msg ∧
    map SArray.elems (Message.data msg') =
      [enc_u64 (Meta.key (Message.meta msg)); read_bytes (mem h) da n; enc_int (Meta.val_len (Message.meta msg))].
Proof.
  intros Hin Hv Hd. eexists _, _, _. split; [reflexivity|]. split; [reflexivity|].
  cbn [add_arrays Message.data]. rewrite Hd. simpl map. rewrite Hv, Nat2Z.id. do 2 f_equal.
  destruct (copied_apart (enc_u64 (Meta.key (Message.meta msg))) h da n Hin) as [E1 Hin1].
  destruct (copied_apart (enc_int (Meta.val_len (Message.meta msg))) _ da n Hin1) as [E2 _].
  etransitivity; [exact E2|exact E1].
Qed.

Lemma slaves_arrived_single m ep : slaves_arrived (raw_meta false m) ep = true.
Proof. done. Qed.

Lemma read_packed_header m old :
  meta_wf m →
  RawMeta.of_fields (read_fields 0 RawMeta.layout (take sizeof_RawMeta (packed false m old))) = Some (raw_meta false m) ∧
  (sizeof_RawMeta ≤ length (packed false m old))%nat.
Proof.
  intros Hwf. split; [unfold packed; exact (read_header false m _ Hwf)|].
  destruct Hwf as (_ & _ & _ & Hs & _). unfold packed. rewrite length_app, length_header by done. lia.
Qed.

#[local] Opaque packed UnpackMeta read_fields write_fields sizeof_RawMeta GetPackMetaLen raw_meta RawMeta.of_fields.

Lemma recv_push_data v nt ma da req m1 n :
  nt_ctx nt = answer_ctx req ma da → nt_cmd nt = 0 → ma ≠ 0 → da ≠ 0 → 2 ≤ st_data_num req →
  Control.empty (Meta.control m1) = true → Meta.simple_app m1 = false →
  Meta.push m1 = true → Meta.request m1 = true → u32 (Meta.val_len m1) = Z.of_nat n →
  (da, Z.of_nat n) ∈ blocks (host_ v) →
  ∃ l msg v', recv_data pagesize malloc nt true m1 v = Ok (l, msg, v') ∧ Message.meta msg = m1 ∧
    map SArray.elems (Message.data msg) =
      [enc_u64 (Meta.key m1); read_bytes (mem (host_ v)) da n; enc_int (Meta.val_len m1)].
Proof.
  intros Hctx Hcmd Hma Hda Hnum Hctl Hsimple Hpush Hreq Hu Hblk.
  destruct (recv_values_elems (Message.mk m1 []) da n (host_ v) Hblk Hu eq_refl) as (l & msg & h & Hrv & Hm & Hel).
  exists (i32 (GetPackMetaLen m1 + l)), msg, (v <| host_ := h |>). split; [|exact (conj Hm Hel)].
  unfold recv_data, IsValidPushpull. cbn [Message.meta]. rewrite Hctl, Hsimple, Hcmd, Hctx. cbn [andb negb Z.eqb].
  rewrite Hpush, Hreq. unfold RecvPushRequest. cbn [Message.meta]. rewrite Hpush, Hreq.
  cbn [andb bc_data_num bc_meta_buffer bc_gpu_data_buffer answer_ctx].
  rewrite (proj2 (Z.leb_le _ _) Hnum), (proj2 (Z.eqb_neq _ _) Hma), (proj2 (Z.eqb_neq _ _) Hda). cbn [negb].
  rewrite Hrv. reflexivity.
Qed.

Lemma recv_push v c ep req ma da m rest :
  let m0 := Meta.default <| Meta.recver := my_id v |> <| Meta.sender := node_id ep |> in
  recv_buffers_ v = mkNotification c (answer_ctx req ma da) 0 :: rest → get_endpoint c v = Ok ep →
  is_server_ ep = true → ma ≠ 0 → da ≠ 0 → st_meta_len req = GetPackMetaLen m → 2 ≤ st_data_num req →
  holds_meta (host_ v) ma m → meta_wf m → Control.empty (Meta.control m) = true → Meta.simple_app m = false →
  Meta.push m = true → Meta.request m = true → 0 ≤ Meta.val_len m →
  (da, Meta.val_len m) ∈ blocks (host_ v) →
  ∃ l msg v', RecvMsg pagesize malloc v = Ok (l, msg, v') ∧ Message.meta msg = transmitted false m m0 ∧
    map SArray.elems (Message.data msg) =
      [enc_u64 (Meta.key m); read_bytes (mem (host_ v)) da (Z.to_nat (Meta.val_len m)); enc_int (Meta.val_len m)].
Proof.
  intros m0 Hq Hep Hsrv Hma Hda Hlen Hnum (old & Hbs & Hold) Hwf Hctl Hsimple Hpush Hreq Hvl Hblk.
  pose proof Hwf as (Hi & _ & _ & Hs & _).
  assert (in_s 32 (Meta.val_len m)) as Hvr by (apply (proj1 (Forall_forall _ _) Hi); do 7 right; left).
  set (m1 := transmitted false m m0). set (v1 := v <| recv_buffers_ := rest |>).
  assert (u32 (Meta.val_len m1) = Z.of_nat (Z.to_nat (Meta.val_len m))) as Hu.
  { change (Meta.val_len m1) with (Meta.val_len m). rewrite uwrap_small by (unfold in_s in Hvr; word_lia). lia. }
  rewrite <-(Z2Nat.id _ Hvl) in Hblk.
  destruct (recv_push_data v1 (mkNotification c (answer_ctx req ma da) 0) ma da req m1 _ eq_refl eq_refl Hma Hda Hnum Hctl Hsimple Hpush Hreq Hu Hblk)
    as (l & msg & v' & Hrv & Hm & Hel).
  assert (UnpackMeta false (packed false m old) m0 = Ok m1) as Hunpack by (apply unpack_parts; done).
  exists l, msg, v'. split; [|split; [exact Hm|exact Hel]].
  unfold RecvMsg. rewrite Hq. fold v1. cbn [nt_conn nt_ctx].
  assert (get_endpoint c v1 = Ok ep) as Hep1 by exact Hep.
  rewrite (bind_eq _ _ _ Hep1), Hsrv. cbn [bc_meta_buffer answer_ctx bc_meta_len].
  rewrite (proj2 (Z.eqb_neq _ _) Hma). cbn [negb]. change (host_ v1) with (host_ v).
  pose proof (GetPackMetaLen_pos m Hwf). pose proof (GetPackMetaLen_below m).
  rewrite Hlen, (swrap_small 32 (GetPackMetaLen m)) by (lia || word_lia). cbv zeta. rewrite Hbs.
  destruct (read_packed_header m old Hwf) as [Hhead Hsize]. rewrite (bool_decide_eq_true_2 _ Hsize), Hhead.
  cbn [from_option_or mbind result_bind]. rewrite slaves_arrived_single. cbn [negb].
  change (my_id v1) with (my_id v). fold m0. rewrite (bind_eq _ _ _ Hunpack). exact Hrv.
Qed.

(** ** The steps of two nodes *)
Definition view (s : system) (x y : Z) (vx vy : RDMAVan.t) (qx qy : list completion) : Prop :=
  x ≠ y ∧ vans s x = vx ∧ vans s y = vy ∧ cqs s x = qx ∧ cqs s y = qy.

Lemma view_sym s x y vx vy qx qy : view s x y vx vy qx qy → view s y x vy vx qy qx.
Proof. unfold view. naive_solver. Qed.

#[local] Abbreviation run := (perform pagesize malloc mr_keys QP_NUM).
#[local] Abbreviation run_all := (perform_all pagesize malloc mr_keys QP_NUM).

Lemma view_send s x y vx vy qx qy msg n v :
  view s x y vx vy qx qy → SendMsg pagesize malloc mr_keys QP_NUM msg vx = Ok (n, v) →
  ∃ s', run (Sending x msg) s = Ok (s', None) ∧ view s' x y v vy qx qy.
Proof.
  intros (Hne & <- & <- & <- & <-) H. simpl. rewrite (bind_eq _ _ _ H). eexists; split; [reflexivity|].
  split_and!; simpl; rewrite ?upd_eq, ?upd_ne by congruence; done.
Qed.

Lemma view_poll s x y vx vy wc qx qy v :
  view s x y vx vy (wc :: qx) qy → PollCQ pagesize malloc mr_keys QP_NUM wc vx = Ok v →
  ∃ s', run (Polling x) s = Ok (s', None) ∧ view s' x y v vy qx qy.
Proof.
  intros (Hne & <- & <- & Hq & <-) H. simpl. rewrite Hq, (bind_eq _ _ _ H). eexists; split; [reflexivity|].
  split_and!; simpl; rewrite ?upd_eq, ?upd_ne by congruence; done.
Qed.

Lemma view_recv s x y vx vy qx qy n msg v :
  view s x y vx vy qx qy → RecvMsg pagesize malloc vx = Ok (n, msg, v) →
  ∃ s', run (Receiving x) s = Ok (s', Some msg) ∧ view s' x y v vy qx qy.
Proof.
  intros (Hne & <- & <- & <- & <-) H. simpl. rewrite (bind_eq _ _ _ H). eexists; split; [reflexivity|].
  split_and!; simpl; rewrite ?upd_eq, ?upd_ne by congruence; done.
Qed.

Lemma view_execute s x y vx vy qx qy c qp w l v wcs d :
  view s x y vx vy qx qy → posted_on c vx = (qp, w) :: l → peer c = y →
  nic_execute w c (other_end x c) (host_ vx) vy = Ok (v, wcs, d) →
  ∃ s', run (Executing x c) s = Ok (s', None) ∧ view s' x y (set_posted c l vx) v (qx ++ [d]) (qy ++ wcs).
Proof.
  intros (Hne & <- & <- & <- & <-) Hp Hc H. simpl. rewrite Hp, Hc.
  rewrite (upd_ne _ x) by congruence. rewrite (bind_eq _ _ _ H). eexists; split; [reflexivity|].
  split_and!; simpl; rewrite ?upd_eq, ?upd_ne, ?upd_eq by congruence; done.
Qed.

Lemma get_set_same c ep v : get_endpoint c (set_endpoint c ep v) = Ok ep.
Proof. apply get_set_endpoint. by left. Qed.

Lemma posted_on_Ok c ep v : get_endpoint c v = Ok ep → posted_on c v = posted ep.
Proof. unfold posted_on. by intros ->. Qed.

Lemma set_posted_Ok c ep l v : get_endpoint c v = Ok ep → set_posted c l v = set_endpoint c (ep <| posted := l |>) v.
Proof. unfold set_posted. by intros ->. Qed.

(** Nothing is on the way between [x] and server [y], and the key is new to
    both. *)
Record idle_pair (s : system) (x y key : Z) (epx epy : Endpoint.t) (i : Z) : Prop := {
  ip_cqs : cqs s x = [] ∧ cqs s y = [];
  ip_out : get_endpoint (Out y) (vans s x) = Ok epx;
  ip_in : get_endpoint (In x) (vans s y) = Ok epy;
  ip_posted : posted epx = [] ∧ posted epy = [];
  ip_ctx : free_start_ctx epx ≠ 0%nat ∧ free_reply_ctx epy ≠ 0%nat;
  ip_single : multi_qp_ epx = false;
  ip_new : push_addr_ (vans s x) !! (key, y) = None;
  ip_unregistered : QueryRecvBuffer (vans s y) key (node_id epy) = Ok None;
  ip_backend : Endpoint.mem_allocator_ epy !! key = None;
  ip_pool : pool_ok (addr_pool_ (vans s y)) ∧ head (indices_ (addr_pool_ (vans s y))) = Some i;
  ip_index : is_slave i = false;
  ip_received : recv_buffers_ (vans s y) = []
}.

(** The values are where the message says, in memory in use. *)
Definition in_memory (h : host) (vs : SArray.t byte) : Prop :=
  read_bytes (mem h) (SArray.ptr_ vs) (length (SArray.elems vs)) = SArray.elems vs ∧
  ∃ a k, (a, k) ∈ blocks h ∧ a ≤ SArray.ptr_ vs ∧ SArray.ptr_ vs + SArray.size vs ≤ a + k.

(** From the announcement to the message. *)
Definition push_schedule (x y : Z) (msg : Message.t) : list action :=
  [Sending x msg; Executing x (Out y); Polling y; Executing y (In x); Polling x; Polling x;
   Executing x (Out y); Executing x (Out y); Polling y; Polling y; Receiving y].

Lemma run_cons a l s s1 s2 o ms :
  run a s = Ok (s1, o) → run_all l s1 = Ok (s2, ms) → run_all (a :: l) s = Ok (s2, option_list o ++ ms).
Proof. intros H1 H2. cbn [perform_all]. rewrite (bind_eq _ _ _ H1). cbn [fst snd]. by rewrite (bind_eq _ _ _ H2). Qed.

Lemma run_app l l' s s1 s2 ms ms' :
  run_all l s = Ok (s1, ms) → run_all l' s1 = Ok (s2, ms') → run_all (l ++ l') s = Ok (s2, ms ++ ms').
Proof.
  revert s ms. induction l as [|a l IH]; intros s ms; simpl.
  - by intros [= <- <-].
  - intros ([s' o] & Ha & H)%bind_Ok H'. simpl in H. apply bind_Ok in H as ([s'' ms''] & H & [= <- <-]).
    rewrite (bind_eq _ _ _ Ha). cbn [fst snd]. rewrite (bind_eq _ _ _ (IH _ _ H H')). simpl. by rewrite app_assoc.
Qed.

(** Steps that are not those of an application. *)
Definition internal (a : action) : bool := match a with Sending _ _ | Registering _ _ => false | _ => true end.

Lemma run_reachable l s s' ms :
  reachable pagesize malloc mr_keys QP_NUM server s → forallb internal l = true → run_all l s = Ok (s', ms) →
  reachable pagesize malloc mr_keys QP_NUM server s'.
Proof.
  revert s ms. induction l as [|a l IH]; intros s ms Hr Hl; simpl; [by intros [= <- _]|].
  apply andb_true_iff in Hl as [Ha Hl]. intros ([s1 o] & H1 & H)%bind_Ok.
  apply bind_Ok in H as ([s2 ms2] & H2 & [= <- _]). eapply (IH s1); [|done|exact H2].
  apply (reach_step _ _ _ _ _ s); [done|]. eapply perform_step; [|exact H1]. by destruct a.
Qed.

(** *** The announcement *)

(** What the sender keeps while it waits. *)
Record waiting (v v0 : RDMAVan.t) (y : Z) (msg : Message.t) (ks vs : SArray.t byte) (a : Z)
    (b : MessageBuffer) (mr : ibv_mr) : Prop := {
  wt_cache : msgbuf_cache_ v !! a = Some (keyed_msg msg ks);
  wt_buf : get_buf a v = Ok b;
  wt_len : inline_len b = GetPackMetaLen (Message.meta msg);
  wt_mrs : mrs b = [(mr, SArray.size vs)];
  wt_addr : mr_addr mr = SArray.ptr_ vs;
  wt_mr : is_Some (mr_ (mem_allocator_ v) !! inline_buf b);
  wt_meta : holds_meta (host_ v) (inline_buf b) (Message.meta (keyed_msg msg ks));
  wt_vals : read_bytes (mem (host_ v)) (SArray.ptr_ vs) (length (SArray.elems vs)) = SArray.elems vs;
  wt_out : ∃ ep, get_endpoint (Out y) v = Ok ep ∧ posted ep = [] ∧ multi_qp_ ep = false
}.

Definition announcement (msg : Message.t) (ks : SArray.t byte) (a : Z) : RendezvousStart :=
  mkStart (GetPackMetaLen (Message.meta msg)) (Z.of_nat (length (Message.data msg)))
    (map SArray.size (Message.data msg)) a (DecodeKey ks).

Lemma announce_phase s x msg ks vs epx epy i vx vy :
  let y := Meta.recver (Message.meta msg) in
  node_ok mr_keys server x (vans s) (vans s x) → push_ready msg ks vs →
  roomy (GetPackMetaLen (Message.meta msg)) → y ≠ kEmpty →
  idle_pair s x y (DecodeKey ks) epx epy i → in_memory (host_ (vans s x)) vs → view s x y vx vy [] [] →
  ∃ s1 s2 a v b mr, run (Sending x msg) s = Ok (s1, None) ∧ run (Executing x (Out y)) s1 = Ok (s2, None) ∧
    view s2 x y v vy [SendDone (Out y) false] [RecvStart (In x) (announcement msg ks a)] ∧
    waiting v vx y msg ks vs a b mr.
Proof.
  intros y Hok Hready Hroom Hy Hidle [Hvals (ba & bk & Hblk & Hlo & Hhi)] Hview. pose proof Hview as (Hne & Hvx & Hvy & _ & _).
  destruct (free_start_ctx epx) as [|n0] eqn:Hctx; [destruct (proj1 (ip_ctx _ _ _ _ _ _ _ Hidle) Hctx)|].
  destruct (send_first (vans s x) x (vans s) msg ks vs epx n0 Hok Hready Hroom
    (proj1 (ip_posted _ _ _ _ _ _ _ Hidle)) Hy (ip_out _ _ _ _ _ _ _ Hidle) Hctx
    (ip_new _ _ _ _ _ _ _ Hidle)) as (tl & k & al & h & mm & mr & Hsend & Hk & Hmeta & Hal & Hmr & Hap).
  set (p := malloc (blocks (host_ (vans s x))) k) in *. set (a := Z.of_nat (length (msg_bufs (vans s x))) + 1) in *.
  fold (announcement msg ks a) in Hsend. set (b := mkMessageBuffer _ p _ _) in Hsend.
  set (ep1 := enqueue 0 _ _) in Hsend.
  match type of Hsend with _ = Ok (_, set_endpoint _ _ ?w) => set (w1 := w) in Hsend end.
  set (v1 := set_endpoint (Out y) ep1 w1). change (SendMsg pagesize malloc mr_keys QP_NUM msg (vans s x) = Ok (tl, v1)) in Hsend.
  rewrite Hvx in Hsend.
  destruct (view_send s x y vx vy [] [] msg tl v1 Hview Hsend) as (s1 & Hrun1 & Hview1).
  assert (get_endpoint (Out y) v1 = Ok ep1) as Hep1 by apply get_set_same.
  assert (posted_on (Out y) v1 = [(0, PostStart (announcement msg ks a))]) as Hp1.
  { rewrite (posted_on_Ok _ _ _ Hep1). unfold ep1. simpl. by rewrite (proj1 (ip_posted _ _ _ _ _ _ _ Hidle)). }
  destruct (view_execute s1 x y v1 vy [] [] (Out y) 0 _ [] vy _ _ Hview1 Hp1 eq_refl eq_refl) as (s2 & Hrun2 & Hview2).
  rewrite (set_posted_Ok _ _ _ _ Hep1) in Hview2.
  exists s1, s2, a, (set_endpoint (Out y) (ep1 <| posted := [] |>) v1), b, mr.
  split; [exact Hrun1|]. split; [exact Hrun2|]. split; [exact Hview2|]. constructor.
  - change (<[a := keyed_msg msg ks]> (msgbuf_cache_ (vans s x)) !! a = Some (keyed_msg msg ks)). apply lookup_insert_eq.
  - change (get_buf a (add_message b (keyed_msg msg ks) (vans s x)) = Ok b). apply get_buf_add. right.
    exact (conj eq_refl eq_refl).
  - reflexivity.
  - reflexivity.
  - exact Hmr.
  - exact Hal.
  - exact Hmeta.
  - change (read_bytes (mem h) (SArray.ptr_ vs) (length (SArray.elems vs)) = SArray.elems vs).
    rewrite Hap; [exact Hvals|]. destruct (Hmalloc (blocks (host_ (vans s x))) k) as [_ Hfresh].
    { pose proof (GetPackMetaLen_pos _ (pr_wf _ _ _ Hready)) as Hpos.
      assert (0 < GetPackMetaLen (Message.meta msg)) by exact Hpos. lia. }
    specialize (Hfresh _ _ Hblk). fold p in Hfresh. unfold apart, SArray.size in *. lia.
  - exists (ep1 <| posted := [] |>). split; [apply get_set_same|]. split; [done|].
    exact (ip_single _ _ _ _ _ _ _ Hidle).
Qed.

(** *** The answer *)

(** What the server keeps for the message. *)
Record prepared (v v0 : RDMAVan.t) (x : Z) (req : RendezvousStart) (len : Z) (epy : Endpoint.t) (i ma da k : Z) : Prop := {
  pp_block : (da, len) ∈ blocks (host_ v);
  pp_fit : st_meta_len req ≤ k;
  pp_apart : apart ma k da len;
  pp_addresses : ma ≠ 0 ∧ da ≠ 0;
  pp_pool : GetAddress i (addr_pool_ v) = Ok (answer_ctx req ma da);
  pp_in : ∃ ep, get_endpoint (In x) v = Ok ep ∧ is_server_ ep = true ∧ node_id ep = node_id epy;
  pp_received : recv_buffers_ v = [];
  pp_id : my_id v = my_id v0
}.

Lemma announcement_sizes msg ks vs a :
  push_ready msg ks vs →
  let req := announcement msg ks a in
  (length (st_data_len req) ≤ 4)%nat ∧ 0 < total (st_data_len req) ∧ st_data_len req !! 1%nat = Some (SArray.size vs) ∧
  2 ≤ st_data_num req ∧ 0 < st_meta_len req.
Proof.
  intros [(rest & Hd & Hrest) Hsz _ Hvals _ _ _ _ Hwf _] req. pose proof (GetPackMetaLen_pos _ Hwf) as Hpos.
  assert (st_data_len req !! 1%nat = Some (SArray.size vs)) as H1 by (simpl; rewrite Hd; done).
  assert (length (st_data_len req) ≤ 4)%nat as H4 by (simpl; rewrite Hd; simpl; rewrite length_map; lia).
  split_and!; [done| |done|simpl; rewrite Hd; simpl; lia|exact Hpos].
  apply (total_pos _ 1%nat (SArray.size vs)); [|done|done|lia]. simpl. apply Forall_fmap, Forall_forall.
  intros sa Hin. specialize (Hsz sa Hin). simpl. unfold SArray.size in *. lia.
Qed.

Lemma answer_phase s x y msg ks vs epx epy i v vy a s0 :
  push_ready msg ks vs → roomy (GetPackMetaLen (Message.meta msg)) → idle_pair s0 x y (DecodeKey ks) epx epy i → vans s0 y = vy → is_server_ epy = true →
  view s x y v vy [SendDone (Out y) false] [RecvStart (In x) (announcement msg ks a)] →
  ∃ s1 s2 v' ma da k mk dk, run (Polling y) s = Ok (s1, None) ∧ run (Executing y (In x)) s1 = Ok (s2, None) ∧
    view s2 x y v v' [SendDone (Out y) false; RecvReply (Out y) (mkReply ma mk da dk a i)] [SendDone (In x) true] ∧
    prepared v' vy x (announcement msg ks a) (SArray.size vs) epy i ma da k.
Proof.
  intros Hready Hroom Hidle <- Hsrv Hview. set (req := announcement msg ks a) in *. set (vy := vans s0 y) in *.
  destruct (announcement_sizes msg ks vs a Hready) as (H4 & Ht & Hl & Hnum & Hpos). fold req in H4, Ht, Hl, Hnum, Hpos.
  destruct (free_reply_ctx epy) as [|r0] eqn:Hctx; [destruct (proj2 (ip_ctx _ _ _ _ _ _ _ Hidle) Hctx)|].
  destruct (ip_pool _ _ _ _ _ _ _ Hidle) as [Hpool Hi]. fold vy in Hpool, Hi.
  destruct (indices_ (addr_pool_ vy)) as [|j rest] eqn:Hind; [discriminate Hi|]. injection Hi as ->.
  assert (0 ≤ SArray.size vs) as H0 by (unfold SArray.size; lia).
  destruct (answer_first _ vy (In x) epy req (SArray.size vs) r0 i rest Hroom (Z.lt_le_incl _ _ Hpos)
    (proj2 (ip_posted _ _ _ _ _ _ _ Hidle)) (ip_in _ _ _ _ _ _ _ Hidle) Hsrv Hctx Hpos
    (pr_size _ _ _ Hready) H4 Ht Hl H0 (ip_unregistered _ _ _ _ _ _ _ Hidle) (ip_backend _ _ _ _ _ _ _ Hidle) Hpool Hind)
    as (k & al & h & pool & ep' & mk & dk & Hstart & Hk & Hblk & Hget & Hpost & Hs' & Hid).
  set (ma := malloc (blocks (host_ vy)) k) in *. set (da := malloc _ (SArray.size vs)) in *.
  match type of Hstart with _ = Ok (set_endpoint _ _ ?w) => set (w1 := w) in Hstart end.
  apply view_sym in Hview. destruct (view_poll s y x vy v _ [] _ _ Hview Hstart) as (s1 & Hrun1 & Hview1).
  assert (get_endpoint (In x) (set_endpoint (In x) ep' w1) = Ok ep') as Hep' by apply get_set_same.
  assert (posted_on (In x) (set_endpoint (In x) ep' w1) = [(0, PostReply (mkReply ma mk da dk a i))]) as Hp'
    by (rewrite (posted_on_Ok _ _ _ Hep'), Hpost, (proj2 (ip_posted _ _ _ _ _ _ _ Hidle)); done).
  destruct (view_execute s1 y x _ v [] _ (In x) 0 _ [] v _ _ Hview1 Hp' eq_refl eq_refl) as (s2 & Hrun2 & Hview2).
  rewrite (set_posted_Ok _ _ _ _ Hep') in Hview2. apply view_sym in Hview2.
  exists s1, s2, (set_endpoint (In x) (ep' <| posted := [] |>) (set_endpoint (In x) ep' w1)), ma, da, k, mk, dk.
  split; [exact Hrun1|]. split; [exact Hrun2|]. split; [exact Hview2|].
  destruct (Hmalloc (blocks (host_ vy)) k ltac:(lia)) as [Hma _]. fold ma in Hma.
  destruct (Hmalloc ((ma, k) :: blocks (host_ vy)) (SArray.size vs) H0) as [Hda Hap]. fold da in Hda, Hap.
  constructor.
  - change ((da, SArray.size vs) ∈ blocks h). rewrite Hblk. left.
  - exact Hk.
  - specialize (Hap ma k ltac:(left)). unfold apart in *. lia.
  - lia.
  - exact Hget.
  - exists (ep' <| posted := [] |>). split; [apply get_set_same|]. exact (conj Hs' Hid).
  - exact (ip_received _ _ _ _ _ _ _ Hidle).
  - reflexivity.
Qed.

(** *** The writes *)

(** The two work requests of a message. *)
Definition value_write (vs : SArray.t byte) (mr : ibv_mr) (da dk : Z) : Z * work :=
  (0, PostWrite (mr_addr mr) (SArray.size vs) (lkey mr) da dk None None).
Definition meta_write (h : host) (b : MessageBuffer) (mrp : ibv_mr) (ma mk i : Z) : Z * work :=
  (0, PostWrite (inline_buf b) (inline_len b) (lkey mrp) ma mk (Some i)
        (Some (read_bytes (mem h) (inline_buf b) (Z.to_nat (inline_len b))))).

Lemma waiting_endpoint v v0 y msg ks vs a b mr ep :
  waiting v v0 y msg ks vs a b mr → posted ep = [] → multi_qp_ ep = false →
  waiting (set_endpoint (Out y) ep v) v0 y msg ks vs a b mr.
Proof.
  intros [] Hp Hm. constructor; [exact wt_cache0|exact wt_buf0|exact wt_len0|exact wt_mrs0|exact wt_addr0
    |exact wt_mr0|exact wt_meta0|exact wt_vals0|].
  exists ep. split; [apply get_set_same|exact (conj Hp Hm)].
Qed.

Lemma reply_phase s x msg ks vs v vx vy a b mr ma mk da dk i qy :
  let y := Meta.recver (Message.meta msg) in
  push_ready msg ks vs → roomy (GetPackMetaLen (Message.meta msg)) → waiting v vx y msg ks vs a b mr →
  view s x y v vy [SendDone (Out y) false; RecvReply (Out y) (mkReply ma mk da dk a i)] qy →
  ∃ s1 s2 v' mrp ep, run (Polling x) s = Ok (s1, None) ∧ run (Polling x) s1 = Ok (s2, None) ∧
    view s2 x y v' vy [] qy ∧ host_ v' = host_ v ∧ get_endpoint (Out y) v' = Ok ep ∧
    posted ep = [value_write vs mr da dk; meta_write (host_ v) b mrp ma mk i].
Proof.
  intros y Hready Hroom Hwait Hview. destruct (wt_out _ _ _ _ _ _ _ _ _ Hwait) as (ep & Hep & Hp & Hm).
  set (ep1 := ep <| free_start_ctx ::= S |>). set (v1 := set_endpoint (Out y) ep1 v).
  assert (PollCQ pagesize malloc mr_keys QP_NUM (SendDone (Out y) false) v = Ok v1) as Hpoll.
  { unfold PollCQ. rewrite (bind_eq _ _ _ Hep). reflexivity. }
  destruct (view_poll s x y v vy _ _ qy v1 Hview Hpoll) as (s1 & Hrun1 & Hview1).
  pose proof (waiting_endpoint v vx y msg ks vs a b mr ep1 Hwait Hp Hm) as Hwait1. fold v1 in Hwait1.
  destruct (wt_mr _ _ _ _ _ _ _ _ _ Hwait1) as [mrp Hmrp].
  destruct (pr_data _ _ _ Hready) as (rest & Hd & _).
  assert (0 ≤ inline_len b < 2 ^ 32) as Hlen.
  { rewrite (wt_len _ _ _ _ _ _ _ _ _ Hwait). pose proof (GetPackMetaLen_pos _ (pr_wf _ _ _ Hready)) as Hpos.
    assert (0 < GetPackMetaLen (Message.meta msg)) by exact Hpos.
    pose proof (GetPackMetaLen_below (Message.meta msg)). lia. }
  assert (Message.data (keyed_msg msg ks) !! 1%nat = Some vs) as Hvs by (simpl; rewrite Hd; reflexivity).
  assert (SArray.size vs < 2 ^ 32) as Hsz by (pose proof (pr_vals _ _ _ Hready); lia).
  destruct (reply_writes v1 a (keyed_msg msg ks) vs b mr mrp ep1 ma mk da dk i ltac:(by rewrite (wt_len _ _ _ _ _ _ _ _ _ Hwait)) Hp
    (wt_cache _ _ _ _ _ _ _ _ _ Hwait1)
    (wt_buf _ _ _ _ _ _ _ _ _ Hwait1) (wt_mrs _ _ _ _ _ _ _ _ _ Hwait1) (pr_valid _ _ _ Hready) (pr_push _ _ _ Hready)
    (pr_request _ _ _ Hready) Hvs Hsz Hlen Hmrp (get_set_same _ _ _) Hm) as (v2 & ep2 & Hreply & Hhost & Hep2 & Hpost).
  destruct (view_poll s1 x y v1 vy _ _ qy v2 Hview1 Hreply) as (s2 & Hrun2 & Hview2).
  exists s1, s2, v2, mrp, ep2. split_and!; [exact Hrun1|exact Hrun2|exact Hview2|exact Hhost|exact Hep2|].
  rewrite Hpost. change (posted ep1) with (posted ep). rewrite Hp. reflexivity.
Qed.

Context (Hq : 0 < QP_NUM) (Hkeys : keys_distinct mr_keys).

Lemma execute_phase s x y v vy qx qy ep w local len lk raddr rk imm inl l :
  reachable pagesize malloc mr_keys QP_NUM server s → view s x y v vy qx qy →
  get_endpoint (Out y) v = Ok ep → posted ep = (0, w) :: l → w = PostWrite local len lk raddr rk imm inl →
  ∃ s', run (Executing x (Out y)) s = Ok (s', None) ∧
    view s' x y (set_endpoint (Out y) (ep <| posted := l |>) v)
      (vy <| host_ ::= (λ h, h <| mem ::= write_bytes raddr (match inl with Some bs => bs
         | None => read_bytes (mem (host_ v)) local (Z.to_nat len) end) |>) |>)
      (qx ++ [WriteDone]) (qy ++ match imm with Some i => [RecvImm (In x) i] | None => [] end).
Proof.
  intros Hreach Hview Hep Hp ->. pose proof Hview as (_ & Hx & Hy & _ & _).
  assert (posted_on (Out y) v = posted ep) as Hpo by (by apply posted_on_Ok). rewrite Hp in Hpo.
  destruct (posted_executes mr_keys server Hkeys s x (Out y) 0 (PostWrite local len lk raddr rk imm inl))
    as (r & Hr); [by eapply reachable_ok|rewrite Hx, Hpo; left|].
  simpl peer in Hr. rewrite Hx, Hy in Hr. pose proof (execute_write _ _ _ _ _ _ _ _ _ _ _ _ Hr) as E.
  rewrite E in Hr. destruct (view_execute s x y v vy qx qy (Out y) 0 _ l _ _ _ Hview Hpo eq_refl Hr) as (s' & Hrun & Hview').
  exists s'. split; [exact Hrun|]. by rewrite (set_posted_Ok _ _ _ _ Hep) in Hview'.
Qed.

(** *** The message *)
Lemma receive_phase s x y v vy0 vy qx req len epy i ma da k m bs :
  prepared vy vy0 x req len epy i ma da k → is_slave i = false →
  view s x y v vy qx [SendDone (In x) true; RecvImm (In x) i] →
  holds_meta (host_ vy) ma m → read_bytes (mem (host_ vy)) da (Z.to_nat len) = bs →
  st_meta_len req = GetPackMetaLen m → 2 ≤ st_data_num req → Meta.val_len m = len → 0 ≤ len →
  meta_wf m → Control.empty (Meta.control m) = true → Meta.simple_app m = false →
  Meta.push m = true → Meta.request m = true →
  ∃ s1 s2 s3 msg, run (Polling y) s = Ok (s1, None) ∧ run (Polling y) s1 = Ok (s2, None) ∧
    run (Receiving y) s2 = Ok (s3, Some msg) ∧
    Message.meta msg = transmitted false m (Meta.default <| Meta.recver := my_id vy0 |> <| Meta.sender := node_id epy |>) ∧
    map SArray.elems (Message.data msg) = [enc_u64 (Meta.key m); bs; enc_int len].
Proof.
  intros Hprep Hslave Hview Hmeta Hvals Hml Hnum Hlen H0 Hwf Hctl Hsimple Hpush Hreq. apply view_sym in Hview.
  destruct (pp_in _ _ _ _ _ _ _ _ _ _ Hprep) as (ep & Hep & Hsrv & Hid).
  set (ep1 := ep <| free_reply_ctx ::= S |>). set (v1 := set_endpoint (In x) ep1 vy).
  assert (PollCQ pagesize malloc mr_keys QP_NUM (SendDone (In x) true) vy = Ok v1) as Hpoll1
    by (unfold PollCQ; rewrite (bind_eq _ _ _ Hep); reflexivity).
  destruct (view_poll s y x vy v _ _ qx v1 Hview Hpoll1) as (s1 & Hrun1 & Hview1).
  set (nt := mkNotification (In x) (answer_ctx req ma da) 0). set (v2 := v1 <| recv_buffers_ := [nt] |>).
  assert (PollCQ pagesize malloc mr_keys QP_NUM (RecvImm (In x) i) v1 = Ok v2) as Hpoll2.
  { unfold PollCQ, on_imm. rewrite Hslave. rewrite (bind_eq _ _ _ (pp_pool _ _ _ _ _ _ _ _ _ _ Hprep)), imm_cmd_zero.
    transitivity (Ok (v1 <| recv_buffers_ := recv_buffers_ vy ++ [nt] |>)); [reflexivity|].
    rewrite (pp_received _ _ _ _ _ _ _ _ _ _ Hprep). reflexivity. }
  destruct (view_poll s1 y x v1 v _ _ qx v2 Hview1 Hpoll2) as (s2 & Hrun2 & Hview2).
  destruct (pp_addresses _ _ _ _ _ _ _ _ _ _ Hprep) as [Hma Hda].
  pose proof (pp_block _ _ _ _ _ _ _ _ _ _ Hprep) as Hblk. rewrite <-Hlen in Hblk, H0, Hvals.
  destruct (recv_push v2 (In x) ep1 req ma da m [] eq_refl (get_set_same (In x) ep1 vy) Hsrv Hma Hda Hml Hnum Hmeta Hwf Hctl Hsimple
    Hpush Hreq H0 Hblk) as (n & msg & v3 & Hrecv & Hmsg & Hel).
  destruct (view_recv s2 y x v2 v [] qx n msg v3 Hview2 Hrecv) as (s3 & Hrun3 & _).
  exists s1, s2, s3, msg. split; [exact Hrun1|]. split; [exact Hrun2|]. split; [exact Hrun3|].
  split; [|rewrite Hel; change (host_ v2) with (host_ vy); rewrite Hvals, Hlen; reflexivity].
  rewrite Hmsg. change (my_id v2) with (my_id vy). change (node_id ep1) with (node_id ep).
  rewrite (pp_id _ _ _ _ _ _ _ _ _ _ Hprep), Hid. reflexivity.
Qed.

Lemma push_ready_sendable s x msg ks vs :
  push_ready msg ks vs → server (Meta.recver (Message.meta msg)) = true → sendable mr_keys server s x msg.
Proof.
  intros Hr Hs. destruct (pr_data _ _ _ Hr) as (rest & Hd & _). split_and!.
  - exact (GetPackMetaLen_pos _ (pr_wf _ _ _ Hr)).
  - rewrite Hd. intros ? [= <-]. exact (pr_key _ _ _ Hr).
  - unfold is_pull_request. rewrite (pr_push _ _ _ Hr), andb_false_r. discriminate 1.
  - intros _. split; [exact (pr_sizes _ _ _ Hr)|]. split; [intros _ _; exact Hs|].
    intros Hp. rewrite (pr_push _ _ _ Hr) in Hp. discriminate Hp.
Qed.

(** The memory of the server after the two writes. *)
Lemma written_memory (m : memory) ma k da bv bm n :
  apart ma k da (Z.of_nat (length bv)) → Z.of_nat (length bm) ≤ k → n = length bm →
  let m' := write_bytes ma bm (write_bytes da bv m) in
  read_bytes m' ma n = bm ∧ read_bytes m' da (length bv) = bv.
Proof.
  intros Hap Hk -> m'. split; [apply read_write|]. unfold m'. rewrite read_write_apart; [apply read_write|].
  unfold apart in *. lia.
Qed.

Lemma prepared_mem v v0 x req len epy i ma da k f :
  prepared v v0 x req len epy i ma da k →
  prepared (v <| host_ ::= (λ h, h <| mem ::= f |>) |>) v0 x req len epy i ma da k.
Proof. intros []. constructor; assumption. Qed.

(** From the posted writes to the message. *)
Lemma finish_phase s x msg ks vs v vx vy0 vy a b mr mrp ma mk da dk i k epy ep v' :
  let y := Meta.recver (Message.meta msg) in
  reachable pagesize malloc mr_keys QP_NUM server s → push_ready msg ks vs → waiting v vx y msg ks vs a b mr →
  prepared vy vy0 x (announcement msg ks a) (SArray.size vs) epy i ma da k → is_slave i = false →
  view s x y v' vy [] [SendDone (In x) true] → host_ v' = host_ v → get_endpoint (Out y) v' = Ok ep →
  posted ep = [value_write vs mr da dk; meta_write (host_ v) b mrp ma mk i] →
  ∃ s' msg', run_all [Executing x (Out y); Executing x (Out y); Polling y; Polling y; Receiving y] s = Ok (s', [msg']) ∧
    Message.meta msg' = transmitted false (Message.meta (keyed_msg msg ks))
      (Meta.default <| Meta.recver := my_id vy0 |> <| Meta.sender := node_id epy |>) ∧
    map SArray.elems (Message.data msg') = [enc_u64 (DecodeKey ks); SArray.elems vs; enc_int (SArray.size vs)].
Proof.
  intros y Hreach Hready Hwait Hprep Hslave V Hh Hep Hp.
  destruct (execute_phase s x y v' vy [] _ ep _ _ _ _ _ _ _ _ _ Hreach V Hep Hp eq_refl) as (s1 & R1 & V1).
  assert (reachable pagesize malloc mr_keys QP_NUM server s1) as Hreach1
    by (apply (reach_step _ _ _ _ _ s); [exact Hreach|]; exact (perform_step _ _ _ _ _ (Executing x (Out y)) _ _ _ I R1)).
  destruct (execute_phase s1 x y _ _ _ _ _ _ _ _ _ _ _ _ _ _ Hreach1 V1 (get_set_same _ _ _) eq_refl eq_refl)
    as (s2 & R2 & V2).
  rewrite Hh, (wt_addr _ _ _ _ _ _ _ _ _ Hwait) in V2. unfold SArray.size in V2. rewrite Nat2Z.id in V2.
  rewrite (wt_vals _ _ _ _ _ _ _ _ _ Hwait) in V2.
  destruct (wt_meta _ _ _ _ _ _ _ _ _ Hwait) as (old & Hpacked & Hold).
  pose proof (wt_len _ _ _ _ _ _ _ _ _ Hwait) as Hil. set (n := GetPackMetaLen (Message.meta msg)) in *.
  set (m := Message.meta (keyed_msg msg ks)) in *. change (GetPackMetaLen m) with n in Hpacked.
  rewrite Hil, Hpacked in V2. match type of V2 with view _ _ _ _ ?w _ _ => set (vy2 := w) in V2 end.
  pose proof (prepared_mem _ _ _ _ _ _ _ _ _ _ (write_bytes ma (packed false m old))
    (prepared_mem _ _ _ _ _ _ _ _ _ _ (write_bytes da (SArray.elems vs)) Hprep)) as Hprep2.
  pose proof (GetPackMetaLen_pos _ (pr_wf _ _ _ Hready)) as Hpos. assert (0 < n) as Hpos' by exact Hpos. clear Hpos.
  assert (length (packed false m old) = Z.to_nat n) as Hlen by (rewrite <-Hpacked; apply length_read).
  pose proof (pp_fit _ _ _ _ _ _ _ _ _ _ Hprep) as Hfit. change (n ≤ k) in Hfit.
  destruct (written_memory (mem (host_ vy)) ma k da (SArray.elems vs) (packed false m old) (Z.to_nat n)
    (pp_apart _ _ _ _ _ _ _ _ _ _ Hprep) ltac:(lia) (eq_sym Hlen)) as [Hm Hv].
  destruct (announcement_sizes msg ks vs a Hready) as (_ & _ & _ & Hnum & _).
  pose proof (pr_valid _ _ _ Hready) as Hvalid. unfold IsValidPushpull in Hvalid.
  apply andb_true_iff in Hvalid as [Hctl Hsimple%negb_true_iff].
  assert (0 ≤ SArray.size vs) as H0 by (unfold SArray.size; lia).
  assert (read_bytes (mem (host_ vy2)) da (Z.to_nat (SArray.size vs)) = SArray.elems vs) as Hv'
    by (unfold SArray.size; rewrite Nat2Z.id; exact Hv).
  destruct (receive_phase s2 x y _ vy0 vy2 _ (announcement msg ks a) (SArray.size vs) epy i ma da k m (SArray.elems vs)
    Hprep2 Hslave V2 (ex_intro _ old (conj Hm Hold)) Hv' eq_refl Hnum (pr_len _ _ _ Hready) H0
    (pr_wf _ _ _ Hready) Hctl Hsimple (pr_push _ _ _ Hready) (pr_request _ _ _ Hready))
    as (s3 & s4 & s5 & msg' & R3 & R4 & R5 & Hmsg & Hel).
  exists s5, msg'. split; [|exact (conj Hmsg Hel)].
  assert (run_all [] s5 = Ok (s5, [])) as R6 by reflexivity.
  exact (run_cons _ _ _ _ _ _ _ R1 (run_cons _ _ _ _ _ _ _ R2 (run_cons _ _ _ _ _ _ _ R3
    (run_cons _ _ _ _ _ _ _ R4 (run_cons _ _ _ _ _ _ _ R5 R6))))).
Qed.

(** C5. A push arrives: for the first push of a key between a node and an idle
    server, announcing, answering, writing and polling, in this order, bring the
    server a message with the sender's meta data, its key and the bytes of its
    values, where the verbs library takes the work requests: inline writes of the
    size of the meta data, and two at a time. *)
Theorem push_arrives s x msg ks vs epx epy i :
  let y := Meta.recver (Message.meta msg) in
  reachable pagesize malloc mr_keys QP_NUM server s → x ≠ y → y ≠ kEmpty → server y = true →
  push_ready msg ks vs → roomy (GetPackMetaLen (Message.meta msg)) → idle_pair s x y (DecodeKey ks) epx epy i → in_memory (host_ (vans s x)) vs →
  ∃ s' msg', run_all (push_schedule x y msg) s = Ok (s', [msg']) ∧
    Message.meta msg' = transmitted false (Message.meta (keyed_msg msg ks))
      (Meta.default <| Meta.recver := my_id (vans s y) |> <| Meta.sender := node_id epy |>) ∧
    map SArray.elems (Message.data msg') = [enc_u64 (DecodeKey ks); SArray.elems vs; enc_int (SArray.size vs)].
Proof.
  intros y Hreach Hne Hy Hserver Hready Hroom Hidle Hmem.
  pose proof (reachable_ok pagesize malloc mr_keys QP_NUM server Hpage Hmalloc Hq s Hreach) as Hok.
  destruct (ip_cqs _ _ _ _ _ _ _ Hidle) as [Hqx Hqy].
  assert (view s x y (vans s x) (vans s y) [] []) as Hview by exact (conj Hne (conj eq_refl (conj eq_refl (conj Hqx Hqy)))).
  destruct (announce_phase s x msg ks vs epx epy i _ _ (proj1 (proj2 Hok x)) Hready Hroom Hy Hidle Hmem Hview)
    as (s1 & s2 & a & v2 & b & mr & R1 & R2 & V2 & Hwait).
  assert (reachable pagesize malloc mr_keys QP_NUM server s1) as Hr1.
  { apply (reach_step _ _ _ _ _ s); [exact Hreach|]. eapply (perform_step _ _ _ _ _ (Sending x msg)); [|exact R1].
    exact (push_ready_sendable s x msg ks vs Hready Hserver). }
  assert (is_server_ epy = true) as Hsrv by (rewrite <-Hserver; exact (ok_incoming _ _ _ _ _ (proj1 (proj2 Hok y)) x epy (ip_in _ _ _ _ _ _ _ Hidle))).
  destruct (answer_phase s2 x y msg ks vs epx epy i v2 (vans s y) a s Hready Hroom Hidle eq_refl Hsrv V2)
    as (s3 & s4 & v4 & ma & da & k & mk & dk & R3 & R4 & V4 & Hprep).
  destruct (reply_phase s4 x msg ks vs v2 _ v4 a b mr ma mk da dk i _ Hready Hroom Hwait V4)
    as (s5 & s6 & v6 & mrp & ep6 & R5 & R6 & V6 & Hh6 & Hep6 & Hp6).
  assert (run_all [Executing x (Out y); Polling y; Executing y (In x); Polling x; Polling x] s1 = Ok (s6, [])) as R26.
  { assert (run_all [] s6 = Ok (s6, [])) as R7 by reflexivity.
    exact (run_cons _ _ _ _ _ _ _ R2 (run_cons _ _ _ _ _ _ _ R3 (run_cons _ _ _ _ _ _ _ R4
      (run_cons _ _ _ _ _ _ _ R5 (run_cons _ _ _ _ _ _ _ R6 R7))))). }
  assert (reachable pagesize malloc mr_keys QP_NUM server s6) as Hr6 by (eapply run_reachable; [exact Hr1| |exact R26]; reflexivity).
  destruct (finish_phase s6 x msg ks vs v2 _ (vans s y) v4 a b mr mrp ma mk da dk i k epy ep6 v6 Hr6 Hready Hwait Hprep
    (ip_index _ _ _ _ _ _ _ Hidle) V6 Hh6 Hep6 Hp6) as (s' & msg' & Rend & Hmsg & Hel).
  exists s', msg'. split; [|exact (conj Hmsg Hel)].
  exact (run_cons _ _ _ _ _ _ _ R1 (run_app _ _ _ _ _ _ _ R26 Rend)).
Qed.
End delivery.
