(* ===== verification/RdmaLimits.v ===== *)
(** * The pool of receive buffers only shrinks

    Every rendezvous takes an entry of the pool of [AddressPool], and no operation
    of the van gives one back: a node answers at most as many rendezvous as its
    pool has entries.  The entry of a pushed or pulled key is used again by the
    later messages of the key; a control message never uses one again. *)

From S2P Require Import Prelude Message Env Postoffice Codec RdmaMemory RdmaTransport RdmaVan RdmaFacts RdmaSystem RdmaSafety RdmaWrites RdmaDelivery.
Import Endpoint RDMAVan.

Section limits.
Context {verbs : Verbs}.
Context (pagesize : Z) (malloc : list (Z * Z) → Z → Z) (mr_keys : nat → Z * Z) (QP_NUM : Z).

#[local] Abbreviation free v := (length (indices_ (addr_pool_ v))).

Lemma StoreAddress_free {T} (x : T) p i p' : StoreAddress x p = Ok (i, p') → length (indices_ p) = S (length (indices_ p')).
Proof.
  unfold StoreAddress. destruct (indices_ p); [discriminate|]. intros (o & _ & H)%bind_Ok.
  destruct o; [discriminate H|]. by injection H as _ <-.
Qed.

Lemma set_endpoint_pool c ep v : addr_pool_ (set_endpoint c ep v) = addr_pool_ v.
Proof. by destruct c. Qed.

Lemma reply_with_free req ctx a1 k1 a2 k2 p ep p' ep' :
  reply_with req ctx a1 k1 a2 k2 p ep = Ok (p', ep') → length (indices_ p) = S (length (indices_ p')).
Proof.
  unfold reply_with. destruct (free_reply_ctx ep); [discriminate|].
  intros ([i p1] & H & H2)%bind_Ok. apply bind_Ok in H2 as (ep1 & _ & [= <- _]). by eapply StoreAddress_free.
Qed.

Lemma SendRendezvousReply_free query req p al h ep p' al' h' ep' :
  SendRendezvousReply pagesize malloc mr_keys query req p al h ep = Ok (p', al', h', ep') →
  length (indices_ p) = S (length (indices_ p')).
Proof.
  unfold SendRendezvousReply. destruct (bool_decide _); [|discriminate].
  intros ([[b al1] h1] & _ & H)%bind_Ok. destruct (negb _); [|discriminate]. destruct (is_server_ ep).
  - apply bind_Ok in H as ([[[a rk] ep1] h2] & _ & H). apply bind_Ok in H as (rk2 & _ & H).
    apply bind_Ok in H as ([p1 ep2] & H & [= <- _ _ _]). by eapply reply_with_free.
  - apply bind_Ok in H as (rk2 & _ & H). apply bind_Ok in H as ([p1 ep2] & H & [= <- _ _ _]). by eapply reply_with_free.
Qed.

Lemma send_kind_pool c msg t mb v v' : send_kind QP_NUM c msg t mb v = Ok v' → addr_pool_ v' = addr_pool_ v.
Proof.
  unfold send_kind. intros (ep & _ & H)%bind_Ok. destruct (Meta.push _), (Meta.request _).
  - apply bind_Ok in H as (x & _ & [= <-]). by rewrite set_endpoint_pool.
  - apply bind_Ok in H as (x & _ & [= <-]). by rewrite set_endpoint_pool.
  - apply bind_Ok in H as (x & _ & [= <-]). by rewrite set_endpoint_pool.
  - apply bind_Ok in H as (vals & _ & H). apply bind_Ok in H as (mr & _ & H). apply bind_Ok in H as (x & _ & [= <-]).
    by rewrite set_endpoint_pool.
Qed.

Lemma on_reply_pool c resp v v' : on_reply QP_NUM c resp v = Ok v' → addr_pool_ v' = addr_pool_ v.
Proof.
  unfold on_reply. intros (v1 & H1 & H)%bind_Ok. apply bind_Ok in H as (msg & _ & H). apply bind_Ok in H as (t & _ & H).
  apply bind_Ok in H as (mb & _ & H). apply bind_Ok in H as (v2 & H2 & H).
  assert (addr_pool_ v1 = addr_pool_ v) as E1.
  { unfold StoreRemoteAndLocalInfo in H1. apply bind_Ok in H1 as (msg1 & _ & [= <-]). by destruct (Meta.push _). }
  assert (addr_pool_ v2 = addr_pool_ v1) as E2.
  { destruct (negb _); [|by eapply send_kind_pool]. apply bind_Ok in H2 as (ep & _ & H2).
    apply bind_Ok in H2 as (ep' & _ & [= <-]). by rewrite set_endpoint_pool. }
  unfold ReleaseFirstMsg in H. apply bind_Ok in H as (? & _ & [= <-]). simpl. congruence.
Qed.

(** Handling the completions of a list, one after the other. *)
Fixpoint poll_all (wcs : list completion) (v : RDMAVan.t) : result RDMAVan.t :=
  match wcs with
  | [] => Ok v
  | wc :: wcs' => v ← PollCQ pagesize malloc mr_keys QP_NUM wc v; poll_all wcs' v
  end.

Definition is_start (wc : completion) : bool := match wc with RecvStart _ _ => true | _ => false end.

Lemma PollCQ_free wc v v' :
  PollCQ pagesize malloc mr_keys QP_NUM wc v = Ok v' → free v = ((if is_start wc then 1 else 0) + free v')%nat.
Proof.
  destruct wc as [c r| |c req|c resp|c i]; simpl.
  - intros (ep & _ & [= <-])%bind_Ok. by rewrite set_endpoint_pool.
  - by intros [= <-].
  - intros (ep & _ & H)%bind_Ok. apply bind_Ok in H as ([[[p al] h] ep'] & H & [= <-]).
    rewrite set_endpoint_pool. by eapply SendRendezvousReply_free.
  - intros H%on_reply_pool. by rewrite H.
  - unfold on_imm. destruct (is_slave i); [intros (ep & _ & [= <-])%bind_Ok; by rewrite set_endpoint_pool|].
    by intros (ctx & _ & [= <-])%bind_Ok.
Qed.

(** A node that handles any completions answers at most as many rendezvous as
    its pool had free entries, and each of them takes one for good. *)
Theorem rendezvous_use_up_pool wcs v v' :
  poll_all wcs v = Ok v' →
  (length (List.filter is_start wcs) + length (indices_ (addr_pool_ v')) = length (indices_ (addr_pool_ v)))%nat.
Proof.
  revert v. induction wcs as [|wc wcs IH]; intros v; simpl; [by intros [= <-]|].
  intros (v1 & H1 & H)%bind_Ok. apply PollCQ_free in H1. apply IH in H.
  destruct (is_start wc); simpl; lia.
Qed.

(** Only the endpoints of a van. *)
Definition same_endpoints (v v' : RDMAVan.t) : Prop := endpoints_ v' = endpoints_ v ∧ incoming_ v' = incoming_ v.

Lemma same_get_endpoint v v' c : same_endpoints v v' → get_endpoint c v' = get_endpoint c v.
Proof. intros [H1 H2]. destruct c; simpl; by rewrite ?H1, ?H2. Qed.

Lemma RegisterMemory_endpoints msg v v' : RegisterMemory mr_keys msg v = Ok v' → same_endpoints v v'.
Proof.
  unfold RegisterMemory. destruct (register_arrays_frame mr_keys (Message.data msg) 0 v) as (h & mm & -> & _).
  destruct (_ && Meta.request _); [|by intros [= <-]]. destruct (0 <? _); [|discriminate].
  destruct (registered _ _ _); [by intros [= <-]|]. intros [= <-]. by rewrite register_regions.
Qed.

Lemma PrepareNewMsgBuf_endpoints msg v a v' :
  PrepareNewMsgBuf pagesize malloc mr_keys QP_NUM msg v = Ok (a, v') → same_endpoints v v'.
Proof.
  unfold PrepareNewMsgBuf. intros ([[p al] h] & _ & H)%bind_Ok. apply bind_Ok in H as (h' & _ & H).
  by injection H as _ <-.
Qed.

Lemma SendRendezvousBegin_posts msg a mb ep ep' :
  SendRendezvousBegin msg a mb ep = Ok ep' → ∃ req, posted ep' = posted ep ++ [(0, PostStart req)].
Proof.
  unfold SendRendezvousBegin. destruct (free_start_ctx ep); [discriminate|]. destruct (bool_decide _); [|discriminate].
  intros (lens & _ & [_ ->]%ibv_post_send_Ok)%bind_Ok. by eexists.
Qed.

Lemma begin_rendezvous_posts c msg v v' :
  begin_rendezvous pagesize malloc mr_keys QP_NUM c msg false v = Ok v' →
  ∃ ep ep' req, get_endpoint c v = Ok ep ∧ get_endpoint c v' = Ok ep' ∧ posted ep' = posted ep ++ [(0, PostStart req)].
Proof.
  unfold begin_rendezvous. intros ([a v1] & H1%PrepareNewMsgBuf_endpoints & H)%bind_Ok.
  apply bind_Ok in H as (v2 & H2 & H). cbn [mbind result_bind] in H. unfold StoreMsgBuf in H2.
  destruct (bool_decide _); [|discriminate H2]. injection H2 as <-.
  apply bind_Ok in H as (mb & _ & H). apply bind_Ok in H as (ep & Hep & H). apply bind_Ok in H as (ep' & Hb & [= <-]).
  destruct (SendRendezvousBegin_posts _ _ _ _ _ Hb) as [req Hreq]. exists ep, ep', req.
  split; [rewrite <-Hep; symmetry; by apply same_get_endpoint|]. split; [|exact Hreq].
  apply get_set_endpoint. by left.
Qed.

(** A control message is announced by a rendezvous every time it is sent. *)
Theorem control_always_announces msg v n v' :
  IsValidPushpull msg = false → SendMsg pagesize malloc mr_keys QP_NUM msg v = Ok (n, v') →
  ∃ ep ep' req, let c := Out (Meta.recver (Message.meta msg)) in
    get_endpoint c v = Ok ep ∧ get_endpoint c v' = Ok ep' ∧ posted ep' = posted ep ++ [(0, PostStart req)].
Proof.
  intros Hc. unfold SendMsg. set (c := Out _). destruct (negb _); [|discriminate]. intros (ep0 & _ & H)%bind_Ok.
  set (total_len := i32 _) in H. clearbody total_len. set (len := GetPackMetaLen _) in H. clearbody len.
  destruct (negb _); [|discriminate H]. apply bind_Ok in H as (v1 & H1%RegisterMemory_endpoints & H).
  rewrite Hc in H. cbn [negb] in H. apply bind_Ok in H as (v2 & H2 & H). injection H as _ <-.
  apply begin_rendezvous_posts in H2. by rewrite (same_get_endpoint _ _ _ H1) in H2.
Qed.

(** A queue pair is created with [max_inline_data], and the meta data of every
    push, pull and answer are an inline write of more bytes: where the verbs library
    grants what was asked for and no more, none of them is sent. *)
Theorem inline_meta_refused al h mb raddr rkey idx prev ep lk m :
  (∀ l qp w, post_accepts l qp w = true → inline_size w ≤ max_inline_data) →
  meta_wf m → inline_len mb = GetPackMetaLen m → LocalKey (inline_buf mb) al = Ok lk →
  RDMAWriteWithImm al h mb raddr rkey idx true prev ep = Err (CheckFailed "ibv_post_send failed.").
Proof.
  intros Hcap Hwf Hlen Hlk. pose proof (GetPackMetaLen_large m Hwf) as Hlarge. rewrite <-Hlen in Hlarge.
  pose proof (GetPackMetaLen_below m) as Hb. rewrite <-Hlen in Hb.
  unfold RDMAWriteWithImm. rewrite (bind_eq _ _ _ Hlk), (uwrap_small 32) by word_lia.
  set (w := PostWrite _ _ _ _ _ _ _).
  assert (∀ ep, ibv_post_send 0 w ep = Err (CheckFailed "ibv_post_send failed.")) as Hw.
  { intros e. unfold ibv_post_send. destruct (post_accepts _ _ _) eqn:E; [|done]. apply Hcap in E.
    cbn [inline_size w] in E. rewrite length_read in E. unfold max_inline_data in E. lia. }
  destruct prev as [w0|]; [|apply Hw].
  destruct (ibv_post_send 0 w0 ep) as [e|err] eqn:E; [apply Hw|]. unfold ibv_post_send in E.
  destruct (post_accepts _ _ _); [discriminate E|]. by injection E as <-.
Qed.
End limits.
