(* ===== verification/RdmaExample.v ===== *)
(** * Two nodes connected by RDMA, by computation

    Worker 9 and server 8 with an allocator and keys that satisfy what the RDMA
    theorems ask of them, and the runs of these nodes that show the theorems
    about them to apply, or a message to be lost. *)

From S2P Require Import Prelude Message Env Postoffice Codec RdmaMemory RdmaTransport RdmaVan RdmaFacts RdmaSystem RdmaSafety RdmaWrites RdmaDelivery RdmaLimits.
Import Endpoint RDMAVan.

(** An allocator that never reuses memory, and keys that count registrations. *)
Definition demo_malloc (bs : list (Z * Z)) (n : Z) : Z := foldr (λ b m, Z.max m (b.1 + b.2)) 4096 bs.
Definition demo_keys (n : nat) : Z * Z := (Z.of_nat n + 1, Z.of_nat n + 1).
Definition demo_server (x : Z) : bool := x =? 8.

Lemma demo_malloc_fresh : malloc_fresh demo_malloc.
Proof.
  intros bs n Hn. unfold demo_malloc. split.
  - induction bs as [|b bs IH]; simpl; lia.
  - intros a k Hin. right. induction bs as [|b bs IH]; [by apply elem_of_nil in Hin|].
    apply elem_of_cons in Hin as [<-|Hin]; simpl; [lia|]. specialize (IH Hin). lia.
Qed.

Lemma demo_keys_distinct : keys_distinct demo_keys.
Proof. split_and!; intros; simpl in *; lia. Qed.

(** A connection with free contexts, and a node with its connections. *)
Definition demo_endpoint (peer : Z) (is_server : bool) : Endpoint.t :=
  Endpoint.mk peer false [0; 0] 4 4 is_server ∅ [].
Definition demo_pool : AddressPool BufferContext := mkPool (seqZ 0 16) (replicate 16 None).
Definition demo_van (id : Z) (h : host) (out inc : gmap Z Endpoint.t) : RDMAVan.t :=
  RDMAVan.mk id h (mkMemoryAllocator ∅ ∅) ∅ demo_pool out inc ∅ ∅ [] ∅ ∅ [].

(** The worker has values at address 100. *)
Definition demo_values : list byte := [x0a; x0b; x0c; x0d].
Definition demo_worker_host : host :=
  mkHost (write_bytes 200 [x01; x02; x03; x04] (write_bytes 100 demo_values (λ _, x00))) [(50, 8); (100, 4); (200, 4)] [].
Definition demo_worker : RDMAVan.t := demo_van 9 demo_worker_host {[8 := demo_endpoint 8 false]} ∅.
Definition demo_server_van : RDMAVan.t := demo_van 8 (mkHost (λ _, x00) [] []) ∅ {[9 := demo_endpoint 9 true]}.
Definition demo_system : system :=
  mkSystem (upd (upd (λ _, demo_van 0 (mkHost (λ _, x00) [] []) ∅ ∅) 9 demo_worker) 8 demo_server_van) (λ _, []) (λ _, []).

Definition demo_array (ptr : Z) (bs : list byte) : SArray.t byte := SArray.mk ptr bs DeviceType.CPU 0 DeviceType.CPU 0.
Definition demo_ks : SArray.t byte := demo_array 50 (enc_u64 5).
Definition demo_push_of (ptr : Z) (vals : list byte) : Message.t :=
  Message.mk (Meta.default <| Meta.recver := 8 |> <| Meta.push := true |> <| Meta.request := true |>
                <| Meta.val_len := Z.of_nat (length vals) |> <| Meta.timestamp := 3 |>)
    [demo_ks; demo_array ptr vals].
Definition demo_push : Message.t := demo_push_of 100 demo_values.

Lemma demo_fresh id h out inc x :
  regions h = [] → (∀ y ep, out !! y = Some ep → ep = demo_endpoint y false) →
  (∀ y ep, inc !! y = Some ep → ep = demo_endpoint y (demo_server x)) →
  fresh demo_server x (demo_van id h out inc).
Proof.
  intros Hr Ho Hi. split_and!; try done.
  - intros y ep Hy. by rewrite (Ho y ep Hy).
  - intros y ep Hy. by rewrite (Hi y ep Hy).
Qed.

Lemma demo_initial : initial demo_server demo_system.
Proof.
  intros x. split; [|done]. simpl. destruct (decide (x = 8)) as [->|H8]; [rewrite upd_eq|rewrite upd_ne by done].
  - apply demo_fresh; [done| |]; intros y ep; rewrite ?lookup_empty; [done|]. by intros [<- <-]%lookup_singleton_Some.
  - destruct (decide (x = 9)) as [->|H9]; [rewrite upd_eq|rewrite upd_ne by done]; apply demo_fresh; try done;
      intros y ep; rewrite ?lookup_empty; try done. by intros [<- <-]%lookup_singleton_Some.
Qed.

Lemma demo_push_ready : push_ready 4096 demo_push demo_ks (demo_array 100 demo_values).
Proof.
  constructor; try done.
  - exists []. split; [done|simpl; lia].
  - intros sa Hin. simpl in Hin. repeat (apply elem_of_cons in Hin as [->|Hin]; [done|]). by apply elem_of_nil in Hin.
  - apply (bool_decide_unpack _). vm_compute. exact I.
Qed.

(** Send queues with room for two work requests and for any inline bytes. *)
#[local] Instance demo_verbs : Verbs := {| post_accepts := λ l _ _, (length l <? 2)%nat |}.

Lemma demo_roomy n : roomy n.
Proof. intros l qp w Hl _. by apply Nat.ltb_lt. Qed.

Lemma demo_page : 0 < 4096 < 2 ^ 31.
Proof. done. Qed.

Lemma demo_start_reachable : reachable 4096 demo_malloc demo_keys 2 demo_server demo_system.
Proof. apply reach_init, demo_initial. Qed.

Lemma demo_pool_ok : pool_ok demo_pool.
Proof. by destruct (new_pool_ok (T := BufferContext) (Some 16) demo_pool eq_refl). Qed.

Lemma demo_idle : idle_pair demo_system 9 8 (DecodeKey demo_ks) (demo_endpoint 8 false) (demo_endpoint 9 true) 0.
Proof. constructor; try done. split; [exact demo_pool_ok|done]. Qed.

Lemma demo_in_memory : in_memory demo_worker_host (demo_array 100 demo_values).
Proof. split; [done|]. exists 100, 4. split; [right; left|done]. Qed.

Lemma push_arrives_witness :
  ∃ s' msg', perform_all 4096 demo_malloc demo_keys 2 (push_schedule 9 8 demo_push) demo_system = Ok (s', [msg']) ∧
    map SArray.elems (Message.data msg') = [enc_u64 5; demo_values; enc_int 4].
Proof.
  destruct (push_arrives 4096 demo_malloc demo_keys 2 demo_page demo_malloc_fresh ltac:(done) demo_server ltac:(done)
    demo_keys_distinct demo_system 9 demo_push demo_ks (demo_array 100 demo_values) (demo_endpoint 8 false)
    (demo_endpoint 9 true) 0 demo_start_reachable ltac:(done) ltac:(done) eq_refl demo_push_ready (demo_roomy _) demo_idle demo_in_memory)
    as (s' & msg' & Hrun & _ & Hel).
  exists s', msg'. split; [exact Hrun|]. exact Hel.
Defined.

(** ** The writes of a push *)
Definition demo_run (s : system) (l : list action) : system :=
  match perform_all 4096 demo_malloc demo_keys 2 l s with Ok (s', _) => s' | Err _ => s end.

Lemma demo_run_reachable s a l :
  reachable 4096 demo_malloc demo_keys 2 demo_server s → allowed demo_keys demo_server a s → forallb internal l = true →
  reachable 4096 demo_malloc demo_keys 2 demo_server (demo_run s (a :: l)).
Proof.
  intros Hs Ha Hl. unfold demo_run. destruct (perform_all _ _ _ _ _ _) as [[s' ms]|] eqn:E; [|exact Hs].
  cbn [perform_all] in E. apply bind_Ok in E as ([s1 o] & H1 & E). apply bind_Ok in E as ([s2 ms2] & H2 & [= <- _]).
  eapply run_reachable; [|exact Hl|exact H2]. apply (reach_step _ _ _ _ _ s); [exact Hs|].
  by eapply perform_step.
Qed.

Definition demo_answered : system := demo_run demo_system (take 6 (push_schedule 9 8 demo_push)).

Lemma head_default {A} (d : A) l : is_Some (head l) → default d (head l) ∈ l.
Proof. destruct l; [by intros []|]. left. Qed.

Definition demo_posted : Z * work := default (0, PostStart (mkStart 0 0 [] 0 0)) (head (posted_on (Out 8) (vans demo_answered 9))).

Lemma demo_posted_in : (demo_posted.1, demo_posted.2) ∈ posted_on (Out 8) (vans demo_answered 9).
Proof. rewrite <-surjective_pairing. apply head_default. vm_compute. by eexists. Qed.

Lemma demo_answered_reachable : reachable 4096 demo_malloc demo_keys 2 demo_server demo_answered.
Proof. apply demo_run_reachable; [exact demo_start_reachable| |done]. exact (push_ready_sendable 4096 demo_keys demo_server demo_system 9 _ _ _ demo_push_ready eq_refl). Qed.

(** ** The writes of the answer to a pull

    The worker pulls four bytes to address 100, the server has them at 300. *)
Definition demo_pair : system :=
  mkSystem (upd (upd (λ _, demo_van 0 (mkHost (λ _, x00) [] []) ∅ ∅)
      9 (demo_van 9 demo_worker_host {[8 := demo_endpoint 8 false]} {[8 := demo_endpoint 8 false]}))
      8 (demo_van 8 (mkHost (write_bytes 300 [x01; x02; x03; x04] (λ _, x00)) [(50, 8); (300, 4)] [])
           {[9 := demo_endpoint 9 false]} {[9 := demo_endpoint 9 true]}))
    (λ _, []) (λ _, []).

Lemma demo_pair_reachable : reachable 4096 demo_malloc demo_keys 2 demo_server demo_pair.
Proof.
  apply reach_init. intros x. split; [|done]. simpl.
  destruct (decide (x = 8)) as [->|H8]; [rewrite upd_eq|rewrite upd_ne by done].
  - apply demo_fresh; [done| |]; intros y ep; by intros [<- <-]%lookup_singleton_Some.
  - destruct (decide (x = 9)) as [->|H9]; [rewrite upd_eq|rewrite upd_ne by done]; apply demo_fresh; try done;
      intros y ep; rewrite ?lookup_empty; try done; by intros [<- <-]%lookup_singleton_Some.
Qed.

Definition demo_pull : Message.t :=
  Message.mk (Meta.default <| Meta.recver := 8 |> <| Meta.request := true |> <| Meta.val_len := 4 |> <| Meta.addr := 100 |>)
    [demo_ks; demo_array 0 []].
Definition demo_asked : system :=
  demo_run demo_pair [Sending 9 demo_pull; Executing 9 (Out 8); Polling 8; Executing 8 (In 9); Polling 9; Polling 9;
    Executing 9 (Out 8); Polling 8; Polling 8; Receiving 8].
Definition demo_answer : Message.t :=
  Message.mk (Meta.default <| Meta.recver := 9 |> <| Meta.key := 5 |> <| Meta.val_len := 4 |> <| Meta.addr := 100 |>
                <| Meta.option_ := 1 |>)
    [demo_ks; demo_array 300 [x01; x02; x03; x04]].
Definition demo_answering : system :=
  demo_run demo_asked [Sending 8 demo_answer; Executing 8 (Out 9); Polling 9; Polling 9; Executing 9 (In 8);
    Polling 8; Polling 8].

Lemma demo_pull_sendable : sendable demo_keys demo_server demo_pair 9 demo_pull.
Proof.
  split_and!; [by vm_compute|by intros ks [= <-]| |].
  - intros _. split; [done|]. intros v1 mr H Hmr. vm_compute in H. injection H as <-. vm_compute in Hmr.
    injection Hmr as <-. by vm_compute.
  - intros _. split; [|done]. intros sa Hin. simpl in Hin.
    repeat (apply elem_of_cons in Hin as [->|Hin]; [done|]). by apply elem_of_nil in Hin.
Qed.

Lemma demo_asked_reachable : reachable 4096 demo_malloc demo_keys 2 demo_server demo_asked.
Proof. apply demo_run_reachable; [exact demo_pair_reachable|exact demo_pull_sendable|done]. Qed.

Lemma demo_answer_sendable : sendable demo_keys demo_server demo_asked 8 demo_answer.
Proof.
  split_and!; [by vm_compute|by intros ks [= <-]|done|].
  intros _. split; [|split; [done|intros _ _]].
  - intros sa Hin. simpl in Hin. repeat (apply elem_of_cons in Hin as [->|Hin]; [done|]). by apply elem_of_nil in Hin.
  - assert (pulls demo_asked 9 = [(100, 4, 1)]) as Hp by (vm_compute; reflexivity).
    change (Meta.recver (Message.meta demo_answer)) with 9. rewrite Hp. left.
Qed.

Lemma demo_answering_reachable : reachable 4096 demo_malloc demo_keys 2 demo_server demo_answering.
Proof. apply demo_run_reachable; [exact demo_asked_reachable|exact demo_answer_sendable|done]. Qed.

Definition demo_pulled : Z * work := default (0, PostStart (mkStart 0 0 [] 0 0)) (head (posted_on (Out 9) (vans demo_answering 8))).

Lemma demo_pulled_in : (demo_pulled.1, demo_pulled.2) ∈ posted_on (Out 9) (vans demo_answering 8).
Proof. rewrite <-surjective_pairing. apply head_default. vm_compute. by eexists. Qed.

Lemma writes_stay_registered_witness :
  ((∃ local len lk raddr rk, demo_posted.2 = PostWrite local len lk raddr rk None None) ∧
   ∃ r, nic_execute demo_posted.2 (Out 8) (In 9) (host_ (vans demo_answered 9)) (vans demo_answered 8) = Ok r) ∧
  (∃ lk rk, demo_pulled.2 = PostWrite 300 4 lk 100 rk None None) ∧
  ∃ r, nic_execute demo_pulled.2 (Out 9) (In 8) (host_ (vans demo_answering 8)) (vans demo_answering 9) = Ok r.
Proof.
  split; (split; [vm_compute; eauto 6|]).
  - apply (writes_stay_registered 4096 demo_malloc demo_keys 2 demo_server demo_page demo_malloc_fresh ltac:(done)
      demo_keys_distinct demo_answered 9 (Out 8) demo_posted.1 demo_posted.2 demo_answered_reachable demo_posted_in).
  - apply (writes_stay_registered 4096 demo_malloc demo_keys 2 demo_server demo_page demo_malloc_fresh ltac:(done)
      demo_keys_distinct demo_answering 8 (Out 9) demo_pulled.1 demo_pulled.2 demo_answering_reachable demo_pulled_in).
Defined.

(** ** Messages that are lost *)
Definition demo_received (l : list action) : result (list (list (list byte))) :=
  r ← perform_all 4096 demo_malloc demo_keys 2 l demo_system;
  Ok (map (λ msg, map SArray.elems (Message.data msg)) r.2).

(** A later push of a key: the two writes, and its arrival. *)
Definition later_push (x y : Z) (msg : Message.t) : list action :=
  [Sending x msg; Executing x (Out y); Executing x (Out y); Polling x; Polling x; Polling y; Receiving y].

(** The second push of key 5 has its values in other memory than the first; what
    arrives are the values of the first. *)
Theorem later_push_sends_first_values :
  demo_received (push_schedule 9 8 demo_push ++ later_push 9 8 (demo_push_of 200 [x01; x02; x03; x04])) =
    Ok [[enc_u64 5; demo_values; enc_int 4]; [enc_u64 5; demo_values; enc_int 4]].
Proof. vm_compute. reflexivity. Qed.

(** A simple request leaves its buffers under key 0: the first pull of key 0
    then takes them for its own and writes past the end of its data. *)
Definition demo_simple : Message.t :=
  Message.mk (Meta.default <| Meta.recver := 8 |> <| Meta.request := true |> <| Meta.simple_app := true |>) [].
Definition demo_pull_zero : Message.t :=
  Message.mk (Meta.default <| Meta.recver := 8 |> <| Meta.request := true |> <| Meta.val_len := 4 |> <| Meta.addr := 100 |>)
    [demo_array 50 (enc_u64 0)].

Theorem simple_request_shadows_key_zero :
  demo_received [Sending 9 demo_pull_zero] = Ok [] ∧
  demo_received [Sending 9 demo_simple; Executing 9 (Out 8); Polling 8; Executing 8 (In 9); Polling 9; Polling 9; Sending 9 demo_pull_zero]
    = Err (Undefined "msg_buf->data[i]").
Proof. split; vm_compute; reflexivity. Qed.

(** ** The pool of a node with two entries *)
Definition demo_start : RendezvousStart := mkStart 8 0 [] 1 0.
Definition demo_small : RDMAVan.t := demo_server_van <| addr_pool_ := mkPool [0; 1] [None; None] |>.
Definition demo_polled (n : nat) : result RDMAVan.t :=
  poll_all 4096 demo_malloc demo_keys 2 (repeat (RecvStart (In 9) demo_start) n) demo_small.
Definition demo_small_used : RDMAVan.t := match demo_polled 2 with Ok v => v | Err _ => demo_small end.

Lemma rendezvous_use_up_pool_witness :
  demo_polled 3 = Err (CheckFailed "Address pool size is too small") ∧
  (2 + length (indices_ (addr_pool_ demo_small_used)) = 2)%nat.
Proof.
  split; [vm_compute; reflexivity|].
  apply (rendezvous_use_up_pool 4096 demo_malloc demo_keys 2 (repeat (RecvStart (In 9) demo_start) 2) demo_small demo_small_used).
  unfold demo_small_used, demo_polled. destruct (poll_all _ _ _ _ _ _) eqn:E; [reflexivity|].
  vm_compute in E. discriminate E.
Defined.
