(* ===== verification/ZmqVan.v ===== *)
(** * The ZeroMQ van (src/zmq_van.h)

    [ZMQVan] sends a message as a sequence of parts: the packed meta data and
    one part per array.  Every node listens on a ROUTER socket and has a DEALER
    socket to each node it connects to; a worker also receives on its DEALER
    sockets.  The ZeroMQ library is outside the sources; what it does with a
    complete sequence of parts is [arrival] in ZmqFacts.v. *)

From S2P Require Import Prelude Message Env Codec.

(** The parts of a message that was received. *)
Record ZmqBufferContext : Type := mkZmqContext {
  zb_sender : Z;
  meta_zmsg : list byte;
  data_zmsg : list (list byte)
}.

(** A socket of the library: the address it listens on, or the identity it
    shows and the address it is connected to. *)
Inductive zmq_socket : Type :=
| ROUTER (address : list byte)
| DEALER (identity : option (list byte)) (address : list byte).

Module ZMQVan.
(** [sockets] are the open sockets, by number; [unsent] the parts of a message
    that is not complete; [sent] the complete ones, in order. *)
Record t : Type := mk {
  my_node_ : Node.t;
  standalone_ : bool;
  is_worker_ : bool;
  sockets : gmap Z zmq_socket;
  next_socket : Z;
  senders_ : gmap Z Z;
  receiver_ : Z;
  thread_list_ : list Z;
  should_stop_ : bool;
  recv_buffers_ : list ZmqBufferContext;
  registered_buffs_ : gmap Z (gmap Z (SArray.t byte));
  unsent : gmap Z (list (list byte));
  sent : list (Z * list (list byte))
}.

Definition new (n : Node.t) : t :=
  mk n false false ∅ 1 ∅ 0 [] false [] ∅ ∅ [].

(** ** Names *)
Definition identity_of (id : Z) : list byte := bytes_of "ps" ++ bytes_of (pretty id).

Definition is_digit (b : byte) : bool := (48 <=? byte.unsigned b) && (byte.unsigned b <=? 57).

(** The loop of [GetNodeID]; the sum is computed before the subtraction. *)
Fixpoint read_digits (id : Z) (bs : list byte) : result (option Z) :=
  match bs with
  | [] => Ok (Some id)
  | b :: bs' =>
      if is_digit b then
        inside! (id * 10 + byte.unsigned b <? 2 ^ 31) or "int overflow";
        read_digits (id * 10 + byte.unsigned b - 48) bs'
      else Ok None
  end.

Definition GetNodeID (buf : list byte) : result Z :=
  match buf with
  | p :: s :: rest =>
      if (byte.unsigned p =? 112) && (byte.unsigned s =? 115) && negb (length rest =? 0)%nat then
        r ← read_digits 0 rest; Ok (default kEmpty r)
      else Ok kEmpty
  | _ => Ok kEmpty
  end.

Definition GetRoleFromId (id : Z) : Node.Role :=
  if id <? 8 then Node.SCHEDULER
  else if negb (Z.rem id 2 =? 0) then Node.WORKER
  else Node.SERVER.

(** ** Sockets *)
Definition open_socket (s : zmq_socket) (v : t) : Z * t :=
  (next_socket v, v <| sockets ::= <[next_socket v := s]> |> <| next_socket ::= Z.succ |>).

(** [zmq_msg_send]: a part with [more] waits for the rest of its message. *)
Definition zmq_msg_send (socket : Z) (part : list byte) (more : bool) (v : t) : t :=
  let parts := default [] (unsent v !! socket) ++ [part] in
  if more then v <| unsent ::= <[socket := parts]> |>
  else v <| unsent ::= delete socket |> <| sent ::= (λ l, l ++ [(socket, parts)]) |>.

(** [Start] of this van; the rest is [Van::Start]. *)
Definition Start (standalone : bool) (v : t) : t := v <| standalone_ := standalone |>.

(** [Stop]: every socket is closed. *)
Definition Stop (v : t) : t :=
  v <| should_stop_ := true |> <| sockets := ∅ |> <| senders_ := ∅ |>.

(** [SetNode] of include/ps/internal/van.h *)
Definition SetNode (n : Node.t) (v : t) : t := v <| my_node_ := n |>.

Section bind.
(** [zmq_bind addr] tells whether the address can be taken; [rnd] are the
    results of [rand_r]. *)
Context (zmq_bind : list byte → bool) (rnd : nat → Z).

Fixpoint bind_loop (addr : list byte) (i : nat) (max_retry : nat) (port : Z) : result Z :=
  if zmq_bind (addr ++ bytes_of (pretty port)) then Ok port
  else
    match max_retry with
    | O => Err (CheckFailed "Reached max retry for bind")
    | S r => bind_loop addr (S i) r (10000 + rnd i mod 40000)
    end.

Definition bind_address (e : Environment) (node : Node.t) : list byte :=
  let hostname := match Node.hostname node with [] => bytes_of "*" | h => h end in
  let hostname := if (0 <? GetEnv_int e "DMLC_USE_KUBERNETES" 0) && bool_decide (Node.role node = Node.SCHEDULER)
                  then bytes_of "0.0.0.0" else hostname in
  if GetEnv_int e "DMLC_LOCAL" 0 =? 0 then bytes_of "tcp://" ++ hostname ++ bytes_of ":"
  else bytes_of "ipc:///tmp/".

Definition Bind (e : Environment) (node : Node.t) (max_retry : nat) (v : t) : result (Z * t) :=
  check! (Node.num_ports (my_node_ v) =? 1) or "zmq van does not support multiple ports";
  let addr := bind_address e node in
  port ← bind_loop addr 0 max_retry (Node.port node);
  let (s, v) := open_socket (ROUTER (addr ++ bytes_of (pretty port))) v in
  Ok (port, v <| receiver_ := s |> <| is_worker_ := bool_decide (Node.role node = Node.WORKER) |>
              <| thread_list_ ::= (λ l, l ++ [s]) |>).
End bind.

Definition connect_address (e : Environment) (node : Node.t) : list byte :=
  if GetEnv_int e "DMLC_LOCAL" 0 =? 0 then bytes_of "tcp://" ++ Node.hostname node ++ bytes_of ":" ++ bytes_of (pretty (Node.port node))
  else bytes_of "ipc:///tmp/" ++ bytes_of (pretty (Node.port node)).

(** [Connect]; a connection that cannot be made is an error of the library. *)
Definition Connect (e : Environment) (node : Node.t) (v : t) : result t :=
  check! negb (Node.id node =? kEmpty) or "node.id";
  check! negb (Node.port node =? kEmpty) or "node.port";
  check! negb (length (Node.hostname node) =? 0)%nat or "node.hostname.size()";
  let id := Node.id node in
  let known := senders_ v !! id in
  let v := match known with Some old => v <| sockets ::= delete old |> | None => v end in
  if bool_decide (Node.role node = Node.role (my_node_ v)) && negb (id =? Node.id (my_node_ v)) && negb (standalone_ v)
  then Ok v
  else
    let mine := Node.id (my_node_ v) in
    let named := negb (mine =? kEmpty) in
    let (s, v) := open_socket (DEALER (if named then Some (identity_of mine) else None) (connect_address e node)) v in
    let v := if named && is_worker_ v && bool_decide (known = None) then v <| thread_list_ ::= (λ l, l ++ [s]) |> else v in
    Ok (v <| senders_ ::= <[id := s]> |>).

(** ** Sending *)
Section send.
(** [refused i]: the library does not take the [i]-th array of the message;
    [new_char] is uninitialised memory. *)
Context (QP_NUM : Z) (new_char : Z → list byte) (refused : nat → bool).

(** The arrays from number [i] on, and the bytes sent before them. *)
Fixpoint send_data (socket : Z) (i : nat) (data : list (SArray.t byte)) (send_bytes : Z) (v : t) : Z * t :=
  match data with
  | [] => (send_bytes, v)
  | a :: data' =>
      if refused i then (-1, v)
      else send_data socket (S i) data' (i32 (send_bytes + i32 (SArray.size a)))
             (zmq_msg_send socket (SArray.elems a) (negb (length data' =? 0)%nat) v)
  end.

Definition ZmqSendMsg (socket : Z) (msg : Message.t) (v : t) : result (Z * t) :=
  inside! bool_decide (is_Some (sockets v !! socket)) or "socket";
  x ← PackMeta false QP_NUM (Message.meta msg) None new_char;
  let '(meta_buf, meta_size) := x in
  let v := zmq_msg_send socket (take (Z.to_nat meta_size) meta_buf) (negb (length (Message.data msg) =? 0)%nat) v in
  Ok (send_data socket 0 (Message.data msg) meta_size v).

Definition NonWorkerSendMsg (msg : Message.t) (v : t) : result (Z * t) :=
  let m := Message.meta msg in
  let id := Meta.recver m in
  check! negb (id =? kEmpty) or "id";
  match senders_ v !! id with
  | None => Err (CheckFailed "there is no socket to node")
  | Some s =>
      if Meta.simple_app m || negb (Control.empty (Meta.control m)) || negb (bool_decide (GetRoleFromId id = Node.WORKER))
      then ZmqSendMsg s msg v
      else
        let r := receiver_ v in
        let v := zmq_msg_send r (identity_of id) true v in
        let v := zmq_msg_send r (identity_of (Node.id (my_node_ v))) true v in
        ZmqSendMsg r msg v
  end.

Definition SendMsg (msg : Message.t) (v : t) : result (Z * t) :=
  if negb (is_worker_ v) then NonWorkerSendMsg msg v
  else
    let id := Meta.recver (Message.meta msg) in
    check! negb (id =? kEmpty) or "id";
    match senders_ v !! id with
    | None => Ok (-1, v)
    | Some s => ZmqSendMsg s msg v
    end.
End send.

(** ** Receiving *)

(** The key at the start of an array. *)
Definition read_key (a : SArray.t byte) : result Z :=
  inside! (8 <=? length (SArray.elems a))%nat or "*key";
  Ok (dec_u64 (take 8 (SArray.elems a))).

Definition RegisterRecvBuffer (msg : Message.t) (v : t) : result t :=
  check! (length (Message.data msg) =? 3)%nat or "msg.data.size()";
  ks ← from_option_or (Undefined "msg.data[0]") (Message.data msg !! 0%nat);
  vs ← from_option_or (Undefined "msg.data[1]") (Message.data msg !! 1%nat);
  key ← read_key ks;
  let sender := Meta.sender (Message.meta msg) in
  Ok (v <| registered_buffs_ ::= (λ m, <[sender := <[key := vs]> (default ∅ (m !! sender))]> m) |>).

(** [CallZmqRecvThread]: one message, all of its parts. *)
Definition CallZmqRecvThread (parts : list (list byte)) (v : t) : result t :=
  match parts with
  | [] => Err (Blocked "zmq_msg_recv")
  | name :: rest =>
      sender ← GetNodeID name;
      match rest with
      | [] => Err (CheckFailed "zmq_msg_more(zmsg)")
      | meta :: data => Ok (v <| recv_buffers_ ::= (λ q, q ++ [mkZmqContext sender meta data]) |>)
      end
  end.

(** Where the values of a message go: the buffer registered for its sender and
    its key. *)
Definition registered_for (sender : Z) (first : option (SArray.t byte)) (v : t) : result (option (Z * SArray.t byte)) :=
  match registered_buffs_ v !! sender with
  | None => Ok None
  | Some buffs =>
      ks ← from_option_or (Undefined "msg->data[0]") first;
      key ← read_key ks;
      Ok ((λ a, (key, a)) <$> buffs !! key)
  end.

(** The arrays from number [i] on; [zmq_msg_data i] is the address of a part. *)
Fixpoint recv_data (zmq_msg_data : nat → Z) (m : Meta.t) (i : nat) (parts : list (list byte)) (data : list (SArray.t byte)) (v : t)
    : result (list (SArray.t byte) * t) :=
  match parts with
  | [] => Ok (data, v)
  | part :: parts' =>
      let own := SArray.reset (zmq_msg_data i) part (Meta.src_dev_type m) (Meta.src_dev_id m)
                   (Meta.dst_dev_type m) (Meta.dst_dev_id m) in
      b ← (if (i =? 1)%nat && negb (length part =? 0)%nat then registered_for (Meta.sender m) (data !! 0%nat) v else Ok None);
      match b with
      | Some (key, buf) =>
          check! (length (SArray.elems buf) =? length part)%nat or "val.size() == size";
          let buf := buf <| SArray.elems := part |> in
          recv_data zmq_msg_data m (S i) parts' (data ++ [buf])
            (v <| registered_buffs_ ::= alter (<[key := buf]>) (Meta.sender m) |>)
      | None => recv_data zmq_msg_data m (S i) parts' (data ++ [own]) v
      end
  end.

Definition RecvMsg (zmq_msg_data : nat → Z) (m0 : Meta.t) (v : t) : result (Z * Message.t * t) :=
  match recv_buffers_ v with
  | [] => Err (Blocked "recv_buffers_")
  | n :: rest =>
      let v := v <| recv_buffers_ := rest |> in
      let m0 := m0 <| Meta.sender := zb_sender n |> <| Meta.recver := Node.id (my_node_ v) |> in
      m ← UnpackMeta false (meta_zmsg n) m0;
      x ← recv_data zmq_msg_data m 0 (data_zmsg n) [] v;
      let bytes := foldl (λ s (p : list byte), s + Z.of_nat (length p)) (Z.of_nat (length (meta_zmsg n))) (data_zmsg n) in
      Ok (i32 bytes, Message.mk m x.1, x.2)
  end.
End ZMQVan.
