(* ===== verification/ZmqFacts.v ===== *)
(** * Messages over ZeroMQ arrive

    Identities name their nodes, the parts of a message are put together again
    at the receiver, and the two ways a message can take (over the sender's
    DEALER socket, or from a ROUTER back to a worker) both deliver it. *)

From S2P Require Import Prelude Message Env Codec ZmqVan.
Import ZMQVan.

(** ** Identities *)
Lemma digit_byte d :
  (d < 10)%N → byte.unsigned (Ascii.byte_of_ascii (pretty_N_char d)) = 48 + Z.of_N d.
Proof.
  intros Hd. assert (d = 0 ∨ d = 1 ∨ d = 2 ∨ d = 3 ∨ d = 4 ∨ d = 5 ∨ d = 6 ∨ d = 7 ∨ d = 8 ∨ d = 9)%N
    as Hc by lia. by repeat destruct Hc as [->|Hc]; [..|rewrite Hc].
Qed.

Lemma read_digits_go x s :
  Z.of_N x < 2 ^ 30 → read_digits 0 (bytes_of (pretty_N_go x s)) = read_digits (Z.of_N x) (bytes_of s).
Proof.
  revert s. induction (N.lt_wf_0 x) as [x _ IH]; intros s Hx.
  destruct (decide (x = 0)%N) as [->|H0]; [by rewrite pretty_N_go_0|].
  rewrite pretty_N_go_step by lia. pose proof (N.mod_lt x 10 ltac:(lia)) as Hm.
  pose proof (N.div_mod x 10 ltac:(lia)) as Hd. set (q := (x `div` 10)%N) in *. set (r := (x `mod` 10)%N) in *.
  rewrite IH; [|apply N.div_lt; lia|lia].
  unfold bytes_of. cbn [String.list_ascii_of_string map read_digits]. unfold is_digit. rewrite (digit_byte _ Hm).
  rewrite (proj2 (andb_true_iff _ _)) by lia. rewrite (proj2 (Z.ltb_lt _ _)) by lia. f_equal. lia.
Qed.

Lemma read_pretty id : 0 ≤ id < 2 ^ 30 → read_digits 0 (bytes_of (pretty id)) = Ok (Some id).
Proof.
  intros Hid. destruct id as [|p|p]; [done| |lia]. change (pretty (Zpos p)) with (pretty_N (Npos p)).
  unfold pretty_N. rewrite decide_False by done. rewrite read_digits_go by (simpl; lia). done.
Qed.

Lemma pretty_nonempty id : 0 ≤ id < 2 ^ 30 → bytes_of (pretty id) ≠ [].
Proof. intros Hid H. pose proof (read_pretty id Hid) as Hr. rewrite H in Hr. injection Hr as <-. discriminate H. Qed.

(** The identity of a node gives its id back. *)
Lemma GetNodeID_identity id : 0 ≤ id < 2 ^ 30 → GetNodeID (identity_of id) = Ok id.
Proof.
  intros Hid. unfold identity_of. cbn [bytes_of String.list_ascii_of_string map app]. unfold GetNodeID.
  pose proof (pretty_nonempty id Hid) as Hne. pose proof (read_pretty id Hid) as Hr.
  destruct (bytes_of (pretty id)) as [|b bs] eqn:E; [done|]. change (map _ _ ++ _) with (b :: bs).
  cbn [length]. change (_ && _ && _) with true. cbn iota. by rewrite Hr.
Qed.

(** ** The library *)

(** Where a message goes: to the node that listens on an address, or to the
    socket with an identity that is connected to the address. *)
Inductive destination : Type :=
| Listener (address : list byte)
| Peer (address identity : list byte).

(** What ZeroMQ does with a complete message: a ROUTER puts the identity of the
    sending socket in front of the parts it receives, and takes the first part
    it is given as the identity of the receiver. *)
Definition arrival (v : t) (anonymous : list byte) (m : Z * list (list byte)) : option (destination * list (list byte)) :=
  match sockets v !! m.1, m.2 with
  | Some (DEALER name a), parts => Some (Listener a, default anonymous name :: parts)
  | Some (ROUTER a), dst :: parts => Some (Peer a dst, parts)
  | _, _ => None
  end.

(** A socket of [v] that one of its threads reads gets what is sent to [d]. *)
Definition receives (v : t) (d : destination) : Prop :=
  ∃ s, s ∈ thread_list_ v ∧
    sockets v !! s = Some (match d with Listener a => ROUTER a | Peer a name => DEALER (Some name) a end).

(** ** Sending *)

(** The van after the message [parts] has been given to socket [s]. *)
Definition finish (s : Z) (parts : list (list byte)) (v : t) : t :=
  v <| unsent ::= delete s |> <| sent ::= (λ l, l ++ [(s, parts)]) |>.

Lemma finish_more s part parts v : finish s parts (zmq_msg_send s part true v) = finish s parts v.
Proof.
  transitivity (v <| unsent := delete s (<[s := default [] (unsent v !! s) ++ [part]]> (unsent v)) |>
                  <| sent ::= (λ l, l ++ [(s, parts)]) |>); [reflexivity|]. by rewrite delete_insert_eq.
Qed.

Lemma unsent_more s part v : default [] (unsent (zmq_msg_send s part true v) !! s) = default [] (unsent v !! s) ++ [part].
Proof. unfold zmq_msg_send. simpl. by rewrite lookup_insert_eq. Qed.

(** The number of bytes of arrays. *)
Definition bytes_in (data : list (SArray.t byte)) : Z := foldr (λ a n, SArray.size a + n) 0 data.

Section messages.
Context (QP_NUM : Z) (Hqp : QP_NUM ≤ Z.of_nat QP_MAX_NUM).
Context (new_char : Z → list byte) (Hnew : ∀ n, 0 ≤ n → length (new_char n) = Z.to_nat n).

#[local] Abbreviation taken := (λ _ : nat, false).

Lemma send_data_all s i data n v :
  data ≠ [] →
  send_data taken s i data n v =
    (i32 (n + bytes_in data), finish s (default [] (unsent v !! s) ++ map SArray.elems data) v).
Proof.
  revert i n v. induction data as [|a data IH]; intros i n v Hne; [done|]. cbn [send_data bytes_in foldr map].
  destruct data as [|b data].
  - cbn. f_equal. rewrite swrap_add_r by lia. f_equal. lia.
  - cbn [length Nat.eqb negb]. rewrite IH by done. rewrite finish_more, unsent_more, <-app_assoc. f_equal.
    rewrite swrap_add_l, Z.add_comm, Z.add_assoc, swrap_add_r by lia. f_equal. unfold bytes_in. lia.
Qed.

(** [ZmqSendMsg] hands the packed meta data and the arrays to the library. *)
Lemma ZmqSendMsg_Ok s msg v :
  meta_wf (Message.meta msg) → is_Some (sockets v !! s) →
  ∃ mb n, ZmqSendMsg QP_NUM new_char taken s msg v =
      Ok (n, finish s (default [] (unsent v !! s) ++ mb :: map SArray.elems (Message.data msg)) v) ∧
    n = i32 (Z.of_nat (length mb) + bytes_in (Message.data msg)) ∧
    ∀ m0, Control.node (Meta.control m0) = [] → Meta.shape m0 = [] →
      UnpackMeta false mb m0 = Ok (transmitted false (Message.meta msg) m0).
Proof.
  intros Hwf Hs. assert (0 ≤ GetPackMetaLen (Message.meta msg) < 2 ^ 31) as Hlen.
  { destruct Hwf as (_ & _ & _ & _ & _ & _ & _ & _ & Hsz). unfold GetPackMetaLen.
    rewrite swrap_small by (lia || word_lia). lia. }
  destruct (PackMeta_packed false QP_NUM (Message.meta msg) None new_char Hwf Hqp) as (buf & old & Hp & Hb & Ht & Ho);
    [rewrite Hnew; lia|].
  rewrite Hnew in Hb by lia. unfold ZmqSendMsg. rewrite bool_decide_eq_true_2 by done. rewrite (bind_eq _ _ _ Hp).
  set (len := GetPackMetaLen (Message.meta msg)) in *. clearbody len.
  exists (take (Z.to_nat len) buf). eexists. split; [|split; [reflexivity|]].
  - rewrite length_take, Hb, Nat.min_l, Z2Nat.id by lia. destruct (Message.data msg) as [|a data] eqn:Ed.
    + cbn. rewrite Z.add_0_r, swrap_small by (lia || word_lia). done.
    + cbn [length Nat.eqb negb]. rewrite send_data_all by done. rewrite finish_more, unsent_more, <-app_assoc. done.
  - intros m0 Hn Hsh. rewrite Ht. by apply unpack_parts.
Qed.

(** ** Receiving *)
Context (zmq_msg_data : nat → Z).

(** A buffer registered for the sender and the key has the size of the values. *)
Definition fits (v : t) (x : Z) (parts : list (list byte)) : Prop :=
  ∀ ks vs rest buffs, parts = ks :: vs :: rest → vs ≠ [] → registered_buffs_ v !! x = Some buffs →
    (8 ≤ length ks)%nat ∧ ∀ b, buffs !! dec_u64 (take 8 ks) = Some b → length (SArray.elems b) = length vs.

Lemma recv_data_rest m i parts data v :
  (2 ≤ i)%nat →
  ∃ arrays, recv_data zmq_msg_data m i parts data v = Ok (data ++ arrays, v) ∧ map SArray.elems arrays = parts.
Proof.
  revert i data. induction parts as [|part parts IH]; intros i data Hi; cbn [recv_data].
  { exists []. by rewrite app_nil_r. }
  rewrite (proj2 (Nat.eqb_neq i 1)) by lia. cbn [andb mbind result_bind].
  destruct (IH (S i) (data ++ [SArray.reset (zmq_msg_data i) part (Meta.src_dev_type m) (Meta.src_dev_id m)
    (Meta.dst_dev_type m) (Meta.dst_dev_id m)]) ltac:(lia)) as (arrays & -> & He).
  rewrite <-app_assoc. eexists. split; [reflexivity|]. simpl. by rewrite He.
Qed.

Lemma recv_data_Ok m parts v :
  fits v (Meta.sender m) parts →
  ∃ arrays v', recv_data zmq_msg_data m 0 parts [] v = Ok (arrays, v') ∧ map SArray.elems arrays = parts.
Proof.
  intros Hfit. destruct parts as [|ks parts]; [by exists [], v|]. cbn [recv_data Nat.eqb andb mbind result_bind app].
  destruct parts as [|vs rest]; [by eexists _, _|]. cbn [recv_data Nat.eqb andb lookup list_lookup].
  set (a0 := SArray.reset (zmq_msg_data 0) ks _ _ _ _). set (a1 := SArray.reset (zmq_msg_data 1) vs _ _ _ _).
  assert (∀ w, ∃ arrays v', recv_data zmq_msg_data m 2 rest [a0; a1] w = Ok (arrays, v') ∧
    map SArray.elems arrays = ks :: vs :: rest) as Hown.
  { intros w. destruct (recv_data_rest m 2 rest [a0; a1] w) as (arrays & -> & He); [lia|].
    eexists _, w. split; [reflexivity|]. by rewrite map_app, He. }
  destruct (negb (length vs =? 0)%nat) eqn:E0; [|exact (Hown v)]. unfold registered_for.
  destruct (registered_buffs_ v !! Meta.sender m) as [buffs|] eqn:Eb; [|exact (Hown v)].
  destruct (Hfit ks vs rest buffs) as [H8 Hb]; [done|by intros ->|done|]. cbn [from_option_or mbind result_bind].
  unfold read_key. change (SArray.elems a0) with ks. rewrite (proj2 (Nat.leb_le _ _) H8). cbn [mbind result_bind].
  destruct (buffs !! dec_u64 (take 8 ks)) as [b|] eqn:Ek; [|exact (Hown v)]. cbn [fmap option_fmap option_map].
  rewrite (Hb b eq_refl), Nat.eqb_refl. cbn [app].
  destruct (recv_data_rest m 2 rest [a0; b <| SArray.elems := vs |>]
    (v <| registered_buffs_ ::= alter (<[dec_u64 (take 8 ks) := b <| SArray.elems := vs |>]>) (Meta.sender m) |>))
    as (arrays & -> & He); [lia|].
  eexists _, _. split; [reflexivity|]. by rewrite map_app, He.
Qed.

(** ** Delivery *)
Definition id_of (v : t) : Z := Node.id (my_node_ v).

(** [x] is connected to [y]: its socket shows the id of [x] and leads to the
    listening socket of [y], which a thread reads; a worker also reads the
    socket itself. *)
Definition linked (x y : t) : Prop :=
  ∃ s a, senders_ x !! id_of y = Some s ∧ sockets x !! s = Some (DEALER (Some (identity_of (id_of x))) a) ∧
    sockets y !! receiver_ y = Some (ROUTER a) ∧ receiver_ y ∈ thread_list_ y ∧
    (is_worker_ x = true → s ∈ thread_list_ x).

(** The message is on its way: what [x] gives to the library arrives at a socket
    [y] reads, with the id of [x] in front. *)
Definition underway (x x' y : t) (mb : list byte) (data : list (SArray.t byte)) : Prop :=
  ∃ s parts d, sent x' = sent x ++ [(s, parts)] ∧ receives y d ∧
    ∀ anonymous, arrival x' anonymous (s, parts) = Some (d, identity_of (id_of x) :: mb :: map SArray.elems data).

(** Only workers get answers from a ROUTER: data messages rely on ids that tell
    who is a worker. *)
Definition roles_agree (y : t) (m : Meta.t) : Prop :=
  Meta.simple_app m = false → Control.empty (Meta.control m) = true →
  is_worker_ y = bool_decide (GetRoleFromId (id_of y) = Node.WORKER).

Lemma send_underway x y msg :
  linked x y → linked y x → roles_agree y (Message.meta msg) →
  id_of y ≠ kEmpty → unsent x = ∅ → Meta.recver (Message.meta msg) = id_of y → meta_wf (Message.meta msg) →
  ∃ n x' mb, SendMsg QP_NUM new_char taken msg x = Ok (n, x') ∧ underway x x' y mb (Message.data msg) ∧
    n = i32 (Z.of_nat (length mb) + bytes_in (Message.data msg)) ∧
    ∀ m0, Control.node (Meta.control m0) = [] → Meta.shape m0 = [] →
      UnpackMeta false mb m0 = Ok (transmitted false (Message.meta msg) m0).
Proof.
  intros (s & a & Hs & Hd & Hr & Ht & _) (s' & a' & _ & Hd' & Hr' & _ & Hw') Hrole Hid Hu Hto Hwf.
  assert (∃ n x' mb, ZmqSendMsg QP_NUM new_char taken s msg x = Ok (n, x') ∧ underway x x' y mb (Message.data msg) ∧
    n = i32 (Z.of_nat (length mb) + bytes_in (Message.data msg)) ∧
    ∀ m0, Control.node (Meta.control m0) = [] → Meta.shape m0 = [] →
      UnpackMeta false mb m0 = Ok (transmitted false (Message.meta msg) m0)) as Hdirect.
  { destruct (ZmqSendMsg_Ok s msg x Hwf ltac:(eauto)) as (mb & n & Hz & Hn & Hm). rewrite Hu in Hz.
    eexists n, _, mb. split; [exact Hz|]. split; [|done].
    exists s, (mb :: map SArray.elems (Message.data msg)), (Listener a). split; [reflexivity|]. split; [by exists (receiver_ y)|].
    intros anonymous. unfold arrival. cbn [fst snd]. change (sockets (finish _ _ x)) with (sockets x). by rewrite Hd. }
  unfold SendMsg, NonWorkerSendMsg. rewrite Hto, Hs, (proj2 (Z.eqb_neq _ _) Hid). cbn [negb].
  destruct (is_worker_ x); cbn [negb]; [exact Hdirect|].
  destruct (_ || _) eqn:Ec; [exact Hdirect|]. apply orb_false_iff in Ec as [[Ea Eb]%orb_false_iff Ec].
  apply negb_false_iff in Eb, Ec. pose proof (Hrole Ea Eb) as Hworker. rewrite Ec in Hworker. clear Hrole. set (r := receiver_ x) in *.
  set (x1 := zmq_msg_send r (identity_of (id_of y)) true x).
  set (x2 := zmq_msg_send r (identity_of (Node.id (my_node_ x1))) true x1).
  destruct (ZmqSendMsg_Ok r msg x2 Hwf) as (mb & n & Hz & Hn & Hm); [change (sockets x2) with (sockets x); eauto|].
  exists n. eexists. exists mb. split; [exact Hz|]. split; [|done].
  exists r, (identity_of (id_of y) :: identity_of (id_of x) :: mb :: map SArray.elems (Message.data msg)),
    (Peer a' (identity_of (id_of y))). split; [|split].
  - unfold x2. rewrite unsent_more. unfold x1 at 1. rewrite unsent_more, Hu, lookup_empty. reflexivity.
  - exists s'. split; [by apply Hw'|exact Hd'].
  - intros anonymous. unfold arrival. cbn [fst snd]. change (sockets (finish _ _ x2)) with (sockets x). by rewrite Hr'.
Qed.

Lemma bytes_received n data :
  foldl (λ s (p : list byte), s + Z.of_nat (length p)) n (map SArray.elems data) = n + bytes_in data.
Proof.
  revert n. induction data as [|a data IH]; intros n; simpl; [lia|]. rewrite IH. unfold SArray.size. lia.
Qed.

(** What [RecvMsg] of [y] returns for a message that is underway. *)
Lemma receive_underway x x' y msg mb n :
  underway x x' y mb (Message.data msg) → 0 ≤ id_of x < 2 ^ 30 → recv_buffers_ y = [] →
  fits y (id_of x) (map SArray.elems (Message.data msg)) →
  n = i32 (Z.of_nat (length mb) + bytes_in (Message.data msg)) →
  (∀ m0, Control.node (Meta.control m0) = [] → Meta.shape m0 = [] →
     UnpackMeta false mb m0 = Ok (transmitted false (Message.meta msg) m0)) →
  ∃ s parts d rparts y1 arrays y',
    sent x' = sent x ++ [(s, parts)] ∧ (∀ anonymous, arrival x' anonymous (s, parts) = Some (d, rparts)) ∧ receives y d ∧
    CallZmqRecvThread rparts y = Ok y1 ∧
    RecvMsg zmq_msg_data Meta.default y1 =
      Ok (n, Message.mk (transmitted false (Message.meta msg)
            (Meta.default <| Meta.sender := id_of x |> <| Meta.recver := id_of y |>)) arrays, y') ∧
    map SArray.elems arrays = map SArray.elems (Message.data msg).
Proof.
  intros (s & parts & d & Hsent & Hrec & Harr) Hx Hq Hfit Hn Hm.
  set (y1 := y <| recv_buffers_ := [mkZmqContext (id_of x) mb (map SArray.elems (Message.data msg))] |>).
  set (m := transmitted false (Message.meta msg) (Meta.default <| Meta.sender := id_of x |> <| Meta.recver := id_of y |>)).
  destruct (recv_data_Ok m (map SArray.elems (Message.data msg)) (y1 <| recv_buffers_ := [] |>)) as (arrays & y' & Hd & He); [exact Hfit|].
  exists s, parts, d, (identity_of (id_of x) :: mb :: map SArray.elems (Message.data msg)), y1, arrays, y'.
  split_and!; try done.
  - unfold CallZmqRecvThread. rewrite GetNodeID_identity by done. cbn [mbind result_bind].
    transitivity (Ok (y <| recv_buffers_ := recv_buffers_ y ++ [mkZmqContext (id_of x) mb (map SArray.elems (Message.data msg))] |>));
      [reflexivity|]. by rewrite Hq.
  - unfold RecvMsg. change (recv_buffers_ y1) with [mkZmqContext (id_of x) mb (map SArray.elems (Message.data msg))]. cbn iota.
    assert (UnpackMeta false mb (Meta.default <| Meta.sender := id_of x |> <| Meta.recver := id_of y |>) = Ok m) as Hu1
      by (by apply Hm).
    cbn [zb_sender meta_zmsg data_zmsg]. rewrite (bind_eq _ _ _ Hu1), (bind_eq _ _ _ Hd), bytes_received, <-Hn. reflexivity.
Qed.

(** C6. A message between two nodes that are connected to each other, in whatever
    direction and of whatever kind: sending it succeeds and reports its bytes,
    its parts reach a socket the other node reads, and [RecvMsg] there returns
    the meta data of the sender, the sender's id, the same number of bytes and
    the same arrays; values for which a buffer was registered are put there. *)
Theorem zmq_delivers x y msg :
  linked x y → linked y x → roles_agree y (Message.meta msg) →
  0 ≤ id_of x < 2 ^ 30 → id_of y ≠ kEmpty → unsent x = ∅ → recv_buffers_ y = [] →
  Meta.recver (Message.meta msg) = id_of y → meta_wf (Message.meta msg) →
  fits y (id_of x) (map SArray.elems (Message.data msg)) →
  ∃ n x' s parts d rparts y1 msg' y',
    SendMsg QP_NUM new_char taken msg x = Ok (n, x') ∧ sent x' = sent x ++ [(s, parts)] ∧
    (∀ anonymous, arrival x' anonymous (s, parts) = Some (d, rparts)) ∧ receives y d ∧
    CallZmqRecvThread rparts y = Ok y1 ∧ RecvMsg zmq_msg_data Meta.default y1 = Ok (n, msg', y') ∧
    Message.meta msg' = transmitted false (Message.meta msg)
      (Meta.default <| Meta.sender := id_of x |> <| Meta.recver := id_of y |>) ∧
    map SArray.elems (Message.data msg') = map SArray.elems (Message.data msg).
Proof.
  intros Hxy Hyx Hrole Hx Hid Hu Hq Hto Hwf Hfit.
  destruct (send_underway x y msg Hxy Hyx Hrole Hid Hu Hto Hwf) as (n & x' & mb & Hsend & Hway & Hn & Hm).
  destruct (receive_underway x x' y msg mb n Hway Hx Hq Hfit Hn Hm)
    as (s & parts & d & rparts & y1 & arrays & y' & Hsent & Harr & Hrec & Hthread & Hrecv & He).
  eexists n, x', s, parts, d, rparts, y1, _, y'. split_and!; try done.
Qed.
End messages.

(** ** Connections *)
Lemma bind_connect_address e n port :
  Node.hostname n ≠ [] → Node.role n ≠ Node.SCHEDULER →
  bind_address e n ++ bytes_of (pretty port) = connect_address e (n <| Node.port := port |>).
Proof.
  intros Hh Hr. unfold bind_address, connect_address. rewrite bool_decide_eq_false_2, andb_false_r by done.
  change (Node.hostname (n <| Node.port := port |>)) with (Node.hostname n).
  change (Node.port (n <| Node.port := port |>)) with port.
  destruct (_ =? 0); [|done]. rewrite <-!app_assoc. by destruct (Node.hostname n).
Qed.

(** The first [Connect] to a node of another role, or between the vans of a
    [MultiVan], makes the connection of the theorem. *)
Lemma Connect_linked e x y x' :
  Connect e (my_node_ y) x = Ok x' → senders_ x !! id_of y = None → id_of x ≠ kEmpty →
  Node.role (my_node_ y) ≠ Node.role (my_node_ x) ∨ id_of y = id_of x ∨ standalone_ x = true →
  sockets y !! receiver_ y = Some (ROUTER (connect_address e (my_node_ y))) → receiver_ y ∈ thread_list_ y →
  linked x' y ∧ my_node_ x' = my_node_ x.
Proof.
  unfold Connect. intros H Hnew Hid Hwanted Hr Ht. fold (id_of y) in H.
  do 3 (destruct (negb _); [|discriminate H]). rewrite Hnew in H.
  replace (bool_decide (Node.role (my_node_ y) = Node.role (my_node_ x)) && negb (id_of y =? Node.id (my_node_ x)) && negb (standalone_ x))
    with false in H.
  2:{ fold (id_of x). destruct Hwanted as [Hw|[->| ->]]; [|by rewrite Z.eqb_refl, andb_false_r|by rewrite andb_false_r].
      by rewrite bool_decide_eq_false_2. }
  fold (id_of x) in H. rewrite (proj2 (Z.eqb_neq _ _) Hid), bool_decide_eq_true_2 in H by done. cbn [negb andb] in H.
  unfold open_socket in H. set (x1 := x <| sockets ::= _ |> <| next_socket ::= _ |>) in H.
  assert (is_worker_ x1 = is_worker_ x) as Hw by done. rewrite Hw, andb_true_r in H.
  assert (sockets x1 !! next_socket x = Some (DEALER (Some (identity_of (id_of x))) (connect_address e (my_node_ y)))) as Hs
    by (apply lookup_insert_eq).
  split; [|destruct (is_worker_ x); injection H as <-; reflexivity].
  exists (next_socket x), (connect_address e (my_node_ y)).
  destruct (is_worker_ x) eqn:Ew; injection H as <-; split_and!; try done; try apply lookup_insert_eq.
  - intros _. apply elem_of_app. right. by left.
  - intros Hf. unfold x1 in Hf. simpl in Hf. congruence.
Qed.

(** A worker that connects again to a node it knows (the node was restarted)
    starts no thread for the new socket: nothing reads the answers that come
    back on it. *)
Theorem reconnect_not_read e x node x' :
  Connect e node x = Ok x' → is_worker_ x = true → is_Some (senders_ x !! Node.id node) →
  Node.role node ≠ Node.role (my_node_ x) → next_socket x ∉ thread_list_ x →
  senders_ x' !! Node.id node = Some (next_socket x) ∧ next_socket x ∉ thread_list_ x'.
Proof.
  unfold Connect. intros H Hw [old Hold] Hrole Hnext. do 3 (destruct (negb _); [|discriminate H]). rewrite Hold in H.
  rewrite (bool_decide_eq_false_2 (Node.role node = _)) in H by done. cbn [andb] in H.
  unfold open_socket in H. rewrite (bool_decide_eq_false_2 (Some old = None)), andb_false_r in H by done. injection H as <-.
  split; [apply lookup_insert_eq|exact Hnext].
Qed.

(** ** A worker and a server *)
Definition demo_env : Environment := mkEnv ∅ (λ _, None).
Definition demo_node (role : Node.Role) (id port : Z) : Node.t :=
  Node.mk role id 0 (bytes_of "127.0.0.1") 1 (replicate 32 0) (replicate 32 0) (replicate 32 0) port false (replicate 64 x00) 0 (-1).
Definition demo_w : Node.t := demo_node Node.WORKER 9 5009.
Definition demo_s : Node.t := demo_node Node.SERVER 8 5008.

(** [Bind] and [Connect] of a node that knows its id. *)
Definition demo_join (mine other : Node.t) : result t :=
  x ← Bind (λ _, true) (λ _, 0) demo_env mine 40 (new mine);
  Connect demo_env other x.2.
Definition demo_zmq (mine other : Node.t) : t := match demo_join mine other with Ok v => v | Err _ => new mine end.

Definition demo_buffer : SArray.t byte := SArray.mk 4096 [x00; x00] DeviceType.CPU 0 DeviceType.CPU 0.
Definition demo_arrays : list (SArray.t byte) :=
  map (λ bs, SArray.mk 64 bs DeviceType.CPU 0 DeviceType.CPU 0) [enc_u64 5; [x0a; x0b]; enc_int 2].
Definition demo_server_zmq : t := (demo_zmq demo_s demo_w) <| registered_buffs_ := {[9 := {[5 := demo_buffer]}]} |>.
Definition demo_zmq_push : Message.t :=
  Message.mk (Meta.default <| Meta.recver := 8 |> <| Meta.push := true |> <| Meta.request := true |>) demo_arrays.

Lemma zmq_delivers_witness :
  ∃ n x' s parts d rparts y1 msg' y',
    SendMsg 2 (λ n, replicate (Z.to_nat n) x00) (λ _, false) demo_zmq_push (demo_zmq demo_w demo_s) = Ok (n, x') ∧
    sent x' = sent (demo_zmq demo_w demo_s) ++ [(s, parts)] ∧
    (∀ anonymous, arrival x' anonymous (s, parts) = Some (d, rparts)) ∧ receives demo_server_zmq d ∧
    CallZmqRecvThread rparts demo_server_zmq = Ok y1 ∧ RecvMsg (λ _, 512) Meta.default y1 = Ok (n, msg', y') ∧
    Message.meta msg' = transmitted false (Message.meta demo_zmq_push) (Meta.default <| Meta.sender := 9 |> <| Meta.recver := 8 |>) ∧
    map SArray.elems (Message.data msg') = [enc_u64 5; [x0a; x0b]; enc_int 2].
Proof.
  apply (zmq_delivers 2 ltac:(done) (λ n, replicate (Z.to_nat n) x00) ltac:(intros; apply length_replicate) (λ _, 512)
    (demo_zmq demo_w demo_s) demo_server_zmq demo_zmq_push).
  - exists 2. eexists. split; [vm_compute; reflexivity|]. split; [vm_compute; reflexivity|].
    split; [vm_compute; reflexivity|]. split; [left|]. intros _. right. left.
  - exists 2. eexists. split; [vm_compute; reflexivity|]. split; [vm_compute; reflexivity|].
    split; [vm_compute; reflexivity|]. split; [left|]. discriminate.
  - intros _ _. vm_compute. reflexivity.
  - done.
  - discriminate.
  - vm_compute. reflexivity.
  - vm_compute. reflexivity.
  - vm_compute. reflexivity.
  - apply (bool_decide_unpack _). vm_compute. exact I.
  - intros ks vs rest buffs [= <- <- <-] _. vm_compute. intros [= <-]. split; [lia|].
    intros b. vm_compute. by intros [= <-].
Defined.
