(* ===== verification/MultiVan.v ===== *)
(** * The van with several ports (src/multi_van.h)

    [MultiVan] has one ZeroMQ van per port.  The vans below know a node under
    one managed id per port; the messages of a device take the van of its
    number, and the ids are translated on the way in and out. *)

From S2P Require Import Prelude Message Env Codec ZmqVan ZmqFacts.

Module MultiVan.
Definition ID_OFFSET : Z := 1000000.
Definition MAX_NUM_IDS : Z := 1000.

Record MultiVanBufferContext : Type := mkMultiContext { msg_len : Z; src_idx : Z; mc_msg : Message.t }.

Record t : Type := mk {
  my_node_ : Node.t;
  should_stop_ : bool;
  is_scheduler_ : bool;
  num_ports_ : Z;
  vans_ : list ZMQVan.t;
  my_nodes_ : list Node.t;
  recv_buffers_ : list MultiVanBufferContext
}.

(** ** Managed ids *)
Definition EncodeManagedID (id index : Z) : result Z :=
  if id =? kEmpty then Ok kEmpty
  else check! (id <? MAX_NUM_IDS) or "id < MAX_NUM_IDS"; Ok (ID_OFFSET + id + index * MAX_NUM_IDS).

Definition DecodeMangedID (managed_id : Z) : Z :=
  if managed_id =? kEmpty then managed_id else Z.rem (managed_id - ID_OFFSET) MAX_NUM_IDS.

(** [a[i]] of a [std::array] or a [std::vector], and its assignment *)
Definition at_ {A} (l : list A) (i : Z) : result A :=
  inside! (0 <=? i) or "index"; from_option_or (Undefined "index") (l !! Z.to_nat i).
Definition put {A} (i : Z) (a : A) (l : list A) : result (list A) :=
  inside! ((0 <=? i) && (i <? Z.of_nat (length l))) or "index"; Ok (<[Z.to_nat i := a]> l).

(** The ports [0 .. num_ports_ - 1], for a loop that changes the van. *)
Fixpoint each {S} (f : Z → S → result S) (l : list Z) (s : S) : result S :=
  match l with [] => Ok s | i :: l' => s ← f i s; each f l' s end.

(** ** Start *)
Definition num_ports (e : Environment) (role : string) : Z :=
  match find e "DMLC_NUM_PORTS" with
  | Some s => if bool_decide (role = "scheduler") then 1 else atoi s
  | None => 1
  end.

(** The vans below; the rest is [Van::Start]. *)
Definition Start (e : Environment) (blank : Node.t) (v : t) : result t :=
  role ← from_option_or (Undefined "DMLC_ROLE") (find e "DMLC_ROLE");
  let n := num_ports e role in
  Ok (v <| should_stop_ := false |> <| is_scheduler_ := bool_decide (role = "scheduler") |> <| num_ports_ := n |>
        <| vans_ ::= (λ l, l ++ replicate (Z.to_nat n) (ZMQVan.Start true (ZMQVan.new blank))) |>).

(** ** Nodes *)
Section bind.
(** The answers of the library to the van of port [i]. *)
Context (zmq_bind : Z → list byte → bool) (rnd : Z → nat → Z) (e : Environment).

(** One port of [Bind]: the node with its bound ports, and the van. *)
Definition bind_one (max_retry : nat) (i : Z) (s : Node.t * t) : result (Node.t * t) :=
  let '(node, v) := s in
  port ← at_ (Node.ports node) i;
  id ← EncodeManagedID (Node.id node) i;
  ps ← put 0 port (Node.ports node);
  dts ← put i (DeviceType.to_Z DeviceType.CPU) (Node.dev_types node);
  dis ← put i i (Node.dev_ids node);
  let one_node := node <| Node.id := id |> <| Node.num_ports := 1 |> <| Node.ports := ps |>
                       <| Node.dev_types := dts |> <| Node.dev_ids := dis |> in
  w ← at_ (vans_ v) i;
  x ← ZMQVan.Bind (zmq_bind i) (rnd i) e one_node max_retry w;
  ws ← put i x.2 (vans_ v);
  bound ← put i x.1 (Node.ports node);
  ns ← put i one_node (my_nodes_ v);
  Ok (node <| Node.dev_types := dts |> <| Node.dev_ids := dis |> <| Node.ports := bound |>,
      v <| vans_ := ws |> <| my_nodes_ := ns |>).

Definition Bind (node : Node.t) (max_retry : nat) (v : t) : result (Z * Node.t * t) :=
  check! (Node.num_ports node =? num_ports_ v) or "node.num_ports";
  let blank := node <| Node.id := kEmpty |> in
  let v := v <| my_nodes_ := take (Z.to_nat (num_ports_ v)) (my_nodes_ v ++ replicate (Z.to_nat (num_ports_ v)) blank) |> in
  s ← each (bind_one max_retry) (seqZ 0 (num_ports_ v)) (node, v);
  p ← at_ (Node.ports s.1) 0;
  Ok (p, s.1, s.2).
End bind.

(** One port of a node, as the vans below see it. *)
Definition port_node (node : Node.t) (j : Z) : result Node.t :=
  id ← EncodeManagedID (Node.id node) j;
  p ← at_ (Node.ports node) j;
  ps ← put 0 p (Node.ports node);
  Ok (node <| Node.id := id |> <| Node.num_ports := 1 |> <| Node.port := p |> <| Node.ports := ps |>).

Definition connect_one (e : Environment) (node : Node.t) (i j : Z) (v : t) : result t :=
  n ← port_node node j;
  w ← at_ (vans_ v) i;
  w ← ZMQVan.Connect e n w;
  ws ← put i w (vans_ v);
  Ok (v <| vans_ := ws |>).

Definition Connect (e : Environment) (node : Node.t) (v : t) : result t :=
  check! negb (Node.id node =? kEmpty) or "node.id";
  check! negb (Node.port node =? kEmpty) or "node.port";
  check! negb (length (Node.hostname node) =? 0)%nat or "node.hostname.size()";
  if bool_decide (Node.role node = Node.role (my_node_ v)) && negb (Node.id node =? Node.id (my_node_ v)) then Ok v
  else each (λ i, each (connect_one e node i) (seqZ 0 (Node.num_ports node))) (seqZ 0 (num_ports_ v)) v.

(** One port of [SetNode]. *)
Definition set_one (node : Node.t) (i : Z) (v : t) : result t :=
  n ← port_node node i;
  dt ← at_ (Node.dev_types node) i;
  di ← at_ (Node.dev_ids node) i;
  dts ← put 0 dt (Node.dev_types node);
  dis ← put 0 di (Node.dev_ids node);
  let n := n <| Node.dev_types := dts |> <| Node.dev_ids := dis |> in
  w ← at_ (vans_ v) i;
  ws ← put i (ZMQVan.SetNode n w) (vans_ v);
  ns ← put i n (my_nodes_ v);
  Ok (v <| vans_ := ws |> <| my_nodes_ := ns |>).

Definition SetNode (node : Node.t) (v : t) : result t :=
  let v := v <| my_node_ := node |>
             <| my_nodes_ ::= (λ l, take (Z.to_nat (num_ports_ v)) (l ++ replicate (Z.to_nat (num_ports_ v)) node)) |> in
  each (set_one node) (seqZ 0 (num_ports_ v)) v.

(** ** Messages *)

(** The numbers of the vans at both ends: those of the devices of the values. *)
Definition device_route (msg : Message.t) (v : t) : result (Z * Z) :=
  match Message.IsValidPushpull msg, Message.data msg with
  | true, [_; vals; _] =>
      check! bool_decide (SArray.src_device_type_ vals = DeviceType.CPU) or "data.src_device_type_ == CPU";
      check! bool_decide (SArray.dst_device_type_ vals = DeviceType.CPU) or "data.dst_device_type_ == CPU";
      let src := SArray.src_device_id_ vals in
      n ← at_ (my_nodes_ v) src;
      dt ← at_ (Node.dev_types n) 0;
      di ← at_ (Node.dev_ids n) 0;
      check! (dt =? DeviceType.to_Z DeviceType.CPU) or "my_nodes_[src_idx].dev_types[0]";
      check! (di =? src) or "my_nodes_[src_idx].dev_ids[0]";
      Ok (src, SArray.dst_device_id_ vals)
  | _, _ => Ok (0, 0)
  end.

Section messages.
Context (QP_NUM : Z) (new_char : Z → list byte) (refused : nat → bool).

Definition SendMsg (msg : Message.t) (v : t) : result (Z * t) :=
  let m := Message.meta msg in
  check! negb (Meta.recver m =? kEmpty) or "remote_id";
  r ← device_route msg v;
  let '(src, dst) := r in
  w ← at_ (vans_ v) src;
  sender ← EncodeManagedID (Meta.sender m) src;
  recver ← EncodeManagedID (Meta.recver m) dst;
  let van_msg := Message.mk (m <| Meta.sender := sender |> <| Meta.recver := recver |>) (Message.data msg) in
  x ← ZMQVan.SendMsg QP_NUM new_char refused van_msg w;
  ws ← put src x.2 (vans_ v);
  Ok (x.1, v <| vans_ := ws |>).

(** [Stop] sends every van below a message to itself, to end its thread. *)
Definition stop_one (i : Z) (v : t) : result t :=
  n ← at_ (my_nodes_ v) i;
  w ← at_ (vans_ v) i;
  let meta := Meta.default <| Meta.control := Control.mk Control.TERMINATE [] 0 0 |> <| Meta.recver := Node.id n |> in
  x ← ZMQVan.SendMsg QP_NUM new_char refused (Message.mk meta []) w;
  ws ← put i x.2 (vans_ v);
  Ok (v <| vans_ := ws |>).
Definition Stop (v : t) : result t :=
  v ← each stop_one (seqZ 0 (num_ports_ v)) (v <| should_stop_ := true |>);
  Ok (v <| vans_ ::= map ZMQVan.Stop |>).
End messages.

Definition RegisterRecvBuffer (msg : Message.t) (v : t) : result t :=
  match Message.data msg with
  | [_; vals; _] =>
      sender ← EncodeManagedID (Meta.sender (Message.meta msg)) (SArray.src_device_id_ vals);
      w ← at_ (vans_ v) (SArray.dst_device_id_ vals);
      w ← ZMQVan.RegisterRecvBuffer (Message.mk ((Message.meta msg) <| Meta.sender := sender |>) (Message.data msg)) w;
      ws ← put (SArray.dst_device_id_ vals) w (vans_ v);
      Ok (v <| vans_ := ws |>)
  | _ => Err (CheckFailed "msg.data.size()")
  end.

(** One turn of [PollingThread]. *)
Definition PollingThread (zmq_msg_data : nat → Z) (index : Z) (v : t) : result t :=
  w ← at_ (vans_ v) index;
  x ← ZMQVan.RecvMsg zmq_msg_data Meta.default w;
  let '(recv_bytes, msg, w) := x in
  ws ← put index w (vans_ v);
  Ok (v <| vans_ := ws |> <| recv_buffers_ ::= (λ q, q ++ [mkMultiContext recv_bytes index msg]) |>).

Definition RecvMsg (v : t) : result (Z * Message.t * t) :=
  match recv_buffers_ v with
  | [] => Err (Blocked "recv_buffers_")
  | ctx :: rest =>
      let m := Message.meta (mc_msg ctx) in
      let m := m <| Meta.sender := DecodeMangedID (Meta.sender m) |> <| Meta.recver := DecodeMangedID (Meta.recver m) |> in
      Ok (msg_len ctx, Message.mk m (Message.data (mc_msg ctx)), v <| recv_buffers_ := rest |>)
  end.
End MultiVan.
