(* ===== verification/MultiFacts.v ===== *)
(** * Messages of the van with several ports

    Managed ids are translated back to the id of their node, and a message takes
    the van of its source device to the van of its destination device. *)

From S2P Require Import Prelude Message Env Codec ZmqVan ZmqFacts MultiVan.
Import MultiVan.

(** ** Managed ids *)
Definition managed (id index : Z) : Z := ID_OFFSET + id + index * MAX_NUM_IDS.

Lemma EncodeManagedID_Ok id index : id < MAX_NUM_IDS → EncodeManagedID id index = Ok (managed id index).
Proof.
  intros H. unfold EncodeManagedID. rewrite (proj2 (Z.eqb_neq id kEmpty)) by (unfold kEmpty, MAX_NUM_IDS in *; lia).
  by rewrite (proj2 (Z.ltb_lt _ _) H).
Qed.

Lemma DecodeMangedID_managed id index :
  0 ≤ id < MAX_NUM_IDS → 0 ≤ index → DecodeMangedID (managed id index) = id.
Proof.
  unfold DecodeMangedID, managed, kEmpty, ID_OFFSET, MAX_NUM_IDS. intros Hid Hi.
  rewrite (proj2 (Z.eqb_neq _ _)) by lia. rewrite Z.rem_mod_nonneg by lia.
  replace (1000000 + id + index * 1000 - 1000000) with (id + index * 1000) by lia.
  rewrite Z.mod_add, Z.mod_small by lia. done.
Qed.

(** The ids of the ports of the nodes are all different, and every port leads
    back to its node. *)
Theorem managed_ids_distinct id index id' index' :
  0 ≤ id < MAX_NUM_IDS → 0 ≤ id' < MAX_NUM_IDS → 0 ≤ index → 0 ≤ index' →
  ∃ k k', EncodeManagedID id index = Ok k ∧ EncodeManagedID id' index' = Ok k' ∧
    DecodeMangedID k = id ∧ (k = k' → id = id' ∧ index = index').
Proof.
  intros H1 H2 H3 H4. exists (managed id index), (managed id' index').
  rewrite !EncodeManagedID_Ok, DecodeMangedID_managed by lia. split_and!; try done.
  intros E. assert (id = id') as <-.
  { rewrite <-(DecodeMangedID_managed id index), E by done. by apply DecodeMangedID_managed. }
  split; [done|]. unfold managed, MAX_NUM_IDS in E. lia.
Qed.

(** The vans below tell workers and servers apart by their managed ids; the
    scheduler, an id below 8, is taken for a worker. *)
Lemma managed_role id index :
  0 ≤ id → 0 ≤ index →
  ZMQVan.GetRoleFromId (managed id index) = if Z.odd id then Node.WORKER else Node.SERVER.
Proof.
  intros H1 H2. unfold ZMQVan.GetRoleFromId, managed, ID_OFFSET, MAX_NUM_IDS. rewrite (proj2 (Z.ltb_ge _ _)) by lia.
  rewrite Z.rem_mod_nonneg by lia.
  replace (1000000 + id + index * 1000) with (id + (500000 + index * 500) * 2) by lia. rewrite Z.mod_add by lia.
  rewrite Zmod_odd. by destruct (Z.odd id).
Qed.

Lemma managed_scheduler : ZMQVan.GetRoleFromId (managed kScheduler 0) = Node.WORKER.
Proof. reflexivity. Qed.

(** ** A message through two vans *)
Lemma at_lookup {A} (l : list A) i a : at_ l i = Ok a ↔ 0 ≤ i ∧ l !! Z.to_nat i = Some a.
Proof.
  unfold at_. destruct (0 <=? i) eqn:E; [|split; [done|lia]]. rewrite from_option_or_Ok. split; [|tauto].
  intros H. split; [lia|done].
Qed.

Lemma put_Ok {A} (l : list A) i a b : at_ l i = Ok b → put i a l = Ok (<[Z.to_nat i := a]> l).
Proof.
  intros [H0 H]%at_lookup. unfold put. apply lookup_lt_Some in H. rewrite (proj2 (andb_true_iff _ _)) by (split; lia). done.
Qed.

Section messages.
Context (QP_NUM : Z) (Hqp : QP_NUM ≤ Z.of_nat QP_MAX_NUM).
Context (new_char : Z → list byte) (Hnew : ∀ n, 0 ≤ n → length (new_char n) = Z.to_nat n).
Context (zmq_msg_data : nat → Z).

(** The nodes as the vans below know them: van [src] of node [x] and van [dst]
    of node [y], connected to each other. *)
Record joined (x y : Z) (v w : t) (src dst : Z) (vc wc : ZMQVan.t) : Prop := {
  jn_x : 0 ≤ x < MAX_NUM_IDS;
  jn_y : 0 ≤ y < MAX_NUM_IDS;
  jn_src : at_ (vans_ v) src = Ok vc;
  jn_dst : at_ (vans_ w) dst = Ok wc;
  jn_vid : id_of vc = managed x src;
  jn_wid : id_of wc = managed y dst;
  jn_vw : linked vc wc;
  jn_wv : linked wc vc
}.

(** C28. A message from node [x] to node [y] takes the van of the device its values
    are on to the van of the device they go to, and [RecvMsg] of [y] returns
    it with the ids of the nodes, its meta data and its arrays. *)
Theorem multi_delivers x y v w src dst vc wc msg :
  joined x y v w src dst vc wc → device_route msg v = Ok (src, dst) →
  src < 2 ^ 16 → roles_agree wc (Message.meta msg) → ZMQVan.unsent vc = ∅ →
  ZMQVan.recv_buffers_ wc = [] → recv_buffers_ w = [] →
  Meta.sender (Message.meta msg) = x → Meta.recver (Message.meta msg) = y → meta_wf (Message.meta msg) →
  fits wc (managed x src) (map SArray.elems (Message.data msg)) →
  ∃ n v' vc' s parts d rparts wc' w1 msg' w',
    SendMsg QP_NUM new_char (λ _, false) msg v = Ok (n, v') ∧ at_ (vans_ v') src = Ok vc' ∧
    ZMQVan.sent vc' = ZMQVan.sent vc ++ [(s, parts)] ∧
    (∀ anonymous, arrival vc' anonymous (s, parts) = Some (d, rparts)) ∧ receives wc d ∧
    ZMQVan.CallZmqRecvThread rparts wc = Ok wc' ∧
    PollingThread zmq_msg_data dst (w <| vans_ ::= <[Z.to_nat dst := wc']> |>) = Ok w1 ∧
    RecvMsg w1 = Ok (n, msg', w') ∧
    Message.meta msg' = transmitted false (Message.meta msg) (Meta.default <| Meta.sender := x |> <| Meta.recver := y |>) ∧
    map SArray.elems (Message.data msg') = map SArray.elems (Message.data msg).
Proof.
  intros [Hx Hy Hvc Hwc Hvid Hwid Hvw Hwv] Hroute Hsrc Hrole Hu Hq1 Hq2 Hsx Hsy Hwf Hfit.
  pose proof (proj1 (proj1 (at_lookup _ _ _) Hvc)) as H0. pose proof (proj1 (proj1 (at_lookup _ _ _) Hwc)) as H0'.
  set (m := Message.meta msg) in *.
  set (vm := Message.mk (m <| Meta.sender := managed x src |> <| Meta.recver := managed y dst |>) (Message.data msg)).
  destruct (send_underway QP_NUM Hqp new_char Hnew vc wc vm Hvw Hwv) as (n & vc' & mb & Hsend & Hway & Hn & Hm);
    [exact Hrole|rewrite Hwid; unfold managed, kEmpty, ID_OFFSET, MAX_NUM_IDS in *; lia|exact Hu|by rewrite Hwid|exact Hwf|].
  destruct (receive_underway zmq_msg_data vc vc' wc vm mb n Hway) as (s & parts & d & rparts & wc' & arrays & wc2 & Hsent & Harr & Hrec & Hth & Hrecv & He);
    [rewrite Hvid; unfold managed, ID_OFFSET, MAX_NUM_IDS in *; lia|exact Hq1|by rewrite Hvid|exact Hn|exact Hm|].
  exists n, (v <| vans_ := <[Z.to_nat src := vc']> (vans_ v) |>), vc', s, parts, d, rparts, wc'.
  set (w0 := w <| vans_ ::= <[Z.to_nat dst := wc']> |>). set (got := Message.mk (transmitted false (Message.meta vm) _) arrays) in Hrecv.
  assert (at_ (vans_ w0) dst = Ok wc') as Hw0.
  { apply at_lookup. split; [done|]. apply list_lookup_insert_eq. apply at_lookup in Hwc as [_ Hwc]. by apply lookup_lt_Some in Hwc. }
  exists (w0 <| vans_ := <[Z.to_nat dst := wc2]> (vans_ w0) |> <| recv_buffers_ := [mkMultiContext n dst got] |>).
  eexists (Message.mk _ arrays), (w0 <| vans_ := <[Z.to_nat dst := wc2]> (vans_ w0) |> <| recv_buffers_ := [] |>).
  split_and!; [| |exact Hsent|exact Harr|exact Hrec|exact Hth| | | |].
  - unfold SendMsg. fold m. rewrite Hsy, Hsx, (proj2 (Z.eqb_neq y kEmpty)) by (unfold kEmpty, MAX_NUM_IDS in *; lia). cbn [negb].
    rewrite (bind_eq _ _ _ Hroute), (bind_eq _ _ _ Hvc), !EncodeManagedID_Ok by lia. cbn [mbind result_bind].
    fold vm. rewrite (bind_eq _ _ _ Hsend). cbn [fst snd]. rewrite (put_Ok _ _ _ _ Hvc). reflexivity.
  - apply at_lookup. split; [done|]. apply list_lookup_insert_eq. apply at_lookup in Hvc as [_ Hvc]. by apply lookup_lt_Some in Hvc.
  - unfold PollingThread. rewrite (bind_eq _ _ _ Hw0), (bind_eq _ _ _ Hrecv), (put_Ok _ _ _ _ Hw0). cbn [mbind result_bind].
    transitivity (Ok (w0 <| vans_ := <[Z.to_nat dst := wc2]> (vans_ w0) |>
      <| recv_buffers_ := recv_buffers_ w ++ [mkMultiContext n dst got] |>)); [reflexivity|]. by rewrite Hq2.
  - reflexivity.
  - unfold got. cbn [mc_msg Message.meta]. rewrite Hvid, Hwid.
    transitivity (transmitted false m (Meta.default <| Meta.sender := DecodeMangedID (managed x src) |>
      <| Meta.recver := DecodeMangedID (managed y dst) |>)); [reflexivity|].
    by rewrite !DecodeMangedID_managed.
  - exact He.
Qed.
End messages.

(** ** Nodes with two ports *)
Definition demo_multi_env : Environment := mkEnv {["DMLC_ROLE" := "joint"; "DMLC_NUM_PORTS" := "2"]} (λ _, None).
Definition demo_multi_node (role : Node.Role) (id port : Z) : Node.t :=
  (demo_node role id port) <| Node.num_ports := 2 |> <| Node.ports := port :: (port + 1) :: replicate 30 0 |>.

(** The second van finds the first port taken and draws another one. *)
Definition demo_bind (i : Z) (a : list byte) : bool :=
  (i =? 0) || negb (bool_decide (a = bytes_of "tcp://127.0.0.1:5009" ∨ a = bytes_of "tcp://127.0.0.1:5008")).

(** [Start], [Bind] and [SetNode] of a node. *)
Definition demo_bound (mine : Node.t) : result t :=
  v ← Start demo_multi_env (mine <| Node.num_ports := 1 |>) (mk mine false false 0 [] [] []);
  x ← Bind demo_bind (λ _ _, Node.port mine + 10) demo_multi_env mine 40 v;
  SetNode x.1.2 x.2.
Definition demo_multi (mine other : Node.t) : result t :=
  v ← demo_bound mine;
  w ← demo_bound other;
  Connect demo_multi_env (my_node_ w) v.
Definition demo_get (mine other : Node.t) : t :=
  match demo_multi mine other with Ok v => v | Err _ => mk mine false false 0 [] [] [] end.
Definition demo_mw : t := demo_get (demo_multi_node Node.WORKER 9 5009) (demo_multi_node Node.SERVER 8 5008).
Definition demo_ms : t := demo_get (demo_multi_node Node.SERVER 8 5008) (demo_multi_node Node.WORKER 9 5009).
Definition demo_child (v : t) (i : nat) : ZMQVan.t := nth i (vans_ v) (ZMQVan.new (my_node_ v)).

(** Values on device 1 of the worker, for device 0 of the server. *)
Definition demo_multi_push : Message.t :=
  Message.mk (Meta.default <| Meta.sender := 9 |> <| Meta.recver := 8 |> <| Meta.push := true |> <| Meta.request := true |>)
    (map (λ bs, SArray.mk 64 bs DeviceType.CPU 1 DeviceType.CPU 0) [enc_u64 5; [x0a; x0b]; enc_int 2]).

Lemma multi_delivers_witness :
  ∃ n v' vc' s parts d rparts wc' w1 msg' w',
    SendMsg 2 (λ n, replicate (Z.to_nat n) x00) (λ _, false) demo_multi_push demo_mw = Ok (n, v') ∧ at_ (vans_ v') 1 = Ok vc' ∧
    ZMQVan.sent vc' = ZMQVan.sent (demo_child demo_mw 1) ++ [(s, parts)] ∧
    (∀ anonymous, arrival vc' anonymous (s, parts) = Some (d, rparts)) ∧ receives (demo_child demo_ms 0) d ∧
    ZMQVan.CallZmqRecvThread rparts (demo_child demo_ms 0) = Ok wc' ∧
    PollingThread (λ _, 512) 0 (demo_ms <| vans_ ::= <[Z.to_nat 0 := wc']> |>) = Ok w1 ∧
    RecvMsg w1 = Ok (n, msg', w') ∧
    Message.meta msg' = transmitted false (Message.meta demo_multi_push) (Meta.default <| Meta.sender := 9 |> <| Meta.recver := 8 |>) ∧
    map SArray.elems (Message.data msg') = [enc_u64 5; [x0a; x0b]; enc_int 2].
Proof.
  apply (multi_delivers 2 ltac:(done) (λ n, replicate (Z.to_nat n) x00) ltac:(intros; apply length_replicate) (λ _, 512)
    9 8 demo_mw demo_ms 1 0 (demo_child demo_mw 1) (demo_child demo_ms 0) demo_multi_push).
  - constructor; try (vm_compute; intuition congruence).
    + eexists _, _. split; [vm_compute; reflexivity|]. split; [vm_compute; reflexivity|].
      split; [vm_compute; reflexivity|]. split; [vm_compute; left|]. intros _. vm_compute. right. left.
    + eexists _, _. split; [vm_compute; reflexivity|]. split; [vm_compute; reflexivity|].
      split; [vm_compute; reflexivity|]. split; [vm_compute; left|]. vm_compute. discriminate.
  - vm_compute. reflexivity.
  - done.
  - intros _ _. vm_compute. reflexivity.
  - vm_compute. reflexivity.
  - vm_compute. reflexivity.
  - vm_compute. reflexivity.
  - vm_compute. reflexivity.
  - vm_compute. reflexivity.
  - apply (bool_decide_unpack _). vm_compute. exact I.
  - intros ks vs rest buffs _ _ Hb. exfalso. assert (ZMQVan.registered_buffs_ (demo_child demo_ms 0) = ∅) as E by (vm_compute; reflexivity).
    rewrite E, lookup_empty in Hb. discriminate Hb.
Defined.
