(* ===== verification/TpVan.v ===== *)
(** * The TensorPipe van (src/tp_van.h)

    [TPVan] sends a message as one TensorPipe message: the sender's id, the meta
    data and the arrays of at most 16 bytes one after the other in its metadata,
    every other array as a tensor.  Pipes, listeners and contexts belong to the
    library; a callback is a definition that takes what the library gives to
    it. *)

From S2P Require Import Prelude Message Env Codec.

(** [tensorpipe::Message], and the descriptor of one that arrives *)
Record tp_message : Type := mkTp {
  metadata : list byte;
  payloads : list (list byte);
  tensors : list (list byte)
}.

Module TPVan.
(** [pipes] are the open pipes, by number, with the address they lead to;
    [written] what was written to them, in order; [accepting] and [reading]:
    the callbacks the library will call. *)
Record t : Type := mk {
  my_node_ : Node.t;
  send_ctx_ : bool;
  recv_ctx_ : bool;
  listener_ : option (list byte);
  send_pipes_ : gmap Z Z;
  queue_ : option (list Message.t);
  pipes : gmap Z (list byte);
  next_pipe : Z;
  written : list (Z * tp_message);
  accepting : bool;
  reading : gset Z
}.

Definition new (n : Node.t) : t := mk n false false None ∅ None ∅ 1 [] false ∅.

(** [Start] before [Van::Start]; [Stop] after [Van::Stop] *)
Definition Start (standalone : bool) (v : t) : result t :=
  check! negb standalone or "!standalone";
  Ok (v <| queue_ := Some [] |>).
Definition Stop (v : t) : t :=
  v <| listener_ := None |> <| accepting := false |> <| pipes := ∅ |> <| send_pipes_ := ∅ |> <| send_ctx_ := false |> <| recv_ctx_ := false |>.

Definition address (node : Node.t) : list byte :=
  bytes_of "tcp://" ++ Node.hostname node ++ bytes_of ":" ++ bytes_of (pretty (Node.port node)).

(** [Bind] listens on one of the two contexts. *)
Definition Bind (node : Node.t) (v : t) : result (Z * t) :=
  check! negb (length (Node.hostname node) =? 0)%nat or "Empty hostname";
  check! negb (send_ctx_ v) && negb (recv_ctx_ v) or "!send_ctx_ && !recv_ctx_";
  Ok (Node.port node,
      v <| send_ctx_ := true |> <| recv_ctx_ := true |> <| listener_ := Some (address node) |> <| accepting := true |>).

Definition open_pipe (addr : list byte) (v : t) : Z * t :=
  (next_pipe v, v <| pipes ::= <[next_pipe v := addr]> |> <| next_pipe ::= Z.succ |>).
Definition write (pipe : Z) (m : tp_message) (v : t) : t := v <| written ::= (λ l, l ++ [(pipe, m)]) |>.

(** The greeting [Connect] writes until one of its pipes takes it; [attempts]
    tells which do. *)
Definition greeting : tp_message := mkTp (bytes_of "ps-lite") [] [].
Fixpoint connect_loop (addr : list byte) (attempts : list bool) (v : t) : result (Z * t) :=
  match attempts with
  | [] => Err (Blocked "done->get_future()")
  | ok :: attempts =>
      let (p, v) := open_pipe addr v in
      let v := write p greeting v in
      if (ok : bool) then Ok (p, v) else connect_loop addr attempts v
  end.

Definition Connect (attempts : list bool) (node : Node.t) (v : t) : result t :=
  check! negb (Node.id node =? kEmpty) or "node.id";
  check! negb (Node.port node =? kEmpty) or "node.port";
  check! negb (length (Node.hostname node) =? 0)%nat or "node.hostname.size()";
  let recv_id := Node.id node in
  if bool_decide (is_Some (send_pipes_ v !! recv_id)) then Ok v
  else if bool_decide (Node.role node = Node.role (my_node_ v)) && negb (recv_id =? Node.id (my_node_ v)) then Ok v
  else
    inside! send_ctx_ v or "send_ctx_->connect";
    x ← connect_loop (address node) attempts v;
    Ok (x.2 <| send_pipes_ ::= <[recv_id := x.1]> |>).

(** ** Sending *)

(** An array of at most 16 bytes; its size is compared as a [size_t] where the
    small arrays are counted and as an [int] where they are written. *)
Definition counted_small (a : SArray.t byte) : bool := SArray.size a <=? 16.
Definition written_small (a : SArray.t byte) : bool := i32 (SArray.size a) <=? 16.

(** The loop over the arrays from number [i] on: what it appends to the metadata
    and the tensors it adds. *)
Fixpoint send_arrays (i : nat) (data : list (SArray.t byte)) : list byte * list (list byte) :=
  match data with
  | [] => ([], [])
  | a :: data' =>
      let (meta, ts) := send_arrays (S i) data' in
      let size := i32 (SArray.size a) in
      if written_small a then
        (enc_int (Z.of_nat i) ++ enc_int size ++ (if 0 <? size then SArray.elems a else []) ++ meta, ts)
      else (meta, SArray.elems a :: ts)
  end.

(** [send_bytes] has the metadata up to the number of arrays, and the tensors. *)
Definition sent_bytes (header : list byte) (data : list (SArray.t byte)) : Z :=
  foldl (λ n a, if written_small a then n else i32 (n + SArray.size a)) (Z.of_nat (length header)) data.

Definition SendMsg (QP_NUM : Z) (new_char : Z → list byte) (msg : Message.t) (v : t) : result (Z * t) :=
  let recv_id := Meta.recver (Message.meta msg) in
  check! negb (recv_id =? kEmpty) or "recv_id";
  match send_pipes_ v !! recv_id with
  | None => Ok (-1, v)
  | Some pipe =>
      x ← PackMeta false QP_NUM (Message.meta msg) None new_char;
      let '(meta_buf, meta_size) := x in
      let data := Message.data msg in
      let data_size := i32 (Z.of_nat (length data)) in
      let header := enc_int (Node.id (my_node_ v)) ++ enc_int meta_size ++ take (Z.to_nat meta_size) meta_buf ++ enc_int data_size in
      let (meta, ts) := send_arrays 0 data in
      let tp_msg :=
        if data_size =? 0 then mkTp header [] []
        else mkTp (header ++ enc_int (Z.of_nat (length (List.filter counted_small data))) ++ meta) [] ts in
      Ok (sent_bytes header data, write pipe tp_msg v)
  end.

(** ** Receiving *)

(** [OnAccepted]: the next connection is waited for, then the greeting. *)
Definition OnAccepted (error : bool) (pipe : Z) (v : t) : t :=
  if error then v <| accepting := false |> else v <| reading ::= union {[pipe]} |>.
Definition OnGreeting (error : bool) (pipe : Z) (m : tp_message) (v : t) : result t :=
  if error then Ok (v <| reading ::= (.∖ {[pipe]}) |>)
  else check! bool_decide (metadata m = bytes_of "ps-lite") or "Invalid connect message."; Ok v.

(** An [int] at a pointer into the metadata *)
Definition read_int (ptr : list byte) : result (Z * list byte) :=
  inside! (4 <=? length ptr)%nat or "*reinterpret_cast<int *>(ptr)";
  Ok (dec_int (take 4 ptr), drop 4 ptr).

Definition default_array : SArray.t byte := SArray.mk 0 [] DeviceType.CPU 0 DeviceType.CPU 0.

(** [vector::at(i) = x] *)
Definition set_at {A} (i : Z) (x : A) (l : list A) : result (list A) :=
  check! (0 <=? i) && (i <? Z.of_nat (length l)) or "vector::at";
  Ok (<[Z.to_nat i := x]> l).

(** The small arrays; [small_ptr i] is the memory of the [i]-th one. *)
Fixpoint fill_small (small_ptr : nat → Z) (n : nat) (ptr : list byte) (data : list (SArray.t byte)) (is_small : list bool)
    : result (list (SArray.t byte) * list bool) :=
  match n with
  | O => Ok (data, is_small)
  | S n' =>
      x ← read_int ptr;
      let '(idx, ptr) := x in
      y ← read_int ptr;
      let '(size, ptr) := y in
      inside! (0 <=? size) && (size <=? Z.of_nat (length ptr)) or "data.CopyFrom(ptr, size)";
      let a := if size =? 0 then default_array
               else SArray.mk (small_ptr n) (take (Z.to_nat size) ptr) DeviceType.CPU 0 DeviceType.CPU 0 in
      data ← set_at idx a data;
      is_small ← set_at idx true is_small;
      fill_small small_ptr n' (drop (Z.to_nat size) ptr) data is_small
  end.

(** The other arrays, in the buffers of the tensors. *)
Fixpoint fill_large (tensor_ptr : nat → Z) (m : Meta.t) (data : list (SArray.t byte)) (is_small : list bool) (idx : nat) (ts : list (list byte))
    : result (list (SArray.t byte)) :=
  match data, is_small with
  | a :: data', true :: small' => r ← fill_large tensor_ptr m data' small' idx ts; Ok (a :: r)
  | _ :: data', false :: small' =>
      match ts with
      | [] => Err (Undefined "allocation.tensors[idx]")
      | bs :: ts' =>
          r ← fill_large tensor_ptr m data' small' (S idx) ts';
          Ok (SArray.reset (tensor_ptr idx) bs (Meta.src_dev_type m) (Meta.src_dev_id m) (Meta.dst_dev_type m) (Meta.dst_dev_id m) :: r)
      end
  | _, _ => Ok []
  end.

(** The arrays of a message, [data_size] of them *)
Definition decode_data (small_ptr tensor_ptr : nat → Z) (m : Meta.t) (data_size : Z) (ptr : list byte) (ts : list (list byte))
    : result (list (SArray.t byte)) :=
  if data_size <=? 0 then Ok []
  else
    x ← read_int ptr;
    let '(small_data_size, ptr) := x in
    check! (u64 (small_data_size + Z.of_nat (length ts)) =? data_size) or "small_data_size + descriptor.tensors.size()";
    let n := Z.to_nat data_size in
    x ← fill_small small_ptr (Z.to_nat small_data_size) ptr (replicate n default_array) (replicate n false);
    fill_large tensor_ptr m x.1 x.2 0 ts.

(** The message of a descriptor *)
Definition decode (small_ptr tensor_ptr : nat → Z) (my_id : Z) (d : tp_message) : result Message.t :=
  check! (length (payloads d) =? 0)%nat or "Invalid Message";
  x ← read_int (metadata d);
  let '(sender, ptr) := x in
  x ← read_int ptr;
  let '(meta_size, ptr) := x in
  m ← UnpackMeta false ptr (Meta.default <| Meta.recver := my_id |> <| Meta.sender := sender |>);
  inside! (0 <=? meta_size) && (meta_size <=? Z.of_nat (length ptr)) or "ptr += meta_size";
  x ← read_int (drop (Z.to_nat meta_size) ptr);
  let '(data_size, ptr) := x in
  data ← decode_data small_ptr tensor_ptr m data_size ptr (tensors d);
  Ok (Message.mk m data).

(** [ReceiveFromPipe]: an error ends the reading of the pipe. *)
Definition ReceiveFromPipe (small_ptr tensor_ptr : nat → Z) (error : bool) (pipe : Z) (d : tp_message) (v : t) : result t :=
  if error then Ok (v <| reading ::= (.∖ {[pipe]}) |>)
  else
    msg ← decode small_ptr tensor_ptr (Node.id (my_node_ v)) d;
    q ← from_option_or (Undefined "queue_->Push") (queue_ v);
    Ok (v <| queue_ := Some (q ++ [msg]) |> <| reading ::= union {[pipe]} |>).

Definition RecvMsg (v : t) : result (Z * Message.t * t) :=
  match queue_ v with
  | Some (msg :: q) => Ok (Meta.data_size (Message.meta msg), msg, v <| queue_ := Some q |>)
  | _ => Err (Blocked "queue_->WaitAndPop")
  end.
End TPVan.
