(* ===== verification/TpFacts.v ===== *)
(** * Messages over TensorPipe arrive

    What [SendMsg] writes to a pipe, [ReceiveFromPipe] puts together again: the
    small arrays from the metadata and the others from the tensors, each at its
    place. *)

From S2P Require Import Prelude Message Env Codec TpVan.
Import TPVan.

Lemma length_enc_int z : length (enc_int z) = 4%nat.
Proof. reflexivity. Qed.

Lemma read_int_enc z rest : in_s 32 z → read_int (enc_int z ++ rest) = Ok (z, rest).
Proof.
  intros Hz. unfold read_int. rewrite (proj2 (Nat.leb_le _ _)) by (rewrite length_app, length_enc_int; lia).
  rewrite take_app_length', drop_app_length' by done. by rewrite dec_enc_int.
Qed.

(** Arrays whose size is an [int] *)
Definition sizes_ok (data : list (SArray.t byte)) : Prop := Forall (λ a, SArray.size a < 2 ^ 31) data.

Lemma small_same a : SArray.size a < 2 ^ 31 → written_small a = counted_small a.
Proof. intros H. unfold written_small, counted_small. rewrite swrap_small; [done|lia|unfold SArray.size in *; word_lia]. Qed.

Lemma set_at_middle {A} (pre : list A) x y post : set_at (Z.of_nat (length pre)) y (pre ++ x :: post) = Ok (pre ++ y :: post).
Proof.
  unfold set_at. rewrite (proj2 (Z.leb_le _ _)), (proj2 (Z.ltb_lt _ _)) by (rewrite ?length_app; simpl; lia). cbn [andb].
  rewrite Nat2Z.id. by rewrite insert_app_r_alt, Nat.sub_diag by lia.
Qed.

Section receive.
Context (small_ptr tensor_ptr : nat → Z).

(** The small arrays are put at their places. *)
Lemma fill_small_all data rest pre flags :
  sizes_ok data → Z.of_nat (length pre + length data) < 2 ^ 31 → length flags = length pre →
  ∃ mids, fill_small small_ptr (length (List.filter counted_small data)) ((send_arrays (length pre) data).1 ++ rest)
      (pre ++ replicate (length data) default_array) (flags ++ replicate (length data) false)
      = Ok (pre ++ mids, flags ++ map counted_small data) ∧
    Forall2 (λ a b, counted_small a = true → SArray.elems b = SArray.elems a) data mids.
Proof.
  intros Hs. revert rest pre flags. induction Hs as [|a data Ha Hs IH]; intros rest pre flags Hn Hf.
  { exists []. simpl. by rewrite !app_nil_r. }
  cbn [length replicate send_arrays List.filter map]. rewrite small_same by done.
  specialize (IH rest). destruct (send_arrays (S (length pre)) data) as [meta ts] eqn:Esend. cbn [fst snd] in *.
  assert (Hcons : ∀ {A} (x : A) l1 l2, l1 ++ x :: l2 = (l1 ++ [x]) ++ l2) by (intros; by rewrite <-app_assoc).
  destruct (counted_small a) eqn:Ea.
  - cbn [length fill_small fst]. assert (0 ≤ SArray.size a ≤ 16) by (apply Z.leb_le in Ea; unfold SArray.size in *; lia).
    rewrite (swrap_small 32 (SArray.size a)) by word_lia. rewrite <-!app_assoc.
    assert (in_s 32 (Z.of_nat (length pre))) by (simpl in Hn; word_lia).
    rewrite (bind_eq _ _ _ (read_int_enc _ _ H0)). rewrite (bind_eq _ _ _ (read_int_enc (SArray.size a) _ ltac:(word_lia))).
    set (bytes := if 0 <? SArray.size a then SArray.elems a else []).
    assert (Hb : bytes = SArray.elems a).
    { unfold bytes, SArray.size in *. destruct (Z.ltb_spec 0 (Z.of_nat (length (SArray.elems a)))); [done|].
      symmetry. apply nil_length_inv. lia. }
    rewrite (proj2 (Z.leb_le 0 _)), (proj2 (Z.leb_le (SArray.size a) _)) by (rewrite ?length_app, ?Hb; unfold SArray.size in *; lia). cbn [andb].
    set (b := if SArray.size a =? 0 then _ else _).
    assert (Hbe : SArray.elems b = SArray.elems a).
    { unfold b, SArray.size in *. destruct (Z.eqb_spec (Z.of_nat (length (SArray.elems a))) 0) as [E|E].
      - symmetry. apply nil_length_inv. simpl. lia.
      - rewrite Nat2Z.id. simpl. rewrite Hb. apply take_app_length. }
    rewrite (bind_eq _ _ _ (set_at_middle pre default_array b _)). rewrite <-Hf. rewrite (bind_eq _ _ _ (set_at_middle flags false true _)).
    replace (drop (Z.to_nat (SArray.size a)) (bytes ++ meta ++ rest)) with (meta ++ rest).
    2:{ rewrite Hb. unfold SArray.size. rewrite Nat2Z.id. symmetry. apply drop_app_length. }
    rewrite (Hcons _ b), (Hcons _ true). destruct (IH (pre ++ [b]) (flags ++ [true])) as (mids & E & HF).
    + rewrite length_app. simpl in *. lia.
    + rewrite !length_app. simpl. lia.
    + rewrite length_app, Nat.add_1_r, Esend in E. cbn [fst] in E. exists (b :: mids). rewrite E. split; [by rewrite <-!app_assoc|]. by constructor.
  - cbn [fst]. rewrite (Hcons _ default_array), (Hcons _ false). destruct (IH (pre ++ [default_array]) (flags ++ [false])) as (mids & E & HF).
    + rewrite length_app. simpl in *. lia.
    + rewrite !length_app. simpl. lia.
    + rewrite length_app, Nat.add_1_r, Esend in E. cbn [fst] in E. exists (default_array :: mids). rewrite E. split; [by rewrite <-!app_assoc|]. constructor; [by rewrite Ea|done].
Qed.

(** The tensors fill the other places. *)
Lemma fill_large_all m data mids i idx :
  sizes_ok data → Forall2 (λ a b, counted_small a = true → SArray.elems b = SArray.elems a) data mids →
  ∃ arrays, fill_large tensor_ptr m mids (map counted_small data) idx (send_arrays i data).2 = Ok arrays ∧
    map SArray.elems arrays = map SArray.elems data.
Proof.
  intros Hs HF. revert i idx. induction HF as [|a b data mids Hab HF IH]; intros i idx; [by exists []|].
  apply Forall_cons in Hs as [Ha Hs]. specialize (IH Hs (S i)). cbn [send_arrays map]. rewrite small_same by done.
  destruct (send_arrays (S i) data) as [meta ts]. destruct (counted_small a) eqn:Ea; cbn [fill_large snd] in *.
  - destruct (IH idx) as (arrays & E & He). rewrite (bind_eq _ _ _ E). eexists. split; [reflexivity|]. simpl. by rewrite Hab, He.
  - destruct (IH (S idx)) as (arrays & E & He). rewrite (bind_eq _ _ _ E). eexists. split; [reflexivity|]. simpl. by rewrite He.
Qed.

Lemma tensors_count data i :
  sizes_ok data → (length (List.filter counted_small data) + length (send_arrays i data).2 = length data)%nat.
Proof.
  intros Hs. revert i. induction Hs as [|a data Ha Hs IH]; intros i; [done|]. cbn [List.filter send_arrays length].
  rewrite small_same by done. specialize (IH (S i)). destruct (send_arrays (S i) data) as [meta ts]. cbn [snd] in *.
  destruct (counted_small a); simpl; lia.
Qed.

(** ** Delivery *)
Definition id_of (v : t) : Z := Node.id (my_node_ v).

(** What arrives for [msg] sent from [x] to [y] *)
Definition delivered (x y : t) (msg msg' : Message.t) : Prop :=
  Message.meta msg' = transmitted false (Message.meta msg)
    (Meta.default <| Meta.recver := id_of y |> <| Meta.sender := id_of x |>) ∧
  map SArray.elems (Message.data msg') = map SArray.elems (Message.data msg).

(** A message [SendMsg] takes for node [r] *)
Definition sendable (r : Z) (msg : Message.t) : Prop :=
  Meta.recver (Message.meta msg) = r ∧ meta_wf (Message.meta msg) ∧ sizes_ok (Message.data msg) ∧
  Z.of_nat (length (Message.data msg)) < 2 ^ 31.

Context (QP_NUM : Z) (Hqp : QP_NUM ≤ Z.of_nat QP_MAX_NUM).
Context (new_char : Z → list byte) (Hnew : ∀ n, 0 ≤ n → length (new_char n) = Z.to_nat n).

(** The part of a message before its arrays *)
Lemma decode_header id my len mb n rest ts m :
  in_s 32 id → in_s 32 n → Z.of_nat (length mb) = len → len < 2 ^ 31 →
  (∀ rest, UnpackMeta false (mb ++ rest) (Meta.default <| Meta.recver := my |> <| Meta.sender := id |>) = Ok m) →
  decode small_ptr tensor_ptr my (mkTp (enc_int id ++ enc_int len ++ mb ++ enc_int n ++ rest) [] ts) =
    (data ← decode_data small_ptr tensor_ptr m n rest ts; Ok (Message.mk m data)).
Proof.
  intros Hid Hn Hmb Hlen Hun. unfold decode. cbn [payloads metadata tensors length Nat.eqb].
  rewrite (bind_eq _ _ _ (read_int_enc id _ Hid)). cbn beta iota. rewrite (bind_eq _ _ _ (read_int_enc len _ ltac:(word_lia))). cbn beta iota.
  rewrite (bind_eq _ _ _ (Hun _)). rewrite (proj2 (Z.leb_le 0 len)) by lia. rewrite (proj2 (Z.leb_le len _)) by (rewrite length_app; lia).
  cbn [andb]. rewrite drop_app_length' by lia. rewrite (bind_eq _ _ _ (read_int_enc n _ Hn)). done.
Qed.

Lemma send_receive x y pipe msg :
  send_pipes_ x !! id_of y = Some pipe → id_of y ≠ kEmpty → in_s 32 (id_of x) → sendable (id_of y) msg →
  ∃ n tp msg', SendMsg QP_NUM new_char msg x = Ok (n, write pipe tp x) ∧
    decode small_ptr tensor_ptr (id_of y) tp = Ok msg' ∧ delivered x y msg msg'.
Proof.
  intros Hp Hy Hx (Hto & Hwf & Hs & Hl). pose proof (GetPackMetaLen_range _ Hwf) as Hlen.
  destruct (PackMeta_wire QP_NUM (Message.meta msg) new_char Hwf Hqp Hnew) as (buf & mb & Epack & Htake & Hmb & Hun).
  unfold SendMsg. rewrite Hto, (proj2 (Z.eqb_neq _ _) Hy), Hp. cbn [negb]. rewrite (bind_eq _ _ _ Epack), Htake.
  set (len := GetPackMetaLen (Message.meta msg)) in *. clearbody len. rewrite (swrap_small 32) by word_lia.
  set (m0 := Meta.default <| Meta.recver := id_of y |> <| Meta.sender := id_of x |>).
  set (msg_meta := transmitted false (Message.meta msg) m0).
  pose proof (tensors_count (Message.data msg) 0 Hs) as Hcount.
  destruct (fill_small_all (Message.data msg) [] [] [] Hs ltac:(simpl; lia) eq_refl) as (mids & Esmall & HF). cbn [length app] in Esmall.
  destruct (fill_large_all msg_meta (Message.data msg) mids 0 0 Hs HF) as (arrays & Elarge & He).
  destruct (send_arrays 0 (Message.data msg)) as [meta ts]. cbn [fst snd] in *. rewrite app_nil_r in Esmall.
  assert (Hdec : ∀ rest, UnpackMeta false (mb ++ rest) m0 = Ok msg_meta) by (intros; by apply Hun).
  assert (Hdel : delivered x y msg (Message.mk msg_meta arrays)) by (split; [reflexivity|exact He]). clearbody msg_meta.
  eexists _, _, (Message.mk msg_meta arrays). split; [reflexivity|]. split; [|exact Hdel].
  fold (id_of x). set (n := length (Message.data msg)) in *.
  assert (Edata : decode_data small_ptr tensor_ptr msg_meta (Z.of_nat n) (if Z.of_nat n =? 0 then []
      else enc_int (Z.of_nat (length (List.filter counted_small (Message.data msg)))) ++ meta) (if Z.of_nat n =? 0 then [] else ts) = Ok arrays).
  { unfold decode_data. destruct (Z.eqb_spec (Z.of_nat n) 0) as [Hz|Hnz].
    - rewrite Hz. simpl. apply (f_equal length) in He. rewrite !length_map in He.
      assert (arrays = []) as -> by (apply nil_length_inv; lia). done.
    - rewrite (proj2 (Z.leb_gt _ 0)) by lia. rewrite (bind_eq _ _ _ (read_int_enc (Z.of_nat (length (List.filter counted_small (Message.data msg)))) _ ltac:(word_lia))). cbn beta iota.
      rewrite uwrap_small by word_lia. rewrite (proj2 (Z.eqb_eq _ _)) by lia. rewrite !Nat2Z.id.
      by rewrite (bind_eq _ _ _ Esmall). }
  destruct (Z.of_nat n =? 0); rewrite <-?app_assoc.
  - rewrite <-(app_nil_r (enc_int (Z.of_nat n))), (decode_header _ _ len mb (Z.of_nat n) [] [] msg_meta Hx ltac:(word_lia) Hmb ltac:(lia) Hdec).
    by rewrite (bind_eq _ _ _ Edata).
  - rewrite (decode_header _ _ len mb (Z.of_nat n) _ ts msg_meta Hx ltac:(word_lia) Hmb ltac:(lia) Hdec). by rewrite (bind_eq _ _ _ Edata).
Qed.

(** An array of 2 GiB or more (less than 4 GiB) is sent and then rejected: its
    size as an [int] is negative, so that it is written as a small array, but it
    is not counted as one. *)
Lemma huge_array_rejected x y pipe msg a :
  send_pipes_ x !! id_of y = Some pipe → id_of y ≠ kEmpty → in_s 32 (id_of x) → Meta.recver (Message.meta msg) = id_of y →
  meta_wf (Message.meta msg) → Message.data msg = [a] → 2 ^ 31 ≤ SArray.size a < 2 ^ 32 →
  ∃ n tp, SendMsg QP_NUM new_char msg x = Ok (n, write pipe tp x) ∧
    decode small_ptr tensor_ptr (id_of y) tp = Err (CheckFailed "small_data_size + descriptor.tensors.size()").
Proof.
  intros Hp Hy Hx Hto Hwf Hd Ha. pose proof (GetPackMetaLen_range _ Hwf) as Hlen.
  destruct (PackMeta_wire QP_NUM (Message.meta msg) new_char Hwf Hqp Hnew) as (buf & mb & Epack & Htake & Hmb & Hun).
  assert (Hi : i32 (SArray.size a) = SArray.size a - 2 ^ 32).
  { unfold swrap. change (2 ^ (32 - 1)) with 2147483648. change (2 ^ 32) with 4294967296 in *. change (2 ^ 31) with 2147483648 in *.
    replace (SArray.size a + 2147483648) with (SArray.size a - 2147483648 + 1 * 4294967296) by lia.
    rewrite Z.mod_add, Z.mod_small by lia. lia. }
  assert (Hsmall : counted_small a = false) by (apply Z.leb_gt; lia). assert (Hw : written_small a = true) by (apply Z.leb_le; rewrite Hi; lia).
  unfold SendMsg. rewrite Hto, (proj2 (Z.eqb_neq _ _) Hy), Hp. cbn [negb]. rewrite (bind_eq _ _ _ Epack), Htake, Hd.
  cbn [length send_arrays List.filter]. rewrite Hw, Hsmall.
  set (len := GetPackMetaLen (Message.meta msg)) in *. clearbody len. change (i32 (Z.of_nat 1)) with 1. change (1 =? 0) with false. cbn iota.
  set (m0 := Meta.default <| Meta.recver := id_of y |> <| Meta.sender := id_of x |>).
  assert (Hdec : ∀ rest, UnpackMeta false (mb ++ rest) m0 = Ok (transmitted false (Message.meta msg) m0)) by (intros; by apply Hun).
  eexists _, _. split; [reflexivity|]. rewrite <-?app_assoc. fold (id_of x).
  rewrite (decode_header _ _ len mb 1 _ [] _ Hx ltac:(word_lia) Hmb ltac:(lia) Hdec).
  unfold decode_data. change (1 <=? 0) with false. cbn iota. change (Z.of_nat (length _)) with 0. by rewrite (bind_eq _ _ _ (read_int_enc 0 _ ltac:(word_lia))).
Qed.

(** Messages one after the other *)
Fixpoint send_all (msgs : list Message.t) (x : t) : result t :=
  match msgs with [] => Ok x | msg :: msgs => r ← SendMsg QP_NUM new_char msg x; send_all msgs r.2 end.
Fixpoint receive_all (pipe : Z) (l : list tp_message) (y : t) : result t :=
  match l with [] => Ok y | d :: l => y ← ReceiveFromPipe small_ptr tensor_ptr false pipe d y; receive_all pipe l y end.

(** C9. Any messages from a node to one it is connected to, with any number of
    arrays below 2 GiB, are written to its pipe in order; read from the pipe, they
    are queued in the same order, each with the sender's meta data and id and
    with all its arrays, and the pipe is read further. *)
Theorem tp_delivers x y pipe rpipe msgs q :
  send_pipes_ x !! id_of y = Some pipe → id_of y ≠ kEmpty → in_s 32 (id_of x) → queue_ y = Some q →
  Forall (sendable (id_of y)) msgs →
  ∃ x' tps y' got, send_all msgs x = Ok x' ∧ written x' = written x ++ map (pair pipe) tps ∧
    receive_all rpipe tps y = Ok y' ∧ queue_ y' = Some (q ++ got) ∧ Forall2 (delivered x y) msgs got ∧
    (msgs ≠ [] → rpipe ∈ reading y').
Proof.
  intros Hp Hy Hx Hq Hall. revert x y q Hp Hy Hx Hq Hall. induction msgs as [|msg msgs IH]; intros x y q Hp Hy Hx Hq Hall.
  { exists x, [], y, []. simpl. rewrite !app_nil_r. done. }
  apply Forall_cons in Hall as [Hm Hall]. destruct (send_receive x y pipe msg Hp Hy Hx Hm) as (n & tp & msg' & Es & Ed & Hd).
  set (y1 := y <| queue_ := Some (q ++ [msg']) |> <| reading ::= union {[rpipe]} |>).
  assert (Er : ReceiveFromPipe small_ptr tensor_ptr false rpipe tp y = Ok y1).
  { unfold ReceiveFromPipe. rewrite (bind_eq _ _ _ Ed), Hq. reflexivity. }
  destruct (IH (write pipe tp x) y1 (q ++ [msg']) Hp Hy Hx eq_refl Hall) as (x' & tps & y' & got & Esa & Hw & Era & Hq' & HF & Hr).
  exists x', (tp :: tps), y', (msg' :: got). cbn [send_all receive_all]. rewrite (bind_eq _ _ _ Es), (bind_eq _ _ _ Er). split_and!.
  - exact Esa.
  - rewrite Hw. simpl. by rewrite <-app_assoc.
  - exact Era.
  - by rewrite Hq', <-app_assoc.
  - constructor; [exact Hd|exact HF].
  - intros _. destruct msgs as [|m2 msgs]; [|by apply Hr]. simpl in Esa, Hw. injection Esa as <-.
    destruct tps; [|simpl in Hw; apply (f_equal length) in Hw; rewrite !length_app in Hw; simpl in Hw; lia].
    injection Era as <-. unfold y1. simpl. set_solver.
Qed.
End receive.

(** ** A worker and a server *)
Definition demo_node (role : Node.Role) (id port : Z) : Node.t :=
  Node.mk role id 0 (bytes_of "127.0.0.1") 1 (replicate 32 0) (replicate 32 0) (replicate 32 0) port false (replicate 64 x00) 0 (-1).
Definition demo_tp (mine other : Node.t) : t :=
  match (x ← Start false (new mine); y ← Bind mine x; Connect [false; true] other y.2) with Ok v => v | Err _ => new mine end.
Definition demo_worker : t := demo_tp (demo_node Node.WORKER 9 5009) (demo_node Node.SERVER 8 5008).
Definition demo_server : t := demo_tp (demo_node Node.SERVER 8 5008) (demo_node Node.WORKER 9 5009).

Definition demo_push (vals : list byte) : Message.t :=
  Message.mk (Meta.default <| Meta.recver := 8 |> <| Meta.push := true |> <| Meta.request := true |>)
    (map (λ bs, SArray.mk 64 bs DeviceType.CPU 0 DeviceType.CPU 0) [enc_u64 5; vals; enc_int 2]).

Lemma tp_delivers_witness :
  ∃ x' tps y' got, send_all 2 (λ n, replicate (Z.to_nat n) x00) [demo_push [x0a]; demo_push (replicate 20 x0b)] demo_worker = Ok x' ∧
    written x' = written demo_worker ++ map (pair 2) tps ∧ receive_all (λ _, 64) (λ _, 128) 7 tps demo_server = Ok y' ∧
    queue_ y' = Some ([] ++ got) ∧ Forall2 (delivered demo_worker demo_server) [demo_push [x0a]; demo_push (replicate 20 x0b)] got ∧
    ([demo_push [x0a]; demo_push (replicate 20 x0b)] ≠ [] → 7 ∈ reading y').
Proof.
  apply (tp_delivers (λ _, 64) (λ _, 128) 2 ltac:(done) (λ n, replicate (Z.to_nat n) x00) ltac:(intros; apply length_replicate)
    demo_worker demo_server 2 7).
  - vm_compute. reflexivity.
  - discriminate.
  - apply (bool_decide_unpack _). vm_compute. exact I.
  - vm_compute. reflexivity.
  - repeat constructor; try (vm_compute; reflexivity); apply (bool_decide_unpack _); vm_compute; exact I.
Defined.
