(* ===== verification/UcxPool.v ===== *)
(** * Tags, endpoints and receive buffers of the UCX van (src/ucx_van.h)

    Messages over UCX carry a tag that tells meta data from values and names the
    sender and the key.  [UCXEndpointsPool] keeps the endpoints to other nodes
    and exchanges their ids when a connection is made; [UCXRecvPool] finds the
    buffer for values that arrive.  Workers, endpoints and active messages
    belong to the UCX library: an endpoint is a number, and a callback is a
    definition that takes what the library gives to it. *)

From S2P Require Import Prelude Message Env Postoffice RdmaMemory.

(** ** Tags *)
Inductive Tags : Type := UCX_TAG_META | UCX_TAG_DATA.
Definition tag_value (t : Tags) : Z := match t with UCX_TAG_META => 0 | UCX_TAG_DATA => 2 ^ 63 end.
Definition UCX_TAG_MASK : Z := 2 ^ 63.

Definition UCX_OPTION_META : Z := -1.
Definition UCX_OPTION_DATA : Z := -2.
(** [1 << 31] is an [int]. *)
Definition MAX_SID_COUNT : Z := i32 (2 ^ 31).

(** What is not in the sources: whether the build keeps [assert] (it has no
    NDEBUG), and whether [posix_memalign] finds room for a size beside the blocks in
    use. *)
Class Platform : Type := { asserts : bool; memalign : list (Z * Z) → Z → bool }.

(** One bit for the kind, 15 for the sender, 48 for the key *)
Definition MakeTag `{!Platform} (node_id : Z) (tag : Tags) (key : Z) : result Z :=
  check! negb asserts || (Z.land (u64 node_id) 0xFFFFFFFFFFFF8000 =? 0) or "assert(node_id)";
  let ret := u64 (Z.shiftl (u64 node_id) 48) in
  let ret := Z.ldiff ret UCX_TAG_MASK in
  let ret := Z.lor ret (tag_value tag) in
  Ok (Z.lor ret (Z.land key 0xFFFFFFFFFFFF)).
Definition NodeIdFromTag (tag : Z) : Z := i32 (Z.shiftr (Z.ldiff tag UCX_TAG_MASK) 48).

Definition EpId (node_id dev_id : Z) : Z := Z.lor (u64 (Z.shiftl (u64 node_id) 32)) (Z.max 0 dev_id).
Definition NodeId (ep_id : Z) : Z := i32 (Z.shiftr ep_id 32).

(** ** Endpoints *)

(** [remote_addr] is an address [getaddrinfo] has allocated, or null. *)
Record UCXEp : Type := mkUCXEp { ep : option Z; ep_id : Z; connected : bool; remote_addr : option Z }.

Definition UCX_AM_NODE_INFO_REQ : Z := 0.
Definition UCX_AM_NODE_INFO_REPLY : Z := 1.

(** [next_ep] numbers the endpoints of the library; [ams] are the active messages
    sent: endpoint, kind and id. *)
Record UCXEndpointsPool : Type := mkEpPool {
  client_eps_ : gmap Z UCXEp;
  server_eps_ : list UCXEp;
  close_ep_reqs_ : list Z;
  next_ep : Z;
  ams : list (Z * Z * Z)
}.
Definition new_ep_pool : UCXEndpointsPool := mkEpPool ∅ [] [] 1 [].

Section endpoints.
(** What the library answers: can the endpoint be created, is the active message
    taken, the request that closing an endpoint leaves; the address of a host
    and port. *)
Context (ep_created am_sent : Z → bool) (close_req : Z → option Z).
Context (getaddrinfo : list byte → Z → option Z).
Implicit Types p : UCXEndpointsPool.

Definition am_send (e am id : Z) p : result UCXEndpointsPool :=
  check! am_sent e or "failed to send node info";
  Ok (p <| ams ::= (λ l, l ++ [(e, am, id)]) |>).

(** [Create(ucx_ep)] for the endpoint with this id: the endpoint sends its id. *)
Definition Create_ep (id : Z) p : result UCXEndpointsPool :=
  e ← from_option_or (Undefined "ucx_ep") (client_eps_ p !! id);
  check! negb (connected e) or "ucx_ep->connected";
  inside! bool_decide (is_Some (remote_addr e)) or "ucx_ep->remote_addr->ai_addr";
  let h := next_ep p in
  check! ep_created h or "ucp_ep_create failed";
  am_send h UCX_AM_NODE_INFO_REQ (ep_id e)
    (p <| client_eps_ ::= <[id := mkUCXEp (Some h) (ep_id e) (connected e) (remote_addr e)]> |> <| next_ep ::= Z.succ |>).

(** The loop of [Create(node)] over the ports *)
Fixpoint create_ports (node : Node.t) (ports : list (Z * Z)) p : result UCXEndpointsPool :=
  match ports with
  | [] => Ok p
  | (port, dev_id) :: ports =>
      addr ← from_option_or (CheckFailed "getaddrinfo") (getaddrinfo (Node.hostname node) port);
      let id := EpId (Node.id node) dev_id in
      p ← Create_ep id (p <| client_eps_ ::= <[id := mkUCXEp None id false (Some addr)]> |>);
      create_ports node ports p
  end.

(** [Create(node)], up to its wait for the endpoints of the node, and what it
    waits for *)
Definition Create (node : Node.t) p : result UCXEndpointsPool :=
  if bool_decide (is_Some (client_eps_ p !! EpId (Node.id node) (Node.dev_ids node !!! 0%nat))) then Ok p
  else
    inside! (Node.num_ports node <=? 32) or "node.ports[i]";
    create_ports node (take (Z.to_nat (Node.num_ports node)) (zip (Node.ports node) (Node.dev_ids node))) p.
Definition all_connected (node_id : Z) p : bool :=
  forallb (λ kv, negb (NodeId kv.1 =? node_id) || connected kv.2) (map_to_list (client_eps_ p)).

(** [Create(conn_request)]: the endpoint waits for the peer's id. *)
Definition Create_request p : result UCXEndpointsPool :=
  check! ep_created (next_ep p) or "failed to create ep by request";
  Ok (p <| next_ep ::= Z.succ |>).

Definition CloseEp (e : Z) p : UCXEndpointsPool :=
  match close_req e with Some r => p <| close_ep_reqs_ ::= (λ l, l ++ [r]) |> | None => p end.

(** [Cleanup]: all endpoints are closed; [finished n r]: the request is done at
    the [n]-th look at the queue, of which [rounds] are made. *)
Fixpoint close_all (l : list UCXEp) p : result UCXEndpointsPool :=
  match l with
  | [] => Ok p
  | e :: l => h ← from_option_or (Undefined "ucp_ep_close_nb") (ep e); close_all l (CloseEp h p)
  end.
Fixpoint drain_closes (finished : nat → Z → bool) (n rounds : nat) p : result UCXEndpointsPool :=
  match close_ep_reqs_ p, rounds with
  | [], _ => Ok p
  | _, O => Err (Blocked "close_ep_reqs_")
  | r :: l, S rounds => drain_closes finished (S n) rounds (if finished n r then p <| close_ep_reqs_ := l |> else p)
  end.
Definition Cleanup (finished : nat → Z → bool) (rounds : nat) p : result UCXEndpointsPool :=
  p ← close_all (map snd (map_to_list (client_eps_ p)) ++ server_eps_ p) p;
  drain_closes finished 0 rounds p.

(** [Find] *)
Definition Find (node_id dev_id : Z) p : option Z :=
  match client_eps_ p !! EpId node_id dev_id with
  | Some e => if connected e then ep e else None
  | None => None
  end.

Definition has_ep (h : Z) (e : UCXEp) : bool := bool_decide (ep e = Some h).

(** [erase] of the first endpoint of a set with this handle *)
Fixpoint erase_ep (h : Z) (l : list UCXEp) : list UCXEp :=
  match l with [] => [] | e :: l => if has_ep h e then l else e :: erase_ep h l end.

(** [ErrorHandler]: an endpoint that was not connected yet is made again, one
    that was is forgotten. *)
Definition ErrorHandler (h : Z) p : result UCXEndpointsPool :=
  p ← match List.find (λ kv, has_ep h kv.2) (map_to_list (client_eps_ p)) with
      | Some (id, e) =>
          if connected e then Ok (p <| client_eps_ ::= delete id |>)
          else Create_ep id (p <| client_eps_ ::= <[id := mkUCXEp None (ep_id e) (connected e) (remote_addr e)]> |>)
      | None => Ok (p <| server_eps_ ::= erase_ep h |>)
      end;
  Ok (CloseEp h p).

(** The two active messages *)
Definition AmRxNodeInfoReq (length id : Z) (reply_ep : option Z) p : result UCXEndpointsPool :=
  check! (length =? 8) or "length";
  h ← from_option_or (CheckFailed "reply_ep") reply_ep;
  am_send h UCX_AM_NODE_INFO_REPLY id (p <| server_eps_ ::= (λ l, l ++ [mkUCXEp (Some h) id false None]) |>).
Definition AmRxNodeInfoReply (length id : Z) p : result UCXEndpointsPool :=
  check! (length =? 8) or "length";
  e ← from_option_or (CheckFailed "client_eps_.end()") (client_eps_ p !! id);
  inside! bool_decide (is_Some (remote_addr e)) or "freeaddrinfo";
  Ok (p <| client_eps_ ::= <[id := mkUCXEp (ep e) (ep_id e) true None]> |>).
End endpoints.

(** ** Receive buffers *)
Record UCXAddress : Type := mkUCXAddress { address : Z; alength : Z; external : bool }.

(** A message that has arrived: its meta data and the address of its values *)
Record UCXBuffer : Type := mkUCXBuffer {
  raw_meta : option (list byte);
  buffer : option Z;
  bsender : Z;
  should_stop : bool
}.

Record UCXRecvPool : Type := mkRecvPool {
  recv_buffers_ : list UCXBuffer;
  ordered_recv_buffers_ : list UCXBuffer;
  w_pool_ : gmap Z Z;
  rpool_ : gmap Z (gmap Z UCXAddress)
}.
Definition new_recv_pool : UCXRecvPool := mkRecvPool [] [] ∅ ∅.

(** [free]: the block at the address is given back. *)
Fixpoint free_block (a : Z) (bl : list (Z * Z)) : option (list (Z * Z)) :=
  match bl with
  | [] => None
  | (x, n) :: bl => if x =? a then Some bl else cons (x, n) <$> free_block a bl
  end.
Definition free (a : Z) (h : host) : result host :=
  bl ← from_option_or (Undefined "free") (free_block a (blocks h));
  Ok (h <| blocks := bl |>).

Section buffers.
Context {platform : Platform}.
Context (malloc : list (Z * Z) → Z → Z).
Implicit Types (p : UCXRecvPool) (h : host).

Definition pool_entry (key node_id : Z) p : option UCXAddress := rpool_ p !! key ≫= (.!! node_id).
Definition set_pool_entry (key node_id : Z) (a : UCXAddress) p : UCXRecvPool :=
  p <| rpool_ ::= (λ m, <[key := <[node_id := a]> (default ∅ (m !! key))]> m) |>.

(** A new buffer, page-aligned and set to zero *)
Definition new_buffer (key node_id size : Z) p h : result (Z * UCXRecvPool * host) :=
  check! memalign (blocks h) size or "posix_memalign error";
  let buf := malloc (blocks h) size in
  Ok (buf, set_pool_entry key node_id (mkUCXAddress buf size false) p,
      h <| blocks ::= cons (buf, size) |> <| mem ::= write_bytes buf (replicate (Z.to_nat size) x00) |>).

Definition GetRxBuffer (key node_id size : Z) (push : bool) p h : result (Z * UCXRecvPool * host) :=
  if negb push then
    addr ← from_option_or (CheckFailed "addr != w_pool_.end()") (w_pool_ p !! key);
    Ok (addr, p, h)
  else
    match pool_entry key node_id p with
    | Some a =>
        if size <=? alength a then Ok (address a, p, h)
        else h ← free (address a) h; new_buffer key node_id size p h
    | None => new_buffer key node_id size p h
    end.

Definition Register (msg : Message.t) p h : result (UCXRecvPool * host) :=
  let key := Meta.key (Message.meta msg) in
  let sender := Meta.sender (Message.meta msg) in
  vs ← from_option_or (Undefined "msg.data[1]") (Message.data msg !! 1%nat);
  h ← match pool_entry key sender p with
      | Some a => if external a then Ok h else free (address a) h
      | None => Ok h
      end;
  Ok (set_pool_entry key sender (mkUCXAddress (SArray.ptr_ vs) (SArray.size vs) true) p, h).

Definition Push (b : UCXBuffer) p : UCXRecvPool := p <| recv_buffers_ ::= (λ q, q ++ [b]) |>.
Definition PushOrdered (b : UCXBuffer) p : UCXRecvPool := p <| ordered_recv_buffers_ ::= (λ q, q ++ [b]) |>.
Definition Pop p : result (UCXBuffer * UCXRecvPool) :=
  match recv_buffers_ p with b :: q => Ok (b, p <| recv_buffers_ := q |>) | [] => Err (Blocked "recv_buffers_") end.
Definition PopOrdered p : result (UCXBuffer * UCXRecvPool) :=
  match ordered_recv_buffers_ p with b :: q => Ok (b, p <| ordered_recv_buffers_ := q |>) | [] => Err (Blocked "ordered_recv_buffers_") end.
Definition CacheLocalAddress (key data : Z) p : UCXRecvPool := p <| w_pool_ ::= <[key := data]> |>.

(** The destructor frees what the pool has allocated. *)
Fixpoint free_all (l : list UCXAddress) h : result host :=
  match l with
  | [] => Ok h
  | a :: l => h ← (if external a then Ok h else free (address a) h); free_all l h
  end.
Definition pool_addresses p : list UCXAddress := concat (map (λ kv, map snd (map_to_list kv.2)) (map_to_list (rpool_ p))).
Definition destroy_pool p h : result host := free_all (pool_addresses p) h.
End buffers.
