(* ===== verification/UcxTags.v ===== *)
(** * Tags, connections and receive buffers of the UCX van: properties

    A tag gives back the sender and tells the kinds of messages and the senders
    apart; a node is connected when the peer has answered for every port, in
    any order. *)

From S2P Require Import Prelude Message Env Postoffice RdmaMemory UcxPool.

(** ** Tags *)
Lemma bit_above x n i : 0 ≤ x < 2 ^ n → 0 ≤ n ≤ i → Z.testbit x i = false.
Proof. intros Hx Hi. rewrite <-(Z.mod_small x (2 ^ n)) by done. apply Z.mod_pow2_bits_high. lia. Qed.

Definition node_ok (id : Z) : Prop := 0 ≤ id < 2 ^ 15.

(** A tag, bit by bit *)
Definition tag_bit (id : Z) (t : Tags) (key i : Z) : bool :=
  if i <? 48 then Z.testbit key i
  else if i <? 63 then Z.testbit id (i - 48)
  else match t with UCX_TAG_DATA => i =? 63 | UCX_TAG_META => false end.

Lemma land_low_zero id : node_ok id → Z.land id 0xFFFFFFFFFFFF8000 = 0.
Proof.
  intros H. rewrite <-(Z.mod_small id (2 ^ 15)) by exact H. rewrite <-Z.land_ones, <-Z.land_assoc by lia.
  change (Z.land (Z.ones 15) _) with 0. apply Z.land_0_r.
Qed.

Lemma mask_bit i : 0 ≤ i → Z.testbit 0xFFFFFFFFFFFF i = (i <? 48).
Proof.
  intros Hi. change 0xFFFFFFFFFFFF with (Z.ones 48). destruct (Z.ltb_spec i 48).
  - apply Z.ones_spec_low. lia.
  - apply Z.ones_spec_high. lia.
Qed.

Lemma MakeTag_bits `{!Platform} id t key :
  node_ok id → ∃ g, MakeTag id t key = Ok g ∧ 0 ≤ g ∧ ∀ i, 0 ≤ i → Z.testbit g i = tag_bit id t key i.
Proof.
  intros Hid. unfold MakeTag, node_ok in *. rewrite (uwrap_small 64 id) by word_lia. rewrite land_low_zero by done. rewrite Z.eqb_refl, orb_true_r.
  assert (0 ≤ Z.shiftl id 48 < 2 ^ 63) as Hs by (rewrite Z.shiftl_mul_pow2 by lia; lia).
  rewrite uwrap_small by word_lia. eexists. split; [reflexivity|]. split.
  - rewrite !Z.lor_nonneg, Z.land_nonneg, Z.ldiff_nonneg. split_and!; [lia|destruct t; done|by right].
  - intros i Hi. rewrite !Z.lor_spec, Z.ldiff_spec, Z.land_spec, mask_bit, Z.shiftl_spec by done. unfold UCX_TAG_MASK.
    rewrite Z.pow2_bits_eqb by lia. unfold tag_bit.
    assert (Z.testbit (tag_value t) i = match t with UCX_TAG_DATA => i =? 63 | UCX_TAG_META => false end) as ->.
    { destruct t; cbn [tag_value]; [apply Z.bits_0|]. rewrite Z.pow2_bits_eqb by lia. apply Z.eqb_sym. }
    destruct (Z.ltb_spec i 48).
    + rewrite (Z.testbit_neg_r _ (i - 48)) by lia. rewrite andb_true_r. cbn [andb orb].
      destruct t; [done|]. rewrite (proj2 (Z.eqb_neq i 63)) by lia. done.
    + rewrite andb_false_r, orb_false_r. destruct (Z.ltb_spec i 63).
      * rewrite (proj2 (Z.eqb_neq 63 i)), (proj2 (Z.eqb_neq i 63)) by lia. destruct t; by rewrite andb_true_r, orb_false_r.
      * rewrite (bit_above id 15 (i - 48)) by lia. done.
Qed.

Lemma tag_kind `{!Platform} id t key g : node_ok id → MakeTag id t key = Ok g → Z.testbit g 63 = match t with UCX_TAG_DATA => true | UCX_TAG_META => false end.
Proof.
  intros Hid E. destruct (MakeTag_bits id t key Hid) as (g' & E' & _ & Hbits). rewrite E in E'. injection E' as <-. rewrite Hbits by lia. by destruct t.
Qed.

Lemma tag_sender `{!Platform} id t key g : node_ok id → MakeTag id t key = Ok g → NodeIdFromTag g = id.
Proof.
  intros Hid E. destruct (MakeTag_bits id t key Hid) as (g' & E' & _ & Hbits). rewrite E in E'. injection E' as <-.
  unfold NodeIdFromTag. assert (Z.shiftr (Z.ldiff g UCX_TAG_MASK) 48 = id) as ->; [|apply swrap_small; unfold node_ok in Hid; word_lia].
  apply Z.bits_inj'. intros i Hi. rewrite Z.shiftr_spec, Z.ldiff_spec, Hbits by lia. unfold UCX_TAG_MASK, tag_bit.
  rewrite Z.pow2_bits_eqb, (proj2 (Z.ltb_ge (i + 48) 48)) by lia. replace (i + 48 - 48) with i by lia. destruct (Z.ltb_spec (i + 48) 63).
  - rewrite (proj2 (Z.eqb_neq 63 (i + 48))) by lia. apply andb_true_r.
  - rewrite (bit_above id 15 i) by (unfold node_ok in Hid; lia). destruct t; [done|]. rewrite (Z.eqb_sym 63). by destruct (i + 48 =? 63).
Qed.

(** A tag names its sender, and two tags are the same only for the same sender,
    kind and last 48 bits of the key. *)
Theorem tags_tell_apart `{!Platform} id t key :
  node_ok id →
  ∃ g, MakeTag id t key = Ok g ∧ NodeIdFromTag g = id ∧
    ∀ id' t' key', node_ok id' → MakeTag id' t' key' = Ok g → id' = id ∧ t' = t ∧ key' mod 2 ^ 48 = key mod 2 ^ 48.
Proof.
  intros Hid. destruct (MakeTag_bits id t key Hid) as (g & E & Hg & Hbits). exists g. split; [done|]. split.
  - by apply (tag_sender id t key).
  - intros id' t' key' Hid' E'. destruct (MakeTag_bits id' t' key' Hid') as (g' & E2 & _ & Hbits'). rewrite E' in E2. injection E2 as <-.
    assert (Hsame : ∀ i, 0 ≤ i → tag_bit id' t' key' i = tag_bit id t key i) by (intros; by rewrite <-Hbits, <-Hbits').
    split_and!.
    + apply Z.bits_inj'. intros i Hi. destruct (decide (i < 15)); [|rewrite !(bit_above _ 15 i) by (done || lia); done].
      specialize (Hsame (i + 48) ltac:(lia)). unfold tag_bit in Hsame. rewrite (proj2 (Z.ltb_ge _ _)), (proj2 (Z.ltb_lt _ _)) in Hsame by lia.
      by replace (i + 48 - 48) with i in Hsame by lia.
    + specialize (Hsame 63 ltac:(lia)). by destruct t, t'.
    + apply Z.bits_inj'. intros i Hi. destruct (decide (i < 48)); [|rewrite !Z.mod_pow2_bits_high by lia; done].
      rewrite !Z.mod_pow2_bits_low by lia. specialize (Hsame i Hi). unfold tag_bit in Hsame. by rewrite (proj2 (Z.ltb_lt i 48)) in Hsame by lia.
Qed.

#[local] Instance demo_platform : Platform := {| asserts := true; memalign := λ _ _, true |}.

Lemma tags_tell_apart_witness :
  node_ok 9 ∧ ∃ g, MakeTag 9 UCX_TAG_DATA (2 ^ 48 + 5) = Ok g ∧ NodeIdFromTag g = 9 ∧
    ∀ id' t' key', node_ok id' → MakeTag id' t' key' = Ok g → id' = 9 ∧ t' = UCX_TAG_DATA ∧ key' mod 2 ^ 48 = (2 ^ 48 + 5) mod 2 ^ 48.
Proof.
  assert (node_ok 9) as H by (unfold node_ok; lia). split; [exact H|]. exact (tags_tell_apart 9 UCX_TAG_DATA (2 ^ 48 + 5) H).
Defined.

(** ** Endpoint ids *)
Lemma EpId_plus n d : in_s 32 d → EpId n d = u64 (Z.shiftl (u64 n) 32) + Z.max 0 d.
Proof.
  intros Hd. unfold EpId. symmetry.
  assert (Z.land (u64 (Z.shiftl (u64 n) 32)) (Z.max 0 d) = 0) as Hz.
  { apply Z.bits_inj'. intros i Hi. rewrite Z.land_spec, Z.bits_0. destruct (decide (i < 32)).
    - unfold uwrap. rewrite Z.mod_pow2_bits_low, Z.shiftl_spec, Z.testbit_neg_r by lia. done.
    - rewrite (bit_above (Z.max 0 d) 32 i) by (word_lia || lia). apply andb_false_r. }
  rewrite Z.add_nocarry_lxor by done. by apply Z.lxor_lor.
Qed.

Lemma EpId_value n d : in_s 32 d → EpId n d = u32 n * 2 ^ 32 + Z.max 0 d.
Proof.
  intros Hd. rewrite EpId_plus by done. f_equal. rewrite Z.shiftl_mul_pow2 by lia. unfold uwrap.
  rewrite Z.mul_mod_idemp_l by lia. change (2 ^ 64) with (2 ^ 32 * 2 ^ 32). by rewrite Z.mul_mod_distr_r by lia.
Qed.

Lemma NodeId_EpId n d : in_s 32 n → in_s 32 d → NodeId (EpId n d) = n.
Proof.
  intros Hn Hd. rewrite EpId_value by done. unfold NodeId. rewrite Z.shiftr_div_pow2 by lia.
  rewrite Z.div_add_l, (Z.div_small (Z.max 0 d)), Z.add_0_r by word_lia. by rewrite swrap_uwrap, swrap_small.
Qed.

Lemma EpId_inj n d d' : in_s 32 d → in_s 32 d' → EpId n d = EpId n d' → Z.max 0 d = Z.max 0 d'.
Proof. intros Hd Hd'. rewrite !EpId_value by done. lia. Qed.

(** ** Connections *)
Section connect.
Context (ep_created am_sent : Z → bool) (getaddrinfo : list byte → Z → option Z).
Hypothesis Hcreated : ∀ e, ep_created e = true.
Hypothesis Hsent : ∀ e, am_sent e = true.
Implicit Types p : UCXEndpointsPool.

(** An endpoint that waits for the peer *)
Definition pending (p : UCXEndpointsPool) (k : Z) : Prop := ∃ h a, client_eps_ p !! k = Some (mkUCXEp (Some h) k false (Some a)).

Lemma Create_ep_run id addr p :
  client_eps_ p !! id = Some (mkUCXEp None id false (Some addr)) →
  ∃ p1, Create_ep ep_created am_sent id p = Ok p1 ∧
    client_eps_ p1 = <[id := mkUCXEp (Some (next_ep p)) id false (Some addr)]> (client_eps_ p) ∧
    ams p1 = ams p ++ [(next_ep p, UCX_AM_NODE_INFO_REQ, id)].
Proof using Hcreated Hsent.
  intros E. unfold Create_ep. rewrite E. cbn [from_option_or]. rewrite (bind_eq _ (Ok _) _ eq_refl). cbn [connected remote_addr negb].
  rewrite bool_decide_eq_true_2 by (by eexists). rewrite Hcreated. unfold am_send. rewrite Hsent. eexists. split; [reflexivity|]. done.
Qed.

(** An endpoint per port, and a message over each *)
Lemma create_ports_run node l p :
  Forall (λ pd, is_Some (getaddrinfo (Node.hostname node) pd.1)) l →
  let ids := map (λ pd, EpId (Node.id node) pd.2) l in
  ∃ p1 hs, create_ports ep_created am_sent getaddrinfo node l p = Ok p1 ∧ length hs = length ids ∧
    ams p1 = ams p ++ zip_with (λ h id, (h, UCX_AM_NODE_INFO_REQ, id)) hs ids ∧
    (∀ k, k ∉ ids → client_eps_ p1 !! k = client_eps_ p !! k) ∧ (∀ k, k ∈ ids → pending p1 k).
Proof using Hcreated Hsent.
  intros Hl. revert p. induction Hl as [|[port dev] l [addr Haddr] Hl IH]; intros p ids.
  { exists p, []. split; [done|]. simpl. rewrite app_nil_r. split_and!; [done..|]. intros k Hk. by apply elem_of_nil in Hk. }
  cbn [create_ports]. cbn [fst] in Haddr. rewrite Haddr. cbn [from_option_or]. rewrite (bind_eq _ (Ok _) _ eq_refl). cbn beta iota.
  set (id := EpId (Node.id node) dev) in *. set (p0 := p <| client_eps_ ::= _ |>).
  destruct (Create_ep_run id addr p0) as (p1 & E1 & Hc & Ha); [apply lookup_insert_eq|]. rewrite (bind_eq _ _ _ E1).
  destruct (IH p1) as (p2 & hs & E2 & Hh & Ha2 & Hout & Hin). exists p2, (next_ep p0 :: hs). split_and!; [exact E2|..].
  - simpl. by rewrite Hh.
  - rewrite Ha2, Ha. simpl. by rewrite <-app_assoc.
  - intros k Hk. apply not_elem_of_cons in Hk as [Hne Hk]. rewrite Hout, Hc by done. rewrite lookup_insert_ne by done. by apply lookup_insert_ne.
  - intros k Hk. destruct (decide (k ∈ map (λ pd, EpId (Node.id node) pd.2) l)) as [Hk'|Hk']; [by apply Hin|].
    apply elem_of_cons in Hk as [->|Hk]; [|done]. unfold pending. rewrite Hout, Hc, lookup_insert_eq by done. by eexists _, _.
Qed.

(** The answers of the peer *)
Fixpoint replies (l : list Z) p : result UCXEndpointsPool :=
  match l with [] => Ok p | id :: l => p ← AmRxNodeInfoReply 8 id p; replies l p end.

Lemma reply_run id h a p :
  client_eps_ p !! id = Some (mkUCXEp (Some h) id false (Some a)) →
  ∃ p1, AmRxNodeInfoReply 8 id p = Ok p1 ∧ client_eps_ p1 = <[id := mkUCXEp (Some h) id true None]> (client_eps_ p).
Proof.
  intros E. unfold AmRxNodeInfoReply. rewrite E. cbn [Z.eqb Pos.eqb from_option_or]. rewrite (bind_eq _ (Ok _) _ eq_refl). cbn [remote_addr].
  rewrite bool_decide_eq_true_2 by (by eexists). eexists. split; [reflexivity|]. done.
Qed.

Lemma replies_run l p :
  NoDup l → (∀ k, k ∈ l → pending p k) →
  ∃ p1, replies l p = Ok p1 ∧ (∀ k, k ∉ l → client_eps_ p1 !! k = client_eps_ p !! k) ∧
    (∀ k, k ∈ l → ∃ h, client_eps_ p1 !! k = Some (mkUCXEp (Some h) k true None)).
Proof.
  intros Hl. revert p. induction Hl as [|id l Hid Hl IH]; intros p Hp.
  { exists p. split; [done|]. split; [done|]. intros k Hk. by apply elem_of_nil in Hk. }
  destruct (Hp id) as (h & a & E); [by left|]. destruct (reply_run id h a p E) as (p1 & E1 & Hc). cbn [replies]. rewrite (bind_eq _ _ _ E1).
  destruct (IH p1) as (p2 & E2 & Hout & Hin).
  { intros k Hk. assert (k ≠ id) by congruence. destruct (Hp k) as (h' & a' & E'); [by right|].
    unfold pending. rewrite Hc, lookup_insert_ne by done. by eexists _, _. }
  exists p2. split; [exact E2|]. split.
  - intros k Hk. apply not_elem_of_cons in Hk as [Hne Hk]. rewrite Hout, Hc by done. by apply lookup_insert_ne.
  - intros k Hk. apply elem_of_cons in Hk as [->|Hk]; [|by apply Hin]. rewrite Hout, Hc, lookup_insert_eq by done. by eexists.
Qed.

(** The peer answers every request with the id it has got. *)
Fixpoint answer (l : list Z) (hs : list Z) (q : UCXEndpointsPool) : result UCXEndpointsPool :=
  match l, hs with id :: l, h :: hs => q ← AmRxNodeInfoReq am_sent 8 id (Some h) q; answer l hs q | _, _ => Ok q end.

Lemma answer_run l hs q :
  length hs = length l →
  ∃ q1, answer l hs q = Ok q1 ∧ ams q1 = ams q ++ zip_with (λ h id, (h, UCX_AM_NODE_INFO_REPLY, id)) hs l ∧ client_eps_ q1 = client_eps_ q.
Proof using Hsent.
  revert hs q. induction l as [|id l IH]; intros [|h hs] q Hlen; try done; [exists q; by rewrite app_nil_r|].
  cbn [answer]. unfold AmRxNodeInfoReq. cbn [Z.eqb Pos.eqb from_option_or]. rewrite (bind_eq _ (Ok _) _ eq_refl). unfold am_send. rewrite Hsent.
  rewrite (bind_eq _ (Ok _) _ eq_refl). set (q0 := _ <| ams ::= _ |>). destruct (IH hs q0) as (q1 & E & Ha & Hc); [by injection Hlen|].
  exists q1. split; [exact E|]. rewrite Ha, Hc. simpl. by rewrite <-app_assoc.
Qed.

(** What the theorem on connecting assumes of a node: a device of its own for
    every port, which the van does not check. *)
Definition devs_of (node : Node.t) : list Z := take (Z.to_nat (Node.num_ports node)) (Node.dev_ids node).
Definition connectable (node : Node.t) : Prop :=
  in_s 32 (Node.id node) ∧ 1 ≤ Node.num_ports node ≤ 32 ∧ length (Node.ports node) = 32%nat ∧ length (Node.dev_ids node) = 32%nat ∧
  Forall (in_s 32) (Node.dev_ids node) ∧ NoDup (map (Z.max 0) (devs_of node)).

Lemma ids_of_ports node :
  length (Node.ports node) = length (Node.dev_ids node) →
  map (λ pd, EpId (Node.id node) pd.2) (take (Z.to_nat (Node.num_ports node)) (zip (Node.ports node) (Node.dev_ids node))) =
  map (EpId (Node.id node)) (devs_of node).
Proof.
  intros Hlen. unfold devs_of. rewrite <-(map_map snd (EpId (Node.id node))). f_equal.
  transitivity (take (Z.to_nat (Node.num_ports node)) (snd <$> zip (Node.ports node) (Node.dev_ids node))).
  - apply fmap_take.
  - by rewrite snd_zip by lia.
Qed.

Lemma ids_NoDup node : connectable node → NoDup (map (EpId (Node.id node)) (devs_of node)).
Proof.
  intros (_ & _ & _ & _ & Hd & Hnd). assert (Forall (in_s 32) (devs_of node)) as Hd' by (by apply Forall_take). clear Hd. revert Hnd Hd'.
  generalize (devs_of node). intros l Hnd. induction l as [|d l IH]; intros Hl; simpl in *; [constructor|].
  apply NoDup_cons in Hnd as [Hd Hnd]. apply Forall_cons in Hl as [Hd1 Hl]. apply NoDup_cons. split; [|by apply IH].
  intros Hin. apply Hd. apply list_elem_of_fmap in Hin as (d' & E & Hin). rewrite Forall_forall in Hl.
  apply EpId_inj in E; [|done|by apply Hl]. apply list_elem_of_fmap. by exists d'.
Qed.

Lemma all_connected_spec id p :
  all_connected id p = true ↔ ∀ k e, client_eps_ p !! k = Some e → NodeId k = id → connected e = true.
Proof.
  unfold all_connected. rewrite forallb_forall. split.
  - intros H k e Hk Hid. specialize (H (k, e)). rewrite <-list_elem_of_In, elem_of_map_to_list in H. specialize (H Hk). cbn [fst snd] in H.
    apply orb_true_iff in H as [H|H]; [|done]. rewrite Hid, Z.eqb_refl in H. done.
  - intros H [k e] Hk. rewrite <-list_elem_of_In, elem_of_map_to_list in Hk. cbn [fst snd]. destruct (Z.eqb_spec (NodeId k) id) as [E|E]; [|done]. by rewrite (H k e Hk E).
Qed.


(** Two ports with the same device id (a CPU and a GPU, or one that is not set)
    share an endpoint: the second answer frees its address again. *)
Lemma second_reply_undefined id h p l :
  client_eps_ p !! id = Some (mkUCXEp (Some h) id true None) → replies (id :: l) p = Err (Undefined "freeaddrinfo").
Proof. intros E. cbn [replies]. unfold AmRxNodeInfoReply. rewrite E. done. Qed.
End connect.

(** ** A server with two devices *)
Definition demo_peer (devs : list Z) : Node.t :=
  Node.mk Node.SERVER 8 0 (bytes_of "10.0.0.8") 2 (replicate 32 5008) (replicate 32 0) (devs ++ replicate 30 0) 5008 false (replicate 64 x00) 0 (-1).


(** With the device 0 twice, as for a CPU and a GPU, the second answer is a
    fault. *)
Example shared_device_faults :
  (p ← Create (λ _, true) (λ _, true) (λ _ port, Some port) (demo_peer [0; 0]) new_ep_pool; replies (map (EpId 8) (devs_of (demo_peer [0; 0]))) p)
    = Err (Undefined "freeaddrinfo").
Proof. vm_compute. reflexivity. Qed.
