(* ===== verification/UcxVan.v ===== *)
(** * The UCX van (src/ucx_van.h)

    [UCXContext] sends and receives for one device, [UCXVan] is the van on top of
    it: the meta data of a message go first, small values travel with them,
    other values follow under a tag of their own; requests carry sequence
    numbers by which the receiver can put them in order again. *)

From S2P Require Import Prelude Message Env Codec Postoffice RdmaMemory UcxPool.

(** ** [UCXContext] *)

(** [ctx_rx_pool_] is the receive pool the context points to, by its number. *)
Record UCXContext : Type := mkUCXContext {
  ctx_rx_pool_ : nat;
  src_dev_idx_ : Z;
  src_dev_type_ : DeviceType.t;
  ep_pool_ : UCXEndpointsPool;
  listener_ : option Z
}.
Definition new_context (rx_pool : nat) (idx : Z) (type : DeviceType.t) : UCXContext := mkUCXContext rx_pool idx type new_ep_pool None.

(** [payload] are the bytes of the buffer or of the two parts of an [iov], which
    stay as they are until they are sent. *)
Record UCXTxReq : Type := mkTxReq {
  payload : list byte;
  rtag : Tags;
  req_src_dev_id : Z;
  req_dst_dev_id : Z;
  rx_id : Z;
  rkey_ : Z
}.

(** [UCXRequest]: a receive that was given to the library; its context matters
    for its receive pool only. *)
Record UCXRequest : Type := mkUCXRequest { req_rx_pool : nat; completed : bool; rdata : UCXBuffer }.
Definition RequestInit (pool : nat) : UCXRequest := mkUCXRequest pool false (mkUCXBuffer None None 0 false).
(** A receive of values that has not completed: tag, buffer and its length *)
Record posted_recv : Type := mkPosted { ptag : Z; paddr : Z; plen : Z; preq : UCXRequest }.

(** What a call of the library gives back at once *)
Inductive ucs_status : Type :=
| UCS_OK | UCS_INPROGRESS | UCS_ERR_TIMED_OUT | UCS_ERR_NOT_CONNECTED | UCS_ERR_CONNECTION_RESET | UCS_ERR_OTHER.
Definition is_err (s : ucs_status) : bool := match s with UCS_OK | UCS_INPROGRESS => false | _ => true end.

Inductive ErrorCode : Type := PS_OK | PS_ERR_TIMED_OUT | PS_ERR_NOT_CONNECTED | PS_ERR_CONNECTION_RESET | PS_ERR_OTHER.
Definition GetErrorCode (s : ucs_status) : ErrorCode :=
  match s with
  | UCS_OK | UCS_INPROGRESS => PS_OK
  | UCS_ERR_TIMED_OUT => PS_ERR_TIMED_OUT
  | UCS_ERR_NOT_CONNECTED => PS_ERR_NOT_CONNECTED
  | UCS_ERR_CONNECTION_RESET => PS_ERR_CONNECTION_RESET
  | UCS_ERR_OTHER => PS_ERR_OTHER
  end.

Module UCXVan.
(** [host_] is the memory of the process, [tx] what was given to the library to
    send (device of the context, endpoint, tag, bytes), [metas] and [posted] the
    receives of meta data and of values it has not completed, [errors] the calls
    of [err_handle_]; [pool_id] numbers the receive pools. *)
Record t : Type := mk {
  my_node_ : Node.t;
  short_send_thresh_ : Z;
  force_request_order_ : bool;
  queue_sends_ : bool;
  should_stop_ : bool;
  contexts_ : gmap Z UCXContext;
  rx_pool_ : option UCXRecvPool;
  pool_id : nat;
  next_send_sids_ : gmap Z Z;
  next_recv_sids_ : gmap Z Z;
  recv_sid_buffers_ : gmap Z (gmap Z UCXBuffer);
  tx_reqs_ : list UCXTxReq;
  host_ : host;
  tx : list (Z * Z * Z * list byte);
  metas : list UCXRequest;
  posted : list posted_recv;
  has_err_handle : bool;
  errors : list ErrorCode
}.

Section van.
Context {platform : Platform}.
Context (malloc : list (Z * Z) → Z → Z) (QP_NUM : Z) (new_char : Z → list byte).
(** The library's answer to the [n]-th send, and whether the program is built
    with CUDA *)
Context (tag_send : nat → ucs_status) (use_cuda : bool).
Implicit Types v : t.

Definition pool v : result UCXRecvPool := from_option_or (Undefined "rx_pool_") (rx_pool_ v).
Definition set_pool (p : UCXRecvPool) v : t := v <| rx_pool_ := Some p |>.

(** The pool a context points to, which is gone when the van has another one *)
Definition pool_at (n : nat) v : result UCXRecvPool := inside! (n =? pool_id v)%nat or "rx_pool_"; pool v.

(** [err_handle_], when there is one *)
Definition report (s : ucs_status) v : t :=
  if has_err_handle v then v <| errors ::= (λ l, l ++ [GetErrorCode s]) |> else v.

(** [ContextById] *)
Definition ContextById (id : Z) v : result UCXContext :=
  from_option_or (Undefined "contexts_[id]") (contexts_ v !! Z.max 0 id).

Definition SetGpuDeviceId (c : UCXContext) : result unit :=
  check! use_cuda || negb (bool_decide (src_dev_type_ c = DeviceType.GPU)) or "Please build with USE_CUDA=1";
  Ok ().

(** [UCXContext::Send] *)
Definition Send (c : UCXContext) (req : UCXTxReq) v : result (ucs_status * t) :=
  stag ← MakeTag (Node.id (my_node_ v)) (rtag req) (rkey_ req);
  match Find (rx_id req) (req_dst_dev_id req) (ep_pool_ c) with
  | None => Ok (UCS_ERR_NOT_CONNECTED, v)
  | Some e =>
      _ ← SetGpuDeviceId c;
      let s := tag_send (length (tx v)) in
      Ok (s, if is_err s then v else v <| tx ::= (λ l, l ++ [(src_dev_idx_ c, e, stag, payload req)]) |>)
  end.

(** ** Sending *)
Definition IsDataMsg (msg : Message.t) : bool :=
  Message.IsValidPushpull msg &&
    ((Meta.push (Message.meta msg) && Meta.request (Message.meta msg)) ||
     (negb (Meta.push (Message.meta msg)) && negb (Meta.request (Message.meta msg)))).

Definition DecodeKey (keys : SArray.t byte) : result Z :=
  check! (SArray.size keys =? 8) or "Wrong key size";
  Ok (dec_u64 (SArray.elems keys)).

(** A request of the van to its context, now or later *)
Definition submit (req : UCXTxReq) v : result (ucs_status * t) :=
  if queue_sends_ v then Ok (UCS_INPROGRESS, v <| tx_reqs_ ::= (λ l, l ++ [req]) |>)
  else c ← ContextById (req_src_dev_id req) v; Send c req v.

(** Values that travel with the meta data *)
Definition bundled (m : Message.t) v : bool :=
  IsDataMsg m && bool_decide (Meta.src_dev_type (Message.meta m) = DeviceType.CPU) &&
    (Meta.val_len (Message.meta m) <=? short_send_thresh_ v).

Definition values (msg : Message.t) : result (SArray.t byte) := from_option_or (Undefined "msg.data[1]") (Message.data msg !! 1%nat).

(** The first [n] bytes of an array *)
Definition prefix (n : Z) (a : SArray.t byte) : result (list byte) :=
  inside! (0 <=? n) && (n <=? SArray.size a) or "iov[1]"; Ok (take (Z.to_nat n) (SArray.elems a)).

(** [SendMeta]: the message with its [option], and the bytes or -1 *)
Definition SendMeta (src_dev_id : Z) (msg : Message.t) v : result (Z * Message.t * t) :=
  x ← (if bundled msg v then
         let m := (Message.meta msg) <| Meta.option_ := GetPackMetaLen (Message.meta msg) |> in
         y ← PackMeta false QP_NUM m (Some (new_char (Meta.option_ m + 32))) new_char;
         vs ← values msg;
         data ← prefix (Meta.val_len m) vs;
         Ok (Message.mk m (Message.data msg), y.2, take (Z.to_nat y.2) y.1 ++ data, Meta.val_len m)
       else
         y ← PackMeta false QP_NUM (Message.meta msg) None new_char;
         Ok (msg, y.2, take (Z.to_nat y.2) y.1, 0));
  let '(msg, meta_size, bytes, data_size) := x in
  let m := Message.meta msg in
  r ← submit (mkTxReq bytes UCX_TAG_META src_dev_id (Meta.dst_dev_id m) (Meta.recver m) (Meta.key m)) v;
  let '(s, v) := r in
  if is_err s then Ok (-1, msg, report s v) else Ok (i32 (meta_size + data_size), msg, v).

(** The meta data of a message before it is sent: key, sequence number, length of
    the values *)
Definition prepare (msg : Message.t) v : result (Message.t * t) :=
  let id := Meta.recver (Message.meta msg) in
  let m := (Message.meta msg) <| Meta.option_ := UCX_OPTION_META |> in
  if Message.IsValidPushpull msg then
    x ← (if Meta.request m then
           ks ← from_option_or (Undefined "msg.data[0]") (Message.data msg !! 0%nat);
           key ← DecodeKey ks;
           let sid := Z.rem (default 0 (next_send_sids_ v !! id)) MAX_SID_COUNT in
           inside! (sid + 1 <? 2 ^ 31) or "int overflow";
           Ok (m <| Meta.key := key |> <| Meta.sid := sid |>, v <| next_send_sids_ ::= <[id := sid + 1]> |>)
         else Ok (m, v));
    let '(m, v) := x in
    if IsDataMsg msg then
      vs ← values msg;
      Ok (Message.mk (m <| Meta.val_len := i32 (SArray.size vs) |> <| Meta.option_ := UCX_OPTION_DATA |>) (Message.data msg), v)
    else if negb (Meta.push m) && Meta.request m then
      check! negb (Meta.addr m =? 0) or "msg.meta.addr != 0";
      p ← pool v;
      Ok (Message.mk m (Message.data msg), set_pool (CacheLocalAddress (Meta.key m) (Meta.addr m) p) v)
    else Ok (Message.mk m (Message.data msg), v)
  else Ok (Message.mk (m <| Meta.val_len := 0 |>) (Message.data msg), v).

(** The values under their own tag, after the meta data *)
Definition send_data (src_dev_id len : Z) (msg : Message.t) v : result (Z * Message.t * t) :=
  let m := Message.meta msg in
  check! IsDataMsg msg or "IsDataMsg(msg)";
  vs ← values msg;
  r ← submit (mkTxReq (SArray.elems vs) UCX_TAG_DATA src_dev_id (Meta.dst_dev_id m) (Meta.recver m) (Meta.key m)) v;
  let '(s, v) := r in
  if is_err s then Ok (-1, msg, report s v) else Ok (i32 (len + Meta.data_size m), msg, v).

(** A message that is prepared: its meta data, and its values if they have not
    gone with them *)
Definition send_prepared (src_dev_id : Z) (msg : Message.t) v : result (Z * Message.t * t) :=
  x ← SendMeta src_dev_id msg v;
  let '(len, msg, v) := x in
  let m := Message.meta msg in
  if Meta.option_ m =? UCX_OPTION_META then Ok (len, msg, v)
  else if len =? i32 (GetPackMetaLen m + Meta.val_len m) then Ok (i32 (len + Meta.data_size m), msg, v)
  else send_data src_dev_id len msg v.

(** [SendMsg]: the bytes, the message as it is left, the van *)
Definition SendMsg (msg : Message.t) v : result (Z * Message.t * t) :=
  let src_dev_id := Meta.src_dev_id (Message.meta msg) in
  check! negb (Meta.recver (Message.meta msg) =? kEmpty) or "id";
  x ← prepare msg v;
  let '(msg, v) := x in
  send_prepared src_dev_id msg v.

(** [PollTxQueueUCX]: the requests that are queued when a round starts *)
Fixpoint send_queued (n : nat) v : result t :=
  match n, tx_reqs_ v with
  | O, _ => Ok v
  | S _, [] => Err (Blocked "tx_reqs_.WaitAndPop")
  | S n, req :: rest =>
      let v := v <| tx_reqs_ := rest |> in
      c ← ContextById (req_src_dev_id req) v;
      r ← Send c req v;
      send_queued n r.2
  end.
Definition PollTxQueueUCX v : result t := send_queued (length (tx_reqs_ v)) v.

(** ** Receiving *)

(** [reinterpret_cast<RawMeta*>(raw_meta)] *)
Definition raw_header (bs : list byte) : result RawMeta.t :=
  inside! (sizeof_RawMeta <=? length bs)%nat or "RawMeta";
  from_option_or (Undefined "bool") (RawMeta.of_fields (read_fields 0 RawMeta.layout (take sizeof_RawMeta bs))).

(** The status of a receive, in the callbacks: an error ends the process unless
    there is a handler for errors, after which the callback goes on. *)
Definition callback_status (s : ucs_status) v : result t :=
  match s with
  | UCS_OK => Ok v
  | _ => check! has_err_handle v or "callback failed"; Ok (report s v)
  end.

Definition push (n : nat) (b : UCXBuffer) v : result t := p ← pool_at n v; Ok (set_pool (Push b p) v).

(** [RxDataCompletedCb]: without a buffer the receive has completed at once. *)
Definition RxDataCompletedCb (s : ucs_status) (req : UCXRequest) v : result t :=
  v ← callback_status s v;
  match buffer (rdata req) with
  | None => Ok v
  | Some _ => push (req_rx_pool req) (rdata req) v
  end.

(** The library puts bytes where a receive of this length wants them. *)
Definition deliver (addr len : Z) (bytes : list byte) v : t :=
  v <| host_ ::= (λ h, h <| mem ::= write_bytes addr (take (Z.to_nat len) bytes) |>) |>.

(** [PostRecvData]; [now]: the library completes the receive of the values at
    once, with this status and these bytes. *)
Definition PostRecvData (req : UCXRequest) (now : option (ucs_status * list byte)) v : result t :=
  let d := rdata req in
  let n := req_rx_pool req in
  bytes ← from_option_or (Undefined "raw_meta") (raw_meta d);
  meta ← raw_header bytes;
  let val_len := RawMeta.val_len meta in
  if RawMeta.option_ meta =? UCX_OPTION_META then
    check! bool_decide (buffer d = None) or "meta_req->data.buffer";
    push n d v
  else if 0 <? RawMeta.option_ meta then
    p ← pool_at n v;
    x ← GetRxBuffer malloc (RawMeta.key meta) (bsender d) (u64 val_len) (RawMeta.push meta) p (host_ v);
    let '(buf, p, h) := x in
    let src := drop (Z.to_nat (RawMeta.option_ meta)) bytes in
    inside! (0 <=? val_len) && (val_len <=? Z.of_nat (length src)) or "memcpy";
    push n (mkUCXBuffer (raw_meta d) (Some buf) (bsender d) (should_stop d)) (deliver buf val_len src ((set_pool p v) <| host_ := h |>))
  else
    check! (RawMeta.option_ meta =? UCX_OPTION_DATA) or "meta->option";
    p ← pool_at n v;
    x ← GetRxBuffer malloc (RawMeta.key meta) (bsender d) (u64 val_len) (RawMeta.push meta) p (host_ v);
    let '(buf, p, h) := x in
    let v := (set_pool p v) <| host_ := h |> in
    tag ← MakeTag (bsender d) UCX_TAG_DATA (RawMeta.key meta);
    let data := mkUCXBuffer (raw_meta d) (Some buf) (bsender d) false in
    match now with
    | Some (s, bs) =>
        v ← RxDataCompletedCb s (RequestInit n) (deliver buf (u64 val_len) bs v);
        push n data v
    | None => Ok (v <| posted ::= (λ l, l ++ [mkPosted tag buf (u64 val_len) (mkUCXRequest n false data)]) |>)
    end.

(** [RxMetaCompletedCb]: without meta data the receive has completed at once. *)
Definition RxMetaCompletedCb (s : ucs_status) (req : UCXRequest) (now : option (ucs_status * list byte)) v : result t :=
  v ← callback_status s v;
  match raw_meta (rdata req) with
  | None => Ok v
  | Some _ => PostRecvData req now v
  end.

(** Meta data the library has for the van; [at_once]: it completes their receive
    at once, with this status, and maybe that of the values. *)
Record probed : Type := mkProbed {
  sender_tag : Z;
  contents : list byte;
  at_once : option ucs_status;
  values_at_once : option (ucs_status * list byte)
}.

(** [PostRecvMeta]: when the receive completes at once the callback runs before
    the fields of the request are set. *)
Definition PostRecvMeta (c : UCXContext) (i : probed) v : result (UCXRequest * t) :=
  let n := ctx_rx_pool_ c in
  let data := mkUCXBuffer (Some (contents i)) None (NodeIdFromTag (sender_tag i)) false in
  match at_once i with
  | Some s => v ← RxMetaCompletedCb s (RequestInit n) None v; Ok (mkUCXRequest n true data, v)
  | None => let req := mkUCXRequest n false data in Ok (req, v <| metas ::= (λ l, l ++ [req]) |>)
  end.

(** [PollRx], for the meta data it finds *)
Fixpoint probe_loop (c : UCXContext) (l : list probed) v : result t :=
  match l with
  | [] => Ok v
  | i :: l =>
      r ← PostRecvMeta c i v;
      let '(req, v) := r in
      v ← (if completed req then PostRecvData req (values_at_once i) v else Ok v);
      probe_loop c l v
  end.
Definition PollRx (c : UCXContext) (l : list probed) v : result t := _ ← SetGpuDeviceId c; probe_loop c l v.

(** The library completes the [i]-th receive of meta data or of values that
    waits. *)
Definition complete_meta (i : nat) (s : ucs_status) (now : option (ucs_status * list byte)) v : result t :=
  req ← from_option_or (Undefined "request") (metas v !! i);
  RxMetaCompletedCb s (mkUCXRequest (req_rx_pool req) true (rdata req)) now (v <| metas ::= (λ l, take i l ++ drop (S i) l) |>).
Definition complete_data (i : nat) (s : ucs_status) (bytes : list byte) v : result t :=
  r ← from_option_or (Undefined "request") (posted v !! i);
  RxDataCompletedCb s (preq r) (deliver (paddr r) (plen r) bytes (v <| posted ::= (λ l, take i l ++ drop (S i) l) |>)).

(** ** Order *)
Definition IsPushpullRequest (raw : RawMeta.t) : bool :=
  (RawControl.cmd (RawMeta.control raw) =? Control.cmd_to_Z Control.EMPTY) && negb (RawMeta.simple_app raw) && RawMeta.request raw.

(** The loop that empties the buffer of a sender as far as the numbers go on;
    [fuel] bounds its steps. *)
Fixpoint release (fuel : nat) (next_sid : Z) (buffs : gmap Z UCXBuffer) (p : UCXRecvPool) : result (Z * gmap Z UCXBuffer * UCXRecvPool) :=
  inside! (next_sid + 1 <? 2 ^ 31) or "int overflow";
  let next_sid := Z.rem (next_sid + 1) MAX_SID_COUNT in
  match buffs !! next_sid, fuel with
  | None, _ => Ok (next_sid, buffs, p)
  | Some b, S fuel => release fuel next_sid (delete next_sid buffs) (PushOrdered b p)
  | Some _, O => Err (Blocked "while (true)")
  end.

(** One round of the loop of [ReorderMsg]; [None]: the thread ends. *)
Definition reorder_round v : result (option t) :=
  if should_stop_ v then Ok None
  else
    p ← pool v;
    x ← Pop p;
    let '(buf, p) := x in
    if should_stop buf then Ok None
    else
      bytes ← from_option_or (CheckFailed "raw != nullptr") (raw_meta buf);
      raw ← raw_header bytes;
      if negb (IsPushpullRequest raw) || negb (force_request_order_ v) then Ok (Some (set_pool (PushOrdered buf p) v))
      else
        let sid := RawMeta.sid raw in
        check! (0 <=? sid) or "invalid sid";
        let sender := bsender buf in
        check! (0 <=? sender) or "invalid sender";
        let next_sid := default 0 (next_recv_sids_ v !! sender) in
        let buffs := default ∅ (recv_sid_buffers_ v !! sender) in
        if sid =? next_sid then
          r ← release (size buffs) next_sid buffs (PushOrdered buf p);
          let '(next_sid, buffs, p) := r in
          Ok (Some ((set_pool p v) <| next_recv_sids_ ::= <[sender := next_sid]> |> <| recv_sid_buffers_ ::= <[sender := buffs]> |>))
        else
          Ok (Some ((set_pool p v) <| next_recv_sids_ ::= <[sender := next_sid]> |>
                                   <| recv_sid_buffers_ ::= <[sender := <[sid := buf]> buffs]> |>)).

Fixpoint ReorderMsg (rounds : nat) v : result (option t) :=
  match rounds with
  | O => Ok (Some v)
  | S n => r ← reorder_round v; match r with None => Ok None | Some v => ReorderMsg n v end
  end.

(** [RecvMsg]; [copy] is the memory of the arrays it makes. *)
Definition RecvMsg (copy : nat → Z) (m0 : Meta.t) v : result (Z * Message.t * t) :=
  p ← pool v;
  x ← PopOrdered p;
  let '(buf, p) := x in
  let v := set_pool p v in
  bytes ← from_option_or (Undefined "buf.raw_meta") (raw_meta buf);
  m ← UnpackMeta false bytes m0;
  let total_len := GetPackMetaLen m in
  let m := m <| Meta.sender := bsender buf |> <| Meta.recver := Node.id (my_node_ v) |> in
  let array i bs := SArray.mk (copy i) bs DeviceType.CPU 0 DeviceType.CPU 0 in
  if negb (Message.IsValidPushpull (Message.mk m [])) || (Meta.push m && negb (Meta.request m)) then
    check! (Meta.option_ m =? UCX_OPTION_META) or "msg->meta.option";
    Ok (total_len, Message.mk m [], v)
  else
    let keys := array 0%nat (enc_u64 (Meta.key m)) in
    if negb (Meta.push m) && Meta.request m then Ok (i32 (total_len + 8), Message.mk m [keys; SArray.mk 0 [] DeviceType.CPU 0 DeviceType.CPU 0], v)
    else
      let addr := default 0 (buffer buf) in
      inside! (0 <=? Meta.val_len m) && (bool_decide (is_Some (buffer buf)) || (Meta.val_len m =? 0)) or "vals";
      let vals := SArray.mk addr (read_bytes (mem (host_ v)) addr (Z.to_nat (Meta.val_len m))) DeviceType.CPU 0 DeviceType.CPU 0 in
      let lens := array 1%nat (enc_int (Meta.val_len m)) in
      Ok (i32 (total_len + 8 + Meta.val_len m + 4), Message.mk m [keys; vals; lens], v).

Definition RegisterRecvBuffer (msg : Message.t) v : result t :=
  p ← pool v;
  x ← Register msg p (host_ v);
  Ok ((set_pool x.1 v) <| host_ := x.2 |>).

(** ** Start, stop, connections *)
Definition new (e : Environment) (my_node : Node.t) (has_handle : bool) (h : host) : result t :=
  check! bool_decide (is_Some (getenv e "UCX_USE_MT_MUTEX")) || bool_decide (is_Some (getenv e "PSLITE_UCX_USE_MT_MUTEX"))
    or "PSLITE_UCX_USE_MT_MUTEX is not set";
  Ok (mk my_node (GetEnv_int e "BYTEPS_UCX_SHORT_THRESH" 4096) (negb (GetEnv_int e "BYTEPS_UCX_FORCE_REQ_ORDER" 0 =? 0))
        (negb (GetEnv_int e "BYTEPS_UCX_QUEUE_SENDS" 0 =? 0)) false ∅ None 0 ∅ ∅ ∅ [] h [] [] [] has_handle []).

(** [rx_pool_.reset]: the pool the van has gives its memory back. *)
Definition drop_pool v : result t :=
  match rx_pool_ v with
  | Some p => h ← destroy_pool p (host_ v); Ok (v <| host_ := h |> <| rx_pool_ := None |>)
  | None => Ok v
  end.

(** [Start], before [Van::Start] *)
Definition Start v : result t :=
  v ← drop_pool (v <| should_stop_ := false |>);
  Ok (v <| rx_pool_ := Some new_recv_pool |> <| pool_id ::= S |>).

(** [Stop], after [Van::Stop] *)
Definition Stop v : result t :=
  v ← push (pool_id v) (mkUCXBuffer None None 0 true) (v <| should_stop_ := true |>);
  drop_pool (v <| contexts_ ::= fmap (λ c, c <| listener_ := None |>) |>).

(** [Listen] on a port, and on random ones when it is taken *)
Section bind.
Context (listen : Z → bool) (rnd : nat → Z).

Fixpoint listen_loop (trial max_retry : nat) (port : Z) : result Z :=
  if listen port then Ok port
  else
    match max_retry with
    | O => Err (CheckFailed "ucp_listener_create failed")
    | S r => listen_loop (S trial) r (rnd trial)
    end.

Definition devices (e : Environment) : list (DeviceType.t * Z) :=
  map (pair DeviceType.CPU) (seqZ 0 (GetEnv_int e "DMLC_NUM_CPU_DEV" 1)) ++ map (pair DeviceType.GPU) (seqZ 0 (GetEnv_int e "DMLC_NUM_GPU_DEV" 0)).

(** The loop over the ports: a context for every device *)
Fixpoint bind_ports (i : nat) (max_retry : nat) (devs : list (DeviceType.t * Z)) (node : Node.t) v : result (Node.t * t) :=
  match devs with
  | [] => Ok (node, v)
  | (ty, dev_id) :: devs =>
      inside! (i <? 32)%nat or "node.dev_types[i]";
      let c := new_context (pool_id v) dev_id ty in
      _ ← SetGpuDeviceId c;
      port ← listen_loop 0 max_retry (Node.ports node !!! i);
      let node := node <| Node.dev_types ::= <[i := DeviceType.to_Z ty]> |> <| Node.dev_ids ::= <[i := dev_id]> |>
                       <| Node.ports ::= <[i := port]> |> in
      bind_ports (S i) max_retry devs node (v <| contexts_ ::= <[dev_id := c <| listener_ := Some port |>]> |>)
  end.

Definition Bind (e : Environment) (node : Node.t) (max_retry : nat) v : result (Z * Node.t * t) :=
  let devs := devices e in
  check! (Z.of_nat (length devs) =? Node.num_ports node) or "num_cpu_dev + num_gpu_dev != num_ports";
  x ← bind_ports 0 max_retry devs node v;
  Ok (Node.ports x.1 !!! 0%nat, x.1, x.2).
End bind.

(** [Connect]: every context to every port of the node, each with its own
    endpoints, for which it waits until [all_connected] *)
Fixpoint connect_contexts (ep_created am_sent : Z → bool) (getaddrinfo : list byte → Z → option Z) (node : Node.t)
    (l : list (Z * UCXContext)) v : result t :=
  match l with
  | [] => Ok v
  | (id, c) :: l =>
      p ← Create ep_created am_sent getaddrinfo node (ep_pool_ c);
      connect_contexts ep_created am_sent getaddrinfo node l (v <| contexts_ ::= <[id := c <| ep_pool_ := p |>]> |>)
  end.
Definition Connect (ep_created am_sent : Z → bool) (getaddrinfo : list byte → Z → option Z) (node : Node.t) v : result t :=
  check! negb (Node.id node =? kEmpty) or "node.id";
  check! negb (Node.port node =? kEmpty) or "node.port";
  check! negb (length (Node.hostname node) =? 0)%nat or "node.hostname.size()";
  if bool_decide (Node.role node = Node.role (my_node_ v)) && negb (Node.id node =? Node.id (my_node_ v)) then Ok v
  else connect_contexts ep_created am_sent getaddrinfo node (map_to_list (contexts_ v)) v.
End van.
End UCXVan.
