(* ===== verification/UcxFacts.v ===== *)
(** * The UCX van puts requests in order

    With BYTEPS_UCX_FORCE_REQ_ORDER the receiver hands the requests of every
    sender on in the order of their sequence numbers, whatever the order in
    which their values have arrived. *)

From S2P Require Import Prelude Message Env Codec Postoffice RdmaMemory UcxPool UcxVan.
Import UCXVan.

(** The sequence number of a push or pull request *)
Definition sid_of (b : UCXBuffer) : option Z :=
  match raw_meta b with
  | Some bytes =>
      match raw_header bytes with
      | Ok raw => if IsPushpullRequest raw then Some (RawMeta.sid raw) else None
      | Err _ => None
      end
  | None => None
  end.

(** What the sender [s] has sent *)
Definition mine (s : Z) (l : list UCXBuffer) : list UCXBuffer := filter (λ b, bsender b = s) l.

Definition buffered (B : gmap Z UCXBuffer) : list UCXBuffer := map snd (map_to_list B).

(** A request that can be ordered *)
Definition orderly (b : UCXBuffer) : Prop :=
  should_stop b = false ∧ 0 ≤ bsender b ∧ ∃ k, sid_of b = Some k ∧ 0 ≤ k < 2 ^ 31 - 1.

Lemma mine_app s l1 l2 : mine s (l1 ++ l2) = mine s l1 ++ mine s l2.
Proof. apply filter_app. Qed.
Lemma mine_all s l : Forall (λ b, bsender b = s) l → mine s l = l.
Proof. induction 1; [done|]. unfold mine in *. rewrite filter_cons_True by done. by f_equal. Qed.
Lemma mine_none s s' l : s ≠ s' → Forall (λ b, bsender b = s') l → mine s l = [].
Proof. intros Hs. induction 1; [done|]. unfold mine in *. rewrite filter_cons_False by congruence. done. Qed.

(** ** The loop *)
Definition append_ordered (l : list UCXBuffer) (p : UCXRecvPool) : UCXRecvPool :=
  mkRecvPool (recv_buffers_ p) (ordered_recv_buffers_ p ++ l) (w_pool_ p) (rpool_ p).

Lemma next_sid_small k : 0 ≤ k < 2 ^ 31 - 1 → Z.rem (k + 1) MAX_SID_COUNT = k + 1.
Proof. intros H. change MAX_SID_COUNT with (- 2 ^ 31). rewrite Z.rem_opp_r by lia. apply Z.rem_small. lia. Qed.

(** What the loop hands on: the run of numbers that follows [next] *)
Lemma release_run fuel next B p :
  (size B ≤ fuel)%nat → 0 ≤ next < 2 ^ 31 - 1 → (∀ k b, B !! k = Some b → next < k < 2 ^ 31 - 1) →
  ∃ next' B' outs, release fuel next B p = Ok (next', B', append_ordered outs p) ∧ next < next' ∧
    Forall2 (λ k b, B !! k = Some b) (seqZ (next + 1) (next' - (next + 1))) outs ∧
    (∀ k b, B' !! k = Some b → B !! k = Some b ∧ next' < k) ∧ buffered B ≡ₚ outs ++ buffered B'.
Proof.
  revert next B p. induction fuel as [|fuel IH]; intros next B p Hsz Hn HB.
  all: cbn [release]; rewrite (proj2 (Z.ltb_lt _ _)), next_sid_small by lia; destruct (B !! (next + 1)) as [b|] eqn:Eb.
  1: assert (B = ∅) as -> by (apply map_size_empty_inv; lia); by rewrite lookup_empty in Eb.
  1, 3: exists (next + 1), B, []; split_and!; [unfold append_ordered; rewrite app_nil_r; by destruct p|lia|by rewrite Z.sub_diag| |done];
    intros k b Hk; split; [done|]; destruct (HB k b Hk); destruct (decide (k = next + 1)) as [->|]; [congruence|lia].
  destruct (IH (next + 1) (delete (next + 1) B) (PushOrdered b p)) as (next' & B' & outs & E & Hlt & HF & HB' & Hp).
  - rewrite map_size_delete, Eb. simpl. lia.
  - destruct (HB _ _ Eb). lia.
  - intros k b' Hk. apply lookup_delete_Some in Hk as [Hne Hk]. destruct (HB k b' Hk). lia.
  - exists next', B', (b :: outs). rewrite E. split_and!.
    + unfold append_ordered, PushOrdered. simpl. by rewrite <-app_assoc.
    + lia.
    + rewrite seqZ_cons by lia. constructor; [done|].
      replace (Z.pred (next' - (next + 1))) with (next' - (next + 1 + 1)) by lia.
      eapply Forall2_impl; [exact HF|]. intros k b' Hk. by apply lookup_delete_Some in Hk as [_ Hk].
    + intros k b' Hk. destruct (HB' k b' Hk) as [Hd ?]. by apply lookup_delete_Some in Hd as [_ Hd].
    + simpl. rewrite <-Hp. unfold buffered. by rewrite <-(map_to_list_delete B (next + 1) b Eb).
Qed.

(** ** One sender *)

(** Of the requests [done] that have arrived from [s], [out] were handed on: the
    ones up to [next]; [B] holds the others. *)
Record sender_inv (s : Z) (done out : list UCXBuffer) (next : Z) (B : gmap Z UCXBuffer) : Prop := {
  inv_next : 0 ≤ next < 2 ^ 31;
  inv_out : map sid_of out = Some <$> seqZ 0 next;
  inv_buffered : ∀ k b, B !! k = Some b → next < k < 2 ^ 31 - 1 ∧ sid_of b = Some k ∧ bsender b = s;
  inv_all : done ≡ₚ out ++ buffered B
}.

Lemma in_buffered k B : Some k ∈ map sid_of (buffered B) → (∀ k b, B !! k = Some b → sid_of b = Some k) → is_Some (B !! k).
Proof.
  intros Hin HB. apply list_elem_of_fmap in Hin as (b & Hk & Hb). apply list_elem_of_fmap in Hb as ([k' b'] & -> & Hb).
  apply elem_of_map_to_list in Hb. simpl in Hk. rewrite (HB _ _ Hb) in Hk. injection Hk as ->. by eexists.
Qed.

(** The numbers of the requests that have arrived *)
Lemma arrived_cases s done out next B k :
  sender_inv s done out next B → Some k ∈ map sid_of done → 0 ≤ k < next ∨ is_Some (B !! k).
Proof.
  intros [Hn Ho HB Ha] Hk. rewrite Ha, map_app in Hk. apply elem_of_app in Hk as [Hk|Hk].
  - rewrite Ho in Hk. apply list_elem_of_fmap in Hk as (k' & [= ->] & Hk). apply elem_of_seqZ in Hk. lia.
  - right. apply in_buffered; [done|]. intros. by destruct (HB _ _ H) as (_ & ? & _).
Qed.

Lemma arrived_below s done out next B k : sender_inv s done out next B → 0 ≤ k < next → Some k ∈ map sid_of done.
Proof.
  intros [Hn Ho HB Ha] Hk. rewrite Ha, map_app. apply elem_of_app. left. rewrite Ho. apply list_elem_of_fmap. exists k. split; [done|]. apply elem_of_seqZ. lia.
Qed.

(** The request that is due *)
Lemma sender_due s done out next B b p :
  sender_inv s done out next B → bsender b = s → sid_of b = Some next → next < 2 ^ 31 - 1 →
  ∃ next' B' outs, release (size B) next B p = Ok (next', B', append_ordered outs p) ∧
    sender_inv s (done ++ [b]) (out ++ b :: outs) next' B' ∧ Forall (λ b, bsender b = s) outs.
Proof.
  intros [Hn Ho HB Ha] Hs Hb Hlt.
  destruct (release_run (size B) next B p) as (next' & B' & outs & E & Hn' & HF & HB' & Hp); [done|lia|by intros; destruct (HB _ _ H)|].
  exists next', B', outs. split; [done|].
  assert (Forall2 (λ k b, sid_of b = Some k ∧ bsender b = s ∧ k < 2 ^ 31 - 1) (seqZ (next + 1) (next' - (next + 1))) outs) as HF'.
  { eapply Forall2_impl; [exact HF|]. intros k b' Hk. destruct (HB _ _ Hk) as ([_ ?] & ? & ?). split_and!; assumption. }
  split; [|clear - HF'; induction HF' as [|k b' ks bs (_ & ? & _)]; by constructor]. constructor.
  - split; [lia|]. destruct (decide (next' = next + 1)) as [->|Hne]; [lia|].
    assert (next' - 1 ∈ seqZ (next + 1) (next' - (next + 1))) as Hin by (apply elem_of_seqZ; lia).
    apply list_elem_of_lookup in Hin as (i & Hi). destruct (Forall2_lookup_l _ _ _ _ _ HF' Hi) as (b' & _ & _ & _ & ?). lia.
  - rewrite map_app, Ho. replace next' with (next + (1 + (next' - (next + 1)))) at 1 by lia.
    rewrite seqZ_app, fmap_app by lia. f_equal. rewrite seqZ_cons by lia. simpl. rewrite Hb. f_equal.
    replace (Z.succ (0 + next)) with (next + 1) by lia. replace (Z.pred (1 + (next' - (next + 1)))) with (next' - (next + 1)) by lia.
    clear - HF'. induction HF' as [|k b' ks bs [Hk _] _ IH]; simpl; [done|]. by rewrite Hk, IH.
  - intros k b' Hk. destruct (HB' k b' Hk) as [HBk ?]. destruct (HB _ _ HBk) as ([_ ?] & ? & ?). split_and!; assumption.
  - rewrite Ha, Hp. rewrite <-!app_assoc. simpl. solve_Permutation.
Qed.

(** Another request waits *)
Lemma sender_early s done out next B b k :
  sender_inv s done out next B → bsender b = s → sid_of b = Some k → 0 ≤ k < 2 ^ 31 - 1 → k ≠ next → Some k ∉ map sid_of done →
  sender_inv s (done ++ [b]) out next (<[k := b]> B).
Proof.
  intros Hinv Hs Hb Hk Hne Hnew. pose proof Hinv as [Hn Ho HB Ha].
  assert (next < k) by (destruct (decide (next < k)); [done|]; destruct Hnew; apply (arrived_below s done out next B); [done|lia]).
  assert (B !! k = None) as HBk.
  { destruct (B !! k) as [b'|] eqn:E; [|done]. destruct Hnew. destruct (HB _ _ E) as (_ & Hk' & _).
    rewrite Ha, map_app. apply elem_of_app. right. apply list_elem_of_fmap. exists b'. split; [done|].
    apply list_elem_of_fmap. exists (k, b'). split; [done|]. by apply elem_of_map_to_list. }
  constructor; [done|done| |].
  - intros k' b' Hk'. apply lookup_insert_Some in Hk' as [[<- <-]|[_ Hk']]; [|by apply HB]. split; [lia|done].
  - unfold buffered. rewrite map_to_list_insert by done. simpl. fold (buffered B). rewrite Ha. solve_Permutation.
Qed.

(** ** All senders *)
Definition next_of (s : Z) (v : t) : Z := default 0 (next_recv_sids_ v !! s).
Definition waiting_of (s : Z) (v : t) : gmap Z UCXBuffer := default ∅ (recv_sid_buffers_ v !! s).

Record reorder_inv (done todo : list UCXBuffer) (v : t) (p : UCXRecvPool) : Prop := {
  inv_force : force_request_order_ v = true;
  inv_running : should_stop_ v = false;
  inv_pool : rx_pool_ v = Some p;
  inv_todo : recv_buffers_ p = todo;
  inv_senders : ∀ s, sender_inv s (mine s done) (mine s (ordered_recv_buffers_ p)) (next_of s v) (waiting_of s v)
}.

(** A round on a request *)
Lemma round_request done todo b v p k :
  reorder_inv done (b :: todo) v p → should_stop b = false → 0 ≤ bsender b → sid_of b = Some k → 0 ≤ k →
  let p1 := mkRecvPool todo (ordered_recv_buffers_ p) (w_pool_ p) (rpool_ p) in
  let s := bsender b in
  reorder_round v =
    (if k =? next_of s v then
       r ← release (size (waiting_of s v)) (next_of s v) (waiting_of s v) (PushOrdered b p1);
       let '(next, B, p) := r in
       Ok (Some ((set_pool p v) <| next_recv_sids_ ::= <[s := next]> |> <| recv_sid_buffers_ ::= <[s := B]> |>))
     else
       Ok (Some ((set_pool p1 v) <| next_recv_sids_ ::= <[s := next_of s v]> |> <| recv_sid_buffers_ ::= <[s := <[k := b]> (waiting_of s v)]> |>))).
Proof.
  intros [Hf Hr Hp Ht _] Hstop Hs Hk Hk0. unfold reorder_round. rewrite Hr. unfold pool. rewrite Hp. cbn [from_option_or].
  rewrite (bind_eq _ (Ok _) _ eq_refl). unfold Pop. rewrite Ht. rewrite (bind_eq _ (Ok _) _ eq_refl). cbn beta iota. rewrite Hstop.
  unfold sid_of in Hk. destruct (raw_meta b) as [bytes|]; [|done]. cbn [from_option_or]. rewrite (bind_eq _ (Ok _) _ eq_refl).
  destruct (raw_header bytes) as [raw|] eqn:Eraw; [|done]. rewrite (bind_eq _ (Ok _) _ eq_refl).
  destruct (IsPushpullRequest raw); [|done]. injection Hk as Hk. rewrite Hf, Hk. cbn [negb orb].
  rewrite !(proj2 (Z.leb_le 0 _)) by done. reflexivity.
Qed.

Lemma round_inv done todo b v p :
  reorder_inv done (b :: todo) v p → orderly b → (bsender b, sid_of b) ∉ map (λ b, (bsender b, sid_of b)) done →
  ∃ v' p', reorder_round v = Ok (Some v') ∧ reorder_inv (done ++ [b]) todo v' p'.
Proof.
  intros Hinv (Hstop & Hs & k & Hk & Hk0) Hnew. rewrite (round_request done todo b v p k) by (done || lia).
  pose proof Hinv as [Hf Hr Hp Ht Hall]. set (s := bsender b). pose proof (Hall s) as Hmy.
  assert (Hb1 : ∀ s', s' ≠ s → mine s' (done ++ [b]) = mine s' done).
  { intros s' Hne. rewrite mine_app, (mine_none s' s [b]), app_nil_r; [done|done|by constructor]. }
  assert (Hb2 : mine s (done ++ [b]) = mine s done ++ [b]) by (rewrite mine_app; f_equal; apply mine_all; by constructor).
  destruct (Z.eqb_spec k (next_of s v)) as [Hdue|Hearly].
  - set (p1 := PushOrdered b _).
    destruct (sender_due s (mine s done) (mine s (ordered_recv_buffers_ p)) (next_of s v) (waiting_of s v) b p1)
      as (next' & B' & outs & E & Hinv' & Houts); [done|done|by rewrite <-Hdue|lia|].
    assert (Ho : ordered_recv_buffers_ (append_ordered outs p1) = ordered_recv_buffers_ p ++ b :: outs) by (symmetry; apply (app_assoc _ [b])).
    rewrite (bind_eq _ _ _ E). cbn beta iota. eexists _, _. split; [reflexivity|]. constructor; [done|done|reflexivity|done|].
    intros s'. rewrite Ho, (mine_app s' (ordered_recv_buffers_ p)). destruct (decide (s' = s)) as [->|Hne].
    + rewrite Hb2, (mine_all s (b :: outs)) by (by constructor). unfold next_of, waiting_of. cbn -[mine s]. by rewrite !lookup_insert_eq.
    + rewrite Hb1, (mine_none s' s (b :: outs)), app_nil_r by (done || by constructor). unfold next_of, waiting_of. cbn -[mine s].
      rewrite !lookup_insert_ne by done. apply Hall.
  - eexists _, _. split; [reflexivity|]. constructor; [done|done|reflexivity|done|].
    intros s'. destruct (decide (s' = s)) as [->|Hne].
    + rewrite Hb2. unfold next_of, waiting_of. cbn -[mine s]. rewrite !lookup_insert_eq. apply sender_early; try done.
      intros Hin. apply Hnew. apply list_elem_of_fmap in Hin as (b' & Hb' & Hin). apply list_elem_of_filter in Hin as [Hs' Hin].
      apply list_elem_of_fmap. exists b'. split; [|done]. rewrite Hs', <-Hb', Hk. done.
    + rewrite Hb1 by done. unfold next_of, waiting_of. cbn -[mine s]. rewrite !lookup_insert_ne by done. apply Hall.
Qed.

Lemma rounds_inv n done todo v p :
  reorder_inv done todo v p → Forall orderly todo → NoDup (map (λ b, (bsender b, sid_of b)) (done ++ todo)) → (n ≤ length todo)%nat →
  ∃ v' p', ReorderMsg n v = Ok (Some v') ∧ reorder_inv (done ++ take n todo) (drop n todo) v' p'.
Proof.
  revert done todo v p. induction n as [|n IH]; intros done todo v p Hinv Hall Hnd Hn.
  { exists v, p. rewrite take_0, app_nil_r. done. }
  destruct todo as [|b todo]; [simpl in Hn; lia|]. apply Forall_cons in Hall as [Hb Hall].
  destruct (round_inv done todo b v p Hinv Hb) as (v1 & p1 & E1 & Hinv1).
  { rewrite map_app in Hnd. apply NoDup_app in Hnd as (_ & Hd & _). intros Hin. apply (Hd _ Hin). simpl. by left. }
  destruct (IH (done ++ [b]) todo v1 p1 Hinv1 Hall) as (v2 & p2 & E2 & Hinv2); [by rewrite <-app_assoc|simpl in Hn; lia|].
  exists v2, p2. cbn [ReorderMsg take drop]. rewrite (bind_eq _ _ _ E1). split; [exact E2|]. by rewrite <-app_assoc in Hinv2.
Qed.

(** C8. With forced order, whatever the order in which the requests of any number of
    senders have arrived, after every round of the reordering thread the requests
    of each sender that were handed on are those with the numbers [0 .. k - 1], in
    this order, each of them one that has arrived, and no request waits whose
    predecessors are all there. *)
Theorem ucx_reorder v p n :
  rx_pool_ v = Some p → force_request_order_ v = true → should_stop_ v = false →
  ordered_recv_buffers_ p = [] → next_recv_sids_ v = ∅ → recv_sid_buffers_ v = ∅ →
  Forall orderly (recv_buffers_ p) → NoDup (map (λ b, (bsender b, sid_of b)) (recv_buffers_ p)) → (n ≤ length (recv_buffers_ p))%nat →
  ∃ v' p', ReorderMsg n v = Ok (Some v') ∧ rx_pool_ v' = Some p' ∧ recv_buffers_ p' = drop n (recv_buffers_ p) ∧
    ∀ s, let arrived := mine s (take n (recv_buffers_ p)) in let out := mine s (ordered_recv_buffers_ p') in
      ∃ k, map sid_of out = Some <$> seqZ 0 k ∧ out ⊆+ arrived ∧
        ∀ m, (∀ i, 0 ≤ i < m → Some i ∈ map sid_of arrived) → m ≤ k.
Proof.
  intros Hp Hf Hr Ho Hn HB Hall Hnd Hlen.
  assert (reorder_inv [] (recv_buffers_ p) v p) as Hinv0.
  { constructor; try done. intros s. unfold next_of, waiting_of. rewrite Ho, Hn, HB, !lookup_empty. by constructor. }
  destruct (rounds_inv n [] _ v p Hinv0 Hall Hnd Hlen) as (v' & p' & E & [_ _ Hp' Ht Hs]).
  exists v', p'. split_and!; [done..|]. intros s arrived out. exists (next_of s v'). specialize (Hs s). split; [apply Hs|]. split.
  - unfold out. rewrite <-(app_nil_r (mine s (ordered_recv_buffers_ p'))). etrans; [apply submseteq_app; [done|apply submseteq_nil_l]|].
    rewrite <-(inv_all _ _ _ _ _ Hs). done.
  - intros m Hm. destruct (decide (m ≤ next_of s v')) as [?|Hlt]; [done|]. pose proof (inv_next _ _ _ _ _ Hs).
    destruct (arrived_cases _ _ _ _ _ (next_of s v') Hs) as [?|[b Hb]]; [apply Hm; lia|lia|].
    destruct (inv_buffered _ _ _ _ _ Hs _ _ Hb). lia.
Qed.

(** ** Two senders, out of order *)
Definition demo_request (sender sid : Z) : UCXBuffer :=
  mkUCXBuffer (Some (packed false (Meta.default <| Meta.request := true |> <| Meta.push := true |> <| Meta.sid := sid |>) [])) (Some 64) sender false.
Definition demo_pool : UCXRecvPool :=
  mkRecvPool [demo_request 9 2; demo_request 11 0; demo_request 9 0; demo_request 9 1; demo_request 11 3] [] ∅ ∅.
Definition demo_van : t :=
  mk demo_node 4096 true false false ∅ (Some demo_pool) 1 ∅ ∅ ∅ [] (mkHost (λ _, x00) [] []) [] [] [] false [].

Lemma ucx_reorder_witness :
  ∃ v' p', ReorderMsg 4 demo_van = Ok (Some v') ∧ rx_pool_ v' = Some p' ∧ recv_buffers_ p' = drop 4 (recv_buffers_ demo_pool) ∧
    ∀ s, let arrived := mine s (take 4 (recv_buffers_ demo_pool)) in let out := mine s (ordered_recv_buffers_ p') in
      ∃ k, map sid_of out = Some <$> seqZ 0 k ∧ out ⊆+ arrived ∧
        ∀ m, (∀ i, 0 ≤ i < m → Some i ∈ map sid_of arrived) → m ≤ k.
Proof.
  apply (ucx_reorder demo_van demo_pool 4); try reflexivity.
  - repeat (apply Forall_cons; split; [split; [reflexivity|split; [vm_compute; discriminate|eexists; split; [vm_compute; reflexivity|vm_compute; split; congruence]]]|]).
    apply Forall_nil_2.
  - apply (bool_decide_unpack _). vm_compute. exact I.
  - simpl. lia.
Defined.
