(* ===== verification/UcxDelivery.v ===== *)
(** * Messages over UCX arrive

    What [SendMsg] gives to the library (the meta data, with small values, and
    other values under a tag of their own), the receiver's callbacks, its
    reordering thread and [RecvMsg] put together again. *)

From coqutil Require Import Word.LittleEndianList.
From S2P Require Import Prelude Message Env Codec Postoffice RdmaMemory RdmaTransport RdmaFacts UcxPool UcxTags UcxVan.
Import UCXVan.

Definition id_of (v : t) : Z := Node.id (my_node_ v).

(** The meta data with the fields the van sets *)
Definition with_header (m : Meta.t) (key sid len opt : Z) : Meta.t :=
  m <| Meta.key := key |> <| Meta.sid := sid |> <| Meta.val_len := len |> <| Meta.option_ := opt |>.

Lemma with_header_wf m key sid len opt :
  meta_wf m → in_u 64 key → in_s 32 sid → in_s 32 len → in_s 32 opt → meta_wf (with_header m key sid len opt).
Proof.
  intros (Hi & Hu & H8 & Hs & Hsh & Ht1 & Ht2 & Hn & Hl) Hk Hsid Hlen Hopt. split_forall.
  split; [all_ranges|]. split; [all_ranges|]. split; [all_ranges|]. exact (conj Hs (conj Hsh (conj Ht1 (conj Ht2 (conj Hn Hl))))).
Qed.

Section send.
Context {platform : Platform}.
Context (QP_NUM : Z) (Hqp : QP_NUM ≤ Z.of_nat QP_MAX_NUM).
Context (new_char : Z → list byte) (Hnew : ∀ n, 0 ≤ n → length (new_char n) = Z.to_nat n).
Context (tag_send : nat → ucs_status) (Hsend : ∀ n, is_err (tag_send n) = false) (use_cuda : bool).

(** The van can send over [e], with the context [c]. *)
Definition route (msg : Message.t) (x : t) (c : UCXContext) (e : Z) : Prop :=
  queue_sends_ x = false ∧ node_ok (id_of x) ∧ contexts_ x !! Z.max 0 (Meta.src_dev_id (Message.meta msg)) = Some c ∧
  SetGpuDeviceId use_cuda c = Ok () ∧ Find (Meta.recver (Message.meta msg)) (Meta.dst_dev_id (Message.meta msg)) (ep_pool_ c) = Some e.

Lemma submit_run (req : UCXTxReq) x c e tag :
  queue_sends_ x = false → contexts_ x !! Z.max 0 (req_src_dev_id req) = Some c → SetGpuDeviceId use_cuda c = Ok () →
  Find (rx_id req) (req_dst_dev_id req) (ep_pool_ c) = Some e → MakeTag (id_of x) (rtag req) (rkey_ req) = Ok tag →
  ∃ s, submit tag_send use_cuda req x = Ok (s, x <| tx ::= (λ l, l ++ [(src_dev_idx_ c, e, tag, payload req)]) |>) ∧ is_err s = false.
Proof using Hsend.
  intros Hq Hc Hg He Ht. unfold submit, ContextById. rewrite Hq, Hc. cbn [from_option_or]. rewrite (bind_eq _ (Ok _) _ eq_refl).
  unfold Send. fold (id_of x). rewrite (bind_eq _ _ _ Ht), He, (bind_eq _ _ _ Hg), Hsend. eexists. split; [reflexivity|]. apply Hsend.
Qed.

(** What is sent: the meta data, then the values or nothing *)
Definition wires (x : t) (msg : Message.t) (ws : list (Z * list byte)) : Prop :=
  let m := Message.meta msg in
  ∃ mb tag, wire_of m mb ∧ MakeTag (id_of x) UCX_TAG_META (Meta.key m) = Ok tag ∧
    if IsDataMsg msg then
      ∃ vs, Message.data msg !! 1%nat = Some vs ∧ Meta.val_len m = SArray.size vs ∧
        ((Meta.option_ m = Z.of_nat (length mb) ∧ ws = [(tag, mb ++ SArray.elems vs)]) ∨
         (Meta.option_ m = UCX_OPTION_DATA ∧ ∃ dtag, MakeTag (id_of x) UCX_TAG_DATA (Meta.key m) = Ok dtag ∧ ws = [(tag, mb); (dtag, SArray.elems vs)]))
    else Meta.option_ m = UCX_OPTION_META ∧ ws = [(tag, mb)].

(** ... over an endpoint of a device *)
Definition sent_over (dev e : Z) (ws : list (Z * list byte)) (x : t) : list (Z * Z * Z * list byte) :=
  tx x ++ map (λ w, (dev, e, w.1, w.2)) ws.

Lemma prefix_all (a : SArray.t byte) n : n = SArray.size a → prefix n a = Ok (SArray.elems a).
Proof.
  intros ->. unfold prefix. rewrite !(proj2 (Z.leb_le _ _)) by (unfold SArray.size; lia). cbn [andb].
  unfold SArray.size. by rewrite Nat2Z.id, firstn_all.
Qed.

Lemma new_char_fits m : meta_wf m → ∀ k, 0 ≤ k → GetPackMetaLen m ≤ Z.of_nat (length (new_char (GetPackMetaLen m + k))).
Proof using Hnew. intros Hwf k Hk. pose proof (GetPackMetaLen_range m Hwf). rewrite Hnew; lia. Qed.

Lemma SendMeta_run msg x c e :
  let m := Message.meta msg in
  route msg x c e → meta_wf m →
  (IsDataMsg msg = true → ∃ vs, Message.data msg !! 1%nat = Some vs ∧ Meta.val_len m = SArray.size vs) →
  ∃ mb tag msg' tail, MakeTag (id_of x) UCX_TAG_META (Meta.key m) = Ok tag ∧ wire_of (Message.meta msg') mb ∧
    (if bundled msg x then
       msg' = Message.mk (m <| Meta.option_ := GetPackMetaLen m |>) (Message.data msg) ∧ ∃ vs, Message.data msg !! 1%nat = Some vs ∧ tail = SArray.elems vs
     else msg' = msg ∧ tail = []) ∧
    SendMeta QP_NUM new_char tag_send use_cuda (Meta.src_dev_id m) msg x =
      Ok (i32 (GetPackMetaLen m + Z.of_nat (length tail)), msg', x <| tx ::= (λ l, l ++ [(src_dev_idx_ c, e, tag, mb ++ tail)]) |>).
Proof using Hqp Hnew Hsend.
  intros m (Hq & Hid & Hc & Hg & He) Hwf Hdata. destruct (MakeTag_bits (id_of x) UCX_TAG_META (Meta.key m) Hid) as (tag & Etag & _ & _).
  unfold SendMeta. destruct (bundled msg x) eqn:Eb.
  - assert (IsDataMsg msg = true) as Hd by (unfold bundled in Eb; by apply andb_true_iff in Eb as [Eb _]; apply andb_true_iff in Eb as [Eb _]).
    destruct (Hdata Hd) as (vs & Evs & Hlen). set (m1 := m <| Meta.option_ := GetPackMetaLen m |>).
    assert (meta_wf m1) as Hwf1.
    { pose proof (GetPackMetaLen_range m Hwf) as Hl. pose proof Hwf as (Hi & Hu & _). split_forall.
      change m1 with (m <| Meta.option_ := GetPackMetaLen m |>). set (len := GetPackMetaLen m) in *. clearbody len.
      replace (m <| Meta.option_ := len |>) with (with_header m (Meta.key m) (Meta.sid m) (Meta.val_len m) len) by (clear; by destruct m).
      apply with_header_wf; [exact Hwf|assumption..|word_lia]. }
    assert (Elen : GetPackMetaLen m1 = GetPackMetaLen m) by reflexivity.
    destruct (PackMeta_wire_of QP_NUM m1 (Some (new_char (Meta.option_ m1 + 32))) new_char Hwf1 Hqp) as (buf & mb & Ep & Ht & Hw).
    { exact (new_char_fits m Hwf 32 ltac:(lia)). }
    fold m. fold m1.
    exists mb, tag, (Message.mk m1 (Message.data msg)), (SArray.elems vs). split; [exact Etag|]. split; [exact Hw|].
    split; [exact (conj eq_refl (ex_intro _ vs (conj Evs eq_refl)))|]. rewrite Elen in Ep, Ht.
    destruct (submit_run (mkTxReq (mb ++ SArray.elems vs) UCX_TAG_META (Meta.src_dev_id m) (Meta.dst_dev_id m) (Meta.recver m) (Meta.key m)) x c e tag Hq Hc Hg He Etag) as (s & Es & Hs).
    assert (Ex : (y ← PackMeta false QP_NUM m1 (Some (new_char (Meta.option_ m1 + 32))) new_char; vs ← values msg; data ← prefix (Meta.val_len m1) vs;
       Ok (Message.mk m1 (Message.data msg), y.2, take (Z.to_nat y.2) y.1 ++ data, Meta.val_len m1))
       = Ok (Message.mk m1 (Message.data msg), GetPackMetaLen m, mb ++ SArray.elems vs, Meta.val_len m)).
    { rewrite (bind_eq _ _ _ Ep). unfold values. rewrite Evs. cbn [from_option_or]. rewrite (bind_eq _ (Ok _) _ eq_refl).
      rewrite (bind_eq _ _ _ (prefix_all vs (Meta.val_len m1) Hlen)). cbn [fst snd]. rewrite Ht. reflexivity. }
    rewrite (bind_eq _ _ _ Ex). cbn beta iota. rewrite (bind_eq _ _ _ Es). cbn beta iota. rewrite Hs, Hlen. reflexivity.
  - destruct (PackMeta_wire_of QP_NUM m None new_char Hwf Hqp) as (buf & mb & Ep & Ht & Hw); [exact (new_char_fits m Hwf 1 ltac:(lia))|].
    exists mb, tag, msg, []. split; [exact Etag|]. split; [exact Hw|]. split; [exact (conj eq_refl eq_refl)|].
    destruct (submit_run (mkTxReq mb UCX_TAG_META (Meta.src_dev_id m) (Meta.dst_dev_id m) (Meta.recver m) (Meta.key m)) x c e tag Hq Hc Hg He Etag) as (s & Es & Hs).
    fold m. assert (Ex : (y ← PackMeta false QP_NUM m None new_char; Ok (msg, y.2, take (Z.to_nat y.2) y.1, 0)) = Ok (msg, GetPackMetaLen m, mb, 0)).
    { rewrite (bind_eq _ _ _ Ep). cbn [fst snd]. rewrite Ht. reflexivity. }
    rewrite (bind_eq _ _ _ Ex). cbn beta iota. rewrite (bind_eq _ _ _ Es). cbn beta iota. rewrite Hs, app_nil_r. reflexivity.
Qed.

(** ** The fields the van sets *)
Definition is_request (msg : Message.t) : bool := Message.IsValidPushpull msg && Meta.request (Message.meta msg).
Definition sent_key (msg : Message.t) : Z :=
  if is_request msg then dec_u64 (from_option SArray.elems [] (Message.data msg !! 0%nat)) else Meta.key (Message.meta msg).
Definition next_sid (msg : Message.t) (x : t) : Z := default 0 (next_send_sids_ x !! Meta.recver (Message.meta msg)).
Definition sent_sid (msg : Message.t) (x : t) : Z := if is_request msg then next_sid msg x else Meta.sid (Message.meta msg).
Definition sent_len (msg : Message.t) : Z :=
  if IsDataMsg msg then from_option SArray.size 0 (Message.data msg !! 1%nat)
  else if Message.IsValidPushpull msg then Meta.val_len (Message.meta msg) else 0.
Definition sent_meta (msg : Message.t) (x : t) : Meta.t :=
  with_header (Message.meta msg) (sent_key msg) (sent_sid msg x) (sent_len msg) (if IsDataMsg msg then UCX_OPTION_DATA else UCX_OPTION_META).

(** A message the van can send: a request has one key, values are less than
    2 GB, and those not on a CPU are not empty; the buffer of a pull is known. *)
Record sendable (msg : Message.t) (x : t) : Prop := {
  sendable_wf : meta_wf (Message.meta msg);
  sendable_to : Meta.recver (Message.meta msg) ≠ kEmpty;
  sendable_request : is_request msg = true →
    (∃ ks, Message.data msg !! 0%nat = Some ks ∧ SArray.size ks = 8) ∧ 0 ≤ next_sid msg x < 2 ^ 31 - 1;
  sendable_values : IsDataMsg msg = true →
    ∃ vs, Message.data msg !! 1%nat = Some vs ∧ SArray.size vs < 2 ^ 31 ∧
      (Meta.src_dev_type (Message.meta msg) = DeviceType.CPU ∧ SArray.size vs ≤ short_send_thresh_ x ∨ 0 < SArray.size vs);
  sendable_pull : is_request msg = true → Meta.push (Message.meta msg) = false → Meta.addr (Message.meta msg) ≠ 0 ∧ is_Some (rx_pool_ x)
}.

Lemma sent_meta_wf msg x : sendable msg x → meta_wf (sent_meta msg x).
Proof.
  intros [Hwf _ Hreq Hval _]. pose proof Hwf as (Hi & Hu & _). split_forall. apply with_header_wf; [exact Hwf|..].
  - unfold sent_key. destruct (is_request msg); [apply uwrap_range; lia|assumption].
  - unfold sent_sid. destruct (is_request msg); [|assumption]. destruct (Hreq eq_refl) as [_ ?]. word_lia.
  - unfold sent_len. destruct (IsDataMsg msg).
    + destruct (Hval eq_refl) as (vs & -> & ? & _). simpl. unfold SArray.size in *. word_lia.
    + destruct (Message.IsValidPushpull msg); [assumption|word_lia].
  - destruct (IsDataMsg msg); [change UCX_OPTION_DATA with (-2)|change UCX_OPTION_META with (-1)]; word_lia.
Qed.

(** The van before the message is sent *)
Definition with_sids (x : t) (sids : gmap Z Z) (rp : option UCXRecvPool) : t := x <| next_send_sids_ := sids |> <| rx_pool_ := rp |>.

Lemma with_sids_same x : with_sids x (next_send_sids_ x) (rx_pool_ x) = x.
Proof. by destruct x. Qed.

Lemma prepare_run msg x :
  sendable msg x → ∃ sids rp, prepare msg x = Ok (Message.mk (sent_meta msg x) (Message.data msg), with_sids x sids rp).
Proof.
  intros [Hwf _ Hreq Hval Hpull]. unfold prepare. unfold sent_meta, sent_key, sent_sid, sent_len, is_request, next_sid in *.
  destruct (Message.IsValidPushpull msg) eqn:Ev.
  2:{ exists (next_send_sids_ x), (rx_pool_ x). rewrite with_sids_same. unfold IsDataMsg. rewrite Ev. cbn [andb]. reflexivity. }
  cbn [andb] in *. set (m := Message.meta msg) in *. change (Meta.request (m <| Meta.option_ := UCX_OPTION_META |>)) with (Meta.request m).
  destruct (Meta.request m) eqn:Er.
  - destruct (Hreq eq_refl) as ((ks & Eks & Hks) & Hsid). rewrite Eks. cbn [from_option_or].
    set (sid := default 0 _) in *.
    assert (Z.rem sid MAX_SID_COUNT = sid) as Erem by (change MAX_SID_COUNT with (- 2 ^ 31); rewrite Z.rem_opp_r by lia; apply Z.rem_small; lia).
    rewrite (bind_eq _ (Ok _) _ eq_refl). unfold DecodeKey. rewrite Hks, Z.eqb_refl. cbn iota. rewrite (bind_eq _ (Ok _) _ eq_refl). fold sid. rewrite Erem, (proj2 (Z.ltb_lt _ _)) by lia.
    rewrite (bind_eq _ (Ok _) _ eq_refl). cbn beta iota. destruct (IsDataMsg msg) eqn:Ed.
    + destruct (Hval eq_refl) as (vs & Evs & Hvs & _). unfold values. rewrite Evs. cbn [from_option_or from_option]. rewrite (bind_eq _ (Ok _) _ eq_refl).
      rewrite (swrap_small 32) by (unfold SArray.size in *; word_lia). eexists _, _. reflexivity.
    + unfold IsDataMsg in Ed. fold m in Ed. rewrite Ev, Er in Ed. destruct (Meta.push m) eqn:Epush; [done|]. destruct (Hpull eq_refl eq_refl) as [Ha [rp Hrp]].
      match goal with |- context [negb (Meta.push ?a) && Meta.request ?b] => change (Meta.push a) with (Meta.push m); change (Meta.request b) with (Meta.request m) end.
      rewrite Epush, Er. cbn [negb andb]. match goal with |- context [Meta.addr ?a =? 0] => change (Meta.addr a) with (Meta.addr m) end.
      rewrite (proj2 (Z.eqb_neq _ _) Ha). cbn [negb]. match goal with |- context [pool ?y] => change (pool y) with (pool x) end.
      unfold pool. rewrite Hrp. cbn [from_option_or]. rewrite (bind_eq _ (Ok _) _ eq_refl). eexists _, _. reflexivity.
  - exists (next_send_sids_ x), (rx_pool_ x). rewrite with_sids_same. rewrite (bind_eq _ (Ok _) _ eq_refl). cbn beta iota. destruct (IsDataMsg msg) eqn:Ed.
    + destruct (Hval eq_refl) as (vs & Evs & Hvs & _). unfold values. rewrite Evs. cbn [from_option_or from_option]. rewrite (bind_eq _ (Ok _) _ eq_refl).
      rewrite (swrap_small 32) by (unfold SArray.size in *; word_lia). reflexivity.
    + change (Meta.request (m <| Meta.option_ := UCX_OPTION_META |>)) with (Meta.request m). rewrite Er, andb_false_r. reflexivity.
Qed.

Lemma i32_differ n s : 0 ≤ n < 2 ^ 31 → 0 < s < 2 ^ 31 → i32 (n + s) ≠ n.
Proof.
  intros Hn Hs. destruct (decide (n + s < 2 ^ 31)).
  - rewrite swrap_small by word_lia. lia.
  - replace (n + s) with (n + s - 2 ^ 32 + 1 * 2 ^ 32) by lia. unfold swrap. change (2 ^ (32 - 1)) with (2 ^ 31).
    rewrite <-Z.add_assoc, (Z.add_comm (1 * 2 ^ 32)), Z.add_assoc, Z.mod_add, Z.mod_small by lia. lia.
Qed.

(** ** [SendMsg] *)
Definition new_option (msg : Message.t) (o : Z) : Message.t := Message.mk ((Message.meta msg) <| Meta.option_ := o |>) (Message.data msg).
(** What a send of the prepared message gives *)
Definition goes (msg : Message.t) (x : t) (c : UCXContext) (e : Z) (r : result (Z * Message.t * t)) : Prop :=
  ∃ n o x' ws, r = Ok (n, new_option msg o, x') ∧ wires x (new_option msg o) ws ∧ tx x' = sent_over (src_dev_idx_ c) e ws x.

Lemma new_option_same msg : new_option msg (Meta.option_ (Message.meta msg)) = msg.
Proof. by destruct msg as [[] ?]. Qed.

(** The values after the meta data *)
Lemma send_data_run msg x c e mb tag vs :
  let m := Message.meta msg in
  route msg x c e → wire_of m mb → MakeTag (id_of x) UCX_TAG_META (Meta.key m) = Ok tag → IsDataMsg msg = true → Meta.option_ m = UCX_OPTION_DATA →
  Message.data msg !! 1%nat = Some vs → Meta.val_len m = SArray.size vs →
  goes msg x c e (send_data tag_send use_cuda (Meta.src_dev_id m) (GetPackMetaLen m) msg (x <| tx ::= (λ l, l ++ [(src_dev_idx_ c, e, tag, mb)]) |>)).
Proof using Hsend.
  intros m (Hq & Hid & Hc & Hg & He) Hw Etag Hd Ho Evs Hvs. destruct (MakeTag_bits (id_of x) UCX_TAG_DATA (Meta.key m) Hid) as (dtag & Edtag & _ & _).
  unfold send_data. rewrite Hd. unfold values. rewrite Evs. cbn [from_option_or]. rewrite (bind_eq _ (Ok _) _ eq_refl). set (x2 := x <| tx ::= _ |>). fold m.
  destruct (submit_run (mkTxReq (SArray.elems vs) UCX_TAG_DATA (Meta.src_dev_id m) (Meta.dst_dev_id m) (Meta.recver m) (Meta.key m)) x2 c e dtag Hq Hc Hg He Edtag) as (s & Es & Hs).
  rewrite (bind_eq _ _ _ Es). cbn beta iota. rewrite Hs. eexists _, (Meta.option_ m), _, [(tag, mb); (dtag, SArray.elems vs)]. unfold m at 2 3. rewrite new_option_same.
  split; [reflexivity|]. split.
  2:{ unfold sent_over. cbn [map fst snd]. symmetry. apply (app_assoc (tx x) [_] [_]). }
  exists mb, tag. split; [exact Hw|]. split; [exact Etag|]. rewrite Hd. exists vs. split; [exact Evs|]. split; [exact Hvs|].
  right. split; [exact Ho|]. exists dtag. split; [exact Edtag|reflexivity].
Qed.

(** The values with the meta data *)
Lemma send_bundled_run msg x c e mb tag vs x' :
  let m := Message.meta msg in let msg' := new_option msg (GetPackMetaLen m) in
  meta_wf m → wire_of (Message.meta msg') mb → MakeTag (id_of x) UCX_TAG_META (Meta.key m) = Ok tag → IsDataMsg msg = true →
  Message.data msg !! 1%nat = Some vs → Meta.val_len m = SArray.size vs →
  SendMeta QP_NUM new_char tag_send use_cuda (Meta.src_dev_id m) msg x = Ok (i32 (GetPackMetaLen m + Z.of_nat (length (SArray.elems vs))), msg', x') →
  tx x' = sent_over (src_dev_idx_ c) e [(tag, mb ++ SArray.elems vs)] x →
  goes msg x c e (send_prepared QP_NUM new_char tag_send use_cuda (Meta.src_dev_id m) msg x).
Proof.
  intros m msg' Hwf Hw Etag Hd Evs Hvs Esend Htx. pose proof (GetPackMetaLen_range _ Hwf) as Hl. unfold send_prepared. rewrite (bind_eq _ _ _ Esend). cbn beta iota.
  change (Meta.option_ (Message.meta msg')) with (GetPackMetaLen m). change (Meta.val_len (Message.meta msg')) with (Meta.val_len m).
  change (GetPackMetaLen (Message.meta msg')) with (GetPackMetaLen m). rewrite Hvs. change (Z.of_nat (length (SArray.elems vs))) with (SArray.size vs).
  assert (Eo : (GetPackMetaLen m =? UCX_OPTION_META) = false) by (apply Z.eqb_neq; change UCX_OPTION_META with (-1); set (len := GetPackMetaLen m) in *; clearbody len; lia).
  rewrite Eo, Z.eqb_refl. eexists _, (GetPackMetaLen m), _, _. split; [reflexivity|]. split; [|exact Htx].
  exists mb, tag. split; [exact Hw|]. split; [exact Etag|]. change (IsDataMsg _) with (IsDataMsg msg). rewrite Hd.
  exists vs. split; [exact Evs|]. split; [exact Hvs|]. left. split; [|reflexivity]. destruct Hw as (Hwl & _). rewrite Hwl. reflexivity.
Qed.

Lemma send_prepared_run msg x c e :
  let m := Message.meta msg in
  route msg x c e → meta_wf m → Meta.option_ m = (if IsDataMsg msg then UCX_OPTION_DATA else UCX_OPTION_META) →
  (IsDataMsg msg = true → ∃ vs, Message.data msg !! 1%nat = Some vs ∧ Meta.val_len m = SArray.size vs ∧ SArray.size vs < 2 ^ 31 ∧
     (bundled msg x = true ∨ 0 < SArray.size vs)) →
  goes msg x c e (send_prepared QP_NUM new_char tag_send use_cuda (Meta.src_dev_id m) msg x).
Proof using Hqp Hnew Hsend.
  intros m Hr Hwf Ho Hdata. pose proof (GetPackMetaLen_range _ Hwf) as Hl.
  destruct (SendMeta_run msg x c e Hr Hwf) as (mb & tag & msg2 & tail & Etag & Hw & Hshape & Esend).
  { intros Hd. destruct (Hdata Hd) as (vs & Evs & Hvs & _). exists vs. split; assumption. }
  destruct (bundled msg x) eqn:Eb.
  - destruct Hshape as (-> & vs & Evs & ->).
    assert (Hd : IsDataMsg msg = true) by (unfold bundled in Eb; apply andb_true_iff in Eb as [Eb _]; by apply andb_true_iff in Eb as [Eb _]).
    destruct (Hdata Hd) as (vs' & Evs' & Hvs & _). rewrite Evs in Evs'. injection Evs' as <-.
    exact (send_bundled_run msg x c e mb tag vs _ Hwf Hw Etag Hd Evs Hvs Esend eq_refl).
  - destruct Hshape as (-> & ->). cbn [length Z.of_nat] in Esend.
    rewrite app_nil_r, Z.add_0_r, (swrap_small 32) in Esend by (set (len := GetPackMetaLen _) in *; clearbody len; word_lia).
    unfold send_prepared. rewrite (bind_eq _ _ _ Esend). cbn beta iota. fold m in Ho |- *. destruct (IsDataMsg msg) eqn:Hd.
    + destruct (Hdata eq_refl) as (vs & Evs & Hvs & Hsz & [?|Hpos]); [discriminate|]. rewrite Ho. change (UCX_OPTION_DATA =? UCX_OPTION_META) with false. cbn iota.
      assert (El : (GetPackMetaLen m =? i32 (GetPackMetaLen m + Meta.val_len m)) = false).
      { apply Z.eqb_neq. rewrite Hvs. set (len := GetPackMetaLen m) in *. clearbody len. intros E. symmetry in E. exact (i32_differ len (SArray.size vs) Hl (conj Hpos Hsz) E). }
      rewrite El. exact (send_data_run msg x c e mb tag vs Hr Hw Etag Hd Ho Evs Hvs).
    + rewrite Ho, Z.eqb_refl. eexists _, (Meta.option_ m), _, [(tag, mb)]. unfold m. rewrite new_option_same. split; [reflexivity|]. split; [|reflexivity].
      exists mb, tag. split; [exact Hw|]. split; [exact Etag|]. rewrite Hd. split; [exact Ho|reflexivity].
Qed.

Definition prepared (msg : Message.t) (x : t) : Message.t := Message.mk (sent_meta msg x) (Message.data msg).

Lemma SendMsg_run msg x c e :
  sendable msg x → route msg x c e → goes (prepared msg x) x c e (SendMsg QP_NUM new_char tag_send use_cuda msg x).
Proof using Hqp Hnew Hsend.
  intros Hs Hr. destruct (prepare_run msg x Hs) as (sids & rp & Eprep). set (x1 := with_sids x sids rp) in *.
  unfold SendMsg. rewrite (proj2 (Z.eqb_neq _ _) (sendable_to _ _ Hs)). cbn [negb]. rewrite (bind_eq _ _ _ Eprep). cbn beta iota.
  refine (send_prepared_run (prepared msg x) x1 c e Hr (sent_meta_wf msg x Hs) eq_refl _).
  intros Hd. destruct (sendable_values _ _ Hs Hd) as (vs & Evs & Hsz & Hnb). exists vs. split; [exact Evs|]. change (IsDataMsg msg = true) in Hd.
  assert (Hvs : Meta.val_len (Message.meta (prepared msg x)) = SArray.size vs).
  { change (Meta.val_len _) with (sent_len msg). unfold sent_len. rewrite Hd, Evs. reflexivity. }
  split; [exact Hvs|]. split; [exact Hsz|]. destruct Hnb as [[Hcpu Hth]|?]; [left|right; assumption].
  unfold bundled. change (IsDataMsg (prepared msg x)) with (IsDataMsg msg). rewrite Hd, Hvs. apply andb_true_iff. split; [|exact (proj2 (Z.leb_le _ _) Hth)].
  exact (bool_decide_eq_true_2 _ Hcpu).
Qed.
End send.

(** ** Receiving *)
Section receive.
Context {platform : Platform}.
Context (malloc : list (Z * Z) → Z → Z) (use_cuda : bool).

(** The library matches values with the first receive for their tag; meta data
    are probed. *)
Definition arrive (c : UCXContext) (w : Z * list byte) (y : t) : result t :=
  if Z.testbit w.1 63 then
    i ← from_option_or (Blocked "no receive for the tag") (fst <$> list_find (λ r, ptag r = w.1) (posted y));
    complete_data i UCS_OK w.2 y
  else PollRx malloc use_cuda c [mkProbed w.1 w.2 (Some UCS_OK) None] y.
Fixpoint arrive_all (c : UCXContext) (ws : list (Z * list byte)) (y : t) : result t :=
  match ws with [] => Ok y | w :: ws => y ← arrive c w y; arrive_all c ws y end.

(** A receiver that is up, with the pool [p] and nothing under way *)
Record idle (c : UCXContext) (y : t) (p : UCXRecvPool) : Prop := {
  idle_pool : rx_pool_ y = Some p;
  idle_ctx : ctx_rx_pool_ c = pool_id y;
  idle_gpu : SetGpuDeviceId use_cuda c = Ok ();
  idle_running : should_stop_ y = false;
  idle_order : force_request_order_ y = false;
  idle_recv : recv_buffers_ p = [];
  idle_ordered : ordered_recv_buffers_ p = [];
  idle_posted : posted y = []
}.

(** It has room for values: for a push, no buffer yet and memory for one,
    or a buffer that is large enough; for the answer to a pull, the buffer of the pull. *)
Definition room (sender : Z) (m : Meta.t) (p : UCXRecvPool) : Prop :=
  if Meta.push m then match pool_entry (Meta.key m) sender p with Some a => Meta.val_len m ≤ alength a
    | None => ∀ bl, memalign bl (Meta.val_len m) = true end
  else is_Some (w_pool_ p !! Meta.key m).

Lemma room_run sender m p h :
  room sender m p → 0 ≤ Meta.val_len m < 2 ^ 31 →
  ∃ buf p' h', GetRxBuffer malloc (Meta.key m) sender (u64 (Meta.val_len m)) (Meta.push m) p h = Ok (buf, p', h') ∧
    recv_buffers_ p' = recv_buffers_ p ∧ ordered_recv_buffers_ p' = ordered_recv_buffers_ p.
Proof.
  intros Hr Hlen. unfold room, GetRxBuffer in *. rewrite uwrap_small by word_lia. destruct (Meta.push m); cbn [negb].
  - destruct (pool_entry (Meta.key m) sender p) as [a|].
    + rewrite (proj2 (Z.leb_le _ _) Hr). eexists _, _, _. split; [reflexivity|]. split; reflexivity.
    + unfold new_buffer. rewrite Hr. eexists _, _, _. split; [reflexivity|]. split; reflexivity.
  - destruct Hr as [a Ha]. rewrite Ha. cbn [from_option_or]. rewrite (bind_eq _ (Ok _) _ eq_refl). eexists _, _, _. split; [reflexivity|]. split; reflexivity.
Qed.

Lemma wire_header m mb rest : wire_of m mb → raw_header (mb ++ rest) = Ok (Codec.raw_meta false m).
Proof.
  intros (_ & Hsz & Hh & _). unfold raw_header. rewrite (proj2 (Nat.leb_le _ _)) by (rewrite length_app; lia). rewrite Hh. reflexivity.
Qed.

(** A message that has come in: the only one in the pool, with its values *)
Record came_in (y0 y : t) (b : UCXBuffer) : Prop := {
  in_pool : ∃ p, rx_pool_ y = Some p ∧ recv_buffers_ p = [b] ∧ ordered_recv_buffers_ p = [];
  in_running : should_stop_ y = false;
  in_order : force_request_order_ y = false;
  in_node : my_node_ y = my_node_ y0
}.

Lemma PollRx_one c tag bytes y :
  SetGpuDeviceId use_cuda c = Ok () →
  PollRx malloc use_cuda c [mkProbed tag bytes (Some UCS_OK) None] y =
  PostRecvData malloc (mkUCXRequest (ctx_rx_pool_ c) true (mkUCXBuffer (Some bytes) None (NodeIdFromTag tag) false)) None y.
Proof.
  intros Hg. unfold PollRx. rewrite (bind_eq _ _ _ Hg). cbn [probe_loop]. unfold PostRecvMeta. cbn [at_once]. unfold RxMetaCompletedCb, callback_status.
  rewrite !(bind_eq _ (Ok _) _ eq_refl). cbn beta iota. cbn [raw_meta rdata RequestInit contents sender_tag completed values_at_once].
  rewrite !(bind_eq _ (Ok _) _ eq_refl). cbn beta iota. cbn [completed]. by destruct (PostRecvData _ _ _ _).
Qed.

(** The first step on the meta data of a message, by its option *)
Section post.
Context (c : UCXContext) (y : t) (p : UCXRecvPool) (Hy : idle c y p) (m : Meta.t) (mb rest : list byte) (Hw : wire_of m mb) (sender : Z).

Definition arrived (bo : option Z) : UCXBuffer := mkUCXBuffer (Some (mb ++ rest)) bo sender false.
Definition post : result t := PostRecvData malloc (mkUCXRequest (ctx_rx_pool_ c) true (arrived None)) None y.

Lemma pool_here v : rx_pool_ v = Some p → pool_id v = pool_id y → pool_at (ctx_rx_pool_ c) v = Ok p.
Proof using Hy. intros Hp Hid. unfold pool_at, pool. rewrite (idle_ctx _ _ _ Hy), Hid, Nat.eqb_refl, Hp. reflexivity. Qed.

Lemma push_here b v p' : rx_pool_ v = Some p' → pool_id v = pool_id y → push (ctx_rx_pool_ c) b v = Ok (set_pool (Push b p') v).
Proof using Hy. intros Hp Hid. unfold push, pool_at, pool. rewrite (idle_ctx _ _ _ Hy), Hid, Nat.eqb_refl, Hp. reflexivity. Qed.

Lemma came_in_push b v p' :
  recv_buffers_ p' = [] → ordered_recv_buffers_ p' = [] → should_stop_ v = should_stop_ y → force_request_order_ v = force_request_order_ y →
  my_node_ v = my_node_ y → came_in y (set_pool (Push b p') v) b.
Proof using Hy.
  intros Hr Ho Hs Hf Hm. destruct Hy. constructor; [|exact (eq_trans Hs idle_running0)|exact (eq_trans Hf idle_order0)|exact Hm].
  exists (Push b p'). split; [reflexivity|]. split; [|exact Ho]. change (recv_buffers_ p' ++ [b] = [b]). rewrite Hr. reflexivity.
Qed.

Lemma post_meta : Meta.option_ m = UCX_OPTION_META → ∃ y1, post = Ok y1 ∧ came_in y y1 (arrived None).
Proof using Hy Hw.
  intros Ho. unfold post, PostRecvData. cbn [rdata raw_meta arrived from_option_or]. rewrite (bind_eq _ (Ok _) _ eq_refl), (bind_eq _ _ _ (wire_header m mb rest Hw)).
  change (RawMeta.option_ (Codec.raw_meta false m)) with (Meta.option_ m). rewrite Ho, Z.eqb_refl. cbn [buffer]. rewrite bool_decide_eq_true_2 by reflexivity.
  cbn [req_rx_pool]. rewrite (push_here _ y p (idle_pool _ _ _ Hy) eq_refl). eexists. split; [reflexivity|].
  apply came_in_push; [apply Hy|apply Hy|reflexivity..].
Qed.

Lemma post_bundled vals :
  Meta.option_ m = Z.of_nat (length mb) → rest = vals → Meta.val_len m = Z.of_nat (length vals) → Meta.val_len m < 2 ^ 31 → room sender m p →
  ∃ y1 a, post = Ok y1 ∧ came_in y y1 (arrived (Some a)) ∧ read_bytes (mem (host_ y1)) a (length vals) = vals.
Proof using Hy Hw.
  intros Ho Hrest Hlen Hb Hroom. destruct (room_run sender m p (host_ y) Hroom ltac:(lia)) as (buf & p' & h' & Eg & Hr & Hor).
  assert (0 < Meta.option_ m) by (rewrite Ho; destruct Hw as (_ & Hsz & _); rewrite sizeof_RawMeta_eq in Hsz; lia).
  unfold post, PostRecvData. cbn [rdata raw_meta arrived from_option_or]. rewrite (bind_eq _ (Ok _) _ eq_refl), (bind_eq _ _ _ (wire_header m mb rest Hw)).
  change (RawMeta.option_ (Codec.raw_meta false m)) with (Meta.option_ m). change (RawMeta.key (Codec.raw_meta false m)) with (Meta.key m).
  change (RawMeta.val_len (Codec.raw_meta false m)) with (Meta.val_len m). change (RawMeta.push (Codec.raw_meta false m)) with (Meta.push m).
  rewrite (proj2 (Z.eqb_neq _ _)) by (change UCX_OPTION_META with (-1); lia). rewrite (proj2 (Z.ltb_lt _ _)) by assumption. cbn [req_rx_pool bsender should_stop].
  rewrite (bind_eq _ _ _ (pool_here y (idle_pool _ _ _ Hy) eq_refl)), (bind_eq _ _ _ Eg). cbn beta iota.
  rewrite Ho, Nat2Z.id, drop_app_length, Hrest, (proj2 (Z.leb_le 0 _)), (proj2 (Z.leb_le (Meta.val_len m) _)) by lia. cbn [andb].
  rewrite <-Hrest. rewrite (push_here _ _ p') by reflexivity. eexists _, buf. split; [reflexivity|]. split.
  - apply came_in_push; [by rewrite Hr; apply Hy|by rewrite Hor; apply Hy|reflexivity..].
  - change (mem (host_ _)) with (write_bytes buf (take (Z.to_nat (Meta.val_len m)) rest) (mem h')). rewrite Hlen, Nat2Z.id, Hrest, firstn_all. apply read_write.
Qed.

(** The receive for the values, and its completion *)
Lemma post_values vals dtag :
  Meta.option_ m = UCX_OPTION_DATA → Meta.val_len m = Z.of_nat (length vals) → Meta.val_len m < 2 ^ 31 → room sender m p →
  MakeTag sender UCX_TAG_DATA (Meta.key m) = Ok dtag →
  ∃ y1 y2 a, post = Ok y1 ∧ list_find (λ r, ptag r = dtag) (posted y1) = Some (0%nat, mkPosted dtag a (Meta.val_len m) (mkUCXRequest (ctx_rx_pool_ c) false (arrived (Some a)))) ∧
    complete_data 0 UCS_OK vals y1 = Ok y2 ∧ came_in y y2 (arrived (Some a)) ∧ read_bytes (mem (host_ y2)) a (length vals) = vals.
Proof using Hy Hw.
  intros Ho Hlen Hb Hroom Etag. destruct (room_run sender m p (host_ y) Hroom ltac:(lia)) as (buf & p' & h' & Eg & Hr & Hor).
  unfold post, PostRecvData. cbn [rdata raw_meta arrived from_option_or]. rewrite (bind_eq _ (Ok _) _ eq_refl), (bind_eq _ _ _ (wire_header m mb rest Hw)).
  change (RawMeta.option_ (Codec.raw_meta false m)) with (Meta.option_ m). change (RawMeta.key (Codec.raw_meta false m)) with (Meta.key m).
  change (RawMeta.val_len (Codec.raw_meta false m)) with (Meta.val_len m). change (RawMeta.push (Codec.raw_meta false m)) with (Meta.push m).
  rewrite Ho. change (UCX_OPTION_DATA =? UCX_OPTION_META) with false. change (0 <? UCX_OPTION_DATA) with false. rewrite Z.eqb_refl. cbn iota. cbn [req_rx_pool bsender].
  rewrite (bind_eq _ _ _ (pool_here y (idle_pool _ _ _ Hy) eq_refl)), (bind_eq _ _ _ Eg). cbn beta iota. rewrite (bind_eq _ _ _ Etag).
  rewrite (uwrap_small 64) by word_lia. fold (arrived (Some buf)). set (r := mkPosted _ _ _ _). set (y1 := _ <| posted ::= _ |>).
  assert (Hposted : posted y1 = [r]) by (change (posted y1) with (posted y ++ [r]); rewrite (idle_posted _ _ _ Hy); reflexivity).
  eexists y1, _, buf. split; [reflexivity|]. split; [rewrite Hposted; cbn; rewrite decide_True by reflexivity; reflexivity|].
  unfold complete_data. rewrite Hposted. cbn [lookup list_lookup from_option_or]. rewrite (bind_eq _ (Ok _) _ eq_refl).
  unfold RxDataCompletedCb, callback_status. rewrite (bind_eq _ (Ok _) _ eq_refl). cbn [preq rdata buffer arrived r req_rx_pool].
  rewrite (push_here _ _ p') by reflexivity. split; [reflexivity|]. split.
  - apply came_in_push; [by rewrite Hr; apply Hy|by rewrite Hor; apply Hy|reflexivity..].
  - change (mem (host_ _)) with (write_bytes buf (take (Z.to_nat (Meta.val_len m)) vals) (mem h')). rewrite Hlen, Nat2Z.id, firstn_all. apply read_write.
Qed.
End post.

(** What comes in for the message *)
Definition holds (msg : Message.t) (x y y1 : t) (b : UCXBuffer) : Prop :=
  came_in y y1 b ∧ should_stop b = false ∧ bsender b = id_of x ∧ (IsDataMsg msg = false → Meta.option_ (Message.meta msg) = UCX_OPTION_META) ∧
  (∃ mb rest, raw_meta b = Some (mb ++ rest) ∧ wire_of (Message.meta msg) mb) ∧
  (IsDataMsg msg = true → ∃ a vs, buffer b = Some a ∧ Message.data msg !! 1%nat = Some vs ∧ Meta.val_len (Message.meta msg) = SArray.size vs ∧
     read_bytes (mem (host_ y1)) a (length (SArray.elems vs)) = SArray.elems vs).

Lemma arrives c x y p msg ws :
  node_ok (id_of x) → idle c y p → wires x msg ws → Meta.val_len (Message.meta msg) < 2 ^ 31 → (IsDataMsg msg = true → room (id_of x) (Message.meta msg) p) →
  ∃ y1 b, arrive_all c ws y = Ok y1 ∧ holds msg x y y1 b.
Proof.
  intros Hx Hy (mb & tag & Hw & Etag & Hshape) Hlt Hroom. pose proof (idle_gpu _ _ _ Hy) as Hg.
  assert (Hfirst : ∀ rest ws', arrive_all c ((tag, mb ++ rest) :: ws') y = (y ← post c y mb rest (id_of x); arrive_all c ws' y)).
  { intros rest ws'. cbn [arrive_all]. unfold arrive. cbn [fst snd]. rewrite (tag_kind _ _ _ _ Hx Etag), (PollRx_one c tag _ y Hg), (tag_sender _ _ _ _ Hx Etag). unfold post, arrived. exact eq_refl. }
  assert (Hopt : IsDataMsg msg = false → Meta.option_ (Message.meta msg) = UCX_OPTION_META) by (intros Hd; rewrite Hd in Hshape; exact (proj1 Hshape)).
  assert (Hmore : ∀ rest bo y1, came_in y y1 (arrived mb rest (id_of x) bo) →
    (IsDataMsg msg = true → ∃ a vs, bo = Some a ∧ Message.data msg !! 1%nat = Some vs ∧ Meta.val_len (Message.meta msg) = SArray.size vs ∧
      read_bytes (mem (host_ y1)) a (length (SArray.elems vs)) = SArray.elems vs) → holds msg x y y1 (arrived mb rest (id_of x) bo)).
  { intros rest bo y1 Hin Hd. split; [exact Hin|]. split; [reflexivity|]. split; [reflexivity|]. split; [exact Hopt|]. split; [|exact Hd]. exists mb, rest. split; [reflexivity|exact Hw]. }
  destruct (IsDataMsg msg) eqn:Hd.
  - destruct Hshape as (vs & Evs & Hvs & [[Ho ->]|(Ho & dtag & Edtag & ->)]).
    + destruct (post_bundled c y p Hy (Message.meta msg) mb (SArray.elems vs) Hw (id_of x) _ Ho eq_refl Hvs Hlt (Hroom eq_refl)) as (y1 & a & E & Hin & Hread).
      exists y1, (arrived mb (SArray.elems vs) (id_of x) (Some a)). rewrite Hfirst, (bind_eq _ _ _ E). split; [reflexivity|]. apply Hmore; [exact Hin|].
      intros _. exists a, vs. split; [reflexivity|]. exact (conj Evs (conj Hvs Hread)).
    + destruct (post_values c y p Hy (Message.meta msg) mb [] Hw (id_of x) (SArray.elems vs) dtag Ho Hvs Hlt (Hroom eq_refl) Edtag) as (y1 & y2 & a & E & Hf & Ec & Hin & Hread).
      exists y2, (arrived mb [] (id_of x) (Some a)). rewrite <-(app_nil_r mb) at 1. rewrite Hfirst, (bind_eq _ _ _ E). cbn [arrive_all]. unfold arrive. cbn [fst snd].
      rewrite (tag_kind _ _ _ _ Hx Edtag), Hf. cbn [fmap option_fmap option_map fst from_option_or]. rewrite (bind_eq _ (Ok _) _ eq_refl), (bind_eq _ _ _ Ec).
      split; [reflexivity|]. apply Hmore; [exact Hin|]. intros _. exists a, vs. split; [reflexivity|]. exact (conj Evs (conj Hvs Hread)).
  - destruct Hshape as (Ho & ->). destruct (post_meta c y p Hy (Message.meta msg) mb [] Hw (id_of x) Ho) as (y1 & E & Hin).
    exists y1, (arrived mb [] (id_of x) None). rewrite <-(app_nil_r mb) at 1. rewrite Hfirst, (bind_eq _ _ _ E). split; [reflexivity|]. apply Hmore; [exact Hin|]. discriminate.
Qed.

(** What [RecvMsg] makes of a message: its meta data and its arrays *)
Definition received_meta (m m0 : Meta.t) (sender recver : Z) : Meta.t := (transmitted false m m0) <| Meta.sender := sender |> <| Meta.recver := recver |>.
Definition received_data (msg : Message.t) : list (list byte) :=
  let m := Message.meta msg in
  if IsDataMsg msg then [enc_u64 (Meta.key m); from_option SArray.elems [] (Message.data msg !! 1%nat); enc_int (Meta.val_len m)]
  else if is_request msg then [enc_u64 (Meta.key m); []] else [].

Lemma reorder_passes y y1 b mb rest m :
  came_in y y1 b → should_stop b = false → raw_meta b = Some (mb ++ rest) → wire_of m mb →
  ∃ y2 p, ReorderMsg 1 y1 = Ok (Some y2) ∧ rx_pool_ y2 = Some p ∧ ordered_recv_buffers_ p = [b] ∧ my_node_ y2 = my_node_ y ∧ host_ y2 = host_ y1.
Proof.
  intros [(p & Hp & Hr & Ho) Hrun Hord Hn] Hstop Hraw Hw. cbn [ReorderMsg]. unfold reorder_round. rewrite Hrun. unfold pool. rewrite Hp. cbn [from_option_or].
  rewrite (bind_eq _ (Ok _) _ eq_refl). unfold Pop. rewrite Hr. rewrite (bind_eq _ (Ok _) _ eq_refl). cbn beta iota. rewrite Hstop, Hraw. cbn [from_option_or].
  rewrite (bind_eq _ (Ok _) _ eq_refl), (bind_eq _ _ _ (wire_header m mb rest Hw)), Hord, orb_true_r. rewrite (bind_eq _ (Ok _) _ eq_refl).
  eexists _, _. split; [reflexivity|]. split; [reflexivity|]. split; [|split; [exact Hn|reflexivity]].
  change (ordered_recv_buffers_ p ++ [b] = [b]). rewrite Ho. reflexivity.
Qed.

Lemma recv_run copy msg x y y1 b m0 :
  holds msg x y y1 b → Control.node (Meta.control m0) = [] → Meta.shape m0 = [] →
  ∃ y2 y3 n got, ReorderMsg 1 y1 = Ok (Some y2) ∧ RecvMsg copy m0 y2 = Ok (n, got, y3) ∧
    Message.meta got = received_meta (Message.meta msg) m0 (id_of x) (id_of y) ∧ map SArray.elems (Message.data got) = received_data msg.
Proof.
  intros (Hin & Hstop & Hs & Hopt & (mb & rest & Hraw & Hw) & Hd) Hn0 Hs0.
  destruct (reorder_passes y y1 b mb rest _ Hin Hstop Hraw Hw) as (y2 & p & E & Hp & Ho & Hn & Hh). exists y2.
  unfold RecvMsg, pool. rewrite Hp. cbn [from_option_or]. rewrite (bind_eq _ (Ok _) _ eq_refl). unfold PopOrdered. rewrite Ho. rewrite (bind_eq _ (Ok _) _ eq_refl). cbn beta iota.
  rewrite Hraw. cbn [from_option_or]. rewrite (bind_eq _ (Ok _) _ eq_refl). destruct Hw as (_ & _ & _ & Hu). rewrite (bind_eq _ _ _ (Hu m0 rest Hn0 Hs0)).
  set (v := set_pool _ y2). change (my_node_ v) with (my_node_ y2). rewrite Hs, Hn. fold (id_of y). set (len := GetPackMetaLen _). clearbody len.
  set (m := Message.meta msg) in *. fold (received_meta m m0 (id_of x) (id_of y)). set (m' := received_meta _ _ _ _).
  change (Message.IsValidPushpull (Message.mk m' [])) with (Message.IsValidPushpull msg). change (Meta.push m') with (Meta.push m). change (Meta.request m') with (Meta.request m).
  change (Meta.option_ m') with (Meta.option_ m). change (Meta.val_len m') with (Meta.val_len m). change (Meta.key m') with (Meta.key m).
  unfold received_data, is_request. fold m. destruct (IsDataMsg msg) eqn:Ed.
  - destruct (Hd eq_refl) as (a & vs & Hb & Evs & Hvs & Hread). unfold IsDataMsg in Ed. fold m in Ed. apply andb_true_iff in Ed as [Ev Epr]. rewrite Ev, Hb, Evs. cbn [negb orb].
    assert (Meta.push m && negb (Meta.request m) = false) as -> by (by destruct (Meta.push m), (Meta.request m)).
    assert (negb (Meta.push m) && Meta.request m = false) as -> by (by destruct (Meta.push m), (Meta.request m)).
    rewrite bool_decide_eq_true_2 by (eexists; reflexivity). rewrite (proj2 (Z.leb_le 0 _)) by (rewrite Hvs; unfold SArray.size; lia). cbn [andb orb default from_option].
    eexists _, _, _. split; [exact E|]. split; [reflexivity|]. split; [reflexivity|]. cbn [map Message.data SArray.elems]. do 2 f_equal.
    change (host_ v) with (host_ y2). rewrite Hh, Hvs. unfold SArray.size. rewrite Nat2Z.id. exact Hread.
  - specialize (Hopt eq_refl). unfold IsDataMsg in Ed. fold m in Ed. rewrite Hopt, Z.eqb_refl.
    destruct (Message.IsValidPushpull msg); cbn [negb orb andb] in *; [|eexists _, _, _; split; [exact E|]; split; [reflexivity|]; split; reflexivity].
    destruct (Meta.push m), (Meta.request m); try discriminate Ed; cbn [negb andb]; eexists _, _, _; (split; [exact E|]; split; [reflexivity|]; split; reflexivity).
Qed.
End receive.

(** ** From the sender to the receiver *)

(** The arrays of a message as they are sent: one key, the values and their
    length *)
Definition key_bytes (msg : Message.t) : list byte :=
  if is_request msg then from_option SArray.elems [] (Message.data msg !! 0%nat) else enc_u64 (Meta.key (Message.meta msg)).
Definition delivered_data (msg : Message.t) : list (list byte) :=
  if IsDataMsg msg then
    let vals := from_option SArray.elems [] (Message.data msg !! 1%nat) in [key_bytes msg; vals; enc_int (Z.of_nat (length vals))]
  else if is_request msg then [key_bytes msg; []] else [].

Lemma enc_dec_u64 bs : length bs = 8%nat → enc_u64 (dec_u64 bs) = bs.
Proof.
  intros H. unfold enc_u64, dec_u64. pose proof (le_combine_bound bs) as Hb. rewrite H in Hb. rewrite uwrap_small by exact Hb.
  rewrite <-H. apply split_le_combine.
Qed.

Lemma received_prepared msg x o : sendable msg x → received_data (new_option (prepared msg x) o) = delivered_data msg.
Proof.
  intros Hs. unfold received_data, delivered_data. change (IsDataMsg (new_option _ _)) with (IsDataMsg msg). change (is_request (new_option _ _)) with (is_request msg).
  change (Message.data (new_option _ _)) with (Message.data msg). change (Meta.key _) with (sent_key msg). change (Meta.val_len _) with (sent_len msg).
  assert (enc_u64 (sent_key msg) = key_bytes msg) as ->.
  { unfold sent_key, key_bytes. destruct (is_request msg) eqn:Er; [|reflexivity]. destruct (sendable_request _ _ Hs Er) as ((ks & -> & Hks) & _).
    apply enc_dec_u64. unfold SArray.size in Hks. simpl. lia. }
  destruct (IsDataMsg msg) eqn:Hd; [|reflexivity]. destruct (sendable_values _ _ Hs Hd) as (vs & Evs & _). unfold sent_len. rewrite Hd, Evs. reflexivity.
Qed.


(** ** A worker and a server *)
Definition demo_eps : UCXEndpointsPool :=
  match (p ← Create (λ _, true) (λ _, true) (λ _ port, Some port) (demo_peer [0; 1]) new_ep_pool; replies (map (EpId 8) [1; 0]) p) with
  | Ok p => p
  | Err _ => new_ep_pool
  end.
Definition demo_context : UCXContext := mkUCXContext 1 0 DeviceType.CPU demo_eps None.
Definition demo_van (id : Z) : t :=
  mk (demo_node <| Node.id := id |>) 4 false false false {[0 := demo_context]} (Some new_recv_pool) 1 ∅ ∅ ∅ [] (mkHost (λ _, x00) [] []) [] [] [] false [].
Definition demo_push : Message.t :=
  Message.mk (Meta.default <| Meta.recver := 8 |> <| Meta.push := true |> <| Meta.request := true |>)
    (map (λ bs, SArray.mk 64 bs DeviceType.CPU 0 DeviceType.CPU 0) [enc_u64 5; bytes_of "values"; enc_int 6]).

Lemma demo_sendable : sendable demo_push (demo_van 9).
Proof.
  constructor.
  - apply (bool_decide_unpack _). vm_compute. exact I.
  - vm_compute. discriminate.
  - intros _. split; [|vm_compute; split; congruence]. eexists. split; reflexivity.
  - intros _. eexists. split; [reflexivity|]. split; [vm_compute; reflexivity|]. right. vm_compute. reflexivity.
  - intros _ H. discriminate H.
Qed.

#[local] Instance demo_platform : Platform := {| asserts := false; memalign := λ _ n, n <=? 2 ^ 20 |}.

