(* ===== verification/UcxBuffers.v ===== *)
(** * The receive buffers of the UCX van are given back

    Whatever buffers are asked for and registered, the receive pool gives every
    block it has made back exactly once, and no other block. *)

From S2P Require Import Prelude Message Env Codec Postoffice RdmaMemory UcxPool UcxTags UcxVan.

(** ** Blocks *)
Lemma free_block_run a n bl :
  NoDup (map fst bl) → (a, n) ∈ bl → ∃ bl', free_block a bl = Some bl' ∧ bl ≡ₚ (a, n) :: bl'.
Proof.
  induction bl as [|[x k] bl IH]; intros Hnd Hin; [by apply elem_of_nil in Hin|]. simpl in Hnd. apply NoDup_cons in Hnd as [Hx Hnd]. simpl.
  apply elem_of_cons in Hin as [[= -> ->]|Hin]; [rewrite Z.eqb_refl; by exists bl|].
  destruct (Z.eqb_spec x a) as [->|Hne].
  - destruct Hx. apply list_elem_of_fmap. by exists (a, n).
  - destruct (IH Hnd Hin) as (bl' & -> & Hp). eexists. split; [reflexivity|]. rewrite Hp. apply Permutation_swap.
Qed.

Lemma free_run a n h :
  NoDup (map fst (blocks h)) → (a, n) ∈ blocks h →
  ∃ bl', free a h = Ok (h <| blocks := bl' |>) ∧ blocks h ≡ₚ (a, n) :: bl'.
Proof. intros Hnd Hin. destruct (free_block_run a n _ Hnd Hin) as (bl' & E & Hp). exists bl'. unfold free. rewrite E. done. Qed.

(** The blocks that entries of the pool own *)
Definition owned_of (l : list UCXAddress) : list (Z * Z) := map (λ a, (address a, alength a)) (filter (λ a, external a = false) l).
Definition owned (p : UCXRecvPool) : list (Z * Z) := owned_of (pool_addresses p).

#[export] Instance owned_of_Proper : Proper ((≡ₚ) ==> (≡ₚ)) owned_of.
Proof. intros l l' H. unfold owned_of. by rewrite H. Qed.

Lemma owned_of_cons a l : owned_of (a :: l) = (if external a then [] else [(address a, alength a)]) ++ owned_of l.
Proof.
  unfold owned_of. destruct (external a) eqn:E; [rewrite filter_cons_False|rewrite filter_cons_True]; simpl; congruence.
Qed.

Lemma free_all_run l h base :
  NoDup (map fst (blocks h)) → blocks h ≡ₚ owned_of l ++ base →
  ∃ h', free_all l h = Ok h' ∧ blocks h' ≡ₚ base.
Proof.
  revert h. induction l as [|a l IH]; intros h Hnd Hp; [by exists h|]. rewrite owned_of_cons in Hp. cbn [free_all]. destruct (external a).
  - rewrite (bind_eq _ (Ok _) _ eq_refl). by apply IH.
  - destruct (free_run (address a) (alength a) h Hnd) as (bl' & E & Hp'); [rewrite Hp; by left|]. rewrite (bind_eq _ _ _ E). apply IH.
    + rewrite Hp' in Hnd. simpl in Hnd. by apply NoDup_cons in Hnd as [_ Hnd].
    + rewrite Hp' in Hp. by apply Permutation_cons_inv in Hp.
Qed.

(** ** Entries *)
Lemma concat_map_insert {K A B} `{Countable K} (f : K * A → list B) (m : gmap K A) k x :
  m !! k = None → concat (map f (map_to_list (<[k := x]> m))) ≡ₚ f (k, x) ++ concat (map f (map_to_list m)).
Proof. intros Hk. by rewrite (map_to_list_insert m k x Hk). Qed.

Lemma entries_set (m : gmap Z UCXAddress) s a :
  ∃ l, map snd (map_to_list m) ≡ₚ option_list (m !! s) ++ l ∧ map snd (map_to_list (<[s := a]> m)) ≡ₚ a :: l.
Proof.
  exists (map snd (map_to_list (delete s m))). split.
  - destruct (m !! s) as [x|] eqn:E; simpl.
    + by rewrite <-(map_to_list_delete m s x E).
    + by rewrite delete_id.
  - rewrite <-insert_delete_eq. by rewrite map_to_list_insert by apply lookup_delete_eq.
Qed.

Lemma pool_addresses_set key s a p :
  ∃ l, pool_addresses p ≡ₚ option_list (pool_entry key s p) ++ l ∧ pool_addresses (set_pool_entry key s a p) ≡ₚ a :: l.
Proof.
  unfold pool_addresses, pool_entry. set (m := rpool_ p). change (rpool_ (set_pool_entry key s a p)) with (<[key := <[s := a]> (default ∅ (m !! key))]> m).
  set (f := λ kv : Z * gmap Z UCXAddress, map snd (map_to_list kv.2)).
  destruct (entries_set (default ∅ (m !! key)) s a) as (l & Hl1 & Hl2). exists (l ++ concat (map f (map_to_list (delete key m)))). split.
  - destruct (m !! key) as [inner|] eqn:E; simpl in *.
    + rewrite <-(insert_delete_id m key inner E) at 1. rewrite concat_map_insert by apply lookup_delete_eq. unfold f at 1. simpl. by rewrite Hl1, app_assoc.
    + rewrite lookup_empty in Hl1. simpl in Hl1. rewrite map_to_list_empty in Hl1. apply Permutation_nil_l in Hl1. subst l. by rewrite delete_id.
  - rewrite <-insert_delete_eq, concat_map_insert by apply lookup_delete_eq. unfold f at 1. cbn [snd]. by rewrite Hl2.
Qed.

(** ** Ownership *)
Section pool.
Context {platform : Platform}.
Context (malloc : list (Z * Z) → Z → Z).
Hypothesis Hmalloc : ∀ bl n, malloc bl n ∉ map fst bl.

(** The blocks in use are those the pool owns and the others. *)
Definition owns (base : list (Z * Z)) (p : UCXRecvPool) (h : host) : Prop :=
  blocks h ≡ₚ owned p ++ base ∧ NoDup (map fst (blocks h)).

(** There is memory of the size, and a registered buffer is not asked for more
    than it has. *)
Definition allowed (key node_id size : Z) (p : UCXRecvPool) : Prop :=
  0 ≤ size ∧ (∀ bl, memalign bl size = true) ∧ ∀ a, pool_entry key node_id p = Some a → external a = true → size ≤ alength a.

Lemma new_buffer_owns base key node_id size p h l :
  (∀ bl, memalign bl size = true) → (∀ a, pool_addresses (set_pool_entry key node_id a p) ≡ₚ a :: l) → blocks h ≡ₚ owned_of l ++ base → NoDup (map fst (blocks h)) →
  ∃ buf p' h', new_buffer malloc key node_id size p h = Ok (buf, p', h') ∧ owns base p' h'.
Proof using Hmalloc.
  intros Hsz Hset Hp Hnd. unfold new_buffer. rewrite Hsz. eexists _, _, _. split; [reflexivity|]. split.
  - unfold owned. rewrite Hset, owned_of_cons. cbn [external address alength]. change (blocks (_ <| mem ::= _ |>)) with ((malloc (blocks h) size, size) :: blocks h). by apply Permutation_skip.
  - change (blocks (_ <| mem ::= _ |>)) with ((malloc (blocks h) size, size) :: blocks h). simpl. apply NoDup_cons. split; [apply Hmalloc|done].
Qed.

(** What an entry owns can be given back. *)
Lemma entry_freed base a l h :
  external a = false → blocks h ≡ₚ owned_of (a :: l) ++ base → NoDup (map fst (blocks h)) →
  ∃ bl, free (address a) h = Ok (h <| blocks := bl |>) ∧ bl ≡ₚ owned_of l ++ base ∧ NoDup (map fst bl).
Proof.
  intros He Hp Hnd. rewrite owned_of_cons, He in Hp. destruct (free_run (address a) (alength a) h Hnd) as (bl & E & Hbl); [rewrite Hp; by left|].
  exists bl. split; [done|]. split; [rewrite Hbl in Hp; by apply Permutation_cons_inv in Hp|].
  rewrite Hbl in Hnd. simpl in Hnd. by apply NoDup_cons in Hnd as [_ Hnd].
Qed.

Lemma set_entry_same key node_id p :
  ∃ l, pool_addresses p ≡ₚ option_list (pool_entry key node_id p) ++ l ∧ ∀ a, pool_addresses (set_pool_entry key node_id a p) ≡ₚ a :: l.
Proof.
  destruct (pool_addresses_set key node_id (mkUCXAddress 0 0 true) p) as (l & Hl & _). exists l. split; [done|].
  intros a. destruct (pool_addresses_set key node_id a p) as (l' & Hl' & ->). rewrite Hl in Hl'. apply Permutation_app_inv_l in Hl'. by rewrite Hl'.
Qed.

Lemma GetRxBuffer_owns base key node_id size p h :
  owns base p h → allowed key node_id size p → ∃ buf p' h', GetRxBuffer malloc key node_id size true p h = Ok (buf, p', h') ∧ owns base p' h'.
Proof using Hmalloc.
  intros [Hp Hnd] (_ & Hsz & Hext). destruct (set_entry_same key node_id p) as (l & Hl & Hset). unfold GetRxBuffer, owned in *. cbn [negb].
  destruct (pool_entry key node_id p) as [a|] eqn:Ea; rewrite Hl in Hp; cbn [option_list app] in Hp.
  - destruct (Z.leb_spec size (alength a)) as [Hle|Hgt].
    + eexists _, _, _. split; [reflexivity|]. split; [|done]. unfold owned. by rewrite Hl.
    + destruct (external a) eqn:He; [specialize (Hext a eq_refl He); lia|].
      destruct (entry_freed base a l h He Hp Hnd) as (bl & E & Hbl & Hnd'). rewrite (bind_eq _ _ _ E).
      by apply (new_buffer_owns base key node_id size p _ l).
  - by apply (new_buffer_owns base key node_id size p h l).
Qed.

Lemma Register_owns base msg p h :
  owns base p h → is_Some (Message.data msg !! 1%nat) → ∃ p' h', Register msg p h = Ok (p', h') ∧ owns base p' h'.
Proof.
  intros [Hp Hnd] [vs Evs]. unfold Register. rewrite Evs. cbn [from_option_or]. rewrite (bind_eq _ (Ok _) _ eq_refl).
  set (key := Meta.key _). set (s := Meta.sender _). destruct (set_entry_same key s p) as (l & Hl & Hset). unfold owned in Hp.
  assert (Hnew : ∀ h', blocks h' ≡ₚ owned_of l ++ base → NoDup (map fst (blocks h')) →
    owns base (set_pool_entry key s (mkUCXAddress (SArray.ptr_ vs) (SArray.size vs) true) p) h').
  { intros h' Hp' Hnd'. split; [|done]. unfold owned. by rewrite Hset, owned_of_cons. }
  rewrite Hl in Hp. destruct (pool_entry key s p) as [a|]; cbn [option_list app] in Hp; [destruct (external a) eqn:He|].
  - rewrite (bind_eq _ (Ok _) _ eq_refl). eexists _, _. split; [reflexivity|]. apply Hnew; [|done]. change (blocks h ≡ₚ owned_of (a :: l) ++ base) in Hp. by rewrite owned_of_cons, He in Hp.
  - destruct (entry_freed base a l h He Hp Hnd) as (bl & E & Hbl & Hnd'). rewrite (bind_eq _ _ _ E). eexists _, _. split; [reflexivity|]. by apply Hnew.
  - rewrite (bind_eq _ (Ok _) _ eq_refl). eexists _, _. split; [reflexivity|]. by apply Hnew.
Qed.

(** The operations on the pool *)
Inductive pool_step : UCXRecvPool * host → UCXRecvPool * host → Prop :=
| step_rx key node_id size p h buf p' h' :
    allowed key node_id size p → GetRxBuffer malloc key node_id size true p h = Ok (buf, p', h') → pool_step (p, h) (p', h')
| step_register msg p h p' h' :
    is_Some (Message.data msg !! 1%nat) → Register msg p h = Ok (p', h') → pool_step (p, h) (p', h').

Lemma steps_own base s s' : rtc pool_step s s' → owns base s.1 s.2 → owns base s'.1 s'.2.
Proof using Hmalloc.
  induction 1 as [|s s1 s' Hstep _ IH]; [done|]. intros Ho. apply IH. destruct Hstep as [key node_id size p h buf p' h' Hal E|msg p h p' h' Hd E]; simpl in *.
  - destruct (GetRxBuffer_owns base key node_id size p h Ho Hal) as (buf2 & p2 & h2 & E2 & Ho2). rewrite E in E2. by injection E2 as -> -> ->.
  - destruct (Register_owns base msg p h Ho Hd) as (p2 & h2 & E2 & Ho2). rewrite E in E2. by injection E2 as -> ->.
Qed.

(** C31. A receive pool can be used in any way for pushes (as long as [posix_memalign]
    finds memory for what is asked for, and no registered buffer is asked for more
    than it has): every buffer it is asked for it gives, every
    buffer registered it takes, and when it is destroyed the blocks in use are
    again those from before it was made. *)
Theorem pool_gives_back h0 p h :
  NoDup (map fst (blocks h0)) → rtc pool_step (new_recv_pool, h0) (p, h) →
  (∀ key node_id size, allowed key node_id size p → ∃ buf p' h', GetRxBuffer malloc key node_id size true p h = Ok (buf, p', h')) ∧
  (∀ msg, is_Some (Message.data msg !! 1%nat) → ∃ p' h', Register msg p h = Ok (p', h')) ∧
  ∃ h', destroy_pool p h = Ok h' ∧ blocks h' ≡ₚ blocks h0.
Proof using Hmalloc.
  intros Hnd Hsteps. assert (owns (blocks h0) p h) as Ho.
  { apply (steps_own (blocks h0) _ _ Hsteps). split; [|done]. unfold owned, pool_addresses, new_recv_pool. simpl. by rewrite map_to_list_empty. }
  split_and!.
  - intros key node_id size Hal. destruct (GetRxBuffer_owns _ key node_id size p h Ho Hal) as (buf & p' & h' & E & _). by exists buf, p', h'.
  - intros msg Hd. destruct (Register_owns _ msg p h Ho Hd) as (p' & h' & E & _). by exists p', h'.
  - destruct Ho as [Hp Hnd']. by apply free_all_run.
Qed.
End pool.

(** A registered buffer that is too small is freed all the same, although it is
    not the pool's: a fault when it is not the start of a block. *)
Lemma registered_buffer_freed `{!Platform} malloc key node_id size p h a :
  pool_entry key node_id p = Some a → external a = true → alength a < size → free_block (address a) (blocks h) = None →
  GetRxBuffer malloc key node_id size true p h = Err (Undefined "free").
Proof.
  intros Ea _ Hlt Hb. unfold GetRxBuffer. cbn [negb]. rewrite Ea, (proj2 (Z.leb_gt _ _) Hlt). unfold free. by rewrite Hb.
Qed.

(** ** A second [Start] *)

Lemma drop_pool_id v v1 : UCXVan.drop_pool v = Ok v1 → UCXVan.pool_id v1 = UCXVan.pool_id v.
Proof.
  unfold UCXVan.drop_pool. destruct (UCXVan.rx_pool_ v).
  - intros E. apply bind_Ok in E as (h & _ & E). injection E as <-. reflexivity.
  - intros E. injection E as <-. reflexivity.
Qed.

(** C40. Every [Start] makes a new pool, but the contexts keep the pool they were made
    with: after a second one (for another customer of the process) the next
    message a context receives is a fault. *)
Theorem second_start_faults `{!Platform} malloc use_cuda v v' c tag bytes raw :
  UCXVan.Start v = Ok v' → (ctx_rx_pool_ c ≤ UCXVan.pool_id v)%nat → UCXVan.SetGpuDeviceId use_cuda c = Ok () →
  UCXVan.raw_header bytes = Ok raw → (RawMeta.option_ raw = UCX_OPTION_META ∨ RawMeta.option_ raw = UCX_OPTION_DATA ∨ 0 < RawMeta.option_ raw) →
  UCXVan.PollRx malloc use_cuda c [UCXVan.mkProbed tag bytes (Some UCS_OK) None] v' = Err (Undefined "rx_pool_").
Proof.
  intros Hstart Hc Hg Hraw Ho.
  assert (Hp : UCXVan.pool_at (ctx_rx_pool_ c) v' = Err (Undefined "rx_pool_")).
  { assert (UCXVan.pool_id v' = S (UCXVan.pool_id v)) as Hid.
    { apply bind_Ok in Hstart as (v1 & Hd & E). apply drop_pool_id in Hd. injection E as <-. change (S (UCXVan.pool_id v1) = S (UCXVan.pool_id v)). rewrite Hd. reflexivity. }
    unfold UCXVan.pool_at. rewrite Hid, (proj2 (Nat.eqb_neq _ _)) by lia. done. }
  unfold UCXVan.PollRx. rewrite (bind_eq _ _ _ Hg). cbn [UCXVan.probe_loop]. unfold UCXVan.PostRecvMeta. cbn [UCXVan.at_once].
  unfold UCXVan.RxMetaCompletedCb, UCXVan.callback_status. rewrite !(bind_eq _ (Ok _) _ eq_refl). cbn beta iota. cbn [raw_meta rdata RequestInit].
  rewrite !(bind_eq _ (Ok _) _ eq_refl). cbn beta iota. cbn [completed]. unfold UCXVan.PostRecvData. cbn [rdata raw_meta UCXVan.contents from_option_or].
  rewrite (bind_eq _ (Ok _) _ eq_refl), (bind_eq _ _ _ Hraw). cbn [req_rx_pool]. destruct Ho as [Ho|[Ho|Ho]].
  - rewrite Ho. cbn. unfold UCXVan.push. by rewrite Hp.
  - rewrite Ho. cbn. by rewrite Hp.
  - rewrite (proj2 (Z.eqb_neq _ _)) by (unfold UCX_OPTION_META; lia). rewrite (proj2 (Z.ltb_lt _ _) Ho). by rewrite Hp.
Qed.

(** ** Examples *)
Definition demo_malloc (bl : list (Z * Z)) (n : Z) : Z := 4096 + foldr (λ b m, Z.max b.1 m) 0 bl.
Lemma demo_malloc_unused bl n : demo_malloc bl n ∉ map fst bl.
Proof.
  assert (∀ a, a ∈ map fst bl → a ≤ foldr (λ b m, Z.max b.1 m) 0 bl) as H.
  { induction bl as [|[a k] bl IH]; intros x Hx; simpl in *; [by apply elem_of_nil in Hx|]. apply elem_of_cons in Hx as [->|Hx]; [lia|]. specialize (IH x Hx). lia. }
  intros Hin. apply H in Hin. unfold demo_malloc in Hin. lia.
Qed.

#[local] Instance demo_platform : Platform := {| asserts := true; memalign := λ _ n, n <=? 2 ^ 20 |}.
Definition demo_host : host := mkHost (λ _, x00) [(64, 8)] [].
Definition demo_rx (key size : Z) (s : UCXRecvPool * host) : UCXRecvPool * host :=
  match GetRxBuffer demo_malloc key 9 size true s.1 s.2 with Ok (_, p, h) => (p, h) | Err _ => s end.
Definition demo_state : UCXRecvPool * host := demo_rx 5 32 (demo_rx 7 16 (demo_rx 5 16 (new_recv_pool, demo_host))).

Lemma pool_gives_back_witness :
  (∀ key node_id size, allowed key node_id size demo_state.1 →
     ∃ buf p' h', GetRxBuffer demo_malloc key node_id size true demo_state.1 demo_state.2 = Ok (buf, p', h')) ∧
  (∀ msg, is_Some (Message.data msg !! 1%nat) → ∃ p' h', Register msg demo_state.1 demo_state.2 = Ok (p', h')) ∧
  ∃ h', destroy_pool demo_state.1 demo_state.2 = Ok h' ∧ blocks h' ≡ₚ blocks demo_host.
Proof.
  apply (pool_gives_back demo_malloc demo_malloc_unused demo_host demo_state.1 demo_state.2).
  - apply (bool_decide_unpack _). vm_compute. exact I.
  - unfold demo_state, demo_rx.
    eapply rtc_l; [eapply (step_rx demo_malloc 5 9 16); [split_and!; [lia|done|intros a Ha; vm_compute in Ha; discriminate Ha]|reflexivity]|].
    eapply rtc_l; [eapply (step_rx demo_malloc 7 9 16); [split_and!; [lia|done|intros a Ha; vm_compute in Ha; discriminate Ha]|reflexivity]|].
    eapply rtc_l; [eapply (step_rx demo_malloc 5 9 32); [split_and!; [lia|done|intros a Ha He; vm_compute in Ha; injection Ha as <-; discriminate He]|reflexivity]|].
    apply rtc_refl.
Defined.

(** A van that was started twice *)
Definition demo_started : UCXVan.t :=
  UCXVan.mk demo_node 4096 false false false ∅ (Some new_recv_pool) 1 ∅ ∅ ∅ [] demo_host [] [] [] false [].
Definition demo_restarted : UCXVan.t := demo_started <| UCXVan.rx_pool_ := Some new_recv_pool |> <| UCXVan.pool_id := 2%nat |>.
Definition demo_barrier : Meta.t := Meta.default <| Meta.option_ := UCX_OPTION_META |>.

Lemma second_start_faults_witness :
  UCXVan.Start demo_started = Ok demo_restarted ∧
  UCXVan.PollRx demo_malloc false (mkUCXContext 1 0 DeviceType.CPU new_ep_pool None)
    [UCXVan.mkProbed 0 (packed false demo_barrier []) (Some UCS_OK) None] demo_restarted = Err (Undefined "rx_pool_").
Proof.
  assert (H : UCXVan.Start demo_started = Ok demo_restarted) by reflexivity. split; [exact H|].
  apply (second_start_faults demo_malloc false demo_started demo_restarted _ 0 (packed false demo_barrier []) (Codec.raw_meta false demo_barrier) H).
  - simpl. lia.
  - reflexivity.
  - vm_compute. reflexivity.
  - left. reflexivity.
Defined.
